(* ===== verification/_CoqProject ===== *)
-Q . S2P
Prelude.v
Store.v
Text.v
Paths.v
PathFacts.v
ProcessingModel.v
ProcessingAdmission.v
ProcessingClaims.v
ProcessingRequests.v
ProcessingMaintenance.v
ProcessingInvariant.v
Bundles.v
BundleFacts.v
ProcessingPublication.v
ProcessingSteps.v
ProcessingTheorems.v
ProcessingWorkers.v
ProcessingFinalization.v
ProcessingProgress.v
AccessModel.v
AccessGrants.v
AccessSharing.v
Authorization.v
AccessSystem.v
AccessSteps.v
AuthorizationTheorems.v
AccessAudience.v
AccessGroupSync.v
WorkspaceModel.v
WorkspaceStatements.v
WorkspaceFiles.v
WorkspaceProjects.v
Collaboration.v
WorkspaceFrames.v
WorkspaceEffects.v
WorkspaceSteps.v
WorkspaceSystem.v
WorkspaceImports.v
CollaborationSteps.v
CollaborationReconcile.v
WorkspaceTheorems.v
Programs.v
RevisionTransfer.v
RevisionTheorems.v
GitTracking.v
GitRevisions.v
GitMerge.v
GitWorktree.v
GitRepository.v
GitSync.v
GitSyncFacts.v
GitSyncTheorems.v
GitPush.v
ObjectCleanup.v
ObjectSteps.v
ObjectTheorems.v
Convergence.v
RealtimeModel.v
RealtimeRooms.v
RealtimeSockets.v
RealtimeInvariant.v
RealtimeMoves.v
RealtimeDatabase.v
RealtimePhases.v
RealtimeHandlers.v
RealtimeTheorems.v
ExternalStatements.v
ExternalImport.v
ExternalCheckpoints.v
ExternalInbound.v
ExternalInvariant.v
ExternalSystem.v
ExternalSteps.v
ExternalJobs.v
ExternalApply.v
ExternalWorkers.v
ExternalImportFacts.v
ExternalPushes.v
ExternalTheorems.v
