(* ===== verification/Prelude.v ===== *)
(** * Verification of TOSS: the Rust backend

    TOSS is a collaborative editor for Typst and LaTeX projects.  Its backend
    (src/backend/src) keeps everything that must survive in PostgreSQL: accounts
    and grants, the files of the projects, the streams of collaborative edits,
    and the queue of processing jobs that workers claim.  This library models
    the operations on these tables as the Rust code performs them, statement by
    statement and transaction by transaction, and proves what they guarantee
    whatever requests arrive, in whatever order, over a server that may fail at
    any statement.

    ** Foundations

    - [Prelude]: results, lists, options, tactics shared by all files.
    - [Store]: the database as the backend uses it.  A table is a finite map; a
      statement is a function on the database that may fail with an
      [sqlx_error]; [Tx] is the code between [db.begin()] and [commit()], with
      Rust's early returns; [transact] runs it.  A [schedule] says for each
      statement whether the server serves it, refuses it, or applies it and
      loses the acknowledgement (at a commit, or at a statement on the pool), so
      a theorem for all schedules is one for every failure of the server.
      Transactions are atomic: the modelled ones serialise by the row and
      advisory locks their statements take, so a concurrent execution is a
      sequence of them.  [wp] is the weakest precondition of a block; [order_by]
      is the ordering of a query.
    - [Text]: Rust strings as lists of scalar values, with their UTF-8 length and
      the character classes of the standard library; identifiers (128 bits),
      instants (microseconds), integers with their bounds and saturating or
      checked operations.
    - [Programs]: a handler or worker that runs several transactions and asks
      the outside in between is a program of database blocks, questions and
      results; other programs run between any two of its steps.  [safe] is its
      rely-guarantee logic, [run_among] its runs between the steps of others.
    - Random identifiers, tokens, clocks and digests are arguments of the
      operations that use them.

    ** Document processing (src/backend/src/document_processing)

    A job is reserved under three quotas, its input is stored, a worker claims
    it under a lease, uploads artifacts through single-use transfers and ends
    the claim; a finalizer takes a token on the delivered job, validates the
    artifacts against the operation's contract and publishes or rejects them;
    maintenance recovers expired leases and enforces deadlines.

    - [ProcessingModel] (model.rs, operation_contract.rs, config.rs,
      worker_protocol.rs and the tables), [ProcessingAdmission] (persistence.rs,
      the pins of project_input.rs), [ProcessingClaims] (worker_persistence.rs), [ProcessingRequests]
      (worker_idempotency.rs), [ProcessingMaintenance] and
      [ProcessingPublication] (finalization.rs), [Bundles] (workspace_bundle.rs,
      pptx.rs).
    - [ProcessingInvariant], [ProcessingSteps]: the invariant of jobs, attempts,
      claims and artifacts and its preservation by every operation;
      [ProcessingTheorems]: all operations as one system and the abstract life
      cycle of a job ([job_edge]) they refine.
    - Theorems: [ProcessingTheorems] (consistency of reachable states, the life
      cycle, immutability of finished jobs, exclusion of workers, bounds on
      attempts and quotas), [ProcessingWorkers] (heartbeats, completion, failure,
      claims), [ProcessingFinalization] (the contract of published results, the
      finalizer's token), [ProcessingProgress] (recovery of expired claims,
      retry delays, idempotent reservation, transfers, replay of worker
      requests), [BundleFacts] (accepted archives are well formed).

    ** Access (src/backend/src/access, templates)

    Roles, organization and group grants, share links and guests, the epoch that
    fences pending writes, and the decision [ensure_project_access].

    - [AccessModel], [AccessGrants], [AccessSharing], [Authorization]: values, tables, operations, decisions;
      [AccessSystem]: all operations as one system, and the capability of a
      credential; [AccessSteps]: invariant and epochs across each operation.
    - Theorems: [AuthorizationTheorems] (consistency, the fence of the access epoch,
      revoked links, the decision is the policy on every branch), [AccessAudience] (the catalogue and the list of people
      agree with authorization), [AccessGroupSync] (group synchronisation).

    ** Workspace and collaboration (src/backend/src/workspace, collaboration)

    The files of a project and the streams of edits on its documents.  A stream
    is named by project, document, collaboration revision and content epoch; it
    is a log of CRDT updates and the snapshot it was compacted into; projecting
    it rewrites the canonical text of the document.  Replacing the content of a
    project starts a new content epoch.  Every change advances the workspace
    version, which Git snapshots and imports are compared against.

    - [Paths], [PathFacts]: file_policy.rs, project_name.rs,
      project_model.rs, project_tree.rs, with sanitising, moves, entry files and
      the tree.
    - [WorkspaceModel], [WorkspaceStatements], [WorkspaceFiles],
      [WorkspaceProjects]: the tables, what a change records,
      the statements of the persistence modules, the operations on files and on
      whole projects.  The database contains the access tables.
    - [Collaboration]: the streams (persistence.rs, updates.rs, bootstrap.rs,
      projection.rs and workspace/collaboration_projection.rs).  The CRDT is the
      crate yrs: the class [Yrs] names the functions the code calls, [YrsLaws]
      what its documentation promises (equivalent documents stay equivalent, a
      document is rebuilt from its encoding, a seeded document has its text);
      [WorkspaceSystem] instantiates both.
    - [WorkspaceSystem]: the operations, those of access included, as one
      system.  Proofs: [WorkspaceFrames] (relations between the
      tables before and after a statement, the invariant of the streams),
      [WorkspaceEffects] (each statement), [WorkspaceSteps], [WorkspaceImports]
      (each operation), [CollaborationSteps], [CollaborationReconcile] (streams).
    - Theorems: [WorkspaceTheorems] (streams hold exactly the accepted updates;
      the canonical text; a successful flush; the access fence on edits; entry
      files; imports overwrite no concurrent change).

    ** Realtime (src/backend/src/collaboration/websocket.rs, rooms.rs, connection_lifecycle.rs)

    Browsers edit over sockets.  A handler subscribes to the room of its
    document, checks the authorization it was admitted with once more, sends the
    stored state and spawns a forwarder; it then stores each update of the
    browser, acknowledges it and publishes it to the room.

    - [RealtimeModel] (events, messages, frames, revalidation), [RealtimeRooms]
      (the world: rooms, channels, connections, broadcasts under way),
      [RealtimeSockets] (requests, handlers and forwarders as state machines,
      and all tasks, one access to shared state at a time, with the other
      operations of the program in between).  The broadcast channel of
      tokio is the class [Broadcast] with the laws of its documentation; a round
      of a forwarder, an authorization and the announcement of one workspace
      change are one step each.
    - [Convergence]: what the laws of Yjs updates (they commute and may be
      repeated) give; [RealtimeDatabase]: epochs only grow.  [RealtimeInvariant] says
      where a connection stands; [RealtimeMoves], [RealtimePhases],
      [RealtimeHandlers] prove that every step
      keeps it; [RealtimeTheorems] has two windows on one document.
    - Theorems: [RealtimeTheorems] (editors converge to the stored document,
      outdated connections are told, rooms keep their channel, nothing follows a
      close, the count of open sockets); a run there shows an update whose
      acknowledgement fails and that is not published.
    - The fields [rt_accepted], [rt_owed], [rt_retired] and [rt_announced] of the
      world are history: no step reads them.

    ** Object storage (src/backend/src/object_storage.rs and the object cleanup)

    Assets and snapshots are objects of an S3 bucket that rows refer to.
    [ObjectCleanup] models the queue of objects to remove and the tasks that
    touch the bucket, which is a set of keys whose every request may be refused
    or answered with an error after it was served.  [ObjectSteps] proves
    that each task keeps references and pins; [ObjectTheorems] that an
    object in use is never removed and that sweeping removes the others.

    ** External repositories (src/backend/src/external_repositories)

    A project can be linked to a repository of a forge: its changes are pushed
    as checkpoints, and remote changes are imported by inbound jobs.

    - [ExternalStatements], [ExternalCheckpoints], [ExternalInbound],
      [ExternalImport]: tables,
      statements, requests, the two workers as [Programs], the scan of a
      checkout; [ExternalSystem]: all of them as one system.  The answers of Git
      and of the forge are arbitrary.
    - [ExternalInvariant], [ExternalSteps], [ExternalJobs] and the files they
      lead to: the invariant of the tables.  Theorems: [ExternalTheorems] (the
      tables, the life cycle of jobs, content changes only with its job),
      [ExternalPushes] (pushes are verified), [ExternalImportFacts] (accepted
      checkouts).
    - Assumptions: one server process runs, and the inbound worker of a provider
      takes up its claims one after the other ([provider_idle]), as
      [spawn_external_git_inbound_worker] does; new jobs have fresh identifiers
      ([fresh_job]).  That no job is claimed again while its program runs is
      proved from this, and not from the leases.  The Git lock of a project is
      not part of this system.

    ** Versioning (src/backend/src/versioning, src/web/src/pages/workspace/revisions.ts)

    The content of a project is mirrored in a Git repository: a flush writes it
    to the worktree and commits it, pulls and pushes go through [git
    http-backend], and the browser shows old revisions.

    - [RevisionTransfer] (revision_transfer.rs, revision_documents.rs,
      revision_state.rs, revision_paths.rs and the function of the browser),
      [RevisionTheorems]: the transfer of a revision as a difference to what the
      browser has.  For the difference to the live content the list of live
      paths must be truthful ([live_agrees]), which it is not after some moves
      of assets.
    - [GitTracking]: the pending mark of a project, in the tables of the
      workspace.  [GitRevisions] (authors.rs, the messages and the list of
      revisions), [GitMerge] (http/merge.rs), [GitWorktree] (materialization.rs,
      worktree_files.rs): identities and trailers, the three-way merge of a
      push, a project written to a worktree and read back.  What is read back is
      the same for projects that a worktree can tell apart ([plain_content]).
    - [GitRepository] (local_repository.rs, commit.rs): the calls of the code on
      git2, which is the class [Git2] with the laws [Git2Laws] of its
      documentation, among them that a commit of the worktree has the files that
      are not ignored; [small_git] instantiates both.
    - [GitSync] (git_persistence.rs, state.rs, flush.rs, create_revision): flushes
      and manual revisions as [Programs] that hold the lock of their project.
      [GitSyncFacts]: their triples, for any invariant of the class [Flushing].
      [GitSyncTheorems]: them and the operations of the workspace as one system,
      a program of which may end anywhere.  The system has no imports of
      repository content, neither pushes nor inbound synchronisations; the paths
      that a .gitignore or .gitattributes is about are excepted where a theorem
      speaks of files.
    - [GitPush] (http.rs, http/receive_pack.rs, the imports of
      materialization.rs): the request of a push or pull, the session of a push,
      its reconciliation and its recovery, and what of a rejected push remains.
      Three runs at its end show edits that a push overtakes.

    ** Bounds and termination

    Every modelled function is structurally recursive or a map over a finite
    table; the development uses no fuel.  Loops of the workers that repeat a
    round for ever are modelled by the round.  Integers keep the bounds of their
    Rust or SQL type where the code can reach them.

    ** Not modelled

    HTTP handlers beyond the decisions they call, serialisation, and the
    processes that run Git, Typst and LaTeX are input and output: what [git
    http-backend] does to a repository and how it ends is an arbitrary answer.  Fields that
    only carry diagnostics (the stage an error names) are dropped.  The manifest
    lists every part of the system with what is left out of it. *)
From stdpp Require Export base tactics option list gmap sorting strings.
From stdpp Require Import natmap.
From Stdlib Require Export ZArith Lia.

(** ** Results of fallible code: Rust's [Result<A, E>] *)

Inductive result (E A : Type) : Type :=
| Ok (a : A)
| Err (e : E).
Arguments Ok {E A} _.
Arguments Err {E A} _.

#[export] Instance result_fmap {E} : FMap (result E) :=
  λ A B f r, match r with Ok a => Ok (f a) | Err e => Err e end.
#[export] Instance result_bind {E} : MBind (result E) :=
  λ A B f r, match r with Ok a => f a | Err e => Err e end.
#[export] Instance result_ret {E} : MRet (result E) := λ A a, Ok a.

Definition is_ok {E A} (r : result E A) : bool :=
  match r with Ok _ => true | Err _ => false end.

(** [Option::ok_or]. *)
Definition ok_or {E A} (o : option A) (e : E) : result E A :=
  match o with Some a => Ok a | None => Err e end.

(** [collect] into a [Result<Vec<A>, E>]: the first error wins. *)
Fixpoint collect_ok {E A} (l : list (result E A)) : result E (list A) :=
  match l with
  | [] => Ok []
  | Ok a :: l => (cons a) <$> collect_ok l
  | Err e :: _ => Err e
  end.

#[export] Instance result_eq_dec {E A} `{!EqDecision E, !EqDecision A} :
  EqDecision (result E A).
Proof. solve_decision. Defined.

(** ** Functional record update

    [upd proj f r] replaces the field [proj] of [r] by [f] of its value.  An
    instance of [Eta] lists the fields of a record once; the [Setter] of each
    field is then found by abstracting the projection out of that term. *)

Class Eta (T : Type) := eta : T → T.
Class Setter {T F : Type} (proj : T → F) := upd : (F → F) → T → T.
Arguments upd {T F} proj {_} _ _.

Ltac field_setter proj :=
  match type of proj with
  | ?T → ?F =>
      let body := eval cbv [eta] in (_ : Eta T) in
      let body := eval hnf in body in
      match eval pattern proj in body with
      | ?G _ => let setter := eval cbv beta in
                  (λ (f : F → F) (r : T), G (λ x : T, f (proj x)) r) in
                exact setter
      end
  end.

#[export] Hint Extern 1 (Setter ?proj) => field_setter proj : typeclass_instances.

Declare Scope record_scope.
Delimit Scope record_scope with rec.
Notation "r <| p := v |>" := (upd p (λ _, v) r)
  (at level 1, left associativity, p at level 9, v at level 199,
   format "r  <|  p  :=  v  |>").

(** ** Hint databases *)

(** Facts about the evolution of the processing tables. *)
Create HintDb processing.

(** ** Stable sorting: Rust's [slice::sort] and [sort_by] *)

Section stable_sort.
Context {A : Type} (R : relation A) `{!RelDecision R}.

Fixpoint insert_sorted (x : A) (l : list A) : list A :=
  match l with
  | [] => [x]
  | y :: l' => if decide (R x y) then x :: l else y :: insert_sorted x l'
  end.
Definition stable_sort (l : list A) : list A := foldr insert_sorted [] l.

Lemma insert_sorted_Permutation x l : insert_sorted x l ≡ₚ x :: l.
Proof.
  induction l as [|y l IH]; simpl; [done|]. case_decide; [done|]. rewrite IH. constructor.
Qed.
Lemma stable_sort_Permutation l : stable_sort l ≡ₚ l.
Proof. induction l as [|x l IH]; simpl; [done|]. by rewrite insert_sorted_Permutation, IH. Qed.
Lemma elem_of_stable_sort x l : x ∈ stable_sort l ↔ x ∈ l.
Proof. by rewrite stable_sort_Permutation. Qed.

(** Sorting by [R] keeps, among elements [R] does not separate, any relation
    [S] the list had. *)
Context `{!Total R, !Transitive R} (S : relation A).

Definition refined : relation A := λ x y, R x y ∧ (R y x → S x y).

Lemma insert_sorted_refined x l :
  Forall (S x) l → StronglySorted refined l → StronglySorted refined (insert_sorted x l).
Proof.
  intros Hx Hs. induction Hs as [|y l Hs IH Hy]; simpl.
  { repeat constructor. }
  apply Forall_cons in Hx as [Hxy Hx]. case_decide as Hd.
  - constructor; [by constructor|]. constructor; [done|].
    rewrite Forall_forall in Hx, Hy |- *. intros z Hz. split; [|auto].
    etrans; [done|]. by apply Hy.
  - constructor; [auto|]. rewrite insert_sorted_Permutation. constructor; [|done].
    destruct (total R x y); [done|]. by split.
Qed.

Lemma stable_sort_refined l : StronglySorted S l → StronglySorted refined (stable_sort l).
Proof.
  induction 1 as [|x l Hs IH Hx]; simpl; [constructor|].
  apply insert_sorted_refined; [by rewrite stable_sort_Permutation|done].
Qed.
End stable_sort.

Lemma elem_of_stable_sort_fmap {A B} (R : relation A) `{!RelDecision R} (f : A → B) y l :
  y ∈ f <$> stable_sort R l ↔ y ∈ f <$> l.
Proof. by rewrite stable_sort_Permutation. Qed.

Lemma StronglySorted_trivial {A} (l : list A) : StronglySorted (λ _ _, True) l.
Proof. induction l; constructor; [done|]. by apply Forall_forall. Qed.

Lemma StronglySorted_impl {A} (R S : relation A) l :
  (∀ x y, R x y → S x y) → StronglySorted R l → StronglySorted S l.
Proof.
  intros HRS. induction 1 as [|x l Hs IH Hx]; constructor; [done|].
  eapply Forall_impl; [exact Hx|]. auto.
Qed.

Lemma StronglySorted_stable_sort {A} (R : relation A) `{!RelDecision R, !Total R, !Transitive R} l :
  StronglySorted R (stable_sort R l).
Proof.
  eapply StronglySorted_impl; [|apply (stable_sort_refined R (λ _ _, True)), StronglySorted_trivial].
  by intros x y [? _].
Qed.

(** ** The first element of a list *)

Lemma head_mem {A} (l : list A) x : head l = Some x → x ∈ l.
Proof. destruct l; [done|]. intros [= ->]. left. Qed.

Lemma head_Some_mem {A} (l : list A) x : x ∈ l → is_Some (head l).
Proof. destruct l; [by intros ?%elem_of_nil|by eexists]. Qed.

Lemma head_fmap_option {A B} (f : A → B) l : head (f <$> l) = f <$> head l.
Proof. by destruct l. Qed.
