(* ===== verification/Store.v ===== *)
(** * The PostgreSQL store as the backend uses it

    A table is a finite map from the primary key to the row, a database any
    record of tables.  A statement reads and rewrites the database or fails
    with an [sqlx_error].  [Tx] is the code between [db.begin()] and
    [transaction.commit()]: a Rust early [return] (the [?] operator included)
    drops the transaction, so it carries the handler's result and no database.
    [transact] runs the block and commits.

    What the server does at each statement is not the program's to decide, so
    a [schedule] says it: serve the statement, refuse it, or, at a commit or a
    statement outside a transaction, apply it and lose the acknowledgement.
    Committed transactions are atomic: the row locks the statements take
    ([for update], advisory locks) serialise the transactions modelled here,
    so a concurrent execution is a sequence of them. *)
From S2P Require Import Prelude.

Inductive sqlx_error : Type :=
| Unavailable
| UniqueViolation
| KeyViolation
| ForeignKeyViolation
| CheckViolation
| OutOfRange
| RowNotFound
| ColumnDecode
| Protocol (message : string).

#[export] Instance sqlx_error_eq_dec : EqDecision sqlx_error.
Proof. solve_decision. Defined.

Inductive verdict : Type := Served | Refused | Unacknowledged.
Definition schedule : Type := nat → verdict.

(** A server that never fails. *)
Definition healthy : schedule := λ _, Served.

(** The schedule of the statements after the first [k]. *)
Definition after (k : nat) (s : schedule) : schedule := λ n, s (k + n).

Definition Tx (DB R A : Type) : Type := DB → nat → R + (A * DB * nat).

Section tx.
Context {DB R : Type}.

#[export] Instance tx_ret : MRet (Tx DB R) := λ A a db n, inr (a, db, n).
#[export] Instance tx_bind : MBind (Tx DB R) := λ A B k m db n,
  match m db n with
  | inl r => inl r
  | inr (a, db', n') => k a db' n'
  end.

(** Rust's [return r] inside the block. *)
Definition early {A} (r : R) : Tx DB R A := λ _ _, inl r.

Definition exec {A} (s : schedule) (fail : sqlx_error → R)
    (q : DB → result sqlx_error (A * DB)) : Tx DB R A := λ db n,
  match s n with
  | Served => match q db with
              | Ok (a, db') => inr (a, db', S n)
              | Err e => inl (fail e)
              end
  | _ => inl (fail Unavailable)
  end.

(** [transaction.rollback().await?; return r]. *)
Definition rollback {A} (s : schedule) (fail : sqlx_error → R) (r : R) : Tx DB R A :=
  λ _ n, inl (match s n with Served => r | _ => fail Unavailable end).

Definition transact (s : schedule) (fail : sqlx_error → R) (body : Tx DB R R)
    (db : DB) : R * DB :=
  match s 0 with
  | Served =>
      match body db 1 with
      | inl r => (r, db)
      | inr (r, db', n) =>
          match s n with
          | Served => (r, db')
          | Refused => (fail Unavailable, db)
          | Unacknowledged => (fail Unavailable, db')
          end
      end
  | _ => (fail Unavailable, db)
  end.

(** A handler that tells a transaction that did not begin from one whose
    commit failed. *)
Definition transact_with (begin_failed commit_failed : sqlx_error → R) (s : schedule)
    (body : Tx DB R R) (db : DB) : R * DB :=
  match s 0 with
  | Served =>
      match body db 1 with
      | inl r => (r, db)
      | inr (r, db', n) =>
          match s n with
          | Served => (r, db')
          | Refused => (commit_failed Unavailable, db)
          | Unacknowledged => (commit_failed Unavailable, db')
          end
      end
  | _ => (begin_failed Unavailable, db)
  end.

(** A handler that goes on after its transaction: the block also returns what
    is needed then, and how the transaction ended decides what comes next. *)
Inductive TxEnd (X : Type) : Type :=
| NotCommitted
| CommitFailed
| Committed (x : X).
#[global] Arguments NotCommitted {X}.
#[global] Arguments CommitFailed {X}.
#[global] Arguments Committed {X} _.

Definition transact_end {X} (s : schedule) (body : Tx DB R (R * X)) (db : DB) : TxEnd X :=
  match s 0 with
  | Served =>
      match body db 1 with
      | inl _ => NotCommitted
      | inr ((_, x), _, n) => match s n with Served => Committed x | _ => CommitFailed end
      end
  | _ => NotCommitted
  end.

Definition transact_then {X} (s : schedule) (fail : sqlx_error → R) (body : Tx DB R (R * X)) :
    DB → R * DB := transact s fail (rx ← body; mret rx.1).

(** A statement executed on the pool, outside any transaction. *)
Definition autocommit {A} (s : schedule) (n : nat)
    (q : DB → result sqlx_error (A * DB)) (db : DB) : result sqlx_error A * DB :=
  match q db with
  | Err e => (Err e, db)
  | Ok (a, db') =>
      match s n with
      | Served => (Ok a, db')
      | Refused => (Err Unavailable, db)
      | Unacknowledged => (Err Unavailable, db')
      end
  end.

(** Iterating a statement over the rows a query returned. *)
Fixpoint tx_for {A} (l : list A) (f : A → Tx DB R unit) : Tx DB R unit :=
  match l with
  | [] => mret ()
  | x :: l => f x ≫= λ _, tx_for l f
  end.
End tx.

(** A read-only statement. *)
Definition reads {DB A} (f : DB → A) : DB → result sqlx_error (A * DB) :=
  λ db, Ok (f db, db).
(** A statement whose result is not used. *)
Definition writes {DB} (f : DB → DB) : DB → result sqlx_error (unit * DB) :=
  λ db, Ok ((), f db).

(** [fetch_one]: no row is an error. *)
Definition fetch_one {DB A} (f : DB → option A) : DB → result sqlx_error (A * DB) :=
  λ db, match f db with Some a => Ok (a, db) | None => Err RowNotFound end.

(** ** Weakest preconditions of transaction blocks

    [wp m E Q] holds of a state when the block [m], run there, either returns
    early with a result satisfying [E] or ends in a state satisfying [Q]. *)
Definition wp {DB R A} (m : Tx DB R A) (E : R → Prop) (Q : A → DB → nat → Prop)
    (db : DB) (n : nat) : Prop :=
  match m db n with
  | inl r => E r
  | inr (a, db', n') => Q a db' n'
  end.

Section wp.
Context {DB R : Type}.
Implicit Types (E : R → Prop) (db : DB).

Lemma wp_ret {A} (a : A) E Q db n : Q a db n → wp (mret a : Tx DB R A) E Q db n.
Proof. done. Qed.

Lemma wp_bind {A B} (m : Tx DB R A) (k : A → Tx DB R B) E Q db n :
  wp m E (λ a db' n', wp (k a) E Q db' n') db n → wp (m ≫= k) E Q db n.
Proof.
  unfold wp, mbind, tx_bind. by destruct (m db n) as [r|[[a db'] n']].
Qed.

Lemma wp_early {A} (r : R) E (Q : A → DB → nat → Prop) db n :
  E r → wp (early r) E Q db n.
Proof. done. Qed.

Lemma wp_exec {A} s fail (q : DB → result sqlx_error (A * DB)) E Q db n :
  (∀ e, E (fail e)) →
  (∀ a db', q db = Ok (a, db') → Q a db' (S n)) →
  wp (exec s fail q) E Q db n.
Proof.
  intros Hf Hq. unfold wp, exec.
  destruct (s n); [|apply Hf..].
  destruct (q db) as [[a db']|e] eqn:Heq; [by apply Hq|apply Hf].
Qed.

Lemma wp_reads {A} s fail (f : DB → A) E Q db n :
  (∀ e, E (fail e)) → Q (f db) db (S n) → wp (exec s fail (reads f)) E Q db n.
Proof. intros Hf Hq. apply wp_exec; [done|]. by intros a db' [= <- <-]. Qed.

Lemma wp_writes s fail (f : DB → DB) E Q db n :
  (∀ e, E (fail e)) → Q () (f db) (S n) → wp (exec s fail (writes f)) E Q db n.
Proof. intros Hf Hq. apply wp_exec; [done|]. by intros a db' [= <- <-]. Qed.

Lemma wp_fetch_one {A} s fail (f : DB → option A) E Q db n :
  (∀ e, E (fail e)) → (∀ a, f db = Some a → Q a db (S n)) →
  wp (exec s fail (fetch_one f)) E Q db n.
Proof.
  intros Hf Hq. apply wp_exec; [done|]. unfold fetch_one. intros a db'.
  destruct (f db) eqn:?; [intros [= <- <-]; by apply Hq|done].
Qed.

Lemma wp_rollback {A} s fail r E (Q : A → DB → nat → Prop) db n :
  (∀ e, E (fail e)) → E r → wp (rollback s fail r) E Q db n.
Proof. intros. unfold wp, rollback. by destruct (s n). Qed.

Lemma wp_for {A} (l : list A) (f : A → Tx DB R unit) E (I : list A → DB → Prop) db n :
  I l db →
  (∀ x l' db' n', I (x :: l') db' → wp (f x) E (λ _ db'' _, I l' db'') db' n') →
  wp (tx_for l f) E (λ _ db' _, I [] db') db n.
Proof.
  intros HI Hstep. induction l as [|x l IH] in db, n, HI |- *; simpl; [done|].
  apply wp_bind. specialize (Hstep x l db n HI) as Hx. unfold wp in Hx |- *.
  destruct (f x db n) as [r|[[? db'] n']]; [done|]. by apply IH.
Qed.

(** A loop that updates, in a table [g db], the rows of distinct keys; [frame]
    relates the states around each statement. *)
Lemma wp_for_keys `{Countable K} {V A} (g : DB → gmap K V) (frame : relation DB) `{!PreOrder frame}
    (l : list A) (key : A → K) (upd : A → option V → option V) (f : A → Tx DB R unit) E db n :
  NoDup (key <$> l) →
  (∀ x db n, x ∈ l → wp (f x) E (λ _ db' _, frame db db'
                        ∧ g db' = partial_alter (upd x) (key x) (g db)) db n) →
  wp (tx_for l f) E (λ _ db' _, frame db db'
    ∧ (∀ x, x ∈ l → g db' !! key x = upd x (g db !! key x))
    ∧ ∀ k, k ∉ key <$> l → g db' !! k = g db !! k) db n.
Proof.
  intros Hnd Hf. induction l as [|x l IH] in db, n, Hnd, Hf |- *; simpl.
  { split; [done|]. split; [by intros ? ?%elem_of_nil|done]. }
  simpl in Hnd. apply NoDup_cons in Hnd as [Hx Hnd]. apply wp_bind.
  assert (x ∈ x :: l) as Hin by left. specialize (Hf x db n Hin) as H1. unfold wp in H1 |- *.
  destruct (f x db n) as [r|[[? db1] n1]]; [done|]. destruct H1 as [Hfr Hg].
  specialize (IH db1 n1 Hnd (λ y db n Hy, Hf y db n (list_elem_of_further _ _ _ Hy))).
  unfold wp in IH. destruct (tx_for l f db1 n1) as [r|[[? db2] n2]]; [done|].
  destruct IH as (Hfr2 & Hin2 & Hout2). split; [by etrans|]. split.
  - intros y [->|Hy]%elem_of_cons.
    + by rewrite Hout2, Hg, lookup_partial_alter_eq.
    + rewrite Hin2, Hg, lookup_partial_alter_ne; [done| |done]. intros Heq. apply Hx. rewrite Heq.
      by apply list_elem_of_fmap_2.
  - intros k [Hk1 Hk2]%not_elem_of_cons. by rewrite Hout2, Hg, lookup_partial_alter_ne.
Qed.

Lemma wp_mono {A} (m : Tx DB R A) E E' (Q Q' : A → DB → nat → Prop) db n :
  wp m E Q db n → (∀ r, E r → E' r) → (∀ a db' n', Q a db' n' → Q' a db' n') →
  wp m E' Q' db n.
Proof. unfold wp. destruct (m db n) as [|[[]]]; eauto. Qed.

(** A handler's outcome from its block: the database is either untouched or
    the block's final one, and the result is the block's unless the server
    failed at [begin] or [commit]. *)
Lemma transact_wp s fail (body : Tx DB R R) (P : R → DB → Prop) db :
  P (fail Unavailable) db →
  wp body (λ r, P r db)
     (λ r db' _, P r db' ∧ P (fail Unavailable) db') db 1 →
  P (transact s fail body db).1 (transact s fail body db).2.
Proof.
  intros Hf Hb. unfold transact, wp in *.
  destruct (s 0); [|done..].
  destruct (body db 1) as [r|[[r db'] n]]; [done|].
  destruct Hb as [Hr Hl]. by destruct (s n).
Qed.

Lemma transact_with_wp begin_failed commit_failed s (body : Tx DB R R) (P : R → DB → Prop) db :
  P (begin_failed Unavailable) db →
  wp body (λ r, P r db)
     (λ r db' _, P r db' ∧ P (commit_failed Unavailable) db' ∧ P (commit_failed Unavailable) db) db 1 →
  P (transact_with begin_failed commit_failed s body db).1
    (transact_with begin_failed commit_failed s body db).2.
Proof.
  intros Hf Hb. unfold transact_with, wp in *.
  destruct (s 0); [|done..].
  destruct (body db 1) as [r|[[r db'] n]]; [done|].
  destruct Hb as (Hr & Hl & Hn). by destruct (s n).
Qed.

Lemma transact_spec s fail (body : Tx DB R R) (P : R → DB → Prop) db r db' :
  transact s fail body db = (r, db') →
  P (fail Unavailable) db →
  wp body (λ r, P r db)
     (λ r db' _, P r db' ∧ P (fail Unavailable) db') db 1 →
  P r db'.
Proof.
  intros Heq Hf Hb. pose proof (transact_wp s fail body P db Hf Hb) as HP.
  by rewrite Heq in HP.
Qed.

(** On a server that never fails, a block that does not return early commits. *)
Lemma transact_healthy fail (body : Tx DB R R) (P : R → DB → Prop) db :
  wp body (λ _, False) (λ r db' _, P r db') db 1 →
  P (transact healthy fail body db).1 (transact healthy fail body db).2.
Proof.
  unfold transact, wp, healthy. by destruct (body db 1) as [|[[r db'] n]].
Qed.

(** Preservation of an invariant by a transaction. *)
Lemma transact_inv (I : DB → Prop) s fail (body : Tx DB R R) db :
  I db → wp body (λ _, True) (λ _ db' _, I db') db 1 → I (transact s fail body db).2.
Proof.
  intros HI Hb. apply (transact_wp s fail body (λ _ db', I db') db HI).
  eapply wp_mono; [exact Hb|done|]. by intros.
Qed.

Lemma wp_then {X} (m : Tx DB R (R * X)) E Q db n :
  wp m E (λ rx db' n', Q rx.1 db' n') db n → wp (rx ← m; mret rx.1) E Q db n.
Proof. intros Hm. apply wp_bind. eapply wp_mono; [exact Hm|done|]. intros. by apply wp_ret. Qed.

Lemma transact_then_inv {X} (I : DB → Prop) s fail (body : Tx DB R (R * X)) db :
  I db → wp body (λ _, True) (λ _ db' _, I db') db 1 → I (transact_then s fail body db).2.
Proof. intros HI Hb. unfold transact_then. apply transact_inv; [done|]. by apply wp_then. Qed.

(** A transaction that ended without a failing commit: what it returned, and
    the final database or the initial one. *)
Lemma transact_end_spec {X} s fail (body : Tx DB R (R * X)) (P : TxEnd X → DB → Prop) db :
  P NotCommitted db →
  wp body (λ _, True) (λ rx db' _, P (Committed rx.2) db' ∧ P CommitFailed db ∧ P CommitFailed db') db 1 →
  P (transact_end s body db) (transact_then s fail body db).2.
Proof.
  unfold transact_end, transact_then, transact, wp, mbind, tx_bind. intros Hno Hb.
  destruct (s 0); [|done..]. destruct (body db 1) as [r|[[[r x] db'] n]]; [done|].
  destruct Hb as (Hc & Hf & Hf'). simpl. by destruct (s n).
Qed.

Lemma autocommit_inv {A} (I : DB → Prop) s n (q : DB → result sqlx_error (A * DB)) db :
  I db → (∀ a db', q db = Ok (a, db') → I db') → I (autocommit s n q db).2.
Proof.
  intros HI Hq. unfold autocommit.
  destruct (q db) as [[a db']|e] eqn:Hdb; [|done].
  destruct (s n); simpl; eauto.
Qed.
End wp.

(** ** Statements on the pool

    A handler that runs its statements one by one, each in its own
    transaction: what a statement wrote stays written when the handler returns
    an error later. *)
Definition Pool (DB E A : Type) : Type := DB → nat → result E A * DB * nat.

Section pool.
Context {DB E : Type}.

#[export] Instance pool_ret : MRet (Pool DB E) := λ A a db n, (Ok a, db, n).
#[export] Instance pool_bind : MBind (Pool DB E) := λ A B k m db n,
  match m db n with
  | (Ok a, db', n') => k a db' n'
  | (Err e, db', n') => (Err e, db', n')
  end.

(** Rust's [return Err(e)]. *)
Definition throw {A} (e : E) : Pool DB E A := λ db n, (Err e, db, n).

Definition stmt {A} (s : schedule) (fail : sqlx_error → E)
    (q : DB → result sqlx_error (A * DB)) : Pool DB E A := λ db n,
  match autocommit s n q db with
  | (Ok a, db') => (Ok a, db', S n)
  | (Err e, db') => (Err (fail e), db', S n)
  end.

(** A statement whose failure is only logged. *)
Definition logged (s : schedule) (q : DB → result sqlx_error (unit * DB)) : Pool DB E unit :=
  λ db n, (Ok (), (autocommit s n q db).2, S n).

Definition run_pool {A} (m : Pool DB E A) (db : DB) : result E A * DB := (m db 0).1.

Definition pool_wp {A} (m : Pool DB E A) (F : E → DB → Prop) (Q : A → DB → nat → Prop)
    (db : DB) (n : nat) : Prop :=
  match m db n with
  | (Ok a, db', n') => Q a db' n'
  | (Err e, db', _) => F e db'
  end.

Implicit Types (F : E → DB → Prop).

Lemma pool_wp_ret {A} (a : A) F (Q : A → DB → nat → Prop) db n :
  Q a db n → pool_wp (mret a : Pool DB E A) F Q db n.
Proof. done. Qed.

Lemma pool_wp_bind {A B} (m : Pool DB E A) (k : A → Pool DB E B) F Q db n :
  pool_wp m F (λ a db' n', pool_wp (k a) F Q db' n') db n → pool_wp (m ≫= k) F Q db n.
Proof. unfold pool_wp, mbind, pool_bind. by destruct (m db n) as [[[a|e] db'] n']. Qed.

Lemma pool_wp_throw {A} (e : E) F (Q : A → DB → nat → Prop) db n :
  F e db → pool_wp (throw e) F Q db n.
Proof. done. Qed.

Lemma pool_wp_reads {A} s fail (f : DB → A) F Q db n :
  (∀ e, F (fail e) db) → Q (f db) db (S n) → pool_wp (stmt s fail (reads f)) F Q db n.
Proof. intros Hf Hq. unfold pool_wp, stmt, autocommit, reads. by destruct (s n). Qed.

Lemma pool_wp_logged s (q : DB → result sqlx_error (unit * DB)) F Q db n :
  Q () db (S n) → (∀ db', q db = Ok ((), db') → Q () db' (S n)) → pool_wp (logged s q) F Q db n.
Proof.
  intros Hf Hq. unfold pool_wp, logged, autocommit.
  destruct (q db) as [[[] db']|e]; [|done]. destruct (s n); simpl; auto.
Qed.

Lemma pool_wp_mono {A} (m : Pool DB E A) F F' (Q Q' : A → DB → nat → Prop) db n :
  pool_wp m F Q db n → (∀ e db', F e db' → F' e db') →
  (∀ a db' n', Q a db' n' → Q' a db' n') → pool_wp m F' Q' db n.
Proof. unfold pool_wp. destruct (m db n) as [[[a|e] db'] n']; eauto. Qed.

Lemma run_pool_spec {A} (m : Pool DB E A) (P : result E A → DB → Prop) db r db' :
  run_pool m db = (r, db') →
  pool_wp m (λ e, P (Err e)) (λ a db' _, P (Ok a) db') db 0 → P r db'.
Proof.
  unfold run_pool, pool_wp. destruct (m db 0) as [[[a|e] db1] n1]; simpl; by intros [= <- <-].
Qed.

Lemma run_pool_wp {A} (m : Pool DB E A) F Q db :
  pool_wp m F Q db 0 →
  match run_pool m db with
  | (Ok a, db') => ∃ n, Q a db' n
  | (Err e, db') => F e db'
  end.
Proof.
  unfold pool_wp, run_pool. destruct (m db 0) as [[[a|e] db'] n]; simpl; [by exists n|done].
Qed.

(** A handler that a change [h] of the database neither affects nor loses. *)
Definition commutes {A} (h : DB → DB) (m : Pool DB E A) : Prop :=
  ∀ db n, m (h db) n = (let '(r, db', n') := m db n in (r, h db', n')).

Lemma commutes_ret {A} h (a : A) : commutes h (mret a : Pool DB E A).
Proof. done. Qed.
Lemma commutes_throw {A} h (e : E) : commutes h (throw e : Pool DB E A).
Proof. done. Qed.
Lemma commutes_bind {A B} h (m : Pool DB E A) (k : A → Pool DB E B) :
  commutes h m → (∀ a, commutes h (k a)) → commutes h (m ≫= k).
Proof.
  intros Hm Hk db n. unfold mbind, pool_bind. rewrite Hm.
  destruct (m db n) as [[[a|e] db'] n']; [apply Hk|done].
Qed.
Lemma commutes_reads {A} h s fail (f : DB → A) :
  (∀ db, f (h db) = f db) → commutes h (stmt s fail (reads f)).
Proof. intros Hf db n. unfold stmt, autocommit, reads. rewrite Hf. by destruct (s n). Qed.
Lemma commutes_logged_writes h s (f : DB → DB) :
  (∀ db, f (h db) = h (f db)) → commutes h (logged s (writes f)).
Proof. intros Hf db n. unfold logged, autocommit, writes. rewrite Hf. by destruct (s n). Qed.
End pool.

Lemma NoDup_fst_filter {A B} (P : A * B → Prop) `{!∀ x, Decision (P x)} (l : list (A * B)) :
  NoDup l.*1 → NoDup (filter P l).*1.
Proof.
  induction l as [|[k v] l IH]; [constructor|].
  intros [Hk Hnd]%NoDup_cons. rewrite filter_cons. case_decide; [|auto].
  simpl. apply NoDup_cons; split; [|auto].
  intros ([k' v'] & -> & Hin)%list_elem_of_fmap. apply Hk.
  apply list_elem_of_fmap. exists (k', v'). by apply list_elem_of_filter in Hin as [_ ?].
Qed.

(** ** Rows of a table: the [select], [update] and [delete] statements *)

Section table.
Context {K V : Type} `{!EqDecision K, !Countable K}.
Implicit Types (t : gmap K V) (P : K → V → bool).

(** [select ... where P]: the rows in the table's enumeration order. *)
Definition select P t : list (K * V) := filter (λ kv, P kv.1 kv.2 = true) (map_to_list t).
Definition count P t : Z := Z.of_nat (length (select P t)).
Definition exists_row P t : bool := negb (bool_decide (select P t = [])).
(** [update ... set f where P] and [delete ... where P]. *)
Definition update_rows P (f : K → V → V) t : gmap K V :=
  map_imap (λ k v, Some (if P k v then f k v else v)) t.
Definition delete_rows P t : gmap K V := filter (λ kv, P kv.1 kv.2 = false) t.
(** [insert] of a row whose key must be free. *)
Definition insert_row (k : K) (v : V) t : result sqlx_error (gmap K V) :=
  match t !! k with Some _ => Err UniqueViolation | None => Ok (<[k := v]> t) end.

Lemma elem_of_select P t k v : (k, v) ∈ select P t ↔ t !! k = Some v ∧ P k v = true.
Proof. unfold select. rewrite list_elem_of_filter, elem_of_map_to_list. naive_solver. Qed.

Lemma NoDup_select P t : NoDup (select P t).*1.
Proof. apply NoDup_fst_filter, NoDup_fst_map_to_list. Qed.

Lemma exists_row_true P t : exists_row P t = true ↔ ∃ k v, t !! k = Some v ∧ P k v = true.
Proof.
  unfold exists_row. rewrite negb_true_iff, bool_decide_eq_false. split.
  - intros Hne. destruct (select P t) as [|[k v] l] eqn:Hs; [done|].
    exists k, v. apply elem_of_select. rewrite Hs. left.
  - intros (k & v & Hkv%elem_of_select) Hnil. rewrite Hnil in Hkv. by apply elem_of_nil in Hkv.
Qed.

Lemma exists_row_false P t :
  exists_row P t = false ↔ ∀ k v, t !! k = Some v → P k v = false.
Proof.
  rewrite <-not_true_iff_false, exists_row_true. split.
  - intros Hn k v Hkv. destruct (P k v) eqn:HP; [|done]. naive_solver.
  - intros Ha (k & v & Hkv & HP). rewrite (Ha k v Hkv) in HP. done.
Qed.

Lemma lookup_update_rows P f t k :
  update_rows P f t !! k = (λ v, if P k v then f k v else v) <$> t !! k.
Proof. unfold update_rows. rewrite map_lookup_imap. by destruct (t !! k). Qed.

Lemma lookup_update_rows_Some P f t k v' :
  update_rows P f t !! k = Some v' ↔
  ∃ v, t !! k = Some v ∧ v' = (if P k v then f k v else v).
Proof. rewrite lookup_update_rows, fmap_Some. done. Qed.

Lemma lookup_delete_rows_Some P t k v :
  delete_rows P t !! k = Some v ↔ t !! k = Some v ∧ P k v = false.
Proof. unfold delete_rows. by rewrite map_lookup_filter_Some. Qed.

Lemma alter_as_insert (f : V → V) k v t : t !! k = Some v → alter f k t = <[k := f v]> t.
Proof.
  intros Hk. apply map_eq. intros k'. rewrite lookup_alter, lookup_insert.
  case_decide; [subst; by rewrite Hk|done].
Qed.

(** An update whose condition holds of one row only. *)
Lemma update_rows_single P (f : K → V → V) k v t :
  t !! k = Some v → P k v = true →
  (∀ k' v', t !! k' = Some v' → P k' v' = true → k' = k) →
  update_rows P f t = <[k := f k v]> t.
Proof.
  intros Hk HP Hu. apply map_eq. intros k'. rewrite lookup_update_rows.
  destruct (decide (k = k')) as [<-|Hne].
  { rewrite Hk, lookup_insert_eq. simpl. by rewrite HP. }
  rewrite lookup_insert_ne by done.
  destruct (t !! k') as [v'|] eqn:Hk'; simpl; [|done].
  destruct (P k' v') eqn:HP'; [|done]. exfalso. apply Hne. symmetry. eauto.
Qed.

(** No row enters a selection unless it was in an earlier one. *)
Lemma count_le P Q t t' :
  (∀ k v, t' !! k = Some v → P k v = true → ∃ v', t !! k = Some v' ∧ Q k v' = true) →
  (count P t' ≤ count Q t)%Z.
Proof.
  intros H. unfold count. rewrite <-(length_fmap fst (select P t')), <-(length_fmap fst (select Q t)).
  apply Nat2Z.inj_le, submseteq_length, NoDup_submseteq; [apply NoDup_select|].
  intros k ([k' v] & -> & [Hv HP]%elem_of_select)%list_elem_of_fmap.
  destruct (H _ _ Hv HP) as (v' & Hv' & HQ).
  apply list_elem_of_fmap. exists (k', v'). split; [done|by apply elem_of_select].
Qed.

Lemma count_insert_le P k v t : (count P (<[k := v]> t) ≤ count P t + 1)%Z.
Proof.
  unfold count. rewrite <-(length_fmap fst (select P _)), <-(length_fmap fst (select P t)).
  cut (length (select P (<[k := v]> t)).*1 ≤ length (k :: (select P t).*1)); [simpl; lia|].
  apply submseteq_length, NoDup_submseteq; [apply NoDup_select|].
  intros k' ([k1 v'] & -> & [Hv HP]%elem_of_select)%list_elem_of_fmap.
  apply lookup_insert_Some in Hv as [[<- <-]|[Hne Hv]]; [left|right].
  apply list_elem_of_fmap. exists (k1, v'). split; [done|by apply elem_of_select].
Qed.

Lemma insert_row_Ok k v t t' :
  insert_row k v t = Ok t' ↔ t !! k = None ∧ t' = <[k := v]> t.
Proof. unfold insert_row. destruct (t !! k); naive_solver. Qed.
End table.

(** ** Ordered selection: [order by key ... limit 1] and [limit n] *)

Section ordered.
Context {A : Type} (key : A → Z).

Definition key_le : relation A := λ x y, (key x ≤ key y)%Z.
#[export] Instance key_le_dec : RelDecision key_le.
Proof. intros x y. unfold key_le. apply _. Defined.
#[export] Instance key_le_total : Total key_le.
Proof. intros x y. unfold key_le. lia. Qed.
#[export] Instance key_le_trans : Transitive key_le.
Proof. intros x y z. unfold key_le. lia. Qed.

(** Rows with equal keys keep the enumeration order: the server may return
    them in any order, and no theorem depends on it. *)
Definition order_by (l : list A) : list A := merge_sort key_le l.

Lemma elem_of_order_by x l : x ∈ order_by l ↔ x ∈ l.
Proof. unfold order_by. by rewrite merge_sort_Permutation. Qed.

Lemma order_by_head_le x l : head (order_by l) = Some x → x ∈ l ∧ ∀ y, y ∈ l → (key x ≤ key y)%Z.
Proof.
  intros Hx. assert (x ∈ order_by l) as Hin.
  { destruct (order_by l); simplify_eq/=. left. }
  split; [by apply elem_of_order_by|]. intros y Hy%elem_of_order_by.
  unfold order_by in *. pose proof (StronglySorted_merge_sort key_le l) as Hs.
  destruct (merge_sort key_le l) as [|x' l']; simplify_eq/=.
  apply StronglySorted_cons in Hs as [Hall _].
  apply elem_of_cons in Hy as [->|Hy]; [done|].
  rewrite Forall_forall in Hall. by apply Hall.
Qed.

Lemma order_by_nil l : order_by l = [] ↔ l = [].
Proof.
  unfold order_by. split; [|intros ->; done]. intros Hn.
  apply Permutation_nil_r. by rewrite <-Hn, merge_sort_Permutation.
Qed.
End ordered.

(** [order by first, second limit 1]. *)
Definition first_by {A} (first second : A → Z) (l : list A) : option A :=
  match order_by first l with
  | [] => None
  | x :: _ => head (order_by second (filter (λ y, first y = first x) l))
  end.

Lemma first_by_None {A} (first second : A → Z) l : first_by first second l = None → l = [].
Proof.
  unfold first_by. destruct (order_by first l) as [|x rest] eqn:Hs; [by apply order_by_nil in Hs|].
  intros Hn. assert (x ∈ l) as Hx by (apply (elem_of_order_by first); rewrite Hs; left).
  destruct (head_Some_mem (order_by second (filter (λ y, first y = first x) l)) x) as [y Hy]; [|congruence].
  by apply elem_of_order_by, list_elem_of_filter.
Qed.

Lemma first_by_Some {A} (first second : A → Z) l x :
  first_by first second l = Some x → x ∈ l ∧ ∀ y, y ∈ l → (first x ≤ first y)%Z.
Proof.
  unfold first_by. destruct (order_by first l) as [|z rest] eqn:Hs; [done|].
  intros [Hxz Hx]%head_mem%elem_of_order_by%list_elem_of_filter. split; [done|]. rewrite Hxz.
  apply order_by_head_le. by rewrite Hs.
Qed.

(** ** Symbolic execution of a block *)

Create HintDb wp.
#[export] Hint Resolve wp_ret wp_early : wp.

Ltac wp_step :=
  match goal with
  | |- wp (let _ := _ in _) _ _ _ _ => cbv zeta
  | |- wp (mret _) _ _ _ _ => apply wp_ret
  | |- wp (early _) _ _ _ _ => apply wp_early
  | |- wp (mbind _ _) _ _ _ _ => apply wp_bind
  | |- wp (exec _ _ (reads _)) _ _ _ _ => apply wp_reads; [try done|]
  | |- wp (exec _ _ (writes _)) _ _ _ _ => apply wp_writes; [try done|]
  | |- wp (exec _ _ (fetch_one _)) _ _ _ _ => apply wp_fetch_one; [try done|intros ? ?]
  | |- wp (rollback _ _ _) _ _ _ _ => apply wp_rollback; [try done|try done]
  | |- wp (if ?b then _ else _) _ _ _ _ => destruct b eqn:?
  | |- wp (match ?x with _ => _ end) _ _ _ _ => destruct x eqn:?
  end.
Ltac wp_steps := repeat (wp_step; simpl; try done).

(** Reduces a property of a transaction's outcome, given as the equation [H],
    to the weakest precondition of its block. *)
Ltac tx_start H :=
  match type of H with
  | transact _ _ _ _ = (?r, ?db') =>
      pattern r, db'; eapply (transact_spec _ _ _ _ _ _ _ H); clear H
  end.
