(* ===== verification/Text.v ===== *)
(** * Rust strings, integers and identifiers

    A [String] is the list of its Unicode scalar values ([char]s); its bytes
    are their UTF-8 encoding, and [str::len] counts bytes.  The character
    classes are those of the Rust standard library: [char::is_whitespace] is
    the White_Space property, [char::is_control] the general category Cc. *)
From S2P Require Import Prelude.

Open Scope N_scope.

Abbreviation text := (list N).
Abbreviation bytes := (list N).

(** An ASCII literal of the source. *)
Definition lit (s : string) : text := Ascii.N_of_ascii <$> String.list_ascii_of_string s.

(** ** Unicode scalar values and UTF-8 *)

Definition scalar (c : N) : bool :=
  ((c <? 0xD800) || ((0xDFFF <? c) && (c <? 0x110000)))%bool.

Definition utf8_char (c : N) : bytes :=
  if c <? 0x80 then [c]
  else if c <? 0x800 then [0xC0 + c / 0x40; 0x80 + c mod 0x40]
  else if c <? 0x10000 then
    [0xE0 + c / 0x1000; 0x80 + (c / 0x40) mod 0x40; 0x80 + c mod 0x40]
  else [0xF0 + c / 0x40000; 0x80 + (c / 0x1000) mod 0x40;
        0x80 + (c / 0x40) mod 0x40; 0x80 + c mod 0x40].

(** [String::into_bytes], [str::as_bytes]. *)
Definition utf8 (t : text) : bytes := t ≫= utf8_char.
(** [str::len]. *)
Definition str_len (t : text) : N := N.of_nat (length (utf8 t)).

Definition in_range (lo hi b : N) : bool := ((lo <=? b) && (b <=? hi))%bool.
Definition continuation (b : N) : bool := in_range 0x80 0xBF b.

(** [std::str::from_utf8]: the well-formed byte sequences of the Unicode
    standard (no overlong forms, no surrogates, nothing above U+10FFFF). *)
Fixpoint from_utf8 (l : bytes) : option text :=
  match l with
  | [] => Some []
  | b0 :: l0 =>
      if b0 <? 0x80 then cons b0 <$> from_utf8 l0
      else match l0 with
      | [] => None
      | b1 :: l1 =>
          if in_range 0xC2 0xDF b0 then
            if continuation b1 then
              cons ((b0 - 0xC0) * 0x40 + (b1 - 0x80)) <$> from_utf8 l1
            else None
          else match l1 with
          | [] => None
          | b2 :: l2 =>
              if in_range 0xE0 0xEF b0 then
                let lo := if b0 =? 0xE0 then 0xA0 else 0x80 in
                let hi := if b0 =? 0xED then 0x9F else 0xBF in
                if (in_range lo hi b1 && continuation b2)%bool then
                  cons ((b0 - 0xE0) * 0x1000 + (b1 - 0x80) * 0x40 + (b2 - 0x80))
                    <$> from_utf8 l2
                else None
              else match l2 with
              | [] => None
              | b3 :: l3 =>
                  if in_range 0xF0 0xF4 b0 then
                    let lo := if b0 =? 0xF0 then 0x90 else 0x80 in
                    let hi := if b0 =? 0xF4 then 0x8F else 0xBF in
                    if (in_range lo hi b1 && continuation b2 && continuation b3)%bool then
                      cons ((b0 - 0xF0) * 0x40000 + (b1 - 0x80) * 0x1000
                            + (b2 - 0x80) * 0x40 + (b3 - 0x80)) <$> from_utf8 l3
                    else None
                  else None
              end
          end
      end
  end.

(** ** Character classes *)

Definition is_whitespace (c : N) : bool :=
  (in_range 0x9 0xD c || (c =? 0x20) || (c =? 0x85) || (c =? 0xA0) || (c =? 0x1680)
   || in_range 0x2000 0x200A c || (c =? 0x2028) || (c =? 0x2029) || (c =? 0x202F)
   || (c =? 0x205F) || (c =? 0x3000))%bool.
Definition is_control (c : N) : bool := ((c <? 0x20) || in_range 0x7F 0x9F c)%bool.
Definition is_ascii_control (c : N) : bool := ((c <? 0x20) || (c =? 0x7F))%bool.
Definition to_ascii_lower (c : N) : N := if in_range 0x41 0x5A c then c + 0x20 else c.

(** ** [str] methods *)

Fixpoint trim_start (t : text) : text :=
  match t with
  | c :: t' => if is_whitespace c then trim_start t' else t
  | [] => []
  end.
Definition trim_end (t : text) : text := reverse (trim_start (reverse t)).
Definition trim (t : text) : text := trim_end (trim_start t).

Fixpoint strip_prefix (p t : text) : option text :=
  match p, t with
  | [], _ => Some t
  | a :: p, b :: t => if a =? b then strip_prefix p t else None
  | _ :: _, [] => None
  end.
Definition starts_with (p t : text) : bool :=
  match strip_prefix p t with Some _ => true | None => false end.
Definition strip_suffix (s t : text) : option text :=
  reverse <$> strip_prefix (reverse s) (reverse t).
Definition ends_with (s t : text) : bool := starts_with (reverse s) (reverse t).

Definition contains_char (c : N) (t : text) : bool := existsb (N.eqb c) t.
Definition replace_char (a b : N) (t : text) : text := (λ c, if c =? a then b else c) <$> t.
Definition to_ascii_lowercase (t : text) : text := to_ascii_lower <$> t.
Definition text_eqb (s t : text) : bool := bool_decide (s = t).
Definition eq_ignore_ascii_case (s t : text) : bool :=
  text_eqb (to_ascii_lowercase s) (to_ascii_lowercase t).

(** [str::split] on a character: always at least one piece. *)
Fixpoint split (sep : N) (t : text) : list text :=
  match t with
  | [] => [[]]
  | c :: t' =>
      if c =? sep then [] :: split sep t'
      else match split sep t' with
           | [] => [[c]]
           | p :: ps => (c :: p) :: ps
           end
  end.
(** [[String]::join]. *)
Fixpoint join (sep : N) (ps : list text) : text :=
  match ps with
  | [] => []
  | [p] => p
  | p :: ps => p ++ sep :: join sep ps
  end.

(** [str::split_whitespace]. *)
Fixpoint split_whitespace_from (word : text) (t : text) : list text :=
  let flush := if text_eqb word [] then [] else [word] in
  match t with
  | [] => flush
  | c :: t => if is_whitespace c then flush ++ split_whitespace_from [] t
              else split_whitespace_from (word ++ [c]) t
  end.
Definition split_whitespace (t : text) : list text := split_whitespace_from [] t.

(** ** Lemmas *)

Lemma strip_prefix_Some p t r : strip_prefix p t = Some r ↔ t = p ++ r.
Proof.
  induction p as [|a p IH] in t |- *; simpl; [naive_solver|].
  destruct t as [|b t]; [naive_solver|]. destruct (N.eqb_spec a b) as [->|Hne].
  - rewrite IH. naive_solver.
  - naive_solver.
Qed.

Lemma starts_with_true p t : starts_with p t = true ↔ ∃ r, t = p ++ r.
Proof.
  unfold starts_with. destruct (strip_prefix p t) as [r|] eqn:Hs.
  - apply strip_prefix_Some in Hs. naive_solver.
  - split; [done|]. intros [r Hr%strip_prefix_Some]. congruence.
Qed.

Lemma ends_with_true s t : ends_with s t = true ↔ ∃ r, t = r ++ s.
Proof.
  unfold ends_with. rewrite starts_with_true. split.
  - intros [r Hr]. exists (reverse r).
    by rewrite <-(reverse_involutive t), Hr, reverse_app, reverse_involutive.
  - intros [r ->]. exists (reverse r). by rewrite reverse_app.
Qed.

Lemma contains_char_true c t : contains_char c t = true ↔ c ∈ t.
Proof.
  unfold contains_char. rewrite existsb_exists. split.
  - intros (x & Hx & ->%N.eqb_eq). by apply list_elem_of_In.
  - intros Hc. exists c. split; [by apply list_elem_of_In|]. by apply N.eqb_eq.
Qed.

Lemma contains_char_false c t : contains_char c t = false ↔ c ∉ t.
Proof. rewrite <-contains_char_true. by destruct (contains_char c t). Qed.

Lemma text_eqb_true s t : text_eqb s t = true ↔ s = t.
Proof. apply bool_decide_eq_true. Qed.
Lemma text_eqb_false s t : text_eqb s t = false ↔ s ≠ t.
Proof. apply bool_decide_eq_false. Qed.

(** *** Splitting and joining *)

Lemma split_nonempty sep t : split sep t ≠ [].
Proof. destruct t as [|c t]; simpl; [done|]. repeat case_match; done. Qed.

Lemma split_no_sep sep t p : p ∈ split sep t → sep ∉ p.
Proof.
  induction t as [|c t IH] in p |- *; simpl.
  - intros ->%list_elem_of_singleton. by intros ?%elem_of_nil.
  - destruct (N.eqb_spec c sep) as [->|Hne].
    + intros [->|Hp]%elem_of_cons; [by intros ?%elem_of_nil|auto].
    + destruct (split sep t) as [|q qs] eqn:Hs; [by apply split_nonempty in Hs|].
      intros [->|Hp]%elem_of_cons.
      * intros [->|Hin]%elem_of_cons; [done|]. eapply IH; [left|done].
      * apply IH. by right.
Qed.

Lemma join_split sep t : join sep (split sep t) = t.
Proof.
  induction t as [|c t IH]; simpl; [done|].
  destruct (split sep t) as [|q qs] eqn:Hs; [by apply split_nonempty in Hs|].
  destruct (N.eqb_spec c sep) as [->|Hne].
  - simpl in *. by rewrite IH.
  - destruct qs; simpl in *; by rewrite <-IH.
Qed.

Lemma split_app_sep sep p t : sep ∉ p → split sep (p ++ sep :: t) = p :: split sep t.
Proof.
  induction p as [|c p IH]; intros Hp; simpl.
  - by rewrite N.eqb_refl.
  - apply not_elem_of_cons in Hp as [Hne Hp].
    destruct (N.eqb_spec c sep); [congruence|]. by rewrite IH.
Qed.

Lemma split_single sep p : sep ∉ p → split sep p = [p].
Proof.
  induction p as [|c p IH]; intros Hp; simpl; [done|].
  apply not_elem_of_cons in Hp as [Hne Hp].
  destruct (N.eqb_spec c sep); [congruence|]. by rewrite IH.
Qed.

Lemma split_join sep ps :
  ps ≠ [] → Forall (λ p, sep ∉ p) ps → split sep (join sep ps) = ps.
Proof.
  intros Hne Hall. induction ps as [|p ps IH]; [done|].
  apply Forall_cons in Hall as [Hp Hall]. destruct ps as [|q qs].
  - by apply split_single.
  - change (join sep (p :: q :: qs)) with (p ++ sep :: join sep (q :: qs)).
    rewrite split_app_sep by done. f_equal. by apply IH.
Qed.

Lemma elem_of_join sep c ps : c ∈ join sep ps → c = sep ∨ ∃ p, p ∈ ps ∧ c ∈ p.
Proof.
  induction ps as [|p ps IH]; simpl; [by intros ?%elem_of_nil|].
  destruct ps as [|q qs].
  - intros Hc. right. exists p. split; [left|done].
  - intros [Hc|[->|Hc]%elem_of_cons]%elem_of_app.
    + right. exists p. split; [left|done].
    + by left.
    + destruct (IH Hc) as [->|(r & Hr & Hcr)]; [by left|].
      right. exists r. split; [by right|done].
Qed.

(** *** Trimming *)

(** A text without leading and trailing white space: [trim] leaves it alone. *)
Definition trimmed (t : text) : Prop :=
  match head t with Some c => is_whitespace c = false | None => True end ∧
  match last t with Some c => is_whitespace c = false | None => True end.

Lemma trim_start_head t :
  match head (trim_start t) with Some c => is_whitespace c = false | None => True end.
Proof. induction t as [|c t IH]; simpl; [done|]. by destruct (is_whitespace c) eqn:?. Qed.

Lemma trim_start_id t :
  match head t with Some c => is_whitespace c = false | None => True end → trim_start t = t.
Proof. destruct t as [|c t]; simpl; [done|]. by intros ->. Qed.

Lemma trim_start_suffix t : ∃ w, t = w ++ trim_start t ∧ Forall (λ c, is_whitespace c = true) w.
Proof.
  induction t as [|c t (w & Hw & Hall)]; [by exists []|]. simpl.
  destruct (is_whitespace c) eqn:Hc; [|by exists []].
  exists (c :: w). split; [by rewrite Hw at 1|by constructor].
Qed.

Lemma last_reverse {A} (l : list A) : last (reverse l) = head l.
Proof. by rewrite <-head_reverse, reverse_involutive. Qed.

Lemma trim_trimmed t : trimmed (trim t).
Proof.
  unfold trim, trim_end, trimmed. set (u := trim_start t). split.
  - destruct (trim_start_suffix (reverse u)) as (w & Hw & _).
    rewrite head_reverse.
    pose proof (trim_start_head t) as Hh. fold u in Hh.
    rewrite <-(last_reverse u) in Hh. rewrite Hw, last_app in Hh.
    by destruct (last (trim_start (reverse u))).
  - rewrite last_reverse. apply trim_start_head.
Qed.

Lemma trim_id t : trimmed t → trim t = t.
Proof.
  intros [Hh Hl]. unfold trim, trim_end. rewrite (trim_start_id t) by done.
  rewrite trim_start_id; [by rewrite reverse_involutive|]. by rewrite head_reverse.
Qed.

Lemma trim_idemp t : trim (trim t) = trim t.
Proof. apply trim_id, trim_trimmed. Qed.

Lemma elem_of_trim_start c t : c ∈ trim_start t → c ∈ t.
Proof.
  destruct (trim_start_suffix t) as (w & Hw & _). rewrite Hw at 2. set_solver.
Qed.

Lemma elem_of_trim c t : c ∈ trim t → c ∈ t.
Proof.
  unfold trim, trim_end. intros Hc.
  apply elem_of_reverse, elem_of_trim_start, elem_of_reverse, elem_of_trim_start in Hc.
  done.
Qed.

(** *** UTF-8 *)

Lemma in_range_true lo hi b : in_range lo hi b = true ↔ lo ≤ b ∧ b ≤ hi.
Proof. unfold in_range. rewrite andb_true_iff, !N.leb_le. done. Qed.

Ltac utf8_ranges :=
  unfold continuation in *;
  rewrite ?andb_true_iff, ?in_range_true in *;
  repeat match goal with H : _ ∧ _ |- _ => destruct H end.

Lemma utf8_char_2 a b :
  in_range 0xC2 0xDF a = true → continuation b = true →
  utf8_char ((a - 0xC0) * 0x40 + (b - 0x80)) = [a; b].
Proof.
  intros. utf8_ranges. unfold utf8_char.
  destruct (N.ltb_spec ((a - 0xC0) * 0x40 + (b - 0x80)) 0x80); [lia|].
  destruct (N.ltb_spec ((a - 0xC0) * 0x40 + (b - 0x80)) 0x800); [|lia].
  repeat f_equal; zify; Z.to_euclidean_division_equations; lia.
Qed.
Lemma utf8_char_3 a b c :
  in_range 0xE0 0xEF a = true →
  in_range (if a =? 0xE0 then 0xA0 else 0x80) (if a =? 0xED then 0x9F else 0xBF) b = true →
  continuation c = true →
  utf8_char ((a - 0xE0) * 0x1000 + (b - 0x80) * 0x40 + (c - 0x80)) = [a; b; c].
Proof.
  intros. utf8_ranges. unfold utf8_char.
  set (u := (a - 0xE0) * 0x1000 + (b - 0x80) * 0x40 + (c - 0x80)).
  destruct (N.eqb_spec a 0xE0), (N.eqb_spec a 0xED);
  (destruct (N.ltb_spec u 0x80); [subst u; lia|]);
  (destruct (N.ltb_spec u 0x800); [subst u; lia|]);
  (destruct (N.ltb_spec u 0x10000); [subst u|subst u; lia]);
  repeat f_equal; zify; Z.to_euclidean_division_equations; lia.
Qed.
Lemma utf8_char_4 a b c d :
  in_range 0xF0 0xF4 a = true →
  in_range (if a =? 0xF0 then 0x90 else 0x80) (if a =? 0xF4 then 0x8F else 0xBF) b = true →
  continuation c = true → continuation d = true →
  utf8_char ((a - 0xF0) * 0x40000 + (b - 0x80) * 0x1000 + (c - 0x80) * 0x40 + (d - 0x80))
  = [a; b; c; d].
Proof.
  intros. utf8_ranges. unfold utf8_char.
  set (u := (a - 0xF0) * 0x40000 + (b - 0x80) * 0x1000 + (c - 0x80) * 0x40 + (d - 0x80)).
  destruct (N.eqb_spec a 0xF0), (N.eqb_spec a 0xF4);
  (destruct (N.ltb_spec u 0x80); [subst u; lia|]);
  (destruct (N.ltb_spec u 0x800); [subst u; lia|]);
  (destruct (N.ltb_spec u 0x10000); [subst u; lia|subst u]);
  repeat f_equal; zify; Z.to_euclidean_division_equations; lia.
Qed.

Lemma utf8_cons c t : utf8 (c :: t) = utf8_char c ++ utf8 t.
Proof. done. Qed.

Lemma utf8_from_utf8_length n : ∀ l t, (length l ≤ n)%nat → from_utf8 l = Some t → utf8 t = l.
Proof.
  induction n as [|n IH]; intros [|a l] t Hn; simpl in Hn; try lia; try by intros [= <-].
  simpl. destruct (N.ltb_spec a 0x80).
  { intros (u & Hu & ->)%fmap_Some_1. apply IH in Hu; [|lia]. rewrite utf8_cons, Hu.
    unfold utf8_char. by destruct (N.ltb_spec a 0x80); [|lia]. }
  destruct l as [|b l]; [done|]. destruct (in_range 0xC2 0xDF a) eqn:?.
  { destruct (continuation b) eqn:?; [|done]. intros (u & Hu & ->)%fmap_Some_1.
    apply IH in Hu; [|simpl in *; lia]. by rewrite utf8_cons, Hu, utf8_char_2. }
  destruct l as [|c l]; [done|]. destruct (in_range 0xE0 0xEF a) eqn:?.
  { destruct (_ && _)%bool eqn:Hc; [|done]. apply andb_true_iff in Hc as [? ?].
    intros (u & Hu & ->)%fmap_Some_1.
    apply IH in Hu; [|simpl in *; lia]. by rewrite utf8_cons, Hu, utf8_char_3. }
  destruct l as [|d l]; [done|]. destruct (in_range 0xF0 0xF4 a) eqn:?; [|done].
  destruct (_ && _)%bool eqn:Hc; [|done]. apply andb_true_iff in Hc as [[? ?]%andb_true_iff ?].
  intros (u & Hu & ->)%fmap_Some_1.
  apply IH in Hu; [|simpl in *; lia]. by rewrite utf8_cons, Hu, utf8_char_4.
Qed.

(** Decoding accepts only encodings. *)
Lemma utf8_from_utf8 l t : from_utf8 l = Some t → utf8 t = l.
Proof. by apply (utf8_from_utf8_length (length l)). Qed.

(** Encodings are decoded. *)
Lemma in_range_false lo hi b : b < lo ∨ hi < b → in_range lo hi b = false.
Proof. intros ?. apply not_true_iff_false. rewrite in_range_true. lia. Qed.
Lemma base_64 q : q = 0x40 * (q / 0x40) + q mod 0x40 ∧ q mod 0x40 < 0x40.
Proof. split; [by apply N.div_mod|by apply N.mod_upper_bound]. Qed.
Lemma from_utf8_2 x y l :
  2 ≤ x → x < 0x20 → y < 0x40 →
  from_utf8 (0xC0 + x :: 0x80 + y :: l) = cons (0x40 * x + y) <$> from_utf8 l.
Proof.
  intros. cbn [from_utf8]. unfold continuation. rewrite (proj2 (N.ltb_ge _ _)) by lia.
  rewrite !(proj2 (in_range_true _ _ _)) by lia. do 2 f_equal. lia.
Qed.
Lemma from_utf8_3 x y z l (c := 0x1000 * x + 0x40 * y + z) :
  0x800 ≤ c → c < 0xD800 ∨ 0xDFFF < c → x < 0x10 → y < 0x40 → z < 0x40 →
  from_utf8 (0xE0 + x :: 0x80 + y :: 0x80 + z :: l) = cons c <$> from_utf8 l.
Proof.
  intros. cbn [from_utf8]. unfold continuation. rewrite (proj2 (N.ltb_ge _ _)) by lia.
  rewrite (in_range_false 0xC2), (proj2 (in_range_true 0xE0 _ _)) by lia.
  destruct (N.eqb_spec (0xE0 + x) 0xE0), (N.eqb_spec (0xE0 + x) 0xED); subst c; try lia;
    rewrite !(proj2 (in_range_true _ _ _)) by lia; simpl; do 2 f_equal; lia.
Qed.
Lemma from_utf8_4 w x y z l (c := 0x40000 * w + 0x1000 * x + 0x40 * y + z) :
  0x10000 ≤ c → c < 0x110000 → x < 0x40 → y < 0x40 → z < 0x40 →
  from_utf8 (0xF0 + w :: 0x80 + x :: 0x80 + y :: 0x80 + z :: l) = cons c <$> from_utf8 l.
Proof.
  intros. cbn [from_utf8]. unfold continuation. rewrite (proj2 (N.ltb_ge _ _)) by lia.
  rewrite (in_range_false 0xC2), (in_range_false 0xE0), (proj2 (in_range_true 0xF0 _ _)) by (subst c; lia).
  destruct (N.eqb_spec (0xF0 + w) 0xF0), (N.eqb_spec (0xF0 + w) 0xF4); subst c; try lia;
    rewrite !(proj2 (in_range_true _ _ _)) by lia; simpl; do 2 f_equal; lia.
Qed.
Lemma from_utf8_char c l : scalar c = true → from_utf8 (utf8_char c ++ l) = cons c <$> from_utf8 l.
Proof.
  unfold scalar. rewrite orb_true_iff, andb_true_iff, !N.ltb_lt. intros Hs. unfold utf8_char.
  destruct (base_64 c) as [H1 H2], (base_64 (c / 0x40)) as [H3 H4], (base_64 (c / 0x1000)) as [H5 H6].
  rewrite N.Div0.div_div in H3, H5. change (0x40 * 0x40) with 0x1000 in H3. change (0x1000 * 0x40) with 0x40000 in H5.
  revert H1 H2 H3 H4 H5 H6. generalize (c / 0x40) (c mod 0x40). intros q z.
  generalize (c / 0x1000) (q mod 0x40) (c / 0x40000). intros x y w. generalize (x mod 0x40). intros x' ??????.
  destruct (N.ltb_spec c 0x80).
  { cbn [app from_utf8]. by rewrite (proj2 (N.ltb_lt _ _)). }
  destruct (N.ltb_spec c 0x800).
  { cbn [app]. rewrite from_utf8_2 by lia. do 2 f_equal. lia. }
  destruct (N.ltb_spec c 0x10000); cbn [app].
  - rewrite from_utf8_3 by lia. do 2 f_equal. lia.
  - rewrite from_utf8_4 by lia. do 2 f_equal. lia.
Qed.
Lemma from_utf8_utf8 t : Forall (λ c, scalar c = true) t → from_utf8 (utf8 t) = Some t.
Proof. induction 1 as [|c t Hc _ IH]; [done|]. by rewrite utf8_cons, from_utf8_char, IH. Qed.

(** * Values the tables share: identifiers, instants, machine integers

    A [Uuid] is its 128-bit number, a [DateTime<Utc>] or a [chrono::Duration]
    a number of microseconds; integers keep the bounds and the saturating or
    checked operations of their Rust width. *)
Open Scope Z_scope.

Abbreviation uuid := N.
(** [DateTime<Utc>] and [chrono::Duration], in microseconds. *)
Abbreviation time := Z.
Definition seconds (n : Z) : Z := n * 1000000.

(** ** Machine integers *)
Definition i32_max : Z := 2147483647.
Definition i64_min : Z := -9223372036854775808.
Definition i64_max : Z := 9223372036854775807.
Definition u64_max : Z := 18446744073709551615.
Definition i32_min : Z := -2147483648.
Definition i32_saturating_sub (a b : Z) : Z := Z.max i32_min (Z.min i32_max (a - b)).
Definition i32_saturating_add (a b : Z) : Z := Z.max i32_min (Z.min i32_max (a + b)).
Definition u64_saturating_mul (a b : Z) : Z := Z.min u64_max (a * b).
(** [u64::checked_add]. *)
Definition u64_checked_add (a b : Z) : option Z :=
  if u64_max <? a + b then None else Some (a + b).
(** [i64::try_from(content.len()).unwrap_or(i64::MAX)]. *)
Definition len_i64 (content : bytes) : Z := Z.min i64_max (Z.of_nat (length content)).
