(* ===== verification/Paths.v ===== *)
(** * Project paths and names (workspace::file_policy, project_model,
      project_name, project_tree; the archive-name policies of
      document_processing) *)
From S2P Require Import Prelude Text.

Open Scope N_scope.

Definition slash : N := 0x2F.
Definition backslash : N := 0x5C.
Definition colon : N := 0x3A.
Definition nul : N := 0.

(** ** workspace::file_policy *)

Inductive InvalidProjectPath : Type := InvalidPath.

Definition sanitize_segment (segment : text) : result InvalidProjectPath text :=
  let segment := trim segment in
  if (text_eqb segment [] || text_eqb segment (lit ".") || text_eqb segment (lit "..")
      || eq_ignore_ascii_case segment (lit ".git") || contains_char nul segment)%bool
  then Err InvalidPath else Ok segment.

Fixpoint sanitize_segments (segments : list text) : result InvalidProjectPath (list text) :=
  match segments with
  | [] => Ok []
  | s :: ss =>
      p ← sanitize_segment s; ps ← sanitize_segments ss; Ok (p :: ps)
  end.

Definition sanitize_project_path (raw : text) : result InvalidProjectPath text :=
  let trimmed := trim raw in
  if (text_eqb trimmed [] || starts_with [slash] trimmed)%bool then Err InvalidPath
  else
    let canonical := replace_char backslash slash trimmed in
    parts ← sanitize_segments (split slash canonical);
    if bool_decide (parts = []) then Err InvalidPath else Ok (join slash parts).

Definition path_is_in_subtree (path subtree : text) : bool :=
  (text_eqb path subtree
   || match strip_prefix subtree path with
      | Some suffix => starts_with [slash] suffix
      | None => false
      end)%bool.

Definition move_path_with_subtree (path from to : text) : option text :=
  if text_eqb path from then Some to
  else match strip_prefix from path with
       | Some suffix => if starts_with [slash] suffix then Some (to ++ suffix) else None
       | None => None
       end.

Definition document_extensions : list text :=
  lit <$> [".typ"; ".tex"; ".ltx"; ".sty"; ".cls"; ".bst"; ".bib"; ".txt"; ".md"; ".json";
           ".toml"; ".yaml"; ".yml"; ".csv"; ".xml"; ".html"; ".css"; ".js"; ".ts"; ".tsx";
           ".jsx"]%string.

Definition is_document_text_path (path : text) : bool :=
  existsb (λ extension, ends_with extension (to_ascii_lowercase path)) document_extensions.

Definition looks_like_text (content : bytes) : bool :=
  (negb (existsb (N.eqb 0) content) && bool_decide (is_Some (from_utf8 content)))%bool.

(** ** workspace::project_name *)

Definition MAX_PROJECT_NAME_CHARS : nat := 200.

Inductive InvalidProjectName : Type := InvalidName.

Definition parse_project_name (raw : text) : result InvalidProjectName text :=
  let value := trim raw in
  if (text_eqb value [] || (MAX_PROJECT_NAME_CHARS <? length value)%nat
      || existsb is_control value)%bool
  then Err InvalidName else Ok value.

(** ** workspace::project_model *)

Inductive LatexEngine : Type := Pdftex | Xetex.
Inductive ProjectType : Type := Typst | Latex.
#[export] Instance LatexEngine_eq_dec : EqDecision LatexEngine.
Proof. solve_decision. Defined.
#[export] Instance ProjectType_eq_dec : EqDecision ProjectType.
Proof. solve_decision. Defined.

Definition default_entry_file_path (t : ProjectType) : text :=
  match t with Typst => lit "main.typ" | Latex => lit "main.tex" end.
Definition default_latex_engine (t : ProjectType) : option LatexEngine :=
  match t with Typst => None | Latex => Some Xetex end.
Definition accepts_entry_file_path (t : ProjectType) (path : text) : bool :=
  let path := to_ascii_lowercase path in
  match t with
  | Typst => ends_with (lit ".typ") path
  | Latex => (ends_with (lit ".tex") path || ends_with (lit ".ltx") path)%bool
  end.

(** Rust compares strings by their bytes; on well-formed UTF-8 that is the
    lexicographic order of the scalar values. *)
Fixpoint text_leb (s t : text) : bool :=
  match s, t with
  | [], _ => true
  | _ :: _, [] => false
  | a :: s, b :: t => if a <? b then true else if b <? a then false else text_leb s t
  end.
Definition text_le : relation text := λ s t, text_leb s t = true.
#[export] Instance text_le_dec : RelDecision text_le.
Proof. intros s t. unfold text_le. apply _. Defined.
#[export] Instance text_le_total : Total text_le.
Proof.
  intros s. unfold text_le. induction s as [|a s IH]; intros [|b t]; simpl; auto.
  destruct (N.ltb_spec a b), (N.ltb_spec b a); auto; lia.
Qed.
#[export] Instance text_le_trans : Transitive text_le.
Proof.
  intros s. unfold text_le. induction s as [|a s IH]; intros [|b t] [|c u]; simpl; auto; try done.
  destruct (N.ltb_spec a b), (N.ltb_spec b c), (N.ltb_spec a c), (N.ltb_spec b a),
    (N.ltb_spec c b), (N.ltb_spec c a); try done; try lia; eauto.
Qed.

(** [Vec<String>::sort]. *)
Definition sort_text (l : list text) : list text := stable_sort text_le l.

Definition preferred_entry_file_paths (t : ProjectType) : list text :=
  lit <$> match t with
          | Typst => ["main.typ"; "slides.typ"; "document.typ"]
          | Latex => ["main.tex"; "paper.tex"; "document.tex"]
          end%string.

Definition choose_entry_file_path (t : ProjectType) (current : text)
    (document_paths : list text) : option text :=
  let candidates := sort_text (filter (λ p, accepts_entry_file_path t p = true) document_paths) in
  if existsb (text_eqb current) candidates then Some current
  else match head (filter (λ p, existsb (text_eqb p) candidates = true)
                          (preferred_entry_file_paths t)) with
       | Some p => Some p
       | None => head candidates
       end.

(** ** workspace::project_tree *)

Inductive ProjectFileKind : Type := File | Directory.
#[export] Instance ProjectFileKind_eq_dec : EqDecision ProjectFileKind.
Proof. solve_decision. Defined.

Record ProjectFileNode : Type := Node { node_path : text; node_kind : ProjectFileKind }.
#[export] Instance ProjectFileNode_eq_dec : EqDecision ProjectFileNode.
Proof. solve_decision. Defined.

(** The loop of [collect_parent_directories]: it stops at the last component. *)
Fixpoint collect_parents (current : text) (components : list text)
    (directories : gset text) : gset text :=
  match components with
  | [] | [_] => directories
  | component :: rest =>
      let current := (if text_eqb current [] then [] else current ++ [slash]) ++ component in
      collect_parents current rest ({[current]} ∪ directories)
  end.

Definition collect_parent_directories (path : text) (directories : gset text) : gset text :=
  collect_parents [] (split slash path) directories.

Record ProjectTreeRecord : Type := TreeRecord {
  tree_project_type : ProjectType;
  tree_entry_file_path : option text;
  tree_document_paths : list text;
  tree_asset_paths : list text;
  tree_directory_paths : list text;
  tree_content_epoch : Z;
}.

Record ProjectTreeResponse : Type := TreeResponse {
  nodes : list ProjectFileNode;
  entry_file_path : text;
  content_epoch : Z;
}.

Inductive LoadProjectTreeError : Type := InvalidStoredPath (path : text).

(** The three loops over the stored paths; [keep] is the filter of the
    document loop. *)
Fixpoint collect_files (keep : text → bool) (paths : list text)
    (acc : gset text * list ProjectFileNode) :
    result LoadProjectTreeError (gset text * list ProjectFileNode) :=
  match paths with
  | [] => Ok acc
  | stored :: paths =>
      match sanitize_project_path stored with
      | Err _ => Err (InvalidStoredPath stored)
      | Ok path =>
          if negb (keep path) then collect_files keep paths acc
          else collect_files keep paths
                 (collect_parent_directories path acc.1, acc.2 ++ [Node path File])
      end
  end.

Fixpoint collect_directories (paths : list text) (directories : gset text) :
    result LoadProjectTreeError (gset text) :=
  match paths with
  | [] => Ok directories
  | stored :: paths =>
      match sanitize_project_path stored with
      | Err _ => Err (InvalidStoredPath stored)
      | Ok path => collect_directories paths ({[path]} ∪ directories)
      end
  end.

Definition node_le : relation ProjectFileNode := λ a b, text_le (node_path a) (node_path b).
#[export] Instance node_le_dec : RelDecision node_le.
Proof. intros a b. unfold node_le. apply _. Defined.
#[export] Instance node_le_total : Total node_le.
Proof. intros a b. unfold node_le. apply text_le_total. Qed.
#[export] Instance node_le_trans : Transitive node_le.
Proof. intros a b c. unfold node_le. apply text_le_trans. Qed.

(** [Vec::dedup_by]: of consecutive equal elements the first is kept. *)
Fixpoint dedup_nodes (l : list ProjectFileNode) : list ProjectFileNode :=
  match l with
  | [] => []
  | x :: l' =>
      match dedup_nodes l' with
      | y :: l'' => if bool_decide (x = y) then x :: l'' else x :: y :: l''
      | [] => [x]
      end
  end.

(** [load_project_tree] on the record the tree query returned. *)
Definition build_project_tree (tree : ProjectTreeRecord) :
    result LoadProjectTreeError ProjectTreeResponse :=
  let entry := default (default_entry_file_path (tree_project_type tree))
                       (tree_entry_file_path tree) in
  documents ← collect_files is_document_text_path (tree_document_paths tree) (∅, []);
  files ← collect_files (λ _, true) (tree_asset_paths tree) documents;
  directories ← collect_directories (tree_directory_paths tree) files.1;
  let all := files.2 ++ ((λ path, Node path Directory) <$> elements directories) in
  Ok (TreeResponse (dedup_nodes (stable_sort node_le all)) entry (tree_content_epoch tree)).

(** ** Archive entry names (document_processing::workspace_bundle, ::pptx) *)

Definition safe_archive_name (name : text) : bool :=
  (text_eqb name (lit "manifest.json")
   || match strip_prefix (lit "project/") name with
      | None => false
      | Some path =>
          negb (text_eqb path [])
          && negb (contains_char backslash path)
          && negb (existsb is_control path)
          && match sanitize_project_path path with
             | Ok normalized => text_eqb normalized path
             | Err _ => false
             end
      end)%bool.

(** Whether [pat] occurs in [t]. *)
Fixpoint contains_text (pat t : text) : bool :=
  (starts_with pat t || match t with [] => false | _ :: t => contains_text pat t end)%bool.

Definition safe_part_name (name : text) : bool :=
  let normalized := default name (strip_suffix [slash] name) in
  (negb (text_eqb normalized [])
   && (str_len normalized <=? 1024)
   && negb (starts_with [slash] normalized)
   && negb (contains_char backslash normalized || contains_char nul normalized
            || contains_char colon normalized)
   && negb (contains_text (lit "//") normalized)
   && negb (existsb is_control normalized)
   && forallb (λ component, negb (text_eqb component []) && negb (text_eqb component (lit "."))
                            && negb (text_eqb component (lit "..")))
              (split slash normalized))%bool.

(** ** Specification: canonical project paths *)

Definition good_segment (s : text) : Prop :=
  s ≠ [] ∧ trimmed s ∧ s ≠ lit "." ∧ s ≠ lit ".." ∧
  eq_ignore_ascii_case s (lit ".git") = false ∧ (nul ∉ s) ∧ (slash ∉ s) ∧ (backslash ∉ s).

(** Non-empty segments without traversal, Git metadata, separators or
    surrounding white space, joined by single slashes. *)
Definition canonical_path (p : text) : Prop :=
  ∃ ss, ss ≠ [] ∧ Forall good_segment ss ∧ p = join slash ss.

(** ** Lemmas *)

Lemma existsb_text_eqb x l : existsb (text_eqb x) l = true ↔ x ∈ l.
Proof.
  rewrite existsb_exists. split.
  - intros (y & Hy & <-%text_eqb_true). by apply list_elem_of_In.
  - intros Hx. exists x. split; [by apply list_elem_of_In|by apply text_eqb_true].
Qed.

Lemma sanitize_segment_Ok s p :
  slash ∉ s → backslash ∉ s → sanitize_segment s = Ok p → p = trim s ∧ good_segment p.
Proof.
  intros Hs Hb. unfold sanitize_segment. case_match eqn:Hc; [done|]. intros [= <-].
  rewrite !orb_false_iff, !text_eqb_false, contains_char_false in Hc.
  destruct Hc as [[[[]]]]. repeat split; auto using trim_trimmed;
    try (intros ?%elem_of_trim; done); apply trim_trimmed.
Qed.

Lemma sanitize_segment_good s : good_segment s → sanitize_segment s = Ok s.
Proof.
  intros (Hne & Ht & Hd & Hdd & Hg & Hn & _ & _). unfold sanitize_segment.
  rewrite (trim_id s) by done.
  apply text_eqb_false in Hne, Hd, Hdd. apply contains_char_false in Hn.
  by rewrite Hne, Hd, Hdd, Hg, Hn.
Qed.

Lemma sanitize_segments_Ok ss ps :
  Forall (λ s, (slash ∉ s) ∧ (backslash ∉ s)) ss →
  sanitize_segments ss = Ok ps → Forall good_segment ps ∧ length ps = length ss.
Proof.
  induction ss as [|s ss IH] in ps |- *; simpl; intros Hall.
  - by intros [= <-].
  - apply Forall_cons in Hall as [[Hs Hb] Hall].
    destruct (sanitize_segment s) as [p|] eqn:Hp; [|done].
    destruct (sanitize_segments ss) as [qs|] eqn:Hq; [|done]. intros [= <-].
    destruct (IH qs Hall eq_refl) as [Hgs Hlen].
    apply sanitize_segment_Ok in Hp as [_ Hg]; [|done..].
    split; [by constructor|]. simpl. by rewrite Hlen.
Qed.

Lemma sanitize_segments_good ss : Forall good_segment ss → sanitize_segments ss = Ok ss.
Proof.
  induction 1 as [|s ss Hs Hss IH]; simpl; [done|].
  rewrite (sanitize_segment_good s) by done. simpl. by rewrite IH.
Qed.

Lemma replace_char_absent a b t : a ∉ t → replace_char a b t = t.
Proof.
  unfold replace_char. induction t as [|c t IH]; [done|].
  intros [Hne Ht]%not_elem_of_cons. rewrite fmap_cons, IH by done.
  destruct (N.eqb_spec c a); congruence.
Qed.

Lemma replace_char_removes a b t : a ≠ b → a ∉ replace_char a b t.
Proof.
  intros Hab. unfold replace_char. intros (c & Hc & _)%list_elem_of_fmap.
  destruct (N.eqb_spec c a); congruence.
Qed.

Lemma head_join sep s ss : s ≠ [] → head (join sep (s :: ss)) = head s.
Proof. destruct s as [|c s]; [done|]. by destruct ss. Qed.

Lemma last_join sep ss s :
  Forall (λ s, s ≠ []) ss → last ss = Some s → last (join sep ss) = last s.
Proof.
  intros Hall. induction Hall as [|p ps Hp Hps IH]; [done|].
  destruct ps as [|q qs]; [by intros [= ->]|]. intros Hl.
  change (join sep (p :: q :: qs)) with (p ++ sep :: join sep (q :: qs)).
  change (last (q :: qs) = Some s) in Hl.
  rewrite last_app, last_cons, IH by done.
  assert (is_Some (last s)) as [c ->]; [|done].
  apply last_is_Some. apply last_Some_elem_of in Hl.
  by apply (proj1 (Forall_forall _ _) Hps).
Qed.

Lemma good_segments_nonempty ss : Forall good_segment ss → Forall (λ s, s ≠ []) ss.
Proof. intros H. eapply Forall_impl; [exact H|]. by intros s [? _]. Qed.

Lemma good_segments_no_slash ss : Forall good_segment ss → Forall (λ s, slash ∉ s) ss.
Proof. intros H. eapply Forall_impl; [exact H|]. by intros s (?&?&?&?&?&?&?&?). Qed.

Lemma join_good_trimmed ss : ss ≠ [] → Forall good_segment ss → trimmed (join slash ss).
Proof.
  intros Hne Hall. pose proof (good_segments_nonempty _ Hall) as Hns.
  split.
  - destruct ss as [|s ss]; [done|]. apply Forall_cons in Hall as [(Hs & [Hh _] & _) _].
    by rewrite head_join.
  - destruct (last ss) as [s|] eqn:Hl; [|by apply last_None in Hl].
    rewrite (last_join slash ss s) by done.
    apply last_Some_elem_of in Hl.
    by destruct (proj1 (Forall_forall _ _) Hall s Hl) as (_ & [_ ?] & _).
Qed.

Lemma join_good_starts ss :
  ss ≠ [] → Forall good_segment ss → starts_with [slash] (join slash ss) = false.
Proof.
  intros Hne Hall. apply not_true_iff_false. rewrite starts_with_true. intros [r Hr].
  destruct ss as [|s ss]; [done|]. apply Forall_cons in Hall as [(Hs & _ & _ & _ & _ & _ & Hsl & _) _].
  pose proof (head_join slash s ss Hs) as Hh. rewrite Hr in Hh. simpl in Hh.
  destruct s as [|c s]; [done|]. simplify_eq/=. set_solver.
Qed.

Lemma join_good_backslash ss : Forall good_segment ss → backslash ∉ join slash ss.
Proof.
  intros Hall [Heq|(p & Hp & Hc)]%elem_of_join; [done|].
  by destruct (proj1 (Forall_forall _ _) Hall p Hp) as (_&_&_&_&_&_&_&?).
Qed.

Lemma sanitize_sound raw p : sanitize_project_path raw = Ok p → canonical_path p.
Proof.
  unfold sanitize_project_path. case_match; [done|].
  set (canonical := replace_char _ _ _).
  destruct (sanitize_segments (split slash canonical)) as [ps|] eqn:Hps; [|done]. simpl.
  case_bool_decide as Hnil; [done|]. intros [= <-].
  exists ps. split; [done|]. split; [|done].
  eapply sanitize_segments_Ok; [|done]. apply Forall_forall. intros s Hs. split.
  - by eapply split_no_sep.
  - intros Hin. assert (backslash ∈ canonical) as Hbs.
    { rewrite <-(join_split slash canonical). revert Hs Hin. generalize (split slash canonical).
      intros l Hs Hin. induction l as [|q l IH]; [by apply elem_of_nil in Hs|].
      destruct l as [|q' l].
      - by apply list_elem_of_singleton in Hs as ->.
      - change (join slash (q :: q' :: l)) with (q ++ slash :: join slash (q' :: l)).
        apply elem_of_cons in Hs as [->|Hs]; set_solver. }
    by apply replace_char_removes in Hbs.
Qed.

Lemma sanitize_complete p : canonical_path p → sanitize_project_path p = Ok p.
Proof.
  intros (ss & Hne & Hall & ->). unfold sanitize_project_path.
  rewrite (trim_id _ (join_good_trimmed ss Hne Hall)), (join_good_starts ss Hne Hall).
  assert (join slash ss ≠ []) as Hnil.
  { destruct ss as [|s ss]; [done|]. apply Forall_cons in Hall as [[Hs _] _].
    pose proof (head_join slash s ss Hs) as Hh. intros Heq. rewrite Heq in Hh.
    by destruct s. }
  rewrite (proj2 (text_eqb_false _ _) Hnil). simpl.
  rewrite replace_char_absent by by apply join_good_backslash.
  rewrite split_join by eauto using good_segments_no_slash.
  rewrite sanitize_segments_good by done. simpl. by rewrite bool_decide_eq_false_2.
Qed.

Lemma path_is_in_subtree_true path sub :
  path_is_in_subtree path sub = true ↔ path = sub ∨ ∃ r, path = sub ++ slash :: r.
Proof.
  unfold path_is_in_subtree. rewrite orb_true_iff, text_eqb_true.
  destruct (strip_prefix sub path) as [s|] eqn:Hs.
  - apply strip_prefix_Some in Hs as ->. rewrite starts_with_true. split.
    + intros [?|[r ->]]; [by left|right; by exists r].
    + intros [?|[r Hr%app_inv_head]]; [by left|right; by exists r].
  - split; [by intros [?|]; [left|]|]. intros [?|[r ->]]; [by left|].
    assert (strip_prefix sub (sub ++ slash :: r) = Some (slash :: r)) as Hs'
      by by apply strip_prefix_Some.
    congruence.
Qed.

Lemma move_path_Some path from to q :
  move_path_with_subtree path from to = Some q ↔
  (path = from ∧ q = to) ∨
  (∃ r, path = from ++ slash :: r ∧ q = to ++ slash :: r).
Proof.
  unfold move_path_with_subtree. destruct (text_eqb path from) eqn:He.
  - apply text_eqb_true in He as ->. split; [intros [= <-]; by left|].
    intros [[_ ->]|(r & Hr & _)]; [done|].
    apply (f_equal length) in Hr. rewrite length_app in Hr. simpl in Hr. lia.
  - apply text_eqb_false in He. destruct (strip_prefix from path) as [s|] eqn:Hs.
    + apply strip_prefix_Some in Hs as ->. destruct (starts_with [slash] s) eqn:Hst.
      * apply starts_with_true in Hst as [r ->]. split.
        -- intros [= <-]. right. by exists r.
        -- intros [[? _]|(r' & Hr%app_inv_head & ->)]; [done|]. by simplify_eq/=.
      * split; [done|]. intros [[? _]|(r & Hr%app_inv_head & _)]; [done|]. subst s.
        rewrite (proj2 (starts_with_true [slash] _)) in Hst; [done|by exists r].
    + split; [done|]. intros [[? _]|(r & -> & _)]; [done|].
      rewrite (proj2 (strip_prefix_Some _ _ (slash :: r))) in Hs; done.
Qed.

Lemma join_app_sep sep xs ys :
  xs ≠ [] → ys ≠ [] → join sep (xs ++ ys) = join sep xs ++ sep :: join sep ys.
Proof.
  intros Hx Hy. induction xs as [|x xs IH]; [done|]. destruct xs as [|x' xs].
  - by destruct ys.
  - change (join sep ((x :: x' :: xs) ++ ys)) with (x ++ sep :: join sep ((x' :: xs) ++ ys)).
    rewrite IH by done. change (join sep (x :: x' :: xs)) with (x ++ sep :: join sep (x' :: xs)).
    by rewrite <-app_assoc.
Qed.

(** A canonical path whose text continues after a canonical prefix and a slash
    splits there into segments. *)
Lemma canonical_app_inv p q r :
  canonical_path p → p = q ++ slash :: r → canonical_path q → canonical_path r.
Proof.
  intros (ss & Hne & Hall & ->) Heq (ts & Htne & Htall & ->).
  assert (split slash (join slash ss) = ss) as Hss
    by (apply split_join; auto using good_segments_no_slash).
  assert (ss = ts ++ split slash r) as Hsplit.
  { rewrite <-Hss, Heq. clear -Htall Htne. induction ts as [|t ts IH]; [done|].
    apply Forall_cons in Htall as [Ht Htall].
    assert (slash ∉ t) as Hsl by by destruct Ht as (?&?&?&?&?&?&?&?).
    destruct ts as [|t' ts]; [by apply split_app_sep|].
    change (join slash (t :: t' :: ts)) with (t ++ slash :: join slash (t' :: ts)).
    rewrite <-app_assoc. simpl. rewrite split_app_sep by done. f_equal. by apply IH. }
  exists (split slash r). split; [apply split_nonempty|].
  rewrite Hsplit in Hall. apply Forall_app in Hall as [_ Hall].
  split; [done|]. by rewrite join_split.
Qed.

Lemma canonical_app p r : canonical_path p → canonical_path r → canonical_path (p ++ slash :: r).
Proof.
  intros (ss & Hs & Hsa & ->) (ts & Ht & Hta & ->). exists (ss ++ ts).
  split; [by destruct ss|]. split; [by apply Forall_app|]. by rewrite join_app_sep.
Qed.
