(* ===== verification/PathFacts.v ===== *)
(** * Project paths, names and trees: properties

    Sanitised paths are exactly the canonical ones, moves stay inside the
    canonical tree and can be undone, the entry file is chosen among the
    documents, and the project tree is the sorted closure of the stored paths
    under parent directories. *)
From S2P Require Import Prelude Text Paths.

Open Scope N_scope.

(** ** Canonical paths *)

(** The domain of a fallible normaliser: the inputs it returns unchanged. *)
Definition fixed_point {E} (f : text → result E text) (p : text) : Prop := f p = Ok p.

(** Strictly below [subtree], or [subtree] itself, segment-wise. *)
Definition inside (subtree path : text) : Prop :=
  path = subtree ∨ ∃ r, canonical_path r ∧ path = subtree ++ slash :: r.

(** C26: sanitising yields a canonical path (non-empty trimmed segments, none of
    them a dot, a double dot, Git metadata or with a NUL, joined by single
    slashes), and the canonical paths are exactly its fixed points. *)
Theorem sanitized_paths_are_canonical raw p :
  sanitize_project_path raw = Ok p →
  fixed_point sanitize_project_path p ∧ ∀ q, fixed_point sanitize_project_path q ↔ canonical_path q.
Proof.
  unfold fixed_point. intros H%sanitize_sound. split; [by apply sanitize_complete|]. intros q.
  split; [apply sanitize_sound|apply sanitize_complete].
Qed.

Lemma in_subtree_inside path from :
  canonical_path path → canonical_path from →
  path_is_in_subtree path from = true ↔ inside from path.
Proof.
  intros Hp Hf. rewrite path_is_in_subtree_true. unfold inside. split.
  - intros [?|[r Hr]]; [by left|]. right. exists r. split; [|done].
    by apply (canonical_app_inv path from r).
  - intros [?|(r & _ & Hr)]; [by left|]. right. by exists r.
Qed.

(** Moving a subtree relocates exactly the paths inside it, keeps them
    canonical and inside the target, and moving back restores them; a path
    outside the subtree, even one sharing a textual prefix, is left alone. *)
Theorem moves_relocate_the_subtree path from to :
  canonical_path path → canonical_path from → canonical_path to →
  (path_is_in_subtree path from = true ↔ inside from path)
  ∧ match move_path_with_subtree path from to with
    | Some q => inside from path ∧ inside to q ∧ canonical_path q
                ∧ move_path_with_subtree q to from = Some path
    | None => ¬ inside from path
    end.
Proof.
  intros Hp Hf Ht. pose proof (in_subtree_inside path from Hp Hf) as Hin.
  split; [done|]. destruct (move_path_with_subtree path from to) as [q|] eqn:Hm.
  - apply move_path_Some in Hm as [[-> ->]|(r & Hr & ->)].
    + split_and!; [by left..|done|]. apply move_path_Some. by left.
    + assert (canonical_path r) as Hcr by by apply (canonical_app_inv path from r).
      split_and!; [right; by exists r..|by apply canonical_app|].
      apply move_path_Some. right. by exists r.
  - intros [->|(r & _ & ->)].
    + assert (move_path_with_subtree from from to = Some to) by (apply move_path_Some; by left).
      congruence.
    + assert (move_path_with_subtree (from ++ slash :: r) from to = Some (to ++ slash :: r))
        by (apply move_path_Some; right; by exists r). congruence.
Qed.

(** ** Names *)

Lemma existsb_false_Forall {A} (f : A → bool) l : existsb f l = false → Forall (λ x, f x = false) l.
Proof.
  induction l as [|x l IH]; simpl; [by constructor|].
  rewrite orb_false_iff. intros [? ?]. constructor; auto.
Qed.

(** What every stored project name satisfies. *)
Definition project_name_ok (name : text) : Prop :=
  trimmed name ∧ name ≠ [] ∧ (length name ≤ MAX_PROJECT_NAME_CHARS)%nat
  ∧ Forall (λ c, is_control c = false) name.

(** A parsed project name is trimmed, has between one and two hundred
    characters and no control character, and parsing it again returns it. *)
Theorem parsed_names_are_normalized raw name :
  parse_project_name raw = Ok name →
  name = trim raw ∧ project_name_ok name ∧ fixed_point parse_project_name name.
Proof.
  unfold fixed_point, parse_project_name, project_name_ok. destruct (_ || _)%bool eqn:Hc; [done|]. intros [= <-].
  rewrite trim_idemp, Hc. rewrite !orb_false_iff, text_eqb_false, Nat.ltb_ge in Hc.
  destruct Hc as [[Hne Hlen] Hctl]. split_and!; [done|apply trim_trimmed|done|done|by apply existsb_false_Forall|done].
Qed.

(** ** Entry files *)

Lemma elem_of_sort_text x l : x ∈ sort_text l ↔ x ∈ l.
Proof. unfold sort_text. by rewrite stable_sort_Permutation. Qed.

Lemma sort_text_head l x : head (sort_text l) = Some x → x ∈ l ∧ ∀ y, y ∈ l → text_le x y.
Proof.
  intros Hx. pose proof (StronglySorted_stable_sort text_le l) as Hs. unfold sort_text in *.
  assert (x ∈ stable_sort text_le l) as Hin by (destruct (stable_sort text_le l); simplify_eq/=; left).
  split; [by rewrite stable_sort_Permutation in Hin|]. intros y Hy.
  assert (y ∈ stable_sort text_le l) as Hy' by by rewrite stable_sort_Permutation.
  destruct (stable_sort text_le l) as [|z l']; simplify_eq/=.
  apply StronglySorted_cons in Hs as [Hall _].
  apply elem_of_cons in Hy' as [->|Hy']; [by destruct (text_le_total x x)|].
  rewrite Forall_forall in Hall. by apply Hall.
Qed.

(** The documents of the project that may serve as its entry file. *)
Definition acceptable_document (t : ProjectType) (paths : list text) (p : text) : Prop :=
  p ∈ paths ∧ accepts_entry_file_path t p = true.

(** The entry file is the current one while it is an acceptable document,
    else the first preferred name among the acceptable documents, else the
    smallest of them; it is missing only when no document is acceptable. *)
Theorem entry_file_is_an_acceptable_document t current paths :
  let acceptable := acceptable_document t paths in
  match choose_entry_file_path t current paths with
  | Some p =>
      acceptable p
      ∧ (acceptable current → p = current)
      ∧ (¬ acceptable current →
         (∀ q, q ∈ preferred_entry_file_paths t → acceptable q → p ∈ preferred_entry_file_paths t)
         ∧ (p ∉ preferred_entry_file_paths t → ∀ q, acceptable q → text_le p q))
  | None => ∀ p, ¬ acceptable p
  end.
Proof.
  intros acceptable. unfold choose_entry_file_path.
  set (candidates := sort_text _).
  assert (∀ p, p ∈ candidates ↔ acceptable p) as Hcand.
  { intros p. unfold candidates. rewrite elem_of_sort_text, list_elem_of_filter.
    unfold acceptable, acceptable_document. tauto. }
  destruct (existsb (text_eqb current) candidates) eqn:Hcur.
  { apply existsb_text_eqb, Hcand in Hcur. split_and!; [apply Hcur..|done|done]. }
  assert (¬ acceptable current) as Hncur.
  { intros Ha. apply Hcand, existsb_text_eqb in Ha. congruence. }
  destruct (head (filter _ _)) as [p|] eqn:Hpref.
  - apply head_Some_elem_of, list_elem_of_filter in Hpref as [Hp1 Hp2].
    apply existsb_text_eqb, Hcand in Hp1. split_and!; [apply Hp1..|done|]. intros _. by split.
  - assert (∀ q, q ∈ preferred_entry_file_paths t → ¬ acceptable q) as Hnone.
    { intros q Hq Ha. apply head_None in Hpref.
      assert (q ∈ filter (λ p, existsb (text_eqb p) candidates = true) (preferred_entry_file_paths t)) as Hin.
      { apply list_elem_of_filter. split; [by apply existsb_text_eqb, Hcand|done]. }
      rewrite Hpref in Hin. by apply elem_of_nil in Hin. }
    destruct (head candidates) as [p|] eqn:Hhead.
    + assert (acceptable p) as Ha by by apply Hcand, head_Some_elem_of.
      split_and!; [apply Ha..|done|]. intros _. split; [intros q Hq Haq; by destruct (Hnone q)|].
      intros _ q Hq. apply sort_text_head in Hhead as [_ Hmin]. apply Hmin, list_elem_of_filter.
      unfold acceptable, acceptable_document in Hq. tauto.
    + intros p Ha%Hcand. apply head_None in Hhead. rewrite Hhead in Ha. by apply elem_of_nil in Ha.
Qed.

(** ** Ancestors *)

(** [d] is a directory strictly above [p]. *)
Definition proper_ancestor (d p : text) : Prop :=
  ∃ r, canonical_path d ∧ canonical_path r ∧ p = d ++ slash :: r.

Lemma canonical_ne p : canonical_path p → p ≠ [].
Proof.
  intros (ss & Hne & Hall & ->). destruct ss as [|s ss]; [done|].
  apply Forall_cons in Hall as [[Hs _] _]. destruct s as [|c s]; [done|]. by destruct ss.
Qed.

Lemma proper_ancestor_segments ss d :
  Forall good_segment ss →
  proper_ancestor d (join slash ss) ↔
  ∃ a b, ss = a ++ b ∧ a ≠ [] ∧ b ≠ [] ∧ d = join slash a.
Proof.
  intros Hall. split.
  - intros (r & (a & Ha & Haa & ->) & (b & Hb & Hbb & ->) & Heq).
    exists a, b. split_and!; [|done..]. rewrite <-join_app_sep in Heq by done.
    assert (a ++ b ≠ []) as Hne by by destruct a.
    assert (Forall good_segment (a ++ b)) as Hab by by apply Forall_app.
    assert (ss ≠ []) as Hss.
    { intros ->. symmetry in Heq. by apply canonical_ne in Heq; [|exists (a ++ b)]. }
    apply (f_equal (split slash)) in Heq.
    rewrite !split_join in Heq by auto using good_segments_no_slash. done.
  - intros (a & b & -> & Ha & Hb & ->). apply Forall_app in Hall as [Haa Hbb].
    exists (join slash b). split_and!; [by exists a|by exists b|by apply join_app_sep].
Qed.

Lemma proper_ancestor_trans a b c : proper_ancestor a b → proper_ancestor b c → proper_ancestor a c.
Proof.
  intros (r & Ha & Hr & ->) (s & _ & Hs & ->). exists (r ++ slash :: s).
  split_and!; [done|by apply canonical_app|by rewrite <-app_assoc].
Qed.

Lemma proper_ancestor_canonical a b : proper_ancestor a b → canonical_path b.
Proof. intros (r & Ha & Hr & ->). by apply canonical_app. Qed.

Lemma split_canonical p :
  canonical_path p → Forall good_segment (split slash p) ∧ join slash (split slash p) = p.
Proof.
  intros (ss & Hne & Hall & ->). rewrite split_join by auto using good_segments_no_slash. done.
Qed.

(** ** The theorems at concrete inputs *)

Lemma canonical_dir : canonical_path (lit "chapters").
Proof. by apply (sanitize_sound (lit " chapters ")). Qed.
Lemma canonical_file : canonical_path (lit "chapters/one.typ").
Proof. by apply (sanitize_sound (lit "chapters\one.typ")). Qed.
Lemma canonical_target : canonical_path (lit "parts/a").
Proof. by apply (sanitize_sound (lit "parts/a")). Qed.

Lemma sanitized_paths_are_canonical_witness :
  fixed_point sanitize_project_path (lit "chapters/one.typ")
  ∧ ∀ q, fixed_point sanitize_project_path q ↔ canonical_path q.
Proof.
  apply (sanitized_paths_are_canonical (lit " chapters\ one.typ ")). vm_compute. reflexivity.
Defined.

Lemma moves_relocate_the_subtree_witness :
  move_path_with_subtree (lit "chapters/one.typ") (lit "chapters") (lit "parts/a")
  = Some (lit "parts/a/one.typ")
  ∧ (path_is_in_subtree (lit "chapters/one.typ") (lit "chapters") = true
     ↔ inside (lit "chapters") (lit "chapters/one.typ")).
Proof.
  split; [vm_compute; reflexivity|].
  exact (proj1 (moves_relocate_the_subtree (lit "chapters/one.typ") (lit "chapters")
                  (lit "parts/a") canonical_file canonical_dir canonical_target)).
Defined.

Lemma parsed_names_are_normalized_witness :
  lit "My thesis" = trim (lit "  My thesis ") ∧ project_name_ok (lit "My thesis")
  ∧ fixed_point parse_project_name (lit "My thesis").
Proof.
  apply (parsed_names_are_normalized (lit "  My thesis ")). vm_compute. reflexivity.
Defined.

(** * The project tree: properties of [build_project_tree]

    The tree is the closure of the stored files under parent directories,
    together with the stored directories, each node once, in the order of the
    paths with a file before a directory of the same path. *)
(** ** Specification *)

Definition stored_path (stored : list text) (p : text) : Prop :=
  ∃ raw, raw ∈ stored ∧ sanitize_project_path raw = Ok p.
Definition tree_file (tree : ProjectTreeRecord) (p : text) : Prop :=
  (stored_path (tree_document_paths tree) p ∧ is_document_text_path p = true)
  ∨ stored_path (tree_asset_paths tree) p.
Definition tree_directory (tree : ProjectTreeRecord) (d : text) : Prop :=
  stored_path (tree_directory_paths tree) d ∨ ∃ p, tree_file tree p ∧ proper_ancestor d p.

(** Every path the tree query returned passes the path policy. *)
Definition well_stored (tree : ProjectTreeRecord) : Prop :=
  Forall (λ raw, ∃ p, sanitize_project_path raw = Ok p)
    (tree_document_paths tree ++ tree_asset_paths tree ++ tree_directory_paths tree).

(** Paths first, then files before directories. *)
Definition kind_rank (k : ProjectFileKind) : nat := match k with File => 0 | Directory => 1 end.
Definition node_before (a b : ProjectFileNode) : Prop :=
  text_le (node_path a) (node_path b)
  ∧ (node_path a = node_path b → (kind_rank (node_kind a) ≤ kind_rank (node_kind b))%nat).

(** ** Parent directories *)

Lemma collect_parents_spec pre comps dirs x :
  Forall (λ s, s ≠ []) (pre ++ comps) →
  x ∈ collect_parents (join slash pre) comps dirs ↔
  x ∈ dirs ∨ ∃ a b, comps = a ++ b ∧ a ≠ [] ∧ b ≠ [] ∧ x = join slash (pre ++ a).
Proof.
  induction comps as [|c comps IH] in pre, dirs |- *; intros Hall.
  { simpl. split; [by left|]. intros [?|(a & b & Hab & Ha & _)]; [done|]. by destruct a. }
  destruct comps as [|c' comps].
  { simpl. split; [by left|]. intros [?|(a & b & Hab & Ha & Hb & _)]; [done|].
    apply (f_equal length) in Hab. rewrite length_app in Hab.
    destruct a, b; simpl in Hab; try done; lia. }
  set (rest := c' :: comps) in *.
  assert ((if text_eqb (join slash pre) [] then [] else join slash pre ++ [slash]) ++ c
          = join slash (pre ++ [c])) as Hcur.
  { destruct pre as [|s pre]; [done|]. rewrite join_app_sep by done.
    rewrite (proj2 (text_eqb_false _ _)); [by rewrite <-app_assoc|].
    apply Forall_cons in Hall as [Hs _]. by destruct s, pre. }
  change (collect_parents (join slash pre) (c :: rest) dirs) with
    (collect_parents ((if text_eqb (join slash pre) [] then [] else join slash pre ++ [slash]) ++ c)
       rest ({[(if text_eqb (join slash pre) [] then [] else join slash pre ++ [slash]) ++ c]} ∪ dirs)).
  rewrite Hcur, IH by by rewrite <-app_assoc. rewrite elem_of_union, elem_of_singleton. split.
  - intros [[->|?]|(a & b & -> & Ha & Hb & ->)]; [|by left|].
    + right. exists [c], rest. by split_and!.
    + right. exists (c :: a), b. split_and!; [done..|by rewrite <-app_assoc].
  - intros [?|(a & b & Hab & Ha & Hb & ->)]; [by left; right|].
    destruct a as [|c0 a]; [done|]. injection Hab as <- Hab.
    destruct a as [|c1 a]; [by left; left|].
    right. exists (c1 :: a), b. split_and!; [done..|by rewrite <-app_assoc].
Qed.

Lemma collect_parent_directories_spec p dirs x :
  canonical_path p →
  x ∈ collect_parent_directories p dirs ↔ x ∈ dirs ∨ proper_ancestor x p.
Proof.
  intros [Hall Hj]%split_canonical. unfold collect_parent_directories.
  change (@nil N) with (join slash []) at 1.
  rewrite collect_parents_spec by by apply good_segments_nonempty.
  rewrite <-(proper_ancestor_segments (split slash p) x) by done. by rewrite Hj.
Qed.

(** ** The loops over the stored paths *)

Definition kept (keep : text → bool) (stored : list text) (p : text) : Prop :=
  stored_path stored p ∧ keep p = true.

Lemma kept_cons keep raw paths p q :
  sanitize_project_path raw = Ok p →
  kept keep (raw :: paths) q ↔ (q = p ∧ keep p = true) ∨ kept keep paths q.
Proof.
  intros Hp. unfold kept, stored_path. split.
  - intros [(r & Hr & Hs) Hk]. apply elem_of_cons in Hr as [->|Hr]; [left; assert (q = p) as -> by congruence; done|].
    right. split; [by exists r|done].
  - intros [[-> Hk]|[(r & Hr & Hs) Hk]]; (split; [|done]).
    + exists raw. split; [left|done].
    + exists r. split; [by right|done].
Qed.

Lemma kept_nil keep q : ¬ kept keep [] q.
Proof. intros [(r & Hr & _) _]. by apply elem_of_nil in Hr. Qed.

Lemma collect_files_spec keep paths acc out :
  collect_files keep paths acc = Ok out →
  (∀ n, n ∈ out.2 ↔ n ∈ acc.2 ∨ node_kind n = File ∧ kept keep paths (node_path n))
  ∧ (∀ d, d ∈ out.1 ↔ d ∈ acc.1 ∨ ∃ p, kept keep paths p ∧ proper_ancestor d p).
Proof.
  induction paths as [|raw paths IH] in acc |- *; simpl.
  { intros [= <-]. split; [intros n|intros d]; (split; [by left|]).
    - by intros [?|[_ ?%kept_nil]]. - by intros [?|(p & ?%kept_nil & _)]. }
  destruct (sanitize_project_path raw) as [p|] eqn:Hp; [|done].
  assert (canonical_path p) as Hc by by eapply sanitize_sound.
  destruct (keep p) eqn:Hk; simpl; intros [Hn Hd]%IH; simpl in *.
  - split.
    + intros [q k]. rewrite Hn, elem_of_app, list_elem_of_singleton, (kept_cons keep raw paths p) by done.
      simpl. split; [intros [[?|[= -> ->]]|[-> ?]]|intros [?|[-> [[-> _]|?]]]]; auto.
    + intros d. rewrite Hd, collect_parent_directories_spec by done. split.
      * intros [[?|?]|(q & Hq & ?)]; [by left|right; exists p|right; exists q];
          (split; [|done]); rewrite (kept_cons keep raw paths p) by done; auto.
      * intros [?|(q & Hq & Ha)]; [auto|].
        apply (kept_cons keep raw paths p) in Hq as [[-> _]|Hq]; [auto|right; by exists q|done].
  - split; [intros n; rewrite Hn|intros d; rewrite Hd]; split.
    + intros [?|[? ?]]; [by left|right]. split; [done|].
      rewrite (kept_cons keep raw paths p) by done. auto.
    + intros [?|[? Hq]]; [by left|right]. split; [done|].
      apply (kept_cons keep raw paths p) in Hq as [[_ ?]|?]; [congruence|done|done].
    + intros [?|(q & Hq & ?)]; [by left|right; exists q]. split; [|done].
      rewrite (kept_cons keep raw paths p) by done. auto.
    + intros [?|(q & Hq & Ha)]; [by left|right; exists q]. split; [|done].
      apply (kept_cons keep raw paths p) in Hq as [[_ ?]|?]; [congruence|done|done].
Qed.

Lemma collect_files_Err keep paths acc raw :
  collect_files keep paths acc = Err (InvalidStoredPath raw) →
  raw ∈ paths ∧ is_ok (sanitize_project_path raw) = false.
Proof.
  induction paths as [|x paths IH] in acc |- *; simpl; [done|].
  destruct (sanitize_project_path x) as [p|] eqn:Hp.
  - destruct (keep p); simpl; intros [? ?]%IH; (split; [by right|done]).
  - intros [= ->]. rewrite Hp. split; [left|done].
Qed.

Lemma collect_files_Ok keep paths acc out :
  collect_files keep paths acc = Ok out →
  Forall (λ raw, ∃ p, sanitize_project_path raw = Ok p) paths.
Proof.
  induction paths as [|x paths IH] in acc |- *; simpl; [by constructor|].
  destruct (sanitize_project_path x) as [p|] eqn:Hp; [|done].
  destruct (keep p); simpl; intros ?%IH; (constructor; [by exists p|done]).
Qed.

Lemma collect_directories_Err paths dirs raw :
  collect_directories paths dirs = Err (InvalidStoredPath raw) →
  raw ∈ paths ∧ is_ok (sanitize_project_path raw) = false.
Proof.
  induction paths as [|x paths IH] in dirs |- *; simpl; [done|].
  destruct (sanitize_project_path x) as [p|] eqn:Hp.
  - intros [? ?]%IH. split; [by right|done].
  - intros [= ->]. rewrite Hp. split; [left|done].
Qed.

Lemma collect_directories_Ok paths dirs out :
  collect_directories paths dirs = Ok out →
  Forall (λ raw, ∃ p, sanitize_project_path raw = Ok p) paths.
Proof.
  induction paths as [|x paths IH] in dirs |- *; simpl; [by constructor|].
  destruct (sanitize_project_path x) as [p|] eqn:Hp; [|done].
  intros ?%IH. constructor; [by exists p|done].
Qed.

Lemma collect_directories_spec paths dirs out :
  collect_directories paths dirs = Ok out →
  ∀ d, d ∈ out ↔ d ∈ dirs ∨ stored_path paths d.
Proof.
  induction paths as [|raw paths IH] in dirs |- *; simpl.
  { intros [= <-] d. split; [by left|]. intros [?|(r & Hr & _)]; [done|]. by apply elem_of_nil in Hr. }
  destruct (sanitize_project_path raw) as [p|] eqn:Hp; [|done]. intros Hout d.
  rewrite (IH _ Hout d), elem_of_union, elem_of_singleton. unfold stored_path. split.
  - intros [[->|?]|(r & Hr & Hs)]; [right; exists raw; by split; [left|]|by left|].
    right. exists r. by split; [right|].
  - intros [?|(r & Hr & Hs)]; [by left; right|].
    apply elem_of_cons in Hr as [->|Hr]; [left; left; congruence|]. right. by exists r.
Qed.

(** ** Order and duplicates *)

#[export] Instance text_le_antisymm : AntiSymm (=) text_le.
Proof.
  intros s. unfold text_le. induction s as [|a s IH]; intros [|b t]; simpl; try done.
  destruct (N.ltb_spec a b), (N.ltb_spec b a); try done; try lia.
  intros H1 H2. assert (a = b) as -> by lia. f_equal. by apply IH.
Qed.

Lemma node_before_antisymm a b : node_before a b → node_before b a → a = b.
Proof.
  intros [Hab Hk] [Hba Hk']. destruct a as [p k], b as [q k']; simpl in *.
  assert (p = q) as <- by by apply (anti_symm text_le).
  specialize (Hk eq_refl). specialize (Hk' eq_refl). destruct k, k'; simpl in *; try done; lia.
Qed.

Lemma dedup_nodes_head x l : ∃ l', dedup_nodes (x :: l) = x :: l'.
Proof. simpl. destruct (dedup_nodes l) as [|y l'']; [by eexists|]. case_bool_decide; by eexists. Qed.

Lemma elem_of_dedup_nodes l n : n ∈ dedup_nodes l ↔ n ∈ l.
Proof.
  induction l as [|x l IH]; [done|]. rewrite elem_of_cons, <-IH. simpl.
  destruct (dedup_nodes l) as [|y l'']; [by rewrite elem_of_cons|].
  case_bool_decide as Hxy; rewrite ?elem_of_cons; subst; tauto.
Qed.

(** Strictly increasing: sorted, and no node twice. *)
Definition strictly_ordered (l : list ProjectFileNode) : Prop :=
  StronglySorted (λ a b, node_before a b ∧ a ≠ b) l.

Lemma dedup_nodes_strict l : StronglySorted node_before l → strictly_ordered (dedup_nodes l).
Proof.
  unfold strictly_ordered. induction 1 as [|x l Hs IH Hx]; [constructor|].
  destruct l as [|y l]; [repeat constructor|].
  assert (∀ z, z ∈ dedup_nodes (y :: l) → node_before x z) as Hall.
  { intros z Hz. apply (proj1 (elem_of_dedup_nodes _ _)) in Hz. rewrite Forall_forall in Hx. by apply Hx. }
  destruct (dedup_nodes_head y l) as [l' Hl]. rewrite Hl in IH, Hall.
  change (dedup_nodes (x :: y :: l)) with
    (match dedup_nodes (y :: l) with
     | z :: l'' => if bool_decide (x = z) then x :: l'' else x :: z :: l''
     | [] => [x] end).
  rewrite Hl. apply StronglySorted_cons in IH as [Hy Hl'].
  case_bool_decide as Hxy; [subst y; by constructor|].
  constructor; [by constructor|]. rewrite Forall_forall in Hy |- *.
  intros z Hz. split; [by apply Hall|]. intros <-.
  apply elem_of_cons in Hz as [->|Hz]; [done|].
  destruct (Hy x Hz) as [Hyx _]. apply Hxy, node_before_antisymm; [apply Hall; left|done].
Qed.

Lemma sorted_nodes files dirs :
  Forall (λ n, node_kind n = File) files → Forall (λ n, node_kind n = Directory) dirs →
  StronglySorted node_before (stable_sort node_le (files ++ dirs)).
Proof.
  intros Hf Hd. set (S := λ a b, (kind_rank (node_kind a) ≤ kind_rank (node_kind b))%nat).
  assert (StronglySorted S (files ++ dirs)) as Hs.
  { induction Hf as [|x files Hx Hf IH]; simpl.
    - induction Hd as [|x dirs Hx Hd IH]; constructor; [done|].
      eapply Forall_impl; [exact Hd|]. intros y Hy. unfold S. simpl in *. by rewrite Hx, Hy.
    - constructor; [done|]. apply Forall_forall. intros y _. unfold S. rewrite Hx. simpl. lia. }
  eapply StronglySorted_impl; [|by apply (stable_sort_refined node_le S)].
  intros a b [Hab HS]. split; [done|]. intros Heq. apply HS. unfold node_le. rewrite Heq. by destruct (text_le_total (node_path b) (node_path b)).
Qed.

(** ** The tree *)

(** The project tree holds exactly the stored files and, as directories,
    the stored directories and all proper ancestors of the files; each node
    occurs once, in path order with a file before a directory of its path; it
    is built exactly when every stored path passes the path policy. *)
Theorem project_tree_is_the_closure tree :
  match build_project_tree tree with
  | Ok response =>
      well_stored tree
      ∧ (∀ p, Node p File ∈ nodes response ↔ tree_file tree p)
      ∧ (∀ d, Node d Directory ∈ nodes response ↔ tree_directory tree d)
      ∧ strictly_ordered (nodes response)
      ∧ entry_file_path response = default (default_entry_file_path (tree_project_type tree))
                                     (tree_entry_file_path tree)
      ∧ content_epoch response = tree_content_epoch tree
  | Err (InvalidStoredPath raw) =>
      raw ∈ tree_document_paths tree ++ tree_asset_paths tree ++ tree_directory_paths tree
      ∧ is_ok (sanitize_project_path raw) = false
  end.
Proof.
  unfold build_project_tree.
  destruct (collect_files is_document_text_path _ _) as [documents|[raw]] eqn:Hd; simpl;
    [|apply collect_files_Err in Hd as [? ?]; rewrite elem_of_app; auto].
  destruct (collect_files (λ _, true) _ _) as [files|[raw]] eqn:Hf; simpl;
    [|apply collect_files_Err in Hf as [? ?]; rewrite !elem_of_app; auto].
  destruct (collect_directories _ _) as [directories|[raw]] eqn:Hdirs; simpl;
    [|apply collect_directories_Err in Hdirs as [? ?]; rewrite !elem_of_app; auto].
  assert (well_stored tree) as Hwell.
  { unfold well_stored. rewrite !Forall_app. split_and!; [by eapply collect_files_Ok..|by eapply collect_directories_Ok]. }
  apply collect_files_spec in Hd as [Hd1 Hd2], Hf as [Hf1 Hf2].
  pose proof (collect_directories_spec _ _ _ Hdirs) as Hds.
  assert (∀ n, n ∈ files.2 ↔ node_kind n = File ∧ tree_file tree (node_path n)) as Hfiles.
  { intros n. rewrite Hf1, Hd1. unfold tree_file, kept. simpl. rewrite elem_of_nil. tauto. }
  assert (∀ d, d ∈ directories ↔ tree_directory tree d) as Hdirectories.
  { intros d. rewrite Hds, Hf2, Hd2. unfold tree_directory, tree_file, kept. set_solver. }
  split_and!; [done|..|done|done].
  - intros p. rewrite elem_of_dedup_nodes, elem_of_stable_sort, elem_of_app, Hfiles. simpl.
    rewrite list_elem_of_fmap. naive_solver.
  - intros d. rewrite elem_of_dedup_nodes, elem_of_stable_sort, elem_of_app, Hfiles. simpl.
    rewrite <-Hdirectories, list_elem_of_fmap. setoid_rewrite elem_of_elements. naive_solver.
  - apply dedup_nodes_strict, sorted_nodes.
    + apply Forall_forall. intros n Hn%Hfiles. apply Hn.
    + apply Forall_fmap, Forall_forall. done.
Qed.
