(* ===== verification/ProcessingModel.v ===== *)
(** * Document processing: values, operation contracts, configuration, tables

    document_processing::model, ::operation_contract, ::config,
    ::worker_protocol and the tables of
    migrations/202607140001_document_processing.sql. *)
From S2P Require Import Prelude Store Text.

Open Scope Z_scope.

(** ** model.rs *)

Definition processing_retry_delay (attempt_count : Z) : Z :=
  let previous := i32_saturating_sub attempt_count 1 in
  let shift := Z.min (if previous <? 0 then 0 else previous) 5 in
  seconds (Z.min (Z.shiftl 1 shift) 30).

Inductive ProcessingOperation : Type := LatexCompilePdfV1 | TypstExportPptxV1 | PptxImportTypstV1.
Inductive ProcessingJobState : Type :=
  Preparing | Queued | Running | Finalizing | Succeeded | Failed | Cancelled | Expired.
Inductive ProcessingPhase : Type :=
  CapturingInput | WaitingForWorker | Processing | UploadingResult | ValidatingResult
| PublishingResult | Complete.

#[export] Instance ProcessingOperation_eq_dec : EqDecision ProcessingOperation.
Proof. solve_decision. Defined.
#[export] Instance ProcessingJobState_eq_dec : EqDecision ProcessingJobState.
Proof. solve_decision. Defined.
#[export] Instance ProcessingPhase_eq_dec : EqDecision ProcessingPhase.
Proof. solve_decision. Defined.
#[export] Instance ProcessingOperation_countable : Countable ProcessingOperation.
Proof.
  apply (inj_countable'
    (λ o, match o with LatexCompilePdfV1 => 0 | TypstExportPptxV1 => 1 | _ => 2 end)%nat
    (λ n, match n with 0 => LatexCompilePdfV1 | 1 => TypstExportPptxV1
                     | _ => PptxImportTypstV1 end)%nat).
  by intros [].
Defined.

Definition is_terminal (s : ProcessingJobState) : bool :=
  match s with Succeeded | Failed | Cancelled | Expired => true | _ => false end.
(** [state = any(array['preparing', 'queued', 'running', 'finalizing'])]. *)
Definition is_active (s : ProcessingJobState) : bool :=
  match s with Preparing | Queued | Running | Finalizing => true | _ => false end.

(** ** operation_contract.rs *)

Definition PPTX_MEDIA_TYPE : text :=
  lit "application/vnd.openxmlformats-officedocument.presentationml.presentation".
Definition PROJECT_BUNDLE_MEDIA_TYPE : text := lit "application/vnd.toss.project-bundle+zip".
Definition TYPST_PROJECT_BUNDLE_MEDIA_TYPE : text :=
  lit "application/vnd.toss.typst-project-bundle+zip".
Definition WORKSPACE_BUNDLE_MEDIA_TYPE : text :=
  lit "application/vnd.toss.workspace-bundle+zip".

Inductive ArtifactSizeClass : Type := Output | Diagnostic.
Record ArtifactContract : Type := MkArtifactContract {
  ac_role : text;
  ac_media_type : text;
  ac_filename_suffix : text;
  ac_size_class : ArtifactSizeClass;
  ac_required : bool;
}.
Inductive FinalizationKind : Type := PdfArtifacts | PptxArtifacts | TypstWorkspace.
Record OperationContract : Type := MkOperationContract {
  oc_input_schema : text;
  oc_input_media_type : text;
  oc_artifacts : list ArtifactContract;
  oc_finalization : FinalizationKind;
}.

Definition LATEX_ARTIFACTS : list ArtifactContract := [
  MkArtifactContract (lit "pdf") (lit "application/pdf") (lit ".pdf") Output true;
  MkArtifactContract (lit "log") (lit "text/plain") (lit ".log") Diagnostic false].
Definition PPTX_EXPORT_ARTIFACTS : list ArtifactContract := [
  MkArtifactContract (lit "pptx") PPTX_MEDIA_TYPE (lit ".pptx") Output true;
  MkArtifactContract (lit "report") (lit "application/json") (lit ".json") Diagnostic true].
Definition PPTX_IMPORT_ARTIFACTS : list ArtifactContract := [
  MkArtifactContract (lit "workspace") WORKSPACE_BUNDLE_MEDIA_TYPE (lit ".zip") Output true;
  MkArtifactContract (lit "report") (lit "application/json") (lit ".json") Diagnostic true].

Definition contract (operation : ProcessingOperation) : OperationContract :=
  match operation with
  | LatexCompilePdfV1 =>
      MkOperationContract (lit "project-bundle/v1") PROJECT_BUNDLE_MEDIA_TYPE
        LATEX_ARTIFACTS PdfArtifacts
  | TypstExportPptxV1 =>
      MkOperationContract (lit "typst-project-bundle/v1") TYPST_PROJECT_BUNDLE_MEDIA_TYPE
        PPTX_EXPORT_ARTIFACTS PptxArtifacts
  | PptxImportTypstV1 =>
      MkOperationContract (lit "pptx-input/v1") PPTX_MEDIA_TYPE
        PPTX_IMPORT_ARTIFACTS TypstWorkspace
  end.

(** [OperationContract::artifact]. *)
Definition artifact_contract (c : OperationContract) (role : text) : option ArtifactContract :=
  head (filter (λ a, text_eqb (ac_role a) role = true) (oc_artifacts c)).

(** ** worker_protocol.rs *)

Inductive WorkerFailureClass : Type :=
  InvalidInput | ProcessorRejected | UnsupportedDependency | ResourceLimit
| TransientInfrastructure | WorkerInterrupted | InternalContractViolation.
Definition retryable (c : WorkerFailureClass) : bool :=
  match c with TransientInfrastructure | WorkerInterrupted => true | _ => false end.
Definition failure_class_text (c : WorkerFailureClass) : text :=
  lit match c with
      | InvalidInput => "invalid_input"
      | ProcessorRejected => "processor_rejected"
      | UnsupportedDependency => "unsupported_dependency"
      | ResourceLimit => "resource_limit"
      | TransientInfrastructure => "transient_infrastructure"
      | WorkerInterrupted => "worker_interrupted"
      | InternalContractViolation => "internal_contract_violation"
      end.

(** ** JSON values ([serde_json::Value]) *)
Inductive Value : Type :=
| VNull
| VBool (b : bool)
| VNumber (repr : text)
| VString (s : text)
| VArray (l : list Value)
| VObject (fields : list (text * Value)).

(** [value.get(key).and_then(Value::as_str)]. *)
Definition get_str (key : text) (v : Value) : option text :=
  match v with
  | VObject fields =>
      match head (filter (λ kv, text_eqb (fst kv) key = true) fields) with
      | Some (_, VString s) => Some s
      | _ => None
      end
  | _ => None
  end.

(** ** config.rs *)

Record WorkerIdentity : Type := MkWorkerIdentity {
  wi_id : text;
  wi_token_fingerprint : bytes;
  wi_operations : gmap ProcessingOperation (gset text);
}.
Record AuthenticatedWorker : Type := MkWorker {
  identity : text;
  operations : gmap ProcessingOperation (gset text);
}.
Record ProcessingConfig : Type := MkConfig {
  identities : list WorkerIdentity;
  max_queued_jobs : Z;
  max_active_jobs_per_user : Z;
  max_active_jobs_per_project : Z;
  max_input_bytes : Z;
  max_output_bytes : Z;
  max_diagnostic_bytes : Z;
  job_wall_seconds : Z;
  queue_wait : Z;
  retention : Z;
  claim_lease : Z;
  session_lease : Z;
  transfer_ttl : Z;
  finalization_lease : Z;
}.

Definition approves (w : AuthenticatedWorker) (o : ProcessingOperation) (c : text) : bool :=
  match operations w !! o with Some contracts => bool_decide (c ∈ contracts) | None => false end.

(** [ProcessingConfig::authenticate], on the [Authorization] header. *)
Definition authenticate (sha256 : bytes → bytes) (config : ProcessingConfig)
    (authorization : option text) : option AuthenticatedWorker :=
  header ← authorization;
  token ← trim <$> strip_prefix (lit "Bearer ") header;
  let candidate := sha256 (utf8 token) in
  (λ i, MkWorker (wi_id i) (wi_operations i)) <$>
    head (filter (λ i, bool_decide (wi_token_fingerprint i = candidate) = true)
                 (identities config)).

Definition operation_configured (config : ProcessingConfig) (o : ProcessingOperation) : bool :=
  existsb (λ i, bool_decide (is_Some (wi_operations i !! o))) (identities config).

(** ** The tables *)

Inductive SessionState : Type := SActive | SDraining | SExpired.
Inductive AttemptState : Type := ARunning | ADelivered | AFailed | AReleased | ALost | ACancelled.
Inductive TransferState : Type := TIssued | TUploaded | TConsumed | TExpired.
Inductive Direction : Type := Download | Upload.
#[export] Instance SessionState_eq_dec : EqDecision SessionState.
Proof. solve_decision. Defined.
#[export] Instance AttemptState_eq_dec : EqDecision AttemptState.
Proof. solve_decision. Defined.
#[export] Instance TransferState_eq_dec : EqDecision TransferState.
Proof. solve_decision. Defined.
#[export] Instance Direction_eq_dec : EqDecision Direction.
Proof. solve_decision. Defined.

Record Blob : Type := MkBlob {
  blob_sha256 : bytes; blob_size : Z; blob_media_type : text; blob_content : bytes;
  blob_created_at : time }.

Record Session : Type := MkSession {
  s_worker_identity : text; s_worker_instance : text; s_state : SessionState;
  s_created_at : time; s_updated_at : time; s_last_heartbeat_at : time; s_expires_at : time }.

(** Keyed by session, operation and processor contract. *)
Record Processor : Type := MkProcessor {
  p_runtime_version : text; p_slots : Z; p_healthy : bool; p_updated_at : time }.

Record WorkerClaimLimits : Type := MkLimits {
  wall_seconds : Z; output_bytes : Z; diagnostic_bytes : Z }.

Record Job : Type := MkJob {
  j_operation : ProcessingOperation;
  j_requester : uuid;
  j_project : option uuid;
  j_idempotency_scope : text;
  j_idempotency_key : text;
  j_command_digest : bytes;
  j_input_schema : option text;
  j_input_blob : option uuid;
  j_input_digest : option bytes;
  j_normalized_options : Value;
  j_options_digest : bytes;
  j_state : ProcessingJobState;
  j_phase : ProcessingPhase;
  j_cancellation_requested : bool;
  j_attempt_count : Z;
  j_max_attempts : Z;
  j_current_claim : option uuid;
  j_claim_expires_at : option time;
  j_processor_contract : option text;
  j_cache_hit : bool;
  j_cache_source : option uuid;
  j_finalization_token : option uuid;
  j_finalization_expires_at : option time;
  j_failure_class : option text;
  j_failure_code : option text;
  j_failure_message : option text;
  j_result_project : option uuid;
  j_source_workspace_version : option Z;
  j_source_content_epoch : option Z;
  j_source_epoch : option Z;
  j_next_attempt_at : time;
  j_created_at : time;
  j_updated_at : time;
  j_queued_at : option time;
  j_started_at : option time;
  j_completed_at : option time;
  j_queue_expires_at : time;
  j_retained_until : time;
}.

Record Attempt : Type := MkAttempt {
  a_job : uuid; a_number : Z; a_claim : uuid; a_session : uuid; a_contract : text;
  a_state : AttemptState; a_phase : ProcessingPhase; a_lease_expires_at : time;
  a_limits : WorkerClaimLimits; a_failure_class : option text; a_failure_code : option text;
  a_failure_message : option text; a_created_at : time; a_updated_at : time;
  a_completed_at : option time }.

Record Transfer : Type := MkTransfer {
  t_fingerprint : bytes; t_job : uuid; t_attempt : uuid; t_claim : uuid;
  t_direction : Direction; t_role : text; t_media_type : text; t_filename : option text;
  t_exact_size : option Z; t_max_size : Z; t_expected_sha256 : option bytes;
  t_blob : option uuid; t_state : TransferState; t_remaining_uses : Z;
  t_created_at : time; t_updated_at : time; t_expires_at : time }.

Record Artifact : Type := MkArtifact {
  f_job : uuid; f_blob : uuid; f_role : text; f_media_type : text; f_filename : text;
  f_size : Z; f_sha256 : bytes; f_created_at : time }.

Record WorkerRequest : Type := MkWorkerRequest {
  r_route_key : text; r_payload_digest : bytes; r_status : Z; r_body : option Value;
  r_created_at : time; r_expires_at : time }.

Record DB : Type := MkDB {
  blobs : gmap uuid Blob;
  jobs : gmap uuid Job;
  sessions : gmap uuid Session;
  pins : gmap (uuid * text) time;
  processors : gmap (uuid * (ProcessingOperation * text)) Processor;
  attempts : gmap uuid Attempt;
  transfers : gmap uuid Transfer;
  artifacts : gmap uuid Artifact;
  worker_requests : gmap (text * uuid) WorkerRequest;
}.

#[export] Instance eta_Session : Eta Session := λ r,
  MkSession (s_worker_identity r) (s_worker_instance r) (s_state r) (s_created_at r)
    (s_updated_at r) (s_last_heartbeat_at r) (s_expires_at r).
#[export] Instance eta_Processor : Eta Processor := λ r,
  MkProcessor (p_runtime_version r) (p_slots r) (p_healthy r) (p_updated_at r).
#[export] Instance eta_Job : Eta Job := λ r,
  MkJob (j_operation r) (j_requester r) (j_project r) (j_idempotency_scope r)
    (j_idempotency_key r) (j_command_digest r) (j_input_schema r) (j_input_blob r)
    (j_input_digest r) (j_normalized_options r) (j_options_digest r) (j_state r) (j_phase r)
    (j_cancellation_requested r) (j_attempt_count r) (j_max_attempts r) (j_current_claim r)
    (j_claim_expires_at r) (j_processor_contract r) (j_cache_hit r) (j_cache_source r)
    (j_finalization_token r) (j_finalization_expires_at r) (j_failure_class r)
    (j_failure_code r) (j_failure_message r) (j_result_project r)
    (j_source_workspace_version r) (j_source_content_epoch r) (j_source_epoch r)
    (j_next_attempt_at r) (j_created_at r) (j_updated_at r) (j_queued_at r) (j_started_at r)
    (j_completed_at r) (j_queue_expires_at r) (j_retained_until r).
#[export] Instance eta_Attempt : Eta Attempt := λ r,
  MkAttempt (a_job r) (a_number r) (a_claim r) (a_session r) (a_contract r) (a_state r)
    (a_phase r) (a_lease_expires_at r) (a_limits r) (a_failure_class r) (a_failure_code r)
    (a_failure_message r) (a_created_at r) (a_updated_at r) (a_completed_at r).
#[export] Instance eta_Transfer : Eta Transfer := λ r,
  MkTransfer (t_fingerprint r) (t_job r) (t_attempt r) (t_claim r) (t_direction r) (t_role r)
    (t_media_type r) (t_filename r) (t_exact_size r) (t_max_size r) (t_expected_sha256 r)
    (t_blob r) (t_state r) (t_remaining_uses r) (t_created_at r) (t_updated_at r)
    (t_expires_at r).
#[export] Instance eta_WorkerRequest : Eta WorkerRequest := λ r,
  MkWorkerRequest (r_route_key r) (r_payload_digest r) (r_status r) (r_body r)
    (r_created_at r) (r_expires_at r).
#[export] Instance eta_DB : Eta DB := λ r,
  MkDB (blobs r) (jobs r) (sessions r) (pins r) (processors r) (attempts r) (transfers r)
    (artifacts r) (worker_requests r).

(** A store before the first request. *)
Definition empty_db : DB := MkDB ∅ ∅ ∅ ∅ ∅ ∅ ∅ ∅ ∅.

(** [update processing_jobs set f where id = k] and the like. *)
Definition update_job (k : uuid) (f : Job → Job) (db : DB) : DB := db <| jobs := alter f k (jobs db) |>.
Definition update_attempt (k : uuid) (f : Attempt → Attempt) (db : DB) : DB :=
  db <| attempts := alter f k (attempts db) |>.
Definition update_transfer (k : uuid) (f : Transfer → Transfer) (db : DB) : DB :=
  db <| transfers := alter f k (transfers db) |>.
Definition update_session (k : uuid) (f : Session → Session) (db : DB) : DB :=
  db <| sessions := alter f k (sessions db) |>.
