(* ===== verification/ProcessingAdmission.v ===== *)
(** * Document processing: admission, input capture, cancellation, reads

    document_processing::persistence.  A job is reserved under the admission
    lock and the three quotas, queued once its input is stored, and can be
    cancelled by its requester. *)
From S2P Require Import Prelude Store Text ProcessingModel.

Open Scope Z_scope.

(** ** Read model *)

Record JobRecord : Type := MkJobRecord {
  jr_id : uuid;
  jr_operation : ProcessingOperation;
  jr_project_id : option uuid;
  jr_result_project_id : option uuid;
  jr_state : ProcessingJobState;
  jr_phase : ProcessingPhase;
  jr_cancellation_requested : bool;
  jr_attempt_count : Z;
  jr_processor_contract : option text;
  jr_failure_class : option text;
  jr_failure_code : option text;
  jr_failure_message : option text;
  jr_created_at : time;
  jr_updated_at : time;
  jr_completed_at : option time;
}.

Definition job_from_row (id : uuid) (j : Job) : JobRecord :=
  MkJobRecord id (j_operation j) (j_project j) (j_result_project j) (j_state j) (j_phase j)
    (j_cancellation_requested j) (j_attempt_count j) (j_processor_contract j)
    (j_failure_class j) (j_failure_code j) (j_failure_message j) (j_created_at j)
    (j_updated_at j) (j_completed_at j).

Record ProcessingFailure : Type := MkFailure {
  failure_class : text; failure_code : text; failure_message : text }.

(** The failure part of [JobRecord::into_public]: shown when all three columns
    are present. *)
Definition public_failure (r : JobRecord) : option ProcessingFailure :=
  match jr_failure_class r, jr_failure_code r, jr_failure_message r with
  | Some class, Some code, Some message => Some (MkFailure class code message)
  | _, _, _ => None
  end.

(** ** Blobs *)

(** [store_blob]: content-addressed; a second store of the same digest and size
    returns the first identifier. *)
Definition store_blob (new_id : uuid) (digest : bytes) (media_type : text) (content : bytes)
    (now : time) (db : DB) : result sqlx_error (uuid * DB) :=
  let size := len_i64 content in
  match head (select (λ _ b, bool_decide (blob_sha256 b = digest ∧ blob_size b = size)) (blobs db)) with
  | Some (id, _) => Ok (id, db)
  | None =>
      t ← insert_row new_id (MkBlob digest size media_type content now) (blobs db);
      Ok (new_id, db <| blobs := t |>)
  end.

(** ** Reservation *)

Record ReserveJob : Type := MkReserveJob {
  rj_id : uuid;
  rj_operation : ProcessingOperation;
  rj_requester_user_id : uuid;
  rj_project_id : option uuid;
  rj_idempotency_scope : text;
  rj_idempotency_key : text;
  rj_command_digest : bytes;
  rj_normalized_options : Value;
  rj_options_digest : bytes;
  rj_now : time;
}.

Inductive ReserveJobOutcome : Type := Reserved | Existing (job : JobRecord).
Inductive ReserveJobError : Type :=
| IdempotencyConflict | GlobalLimit | RequesterLimit | ProjectLimit
| ReservePersistence (source : sqlx_error).

Definition find_idempotent_job (requester : uuid) (scope key : text) (db : DB) :
    option (uuid * Job) :=
  head (select (λ _ j, bool_decide (j_requester j = requester ∧ j_idempotency_scope j = scope
                                    ∧ j_idempotency_key j = key)) (jobs db)).

(** The three [select count] of active jobs. *)
Definition global_active (db : DB) : Z := count (λ _ j, is_active (j_state j)) (jobs db).
Definition requester_active (user : uuid) (db : DB) : Z :=
  count (λ _ j, bool_decide (j_requester j = user) && is_active (j_state j)) (jobs db).
Definition project_active (project : uuid) (db : DB) : Z :=
  count (λ _ j, bool_decide (j_project j = Some project) && is_active (j_state j)) (jobs db).

Definition reserved_job (config : ProcessingConfig) (c : ReserveJob) : Job :=
  MkJob (rj_operation c) (rj_requester_user_id c) (rj_project_id c) (rj_idempotency_scope c)
    (rj_idempotency_key c) (rj_command_digest c) None None None (rj_normalized_options c)
    (rj_options_digest c) Preparing CapturingInput false 0 3 None None None false None None None
    None None None None None None None (rj_now c) (rj_now c) (rj_now c) None None None
    (rj_now c + queue_wait config) (rj_now c + retention config).

Definition insert_job (k : uuid) (j : Job) (db : DB) : result sqlx_error (unit * DB) :=
  t ← insert_row k j (jobs db);
  if exists_row (λ _ o, bool_decide (j_requester o = j_requester j
                                     ∧ j_idempotency_scope o = j_idempotency_scope j
                                     ∧ j_idempotency_key o = j_idempotency_key j)) (jobs db)
  then Err UniqueViolation else Ok ((), db <| jobs := t |>).

Section operations.
Context (s : schedule).

Definition reserve_fail : sqlx_error → result ReserveJobError ReserveJobOutcome :=
  λ e, Err (ReservePersistence e).

Definition reserve_job (config : ProcessingConfig) (c : ReserveJob) :
    DB → result ReserveJobError ReserveJobOutcome * DB :=
  transact s reserve_fail (
    _ ← exec s reserve_fail (writes id);
    existing ← exec s reserve_fail (reads (find_idempotent_job (rj_requester_user_id c)
                                             (rj_idempotency_scope c) (rj_idempotency_key c)));
    match existing with
    | Some (existing_id, existing) =>
        digest ← exec s reserve_fail (fetch_one (λ db, j_command_digest <$> jobs db !! existing_id));
        if bool_decide (digest = rj_command_digest c)
        then mret (Ok (Existing (job_from_row existing_id existing)))
        else early (Err IdempotencyConflict)
    | None =>
        active ← exec s reserve_fail (reads global_active);
        if max_queued_jobs config <=? active then early (Err GlobalLimit) else
        user_active ← exec s reserve_fail (reads (requester_active (rj_requester_user_id c)));
        if max_active_jobs_per_user config <=? user_active then early (Err RequesterLimit) else
        _ ← match rj_project_id c with
            | Some project =>
                in_project ← exec s reserve_fail (reads (project_active project));
                if max_active_jobs_per_project config <=? in_project
                then early (Err ProjectLimit) else mret ()
            | None => mret ()
            end;
        _ ← exec s reserve_fail (insert_job (rj_id c) (reserved_job config c));
        mret (Ok Reserved)
    end).

(** ** Input capture *)

Definition is_inline (key : text) : bool := starts_with (lit "inline://") key.

(** [insert ... on conflict (job_id, object_key) do nothing]; the job must
    exist (foreign key). *)
Definition insert_pin (job_id : uuid) (key : text) (now : time) (db : DB) :
    result sqlx_error (unit * DB) :=
  match jobs db !! job_id with
  | None => Err ForeignKeyViolation
  | Some _ =>
      Ok ((), match pins db !! (job_id, key) with
              | Some _ => db
              | None => db <| pins := <[(job_id, key) := now]> (pins db) |>
              end)
  end.

Definition pin_project_assets {R} (fail : sqlx_error → R) (job_id : uuid)
    (object_keys : list text) (now : time) : Tx DB R unit :=
  tx_for (filter (λ k, is_inline k = false) object_keys)
         (λ k, exec s fail (insert_pin job_id k now)).

Definition delete_pins (job_id : uuid) (db : DB) : DB :=
  db <| pins := delete_rows (λ k _, bool_decide (k.1 = job_id)) (pins db) |>.

Definition release_project_asset_pins (job_id : uuid) (db : DB) : result sqlx_error unit * DB :=
  autocommit s 0 (writes (delete_pins job_id)) db.

Record PreparedInput : Type := MkPreparedInput {
  pi_schema : text;
  pi_media_type : text;
  pi_bytes : bytes;
  pi_digest : bytes;
  pi_normalized_options : Value;
  pi_options_digest : bytes;
  pi_workspace_version : option Z;
  pi_content_epoch : option Z;
  pi_source_epoch : option Z;
  pi_now : time;
}.

Definition queue_prepared (blob_id : uuid) (i : PreparedInput) (j : Job) : Job :=
  j <| j_input_schema := Some (pi_schema i) |> <| j_input_blob := Some blob_id |>
    <| j_input_digest := Some (pi_digest i) |>
    <| j_normalized_options := pi_normalized_options i |>
    <| j_options_digest := pi_options_digest i |>
    <| j_source_workspace_version := pi_workspace_version i |>
    <| j_source_content_epoch := pi_content_epoch i |>
    <| j_source_epoch := pi_source_epoch i |>
    <| j_state := Queued |> <| j_phase := WaitingForWorker |>
    <| j_queued_at := Some (pi_now i) |> <| j_updated_at := pi_now i |>.

(** [update ... where id and state = 'preparing' and not cancellation_requested
    returning ...]. *)
Definition queue_row (job_id blob_id : uuid) (i : PreparedInput) (db : DB) :
    option (JobRecord) * DB :=
  match jobs db !! job_id with
  | Some j =>
      if bool_decide (j_state j = Preparing) && negb (j_cancellation_requested j)
      then (Some (job_from_row job_id (queue_prepared blob_id i j)),
            update_job job_id (queue_prepared blob_id i) db)
      else (None, db)
  | None => (None, db)
  end.

Definition store_prepared_input (new_blob_id job_id : uuid) (i : PreparedInput) :
    DB → result sqlx_error (option JobRecord) * DB :=
  transact s Err (
    blob_id ← exec s Err (store_blob new_blob_id (pi_digest i) (pi_media_type i) (pi_bytes i)
                            (pi_now i));
    row ← exec s Err (λ db, Ok (queue_row job_id blob_id i db));
    match row with
    | None => rollback s Err (Ok None)
    | Some job =>
        _ ← exec s Err (writes (delete_pins job_id));
        mret (Ok (Some job))
    end).

Definition preparation_failed (code message : text) (now : time) (j : Job) : Job :=
  j <| j_state := Failed |> <| j_phase := Complete |>
    <| j_failure_class := Some (lit "internal") |> <| j_failure_code := Some code |>
    <| j_failure_message := Some message |>
    <| j_updated_at := now |> <| j_completed_at := Some now |>.

Definition mark_preparation_failed (now : time) (job_id : uuid) (code message : text) :
    DB → result sqlx_error unit * DB :=
  transact s Err (
    _ ← exec s Err (writes (update_job job_id (λ j,
          if bool_decide (j_state j = Preparing) then preparation_failed code message now j
          else j)));
    _ ← exec s Err (writes (delete_pins job_id));
    mret (Ok ())).

(** ** Cancellation *)

Definition cancelled (now : time) (j : Job) : Job :=
  j <| j_state := Cancelled |> <| j_phase := Complete |> <| j_cancellation_requested := true |>
    <| j_updated_at := now |> <| j_completed_at := Some now |>.

Definition cancel_job (now : time) (user_id job_id : uuid) :
    DB → result sqlx_error (option JobRecord) * DB :=
  transact s Err (
    row ← exec s Err (reads (λ db,
            j ← jobs db !! job_id;
            if bool_decide (j_requester j = user_id) then Some (j_state j) else None));
    match row with
    | None => early (Ok None)
    | Some state =>
        _ ← match state with
            | Preparing | Queued =>
                _ ← exec s Err (writes (update_job job_id (cancelled now)));
                exec s Err (writes (delete_pins job_id))
            | Running =>
                exec s Err (writes (update_job job_id (λ j,
                  j <| j_cancellation_requested := true |> <| j_updated_at := now |>)))
            | Finalizing | Succeeded | Failed | Cancelled | Expired => mret ()
            end;
        job ← exec s Err (fetch_one (λ db, job_from_row job_id <$> jobs db !! job_id));
        mret (Ok (Some job))
    end).

(** The pins of [capture_project_snapshot], in its own transaction. *)
Definition capture_pins (now : time) (job_id : uuid) (object_keys : list text) :
    DB → result sqlx_error unit * DB :=
  transact s Err (_ ← pin_project_assets Err job_id object_keys now; mret (Ok ())).
End operations.

(** ** Reads *)

Definition list_jobs_for_user (user_id : uuid) (db : DB) : list JobRecord :=
  let rows := select (λ _ j, bool_decide (j_requester j = user_id)) (jobs db) in
  let newest := order_by (λ kj, - j_updated_at (snd kj)) rows in
  let active_first := order_by (λ kj, if is_active (j_state (snd kj)) then 0 else 1) newest in
  (λ kj, job_from_row (fst kj) (snd kj)) <$> take 50 active_first.

Definition job_for_user (user_id job_id : uuid) (db : DB) : option JobRecord :=
  j ← jobs db !! job_id;
  if bool_decide (j_requester j = user_id) then Some (job_from_row job_id j) else None.

(** [artifact_content_for_user]: the project, the artifact and its bytes. *)
Definition artifact_content_for_user (user_id job_id artifact_id : uuid) (db : DB) :
    option (option uuid * (Artifact * bytes)) :=
  a ← artifacts db !! artifact_id;
  if bool_decide (f_job a = job_id) then
    j ← jobs db !! f_job a;
    b ← blobs db !! f_blob a;
    if bool_decide (j_requester j = user_id ∧ j_state j = Succeeded)
    then Some (j_project j, (a, blob_content b)) else None
  else None.

Record CapabilityStats : Type := MkStats {
  healthy_sessions : Z; active_slots : Z; active_jobs : Z; queued_jobs : Z }.

(** The rows of the join of sessions and processors that serve an operation. *)
Definition serving_processors (operation : ProcessingOperation) (now : time) (db : DB) :
    list (uuid * Processor) :=
  omap (λ kp : uuid * (ProcessingOperation * text) * Processor,
          let '((session, (o, _)), p) := kp in
          sn ← sessions db !! session;
          if bool_decide (o = operation ∧ p_healthy p = true ∧ s_state sn = SActive
                          ∧ now < s_expires_at sn)
          then Some (session, p) else None)
       (map_to_list (processors db)).

Definition capability_stats (operation : ProcessingOperation) (now : time) (db : DB) :
    CapabilityStats :=
  let serving := serving_processors operation now db in
  MkStats (Z.of_nat (length (remove_dups serving.*1)))
    (foldr (λ p n, p_slots p + n) 0 serving.*2)
    (count (λ _ j, bool_decide (j_operation j = operation)
                   && bool_decide (j_state j = Running ∨ j_state j = Finalizing)) (jobs db))
    (count (λ _ j, bool_decide (j_operation j = operation ∧ j_state j = Queued)) (jobs db)).
