(* ===== verification/ProcessingClaims.v ===== *)
(** * Document processing: worker sessions, claims and transfers

    The session half of document_processing::worker_persistence: a worker
    registers a session with its processors, keeps it alive by heartbeats and
    drains it. *)
From S2P Require Import Prelude Store Text ProcessingModel ProcessingAdmission.

Open Scope Z_scope.

Definition MAX_PROCESSORS_PER_SESSION : nat := 16.
Definition MAX_WORKER_SLOTS : Z := 64.

Inductive WorkerSessionError : Type :=
| SessionNotFound | SessionExpired | SessionDraining | SessionInvalid
| SessionPersistence (source : sqlx_error).

Record WorkerProcessorAdvertisement : Type := MkAdvertisement {
  ad_operation : ProcessingOperation;
  ad_processor_contract : text;
  ad_runtime_version : text;
  ad_slots : Z;
}.

(** ** Sessions *)

(** The validation loop of [register_session]; [unique] is its hash set. *)
Fixpoint advertisements_valid (worker : AuthenticatedWorker)
    (unique : gset (ProcessingOperation * text)) (l : list WorkerProcessorAdvertisement) : bool :=
  match l with
  | [] => true
  | p :: l =>
      let key := (ad_operation p, ad_processor_contract p) in
      if (ad_slots p <=? 0) || (MAX_WORKER_SLOTS <? ad_slots p)
         || text_eqb (trim (ad_runtime_version p)) []
         || (256 <? str_len (ad_runtime_version p))%N
         || negb (approves worker (ad_operation p) (ad_processor_contract p))
         || bool_decide (key ∈ unique)
      then false
      else advertisements_valid worker ({[key]} ∪ unique) l
  end.

Definition insert_session (id : uuid) (sn : Session) (db : DB) : result sqlx_error (unit * DB) :=
  t ← insert_row id sn (sessions db); Ok ((), db <| sessions := t |>).

Definition insert_processor (session : uuid) (now : time) (p : WorkerProcessorAdvertisement)
    (db : DB) : result sqlx_error (unit * DB) :=
  t ← insert_row (session, (ad_operation p, ad_processor_contract p))
        (MkProcessor (ad_runtime_version p) (ad_slots p) true now) (processors db);
  Ok ((), db <| processors := t |>).

Section sessions.
Context (s : schedule).

Definition session_fail {A} : sqlx_error → result WorkerSessionError A :=
  λ e, Err (SessionPersistence e).

Definition register_session (now : time) (id : uuid) (worker : AuthenticatedWorker)
    (worker_instance : text) (advertised : list WorkerProcessorAdvertisement)
    (config : ProcessingConfig) (db : DB) : result WorkerSessionError uuid * DB :=
  if text_eqb (trim worker_instance) [] || (128 <? str_len worker_instance)%N
     || bool_decide (advertised = [])
     || (MAX_PROCESSORS_PER_SESSION <? length advertised)%nat
     || negb (advertisements_valid worker ∅ advertised)
  then (Err SessionInvalid, db)
  else
    transact s session_fail (
      _ ← exec s session_fail (insert_session id
            (MkSession (identity worker) worker_instance SActive now now now
                       (now + session_lease config)));
      _ ← tx_for advertised (λ p, exec s session_fail (insert_processor id now p));
      mret (Ok id)) db.

(** The session row of this worker. *)
Definition worker_session (worker : AuthenticatedWorker) (session_id : uuid) (db : DB) :
    option Session :=
  sn ← sessions db !! session_id;
  if bool_decide (s_worker_identity sn = identity worker) then Some sn else None.

Definition set_health (session_id : uuid) (now : time) (key : ProcessingOperation * text)
    (healthy : bool) (db : DB) : Z * DB :=
  match processors db !! (session_id, key) with
  | None => (0, db)
  | Some p =>
      (1, db <| processors := <[(session_id, key) := p <| p_healthy := healthy |>
                                                      <| p_updated_at := now |>]>
                              (processors db) |>)
  end.

(** The health loop of [heartbeat_session]. *)
Fixpoint heartbeat_processors (session_id : uuid) (now : time)
    (unique : gset (ProcessingOperation * text))
    (reported : list (ProcessingOperation * text * bool)) :
    Tx DB (result WorkerSessionError time) unit :=
  match reported with
  | [] => mret ()
  | (key, healthy) :: reported =>
      if bool_decide (key ∈ unique) then early (Err SessionInvalid) else
      affected ← exec s session_fail (λ db, Ok (set_health session_id now key healthy db));
      if bool_decide (affected ≠ 1) then early (Err SessionInvalid) else
      heartbeat_processors session_id now ({[key]} ∪ unique) reported
  end.

Definition heartbeat_session (now : time) (worker : AuthenticatedWorker) (session_id : uuid)
    (reported : list (ProcessingOperation * text * bool)) (config : ProcessingConfig) :
    DB → result WorkerSessionError time * DB :=
  let expires_at := now + session_lease config in
  transact s session_fail (
    row ← exec s session_fail (reads (worker_session worker session_id));
    match row with
    | None => early (Err SessionNotFound)
    | Some sn =>
        if bool_decide (s_state sn = SDraining) then early (Err SessionDraining) else
        if bool_decide (s_state sn ≠ SActive) || (s_expires_at sn <=? now) then
          _ ← exec s session_fail (writes (update_session session_id (λ r,
                r <| s_state := SExpired |> <| s_updated_at := now |>)));
          mret (Err SessionExpired)
        else
          expected ← exec s session_fail (reads (λ db,
                       count (λ k _, bool_decide (k.1 = session_id)) (processors db)));
          if negb (expected =? Z.of_nat (length reported)) then early (Err SessionInvalid) else
          _ ← heartbeat_processors session_id now ∅ reported;
          _ ← exec s session_fail (writes (update_session session_id (λ r,
                r <| s_last_heartbeat_at := now |> <| s_updated_at := now |>
                  <| s_expires_at := expires_at |>)));
          mret (Ok expires_at)
    end).

Definition drain_row (now : time) (worker : AuthenticatedWorker) (session_id : uuid)
    (db : DB) : Z * DB :=
  match worker_session worker session_id db with
  | Some sn =>
      if bool_decide (s_state sn = SActive ∨ s_state sn = SDraining)
      then (1, update_session session_id (λ r, r <| s_state := SDraining |>
                                                 <| s_updated_at := now |>) db)
      else (0, db)
  | None => (0, db)
  end.

Definition drain_session (now : time) (worker : AuthenticatedWorker) (session_id : uuid)
    (db : DB) : result WorkerSessionError unit * DB :=
  match autocommit s 0 (λ db, Ok (drain_row now worker session_id db)) db with
  | (Err e, db') => (Err (SessionPersistence e), db')
  | (Ok affected, db') => (if affected =? 0 then Err SessionNotFound else Ok (), db')
  end.
End sessions.

(** * Document processing: claims

    The claim half of document_processing::worker_persistence: a session
    claims a queued job under a lease, extends the lease by heartbeats, and
    ends the claim by completing, failing or releasing it.

    Random identifiers and tokens are arguments.  SHA-256 and the hexadecimal
    decoder (crates sha2 and hex) are parameters. *)
Definition INPUT_TRANSFER_READS : Z := 3.

Inductive ClaimError : Type :=
| SessionUnavailable | ClaimLost | ClaimInvalid | ClaimPersistence (source : sqlx_error).

Record ProcessorCapacityOffer : Type := MkOffer {
  of_operation : ProcessingOperation;
  of_processor_contract : text;
  of_slots : Z;
}.

(** The values [Uuid::new_v4] and the token sampler return during one call. *)
Record Fresh : Type := MkFresh {
  fresh_attempt : uuid; fresh_claim : uuid; fresh_transfer : uuid; fresh_token : text }.

(** The reply carries the transfer identifier and the digest that the source
    renders into a URL path and hexadecimal. *)
Record WorkerClaimInput : Type := MkClaimInput {
  wci_schema : text; wci_size : Z; wci_sha256 : bytes; wci_transfer : uuid; wci_token : text }.
Record WorkerClaim : Type := MkWorkerClaim {
  wc_job : uuid; wc_attempt : Z; wc_claim : uuid; wc_lease_expires_at : time;
  wc_operation : ProcessingOperation; wc_processor_contract : text; wc_options : Value;
  wc_input : WorkerClaimInput; wc_limits : WorkerClaimLimits }.

Record IssuedTransfer : Type := MkIssued {
  it_id : uuid; it_token : text; it_expires_at : time }.

(** ** Rows the claim queries read *)

Definition processors_of_session (session_id : uuid) (db : DB) :
    list (ProcessingOperation * text * Processor) :=
  omap (λ kp : uuid * (ProcessingOperation * text) * Processor,
          if bool_decide (kp.1.1 = session_id) then Some (kp.1.2, kp.2) else None)
       (map_to_list (processors db)).

Definition find_processor (key : ProcessingOperation * text)
    (l : list (ProcessingOperation * text * Processor)) : option Processor :=
  snd <$> head (filter (λ kp, bool_decide (kp.1 = key) = true) l).

(** Running attempts of a session on one processor whose lease has not expired. *)
Definition active_attempts (session_id : uuid) (key : ProcessingOperation * text) (now : time)
    (db : DB) : Z :=
  count (λ _ a, bool_decide (a_session a = session_id ∧ a_contract a = key.2
                             ∧ a_state a = ARunning ∧ now < a_lease_expires_at a)
                && match jobs db !! a_job a with
                   | Some j => bool_decide (j_operation j = key.1)
                   | None => false
                   end) (attempts db).

Record Candidate : Type := MkCandidate {
  cd_id : uuid; cd_job : Job; cd_blob_id : uuid; cd_blob : Blob }.

Definition claimable (operation : ProcessingOperation) (now : time) (j : Job) : bool :=
  bool_decide (j_operation j = operation ∧ j_state j = Queued) && negb (j_cancellation_requested j)
  && (now <? j_queue_expires_at j) && (j_next_attempt_at j <=? now).

(** The oldest claimable job with its input blob. *)
Definition next_candidate (operation : ProcessingOperation) (now : time) (db : DB) :
    option Candidate :=
  head (order_by (λ c, j_created_at (cd_job c))
    (omap (λ kj : uuid * Job,
             blob_id ← j_input_blob kj.2;
             blob ← blobs db !! blob_id;
             if claimable operation now kj.2
             then Some (MkCandidate kj.1 kj.2 blob_id blob) else None)
          (map_to_list (jobs db)))).

(** A retained job of the same owner that already ran this processor on this
    input and options; the newest completion, nulls first. *)
Definition cache_source (job_id : uuid) (operation : ProcessingOperation)
    (input_digest : bytes) (processor_contract : text) (options_digest : bytes)
    (now : time) (project : option uuid) (requester : uuid) (db : DB) : option uuid :=
  let rows := select (λ k p,
    bool_decide (k ≠ job_id ∧ j_state p = Succeeded ∧ j_operation p = operation
                 ∧ j_input_digest p = Some input_digest
                 ∧ j_processor_contract p = Some processor_contract
                 ∧ j_options_digest p = options_digest ∧ now < j_retained_until p)
    && match project with
       | Some project => bool_decide (j_project p = Some project)
       | None => bool_decide (j_project p = None ∧ j_requester p = requester)
       end
    && exists_row (λ _ a, bool_decide (f_job a = k)) (artifacts db)) (jobs db) in
  let newest := order_by (λ kp, - default 0 (j_completed_at (snd kp))) rows in
  let nulls_first := order_by (λ kp, if j_completed_at (snd kp) then 1 else 0) newest in
  fst <$> head nulls_first.

(** The join of attempts, jobs and sessions that identifies a claim. *)
Record ClaimRow : Type := MkClaimRow {
  cr_attempt_id : uuid; cr_attempt : Attempt; cr_job : Job }.

Definition claim_row (worker : AuthenticatedWorker) (session_id claim_id : uuid) (db : DB) :
    option ClaimRow :=
  head (omap (λ ka : uuid * Attempt,
    let a := ka.2 in
    j ← jobs db !! a_job a;
    sn ← sessions db !! a_session a;
    if bool_decide (a_claim a = claim_id ∧ a_session a = session_id
                    ∧ s_worker_identity sn = identity worker)
    then Some (MkClaimRow ka.1 a j) else None) (map_to_list (attempts db))).

(** ** Statements *)

(** Insert with the table's unique constraints and foreign keys. *)
Definition insert_attempt (id : uuid) (a : Attempt) (db : DB) : result sqlx_error (unit * DB) :=
  t ← insert_row id a (attempts db);
  if exists_row (λ _ o, bool_decide (a_claim o = a_claim a
                                     ∨ (a_job o = a_job a ∧ a_number o = a_number a)))
                (attempts db)
  then Err UniqueViolation
  else if bool_decide (is_Some (jobs db !! a_job a) ∧ is_Some (sessions db !! a_session a))
  then Ok ((), db <| attempts := t |>) else Err ForeignKeyViolation.

Definition insert_transfer (id : uuid) (t : Transfer) (db : DB) : result sqlx_error (unit * DB) :=
  tb ← insert_row id t (transfers db);
  if t_max_size t <=? 0 then Err CheckViolation
  else if bool_decide (is_Some (jobs db !! t_job t) ∧ is_Some (attempts db !! t_attempt t))
          && match t_blob t with
             | Some b => bool_decide (is_Some (blobs db !! b))
             | None => true
             end
  then Ok ((), db <| transfers := tb |>) else Err ForeignKeyViolation.

Definition cache_hit_job (processor_contract : text) (source : uuid) (now : time) (j : Job) : Job :=
  if bool_decide (j_state j = Queued) then
    j <| j_state := Finalizing |> <| j_phase := ValidatingResult |>
      <| j_processor_contract := Some processor_contract |> <| j_cache_hit := true |>
      <| j_cache_source := Some source |> <| j_updated_at := now |>
  else j.

Definition claimed_job (attempt_number : Z) (claim_id : uuid) (lease_expires_at : time)
    (processor_contract : text) (now : time) (j : Job) : Job :=
  j <| j_state := Running |> <| j_phase := Processing |> <| j_attempt_count := attempt_number |>
    <| j_current_claim := Some claim_id |> <| j_claim_expires_at := Some lease_expires_at |>
    <| j_processor_contract := Some processor_contract |>
    <| j_started_at := Some (default now (j_started_at j)) |> <| j_updated_at := now |>.

Section claims.
Context (s : schedule) (sha256 : bytes → bytes) (hex_decode : text → option bytes).

Definition claim_fail {A} : sqlx_error → result ClaimError A := λ e, Err (ClaimPersistence e).

(** A column that must not be null. *)
Definition not_null {R A B} (fail : sqlx_error → R) (o : option A) (k : A → Tx DB R B) :
    Tx DB R B :=
  match o with
  | Some a => k a
  | None => early (fail ColumnDecode)
  end.

(** [issue_transfer]: the token is stored as its fingerprint only. *)
Definition issue_transfer {R} (fail : sqlx_error → R) (id : uuid) (sample : text) (now : time)
    (job_id attempt_id claim_id : uuid) (direction : Direction) (role media_type : text)
    (filename : option text) (exact_size_bytes : option Z) (max_size_bytes : Z)
    (expected_sha256 : option bytes) (blob_id : option uuid) (remaining_uses : Z)
    (expires_at : time) : Tx DB R IssuedTransfer :=
  let token := lit "ptx_" ++ sample in
  _ ← exec s fail (insert_transfer id
        (MkTransfer (sha256 (utf8 token)) job_id attempt_id claim_id direction role media_type
           filename exact_size_bytes max_size_bytes expected_sha256 blob_id TIssued
           remaining_uses now now expires_at));
  mret (MkIssued id token expires_at).

(** The attempt and the job update of a successful claim, and the transfer
    of its input. *)
Definition start_attempt (now : time) (fresh : Fresh) (session_id : uuid)
    (operation : ProcessingOperation) (processor_contract : text) (c : Candidate)
    (config : ProcessingConfig) :
    Tx DB (result ClaimError (option WorkerClaim)) (result ClaimError (option WorkerClaim)) :=
  let j := cd_job c in
  let attempt_number := i32_saturating_add (j_attempt_count j) 1 in
  not_null claim_fail (j_input_schema j) (λ input_schema,
  let lease_expires_at := now + claim_lease config in
  let limits := MkLimits (job_wall_seconds config) (max_output_bytes config)
                  (max_diagnostic_bytes config) in
  _ ← exec s claim_fail (insert_attempt (fresh_attempt fresh)
        (MkAttempt (cd_id c) attempt_number (fresh_claim fresh) session_id processor_contract
           ARunning Processing lease_expires_at limits None None None now now None));
  _ ← exec s claim_fail (writes (update_job (cd_id c)
        (claimed_job attempt_number (fresh_claim fresh) lease_expires_at processor_contract now)));
  transfer ← issue_transfer claim_fail (fresh_transfer fresh) (fresh_token fresh) now (cd_id c)
        (fresh_attempt fresh) (fresh_claim fresh) Download (lit "input")
        (oc_input_media_type (contract operation)) None (Some (blob_size (cd_blob c)))
        (blob_size (cd_blob c)) (Some (blob_sha256 (cd_blob c))) (Some (cd_blob_id c))
        INPUT_TRANSFER_READS (now + transfer_ttl config);
  mret (Ok (Some (MkWorkerClaim (cd_id c) attempt_number (fresh_claim fresh) lease_expires_at
    operation processor_contract (j_normalized_options j)
    (MkClaimInput input_schema (blob_size (cd_blob c)) (blob_sha256 (cd_blob c))
       (it_id transfer) (it_token transfer)) limits)))).

(** The loop of [try_claim] over the offered processors. *)
Fixpoint try_offers (now : time) (fresh : Fresh) (worker : AuthenticatedWorker)
    (session_id : uuid) (registered : list (ProcessingOperation * text * Processor))
    (config : ProcessingConfig) (offers : list ProcessorCapacityOffer) :
    Tx DB (result ClaimError (option WorkerClaim)) (result ClaimError (option WorkerClaim)) :=
  match offers with
  | [] => mret (Ok None)
  | offer :: rest =>
      let continue := try_offers now fresh worker session_id registered config rest in
      let operation := of_operation offer in
      let processor_contract := of_processor_contract offer in
      if negb (approves worker operation processor_contract) then early (Err ClaimInvalid) else
      match find_processor (operation, processor_contract) registered with
      | None => early (Err ClaimInvalid)
      | Some processor =>
          if (of_slots offer <=? 0) || (p_slots processor <? of_slots offer)
          then early (Err ClaimInvalid) else
          if negb (p_healthy processor) then continue else
          active ← exec s claim_fail (reads (active_attempts session_id
                     (operation, processor_contract) now));
          if p_slots processor <=? active then continue else
          candidate ← exec s claim_fail (reads (next_candidate operation now));
          match candidate with
          | None => continue
          | Some c =>
              let j := cd_job c in
              not_null claim_fail (j_input_digest j) (λ input_digest,
              cached ← exec s claim_fail (reads (cache_source (cd_id c) operation input_digest
                         processor_contract (j_options_digest j) now (j_project j)
                         (j_requester j)));
              match cached with
              | Some source =>
                  _ ← exec s claim_fail (writes (update_job (cd_id c)
                        (cache_hit_job processor_contract source now)));
                  mret (Ok None)
              | None => start_attempt now fresh session_id operation processor_contract c config
              end)
          end
      end
  end.

Definition try_claim (now : time) (fresh : Fresh) (worker : AuthenticatedWorker)
    (session_id : uuid) (offers : list ProcessorCapacityOffer) (config : ProcessingConfig) :
    DB → result ClaimError (option WorkerClaim) * DB :=
  transact s claim_fail (
    session ← exec s claim_fail (reads (worker_session worker session_id));
    match session with
    | None => early (Err SessionUnavailable)
    | Some sn =>
        if bool_decide (s_state sn ≠ SActive) || (s_expires_at sn <=? now)
        then early (Err SessionUnavailable) else
        registered ← exec s claim_fail (reads (processors_of_session session_id));
        try_offers now fresh worker session_id registered config offers
    end).

(** ** Heartbeats *)

Inductive ClaimHeartbeatState : Type :=
  HbActive | HbCancellationRequested | HbClaimLost | HbJobTerminal.
Record ClaimHeartbeatResponse : Type := MkHeartbeat {
  hb_state : ClaimHeartbeatState; hb_server_time : time;
  hb_lease_expires_at : option time; hb_cancellation_deadline : option time }.

Definition heartbeat_claim (now : time) (worker : AuthenticatedWorker)
    (session_id claim_id : uuid) (phase : ProcessingPhase) (config : ProcessingConfig) (db : DB) :
    result ClaimError ClaimHeartbeatResponse * DB :=
  if negb (bool_decide (phase = Processing ∨ phase = UploadingResult))
  then (Err ClaimInvalid, db)
  else
    transact s claim_fail (
      row ← exec s claim_fail (reads (claim_row worker session_id claim_id));
      match row with
      | None => early (Ok (MkHeartbeat HbClaimLost now None None))
      | Some (MkClaimRow attempt_id a j) =>
          if is_terminal (j_state j) then early (Ok (MkHeartbeat HbJobTerminal now None None))
          else
          if bool_decide (a_state a ≠ ARunning) || bool_decide (j_current_claim j ≠ Some claim_id)
             || (a_lease_expires_at a <=? now) || bool_decide (j_state j ≠ Running)
          then early (Ok (MkHeartbeat HbClaimLost now None None))
          else
          let '(state, lease_expires_at, cancellation_deadline) :=
            if j_cancellation_requested j
            then let deadline := Z.min (a_lease_expires_at a) (now + seconds 10) in
                 (HbCancellationRequested, deadline, Some deadline)
            else (HbActive, now + claim_lease config, None) in
          _ ← exec s claim_fail (writes (update_attempt attempt_id (λ r,
                r <| a_phase := phase |> <| a_lease_expires_at := lease_expires_at |>
                  <| a_updated_at := now |>)));
          _ ← exec s claim_fail (writes (update_job (a_job a) (λ r,
                r <| j_phase := phase |> <| j_claim_expires_at := Some lease_expires_at |>
                  <| j_updated_at := now |>)));
          mret (Ok (MkHeartbeat state now (Some lease_expires_at) cancellation_deadline))
      end) db.

(** ** Completion *)

Record CompletedArtifactInput : Type := MkCompleted {
  ca_transfer_id : uuid; ca_role : text; ca_size_bytes : Z; ca_sha256 : text }.
Inductive CompleteClaimOutcome : Type :=
| Accepted (job_id : uuid) | CompleteLost | CompleteCancelled | CompleteInvalid.

(** The transfer a completed artifact names was uploaded for this attempt
    with the declared role, size and digest. *)
Definition artifact_uploaded (attempt_id claim_id : uuid) (digest : bytes)
    (a : CompletedArtifactInput) (db : DB) : bool :=
  match transfers db !! ca_transfer_id a with
  | None => false
  | Some t =>
      bool_decide (t_attempt t = attempt_id ∧ t_claim t = claim_id ∧ t_direction t = Upload
                   ∧ (t_state t = TUploaded ∨ t_state t = TConsumed) ∧ t_role t = ca_role a
                   ∧ t_exact_size t = Some (ca_size_bytes a)
                   ∧ t_expected_sha256 t = Some digest ∧ is_Some (t_blob t))
  end.

Definition complete_result : Type := result ClaimError CompleteClaimOutcome.

(** The artifact loop of [complete_claim]: the set of roles, or an early
    [Invalid]. *)
Fixpoint check_completed (c : OperationContract) (attempt_id claim_id : uuid)
    (roles : gset text) (l : list CompletedArtifactInput) : Tx DB complete_result (gset text) :=
  match l with
  | [] => mret roles
  | a :: l =>
      if bool_decide (ca_role a ∈ roles) || bool_decide (artifact_contract c (ca_role a) = None)
      then early (Ok CompleteInvalid) else
      match hex_decode (ca_sha256 a) with
      | None => early (Ok CompleteInvalid)
      | Some digest =>
          if negb (length digest =? 32)%nat then early (Ok CompleteInvalid) else
          matched ← exec s claim_fail (reads (artifact_uploaded attempt_id claim_id digest a));
          if negb matched then early (Ok CompleteInvalid) else
          check_completed c attempt_id claim_id ({[ca_role a]} ∪ roles) l
      end
  end.

Definition missing_required (c : OperationContract) (roles : gset text) : bool :=
  existsb (λ a, ac_required a && negb (bool_decide (ac_role a ∈ roles))) (oc_artifacts c).

Definition delivered (now : time) (a : Attempt) : Attempt :=
  a <| a_state := ADelivered |> <| a_phase := Complete |> <| a_updated_at := now |>
    <| a_completed_at := Some now |>.
Definition finalizing (now : time) (j : Job) : Job :=
  j <| j_state := Finalizing |> <| j_phase := ValidatingResult |> <| j_current_claim := None |>
    <| j_claim_expires_at := None |> <| j_finalization_token := None |>
    <| j_finalization_expires_at := None |> <| j_updated_at := now |>.

Definition complete_claim (now : time) (worker : AuthenticatedWorker)
    (session_id claim_id : uuid) (completed : list CompletedArtifactInput) (db : DB) :
    complete_result * DB :=
  if bool_decide (completed = []) then (Ok CompleteInvalid, db) else
  transact s claim_fail (
    row ← exec s claim_fail (reads (claim_row worker session_id claim_id));
    match row with
    | None => early (Ok CompleteLost)
    | Some (MkClaimRow attempt_id a j) =>
        let delivery_replay :=
          bool_decide (a_state a = ADelivered)
          && bool_decide (j_state j = Finalizing ∨ j_state j = Succeeded ∨ j_state j = Failed) in
        if j_cancellation_requested j && negb delivery_replay
        then early (Ok CompleteCancelled) else
        if negb delivery_replay
           && (bool_decide (a_state a ≠ ARunning) || bool_decide (j_state j ≠ Running)
               || bool_decide (j_current_claim j ≠ Some claim_id)
               || (a_lease_expires_at a <=? now))
        then early (Ok CompleteLost) else
        let c := contract (j_operation j) in
        if (length (oc_artifacts c) <? length completed)%nat then early (Ok CompleteInvalid) else
        roles ← check_completed c attempt_id claim_id ∅ completed;
        if missing_required c roles then early (Ok CompleteInvalid) else
        if delivery_replay then mret (Ok (Accepted (a_job a))) else
        _ ← exec s claim_fail (writes (update_attempt attempt_id (delivered now)));
        _ ← exec s claim_fail (writes (update_job (a_job a) (finalizing now)));
        mret (Ok (Accepted (a_job a)))
    end) db.

(** ** Failure and release *)

Inductive ClaimMutationOutcome : Type :=
| Updated (job_id : uuid) (state : ProcessingJobState) | MutationLost.

Record ReportedFailure : Type := MkReported {
  rf_class : WorkerFailureClass; rf_code : text; rf_message : text }.

Definition ended_attempt (now : time) (failure : option ReportedFailure) (a : Attempt) : Attempt :=
  a <| a_state := match failure with Some _ => AFailed | None => AReleased end |>
    <| a_phase := Complete |>
    <| a_failure_class := (λ f, failure_class_text (rf_class f)) <$> failure |>
    <| a_failure_code := rf_code <$> failure |>
    <| a_failure_message := rf_message <$> failure |>
    <| a_updated_at := now |> <| a_completed_at := Some now |>.

Definition ended_job (now : time) (next_state : ProcessingJobState) (next_attempt_at : time)
    (failure : option ReportedFailure) (j : Job) : Job :=
  let queued := bool_decide (next_state = Queued) in
  let failed {A} (o : option A) := if bool_decide (next_state = Failed) then o else None in
  j <| j_state := next_state |> <| j_phase := if queued then WaitingForWorker else Complete |>
    <| j_current_claim := None |> <| j_claim_expires_at := None |>
    <| j_failure_class := failed ((λ f, failure_class_text (rf_class f)) <$> failure) |>
    <| j_failure_code := failed (rf_code <$> failure) |>
    <| j_failure_message := failed (rf_message <$> failure) |>
    <| j_updated_at := now |>
    <| j_completed_at := if is_terminal next_state then Some now else None |>
    <| j_next_attempt_at := if queued then next_attempt_at else j_next_attempt_at j |>.

(** The job state after a failed or released claim. *)
Definition state_after_claim (failure : option ReportedFailure) (j : Job) : ProcessingJobState :=
  let retry := match failure with Some f => retryable (rf_class f) | None => true end in
  if j_cancellation_requested j then Cancelled
  else if retry && (j_attempt_count j <? j_max_attempts j) then Queued else Failed.

Definition mutate_failed_claim (now : time) (worker : AuthenticatedWorker)
    (session_id claim_id : uuid) (failure : option ReportedFailure) :
    DB → result ClaimError ClaimMutationOutcome * DB :=
  transact s claim_fail (
    row ← exec s claim_fail (reads (claim_row worker session_id claim_id));
    match row with
    | None => early (Ok MutationLost)
    | Some (MkClaimRow attempt_id a j) =>
        if bool_decide (a_state a = AFailed ∨ a_state a = AReleased)
        then mret (Ok (Updated (a_job a) (j_state j))) else
        if bool_decide (j_state j ≠ Running) || bool_decide (j_current_claim j ≠ Some claim_id)
           || (a_lease_expires_at a <=? now)
        then early (Ok MutationLost) else
        let next_state := state_after_claim failure j in
        let next_attempt_at :=
          if bool_decide (next_state = Queued)
          then now + processing_retry_delay (j_attempt_count j) else now in
        _ ← exec s claim_fail (writes (update_attempt attempt_id (ended_attempt now failure)));
        _ ← exec s claim_fail (writes (update_job (a_job a)
              (ended_job now next_state next_attempt_at failure)));
        mret (Ok (Updated (a_job a) next_state))
    end).

Definition fail_claim (now : time) (worker : AuthenticatedWorker) (session_id claim_id : uuid)
    (class : WorkerFailureClass) (code message : text) :
    DB → result ClaimError ClaimMutationOutcome * DB :=
  mutate_failed_claim now worker session_id claim_id (Some (MkReported class code message)).

Definition release_claim (now : time) (worker : AuthenticatedWorker) (session_id claim_id : uuid) :
    DB → result ClaimError ClaimMutationOutcome * DB :=
  mutate_failed_claim now worker session_id claim_id None.
End claims.

(** * Document processing: transfers

    The transfer half of document_processing::worker_persistence: single-use
    capabilities that bind one claim to one blob read (the input) or one blob
    write (an artifact). *)
(** ** Header and digest parsing *)

(** [transfer_token], on the [Authorization] header. *)
Definition transfer_token (authorization : option text) : option text :=
  header ← authorization;
  value ← trim <$> strip_prefix (lit "ProcessingTransfer ") header;
  if text_eqb value [] then None else Some value.

Definition decode_sha256 (hex_decode : text → option bytes) (value : text) : option bytes :=
  digest ← hex_decode value;
  if (length digest =? 32)%nat then Some digest else None.

Record ArtifactTransferRequest : Type := MkTransferRequest {
  tr_session_id : uuid;
  tr_claim_id : uuid;
  tr_role : text;
  tr_media_type : text;
  tr_filename : text;
  tr_size_bytes : Z;
  tr_expected_sha256 : bytes;
}.

(** Against the operation's contract: role, media type, suffix, size. *)
Definition valid_declaration (operation : ProcessingOperation) (config : ProcessingConfig)
    (r : ArtifactTransferRequest) : bool :=
  match artifact_contract (contract operation) (tr_role r) with
  | None => false
  | Some a =>
      let max_bytes := match ac_size_class a with
                       | Output => max_output_bytes config
                       | Diagnostic => max_diagnostic_bytes config
                       end in
      text_eqb (tr_media_type r) (ac_media_type a)
      && ends_with (ac_filename_suffix a) (tr_filename r)
      && (0 <? tr_size_bytes r) && (tr_size_bytes r <=? max_bytes)
  end.

(** The file name carries no separator and no control byte. *)
Definition valid_filename (filename : text) : bool :=
  negb (text_eqb filename []) && negb (160 <? str_len filename)%N
  && negb (existsb (λ b, (b =? 0x2F) || (b =? 0x5C) || is_ascii_control b)%N (utf8 filename)).

(** ** Rows *)

(** The conjuncts a transfer query shares: the attempt runs under an unexpired
    lease and the job still runs under the transfer's claim. *)
Definition transfer_live (now : time) (t : Transfer) (db : DB) : bool :=
  match attempts db !! t_attempt t, jobs db !! t_job t with
  | Some a, Some j =>
      bool_decide (a_state a = ARunning ∧ now < a_lease_expires_at a ∧ j_state j = Running
                   ∧ j_current_claim j = Some (t_claim t))
  | _, _ => false
  end.

(** Inner join with the blob for a download; left join for an upload. *)
Definition download_row (now : time) (transfer_id : uuid) (db : DB) : option (Transfer * Blob) :=
  t ← transfers db !! transfer_id;
  blob_id ← t_blob t;
  blob ← blobs db !! blob_id;
  if transfer_live now t db then Some (t, blob) else None.

Definition upload_row (now : time) (transfer_id : uuid) (db : DB) :
    option (Transfer * option Blob) :=
  t ← transfers db !! transfer_id;
  if transfer_live now t db then Some (t, (blob_id ← t_blob t; blobs db !! blob_id)) else None.

Definition expire_issued (attempt_id : uuid) (role : text) (now : time) (db : DB) : DB :=
  db <| transfers := update_rows
          (λ _ t, bool_decide (t_attempt t = attempt_id ∧ t_direction t = Upload
                               ∧ t_role t = role ∧ t_state t = TIssued ∧ t_expires_at t ≤ now))
          (λ _ t, t <| t_state := TExpired |> <| t_updated_at := now |>) (transfers db) |>.

Definition role_exists (attempt_id : uuid) (role : text) (db : DB) : bool :=
  exists_row (λ _ t, bool_decide (t_attempt t = attempt_id ∧ t_direction t = Upload
                                  ∧ t_role t = role
                                  ∧ (t_state t = TIssued ∨ t_state t = TUploaded
                                     ∨ t_state t = TConsumed))) (transfers db).

(** The claim row with the conditions of [create_artifact_transfer]. *)
Definition running_claim_row (now : time) (worker : AuthenticatedWorker)
    (session_id claim_id : uuid) (db : DB) : option ClaimRow :=
  r ← claim_row worker session_id claim_id db;
  if bool_decide (a_state (cr_attempt r) = ARunning ∧ now < a_lease_expires_at (cr_attempt r)
                  ∧ j_state (cr_job r) = Running ∧ j_current_claim (cr_job r) = Some claim_id
                  ∧ j_cancellation_requested (cr_job r) = false)
  then Some r else None.

Section transfers.
Context (s : schedule) (sha256 : bytes → bytes).

Definition create_artifact_transfer (now : time) (transfer_id : uuid) (sample : text)
    (worker : AuthenticatedWorker) (r : ArtifactTransferRequest) (config : ProcessingConfig) :
    DB → result ClaimError IssuedTransfer * DB :=
  transact s claim_fail (
    row ← exec s claim_fail (reads (running_claim_row now worker (tr_session_id r)
                                      (tr_claim_id r)));
    match row with
    | None => early (Err ClaimLost)
    | Some (MkClaimRow attempt_id a j) =>
        if negb (valid_declaration (j_operation j) config r) || negb (valid_filename (tr_filename r))
        then early (Err ClaimInvalid) else
        _ ← exec s claim_fail (writes (expire_issued attempt_id (tr_role r) now));
        taken ← exec s claim_fail (reads (role_exists attempt_id (tr_role r)));
        if taken : bool then early (Err ClaimInvalid) else
        transfer ← issue_transfer s sha256 claim_fail transfer_id sample now (a_job a) attempt_id
          (tr_claim_id r) Upload (tr_role r) (tr_media_type r) (Some (tr_filename r))
          (Some (tr_size_bytes r)) (tr_size_bytes r) (Some (tr_expected_sha256 r)) None 1
          (now + transfer_ttl config);
        mret (Ok transfer)
    end).

Inductive TransferDownloadOutcome : Type :=
| Content (content : bytes) (media_type : text) (digest : bytes) | DownloadRejected.

Definition use_download (next_uses : Z) (now : time) (t : Transfer) : Transfer :=
  t <| t_remaining_uses := next_uses |>
    <| t_state := if next_uses =? 0 then TConsumed else t_state t |> <| t_updated_at := now |>.

Definition download_transfer (now : time) (transfer_id : uuid) (token : text) :
    DB → result sqlx_error TransferDownloadOutcome * DB :=
  let fingerprint := sha256 (utf8 token) in
  transact s Err (
    row ← exec s Err (reads (download_row now transfer_id));
    match row with
    | None => early (Ok DownloadRejected)
    | Some (t, blob) =>
        if negb (bool_decide (t_fingerprint t = fingerprint))
           || bool_decide (t_state t ≠ TIssued) || bool_decide (t_direction t ≠ Download)
           || (t_remaining_uses t <=? 0) || (t_expires_at t <=? now)
        then early (Ok DownloadRejected) else
        let next_uses := t_remaining_uses t - 1 in
        _ ← exec s Err (writes (update_transfer transfer_id (use_download next_uses now)));
        not_null Err (t_expected_sha256 t) (λ digest,
        mret (Ok (Content (blob_content blob) (t_media_type t) digest)))
    end).

Inductive TransferUploadOutcome : Type :=
| Stored (size_bytes : Z) (digest : bytes) | UploadRejected | TooLarge | DigestMismatch.

Definition uploaded (blob_id : uuid) (now : time) (t : Transfer) : Transfer :=
  t <| t_blob := Some blob_id |> <| t_state := TUploaded |> <| t_remaining_uses := 0 |>
    <| t_updated_at := now |>.

Definition upload_transfer (now : time) (new_blob_id transfer_id : uuid) (token : text)
    (content : bytes) : DB → result sqlx_error TransferUploadOutcome * DB :=
  let fingerprint := sha256 (utf8 token) in
  let digest := sha256 content in
  let size_bytes := len_i64 content in
  transact s Err (
    row ← exec s Err (reads (upload_row now transfer_id));
    match row with
    | None => early (Ok UploadRejected)
    | Some (t, stored) =>
        if negb (bool_decide (t_fingerprint t = fingerprint))
           || negb (bool_decide (t_state t = TIssued ∨ t_state t = TUploaded))
           || bool_decide (t_direction t ≠ Upload) || (t_expires_at t <=? now)
        then early (Ok UploadRejected) else
        if (t_max_size t <? size_bytes)
           || match t_exact_size t with Some exact => negb (exact =? size_bytes) | None => false end
        then early (Ok TooLarge) else
        if match t_expected_sha256 t with
           | Some expected => bool_decide (expected ≠ digest)
           | None => false
           end
        then early (Ok DigestMismatch) else
        if bool_decide (t_state t = TUploaded) then
          if bool_decide ((blob_size <$> stored) = Some size_bytes
                          ∧ (blob_sha256 <$> stored) = Some digest)
          then early (Ok (Stored size_bytes digest)) else early (Ok UploadRejected)
        else
          blob_id ← exec s Err (store_blob new_blob_id digest (t_media_type t) content now);
          _ ← exec s Err (writes (update_transfer transfer_id (uploaded blob_id now)));
          mret (Ok (Stored size_bytes digest))
    end).
End transfers.
