(* ===== verification/ProcessingRequests.v ===== *)
(** * Document processing: replay records of worker mutations

    document_processing::worker_idempotency.  A mutating worker request is
    reserved under its identity and request id, executed once, and its response
    replayed until the record expires. *)
From S2P Require Import Prelude Store Text ProcessingModel.

Open Scope Z_scope.

Definition REQUEST_PENDING_STATUS : Z := 102.
Definition REQUEST_PENDING_TTL : Z := seconds (10 * 60).
Definition REQUEST_REPLAY_TTL : Z := seconds (24 * 60 * 60).

Record WorkerRequestReservation : Type := MkReservation {
  res_worker_identity : text;
  res_request_id : uuid;
  res_route_key : text;
  res_payload_digest : bytes;
}.
Record StoredWorkerResponse : Type := MkStoredResponse {
  sr_status : Z; sr_body : option Value }.
Inductive WorkerRequestStart : Type :=
| Execute (reservation : WorkerRequestReservation)
| Replay (response : StoredWorkerResponse)
| InProgress.
Inductive WorkerRequestError : Type :=
| RequestConflict | RequestPersistence (source : sqlx_error).

Definition u16_try_from (n : Z) : option Z :=
  if (0 <=? n) && (n <=? 65535) then Some n else None.

Definition request_fail {A} : sqlx_error → result WorkerRequestError A :=
  λ e, Err (RequestPersistence e).

(** Insert with the primary key and the status range check. *)
Definition insert_request (k : text * uuid) (r : WorkerRequest) (db : DB) :
    result sqlx_error (unit * DB) :=
  t ← insert_row k r (worker_requests db);
  if (r_status r <? 100) || (599 <? r_status r) then Err CheckViolation
  else Ok ((), db <| worker_requests := t |>).

Definition delete_request (k : text * uuid) (db : DB) : DB :=
  db <| worker_requests := delete k (worker_requests db) |>.

(** The record still holds this reservation. *)
Definition reserved_by (res : WorkerRequestReservation) (r : WorkerRequest) : bool :=
  bool_decide (r_route_key r = res_route_key res ∧ r_payload_digest r = res_payload_digest res
               ∧ r_status r = REQUEST_PENDING_STATUS).

Definition reservation_key (res : WorkerRequestReservation) : text * uuid :=
  (res_worker_identity res, res_request_id res).

Section requests.
Context (s : schedule).

Definition reserve_request (now : time) (worker_identity : text) (request_id : uuid)
    (route_key : text) (payload_digest : bytes) :
    Tx DB (result WorkerRequestError WorkerRequestStart)
       (result WorkerRequestError WorkerRequestStart) :=
  _ ← exec s request_fail (insert_request (worker_identity, request_id)
        (MkWorkerRequest route_key payload_digest REQUEST_PENDING_STATUS None now
           (now + REQUEST_PENDING_TTL)));
  mret (Ok (Execute (MkReservation worker_identity request_id route_key payload_digest))).

(** [begin_worker_request], from the digest of the serialized payload on;
    the advisory lock makes it atomic. *)
Definition begin_worker_request (now : time) (worker_identity : text) (request_id : uuid)
    (route_key : text) (payload_digest : bytes) :
    DB → result WorkerRequestError WorkerRequestStart * DB :=
  let key := (worker_identity, request_id) in
  transact s request_fail (
    _ ← exec s request_fail (writes id);
    existing ← exec s request_fail (reads (λ db, worker_requests db !! key));
    match existing with
    | None => reserve_request now worker_identity request_id route_key payload_digest
    | Some r =>
        if r_expires_at r <=? now then
          _ ← exec s request_fail (writes (delete_request key));
          reserve_request now worker_identity request_id route_key payload_digest
        else
          if bool_decide (r_route_key r ≠ route_key) || bool_decide (r_payload_digest r ≠ payload_digest)
          then early (Err RequestConflict) else
          if r_status r =? REQUEST_PENDING_STATUS then mret (Ok InProgress) else
          match u16_try_from (r_status r) with
          | None => early (Err (RequestPersistence
                                  (Protocol "stored worker response status is invalid")))
          | Some status => mret (Ok (Replay (MkStoredResponse status (r_body r))))
          end
    end).

Definition affected_result (r : result sqlx_error Z * DB) : result WorkerRequestError unit * DB :=
  match r with
  | (Err e, db) => (Err (RequestPersistence e), db)
  | (Ok affected, db) =>
      (if affected =? 1 then Ok ()
       else Err (RequestPersistence (Protocol "worker request reservation was lost")), db)
  end.

(** [WorkerRequestReservation::finish] and [::abort]; the response body is
    stored after the status range check. *)
Definition finish_request (now : time) (status : Z) (body : option Value)
    (res : WorkerRequestReservation) (db : DB) : result WorkerRequestError unit * DB :=
  affected_result (autocommit s 0 (λ db,
    match worker_requests db !! reservation_key res with
    | Some r =>
        if reserved_by res r then
          if (status <? 100) || (599 <? status) then Err CheckViolation else
          Ok (1, db <| worker_requests := <[reservation_key res :=
                   r <| r_status := status |> <| r_body := body |>
                     <| r_expires_at := now + REQUEST_REPLAY_TTL |>]> (worker_requests db) |>)
        else Ok (0, db)
    | None => Ok (0, db)
    end) db).

Definition abort_request (res : WorkerRequestReservation) (db : DB) :
    result WorkerRequestError unit * DB :=
  affected_result (autocommit s 0 (λ db,
    match worker_requests db !! reservation_key res with
    | Some r => if reserved_by res r then Ok (1, delete_request (reservation_key res) db)
                else Ok (0, db)
    | None => Ok (0, db)
    end) db).
End requests.

(** [delete from processing_worker_requests where expires_at <= now], run by the
    lifecycle maintenance. *)
Definition delete_replies (now : time) (db : DB) : DB :=
  db <| worker_requests := delete_rows (λ _ r, r_expires_at r <=? now) (worker_requests db) |>.

(** ** Specification *)

(** The record a request id holds at a time, if it has not expired. *)
Definition live_request (now : time) (k : text * uuid) (db : DB) : option WorkerRequest :=
  r ← worker_requests db !! k;
  if r_expires_at r <=? now then None else Some r.

Definition pending_record (now : time) (route : text) (digest : bytes) : WorkerRequest :=
  MkWorkerRequest route digest REQUEST_PENDING_STATUS None now (now + REQUEST_PENDING_TTL).

(** What a start means: execution is granted only where no live record exists,
    and then reserves the key; every other answer reports the live record and
    changes nothing. *)
Definition start_outcome (now : time) (k : text * uuid) (route : text) (digest : bytes) (db : DB)
    (res : result WorkerRequestError WorkerRequestStart) (db' : DB) : Prop :=
  match res with
  | Ok (Execute reservation) =>
      live_request now k db = None ∧ reservation = MkReservation k.1 k.2 route digest ∧
      worker_requests db' = <[k := pending_record now route digest]> (worker_requests db)
  | Ok (Replay response) =>
      db' = db ∧ ∃ r, live_request now k db = Some r ∧ r_route_key r = route ∧
        r_payload_digest r = digest ∧ r_status r ≠ REQUEST_PENDING_STATUS ∧
        response = MkStoredResponse (r_status r) (r_body r)
  | Ok InProgress =>
      db' = db ∧ ∃ r, live_request now k db = Some r ∧ r_route_key r = route ∧
        r_payload_digest r = digest ∧ r_status r = REQUEST_PENDING_STATUS
  | Err RequestConflict =>
      db' = db ∧ ∃ r, live_request now k db = Some r ∧
        (r_route_key r ≠ route ∨ r_payload_digest r ≠ digest)
  | Err (RequestPersistence _) =>
      db' = db ∨ worker_requests db' = <[k := pending_record now route digest]> (worker_requests db)
                 ∧ live_request now k db = None
  end.

Lemma u16_try_from_Some n m : u16_try_from n = Some m → m = n.
Proof. unfold u16_try_from. case_match; congruence. Qed.

Lemma reserve_wp s now ident id route digest db0 db n :
  live_request now (ident, id) db0 = None →
  worker_requests db = delete (ident, id) (worker_requests db0) →
  wp (reserve_request s now ident id route digest)
    (λ r, start_outcome now (ident, id) route digest db0 r db0)
    (λ r db' _, start_outcome now (ident, id) route digest db0 r db'
                ∧ start_outcome now (ident, id) route digest db0 (request_fail Unavailable) db') db n.
Proof.
  intros Hlive Hdb. unfold reserve_request. apply wp_bind, wp_exec; [by left|].
  intros [] db' Hins. unfold insert_request in Hins.
  destruct (insert_row _ _ _) as [t|] eqn:Hrow; [|done]. simplify_eq/=.
  apply insert_row_Ok in Hrow as [_ ->]. apply wp_ret.
  assert (worker_requests (db <| worker_requests :=
            <[(ident, id) := pending_record now route digest]> (worker_requests db) |>)
          = <[(ident, id) := pending_record now route digest]> (worker_requests db0)) as Hnew.
  { cbn. by rewrite Hdb, insert_delete_eq. }
  split; [by split_and!|right; by split].
Qed.

Lemma begin_spec s now ident id route digest db res db' :
  begin_worker_request s now ident id route digest db = (res, db') →
  start_outcome now (ident, id) route digest db res db'.
Proof.
  intros Heq. unfold begin_worker_request in Heq. tx_start Heq; [by left|].
  assert (∀ e, start_outcome now (ident, id) route digest db (request_fail e) db) as Hfail
    by by left.
  apply wp_bind, wp_writes; [done|]. apply wp_bind, wp_reads; [done|]. simpl.
  destruct (worker_requests db !! (ident, id)) as [r|] eqn:Hr.
  - destruct (r_expires_at r <=? now) eqn:Hexp.
    + apply wp_bind, wp_writes; [done|]. apply reserve_wp; [|done].
      unfold live_request. rewrite Hr. simpl. by rewrite Hexp.
    + assert (live_request now (ident, id) db = Some r) as Hlive
        by (unfold live_request; rewrite Hr; simpl; by rewrite Hexp).
      destruct (bool_decide (r_route_key r ≠ route) || _) eqn:Hc.
      { apply wp_early. split; [done|]. exists r. split; [done|].
        by rewrite orb_true_iff, !bool_decide_eq_true in Hc. }
      rewrite orb_false_iff, !bool_decide_eq_false in Hc. destruct Hc as [Hroute Hdig].
      apply dec_stable in Hroute, Hdig. case_match eqn:Hst.
      * apply wp_ret. split; [|by left]. split; [done|]. exists r. by apply Z.eqb_eq in Hst.
      * apply Z.eqb_neq in Hst. destruct (u16_try_from (r_status r)) as [status|] eqn:Hu.
        -- apply u16_try_from_Some in Hu as ->. apply wp_ret. split; [|by left].
           split; [done|]. by exists r.
        -- apply wp_early. by left.
  - apply reserve_wp; [unfold live_request; by rewrite Hr|].
    symmetry. by apply delete_id.
Qed.

(** ** Traces of the replay table *)

Inductive RequestOp : Type :=
| OpBegin (k : text * uuid) (route : text) (digest : bytes)
| OpFinish (res : WorkerRequestReservation) (status : Z) (body : option Value)
| OpAbort (res : WorkerRequestReservation)
| OpMaintain.

Definition run_request (s : schedule) (now : time) (op : RequestOp) (db : DB) : DB :=
  match op with
  | OpBegin k route digest => (begin_worker_request s now k.1 k.2 route digest db).2
  | OpFinish res status body => (finish_request s now status body res db).2
  | OpAbort res => (abort_request s res db).2
  | OpMaintain => (autocommit s 0 (writes (delete_replies now)) db).2
  end.

Definition run_requests (trace : list (schedule * time * RequestOp)) (db : DB) : DB :=
  foldl (λ db '(s, now, op), run_request s now op db) db trace.

(** The operation ends the reservation of [k]. *)
Definition ends_reservation (k : text * uuid) (op : RequestOp) : bool :=
  match op with
  | OpFinish res _ _ | OpAbort res => bool_decide (reservation_key res = k)
  | _ => false
  end.

Lemma affected_result_snd r : (affected_result r).2 = r.2.
Proof. by destruct r as [[] ?]. Qed.

(** A live record survives every operation that does not end its reservation. *)
Lemma run_request_keeps s now op k r db :
  ends_reservation k op = false →
  worker_requests db !! k = Some r → now < r_expires_at r →
  worker_requests (run_request s now op db) !! k = Some r.
Proof.
  intros Hends Hr Hexp. destruct op as [k' route digest|res status body|res|]; simpl in *.
  - destruct (begin_worker_request s now k'.1 k'.2 route digest db) as [st db'] eqn:Hb. simpl.
    apply begin_spec in Hb. rewrite <-(surjective_pairing k') in Hb.
    assert (live_request now k' db = None → k' ≠ k) as Hne.
    { unfold live_request. intros Hl ->. rewrite Hr in Hl. simpl in Hl.
      destruct (Z.leb_spec (r_expires_at r) now); [lia|done]. }
    destruct st as [[| |]|[|]]; simpl in Hb.
    + destruct Hb as (Hl & _ & ->). rewrite lookup_insert_ne; auto.
    + by destruct Hb as [-> _].
    + by destruct Hb as [-> _].
    + by destruct Hb as [-> _].
    + destruct Hb as [->|[-> Hl]]; [done|]. rewrite lookup_insert_ne; auto.
  - unfold finish_request. rewrite affected_result_snd.
    apply (autocommit_inv (λ d, worker_requests d !! k = Some r)); [done|].
    apply bool_decide_eq_false in Hends. intros a db' Hq.
    repeat case_match; simplify_eq/=; try done. by rewrite lookup_insert_ne.
  - unfold abort_request. rewrite affected_result_snd.
    apply (autocommit_inv (λ d, worker_requests d !! k = Some r)); [done|].
    apply bool_decide_eq_false in Hends. intros a db' Hq.
    repeat case_match; simplify_eq/=; try done. by rewrite lookup_delete_ne.
  - apply (autocommit_inv (λ d, worker_requests d !! k = Some r)); [done|].
    intros a db' [= _ <-]. cbn. apply lookup_delete_rows_Some.
    split; [done|]. apply Z.leb_gt. lia.
Qed.

Lemma run_requests_keeps trace k r db :
  Forall (λ '(_, now, op), ends_reservation k op = false ∧ now < r_expires_at r) trace →
  worker_requests db !! k = Some r →
  worker_requests (run_requests trace db) !! k = Some r.
Proof.
  unfold run_requests. intros Hall. revert db.
  induction Hall as [|[[s now] op] trace [Hends Hlt] Hall IH]; intros db Hr; [done|].
  apply IH. by apply run_request_keeps.
Qed.

(** The start hands the request out for execution. *)
Definition granted (r : result WorkerRequestError WorkerRequestStart) : bool :=
  match r with Ok (Execute _) => true | _ => false end.

(** A granted request is executed by one caller: until the reservation is
    finished or aborted, or its ten minutes are over, no start of the same
    request id, with whatever payload and whatever happens to other requests,
    is granted again. *)
Theorem execution_is_exclusive s now k route digest db res db1 trace s' now' route' digest' :
  begin_worker_request s now k.1 k.2 route digest db = (Ok (Execute res), db1) →
  Forall (λ '(_, t, op), ends_reservation k op = false ∧ t < now + REQUEST_PENDING_TTL) trace →
  now' < now + REQUEST_PENDING_TTL →
  granted (begin_worker_request s' now' k.1 k.2 route' digest' (run_requests trace db1)).1 = false.
Proof.
  intros Hb%begin_spec Htrace Hnow. apply not_true_iff_false.
  destruct (begin_worker_request s' now' k.1 k.2 route' digest' (run_requests trace db1))
    as [[[res'| |]|] db2] eqn:Hb'; try done. intros _. apply begin_spec in Hb'.
  rewrite <-(surjective_pairing k) in Hb, Hb'.
  destruct Hb as (_ & _ & Hdb1). destruct Hb' as (Hl & _ & _).
  assert (worker_requests db1 !! k = Some (pending_record now route digest)) as Hk
    by by rewrite Hdb1, lookup_insert_eq.
  apply (run_requests_keeps trace) in Hk; [|done].
  unfold live_request in Hl. rewrite Hk in Hl. simpl in Hl.
  destruct (Z.leb_spec (now + REQUEST_PENDING_TTL) now'); [lia|done].
Qed.

(** The stored response is replayed: once a granted request finished, a start
    with the same route and payload answers the recorded status and body for a
    day, whatever happens to other requests meanwhile. *)
Theorem finished_request_replays s1 t1 k route digest db res db1 s2 t2 status body db2
    trace s3 t3 start db3 :
  begin_worker_request s1 t1 k.1 k.2 route digest db = (Ok (Execute res), db1) →
  finish_request s2 t2 status body res db1 = (Ok (), db2) →
  status ≠ REQUEST_PENDING_STATUS →
  Forall (λ '(_, t, op), ends_reservation k op = false ∧ t < t2 + REQUEST_REPLAY_TTL) trace →
  t3 < t2 + REQUEST_REPLAY_TTL →
  begin_worker_request s3 t3 k.1 k.2 route digest (run_requests trace db2) = (Ok start, db3) →
  start = Replay (MkStoredResponse status body) ∧ db3 = run_requests trace db2.
Proof.
  intros Hb%begin_spec Hf Hst Htrace Ht3 Hb3%begin_spec.
  rewrite <-(surjective_pairing k) in Hb, Hb3. destruct Hb as (_ & -> & Hdb1).
  set (r := MkWorkerRequest route digest status body t1 (t2 + REQUEST_REPLAY_TTL)).
  assert (worker_requests db2 !! k = Some r) as Hk.
  { unfold finish_request, affected_result, autocommit in Hf.
    change (reservation_key _) with (k.1, k.2) in Hf.
    rewrite <-(surjective_pairing k), Hdb1, lookup_insert_eq in Hf.
    unfold reserved_by in Hf. rewrite bool_decide_eq_true_2 in Hf by done.
    repeat case_match; simplify_eq/=; cbn; by rewrite lookup_insert_eq. }
  apply (run_requests_keeps trace) in Hk; [|done].
  assert (live_request t3 k (run_requests trace db2) = Some r) as Hlive.
  { unfold live_request. rewrite Hk. simpl.
    by destruct (Z.leb_spec (t2 + REQUEST_REPLAY_TTL) t3); [lia|]. }
  destruct start as [| |]; simpl in Hb3; rewrite Hlive in Hb3.
  - by destruct Hb3.
  - destruct Hb3 as (-> & r' & [= <-] & _ & _ & _ & ->). done.
  - destruct Hb3 as (_ & r' & [= <-] & _ & _ & Hp). done.
Qed.

(** ** Witnesses *)

Definition sample_key : text * uuid := (lit "worker", 7%N).
Definition sample_digest : bytes := [1%N].
Definition sample_reservation : WorkerRequestReservation :=
  MkReservation (lit "worker") 7%N (lit "POST /claims") sample_digest.
Definition sample_reserved_db : DB :=
  (begin_worker_request healthy 0 sample_key.1 sample_key.2 (lit "POST /claims") sample_digest
     empty_db).2.

Theorem execution_is_exclusive_witness :
  granted (begin_worker_request healthy 5 sample_key.1 sample_key.2 (lit "POST /claims")
             sample_digest (run_requests [(healthy, 1, OpMaintain)] sample_reserved_db)).1 = false.
Proof.
  apply (execution_is_exclusive healthy 0 sample_key (lit "POST /claims") sample_digest empty_db
           sample_reservation sample_reserved_db).
  - vm_compute. reflexivity.
  - constructor; [by vm_compute|constructor].
  - by vm_compute.
Defined.

Theorem finished_request_replays_witness :
  (Replay (MkStoredResponse 201 None)) = (Replay (MkStoredResponse 201 None)) ∧
  (finish_request healthy 2 201 None sample_reservation sample_reserved_db).2
  = run_requests [] (finish_request healthy 2 201 None sample_reservation sample_reserved_db).2.
Proof.
  apply (finished_request_replays healthy 0 sample_key (lit "POST /claims") sample_digest empty_db
           sample_reservation sample_reserved_db healthy 2 201 None
           (finish_request healthy 2 201 None sample_reservation sample_reserved_db).2 []
           healthy 3).
  - vm_compute. reflexivity.
  - vm_compute. reflexivity.
  - by vm_compute.
  - constructor.
  - by vm_compute.
  - vm_compute. reflexivity.
Defined.
