(* ===== verification/ProcessingMaintenance.v ===== *)
(** * Document processing: lifecycle maintenance

    The maintenance half of document_processing::finalization: it recovers the
    jobs whose lease expired and enforces queue, transfer and retention
    deadlines. *)
From S2P Require Import Prelude Store Text ProcessingModel ProcessingAdmission ProcessingClaims.
From S2P Require Import ProcessingRequests.

Open Scope Z_scope.

Definition MAINTENANCE_BATCH : nat := 16.

(** ** Lifecycle maintenance *)

Definition expire_sessions (now : time) (db : DB) : DB :=
  db <| sessions := update_rows
          (λ _ sn, bool_decide (s_state sn = SActive ∧ s_expires_at sn ≤ now))
          (λ _ sn, sn <| s_state := SExpired |> <| s_updated_at := now |>) (sessions db) |>.

Definition expire_drained (now : time) (db : DB) : DB :=
  db <| sessions := update_rows
          (λ k sn, bool_decide (s_state sn = SDraining)
                   && negb (exists_row (λ _ a, bool_decide (a_session a = k ∧ a_state a = ARunning))
                                       (attempts db)))
          (λ _ sn, sn <| s_state := SExpired |> <| s_updated_at := now |>) (sessions db) |>.

(** The running jobs whose lease expired, soonest first, one batch. *)
Definition expired_claims (now : time) (db : DB) : list (uuid * Job) :=
  take MAINTENANCE_BATCH
    (order_by (λ kj, default 0 (j_claim_expires_at (snd kj)))
       (select (λ _ j, bool_decide (j_state j = Running)
                       && match j_claim_expires_at j with
                          | Some e => e <=? now
                          | None => false
                          end) (jobs db))).

Definition lost_attempt (now : time) (a : Attempt) : Attempt :=
  a <| a_state := ALost |> <| a_phase := Complete |>
    <| a_failure_class := Some (lit "worker_interrupted") |>
    <| a_failure_code := Some (lit "claim_expired") |>
    <| a_failure_message := Some (lit "Worker claim expired before a closed outcome") |>
    <| a_updated_at := now |> <| a_completed_at := Some now |>.

Definition lose_attempts (claim_id : uuid) (now : time) (db : DB) : DB :=
  db <| attempts := update_rows (λ _ a, bool_decide (a_claim a = claim_id ∧ a_state a = ARunning))
          (λ _, lost_attempt now) (attempts db) |>.

Definition expire_claim_transfers (claim_id : uuid) (now : time) (db : DB) : DB :=
  db <| transfers := update_rows
          (λ _ t, bool_decide (t_claim t = claim_id ∧ (t_state t = TIssued ∨ t_state t = TUploaded)))
          (λ _ t, t <| t_state := TExpired |> <| t_updated_at := now |>) (transfers db) |>.

(** The next state of a job whose lease expired, with the failure columns. *)
Definition recovery (now : time) (j : Job) : ProcessingJobState * option (text * text * text) :=
  if j_cancellation_requested j then (Cancelled, None)
  else if (j_attempt_count j <? j_max_attempts j) && (now <? j_queue_expires_at j)
  then (Queued, None)
  else if j_queue_expires_at j <=? now
  then (Expired, Some (lit "worker_interrupted", lit "queue_expired",
                       lit "Processing capacity was unavailable before queue expiry"))
  else (Failed, Some (lit "worker_interrupted", lit "attempts_exhausted",
                      lit "Processing worker attempts were exhausted")).

Definition recovered_job (now : time) (state : ProcessingJobState)
    (failure : option (text * text * text)) (next_attempt_at : time) (j : Job) : Job :=
  let queued := bool_decide (state = Queued) in
  j <| j_state := state |> <| j_phase := if queued then WaitingForWorker else Complete |>
    <| j_current_claim := None |> <| j_claim_expires_at := None |>
    <| j_failure_class := (λ f, f.1.1) <$> failure |>
    <| j_failure_code := (λ f, f.1.2) <$> failure |>
    <| j_failure_message := snd <$> failure |>
    <| j_updated_at := now |>
    <| j_completed_at := if queued then None else Some now |>
    <| j_next_attempt_at := if queued then next_attempt_at else j_next_attempt_at j |>.

Definition queue_overdue (now : time) (j : Job) : bool :=
  bool_decide (j_state j = Preparing ∨ j_state j = Queued) && (j_queue_expires_at j <=? now).
Definition expired_job (now : time) (j : Job) : Job :=
  j <| j_state := Expired |> <| j_phase := Complete |>
    <| j_failure_class := Some (lit "capacity") |>
    <| j_failure_code := Some (lit "queue_expired") |>
    <| j_failure_message :=
         Some (lit "Processing capacity was unavailable before queue expiry") |>
    <| j_updated_at := now |> <| j_completed_at := Some now |>.

Definition expire_queue (now : time) (db : DB) : DB :=
  db <| jobs := update_rows (λ _, queue_overdue now) (λ _, expired_job now) (jobs db) |>.

Definition release_ended_pins (db : DB) : DB :=
  db <| pins := delete_rows
          (λ k _, match jobs db !! k.1 with
                  | Some j => bool_decide (j_state j = Failed ∨ j_state j = Cancelled
                                           ∨ j_state j = Expired)
                  | None => false
                  end) (pins db) |>.

Definition expire_transfers (now : time) (db : DB) : DB :=
  db <| transfers := update_rows
          (λ _ t, bool_decide ((t_state t = TIssued ∨ t_state t = TUploaded)
                               ∧ t_expires_at t ≤ now))
          (λ _ t, t <| t_state := TExpired |> <| t_updated_at := now |>) (transfers db) |>.

(** Retention: a completed job that no cache hit refers to. *)
Definition unretained (now : time) (db : DB) (k : uuid) (j : Job) : bool :=
  (j_retained_until j <=? now) && bool_decide (is_Some (j_completed_at j))
  && negb (exists_row (λ _ d, bool_decide (j_cache_source d = Some k)) (jobs db)).

(** [delete from processing_jobs], with the [on delete cascade] of the pins,
    attempts, transfers and artifacts of the deleted jobs. *)
Definition delete_unretained (now : time) (db : DB) : DB :=
  let gone k := match jobs db !! k with Some j => unretained now db k j | None => false end in
  db <| jobs := delete_rows (unretained now db) (jobs db) |>
     <| pins := delete_rows (λ k _, gone k.1) (pins db) |>
     <| attempts := delete_rows (λ _ a, gone (a_job a)) (attempts db) |>
     <| transfers := delete_rows
          (λ _ t, gone (t_job t)
                  || match attempts db !! t_attempt t with
                     | Some a => gone (a_job a)
                     | None => false
                     end) (transfers db) |>
     <| artifacts := delete_rows (λ _ f, gone (f_job f)) (artifacts db) |>.

Definition delete_unreferenced_blobs (db : DB) : DB :=
  db <| blobs := delete_rows
          (λ k _, negb (exists_row (λ _ j, bool_decide (j_input_blob j = Some k)) (jobs db))
                  && negb (exists_row (λ _ t, bool_decide (t_blob t = Some k)) (transfers db))
                  && negb (exists_row (λ _ f, bool_decide (f_blob f = k)) (artifacts db)))
          (blobs db) |>.

Section maintenance.
Context (s : schedule).

Definition recover_claim (now : time) (row : uuid * Job) : Tx DB (result sqlx_error unit) unit :=
  let '(job_id, j) := row in
  _ ← match j_current_claim j with
      | Some claim_id =>
          _ ← exec s Err (writes (lose_attempts claim_id now));
          exec s Err (writes (expire_claim_transfers claim_id now))
      | None => mret ()
      end;
  let '(state, failure) := recovery now j in
  let next_attempt_at := if bool_decide (state = Queued)
                         then now + processing_retry_delay (j_attempt_count j) else now in
  exec s Err (writes (update_job job_id (recovered_job now state failure next_attempt_at))).

Definition maintain_transaction (now : time) : DB → result sqlx_error unit * DB :=
  transact s Err (
    expired ← exec s Err (reads (expired_claims now));
    _ ← tx_for expired (recover_claim now);
    _ ← exec s Err (writes (expire_queue now));
    _ ← exec s Err (writes release_ended_pins);
    _ ← exec s Err (writes (expire_transfers now));
    _ ← exec s Err (writes (delete_replies now));
    _ ← exec s Err (writes (delete_unretained now));
    _ ← exec s Err (writes delete_unreferenced_blobs);
    mret (Ok ())).
End maintenance.

(** The two session statements run on their own, then the transaction. *)
Definition maintain_lifecycle (s : schedule) (now : time) (db : DB) : result sqlx_error unit * DB :=
  match autocommit s 0 (writes (expire_sessions now)) db with
  | (Err e, db) => (Err e, db)
  | (Ok _, db) =>
      match autocommit s 1 (writes (expire_drained now)) db with
      | (Err e, db) => (Err e, db)
      | (Ok _, db) => maintain_transaction (after 2 s) now db
      end
  end.
