(* ===== verification/ProcessingInvariant.v ===== *)
(** * Document processing: the invariant of jobs, attempts and artifacts

    What every committed state of the processing tables satisfies, and how a
    single job may evolve.  The lemmas cover the four shapes of change the
    operations make: a quiet change of job rows, a joint change of a job and
    its running attempt, the start of an attempt, and the deletion of jobs with
    their cascade. *)
From S2P Require Import Prelude Store Text ProcessingModel.

Open Scope Z_scope.

(** ** The invariant *)

Record job_wf (j : Job) : Prop := {
  wf_claim : is_Some (j_current_claim j) ↔ j_state j = Running;
  wf_claim_expiry : is_Some (j_claim_expires_at j) ↔ j_state j = Running;
  wf_attempts : 0 ≤ j_attempt_count j ≤ 3;
  wf_max_attempts : j_max_attempts j = 3;
  wf_attempts_left :
    j_state j = Preparing ∨ j_state j = Queued → j_attempt_count j < j_max_attempts j;
  wf_completed : is_Some (j_completed_at j) ↔ is_terminal (j_state j) = true;
  wf_token : is_Some (j_finalization_token j) → j_state j = Finalizing;
}.

(** The attempt agrees with its job: it is numbered within the job's attempts,
    and it runs only as the job's current claim. *)
Definition attempt_fits (j : Job) (a : Attempt) : Prop :=
  1 ≤ a_number a ≤ j_attempt_count j ∧
  (a_state a = ARunning → j_state j = Running ∧ j_current_claim j = Some (a_claim a)).

(** The attempt is the one the running job [j] under key [k] claims to have. *)
Definition backs (k : uuid) (j : Job) (a : Attempt) : Prop :=
  a_job a = k ∧ a_state a = ARunning ∧ j_current_claim j = Some (a_claim a)
  ∧ a_number a = j_attempt_count j ∧ j_claim_expires_at j = Some (a_lease_expires_at a).

Definition idempotency (j : Job) : uuid * text * text :=
  (j_requester j, j_idempotency_scope j, j_idempotency_key j).

Record tables_ok (J : gmap uuid Job) (A : gmap uuid Attempt) (F : gmap uuid Artifact) : Prop := {
  ok_wf k j : J !! k = Some j → job_wf j;
  ok_backed k j : J !! k = Some j → j_state j = Running → ∃ i a, A !! i = Some a ∧ backs k j a;
  ok_fits i a : A !! i = Some a → ∃ j, J !! a_job a = Some j ∧ attempt_fits j a;
  ok_claim_unique i1 i2 a1 a2 :
    A !! i1 = Some a1 → A !! i2 = Some a2 → a_claim a1 = a_claim a2 → i1 = i2;
  ok_number_unique i1 i2 a1 a2 :
    A !! i1 = Some a1 → A !! i2 = Some a2 → a_job a1 = a_job a2 → a_number a1 = a_number a2 →
    i1 = i2;
  ok_published i f : F !! i = Some f → ∃ j, J !! f_job f = Some j ∧ j_state j = Succeeded;
  ok_idempotency k1 k2 j1 j2 :
    J !! k1 = Some j1 → J !! k2 = Some j2 → idempotency j1 = idempotency j2 → k1 = k2;
}.

Definition Inv (db : DB) : Prop := tables_ok (jobs db) (attempts db) (artifacts db).

(** ** The state machine of a job *)

Inductive job_edge : ProcessingJobState → ProcessingJobState → Prop :=
| edge_queue : job_edge Preparing Queued
| edge_prepare_fail : job_edge Preparing Failed
| edge_prepare_cancel : job_edge Preparing Cancelled
| edge_prepare_expire : job_edge Preparing Expired
| edge_claim : job_edge Queued Running
| edge_cache_hit : job_edge Queued Finalizing
| edge_queue_cancel : job_edge Queued Cancelled
| edge_queue_expire : job_edge Queued Expired
| edge_deliver : job_edge Running Finalizing
| edge_retry : job_edge Running Queued
| edge_fail : job_edge Running Failed
| edge_cancel : job_edge Running Cancelled
| edge_expire : job_edge Running Expired
| edge_publish : job_edge Finalizing Succeeded
| edge_reject : job_edge Finalizing Failed.

#[export] Hint Constructors job_edge : processing.

(** What the admission of a job fixes for its whole life. *)
Definition terms (j : Job) : ProcessingOperation * uuid * option uuid * time :=
  (j_operation j, j_requester j, j_project j, j_retained_until j).

Lemma terms_retained j j' : terms j' = terms j → j_retained_until j' = j_retained_until j.
Proof. unfold terms. congruence. Qed.

(** How one row may change: a job appears in preparation, follows the edges
    while it is active, is immutable once terminal, and disappears only after
    its retention deadline. *)
Definition job_evolves (now : time) (old new : option Job) : Prop :=
  match old, new with
  | None, None => True
  | None, Some j' => j_state j' = Preparing
  | Some j, None => j_retained_until j ≤ now
  | Some j, Some j' =>
      j' = j ∨ is_terminal (j_state j) = false ∧ rtc job_edge (j_state j) (j_state j')
               ∧ terms j' = terms j
  end.

Definition evolves (now : time) (db db' : DB) : Prop :=
  ∀ k, job_evolves now (jobs db !! k) (jobs db' !! k).

(** A change that admits no job. *)
Definition updates (now : time) (db db' : DB) : Prop :=
  evolves now db db' ∧ ∀ k, is_Some (jobs db' !! k) → is_Some (jobs db !! k).

Lemma job_evolves_refl now o : job_evolves now o o.
Proof. destruct o; [by left|done]. Qed.

Lemma updates_jobs now db db' : jobs db' = jobs db → updates now db db'.
Proof. intros He. split; [intros k|intros k]; rewrite He; [apply job_evolves_refl|done]. Qed.

Lemma updates_refl now db : updates now db db.
Proof. by apply updates_jobs. Qed.

Lemma updates_trans now db1 db2 db3 :
  updates now db1 db2 → updates now db2 db3 → updates now db1 db3.
Proof.
  intros [H12 Hd12] [H23 Hd23]. split; [|by auto]. intros k.
  specialize (H12 k). specialize (H23 k). specialize (Hd12 k). specialize (Hd23 k).
  destruct (jobs db1 !! k) as [j1|], (jobs db2 !! k) as [j2|], (jobs db3 !! k) as [j3|];
    simpl in *; try done;
    try (destruct Hd23 as [? ?]; [by eexists|done]);
    try (destruct Hd12 as [? ?]; [by eexists|done]).
  - destruct H12 as [->|(Ht1 & H12 & Hr)]; [done|].
    destruct H23 as [->|(Ht2 & H23 & Hr')]; [by right|].
    right. split_and!; [done|by etrans|congruence].
  - destruct H12 as [->|(_ & _ & Hr%terms_retained)]; [done|lia].
Qed.

Lemma edge_from_active a b : job_edge a b → is_terminal a = false.
Proof. by destruct 1. Qed.

(** A single row written by [f] along an edge. *)
Lemma updates_job now k f db :
  (∀ j, jobs db !! k = Some j →
     f j = j ∨ rtc job_edge (j_state j) (j_state (f j)) ∧ is_terminal (j_state j) = false
               ∧ terms (f j) = terms j) →
  updates now db (update_job k f db).
Proof.
  intros Hf. split; intros k'; cbn; rewrite lookup_alter; case_decide as Hk; subst.
  - destruct (jobs db !! k') as [j|]; simpl; [|done].
    destruct (Hf j eq_refl) as [->|(?&?&?)]; [by left|by right].
  - apply job_evolves_refl.
  - by rewrite fmap_is_Some.
  - done.
Qed.

(** A single existing row replaced. *)
Lemma updates_insert now k j j' A F db :
  jobs db !! k = Some j →
  (∀ j0, jobs db !! k = Some j0 →
     j' = j0 ∨ rtc job_edge (j_state j0) (j_state j') ∧ is_terminal (j_state j0) = false
               ∧ terms j' = terms j0) →
  updates now db (db <| jobs := <[k := j']> (jobs db) |> <| attempts := A |> <| artifacts := F |>).
Proof.
  intros Hk Hf. split; intros k'; cbn; rewrite lookup_insert; case_decide as He; subst.
  - rewrite Hk. destruct (Hf j Hk) as [->|(?&?&?)]; [by left|by right].
  - apply job_evolves_refl.
  - by rewrite Hk.
  - done.
Qed.

(** ** Quiet changes of job rows

    Neither the claim nor the attempts are involved: a job that runs keeps
    running under its claim, one that does not stays so. *)
Definition quiet (j j' : Job) : Prop :=
  (j_state j' = Running ↔ j_state j = Running) ∧ j_current_claim j' = j_current_claim j
  ∧ j_claim_expires_at j' = j_claim_expires_at j ∧ j_attempt_count j' = j_attempt_count j
  ∧ (j_state j = Succeeded → j_state j' = Succeeded) ∧ idempotency j' = idempotency j.

Lemma quiet_refl j : quiet j j.
Proof. by split_and!. Qed.

Lemma quiet_fits j j' a : quiet j j' → attempt_fits j a → attempt_fits j' a.
Proof.
  intros (Hr & Hc & _ & Hn & _) [Hnum Hrun]. split; [by rewrite Hn|].
  intros [Hj Hcl]%Hrun. rewrite Hc. split; [by apply Hr|done].
Qed.

(** Every row of the new table is a quiet, well-formed change of the row under
    the same key, and no row is lost. *)
Lemma tables_ok_quiet J J' A F :
  tables_ok J A F →
  (∀ k j', J' !! k = Some j' → ∃ j, J !! k = Some j ∧ quiet j j' ∧ job_wf j') →
  (∀ k, is_Some (J !! k) → is_Some (J' !! k)) →
  tables_ok J' A F.
Proof.
  intros HT Hq Hdom.
  assert (∀ k j, J !! k = Some j → ∃ j', J' !! k = Some j' ∧ quiet j j') as Hfwd.
  { intros k j Hj. destruct (Hdom k) as [j' Hj']; [by eexists|].
    destruct (Hq k j' Hj') as (j0 & Hj0 & Hqj & _). exists j'. naive_solver. }
  split.
  - intros k j' Hj'. by destruct (Hq k j' Hj') as (? & _ & _ & ?).
  - intros k j' Hj' Hrun. destruct (Hq k j' Hj') as (j & Hj & (Hr & Hc & He & Hn & _) & _).
    destruct (ok_backed _ _ _ HT k j Hj) as (i & a & Ha & (?&?&?&?&?)); [by apply Hr|].
    exists i, a. split; [done|]. unfold backs. by rewrite Hc, He, Hn.
  - intros i a Ha. destruct (ok_fits _ _ _ HT i a Ha) as (j & Hj & Hfit).
    destruct (Hfwd _ _ Hj) as (j' & Hj' & Hqj). exists j'. eauto using quiet_fits.
  - apply (ok_claim_unique _ _ _ HT).
  - apply (ok_number_unique _ _ _ HT).
  - intros i f Hf. destruct (ok_published _ _ _ HT i f Hf) as (j & Hj & Hs).
    destruct (Hfwd _ _ Hj) as (j' & Hj' & (_&_&_&_&Hsucc&_)). eauto.
  - intros k1 k2 j1 j2 H1 H2 He. destruct (Hq _ _ H1) as (o1 & Ho1 & (_&_&_&_&_&Hi1) & _).
    destruct (Hq _ _ H2) as (o2 & Ho2 & (_&_&_&_&_&Hi2) & _).
    eapply (ok_idempotency _ _ _ HT); [done..|congruence].
Qed.

Lemma Inv_quiet_job k f db :
  Inv db →
  (∀ j, jobs db !! k = Some j → job_wf j → quiet j (f j) ∧ job_wf (f j)) →
  Inv (update_job k f db).
Proof.
  intros HI Hf. eapply tables_ok_quiet; [exact HI|..]; cbn.
  - intros k' j'. rewrite lookup_alter. case_decide as Hk; subst.
    + intros (j & Hj & ->)%fmap_Some_1. exists j. split; [done|].
      apply Hf; [done|]. by eapply ok_wf.
    + intros Hj'. exists j'. split_and!; [done|apply quiet_refl|by eapply ok_wf].
  - intros k'. rewrite lookup_alter. case_decide; [subst; by rewrite fmap_is_Some|done].
Qed.

Lemma Inv_tables db db' :
  Inv db → jobs db' = jobs db → attempts db' = attempts db → artifacts db' = artifacts db →
  Inv db'.
Proof. unfold Inv. intros HI -> -> ->. exact HI. Qed.

(** ** The running attempt *)

(** The only attempt that can bear the current claim of a running job. *)
Lemma current_attempt J A F k j i a :
  tables_ok J A F → J !! k = Some j → j_state j = Running → A !! i = Some a →
  j_current_claim j = Some (a_claim a) → backs k j a.
Proof.
  intros HT Hj Hrun Ha Hc. destruct (ok_backed _ _ _ HT k j Hj Hrun) as (i' & a' & Ha' & Hb).
  assert (i' = i) as ->.
  { eapply (ok_claim_unique _ _ _ HT); [done..|]. destruct Hb as (_&_&Hb&_). congruence. }
  by simplify_eq.
Qed.

(** A joint change of a running job and the attempt that backs it. *)
Lemma tables_ok_claim J A F k j j' i a a' :
  tables_ok J A F → J !! k = Some j → j_state j = Running → A !! i = Some a → backs k j a →
  a_job a' = a_job a → a_claim a' = a_claim a → a_number a' = a_number a →
  idempotency j' = idempotency j → j_attempt_count j' = j_attempt_count j → job_wf j' →
  (a_state a' = ARunning → j_state j' = Running ∧ j_current_claim j' = Some (a_claim a')) →
  (j_state j' = Running → backs k j' a') →
  tables_ok (<[k := j']> J) (<[i := a']> A) F.
Proof.
  intros HT Hj Hrun Ha Hb Haj Hac Han Hid Hcount Hwf Harun Hjrun.
  destruct Hb as (Hbj & _ & Hbc & _ & _). split.
  - intros k' j0. rewrite lookup_insert. case_decide; [naive_solver|apply (ok_wf _ _ _ HT)].
  - intros k' j0. rewrite lookup_insert. case_decide as Hk; subst.
    + intros [= ->] Hr. exists i, a'. rewrite lookup_insert_eq. auto.
    + intros Hj0 Hr. destruct (ok_backed _ _ _ HT k' j0 Hj0 Hr) as (i0 & a0 & Ha0 & Hb0).
      exists i0, a0. split; [|done]. rewrite lookup_insert_ne; [done|]. intros ->.
      destruct Hb0 as (Hb0 & _). congruence.
  - intros i0 a0. rewrite lookup_insert. case_decide as Hi; subst.
    + intros [= <-]. exists j'. rewrite Haj, lookup_insert_eq. split; [done|].
      destruct (ok_fits _ _ _ HT _ _ Ha) as (j1 & Hj1 & [Hnum _]). simplify_eq.
      split; [by rewrite Han, Hcount|done].
    + intros Ha0. destruct (ok_fits _ _ _ HT _ _ Ha0) as (j1 & Hj1 & [Hnum Hr1]).
      rewrite lookup_insert. case_decide as Hk; [|by exists j1; split].
      exists j'. split; [done|]. rewrite <-Hk in Hj1. simplify_eq. split; [by rewrite Hcount|]. intros [_ Hc]%Hr1. exfalso. apply Hi.
      eapply (ok_claim_unique _ _ _ HT); [done..|congruence].
  - intros i1 i2 a1 a2. rewrite !lookup_insert.
    repeat case_decide; subst; intros; simplify_eq; try done;
      (eapply (ok_claim_unique _ _ _ HT); [done..|congruence]).
  - intros i1 i2 a1 a2. rewrite !lookup_insert.
    repeat case_decide; subst; intros; simplify_eq; try done;
      (eapply (ok_number_unique _ _ _ HT); [done..|congruence|congruence]).
  - intros i0 f Hf. destruct (ok_published _ _ _ HT i0 f Hf) as (j1 & Hj1 & Hs).
    rewrite lookup_insert. case_decide; subst; [|by exists j1]. simplify_eq; congruence.
  - intros k1 k2 j1 j2. rewrite !lookup_insert.
    repeat case_decide; subst; intros; simplify_eq; try done;
      (eapply (ok_idempotency _ _ _ HT); [done..|unfold idempotency in *; congruence]).
Qed.

(** The start of an attempt on a job that does not run. *)
Lemma tables_ok_start J A F k j j' i a :
  tables_ok J A F → J !! k = Some j → j_state j ≠ Running → j_state j ≠ Succeeded →
  A !! i = None → (∀ i0 a0, A !! i0 = Some a0 → a_claim a0 ≠ a_claim a) →
  a_number a = j_attempt_count j + 1 → j_attempt_count j' = j_attempt_count j + 1 →
  idempotency j' = idempotency j → job_wf j' → j_state j' = Running → backs k j' a →
  tables_ok (<[k := j']> J) (<[i := a]> A) F.
Proof.
  intros HT Hj Hnr Hns Hi Hclaim Hnum Hcount Hid Hwf Hrun Hb.
  pose proof (wf_attempts _ (ok_wf _ _ _ HT k j Hj)) as Hbound.
  assert (∀ i0 a0, A !! i0 = Some a0 → a_job a0 = k → a_number a0 ≤ j_attempt_count j
                                                     ∧ a_state a0 ≠ ARunning) as Hothers.
  { intros i0 a0 Ha0 <-. destruct (ok_fits _ _ _ HT _ _ Ha0) as (j1 & Hj1 & [? Hr]).
    simplify_eq. split; [lia|]. by intros [? _]%Hr. }
  destruct Hb as (Hbj & Hba & Hbc & Hbn & Hbe). split.
  - intros k' j0. rewrite lookup_insert. case_decide; [naive_solver|apply (ok_wf _ _ _ HT)].
  - intros k' j0. rewrite lookup_insert. case_decide as Hk; subst.
    + intros [= <-] _. exists i, a. rewrite lookup_insert_eq. by split_and!.
    + intros Hj0 Hr. destruct (ok_backed _ _ _ HT k' j0 Hj0 Hr) as (i0 & a0 & Ha0 & Hb0).
      exists i0, a0. split; [|done]. rewrite lookup_insert_ne; [done|congruence].
  - intros i0 a0. rewrite lookup_insert. case_decide as Hii; subst.
    + intros [= <-]. exists j'. rewrite lookup_insert_eq. split; [done|].
      split; [lia|]. by split.
    + intros Ha0. destruct (ok_fits _ _ _ HT _ _ Ha0) as (j1 & Hj1 & [Hn1 Hr1]).
      rewrite lookup_insert. case_decide as Hk; [|by exists j1; split].
      exists j'. split; [done|]. destruct (Hothers i0 a0 Ha0) as [? ?]; [congruence|].
      split; [lia|done].
  - intros i1 i2 a1 a2. rewrite !lookup_insert.
    repeat case_decide; subst; intros; simplify_eq; try done;
      try (eapply (ok_claim_unique _ _ _ HT); done); exfalso; eapply Hclaim; eauto.
  - intros i1 i2 a1 a2. rewrite !lookup_insert.
    repeat case_decide; subst; intros H1 H2 Hjj Hnn; simplify_eq; try done;
      try (eapply (ok_number_unique _ _ _ HT); done); exfalso.
    + destruct (Hothers i2 a2 H2) as [? ?]; [congruence|lia].
    + destruct (Hothers i1 a1 H1) as [? ?]; [congruence|lia].
  - intros i0 f Hf. destruct (ok_published _ _ _ HT i0 f Hf) as (j1 & Hj1 & Hs).
    rewrite lookup_insert. case_decide; subst; [|by exists j1]. simplify_eq; congruence.
  - intros k1 k2 j1 j2. rewrite !lookup_insert.
    repeat case_decide; subst; intros; simplify_eq; try done;
      (eapply (ok_idempotency _ _ _ HT); [done..|unfold idempotency in *; congruence]).
Qed.

(** Jobs deleted together with their attempts and artifacts. *)
Lemma tables_ok_delete J A F (gone : uuid → bool) J' A' F' :
  tables_ok J A F →
  (∀ k j, J' !! k = Some j ↔ J !! k = Some j ∧ gone k = false) →
  (∀ i a, A' !! i = Some a ↔ A !! i = Some a ∧ gone (a_job a) = false) →
  (∀ i f, F' !! i = Some f ↔ F !! i = Some f ∧ gone (f_job f) = false) →
  tables_ok J' A' F'.
Proof.
  intros HT HJ HA HF. split.
  - intros k j [Hj _]%HJ. by eapply ok_wf.
  - intros k j [Hj Hg]%HJ Hr. destruct (ok_backed _ _ _ HT k j Hj Hr) as (i & a & Ha & Hb).
    exists i, a. split; [|done]. apply HA. destruct Hb as (-> & _). done.
  - intros i a [Ha Hg]%HA. destruct (ok_fits _ _ _ HT i a Ha) as (j & Hj & Hf).
    exists j. split; [by apply HJ|done].
  - intros i1 i2 a1 a2 [H1 _]%HA [H2 _]%HA. by eapply ok_claim_unique.
  - intros i1 i2 a1 a2 [H1 _]%HA [H2 _]%HA. by eapply ok_number_unique.
  - intros i f [Hf Hg]%HF. destruct (ok_published _ _ _ HT i f Hf) as (j & Hj & Hs).
    exists j. split; [by apply HJ|done].
  - intros k1 k2 j1 j2 [H1 _]%HJ [H2 _]%HJ. by eapply ok_idempotency.
Qed.

(** The artifacts published for a job that has just succeeded. *)
Lemma tables_ok_publish J A F F' k :
  tables_ok J A F → (∃ j, J !! k = Some j ∧ j_state j = Succeeded) →
  (∀ i f, F' !! i = Some f → F !! i = Some f ∨ f_job f = k) → tables_ok J A F'.
Proof.
  intros HT Hk HF. destruct HT. split; try done.
  intros i f [Hf| ->]%HF; eauto.
Qed.

Lemma Inv_empty : Inv empty_db.
Proof. split; cbn; intros *; rewrite ?lookup_empty; done. Qed.

#[export] Hint Resolve updates_refl quiet_refl Inv_tables : processing.
