(* ===== verification/Bundles.v ===== *)
(** * Archive validation (document_processing::pptx, ::workspace_bundle)

    The bounded structural checks on worker-produced PPTX packages and
    Workspace bundles.  The ZIP reader (crate zip), the manifest decoder
    (serde_json), the MIME parser and the digest are parameters: an archive is
    the list of its entries as the reader returns them. *)
From S2P Require Import Prelude Store Text Paths ProcessingModel.

Open Scope Z_scope.

(** What the ZIP reader says of an entry: its declared size and mode, and the
    bytes its stream yields before ending or failing. *)
Record ZipEntry : Type := MkEntry {
  ze_name : text;
  ze_is_dir : bool;
  ze_unix_mode : option Z;
  ze_size : Z;
  ze_data : bytes;
  ze_read_fails : bool;
}.
(** [by_index] may fail on an entry. *)
Abbreviation archive := (list (option ZipEntry)).

(** [mode & 0o170000]. *)
Definition file_type (e : ZipEntry) : Z := Z.land (default 33188 (ze_unix_mode e)) 61440.
Definition S_IFDIR : Z := 16384.
Definition S_IFREG : Z := 32768.

(** ** pptx.rs *)

Definition MAX_ARCHIVE_ENTRIES : nat := 16384.
Definition REQUIRED_PARTS : list text :=
  lit <$> ["[Content_Types].xml"; "_rels/.rels"; "ppt/presentation.xml"]%string.

Inductive PptxValidationError : Type := PptxArchive | UnsafePart | PptxLimit | MissingPart.

Record PptxScan : Type := MkScan {
  names : gset text; required : gset text; expanded_bytes : Z }.

(** One turn of the entry loop of [validate_pptx]. *)
Definition scan_part (max_expanded_bytes : Z) (acc : PptxScan) (entry : option ZipEntry) :
    result PptxValidationError PptxScan :=
  match entry with
  | None => Err PptxArchive
  | Some e =>
      let normalized := default (ze_name e) (strip_suffix [slash] (ze_name e)) in
      if negb (safe_part_name (ze_name e)) || bool_decide (normalized ∈ names acc)
      then Err UnsafePart else
      if negb (bool_decide (file_type e ∈ [0; S_IFDIR; S_IFREG])) then Err UnsafePart else
      match u64_checked_add (expanded_bytes acc) (ze_size e) with
      | None => Err PptxLimit
      | Some expanded =>
          if max_expanded_bytes <? expanded then Err PptxLimit else
          let is_required := bool_decide (normalized ∈ REQUIRED_PARTS) in
          if is_required && (ze_is_dir e || (ze_size e =? 0)) then Err MissingPart else
          if ze_read_fails e || negb (Z.of_nat (length (ze_data e)) =? ze_size e)
          then Err PptxArchive else
          Ok (MkScan ({[normalized]} ∪ names acc)
                (if is_required then {[normalized]} ∪ required acc else required acc) expanded)
      end
  end.

Fixpoint scan_parts (max_expanded_bytes : Z) (acc : PptxScan) (entries : archive) :
    result PptxValidationError PptxScan :=
  match entries with
  | [] => Ok acc
  | e :: entries =>
      acc ← scan_part max_expanded_bytes acc e; scan_parts max_expanded_bytes acc entries
  end.

Definition validate_pptx (open_zip : bytes → option archive) (content : bytes)
    (max_expanded_bytes : Z) : result PptxValidationError unit :=
  match open_zip content with
  | None => Err PptxArchive
  | Some entries =>
      if bool_decide (entries = []) || (MAX_ARCHIVE_ENTRIES <? length entries)%nat
      then Err PptxLimit else
      scan ← scan_parts max_expanded_bytes (MkScan ∅ ∅ 0) entries;
      if existsb (λ part, negb (bool_decide (part ∈ required scan))) REQUIRED_PARTS
      then Err MissingPart else Ok ()
  end.

(** ** workspace_bundle.rs *)

Definition SCHEMA : text := lit "workspace-bundle/v1".
Definition MAX_FILES : nat := 4096.
Definition MAX_MANIFEST_BYTES : Z := 4 * 1024 * 1024.

Inductive WorkspaceBundleError : Type :=
  BundleArchive | UnsafePath | BundleLimit | Manifest | ManifestMismatch.

Record WorkspaceDocument : Type := MkDocument { document_path : text; document_content : text }.
Record WorkspaceBundleAsset : Type := MkBundleAsset {
  asset_path : text; asset_media_type : text; asset_bytes : bytes }.
Record ValidatedWorkspaceBundle : Type := MkBundle {
  bundle_entry_file_path : text;
  bundle_directories : list text;
  bundle_documents : list WorkspaceDocument;
  bundle_assets : list WorkspaceBundleAsset;
}.

Record WorkspaceBundleFile : Type := MkBundleFile {
  bf_path : text; bf_kind : text; bf_media_type : option text; bf_size_bytes : Z;
  bf_sha256 : text }.
Record WorkspaceBundleManifest : Type := MkManifest {
  bm_schema : text; bm_project_type : ProjectType; bm_entry_file_path : text;
  bm_files : list WorkspaceBundleFile }.

(** [read_bounded]: the reader stops after [limit + 1] bytes. *)
Definition read_bounded (e : ZipEntry) (limit : Z) : result WorkspaceBundleError bytes :=
  let cap := Z.min u64_max (limit + 1) in
  if cap <=? Z.of_nat (length (ze_data e)) then
    if limit <? cap then Err BundleLimit else Ok (take (Z.to_nat cap) (ze_data e))
  else if ze_read_fails e then Err BundleArchive else Ok (ze_data e).

(** The ancestors [Path::parent] yields on a sanitized path, innermost first. *)
Fixpoint ancestors (reversed_segments : list text) : list text :=
  match reversed_segments with
  | [] | [_] => []
  | _ :: rest => join slash (reverse rest) :: ancestors rest
  end.
Definition collect_path_ancestors (path : text) (directories : gset text) : gset text :=
  list_to_set (ancestors (reverse (split slash path))) ∪ directories.

Record ArchiveScan : Type := MkArchiveScan {
  as_names : gset text; as_files : gmap text bytes; as_manifest : option bytes;
  as_expanded : Z }.

(** One turn of the entry loop of [validate_workspace_bundle]. *)
Definition scan_entry (max_expanded_bytes : Z) (acc : ArchiveScan) (entry : option ZipEntry) :
    result WorkspaceBundleError ArchiveScan :=
  match entry with
  | None => Err BundleArchive
  | Some e =>
      let name := ze_name e in
      if ze_is_dir e || negb (safe_archive_name name) || bool_decide (name ∈ as_names acc)
      then Err UnsafePath else
      if negb (bool_decide (file_type e ∈ [0; S_IFREG])) then Err UnsafePath else
      match u64_checked_add (as_expanded acc) (ze_size e) with
      | None => Err BundleLimit
      | Some expanded =>
          if max_expanded_bytes <? expanded then Err BundleLimit else
          let is_manifest := text_eqb name (lit "manifest.json") in
          let per_file_limit := if is_manifest then Z.min MAX_MANIFEST_BYTES max_expanded_bytes
                                else max_expanded_bytes in
          content ← read_bounded e per_file_limit;
          let names := {[name]} ∪ as_names acc in
          if is_manifest then Ok (MkArchiveScan names (as_files acc) (Some content) expanded)
          else match strip_prefix (lit "project/") name with
               | None => Err UnsafePath
               | Some path =>
                   match sanitize_project_path path with
                   | Err _ => Err UnsafePath
                   | Ok path =>
                       if bool_decide (is_Some (as_files acc !! path)) then Err UnsafePath
                       else Ok (MkArchiveScan names (<[path := content]> (as_files acc))
                                  (as_manifest acc) expanded)
                   end
               end
      end
  end.

Fixpoint scan_entries (max_expanded_bytes : Z) (acc : ArchiveScan) (entries : archive) :
    result WorkspaceBundleError ArchiveScan :=
  match entries with
  | [] => Ok acc
  | e :: entries =>
      acc ← scan_entry max_expanded_bytes acc e; scan_entries max_expanded_bytes acc entries
  end.

Section bundle.
Context (sha256 : bytes → bytes) (hex_encode : bytes → text).
(** The essence of a media type the MIME parser accepts. *)
Context (mime_essence : text → option text).

Record ManifestScan : Type := MkManifestScan {
  ms_paths : gset text; ms_files : gmap text bytes; ms_documents : list WorkspaceDocument;
  ms_assets : list WorkspaceBundleAsset; ms_directories : gset text;
  ms_entry_is_document : bool }.

Definition accepted_media_type (m : option text) : option text :=
  value ← m;
  if (str_len value <=? 127)%N && bool_decide (mime_essence value = Some value)
  then Some value else None.

(** One turn of the record loop of [materialize_manifest]. *)
Definition scan_record (entry_file_path : text) (acc : ManifestScan) (r : WorkspaceBundleFile) :
    result WorkspaceBundleError ManifestScan :=
  match sanitize_project_path (bf_path r) with
  | Err _ => Err ManifestMismatch
  | Ok path =>
      if negb (text_eqb path (bf_path r)) || bool_decide (path ∈ ms_paths acc)
         || (bf_size_bytes r <? 0) || negb (str_len (bf_sha256 r) =? 64)%N
      then Err ManifestMismatch else
      match ms_files acc !! path with
      | None => Err ManifestMismatch
      | Some content =>
          if negb (Z.of_nat (length content) =? bf_size_bytes r)
             || negb (text_eqb (hex_encode (sha256 content)) (bf_sha256 r))
          then Err ManifestMismatch else
          let paths := {[path]} ∪ ms_paths acc in
          let files := delete path (ms_files acc) in
          let directories := collect_path_ancestors path (ms_directories acc) in
          if text_eqb (bf_kind r) (lit "document") then
            match bf_media_type r, is_document_text_path path, from_utf8 content with
            | None, true, Some contents =>
                Ok (MkManifestScan paths files
                      (ms_documents acc ++ [MkDocument path contents]) (ms_assets acc) directories
                      (ms_entry_is_document acc || text_eqb path entry_file_path))
            | _, _, _ => Err ManifestMismatch
            end
          else if text_eqb (bf_kind r) (lit "asset") then
            match accepted_media_type (bf_media_type r) with
            | Some media_type =>
                Ok (MkManifestScan paths files (ms_documents acc)
                      (ms_assets acc ++ [MkBundleAsset path media_type content]) directories
                      (ms_entry_is_document acc))
            | None => Err ManifestMismatch
            end
          else Err ManifestMismatch
      end
  end.

Fixpoint scan_records (entry_file_path : text) (acc : ManifestScan)
    (l : list WorkspaceBundleFile) : result WorkspaceBundleError ManifestScan :=
  match l with
  | [] => Ok acc
  | r :: l => acc ← scan_record entry_file_path acc r; scan_records entry_file_path acc l
  end.

Definition document_le : relation WorkspaceDocument :=
  λ a b, text_le (document_path a) (document_path b).
#[export] Instance document_le_dec : RelDecision document_le.
Proof. intros a b. unfold document_le. apply _. Defined.
#[export] Instance document_le_total : Total document_le.
Proof. intros a b. apply text_le_total. Qed.
#[export] Instance document_le_trans : Transitive document_le.
Proof. intros a b c. apply text_le_trans. Qed.
Definition asset_le : relation WorkspaceBundleAsset :=
  λ a b, text_le (asset_path a) (asset_path b).
#[export] Instance asset_le_dec : RelDecision asset_le.
Proof. intros a b. unfold asset_le. apply _. Defined.
#[export] Instance asset_le_total : Total asset_le.
Proof. intros a b. apply text_le_total. Qed.
#[export] Instance asset_le_trans : Transitive asset_le.
Proof. intros a b c. apply text_le_trans. Qed.

Definition materialize_manifest (m : WorkspaceBundleManifest) (files : gmap text bytes) :
    result WorkspaceBundleError ValidatedWorkspaceBundle :=
  match sanitize_project_path (bm_entry_file_path m) with
  | Err _ => Err ManifestMismatch
  | Ok entry =>
      if negb (text_eqb (bm_schema m) SCHEMA) || bool_decide (bm_project_type m ≠ Typst)
         || negb (accepts_entry_file_path Typst entry) || bool_decide (bm_files m = [])
         || (MAX_FILES <? length (bm_files m))%nat
         || negb (length (bm_files m) =? size files)%nat
      then Err ManifestMismatch else
      scan ← scan_records entry (MkManifestScan ∅ files [] [] ∅ false) (bm_files m);
      if bool_decide (ms_files scan ≠ ∅) || negb (ms_entry_is_document scan)
         || negb (bool_decide (ms_paths scan ∩ ms_directories scan = ∅))
      then Err ManifestMismatch else
      Ok (MkBundle entry (sort_text (elements (ms_directories scan)))
            (stable_sort document_le (ms_documents scan))
            (stable_sort asset_le (ms_assets scan)))
  end.

Definition validate_workspace_bundle (open_zip : bytes → option archive)
    (decode_manifest : bytes → option WorkspaceBundleManifest) (content : bytes)
    (max_expanded_bytes : Z) : result WorkspaceBundleError ValidatedWorkspaceBundle :=
  match open_zip content with
  | None => Err BundleArchive
  | Some entries =>
      if bool_decide (entries = []) || (MAX_FILES + 1 <? length entries)%nat
      then Err BundleLimit else
      scan ← scan_entries max_expanded_bytes (MkArchiveScan ∅ ∅ None 0) entries;
      match as_manifest scan ≫= decode_manifest with
      | None => Err Manifest
      | Some m => materialize_manifest m (as_files scan)
      end
  end.
End bundle.
