(* ===== verification/BundleFacts.v ===== *)
(** * Result formats: properties of the archive validators

    A workspace bundle that passes is a well-formed project whose files are
    exactly the archive's; a PPTX package that passes has distinct safe parts,
    bounded expansion and the required parts. *)
From S2P Require Import Prelude Store Text Paths PathFacts.
From S2P Require Import ProcessingModel Bundles.

Open Scope Z_scope.

(** ** Specification of a materialised bundle *)

(** Its files, as paths with their bytes. *)
Definition file_contents (documents : list WorkspaceDocument)
    (assets : list WorkspaceBundleAsset) : list (text * bytes) :=
  ((λ d, (document_path d, utf8 (document_content d))) <$> documents)
  ++ ((λ a, (asset_path a, asset_bytes a)) <$> assets).
Definition bundle_contents (b : ValidatedWorkspaceBundle) : list (text * bytes) :=
  file_contents (bundle_documents b) (bundle_assets b).
Definition bundle_paths (b : ValidatedWorkspaceBundle) : list text := (bundle_contents b).*1.

Record well_formed_bundle (b : ValidatedWorkspaceBundle) : Prop := {
  wb_distinct : NoDup (bundle_paths b);
  wb_canonical : Forall canonical_path (bundle_paths b);
  wb_entry : bundle_entry_file_path b ∈ document_path <$> bundle_documents b;
  wb_entry_accepted : accepts_entry_file_path Typst (bundle_entry_file_path b) = true;
  wb_documents : Forall (λ d, is_document_text_path (document_path d) = true) (bundle_documents b);
  wb_directories : ∀ d, d ∈ bundle_directories b ↔ ∃ p, p ∈ bundle_paths b ∧ proper_ancestor d p;
  wb_no_clash : ∀ p, p ∈ bundle_paths b → p ∉ bundle_directories b;
  wb_bounded : (0 < length (bundle_paths b) ≤ MAX_FILES)%nat;
  wb_sorted : StronglySorted text_le (bundle_directories b)
              ∧ StronglySorted document_le (bundle_documents b)
              ∧ StronglySorted asset_le (bundle_assets b);
}.

(** The archive has the file [p] with content [c]. *)
Definition archived (entries : archive) (p : text) (c : bytes) : Prop :=
  ∃ e, Some e ∈ entries ∧ ze_name e = lit "project/" ++ p ∧ ze_data e = c
       ∧ ze_read_fails e = false.

(** ** Ancestors *)

Lemma elem_of_ancestors ss x :
  x ∈ ancestors (reverse ss) ↔ ∃ a b, ss = a ++ b ∧ a ≠ [] ∧ b ≠ [] ∧ x = join slash a.
Proof.
  induction ss as [|s ss IH] using rev_ind.
  { split; [by intros ?%elem_of_nil|]. intros (a & b & Hab & Ha & _). by destruct a. }
  rewrite reverse_snoc. destruct (decide (ss = [])) as [->|Hne].
  { split; [by intros ?%elem_of_nil|]. intros (a & b & Hab & Ha & Hb & _).
    apply (f_equal length) in Hab. rewrite !length_app in Hab. destruct a, b; simpl in *; try done; lia. }
  assert (reverse ss ≠ []) as Hr by by intros Hn; apply (f_equal reverse) in Hn; rewrite reverse_involutive in Hn.
  destruct (reverse ss) as [|r rs] eqn:Hrev; [done|].
  change (ancestors (s :: r :: rs)) with (join slash (reverse (r :: rs)) :: ancestors (r :: rs)).
  rewrite elem_of_cons, IH, <-Hrev, reverse_involutive. split.
  - intros [->|(a & b & -> & Ha & Hb & ->)]; [by exists ss, [s]|].
    exists a, (b ++ [s]). rewrite app_assoc. split_and!; try done. by destruct b.
  - intros (a & b & Hab & Ha & Hb & ->). destruct b as [|t b _] using rev_ind; [done|].
    rewrite app_assoc in Hab. apply app_inj_tail in Hab as [-> <-].
    destruct (decide (b = [])) as [->|Hbne]; [left; by rewrite app_nil_r|].
    right. by exists a, b.
Qed.

Lemma collect_path_ancestors_spec p dirs x :
  canonical_path p →
  x ∈ collect_path_ancestors p dirs ↔ x ∈ dirs ∨ proper_ancestor x p.
Proof.
  intros [Hall Hj]%split_canonical. unfold collect_path_ancestors.
  rewrite elem_of_union, elem_of_list_to_set, elem_of_ancestors.
  rewrite <-(proper_ancestor_segments (split slash p) x) by done. rewrite Hj. tauto.
Qed.

(** ** The manifest loop *)

Definition scanned (acc : ManifestScan) : list (text * bytes) :=
  file_contents (ms_documents acc) (ms_assets acc).

(** The progress of the loop over the manifest on the archive's [files]. *)
Record scan_inv (entry : text) (files : gmap text bytes) (acc : ManifestScan) : Prop := {
  si_distinct : NoDup (scanned acc).*1;
  si_paths : ∀ p, p ∈ ms_paths acc ↔ p ∈ (scanned acc).*1;
  si_files : ∀ p c, files !! p = Some c ↔ ms_files acc !! p = Some c ∨ (p, c) ∈ scanned acc;
  si_canonical : Forall canonical_path (scanned acc).*1;
  si_directories : ∀ d, d ∈ ms_directories acc ↔
                        ∃ p, p ∈ (scanned acc).*1 ∧ proper_ancestor d p;
  si_documents : Forall (λ d, is_document_text_path (document_path d) = true) (ms_documents acc);
  si_entry : ms_entry_is_document acc = true → entry ∈ document_path <$> ms_documents acc;
}.

Lemma scan_inv_start entry files : scan_inv entry files (MkManifestScan ∅ files [] [] ∅ false).
Proof.
  split; unfold scanned, file_contents; simpl.
  - constructor.
  - set_solver.
  - intros p c. rewrite elem_of_nil. tauto.
  - constructor.
  - set_solver.
  - constructor.
  - done.
Qed.

Section manifest.
Context (sha256 : bytes → bytes) (hex_encode : bytes → text).
Context (mime_essence : text → option text).
Abbreviation scan_record := (scan_record sha256 hex_encode mime_essence).
Abbreviation scan_records := (scan_records sha256 hex_encode mime_essence).

Lemma scan_record_inv entry acc r acc' :
  scan_record entry acc r = Ok acc' →
  ∃ p c, canonical_path p ∧ p ∉ ms_paths acc ∧ ms_files acc !! p = Some c
    ∧ scanned acc' ≡ₚ (p, c) :: scanned acc
    ∧ ms_paths acc' = {[p]} ∪ ms_paths acc ∧ ms_files acc' = delete p (ms_files acc)
    ∧ ms_directories acc' = collect_path_ancestors p (ms_directories acc)
    ∧ (Forall (λ d, is_document_text_path (document_path d) = true) (ms_documents acc) →
       Forall (λ d, is_document_text_path (document_path d) = true) (ms_documents acc'))
    ∧ (ms_documents acc `prefix_of` ms_documents acc')
    ∧ (ms_entry_is_document acc' = true →
       ms_entry_is_document acc = true ∨ entry ∈ document_path <$> ms_documents acc').
Proof.
  unfold Bundles.scan_record. destruct (sanitize_project_path (bf_path r)) as [p|] eqn:Hp; [|done].
  destruct (_ || _)%bool eqn:Hg; [done|].
  rewrite !orb_false_iff, bool_decide_eq_false in Hg. destruct Hg as [[[_ Hnew] _] _].
  destruct (ms_files acc !! p) as [c|] eqn:Hc; [|done].
  destruct (_ || _)%bool; [done|].
  assert (canonical_path p) as Hcan by by eapply sanitize_sound.
  destruct (text_eqb (bf_kind r) (lit "document")).
  - destruct (bf_media_type r); [done|]. destruct (is_document_text_path p) eqn:Hdoc; [|done].
    destruct (from_utf8 c) as [t|] eqn:Ht; [|done]. intros [= <-].
    exists p, c. unfold scanned, file_contents. cbn [ms_documents ms_assets ms_paths ms_files
      ms_directories ms_entry_is_document]. split_and!; try done.
    + rewrite fmap_app, <-app_assoc. simpl. rewrite (utf8_from_utf8 c t) by done.
      symmetry. apply Permutation_middle.
    + intros Hall. apply Forall_app. split; [done|]. by repeat constructor.
    + by exists [MkDocument p t].
    + rewrite orb_true_iff, text_eqb_true. intros [?|<-]; [by left|right].
      rewrite fmap_app, elem_of_app. right. left.
  - destruct (text_eqb (bf_kind r) (lit "asset")); [|done].
    destruct (accepted_media_type mime_essence (bf_media_type r)) as [m|]; [|done]. intros [= <-].
    exists p, c. unfold scanned, file_contents. cbn [ms_documents ms_assets ms_paths ms_files
      ms_directories ms_entry_is_document]. split_and!; try done.
    + rewrite fmap_app, app_assoc. simpl. symmetry. apply Permutation_cons_append.
    + by left.
Qed.

Lemma scan_record_preserves entry files acc r acc' :
  scan_record entry acc r = Ok acc' → scan_inv entry files acc →
  scan_inv entry files acc' ∧ length (scanned acc') = S (length (scanned acc)).
Proof.
  intros (p & c & Hcan & Hnew & Hc & Hperm & Hpaths & Hfiles & Hdirs & Hdocs & Hpre & Hentry)%scan_record_inv
    [Hnd Hps Hfs Hall Hds Hdoc He].
  assert ((scanned acc').*1 ≡ₚ p :: (scanned acc).*1) as Hperm1.
  { change (p :: (scanned acc).*1) with (((p, c) :: scanned acc).*1). by apply fmap_Permutation. }
  split; [|by apply Permutation_length in Hperm].
  split.
  - rewrite Hperm1. constructor; [by rewrite <-Hps|done].
  - intros q. rewrite Hperm1, Hpaths, elem_of_union, elem_of_singleton, Hps, elem_of_cons. done.
  - intros q d. rewrite Hfs, Hfiles, Hperm, elem_of_cons, lookup_delete_Some. split.
    + intros [Hq|?]; [|by right; right]. destruct (decide (p = q)) as [<-|Hne]; [|by left].
      right. left. congruence.
    + intros [[_ ?]|[[= -> ->]|?]]; auto.
  - rewrite Hperm1. by constructor.
  - intros d. rewrite Hdirs, collect_path_ancestors_spec, Hds by done.
    setoid_rewrite Hperm1. setoid_rewrite elem_of_cons. naive_solver.
  - auto.
  - intros [Hold|?]%Hentry; [|done]. destruct Hpre as [l ->].
    rewrite fmap_app, elem_of_app. left. auto.
Qed.

Lemma scan_records_inv entry files l acc acc' :
  scan_records entry acc l = Ok acc' → scan_inv entry files acc →
  scan_inv entry files acc' ∧ length (scanned acc') = (length l + length (scanned acc))%nat.
Proof.
  induction l as [|r l IH] in acc |- *; simpl; [by intros [= <-]|].
  destruct (scan_record entry acc r) as [acc1|] eqn:Hr; [|done]. simpl. intros Hl Hinv.
  apply (scan_record_preserves entry files) in Hr as [Hinv1 Hlen]; [|done].
  apply IH in Hl as [? Hlen']; [|done]. split; [done|]. lia.
Qed.
End manifest.

(** ** The archive loop *)

Lemma read_bounded_Ok e limit c :
  limit < u64_max → read_bounded e limit = Ok c →
  c = ze_data e ∧ ze_read_fails e = false ∧ Z.of_nat (length c) ≤ limit.
Proof.
  intros Hl. unfold read_bounded. rewrite Z.min_r by lia.
  destruct (Z.leb_spec (limit + 1) (Z.of_nat (length (ze_data e)))).
  { destruct (Z.ltb_spec limit (limit + 1)); [done|lia]. }
  destruct (ze_read_fails e); [done|]. intros [= <-]. split_and!; [done..|lia].
Qed.

Lemma safe_archive_name_true name :
  safe_archive_name name = true →
  name = lit "manifest.json" ∨
  ∃ p, name = lit "project/" ++ p ∧ canonical_path p
       ∧ strip_prefix (lit "project/") name = Some p ∧ sanitize_project_path p = Ok p.
Proof.
  unfold safe_archive_name. rewrite orb_true_iff, text_eqb_true.
  intros [?|H]; [by left|right]. destruct (strip_prefix _ name) as [p|] eqn:Hp; [|done].
  rewrite !andb_true_iff in H. destruct H as [_ H].
  destruct (sanitize_project_path p) as [q|] eqn:Hq; [|done]. apply text_eqb_true in H as ->.
  exists p. split_and!; [by apply strip_prefix_Some|by eapply sanitize_sound|done..].
Qed.

Lemma scan_entry_inv limit acc entry acc' :
  limit < u64_max → scan_entry limit acc entry = Ok acc' →
  ∃ e, entry = Some e ∧ ze_read_fails e = false ∧ ze_name e ∉ as_names acc
    ∧ as_expanded acc' = as_expanded acc + ze_size e ∧ as_expanded acc' ≤ limit
    ∧ Z.of_nat (length (ze_data e)) ≤ limit
    ∧ as_names acc' = {[ze_name e]} ∪ as_names acc
    ∧ ((ze_name e = lit "manifest.json" ∧ as_files acc' = as_files acc)
       ∨ ∃ p, ze_name e = lit "project/" ++ p ∧ canonical_path p ∧ as_files acc !! p = None
              ∧ as_files acc' = <[p := ze_data e]> (as_files acc)).
Proof.
  intros Hl. unfold scan_entry. destruct entry as [e|]; [|done].
  destruct (_ || _)%bool eqn:Hg; [done|].
  rewrite !orb_false_iff, negb_false_iff, bool_decide_eq_false in Hg.
  destruct Hg as [[_ Hsafe] Hnew]. destruct (negb _); [done|].
  destruct (u64_checked_add _ _) as [x|] eqn:Hx; [|done].
  assert (x = as_expanded acc + ze_size e) as ->.
  { unfold u64_checked_add in Hx. by case_match; simplify_eq. }
  destruct (Z.ltb_spec limit (as_expanded acc + ze_size e)); [done|].
  destruct (read_bounded e _) as [c|] eqn:Hc; [|done]. cbn [mbind result_bind].
  apply read_bounded_Ok in Hc as (-> & Hf & Hlen); [|by case_match; lia].
  assert (Z.of_nat (length (ze_data e)) ≤ limit) by (case_match; lia).
  apply safe_archive_name_true in Hsafe as [Hm|(p & Hp & Hcan & Hs & Hok)].
  - rewrite (proj2 (text_eqb_true _ _) Hm). intros [= <-]. exists e.
    split_and!; [done..|by left].
  - rewrite (proj2 (text_eqb_false _ _)) by by rewrite Hp. rewrite Hs, Hok.
    case_bool_decide as Hdup; [done|]. intros [= <-]. exists e.
    split_and!; [done..|]. right. exists p. split_and!; [done..|by apply eq_None_not_Some|done].
Qed.

(** Everything scanned so far has its name recorded. *)
Definition names_recorded (acc : ArchiveScan) : Prop :=
  ∀ p, is_Some (as_files acc !! p) → lit "project/" ++ p ∈ as_names acc.

Lemma archived_cons e entries p c :
  archived (Some e :: entries) p c ↔
  (ze_name e = lit "project/" ++ p ∧ ze_data e = c ∧ ze_read_fails e = false)
  ∨ archived entries p c.
Proof.
  unfold archived. split.
  - intros (e' & [[= ->]|He]%elem_of_cons & Hr); [by left|right]. by exists e'.
  - intros [Hr|(e' & He & Hr)]; [exists e|exists e']; (split; [|done]); [left|by right].
Qed.

Lemma scan_entries_files limit acc entries out :
  limit < u64_max → names_recorded acc → scan_entries limit acc entries = Ok out →
  (∀ p c, as_files out !! p = Some c ↔ as_files acc !! p = Some c ∨ archived entries p c)
  ∧ (∀ p c, archived entries p c → Z.of_nat (length c) ≤ limit).
Proof.
  intros Hl. induction entries as [|entry entries IH] in acc |- *; intros Hrec; simpl.
  { intros [= <-]. assert (∀ p c, ¬ archived [] p c) as Hno by by intros p c (e & ?%elem_of_nil & _).
    split; [intros p c; split; [by left|intros [?|?%Hno]; done]|by intros p c ?%Hno]. }
  destruct (scan_entry limit acc entry) as [acc1|] eqn:He; [|done]. simpl. intros Hout.
  apply scan_entry_inv in He as (e & -> & Hfail & Hnew & _ & _ & Hlen & Hnames & Hcase); [|done].
  assert (names_recorded acc1) as Hrec1.
  { intros p Hp. rewrite Hnames. destruct Hcase as [[_ Hf]|(q & Hq & _ & _ & Hf)]; rewrite Hf in Hp.
    - apply elem_of_union_r. by apply Hrec.
    - destruct (decide (q = p)) as [->|Hne]; [rewrite Hq; by apply elem_of_union_l, elem_of_singleton|].
      rewrite lookup_insert_ne in Hp by done. apply elem_of_union_r. by apply Hrec. }
  destruct (IH acc1 Hrec1 Hout) as [IH1 IH2]. split.
  - intros p c. rewrite IH1, archived_cons.
    destruct Hcase as [[Hm ->]|(q & Hq & Hcan & Hnone & ->)].
    + rewrite Hm. split; [tauto|]. intros [?|[[Hp _]|?]]; [by left|done|by right].
    + rewrite Hq, lookup_insert_Some. split.
      * intros [[[<- <-]|[_ ?]]|?]; [right; by left|by left|right; by right].
      * intros [?|[(<-%app_inv_head & <- & _)|?]]; [left; right|by left; left|by right].
        split; [intros ->; congruence|done].
  - intros p c [(_ & <- & _)|Harch]%archived_cons; [done|by eapply IH2].
Qed.

Section theorems.
Context (sha256 : bytes → bytes) (hex_encode : bytes → text).
Context (mime_essence : text → option text).
Context (open_zip : bytes → option archive).
Context (decode_manifest : bytes → option WorkspaceBundleManifest).

Lemma fst_file_contents docs assets :
  (file_contents docs assets).*1 = (document_path <$> docs) ++ (asset_path <$> assets).
Proof. unfold file_contents. by rewrite fmap_app, <-!list_fmap_compose. Qed.

Lemma file_contents_sorted docs assets :
  file_contents (stable_sort document_le docs) (stable_sort asset_le assets)
  ≡ₚ file_contents docs assets.
Proof. unfold file_contents. by rewrite !stable_sort_Permutation. Qed.

Lemma materialize_manifest_well_formed m files b :
  materialize_manifest sha256 hex_encode mime_essence m files = Ok b →
  well_formed_bundle b ∧ ∀ p c, (p, c) ∈ bundle_contents b ↔ files !! p = Some c.
Proof.
  unfold materialize_manifest. destruct (sanitize_project_path _) as [entry|] eqn:Hentry; [|done].
  destruct (_ || _)%bool eqn:Hg; [done|].
  rewrite !orb_false_iff, !negb_false_iff, !bool_decide_eq_false, Nat.ltb_ge in Hg.
  destruct Hg as [[[[_ Haccept] Hsome] Hmax] _].
  destruct (scan_records _ _ _ _ _ _) as [acc|] eqn:Hscan; [|done]. cbn [mbind result_bind].
  apply (scan_records_inv sha256 hex_encode mime_essence entry files) in Hscan
    as [[Hnd Hps Hfs Hcan Hds Hdoc He] Hlen]; [|apply scan_inv_start].
  destruct (_ || _)%bool eqn:Hg; [done|].
  rewrite !orb_false_iff, !negb_false_iff, bool_decide_eq_false, bool_decide_eq_true in Hg.
  destruct Hg as [[Hempty Hisdoc] Hclash]. apply dec_stable in Hempty.
  intros [= <-]. unfold bundle_contents; cbn [bundle_documents bundle_assets].
  assert (file_contents (stable_sort document_le (ms_documents acc))
            (stable_sort asset_le (ms_assets acc)) ≡ₚ scanned acc) as Hperm
    by apply file_contents_sorted.
  split; [|intros p c; rewrite Hperm, Hfs, Hempty, lookup_empty; naive_solver].
  assert (∀ d, d ∈ sort_text (elements (ms_directories acc)) ↔ d ∈ ms_directories acc) as Hdirs.
  { intros d. by rewrite elem_of_sort_text, elem_of_elements. }
  split; unfold bundle_paths, bundle_contents; cbn; rewrite ?Hperm; try done.
  - rewrite elem_of_stable_sort_fmap. by apply He.
  - by rewrite stable_sort_Permutation.
  - intros d. rewrite Hdirs, Hds. setoid_rewrite Hperm. done.
  - intros p Hp. rewrite Hdirs, Hperm, <-Hps in *. set_solver.
  - rewrite length_fmap, Hlen. destruct (bm_files m); [done|]. simpl in *. lia.
  - split_and!; apply StronglySorted_stable_sort; apply _.
Qed.

(** C25: a workspace bundle that passes validation is a well-formed project
    (distinct canonical paths, an entry document, exactly the needed
    directories, no file that is also a directory, sorted) and holds exactly
    the project files of the archive, each within the expansion limit. *)
Theorem accepted_bundles_are_well_formed content limit b :
  limit < u64_max →
  validate_workspace_bundle sha256 hex_encode mime_essence open_zip decode_manifest content limit
    = Ok b →
  well_formed_bundle b
  ∧ ∃ entries, open_zip content = Some entries
    ∧ (∀ p c, (p, c) ∈ bundle_contents b ↔ archived entries p c)
    ∧ (∀ p c, (p, c) ∈ bundle_contents b → Z.of_nat (length c) ≤ limit).
Proof.
  intros Hl. unfold validate_workspace_bundle.
  destruct (open_zip content) as [entries|] eqn:Hopen; [|done].
  destruct (_ || _)%bool; [done|].
  destruct (scan_entries _ _ _) as [scan|] eqn:Hscan; [|done]. cbn [mbind result_bind].
  apply scan_entries_files in Hscan as [Hf Hlen]; [|done|intros p Hp; by apply is_Some_None in Hp].
  destruct (as_manifest scan ≫= decode_manifest) as [m|]; [|done].
  intros [Hwf Hb]%materialize_manifest_well_formed. split; [done|]. exists entries.
  assert (∀ p c, (p, c) ∈ bundle_contents b ↔ archived entries p c) as Harch.
  { intros p c. rewrite Hb, Hf. cbn. rewrite lookup_empty. naive_solver. }
  split_and!; [done..|]. intros p c Hp%Harch. by eapply Hlen.
Qed.
End theorems.

(** ** PPTX packages *)

Definition part_name (e : ZipEntry) : text := default (ze_name e) (strip_suffix [slash] (ze_name e)).
Definition entry_part (entry : option ZipEntry) : option text := part_name <$> entry.
Definition total_size (entries : archive) : Z :=
  foldr (λ entry n, from_option ze_size 0 entry + n) 0 entries.

Record well_formed_package (limit : Z) (entries : archive) : Prop := {
  wp_readable : Forall (λ entry, ∃ e, entry = Some e ∧ ze_read_fails e = false
                                      ∧ Z.of_nat (length (ze_data e)) = ze_size e) entries;
  wp_safe : ∀ e, Some e ∈ entries → safe_part_name (ze_name e) = true;
  wp_distinct : NoDup (entry_part <$> entries);
  wp_bounded : (length entries ≤ MAX_ARCHIVE_ENTRIES)%nat
               ∧ total_size entries ≤ limit;
  wp_required : ∀ part, part ∈ REQUIRED_PARTS →
                ∃ e, Some e ∈ entries ∧ part_name e = part ∧ ze_is_dir e = false ∧ ze_data e ≠ [];
}.

Lemma scan_part_inv limit acc entry acc' :
  scan_part limit acc entry = Ok acc' →
  ∃ e, entry = Some e ∧ safe_part_name (ze_name e) = true ∧ part_name e ∉ names acc
    ∧ ze_read_fails e = false ∧ Z.of_nat (length (ze_data e)) = ze_size e
    ∧ names acc' = {[part_name e]} ∪ names acc
    ∧ expanded_bytes acc' = expanded_bytes acc + ze_size e ∧ expanded_bytes acc' ≤ limit
    ∧ ∀ part, part ∈ required acc' →
       part ∈ required acc ∨ part = part_name e ∧ ze_is_dir e = false ∧ ze_data e ≠ [].
Proof.
  unfold scan_part, part_name. destruct entry as [e|]; [|done].
  set (name := default _ _). destruct (_ || _)%bool eqn:Hg; [done|].
  rewrite orb_false_iff, negb_false_iff, bool_decide_eq_false in Hg. destruct Hg as [Hsafe Hnew].
  destruct (negb _); [done|].
  destruct (u64_checked_add _ _) as [x|] eqn:Hx; [|done].
  assert (x = expanded_bytes acc + ze_size e) as ->.
  { unfold u64_checked_add in Hx. by case_match; simplify_eq. }
  destruct (Z.ltb_spec limit (expanded_bytes acc + ze_size e)); [done|].
  cbv zeta.
  destruct (_ && _)%bool eqn:Hreq; [done|].
  destruct (ze_read_fails e || _)%bool eqn:Hread; [done|].
  rewrite orb_false_iff, negb_false_iff, Z.eqb_eq in Hread. destruct Hread as [Hfail Hlen].
  intros [= <-]. exists e. split_and!; try done. cbn [required]. intros part.
  destruct (bool_decide (name ∈ REQUIRED_PARTS)); [|by intros ?; left].
  rewrite elem_of_union, elem_of_singleton. intros [->|?]; [right|by left].
  simpl in Hreq. apply orb_false_iff in Hreq as [Hdir Hsize%Z.eqb_neq].
  split_and!; [done..|]. intros Hn. rewrite Hn in Hlen. simpl in Hlen. lia.
Qed.

Lemma scan_parts_inv limit entries acc out :
  expanded_bytes acc ≤ limit → scan_parts limit acc entries = Ok out →
  Forall (λ entry, ∃ e, entry = Some e ∧ ze_read_fails e = false
                        ∧ Z.of_nat (length (ze_data e)) = ze_size e) entries
  ∧ (∀ e, Some e ∈ entries → safe_part_name (ze_name e) = true ∧ part_name e ∉ names acc)
  ∧ NoDup (entry_part <$> entries)
  ∧ expanded_bytes acc + total_size entries ≤ limit
  ∧ (∀ part, part ∈ required out → part ∈ required acc ∨
     ∃ e, Some e ∈ entries ∧ part_name e = part ∧ ze_is_dir e = false ∧ ze_data e ≠ []).
Proof.
  induction entries as [|entry entries IH] in acc |- *; simpl; intros Hb.
  { intros [= <-]. split_and!; [constructor|by intros e ?%elem_of_nil|constructor|lia|by left]. }
  destruct (scan_part limit acc entry) as [acc1|] eqn:He; [|done]. simpl. intros Hout.
  apply scan_part_inv in He as (e & -> & Hsafe & Hnew & Hfail & Hlen & Hnames & Hexp & Hle & Hreq).
  destruct (IH acc1 Hle Hout) as (IH1 & IH2 & IH3 & IH4 & IH5). rewrite Hnames in IH2.
  split_and!.
  - constructor; [by exists e|done].
  - intros e' [[= ->]|He']%elem_of_cons; [done|]. apply IH2 in He'. set_solver.
  - constructor; [|done].
    intros ([e'|] & Heq & He')%list_elem_of_fmap; simplify_eq/=.
    apply IH2 in He' as [_ Hn]. apply Hn. rewrite <-Heq. set_solver.
  - simpl in *. lia.
  - intros part [Hp|(e' & He' & Hr)]%IH5.
    + apply Hreq in Hp as [?|(-> & ? & ?)]; [by left|right]. exists e. by split; [left|].
    + right. exists e'. by split; [right|].
Qed.

(** A PPTX package that passes has distinct safe part names, entries whose
    bytes match their declared sizes and add up to at most the limit, and
    every required part as a non-empty file. *)
Theorem accepted_packages_are_well_formed open_zip content limit :
  0 ≤ limit → validate_pptx open_zip content limit = Ok () →
  ∃ entries, open_zip content = Some entries ∧ well_formed_package limit entries.
Proof.
  intros Hl. unfold validate_pptx. destruct (open_zip content) as [entries|]; [|done].
  destruct (_ || _)%bool eqn:Hg; [done|].
  rewrite orb_false_iff, bool_decide_eq_false, Nat.ltb_ge in Hg. destruct Hg as [_ Hlen].
  destruct (scan_parts _ _ _) as [scan|] eqn:Hscan; [|done]. cbn [mbind result_bind].
  destruct (existsb _ _) eqn:Hreq; [done|]. intros _. exists entries. split; [done|].
  apply scan_parts_inv in Hscan as (Hread & Hsafe & Hnd & Hexp & Hr); [|done].
  apply existsb_false_Forall in Hreq. rewrite Forall_forall in Hreq.
  split; [done|by intros e [? _]%Hsafe|done|done|].
  intros part Hpart%Hreq. rewrite negb_false_iff, bool_decide_eq_true in Hpart.
  apply Hr in Hpart as [?%elem_of_empty|?]; done.
Qed.

(** ** The theorems at concrete inputs *)

Definition sample_entry (name : text) (data : bytes) : ZipEntry :=
  MkEntry name false None (Z.of_nat (length data)) data false.
Definition sample_digest (content : bytes) : text := replicate 64 (0x61 + N.of_nat (length content))%N.
Definition sample_manifest : WorkspaceBundleManifest :=
  MkManifest SCHEMA Typst (lit "src/main.typ")
    [MkBundleFile (lit "img/a.png") (lit "asset") (Some (lit "image/png")) 2
       (sample_digest [137; 80]%N);
     MkBundleFile (lit "src/main.typ") (lit "document") None 5 (sample_digest (lit "Hello"))].
Definition sample_bundle_zip : archive :=
  [Some (sample_entry (lit "project/src/main.typ") (lit "Hello"));
   Some (sample_entry (lit "manifest.json") (lit "{}"));
   Some (sample_entry (lit "project/img/a.png") [137; 80]%N)].
Definition sample_bundle : ValidatedWorkspaceBundle :=
  MkBundle (lit "src/main.typ") [lit "img"; lit "src"]
    [MkDocument (lit "src/main.typ") (lit "Hello")]
    [MkBundleAsset (lit "img/a.png") (lit "image/png") [137; 80]%N].

Lemma accepted_bundles_are_well_formed_witness :
  bundle_entry_file_path sample_bundle = lit "src/main.typ" ∧ well_formed_bundle sample_bundle.
Proof.
  split; [reflexivity|].
  apply (accepted_bundles_are_well_formed id sample_digest Some (λ _, Some sample_bundle_zip)
           (λ _, Some sample_manifest) [] 1000 sample_bundle); [reflexivity|].
  vm_compute. reflexivity.
Defined.

Definition sample_package : archive :=
  [Some (sample_entry (lit "[Content_Types].xml") (lit "<Types/>"));
   Some (MkEntry (lit "_rels/") true None 0 [] false);
   Some (sample_entry (lit "_rels/.rels") (lit "<Relationships/>"));
   Some (sample_entry (lit "ppt/presentation.xml") (lit "<p/>"))].

Lemma accepted_packages_are_well_formed_witness :
  ∃ entries, Some sample_package = Some entries ∧ well_formed_package 100 entries.
Proof.
  apply (accepted_packages_are_well_formed (λ _, Some sample_package) [] 100);
    [discriminate|vm_compute; reflexivity].
Defined.
