(* ===== verification/ProcessingPublication.v ===== *)
(** * Document processing: result publication

    The finalizer half of document_processing::finalization.  It takes a token
    on a finalizing job, loads the artifacts staged by the delivered attempt or
    by the cache source, validates them against the operation contract, and
    publishes or rejects them under the token.

    The authorization recheck and the creation of the Workspace project belong
    to other components, and the archive and JSON readers to libraries: they
    are parameters. *)
From S2P Require Import Prelude Store Text Paths ProcessingModel ProcessingAdmission.
From S2P Require Import ProcessingClaims Bundles.

Open Scope Z_scope.

Definition PDF_EOF_SCAN_BYTES : nat := 1024.

Record FinalizationLease : Type := MkLease {
  fl_job_id : uuid;
  fl_token : uuid;
  fl_operation : ProcessingOperation;
  fl_requester : uuid;
  fl_project : option uuid;
  fl_cache_source : option uuid;
  fl_normalized_options : Value;
}.

Record StagedArtifact : Type := MkStaged {
  st_transfer_id : option uuid;
  st_blob_id : uuid;
  st_role : text;
  st_media_type : text;
  st_filename : text;
  st_size_bytes : Z;
  st_sha256 : bytes;
  st_content : bytes;
}.

Inductive ValidationFailure : Type :=
  AccessRevoked | ArtifactSet | PdfInvalid | PptxInvalid | DiagnosticInvalid | WorkspaceInvalid.

Definition validation_class (f : ValidationFailure) : text :=
  match f with
  | AccessRevoked => lit "authorization"
  | _ => lit "internal_contract_violation"
  end.
Definition validation_code (f : ValidationFailure) : text :=
  lit match f with
      | AccessRevoked => "project_access_revoked"
      | ArtifactSet => "artifact_set_invalid"
      | PdfInvalid => "pdf_invalid"
      | PptxInvalid => "pptx_invalid"
      | DiagnosticInvalid => "diagnostic_invalid"
      | WorkspaceInvalid => "workspace_bundle_invalid"
      end.
Definition validation_message (f : ValidationFailure) : text :=
  lit match f with
      | AccessRevoked => "Project access was revoked before result publication"
      | ArtifactSet => "Processor output did not match the operation contract"
      | PdfInvalid => "Processor output was not a valid PDF artifact"
      | PptxInvalid => "Processor output was not a valid PPTX artifact"
      | DiagnosticInvalid => "Processor diagnostic output was invalid"
      | WorkspaceInvalid => "Processor output was not a valid Workspace bundle"
      end.

Inductive ValidatedFinalization : Type :=
| ValidArtifacts
| ValidWorkspace (bundle : ValidatedWorkspaceBundle) (project_name : text).
Inductive FinalizationCheckError : Type :=
| Rejected (failure : ValidationFailure) | CheckUnavailable.

(** What the access recheck of the requester answers. *)
Inductive AccessCheck : Type := Granted | Denied | AccessError.

(** ** Taking the token *)

Definition finalizable (now : time) (j : Job) : bool :=
  bool_decide (j_state j = Finalizing)
  && (bool_decide (j_finalization_token j = None)
      || match j_finalization_expires_at j with Some e => e <=? now | None => false end).

Definition next_finalizable (now : time) (db : DB) : option (uuid * Job) :=
  head (order_by (λ kj, j_updated_at (snd kj)) (select (λ _ j, finalizable now j) (jobs db))).

Definition lease_of (id token : uuid) (j : Job) : FinalizationLease :=
  MkLease id token (j_operation j) (j_requester j) (j_project j) (j_cache_source j)
    (j_normalized_options j).

Definition take_token (token : uuid) (expires_at now : time) (j : Job) : Job :=
  j <| j_finalization_token := Some token |> <| j_finalization_expires_at := Some expires_at |>
    <| j_phase := ValidatingResult |> <| j_updated_at := now |>.

(** [lock_finalization]: the token is still held. *)
Definition lock_finalization (lease : FinalizationLease) (now : time) (db : DB) : bool :=
  match jobs db !! fl_job_id lease with
  | Some j => bool_decide (j_state j = Finalizing ∧ j_finalization_token j = Some (fl_token lease))
              && match j_finalization_expires_at j with Some e => now <? e | None => false end
  | None => false
  end.

(** ** Loading the staged artifacts *)

Definition role_le : relation StagedArtifact := λ a b, text_le (st_role a) (st_role b).
#[export] Instance role_le_dec : RelDecision role_le.
Proof. intros a b. unfold role_le. apply _. Defined.

Definition holds_token (lease : FinalizationLease) (j : Job) : bool :=
  bool_decide (j_state j = Finalizing ∧ j_finalization_token j = Some (fl_token lease)).

Definition staged_from_cache (source_id : uuid) (lease : FinalizationLease) (db : DB) :
    list StagedArtifact :=
  match jobs db !! fl_job_id lease, jobs db !! source_id with
  | Some j, Some source =>
      if holds_token lease j
         && bool_decide (j_cache_source j = Some source_id ∧ j_state source = Succeeded)
      then omap (λ ka : uuid * Artifact,
             let f := ka.2 in
             b ← blobs db !! f_blob f;
             if bool_decide (f_job f = source_id)
             then Some (MkStaged None (f_blob f) (f_role f) (f_media_type f) (f_filename f)
                          (f_size f) (f_sha256 f) (blob_content b))
             else None) (map_to_list (artifacts db))
      else []
  | _, _ => []
  end.

(** A transfer row of the job's delivered attempt; its nullable columns must
    be present. *)
Definition staged_row (lease : FinalizationLease) (attempt_count : Z) (db : DB)
    (kt : uuid * Transfer) : option (result sqlx_error StagedArtifact) :=
  let t := kt.2 in
  a ← attempts db !! t_attempt t;
  blob_id ← t_blob t;
  b ← blobs db !! blob_id;
  if bool_decide (a_job a = fl_job_id lease ∧ a_number a = attempt_count ∧ a_state a = ADelivered
                  ∧ t_direction t = Upload ∧ t_state t = TUploaded)
  then Some match t_filename t, t_exact_size t, t_expected_sha256 t with
            | Some filename, Some size, Some digest =>
                Ok (MkStaged (Some kt.1) blob_id (t_role t) (t_media_type t) filename size digest
                      (blob_content b))
            | _, _, _ => Err ColumnDecode
            end
  else None.

Definition staged_from_attempt (lease : FinalizationLease) (db : DB) :
    result sqlx_error (list StagedArtifact) :=
  match jobs db !! fl_job_id lease with
  | Some j =>
      if holds_token lease j
      then collect_ok (omap (staged_row lease (j_attempt_count j) db) (map_to_list (transfers db)))
      else Ok []
  | None => Ok []
  end.

Definition load_staged_artifacts (lease : FinalizationLease) (db : DB) :
    result sqlx_error (list StagedArtifact) :=
  stable_sort role_le <$>
    match fl_cache_source lease with
    | Some source_id => Ok (staged_from_cache source_id lease db)
    | None => staged_from_attempt lease db
    end.

(** ** Validation *)

Definition valid_pdf (content : bytes) : bool :=
  starts_with (lit "%PDF-") content && (8 <=? length content)%nat
  && contains_text (lit "%%EOF")
       (drop (length content - PDF_EOF_SCAN_BYTES) content).

Definition staged_role (role : text) (staged : list StagedArtifact) : option StagedArtifact :=
  head (filter (λ a, text_eqb (st_role a) role = true) staged).

Section validation.
Context (sha256 : bytes → bytes) (json_parse : bytes → option Value).
(** [validate_pptx] and [validate_workspace_bundle] with their readers. *)
Context (pptx_ok : bytes → Z → bool).
Context (bundle_ok : bytes → Z → option ValidatedWorkspaceBundle).

Definition artifact_conforms (config : ProcessingConfig) (ac : ArtifactContract)
    (a : StagedArtifact) : bool :=
  let limit := match ac_size_class ac with
               | Output => max_output_bytes config
               | Diagnostic => max_diagnostic_bytes config
               end in
  (st_size_bytes a =? len_i64 (st_content a))
  && bool_decide (st_sha256 a = sha256 (st_content a))
  && (0 <? st_size_bytes a) && (st_size_bytes a <=? limit)
  && text_eqb (st_media_type a) (ac_media_type ac)
  && ends_with (ac_filename_suffix ac) (st_filename a).

(** The artifact loop of [validate_finalization]. *)
Fixpoint check_staged (config : ProcessingConfig) (c : OperationContract) (roles : gset text)
    (staged : list StagedArtifact) : option (gset text) :=
  match staged with
  | [] => Some roles
  | a :: staged =>
      ac ← artifact_contract c (st_role a);
      if artifact_conforms config ac a && negb (bool_decide (st_role a ∈ roles))
      then check_staged config c ({[st_role a]} ∪ roles) staged else None
  end.

Definition validate_report (staged : list StagedArtifact) (expected_schema : text) : bool :=
  match staged_role (lit "report") staged ≫= (λ a, json_parse (st_content a)) with
  | Some report => bool_decide (get_str (lit "schema") report = Some expected_schema)
  | None => false
  end.

Definition validate_content (lease : FinalizationLease) (c : OperationContract)
    (staged : list StagedArtifact) (limit : Z) :
    result FinalizationCheckError ValidatedFinalization :=
  match oc_finalization c with
  | PdfArtifacts =>
      if negb (from_option (λ a, valid_pdf (st_content a)) false (staged_role (lit "pdf") staged))
      then Err (Rejected PdfInvalid) else
      if from_option (λ a, bool_decide (from_utf8 (st_content a) = None)) false
           (staged_role (lit "log") staged)
      then Err (Rejected DiagnosticInvalid) else Ok ValidArtifacts
  | PptxArtifacts =>
      if negb (from_option (λ a, pptx_ok (st_content a) limit) false
                 (staged_role (lit "pptx") staged))
      then Err (Rejected PptxInvalid) else
      if negb (validate_report staged (lit "pptx-export-report/v1"))
      then Err (Rejected DiagnosticInvalid) else Ok ValidArtifacts
  | TypstWorkspace =>
      match staged_role (lit "workspace") staged ≫= (λ a, bundle_ok (st_content a) limit) with
      | None => Err (Rejected WorkspaceInvalid)
      | Some bundle =>
          if negb (validate_report staged (lit "pptx-import-report/v1"))
          then Err (Rejected DiagnosticInvalid) else
          match parse_project_name <$> get_str (lit "project_name") (fl_normalized_options lease) with
          | Some (Ok project_name) => Ok (ValidWorkspace bundle project_name)
          | _ => Err (Rejected WorkspaceInvalid)
          end
      end
  end.

Definition validate_finalization (access : AccessCheck) (lease : FinalizationLease)
    (staged : list StagedArtifact) (config : ProcessingConfig) :
    result FinalizationCheckError ValidatedFinalization :=
  let checked :=
    let c := contract (fl_operation lease) in
    match check_staged config c ∅ staged with
    | None => Err (Rejected ArtifactSet)
    | Some roles =>
        if missing_required c roles then Err (Rejected ArtifactSet)
        else validate_content lease c staged (u64_saturating_mul (max_output_bytes config) 4)
    end in
  match fl_project lease, access with
  | None, _ | Some _, Granted => checked
  | Some _, Denied => Err (Rejected AccessRevoked)
  | Some _, AccessError => Err CheckUnavailable
  end.
End validation.

(** ** Publication *)

Section publication.
Context (s : schedule).

Definition acquire_finalization_lease (now : time) (token : uuid) (config : ProcessingConfig) :
    DB → result sqlx_error (option FinalizationLease) * DB :=
  transact s Err (
    row ← exec s Err (reads (next_finalizable now));
    match row with
    | None => mret (Ok None)
    | Some (id, j) =>
        _ ← exec s Err (writes (update_job id
              (take_token token (now + finalization_lease config) now)));
        mret (Ok (Some (lease_of id token j)))
    end).

(** [insert ... on conflict (job_id, role) do nothing]. *)
Definition insert_artifact (new_id job_id : uuid) (now : time) (a : StagedArtifact) (db : DB) :
    result sqlx_error (unit * DB) :=
  if exists_row (λ _ f, bool_decide (f_job f = job_id ∧ f_role f = st_role a)) (artifacts db)
  then Ok ((), db)
  else
    t ← insert_row new_id (MkArtifact job_id (st_blob_id a) (st_role a) (st_media_type a)
                             (st_filename a) (st_size_bytes a) (st_sha256 a) now) (artifacts db);
    if bool_decide (is_Some (jobs db !! job_id) ∧ is_Some (blobs db !! st_blob_id a))
    then Ok ((), db <| artifacts := t |>) else Err ForeignKeyViolation.

(** The staged artifacts are paired with the identifiers generated for them. *)
Definition publish_staged_artifacts {R} (fail : sqlx_error → R) (job_id : uuid)
    (staged : list (uuid * StagedArtifact)) (now : time) : Tx DB R unit :=
  tx_for staged (λ ia,
    _ ← exec s fail (insert_artifact ia.1 job_id now ia.2);
    match st_transfer_id ia.2 with
    | Some transfer_id =>
        exec s fail (writes (update_transfer transfer_id (λ t,
          t <| t_state := TConsumed |> <| t_updated_at := now |>)))
    | None => mret ()
    end).

Definition succeeded (now : time) (j : Job) : Job :=
  j <| j_state := Succeeded |> <| j_phase := Complete |> <| j_finalization_token := None |>
    <| j_finalization_expires_at := None |> <| j_updated_at := now |>
    <| j_completed_at := Some now |>.

(** [update ... where id and state = 'finalizing' and finalization_token]:
    the number of rows affected. *)
Definition finish_job (lease : FinalizationLease) (f : Job → Job) (db : DB) : Z * DB :=
  match jobs db !! fl_job_id lease with
  | Some j => if holds_token lease j then (1, update_job (fl_job_id lease) f db) else (0, db)
  | None => (0, db)
  end.

Definition publish_artifacts (now : time) (lease : FinalizationLease)
    (staged : list (uuid * StagedArtifact)) : DB → result sqlx_error unit * DB :=
  transact s Err (
    locked ← exec s Err (reads (lock_finalization lease now));
    if negb locked then rollback s Err (Ok ()) else
    _ ← publish_staged_artifacts Err (fl_job_id lease) staged now;
    affected ← exec s Err (λ db, Ok (finish_job lease (succeeded now) db));
    if affected =? 1 then mret (Ok ()) else rollback s Err (Ok ())).

(** [publish_workspace] from its transaction on; [provision] is the creation
    of the project and its dirty mark.  [true] when it committed. *)
Definition publish_workspace (now : time) (lease : FinalizationLease) (project_id : uuid)
    (provision : Tx DB (result sqlx_error bool) unit)
    (staged : list (uuid * StagedArtifact)) : DB → result sqlx_error bool * DB :=
  transact s Err (
    locked ← exec s Err (reads (lock_finalization lease now));
    if negb locked then rollback s Err (Ok false) else
    _ ← provision;
    _ ← publish_staged_artifacts Err (fl_job_id lease) staged now;
    affected ← exec s Err (λ db, Ok (finish_job lease (λ j,
                 succeeded now j <| j_result_project := Some project_id |>) db));
    if affected =? 1 then mret (Ok true) else rollback s Err (Ok false)).

Definition rejected_job (failure : ValidationFailure) (now : time) (j : Job) : Job :=
  j <| j_state := Failed |> <| j_phase := Complete |>
    <| j_failure_class := Some (validation_class failure) |>
    <| j_failure_code := Some (validation_code failure) |>
    <| j_failure_message := Some (validation_message failure) |>
    <| j_finalization_token := None |> <| j_finalization_expires_at := None |>
    <| j_updated_at := now |> <| j_completed_at := Some now |>.

Definition reject_artifacts (now : time) (lease : FinalizationLease)
    (failure : ValidationFailure) (db : DB) : result sqlx_error unit * DB :=
  autocommit s 0 (writes (λ db,
    if lock_finalization lease now db
    then update_job (fl_job_id lease) (rejected_job failure now) db else db)) db.
End publication.
