(* ===== verification/ProcessingSteps.v ===== *)
(** * Document processing: every operation preserves the invariant

    For each operation on the processing tables, under any behaviour of the
    server: the tables it leaves satisfy [Inv], and each job moved along
    [job_edge] or not at all. *)
From S2P Require Import Prelude Store Text ProcessingModel ProcessingAdmission ProcessingClaims.
From S2P Require Import ProcessingRequests.
From S2P Require Import ProcessingMaintenance ProcessingInvariant Bundles ProcessingPublication.

Open Scope Z_scope.

(** ** Each operation preserves the invariant *)

(** The outcome of an operation that admits no job. *)
Definition good (now : time) (db db' : DB) : Prop := Inv db' ∧ updates now db db'.

Lemma good_refl now db : Inv db → good now db db.
Proof. intros. split; [done|apply updates_refl]. Qed.

(** The operation leaves jobs, attempts and artifacts alone. *)
Definition core_same (db db' : DB) : Prop :=
  jobs db' = jobs db ∧ attempts db' = attempts db ∧ artifacts db' = artifacts db.

Lemma core_same_refl db : core_same db db.
Proof. done. Qed.

Lemma core_same_trans db1 db2 db3 : core_same db1 db2 → core_same db2 db3 → core_same db1 db3.
Proof. unfold core_same. naive_solver congruence. Qed.

Lemma good_core now db db' : Inv db → core_same db db' → good now db db'.
Proof.
  intros HI (Hj & Ha & Hf). split; [by eapply Inv_tables|by apply updates_jobs].
Qed.

#[export] Hint Resolve good_refl core_same_refl good_core : processing.

Lemma good_trans now db1 db2 db3 : good now db1 db2 → (Inv db2 → good now db2 db3) → good now db1 db3.
Proof. intros [HI H12] Hg. destruct (Hg HI) as [? H23]. split; [done|by eapply updates_trans]. Qed.

(** A quiet change of one row along an edge. *)
Lemma good_quiet_job now k f db :
  Inv db →
  (∀ j, jobs db !! k = Some j → job_wf j →
     quiet j (f j) ∧ job_wf (f j) ∧
     (f j = j ∨ rtc job_edge (j_state j) (j_state (f j)) ∧ is_terminal (j_state j) = false
                ∧ terms (f j) = terms j)) →
  good now db (update_job k f db).
Proof.
  intros HI Hf. split.
  - apply Inv_quiet_job; [done|]. intros j Hj Hwf. by destruct (Hf j Hj Hwf) as (?&?&_).
  - apply updates_job. intros j Hj. apply Hf; [done|]. by eapply ok_wf.
Qed.

(** Well-formedness of a row given by its fields. *)
Lemma is_Some_None_iff {A} (P : Prop) : ¬ P → is_Some (@None A) ↔ P.
Proof. intros. split; [by intros [? ?]|done]. Qed.
Lemma is_Some_Some_iff {A} (a : A) (P : Prop) : P → is_Some (Some a) ↔ P.
Proof. intros. split; [done|by eexists]. Qed.

Ltac wf_row :=
  match goal with
  | H : job_wf ?j, HE : j_state ?j = _ |- _ =>
      let Wc := fresh in let We := fresh in let Wa := fresh in let Wm := fresh in
      let Wl := fresh in let Wd := fresh in let Wt := fresh in
      destruct H as [Wc We Wa Wm Wl Wd Wt];
      split; cbn;
      repeat match goal with
             | |- context [bool_decide ?P] =>
                 first [rewrite (bool_decide_true P) by done | rewrite (bool_decide_false P) by done]
             end;
      try match goal with
          | |- is_Some None ↔ _ => apply is_Some_None_iff
          | |- is_Some (Some _) ↔ _ => apply is_Some_Some_iff
          end;
      rewrite ?HE in Wc, We, Wl, Wd, Wt; rewrite ?HE; cbn in *;
      first [done | assumption | lia | intuition congruence | intuition lia]
  end.

Lemma store_blob_core new_id digest media content now db id db' :
  store_blob new_id digest media content now db = Ok (id, db') → core_same db db'.
Proof.
  unfold store_blob. destruct (head _) as [[??]|]; [by intros [= _ <-]|].
  destruct (insert_row _ _ _); simpl; [by intros [= _ <-]|done].
Qed.

Lemma store_prepared_input_good s now new_blob job_id i db :
  Inv db → good now db (store_prepared_input s new_blob job_id i db).2.
Proof.
  intros HI. apply (transact_inv (good now db)); [auto with processing|].
  apply wp_bind, wp_exec; [done|]. intros blob_id db1 Hb%store_blob_core.
  assert (good now db db1) as Hg by auto with processing.
  apply wp_bind, wp_exec; [done|]. intros row db2 [= Hq]. unfold queue_row in Hq.
  destruct (jobs db1 !! job_id) as [j|] eqn:Hj; [case_match eqn:Hc|]; simplify_eq; wp_steps.
  apply andb_true_iff in Hc as [Hc _]. apply bool_decide_eq_true in Hc.
  eapply good_trans; [exact Hg|]. intros HI1.
  eapply good_trans; [|intros; apply good_core; [done|split_and!; reflexivity]].
  apply good_quiet_job; [done|]. intros j0 Hj0 Hwf. simplify_eq. split_and!.
  - split_and!; cbn; try done; rewrite Hc; done.
  - wf_row.
  - cbn. right. rewrite Hc. eauto 10 using rtc_once with processing.
Qed.

(** The change of one preparing, queued or finalizing row. *)
Lemma good_step now k j f db :
  Inv db → jobs db !! k = Some j →
  j_state j ≠ Running → j_state (f j) ≠ Running → is_terminal (j_state j) = false →
  job_edge (j_state j) (j_state (f j)) ∨ j_state (f j) = j_state j →
  j_current_claim (f j) = j_current_claim j → j_claim_expires_at (f j) = j_claim_expires_at j →
  j_attempt_count (f j) = j_attempt_count j → idempotency (f j) = idempotency j →
  terms (f j) = terms j → (job_wf j → job_wf (f j)) →
  good now db (update_job k f db).
Proof.
  intros HI Hj Hnr Hnr' Ht He ? ? ? ? ? Hwf. apply good_quiet_job; [done|].
  intros j0 Hj0 Hwf0. assert (j0 = j) as -> by congruence. split_and!; [|by auto|].
  - unfold quiet. split_and!; try done. intros E. by rewrite E in Ht.
  - right. split_and!; [|done..]. destruct He as [He| ->]; [by apply rtc_once|done].
Qed.

Lemma good_store now db0 db1 db2 :
  good now db0 db1 → core_same db1 db2 → good now db0 db2.
Proof. intros Hg Hc. eapply good_trans; [exact Hg|]. intros. by apply good_core. Qed.

Lemma delete_pins_core k db : core_same db (delete_pins k db).
Proof. done. Qed.
#[export] Hint Resolve delete_pins_core : processing.

(** A conditional update of one row in a non-running state. *)
Lemma good_step_if now k (f : Job → Job) db :
  Inv db →
  (∀ j, jobs db !! k = Some j →
     f j = j ∨
     j_state j ≠ Running ∧ j_state (f j) ≠ Running ∧ is_terminal (j_state j) = false
     ∧ (job_edge (j_state j) (j_state (f j)) ∨ j_state (f j) = j_state j)
     ∧ j_current_claim (f j) = j_current_claim j ∧ j_claim_expires_at (f j) = j_claim_expires_at j
     ∧ j_attempt_count (f j) = j_attempt_count j ∧ idempotency (f j) = idempotency j
     ∧ terms (f j) = terms j ∧ (job_wf j → job_wf (f j))) →
  good now db (update_job k f db).
Proof.
  intros HI Hf. destruct (jobs db !! k) as [j|] eqn:Hj.
  - destruct (Hf j eq_refl) as [He|(?&?&?&?&?&?&?&?&?&?)]; [|by eapply good_step].
    apply good_quiet_job; [done|]. intros j0 Hj0 Hwf. assert (j0 = j) as -> by congruence.
    rewrite He. split_and!; [apply quiet_refl|done|by left].
  - apply good_quiet_job; [done|]. intros j0 Hj0. congruence.
Qed.

(** Discharges the side conditions of [good_step_if] on a row in state [E]. *)
Ltac step_row E :=
  right; cbn; rewrite E; split_and!; try done; eauto with processing; intros; wf_row.

Lemma mark_preparation_failed_good s now k code message db :
  Inv db → good now db (mark_preparation_failed s now k code message db).2.
Proof.
  intros HI. apply (transact_inv (good now db)); [auto with processing|]. wp_steps.
  eapply good_store; [|apply delete_pins_core].
  apply good_step_if; [done|]. intros j Hj. case_bool_decide as Hc; [|by left]. step_row Hc.
Qed.

Lemma cancel_job_good s now user k db : Inv db → good now db (cancel_job s now user k db).2.
Proof.
  intros HI. apply (transact_inv (good now db)); [auto with processing|]. wp_step. wp_step.
  destruct (jobs db !! k) as [j|] eqn:Hj; simpl; [|done]. case_bool_decide; [|done].
  assert (j_state j = Preparing ∨ j_state j = Queued → good now db (update_job k (cancelled now) db)) as Hcan.
  { intros Hs. apply good_step_if; [done|]. intros j0 Hj0. assert (j0 = j) as -> by congruence.
    destruct Hs as [Hs|Hs]; step_row Hs. }
  destruct (j_state j) eqn:Hs; wp_steps; try (apply good_refl; done);
    try (eapply good_store; [|apply delete_pins_core]; auto).
  apply good_quiet_job; [done|]. intros j0 Hj0 Hwf. assert (j0 = j) as -> by congruence.
  split_and!; [done|wf_row|right]. cbn. by rewrite Hs.
Qed.

(** *** Operations that leave the core tables alone *)

Lemma core_same_trans_wp {A R} (m : Tx DB R A) db :
  (∀ db1 n, core_same db db1 → wp m (λ _, True) (λ _ db2 _, core_same db1 db2) db1 n) →
  ∀ db1 n, core_same db db1 → wp m (λ _, True) (λ _ db2 _, core_same db db2) db1 n.
Proof. intros Hm db1 n H1. eapply wp_mono; [by apply Hm|done|]. eauto using core_same_trans. Qed.

Lemma wp_exec_core {A R} s (fail : sqlx_error → R) (q : DB → result sqlx_error (A * DB)) db0
    (Q : A → DB → nat → Prop) db n :
  core_same db0 db → (∀ a db', q db = Ok (a, db') → core_same db db') →
  (∀ a db', core_same db0 db' → Q a db' (S n)) → wp (exec s fail q) (λ _, True) Q db n.
Proof.
  intros H0 Hq HQ. apply wp_exec; [done|]. intros a db' Ha. eauto using core_same_trans.
Qed.

Ltac core_step :=
  match goal with
  | |- wp (exec _ _ (reads _)) _ _ _ _ => wp_step
  | |- wp (exec _ _ (fetch_one _)) _ _ _ _ => wp_step
  | |- wp (exec _ _ _) _ _ _ _ =>
      eapply wp_exec_core; [eassumption|try (intros ? ? [= <- <-]; done)|intros ? ? ?]
  | _ => wp_step
  end.
Ltac core_steps := repeat (core_step; simpl; try done).
Ltac core_tx db :=
  intros; apply (transact_inv (core_same db)); [done|];
  match goal with |- wp _ _ _ ?d _ => assert (core_same d d) as Hrefl by done end; core_steps.

Lemma insert_pin_core k key now db a db' :
  insert_pin k key now db = Ok (a, db') → core_same db db'.
Proof. unfold insert_pin. repeat case_match; intros; by simplify_eq. Qed.

Lemma pin_project_assets_core {R} s (fail : sqlx_error → R) k keys now db db1 n :
  core_same db db1 →
  wp (pin_project_assets s fail k keys now) (λ _, True) (λ _ db' _, core_same db db') db1 n.
Proof.
  intros H1. apply (wp_for _ _ _ (λ _ db', core_same db db')); [done|].
  intros x l' db' n' Hd. apply (wp_exec_core _ _ _ db); [done|apply insert_pin_core|done].
Qed.

Lemma capture_pins_core s now k keys db : core_same db (capture_pins s now k keys db).2.
Proof.
  apply (transact_inv (core_same db)); [done|]. apply wp_bind.
  eapply wp_mono; [by apply (pin_project_assets_core _ _ _ _ _ db)|done|].
  intros. by apply wp_ret.
Qed.

Lemma release_project_asset_pins_core s k db :
  core_same db (release_project_asset_pins s k db).2.
Proof. apply (autocommit_inv (core_same db)); [done|]. by intros ? ? [= <- <-]. Qed.

Lemma insert_session_core k sn db a db' : insert_session k sn db = Ok (a, db') → core_same db db'.
Proof. unfold insert_session. destruct (insert_row _ _ _); simpl; [by intros [= <- <-]|done]. Qed.
Lemma insert_processor_core k now p db a db' :
  insert_processor k now p db = Ok (a, db') → core_same db db'.
Proof. unfold insert_processor. destruct (insert_row _ _ _); simpl; [by intros [= <- <-]|done]. Qed.

Lemma register_session_core s now id w inst adv config db :
  core_same db (register_session s now id w inst adv config db).2.
Proof.
  unfold register_session. case_match; [done|].
  apply (transact_inv (core_same db)); [done|]. wp_step.
  apply (wp_exec_core _ _ _ db); [done|apply insert_session_core|]. intros _ db1 H1. wp_step.
  eapply wp_mono; [apply (wp_for _ _ _ (λ _ db', core_same db db')); [done|]|done|].
  - intros p l db' n' Hd. apply (wp_exec_core _ _ _ db); [done|apply insert_processor_core|done].
  - intros. by wp_step.
Qed.

Lemma set_health_core k now key h db a db' : set_health k now key h db = (a, db') → core_same db db'.
Proof. unfold set_health. case_match; intros; by simplify_eq. Qed.

Lemma heartbeat_processors_core s k now reported db unique db1 n :
  core_same db db1 →
  wp (heartbeat_processors s k now unique reported) (λ _, True) (λ _ db' _, core_same db db') db1 n.
Proof.
  induction reported as [|[key h] reported IH] in unique, db1, n |- *; intros H1; cbn; [done|].
  case_bool_decide; [done|]. wp_step. apply (wp_exec_core _ _ _ db); [done| |].
  - intros ? ? [= Hq]. by eapply set_health_core.
  - intros a db2 H2. wp_step; [done|]. by apply IH.
Qed.

Lemma heartbeat_session_core s now w k reported config db :
  core_same db (heartbeat_session s now w k reported config db).2.
Proof.
  apply (transact_inv (core_same db)); [done|]. wp_steps.
  eapply wp_mono; [by apply (heartbeat_processors_core _ _ _ _ db)|done|].
  intros [] db1 n1 H1. simpl. wp_steps.
Qed.

Lemma drain_session_core s now w k db : core_same db (drain_session s now w k db).2.
Proof.
  unfold drain_session.
  assert (core_same db (autocommit s 0 (λ db, Ok (drain_row now w k db)) db).2) as Hc.
  { apply (autocommit_inv (core_same db)); [done|]. unfold drain_row. intros ? ?.
    repeat case_match; intros; by simplify_eq. }
  by destruct (autocommit _ _ _ _) as [[]].
Qed.

Lemma insert_transfer_core k t db a db' : insert_transfer k t db = Ok (a, db') → core_same db db'.
Proof.
  unfold insert_transfer. destruct (insert_row _ _ _); simpl; [|done].
  repeat case_match; intros; by simplify_eq.
Qed.

Lemma issue_transfer_core {R} s sha256 (fail : sqlx_error → R) id sample now job attempt claim dir
    role media filename exact max expected blob uses expires db0 Q db n :
  core_same db0 db →
  (∀ t db' n', core_same db0 db' → Q t db' n') →
  wp (issue_transfer s sha256 fail id sample now job attempt claim dir role media filename exact
        max expected blob uses expires) (λ _, True) Q db n.
Proof.
  intros H0 HQ. unfold issue_transfer. wp_step.
  apply (wp_exec_core _ _ _ db0); [done|apply insert_transfer_core|]. intros _ db' H'.
  wp_step. by apply HQ.
Qed.

Lemma create_artifact_transfer_core s sha256 now id sample w r config db :
  core_same db (create_artifact_transfer s sha256 now id sample w r config db).2.
Proof.
  apply (transact_inv (core_same db)); [done|]. wp_steps.
  eapply issue_transfer_core; [done|]. intros t db' n' H'. by wp_step.
Qed.

Lemma download_transfer_core s sha256 now k token db :
  core_same db (download_transfer s sha256 now k token db).2.
Proof. apply (transact_inv (core_same db)); [done|]. unfold not_null. wp_steps. Qed.

Lemma upload_transfer_core s sha256 now new_blob k token content db :
  core_same db (upload_transfer s sha256 now new_blob k token content db).2.
Proof.
  apply (transact_inv (core_same db)); [done|]. do 3 wp_step; simpl; [|done].
  wp_steps. apply (wp_exec_core _ _ _ db); [done| |].
  - intros ? ?. apply store_blob_core.
  - intros blob db' H'. wp_steps.
Qed.

Lemma insert_request_core k r db a db' : insert_request k r db = Ok (a, db') → core_same db db'.
Proof.
  unfold insert_request. destruct (insert_row _ _ _); simpl; [|done].
  case_match; intros; by simplify_eq.
Qed.

Lemma reserve_request_core s now ident id route digest db0 db n :
  core_same db0 db →
  wp (reserve_request s now ident id route digest) (λ _, True) (λ _ db' _, core_same db0 db') db n.
Proof.
  intros H0. unfold reserve_request. wp_step.
  apply (wp_exec_core _ _ _ db0); [done|apply insert_request_core|]. intros. by wp_step.
Qed.

Lemma run_request_core s now op db : core_same db (run_request s now op db).
Proof.
  destruct op; simpl; unfold finish_request, abort_request; rewrite ?affected_result_snd;
    try (apply (autocommit_inv (core_same db)); [done|]; unfold writes; intros ? ? Hq;
         repeat case_match; simplify_eq; done).
  apply (transact_inv (core_same db)); [done|]. wp_steps; by apply reserve_request_core.
Qed.

(** *** Reservation *)

(** [reserve_job] adds at most one job, in preparation. *)
Lemma Inv_insert_job k j db db' :
  Inv db → insert_job k j db = Ok ((), db') → job_wf j → j_state j = Preparing →
  Inv db' ∧ jobs db !! k = None ∧ jobs db' = <[k := j]> (jobs db).
Proof.
  unfold insert_job. intros HI Hins Hwf Hs.
  destruct (insert_row k j (jobs db)) as [t|] eqn:Ht; simpl in Hins; [|done].
  apply insert_row_Ok in Ht as [Hk ->].
  destruct (exists_row _ _) eqn:Hu; simplify_eq. split_and!; [|done..].
  assert (∀ k' j', jobs db !! k' = Some j' → idempotency j' ≠ idempotency j) as Hid.
  { intros k' j' Hj' He. rewrite exists_row_false in Hu. specialize (Hu k' j' Hj').
    apply bool_decide_eq_false in Hu. apply Hu. unfold idempotency in He. by simplify_eq. }
  assert (∀ k' j', jobs db !! k' = Some j' → k' ≠ k) as Hne by congruence.
  destruct HI as [Iw Ib If Ic In Ip Ii]. split; cbn.
  - intros k' j'. rewrite lookup_insert. case_decide; [naive_solver|apply Iw].
  - intros k' j'. rewrite lookup_insert. case_decide; [|apply Ib].
    intros [= ->] Hr. congruence.
  - intros i a Ha. destruct (If i a Ha) as (j' & Hj' & ?). exists j'.
    rewrite lookup_insert_ne; [done|]. intros E. by eapply Hne.
  - exact Ic.
  - exact In.
  - intros i f Hf. destruct (Ip i f Hf) as (j' & Hj' & ?). exists j'.
    rewrite lookup_insert_ne; [done|]. intros E. by eapply Hne.
  - intros k1 k2 j1 j2 H1 H2 He.
    apply lookup_insert_Some in H1 as [[<- <-]|[N1 H1]];
      apply lookup_insert_Some in H2 as [[<- <-]|[N2 H2]]; [done|..|by eapply Ii].
    + by destruct (Hid k2 j2 H2).
    + by destruct (Hid k1 j1 H1).
Qed.

Lemma reserved_job_wf config c : job_wf (reserved_job config c).
Proof.
  split; cbn; try done; try lia;
    try (apply is_Some_None_iff; done); by intros [? ?].
Qed.

Lemma reserve_job_good s now config c db :
  Inv db → Inv (reserve_job s config c db).2 ∧ evolves now db (reserve_job s config c db).2.
Proof.
  intros HI. apply (transact_inv (λ db', Inv db' ∧ evolves now db db')).
  { split; [done|apply updates_refl]. }
  assert (∀ db', insert_job (rj_id c) (reserved_job config c) db = Ok ((), db') →
                 Inv db' ∧ evolves now db db') as Hins.
  { intros db' Hi. destruct (Inv_insert_job _ _ _ _ HI Hi) as (HI' & Hk & Hj);
      [apply reserved_job_wf|done|]. split; [done|].
    intros k'. rewrite Hj, lookup_insert. case_decide; subst; [by rewrite Hk|apply job_evolves_refl]. }
  assert (Inv db ∧ evolves now db db) as Hrefl by (split; [done|apply updates_refl]).
  wp_steps; (apply wp_exec; [done|]; intros [] db' Hi; wp_step; by apply Hins).
Qed.

(** *** Operations on a claim *)

Lemma claim_row_Some w session claim db i a j :
  claim_row w session claim db = Some (MkClaimRow i a j) →
  attempts db !! i = Some a ∧ jobs db !! a_job a = Some j ∧ a_claim a = claim
  ∧ a_session a = session
  ∧ ∃ sn, sessions db !! session = Some sn ∧ s_worker_identity sn = identity w.
Proof.
  unfold claim_row. intros Hh%head_Some_elem_of. apply list_elem_of_omap in Hh as ([i' a'] & Hin & Hb).
  apply elem_of_map_to_list in Hin. cbn in Hb.
  destruct (jobs db !! a_job a') as [j'|] eqn:Hj; cbn in Hb; [|done].
  destruct (sessions db !! a_session a') as [sn|] eqn:Hs; cbn in Hb; [|done].
  case_bool_decide as Hc; simplify_eq. destruct Hc as (-> & <- & Hw). eauto 10.
Qed.

(** A joint change of a running job and the attempt of its current claim. *)
Lemma good_claim now k i j a fj fa db :
  Inv db → jobs db !! k = Some j → attempts db !! i = Some a → a_job a = k →
  j_state j = Running → j_current_claim j = Some (a_claim a) →
  a_job (fa a) = a_job a → a_claim (fa a) = a_claim a → a_number (fa a) = a_number a →
  idempotency (fj j) = idempotency j → j_attempt_count (fj j) = j_attempt_count j →
  terms (fj j) = terms j → (job_wf j → job_wf (fj j)) →
  rtc job_edge Running (j_state (fj j)) →
  (a_state (fa a) = ARunning ∧ j_state (fj j) = Running
   ∧ j_current_claim (fj j) = j_current_claim j
   ∧ j_claim_expires_at (fj j) = Some (a_lease_expires_at (fa a)))
  ∨ (a_state (fa a) ≠ ARunning ∧ j_state (fj j) ≠ Running) →
  good now db (db <| jobs := <[k := fj j]> (jobs db) |>
                  <| attempts := <[i := fa a]> (attempts db) |>).
Proof.
  intros HI Hj Ha Hk Hrun Hc Haj Hac Han Hid Hcount Hret Hwf Hedge Hcases.
  pose proof (current_attempt _ _ _ _ _ _ _ HI Hj Hrun Ha Hc) as Hb.
  pose proof (ok_wf _ _ _ HI _ _ Hj) as Hwfj.
  split.
  - eapply (tables_ok_claim _ _ _ k j (fj j) i a (fa a)); try done; [by auto|..].
    + intros Hr. destruct Hcases as [(_&?&?&_)|[? _]]; [|done]. split; [done|congruence].
    + intros Hr. destruct Hcases as [(?&?&?&?)|[_ ?]]; [|done].
      destruct Hb as (_&_&_&?&_). split_and!; try done; congruence.
  - eapply updates_insert; [done|]. intros j0 Hj0. assert (j0 = j) as -> by congruence. right.
    rewrite Hrun. by split_and!.

Qed.

Lemma claim_updates k i j a fj fa db :
  jobs db !! k = Some j → attempts db !! i = Some a →
  update_job k fj (update_attempt i fa db)
  = db <| jobs := <[k := fj j]> (jobs db) |> <| attempts := <[i := fa a]> (attempts db) |>.
Proof.
  intros Hj Ha. unfold update_job, update_attempt. cbn.
  by rewrite (alter_as_insert fj _ _ _ Hj), (alter_as_insert fa _ _ _ Ha).
Qed.

(** The conditions under which a guard [H : g = false] lets the code through. *)
Ltac passed H :=
  rewrite ?orb_false_iff, ?bool_decide_eq_false, ?Z.leb_gt, ?Z.ltb_ge in H;
  match type of H with
  | _ ∧ _ => let H' := fresh "Hg" in destruct H as [H H']; passed H; passed H'
  | _ => try apply dec_stable in H
  end.

Lemma heartbeat_claim_good s now w session claim phase config db :
  Inv db → good now db (heartbeat_claim s now w session claim phase config db).2.
Proof.
  intros HI. unfold heartbeat_claim. case_match; [by apply good_refl|].
  apply (transact_inv (good now db)); [auto with processing|]. do 2 wp_step.
  destruct (claim_row w session claim db) as [[i a j]|] eqn:Hrow; [|by wp_step].
  apply claim_row_Some in Hrow as (Ha & Hj & <- & _).
  destruct (is_terminal (j_state j)); [by wp_step|].
  case_match eqn:Hg; [by wp_step|]. passed Hg.
  destruct (if j_cancellation_requested j then _ else _) as [[st le] dl] eqn:Hcase.
  wp_steps. rewrite (claim_updates _ _ _ _ _ _ _ Hj Ha).
  eapply (good_claim now (a_job a) i j a (λ r, _) (λ r, _)); try done.
  - intros. cbn. wf_row.
  - cbn. by match goal with E : j_state j = _ |- _ => rewrite E end.
  - left. by split_and!.
Qed.

Lemma check_completed_wp s hex_decode c i claim roles l db0 E db n :
  db = db0 → (∀ r, E r) →
  wp (check_completed s hex_decode c i claim roles l) E (λ _ db' _, db' = db0) db n.
Proof.
  intros -> HE. induction l as [|x l IH] in roles, n |- *; cbn; [done|].
  repeat first [ by apply IH | by apply wp_early | wp_step | progress (apply wp_reads; [done|]) ].
Qed.

Lemma complete_claim_good s hex_decode now w session claim completed db :
  Inv db → good now db (complete_claim s hex_decode now w session claim completed db).2.
Proof.
  intros HI. unfold complete_claim. case_match; [by apply good_refl|].
  apply (transact_inv (good now db)); [auto with processing|]. do 2 wp_step.
  destruct (claim_row w session claim db) as [[i a j]|] eqn:Hrow; [|by wp_step].
  apply claim_row_Some in Hrow as (Ha & Hj & <- & _).
  set (replay := bool_decide (a_state a = ADelivered) && _).
  destruct (j_cancellation_requested j && negb replay); [by wp_step|].
  destruct (negb replay && _) eqn:Hg; [by wp_step|]. wp_step; [by wp_step|].
  wp_step. eapply wp_mono; [by apply (check_completed_wp _ _ _ _ _ _ _ db (λ _, True))|done|].
  intros roles ? n ->. wp_step; [by wp_step|].
  destruct replay; [wp_step; by apply good_refl|]. cbn in Hg. passed Hg.
  wp_steps. rewrite (claim_updates _ _ _ _ _ _ _ Hj Ha).
  eapply (good_claim now (a_job a) i j a); try done.
  - intros. wf_row.
  - apply rtc_once, edge_deliver.
  - by right.
Qed.

(** The state of the job after the claim failed or was released. *)
Lemma state_after_claim_edge failure j :
  job_edge Running (state_after_claim failure j).
Proof. unfold state_after_claim. repeat case_match; constructor. Qed.

Lemma ended_job_wf now failure next_at j :
  j_state j = Running → job_wf j →
  job_wf (ended_job now (state_after_claim failure j) next_at failure j).
Proof.
  intros Hs Hwf. unfold state_after_claim.
  destruct (j_cancellation_requested j); [wf_row|].
  destruct (_ && _) eqn:Hc; [|wf_row].
  apply andb_true_iff in Hc as [_ Hc%Z.ltb_lt]. wf_row.
Qed.

Lemma mutate_failed_claim_good s now w session claim failure db :
  Inv db → good now db (mutate_failed_claim s now w session claim failure db).2.
Proof.
  intros HI. apply (transact_inv (good now db)); [auto with processing|]. do 2 wp_step.
  destruct (claim_row w session claim db) as [[i a j]|] eqn:Hrow; [|by wp_step].
  apply claim_row_Some in Hrow as (Ha & Hj & <- & _).
  wp_step; [wp_step; by apply good_refl|]. case_match eqn:Hg; [by wp_step|]. passed Hg.
  wp_steps. rewrite (claim_updates _ _ _ _ _ _ _ Hj Ha).
  eapply (good_claim now (a_job a) i j a); try done.
  - by apply ended_job_wf.
  - apply rtc_once, state_after_claim_edge.
  - right. split; [by destruct failure|]. cbn.
    pose proof (state_after_claim_edge failure j) as He. by inversion He.
Qed.

(** The oldest claimable job is queued, and its row is the table's. *)
Lemma next_candidate_Some op now db c :
  next_candidate op now db = Some c →
  jobs db !! cd_id c = Some (cd_job c) ∧ claimable op now (cd_job c) = true
  ∧ j_input_blob (cd_job c) = Some (cd_blob_id c) ∧ blobs db !! cd_blob_id c = Some (cd_blob c).
Proof.
  unfold next_candidate. intros [Hin _]%order_by_head_le.
  apply list_elem_of_omap in Hin as ([k j] & Hin & Hb). apply elem_of_map_to_list in Hin. cbn in Hb.
  destruct (j_input_blob j) as [b|] eqn:Hib; cbn in Hb; [|done].
  destruct (blobs db !! b) as [bl|] eqn:Hbl; cbn in Hb; [|done].
  destruct (claimable op now j) eqn:Hc; [|done]. by simplify_eq.
Qed.

Lemma claimable_true op now j :
  claimable op now j = true →
  j_operation j = op ∧ j_state j = Queued ∧ j_cancellation_requested j = false
  ∧ now < j_queue_expires_at j ∧ j_next_attempt_at j <= now.
Proof.
  unfold claimable. rewrite !andb_true_iff, bool_decide_eq_true, negb_true_iff, Z.ltb_lt, Z.leb_le.
  naive_solver.
Qed.

Lemma insert_attempt_Ok i a db db' :
  insert_attempt i a db = Ok ((), db') →
  attempts db !! i = None ∧ db' = db <| attempts := <[i := a]> (attempts db) |>
  ∧ (∀ i0 a0, attempts db !! i0 = Some a0 → a_claim a0 ≠ a_claim a)
  ∧ is_Some (sessions db !! a_session a).
Proof.
  unfold insert_attempt. destruct (insert_row i a (attempts db)) as [t|] eqn:Ht; simpl; [|done].
  apply insert_row_Ok in Ht as [Hi ->]. destruct (exists_row _ _) eqn:Hu; [done|].
  case_bool_decide as Hfk; [|done]. intros [= <-]. split_and!; [done..| |by destruct Hfk].
  intros i0 a0 Ha0 Hc. rewrite exists_row_false in Hu. specialize (Hu i0 a0 Ha0).
  apply bool_decide_eq_false in Hu. apply Hu. by left.
Qed.

Lemma attempt_count_succ j :
  job_wf j → j_state j = Queued →
  i32_saturating_add (j_attempt_count j) 1 = j_attempt_count j + 1 ∧ j_attempt_count j + 1 <= 3.
Proof.
  intros [_ _ Ha Hm Hl _ _] Hs. unfold i32_saturating_add, i32_min, i32_max.
  rewrite Hs, Hm in Hl. assert (j_attempt_count j < 3) by auto. lia.
Qed.

Lemma claimed_job_wf n claim expires contract_id now j :
  job_wf j → j_state j = Queued → 0 <= n <= 3 →
  job_wf (claimed_job n claim expires contract_id now j).
Proof. intros. wf_row. Qed.

Lemma good_start now expires contract_id c i a db db1 :
  Inv db → jobs db !! cd_id c = Some (cd_job c) → j_state (cd_job c) = Queued →
  insert_attempt i a db = Ok ((), db1) →
  a_job a = cd_id c → a_state a = ARunning → a_lease_expires_at a = expires →
  a_number a = i32_saturating_add (j_attempt_count (cd_job c)) 1 →
  good now db (update_job (cd_id c) (claimed_job (a_number a) (a_claim a) expires contract_id now) db1).
Proof.
  intros HI Hj Hs (Hi & -> & Hclaim & _)%insert_attempt_Ok Haj Has Hae Han.
  pose proof (ok_wf _ _ _ HI _ _ Hj) as Hwf.
  destruct (attempt_count_succ _ Hwf Hs) as [Hsucc Hmax]. rewrite Han, Hsucc in *.
  unfold update_job. cbn. rewrite (alter_as_insert _ _ _ _ Hj).
  split; [|eapply updates_insert; [done|]].
  - eapply tables_ok_start; try done; try (by rewrite Hs).
    + pose proof (wf_attempts _ Hwf). apply claimed_job_wf; [done..|lia].
    + split_and!; cbn; try done; congruence.
  - intros j0 Hj0. assert (j0 = cd_job c) as -> by congruence. right. rewrite Hs.
    split_and!; [|done..]. apply rtc_once. constructor.
Qed.

Lemma cache_hit_good now k contract_id source db :
  Inv db → good now db (update_job k (cache_hit_job contract_id source now) db).
Proof.
  intros HI. apply good_step_if; [done|]. intros j Hj. unfold cache_hit_job.
  case_bool_decide as Hs; [|by left]. step_row Hs.
Qed.

Lemma start_attempt_good s sha256 now fresh session op contract_id c config db n :
  Inv db → jobs db !! cd_id c = Some (cd_job c) → j_state (cd_job c) = Queued →
  wp (start_attempt s sha256 now fresh session op contract_id c config) (λ _, True)
     (λ _ db' _, good now db db') db n.
Proof.
  intros HI Hj Hs. unfold start_attempt, not_null. cbv zeta. wp_step; [|by wp_step].
  wp_step. apply wp_exec; [done|]. intros [] db1 Hins. wp_step. wp_step. wp_step.
  eapply issue_transfer_core; [done|]. intros tr db2 n2 Hc. wp_step.
  eapply good_store; [|exact Hc].
  eapply (good_start now _ _ _ _ (MkAttempt _ _ _ _ _ _ _ _ _ _ _ _ _ _ _)); done.
Qed.

Lemma try_offers_good s sha256 now fresh w session registered config offers db n :
  Inv db →
  wp (try_offers s sha256 now fresh w session registered config offers) (λ _, True)
     (λ _ db' _, good now db db') db n.
Proof.
  intros HI. induction offers as [|o offers IH] in n |- *; cbn [try_offers].
  { wp_step. by apply good_refl. }
  repeat first [ apply IH | progress (wp_step; try done) ].
  unfold not_null. wp_step; [|by wp_step].
  apply next_candidate_Some in Heqo1 as (Hj & Hc%claimable_true & _).
  wp_step. wp_step. wp_step.
  - wp_steps. by apply cache_hit_good.
  - apply start_attempt_good; [done..|]. by destruct Hc as (_ & ? & _).
Qed.

Lemma try_claim_good s sha256 now fresh w session offers config db :
  Inv db → good now db (try_claim s sha256 now fresh w session offers config db).2.
Proof.
  intros HI. apply (transact_inv (good now db)); [auto with processing|].
  wp_steps. by apply try_offers_good.
Qed.

(** *** Finalization *)

Lemma acquire_finalization_lease_good s now token config db :
  Inv db → good now db (acquire_finalization_lease s now token config db).2.
Proof.
  intros HI. apply (transact_inv (good now db)); [auto with processing|].
  wp_step. wp_step. destruct (next_finalizable now db) as [[k j]|] eqn:Hn; wp_steps; [|by apply good_refl].
  unfold next_finalizable in Hn. apply order_by_head_le in Hn as [[Hj Hf]%elem_of_select _].
  cbn in Hj. apply andb_true_iff in Hf as [Hs%bool_decide_eq_true _]. cbn in Hs.
  apply good_step_if; [done|]. intros j0 Hj0. assert (j0 = j) as -> by congruence. step_row Hs.
Qed.

Lemma reject_artifacts_good s now lease failure db :
  Inv db → good now db (reject_artifacts s now lease failure db).2.
Proof.
  intros HI. apply (autocommit_inv (good now db)); [by apply good_refl|]. intros [] db' [= <-].
  destruct (lock_finalization lease now db) eqn:Hl; [|by apply good_refl].
  unfold lock_finalization in Hl. apply good_step_if; [done|]. intros j Hj. rewrite Hj in Hl.
  apply andb_true_iff in Hl as [[Hs _]%bool_decide_eq_true _]. step_row Hs.
Qed.

(** Artifacts added for one job only; blobs and transfers may change. *)
Definition publishes (k : uuid) (db db' : DB) : Prop :=
  jobs db' = jobs db ∧ attempts db' = attempts db
  ∧ ∀ i f, artifacts db' !! i = Some f → artifacts db !! i = Some f ∨ f_job f = k.

Lemma insert_artifact_publishes new_id k now a db0 db db' :
  publishes k db0 db → insert_artifact new_id k now a db = Ok ((), db') → publishes k db0 db'.
Proof.
  intros (Hj & Ha & Hf). unfold insert_artifact. destruct (exists_row _ _); [by intros [= <-]|].
  destruct (insert_row _ _ _) as [t|] eqn:Ht; simpl; [|done].
  apply insert_row_Ok in Ht as [_ ->]. case_bool_decide; [|done]. intros [= <-].
  split_and!; [done..|]. cbn. intros i f. rewrite lookup_insert. case_decide; [|by apply Hf].
  intros [= <-]. by right.
Qed.

Lemma publish_staged_publishes {R} s (fail : sqlx_error → R) k staged now db0 db n :
  publishes k db0 db →
  wp (publish_staged_artifacts s fail k staged now) (λ _, True)
     (λ _ db' _, publishes k db0 db') db n.
Proof.
  intros Hp. apply (wp_for _ _ _ (λ _ db', publishes k db0 db')); [done|].
  intros ia l db1 n1 H1. wp_step. apply wp_exec; [done|]. intros [] db2 Hi.
  assert (publishes k db0 db2) by (by eapply insert_artifact_publishes). by wp_steps.
Qed.

Lemma finish_job_good now lease f db0 db affected db' :
  Inv db0 → publishes (fl_job_id lease) db0 db →
  (∀ j, j_state (f j) = Succeeded ∧ quiet (j <| j_state := Succeeded |>) (f j)
        ∧ terms (f j) = terms j
        ∧ (j_state j = Finalizing → job_wf j → job_wf (f j))) →
  finish_job lease f db = (affected, db') →
  affected = 1 → good now db0 db'.
Proof.
  intros HI (Hj & Ha & Hf) Hfin Hq Haff. unfold finish_job in Hq.
  destruct (jobs db !! fl_job_id lease) as [j|] eqn:Hk; [|by simplify_eq].
  destruct (holds_token lease j) eqn:Ht; simplify_eq.
  apply bool_decide_eq_true in Ht as [Hs _]. rewrite Hj in Hk.
  destruct (Hfin j) as (Hfs & Hq & Hret & Hwf).
  assert (good now db0 (update_job (fl_job_id lease) f db0)) as [HI1 Hu].
  { apply good_step_if; [done|]. intros j0 Hj0. assert (j0 = j) as -> by congruence.
    destruct Hq as (_ & Hq1 & Hq2 & Hq3 & _ & Hq4). right. rewrite Hs, Hfs.
    split_and!; try done; [by left; constructor|by apply Hwf]. }
  split.
  - unfold Inv, update_job in HI1 |- *. cbn in *. rewrite Hj, Ha.
    eapply (tables_ok_publish _ _ _ _ (fl_job_id lease)); [exact HI1| |exact Hf].
    exists (f j). rewrite lookup_alter_eq, Hk. by split.
  - unfold updates, evolves, update_job in *. cbn in *. by rewrite Hj.
Qed.

Lemma publish_artifacts_good s now lease staged db :
  Inv db → good now db (publish_artifacts s now lease staged db).2.
Proof.
  intros HI. apply (transact_inv (good now db)); [auto with processing|].
  wp_step. wp_step. wp_step; [by apply wp_rollback|]. wp_step.
  eapply wp_mono; [apply (publish_staged_publishes _ _ _ _ _ db); by split_and!; eauto|done|].
  intros [] db1 n1 Hp. wp_step. apply wp_exec; [done|]. intros affected db2 [= Hq].
  wp_step; [|by apply wp_rollback]. wp_step. apply Z.eqb_eq in Heqb0.
  eapply finish_job_good; [done..| |exact Hq|done].
  intros j. split_and!; try done. intros Hs Hwf. wf_row.
Qed.

(** What the processing component assumes of the creation of a project: it
    writes other tables. *)
Definition provisions (provision : schedule → uuid → Tx DB (result sqlx_error bool) unit) : Prop :=
  ∀ s p db n, wp (provision s p) (λ _, True) (λ _ db' _, core_same db db') db n.

Lemma publish_workspace_good s now lease project provision staged db :
  provisions provision → Inv db →
  good now db (publish_workspace s now lease project (provision s project) staged db).2.
Proof.
  intros Hprov HI. apply (transact_inv (good now db)); [auto with processing|].
  wp_step. wp_step. wp_step; [by apply wp_rollback|]. wp_step.
  eapply wp_mono; [apply Hprov|done|]. intros [] db0 n0 (Hj0 & Ha0 & Hf0). wp_step.
  eapply wp_mono; [apply (publish_staged_publishes _ _ _ _ _ db)|done|].
  { split_and!; try done. intros i f. rewrite Hf0. by left. }
  intros [] db1 n1 Hp. wp_step. apply wp_exec; [done|]. intros affected db2 [= Hq].
  wp_step; [|by apply wp_rollback]. wp_step. apply Z.eqb_eq in Heqb0.
  eapply finish_job_good; [done..| |exact Hq|done].
  intros j. split_and!; try done. intros Hs Hwf. wf_row.
Qed.

(** *** Maintenance *)

Lemma recovery_edge now j : job_edge Running (recovery now j).1.
Proof. unfold recovery. repeat case_match; constructor. Qed.

Lemma recovered_job_wf now next_at j :
  j_state j = Running → job_wf j →
  job_wf (recovered_job now (recovery now j).1 (recovery now j).2 next_at j).
Proof.
  intros Hs Hwf. unfold recovery.
  destruct (j_cancellation_requested j); [wf_row|].
  destruct (_ && _) eqn:Hc; [|case_match; wf_row].
  apply andb_true_iff in Hc as [Hc%Z.ltb_lt _]. wf_row.
Qed.

(** The attempts that the expiry of a claim loses are the running one. *)
Lemma lose_attempts_single J A F k j claim :
  tables_ok J A F → J !! k = Some j → j_state j = Running → j_current_claim j = Some claim →
  ∃ i a, A !! i = Some a ∧ backs k j a ∧
    ∀ f, update_rows (λ _ a, bool_decide (a_claim a = claim ∧ a_state a = ARunning)) (λ _, f) A
         = <[i := f a]> A.
Proof.
  intros HT Hj Hs Hc. destruct (ok_backed _ _ _ HT k j Hj Hs) as (i & a & Ha & Hb).
  exists i, a. split_and!; [done..|]. destruct Hb as (Hbj & Hba & Hbc & _ & _).
  assert (a_claim a = claim) as Hac by congruence.
  intros f. apply (update_rows_single _ (λ _, f)); [done|by apply bool_decide_eq_true|].
  intros i' a' Ha' [Hc' _]%bool_decide_eq_true.
  eapply (ok_claim_unique _ _ _ HT); [done..|congruence].
Qed.

Lemma recover_claim_good now k j claim next_at db :
  Inv db → jobs db !! k = Some j → j_state j = Running → j_current_claim j = Some claim →
  good now db
    (update_job k (recovered_job now (recovery now j).1 (recovery now j).2 next_at)
       (expire_claim_transfers claim now (lose_attempts claim now db))).
Proof.
  intros HI Hj Hs Hc.
  destruct (lose_attempts_single _ _ _ _ _ _ HI Hj Hs Hc) as (i & a & Ha & Hb & Hsingle).
  eapply (good_trans now _ (db <| jobs := <[k := recovered_job now (recovery now j).1 (recovery now j).2 next_at j]> (jobs db) |>
            <| attempts := attempts (lose_attempts claim now db) |>)).
  - unfold lose_attempts. cbn. rewrite Hsingle. destruct Hb as (Hbj & Hba & Hbc & _).
    eapply (good_claim now k i j a (recovered_job now _ _ next_at) (lost_attempt now)); try done.
    + intros. by apply recovered_job_wf.
    + apply rtc_once, recovery_edge.
    + right. split; [done|]. cbn. pose proof (recovery_edge now j) as He. by inversion He.
  - intros HI'. apply good_core; [done|]. unfold update_job. cbn.
    by rewrite (alter_as_insert _ _ _ _ Hj).
Qed.

(** The rows of one batch: distinct running jobs with an expired lease. *)
Definition due (now : time) (db : DB) (row : uuid * Job) : Prop :=
  jobs db !! row.1 = Some row.2 ∧ j_state row.2 = Running
  ∧ ∃ e, j_claim_expires_at row.2 = Some e ∧ e <= now.

Lemma expired_claims_spec now db :
  NoDup (expired_claims now db).*1 ∧ Forall (due now db) (expired_claims now db).
Proof.
  unfold expired_claims, order_by. set (rows := select _ _).
  pose proof (merge_sort_Permutation (key_le (λ kj : uuid * Job, default 0 (j_claim_expires_at kj.2))) rows) as Hp.
  split.
  - rewrite fmap_take. eapply sublist_NoDup; [|apply sublist_take].
    rewrite Hp. apply NoDup_select.
  - apply Forall_take, Forall_forall. intros [k j]. rewrite Hp.
    intros [Hj Hc]%elem_of_select. apply andb_true_iff in Hc as [Hs%bool_decide_eq_true He].
    unfold due. cbn. destruct (j_claim_expires_at j) as [e|]; [|done].
    apply Z.leb_le in He. eauto 10.
Qed.

Lemma recover_claim_wp s now k j l db0 db n :
  good now db0 db → NoDup (k :: l.*1) → Forall (due now db) ((k, j) :: l) →
  wp (recover_claim s now (k, j)) (λ _, True)
     (λ _ db' _, good now db0 db' ∧ Forall (due now db') l) db n.
Proof.
  intros Hg [Hk _]%NoDup_cons [(Hj & Hs & _) Hl]%Forall_cons. cbn in Hj, Hs. unfold recover_claim.
  pose proof (ok_wf _ _ _ (proj1 Hg) _ _ Hj) as Hwf.
  destruct (j_current_claim j) as [claim|] eqn:Hc;
    [|destruct (proj2 (wf_claim _ Hwf) Hs) as [? ?]; congruence].
  destruct (recovery now j) as [st fl] eqn:Hrec. wp_steps. split.
  - eapply good_trans; [exact Hg|]. intros HI.
    pose proof (recover_claim_good now k j claim
      (if bool_decide (st = Queued) then now + processing_retry_delay (j_attempt_count j) else now)
      db HI Hj Hs Hc) as Hr. rewrite Hrec in Hr. exact Hr.
  - rewrite Forall_forall in Hl |- *. intros [k' j'] Hin. destruct (Hl _ Hin) as (Hj' & ?).
    split; [|done]. cbn in *. rewrite lookup_alter_ne; [done|]. intros ->. apply Hk.
    apply list_elem_of_fmap. by exists (k', j').
Qed.

Lemma recover_claims_wp s now db0 n :
  Inv db0 →
  wp (tx_for (expired_claims now db0) (recover_claim s now)) (λ _, True)
     (λ _ db' _, good now db0 db') db0 n.
Proof.
  intros HI. destruct (expired_claims_spec now db0) as [Hnd Hdue].
  eapply wp_mono; [apply (wp_for _ _ _ (λ l db', good now db0 db' ∧ NoDup l.*1 ∧ Forall (due now db') l))|done|].
  - split_and!; [by apply good_refl|done..].
  - intros [k j] l db n' (Hg & Hnd' & Hd).
    eapply wp_mono; [by apply (recover_claim_wp s now k j l db0)|done|].
    intros _ db' _ [Hg' Hd']. split_and!; [done| |done]. by apply NoDup_cons in Hnd' as [_ ?].
  - by intros _ db' _ [? _].
Qed.

Lemma expire_queue_good now db : Inv db → good now db (expire_queue now db).
Proof.
  intros HI. unfold expire_queue.
  assert (∀ k j, jobs db !! k = Some j → queue_overdue now j = true →
    quiet j (expired_job now j) ∧ job_wf (expired_job now j) ∧ job_edge (j_state j) Expired) as Hf.
  { intros k j Hj [Hs%bool_decide_eq_true _]%andb_true_iff.
    pose proof (ok_wf _ _ _ HI _ _ Hj) as Hwf.
    destruct Hs as [Hs|Hs]; (split_and!; [|wf_row|rewrite Hs; constructor]);
      split_and!; cbn; try done; by rewrite Hs. }
  split.
  - unfold Inv. cbn. eapply tables_ok_quiet; [exact HI|..].
    + intros k j' (j & Hj & ->)%lookup_update_rows_Some. exists j. split; [done|].
      destruct (queue_overdue now j) eqn:HP; [by destruct (Hf k j Hj HP) as (?&?&_)|].
      split; [apply quiet_refl|by eapply ok_wf].
    + intros k. by rewrite lookup_update_rows, fmap_is_Some.
  - split; intros k; cbn; rewrite lookup_update_rows; [|by rewrite fmap_is_Some].
    destruct (jobs db !! k) as [j|] eqn:Hj; simpl; [|done].
    destruct (queue_overdue now j) eqn:HP; [right|by left]. destruct (Hf k j Hj HP) as (_&_&He).
    split_and!; [by eapply edge_from_active|by apply rtc_once|done].
Qed.

Lemma delete_unretained_good now db : Inv db → good now db (delete_unretained now db).
Proof.
  intros HI. unfold delete_unretained. cbv zeta.
  set (gone := λ k, match jobs db !! k with Some j => unretained now db k j | None => false end). split.
  - unfold Inv. cbn. eapply (tables_ok_delete _ _ _ gone); [exact HI|..].
    + intros k j. rewrite lookup_delete_rows_Some. unfold gone. split; intros [Hj Hg]; (split; [done|]);
        by rewrite Hj in *.
    + intros i a. by rewrite lookup_delete_rows_Some.
    + intros i f. by rewrite lookup_delete_rows_Some.
  - split; intros k; cbn.
    + destruct (jobs db !! k) as [j|] eqn:Hj.
      * destruct (unretained now db k j) eqn:Hg.
        -- replace (delete_rows (unretained now db) (jobs db) !! k) with (@None Job).
           { cbn. unfold unretained in Hg. rewrite !andb_true_iff, Z.leb_le in Hg. naive_solver. }
           symmetry. apply eq_None_not_Some. intros [j' [Hj' Hg']%lookup_delete_rows_Some]. congruence.
        -- replace (delete_rows (unretained now db) (jobs db) !! k) with (Some j); [by left|].
           symmetry. by apply lookup_delete_rows_Some.
      * replace (delete_rows (unretained now db) (jobs db) !! k) with (@None Job); [done|].
        symmetry. apply eq_None_not_Some. intros [j' [Hj' _]%lookup_delete_rows_Some]. congruence.
    + intros [j [Hj _]%lookup_delete_rows_Some]. by eexists.
Qed.

Lemma maintain_lifecycle_good s now db : Inv db → good now db (maintain_lifecycle s now db).2.
Proof.
  intros HI. unfold maintain_lifecycle.
  pose proof (autocommit_inv (core_same db) s 0 (writes (expire_sessions now)) db) as H1.
  destruct (autocommit s 0 _ db) as [[|] db1]; cbn in H1.
  2: { apply good_core; [done|]. apply H1; [done|]. by intros [] ? [= <-]. }
  assert (core_same db db1) as Hc1. { apply H1; [done|]. by intros [] ? [= <-]. }
  pose proof (autocommit_inv (core_same db) s 1 (writes (expire_drained now)) db1) as H2.
  destruct (autocommit s 1 _ db1) as [[|] db2]; cbn in H2.
  2: { apply good_core; [done|]. apply H2; [done|]. by intros [] ? [= <-]. }
  assert (core_same db db2) as Hc2. { apply H2; [done|]. by intros [] ? [= <-]. }
  eapply good_trans; [by apply good_core|]. intros HI2.
  apply (transact_inv (good now db2)); [by apply good_refl|].
  wp_step. wp_step. wp_step. eapply wp_mono; [by apply recover_claims_wp|done|].
  intros [] db3 n3 H3. wp_steps.
  set (db4 := delete_replies now (expire_transfers now (release_ended_pins (expire_queue now db3)))).
  apply (good_store now _ (delete_unretained now db4)); [|done].
  apply (good_trans now _ db4); [|apply delete_unretained_good].
  apply (good_store now _ (expire_queue now db3)); [|done].
  eapply good_trans; [exact H3|apply expire_queue_good].
Qed.
