(* ===== verification/ProcessingTheorems.v ===== *)
(** * Document processing: the system of all operations and its theorems

    Every operation on the processing tables as one step, the proof that each
    step preserves the invariant and moves jobs along the state machine, and
    the properties of every reachable state. *)
From S2P Require Import Prelude Store Text ProcessingModel ProcessingAdmission ProcessingClaims ProcessingRequests.
From S2P Require Import ProcessingMaintenance ProcessingInvariant Bundles ProcessingPublication ProcessingSteps.

Open Scope Z_scope.

(** ** Operations *)

Inductive Op : Type :=
| OReserve (c : ReserveJob)
| OCapturePins (job_id : uuid) (object_keys : list text)
| OReleasePins (job_id : uuid)
| OStoreInput (new_blob job_id : uuid) (i : PreparedInput)
| OPreparationFailed (job_id : uuid) (code message : text)
| OCancel (user job_id : uuid)
| ORegister (id : uuid) (w : AuthenticatedWorker) (worker_instance : text)
    (advertised : list WorkerProcessorAdvertisement)
| OHeartbeatSession (w : AuthenticatedWorker) (session : uuid)
    (reported : list (ProcessingOperation * text * bool))
| ODrain (w : AuthenticatedWorker) (session : uuid)
| OClaim (fresh : Fresh) (w : AuthenticatedWorker) (session : uuid)
    (offers : list ProcessorCapacityOffer)
| OHeartbeatClaim (w : AuthenticatedWorker) (session claim : uuid) (phase : ProcessingPhase)
| OCreateTransfer (id : uuid) (sample : text) (w : AuthenticatedWorker)
    (r : ArtifactTransferRequest)
| ODownload (transfer : uuid) (token : text)
| OUpload (new_blob transfer : uuid) (token : text) (content : bytes)
| OComplete (w : AuthenticatedWorker) (session claim : uuid)
    (completed : list CompletedArtifactInput)
| OFail (w : AuthenticatedWorker) (session claim : uuid) (class : WorkerFailureClass)
    (code message : text)
| ORelease (w : AuthenticatedWorker) (session claim : uuid)
| ORequest (op : RequestOp)
| OMaintain
| OAcquire (token : uuid)
| OPublish (lease : FinalizationLease) (staged : list (uuid * StagedArtifact))
| OPublishWorkspace (lease : FinalizationLease) (project : uuid)
    (staged : list (uuid * StagedArtifact))
| OReject (lease : FinalizationLease) (failure : ValidationFailure).

Section system.
Context (config : ProcessingConfig) (sha256 : bytes → bytes) (hex_decode : text → option bytes).
(** The Workspace component's creation of a project. *)
Context (provision : schedule → uuid → Tx DB (result sqlx_error bool) unit).

Definition run_op (s : schedule) (now : time) (op : Op) (db : DB) : DB :=
  match op with
  | OReserve c => (reserve_job s config c db).2
  | OCapturePins job keys => (capture_pins s now job keys db).2
  | OReleasePins job => (release_project_asset_pins s job db).2
  | OStoreInput new_blob job i => (store_prepared_input s new_blob job i db).2
  | OPreparationFailed job code message => (mark_preparation_failed s now job code message db).2
  | OCancel user job => (cancel_job s now user job db).2
  | ORegister id w inst advertised => (register_session s now id w inst advertised config db).2
  | OHeartbeatSession w session reported =>
      (heartbeat_session s now w session reported config db).2
  | ODrain w session => (drain_session s now w session db).2
  | OClaim fresh w session offers => (try_claim s sha256 now fresh w session offers config db).2
  | OHeartbeatClaim w session claim phase =>
      (heartbeat_claim s now w session claim phase config db).2
  | OCreateTransfer id sample w r =>
      (create_artifact_transfer s sha256 now id sample w r config db).2
  | ODownload transfer token => (download_transfer s sha256 now transfer token db).2
  | OUpload new_blob transfer token content =>
      (upload_transfer s sha256 now new_blob transfer token content db).2
  | OComplete w session claim completed =>
      (complete_claim s hex_decode now w session claim completed db).2
  | OFail w session claim class code message =>
      (fail_claim s now w session claim class code message db).2
  | ORelease w session claim => (release_claim s now w session claim db).2
  | ORequest op => run_request s now op db
  | OMaintain => (maintain_lifecycle s now db).2
  | OAcquire token => (acquire_finalization_lease s now token config db).2
  | OPublish lease staged => (publish_artifacts s now lease staged db).2
  | OPublishWorkspace lease project staged =>
      (publish_workspace s now lease project (provision s project) staged db).2
  | OReject lease failure => (reject_artifacts s now lease failure db).2
  end.

(** One committed state and the next. *)
Definition run_ops (trace : list (schedule * time * Op)) (db : DB) : DB :=
  foldl (λ db '(s, now, op), run_op s now op db) db trace.
End system.

(** ** Every step preserves the invariant and follows the state machine *)

Definition admits (op : Op) : bool := match op with OReserve _ => true | _ => false end.

Section reachable.
Context (config : ProcessingConfig) (sha256 : bytes → bytes) (hex_decode : text → option bytes).
Context (provision : schedule → uuid → Tx DB (result sqlx_error bool) unit).
Context (Hprov : provisions provision).

Abbreviation step := (run_op config sha256 hex_decode provision).
Abbreviation run := (run_ops config sha256 hex_decode provision).

Lemma run_op_updates s now op db :
  Inv db → admits op = false → good now db (step s now op db).
Proof.
  intros HI Had. destruct op; cbn [run_op]; try done.
  - by apply good_core, capture_pins_core.
  - by apply good_core, release_project_asset_pins_core.
  - by apply store_prepared_input_good.
  - by apply mark_preparation_failed_good.
  - by apply cancel_job_good.
  - by apply good_core, register_session_core.
  - by apply good_core, heartbeat_session_core.
  - by apply good_core, drain_session_core.
  - by apply try_claim_good.
  - by apply heartbeat_claim_good.
  - by apply good_core, create_artifact_transfer_core.
  - by apply good_core, download_transfer_core.
  - by apply good_core, upload_transfer_core.
  - by apply complete_claim_good.
  - by apply mutate_failed_claim_good.
  - by apply mutate_failed_claim_good.
  - by apply good_core, run_request_core.
  - by apply maintain_lifecycle_good.
  - by apply acquire_finalization_lease_good.
  - by apply publish_artifacts_good.
  - by apply publish_workspace_good.
  - by apply reject_artifacts_good.
Qed.

Lemma run_op_good s now op db : Inv db → Inv (step s now op db) ∧ evolves now db (step s now op db).
Proof.
  intros HI. destruct (admits op) eqn:Hop.
  - destruct op; try done. by apply reserve_job_good.
  - by destruct (run_op_updates s now op db HI Hop) as [? [? _]].
Qed.

(** An invariant of every step is one of every trace. *)
Lemma run_ops_ind (P : DB → Prop) trace db :
  (∀ s now op db, P db → (s, now, op) ∈ trace → P (step s now op db)) → P db → P (run trace db).
Proof.
  unfold run_ops. induction trace as [|[[s now] op] trace IH] in db |- *; intros Hstep HP; simpl; [done|].
  apply IH; [|apply Hstep; [done|left]]. intros. apply Hstep; [done|by right].
Qed.

Lemma run_ops_Inv trace db : Inv db → Inv (run trace db).
Proof. apply run_ops_ind. intros. by apply run_op_good. Qed.
End reachable.

(** ** A sample life of a job *)

Section sample.
Definition sample_sha256 (b : bytes) : bytes := take 32 (b ++ repeat 0%N 32).
Definition sample_hex (t : text) : option bytes := Some t.
Definition sample_provision (s : schedule) (_ : uuid) : Tx DB (result sqlx_error bool) unit :=
  exec s Err (writes id).
Definition sample_contract : text := lit "tectonic/1".
Definition sample_operations : gmap ProcessingOperation (gset text) :=
  {[LatexCompilePdfV1 := {[sample_contract]}]}.
Definition sample_config : ProcessingConfig :=
  MkConfig [MkWorkerIdentity (lit "w") [] sample_operations] 2 1 1 1000 1000 1000 60
    (seconds 100) (seconds 1000) (seconds 10) (seconds 30) (seconds 10) (seconds 10).
Definition sample_worker : AuthenticatedWorker := MkWorker (lit "w") sample_operations.
Definition sample_pdf : bytes := lit "%PDF-1.7 %%EOF".
Definition sample_reserve : ReserveJob :=
  MkReserveJob 1%N LatexCompilePdfV1 10%N (Some 20%N) (lit "s") (lit "k") [1%N] VNull [2%N] 0.
Definition sample_input : PreparedInput :=
  MkPreparedInput (lit "project-bundle/v1") PROJECT_BUNDLE_MEDIA_TYPE [7%N] (sample_sha256 [7%N])
    VNull [2%N] None None None 1.
Definition sample_staged : list (uuid * StagedArtifact) :=
  [(80%N, MkStaged (Some 63%N) 101%N (lit "pdf") (lit "application/pdf") (lit "out.pdf") 14
            (sample_sha256 sample_pdf) sample_pdf)].
Definition sample_lease : FinalizationLease :=
  MkLease 1%N 70%N LatexCompilePdfV1 10%N (Some 20%N) None VNull.

Definition sample_queue : list (schedule * time * Op) := [
  (healthy, 0, OReserve sample_reserve);
  (healthy, 1, OStoreInput 100%N 1%N sample_input);
  (healthy, 2, ORegister 50%N sample_worker (lit "host")
                 [MkAdvertisement LatexCompilePdfV1 sample_contract (lit "1") 1])].
Definition sample_claim : schedule * time * Op :=
  (healthy, 3, OClaim (MkFresh 60%N 61%N 62%N (lit "t")) sample_worker 50%N
                 [MkOffer LatexCompilePdfV1 sample_contract 1]).
Definition sample_finish : list (schedule * time * Op) := [
  (healthy, 4, OCreateTransfer 63%N (lit "u") sample_worker
                 (MkTransferRequest 50%N 61%N (lit "pdf") (lit "application/pdf")
                    (lit "out.pdf") 14 (sample_sha256 sample_pdf)));
  (healthy, 5, OUpload 101%N 63%N (lit "ptx_u") sample_pdf);
  (healthy, 6, OComplete sample_worker 50%N 61%N
                 [MkCompleted 63%N (lit "pdf") 14 (sample_sha256 sample_pdf)]);
  (healthy, 7, OAcquire 70%N);
  (healthy, 8, OPublish sample_lease sample_staged)].

Definition sample_run (trace : list (schedule * time * Op)) : DB → DB :=
  run_ops sample_config sample_sha256 sample_hex sample_provision trace.
Definition running_db : DB := Eval vm_compute in sample_run (sample_queue ++ [sample_claim]) empty_db.
End sample.

Lemma sample_provisions : provisions sample_provision.
Proof. intros s p db n. by apply wp_writes. Qed.

Example sample_runs : j_state <$> jobs running_db !! 1%N = Some Running.
Proof. vm_compute. reflexivity. Qed.
Example sample_succeeds :
  j_state <$> jobs (sample_run sample_finish running_db) !! 1%N = Some Succeeded.
Proof. vm_compute. reflexivity. Qed.

(** * Document processing: properties of every reachable state

    Theorems about the states a trace of operations reaches from the empty
    tables, whatever the server answers and however the operations of the
    users, the workers and the maintenance loop interleave. *)
Section reachable_states.
Context (config : ProcessingConfig) (sha256 : bytes → bytes) (hex_decode : text → option bytes).
Context (provision : schedule → uuid → Tx DB (result sqlx_error bool) unit).
Context (Hprov : provisions provision).

Abbreviation step := (run_op config sha256 hex_decode provision).
Abbreviation run := (run_ops config sha256 hex_decode provision).

(** The states reachable from the empty tables: the operations of the users,
    the workers and the maintenance loop in any order, at any times, under any
    behaviour of the server. *)
Inductive reachable : DB → Prop :=
| reachable_empty : reachable empty_db
| reachable_step s now op db : reachable db → reachable (step s now op db).

Lemma reachable_Inv db : reachable db → Inv db.
Proof. induction 1; [apply Inv_empty|by apply run_op_good]. Qed.

Lemma run_ops_reachable trace db : reachable db → reachable (run trace db).
Proof. apply run_ops_ind. intros. by apply reachable_step. Qed.

(** A terminal row survives every step before its retention deadline. *)
Lemma terminal_step s now op db k j :
  Inv db → jobs db !! k = Some j → is_terminal (j_state j) = true → now < j_retained_until j →
  jobs (step s now op db) !! k = Some j.
Proof.
  intros HI Hj Ht Hnow. destruct (run_op_good config sha256 hex_decode provision Hprov s now op db HI) as [_ He].
  specialize (He k). rewrite Hj in He. destruct (jobs (step s now op db) !! k) as [j'|]; simpl in He.
  - destruct He as [->|(Hn & _)]; [done|congruence].
  - lia.
Qed.

(** ** Quotas *)

Definition quota_respected (db : DB) : Prop :=
  global_active db ≤ max_queued_jobs config
  ∧ (∀ user, requester_active user db ≤ max_active_jobs_per_user config)
  ∧ (∀ project, project_active project db ≤ max_active_jobs_per_project config).

Lemma active_of_update now db db' k j' :
  updates now db db' → jobs db' !! k = Some j' → is_active (j_state j') = true →
  ∃ j, jobs db !! k = Some j ∧ is_active (j_state j) = true ∧ terms j' = terms j.
Proof.
  intros [He Hd] Hj' Ha. specialize (He k). destruct (Hd k) as [j Hj]; [by eexists|].
  rewrite Hj, Hj' in He. simpl in He. exists j. split; [done|].
  destruct He as [->|(Ht & _ & Hterms)]; [done|]. split; [by destruct (j_state j)|done].
Qed.

Lemma quota_updates now db db' : updates now db db' → quota_respected db → quota_respected db'.
Proof.
  intros Hu (Hg & Hr & Hp). split_and!; intros.
  - etrans; [|exact Hg]. apply count_le. intros k v Hv Ha.
    destruct (active_of_update _ _ _ _ _ Hu Hv Ha) as (j & ? & ? & _). eauto.
  - etrans; [|apply (Hr user)]. apply count_le. intros k v Hv [Hb%bool_decide_eq_true Ha]%andb_true_iff.
    destruct (active_of_update _ _ _ _ _ Hu Hv Ha) as (j & ? & Haj & Ht). exists j. split; [done|].
    unfold terms in Ht. rewrite Haj, bool_decide_true; [done|congruence].
  - etrans; [|apply (Hp project)]. apply count_le. intros k v Hv [Hb%bool_decide_eq_true Ha]%andb_true_iff.
    destruct (active_of_update _ _ _ _ _ Hu Hv Ha) as (j & ? & Haj & Ht). exists j. split; [done|].
    unfold terms in Ht. rewrite Haj, bool_decide_true; [done|congruence].
Qed.

(** The state after a reservation: unchanged, or one more job within every
    limit that applies to it. *)
Lemma reserve_job_admits s c db :
  (reserve_job s config c db).2 = db ∨
  global_active db < max_queued_jobs config
  ∧ requester_active (rj_requester_user_id c) db < max_active_jobs_per_user config
  ∧ (∀ p, rj_project_id c = Some p → project_active p db < max_active_jobs_per_project config)
  ∧ jobs (reserve_job s config c db).2 = <[rj_id c := reserved_job config c]> (jobs db).
Proof.
  apply (transact_inv (λ db', db' = db ∨ _ ∧ _ ∧ _ ∧ jobs db' = _)); [by left|].
  assert (∀ db', insert_job (rj_id c) (reserved_job config c) db = Ok ((), db') →
                 jobs db' = <[rj_id c := reserved_job config c]> (jobs db)) as Hins.
  { unfold insert_job. intros db'. destruct (insert_row _ _ _) as [t|] eqn:Ht; simpl; [|done].
    apply insert_row_Ok in Ht as [_ ->]. case_match; [done|]. by intros [= <-]. }
  wp_steps; try (by left);
    (apply wp_exec; [done|]; intros [] db' Hi; wp_step; right;
     rewrite ?Z.leb_gt in *; split_and!; [done..| |by apply Hins]);
    intros p Hp; simplify_eq; done.
Qed.

Lemma quota_reserve s c db : quota_respected db → quota_respected (reserve_job s config c db).2.
Proof.
  intros (Hg & Hr & Hp).
  destruct (reserve_job_admits s c db) as [->|(Hg' & Hr' & Hp' & Hj)]; [done|].
  unfold quota_respected, global_active, requester_active, project_active in *. rewrite Hj.
  split_and!.
  - pose proof (count_insert_le (λ (_ : uuid) j, is_active (j_state j)) (rj_id c) (reserved_job config c) (jobs db)).
    lia.
  - intros user. destruct (decide (rj_requester_user_id c = user)) as [<-|Hne].
    + pose proof (count_insert_le (λ (_ : uuid) j, bool_decide (j_requester j = rj_requester_user_id c) && is_active (j_state j))
        (rj_id c) (reserved_job config c) (jobs db)). lia.
    + etrans; [|apply (Hr user)]. apply count_le. intros k v Hv Hb.
      apply lookup_insert_Some in Hv as [[_ <-]|[_ Hv]]; [|by exists v].
      cbn in Hb. rewrite bool_decide_false in Hb by done. done.
  - intros project. destruct (decide (rj_project_id c = Some project)) as [Hp1|Hne].
    + pose proof (count_insert_le (λ (_ : uuid) j, bool_decide (j_project j = Some project) && is_active (j_state j))
        (rj_id c) (reserved_job config c) (jobs db)). specialize (Hp' _ Hp1). lia.
    + etrans; [|apply (Hp project)]. apply count_le. intros k v Hv Hb.
      apply lookup_insert_Some in Hv as [[_ <-]|[_ Hv]]; [|by exists v].
      cbn in Hb. rewrite bool_decide_false in Hb by done. done.
Qed.

Lemma reachable_quota db :
  0 ≤ max_queued_jobs config → 0 ≤ max_active_jobs_per_user config →
  0 ≤ max_active_jobs_per_project config → reachable db → quota_respected db.
Proof.
  intros Hg Hu Hp. induction 1 as [|s now op db Hr Hq]; [by split_and!|].
  destruct (admits op) eqn:Hop; [destruct op; try done; by apply quota_reserve|].
  by eapply quota_updates; [apply run_op_updates, Hop; [done|by apply reachable_Inv]|].
Qed.

(** ** Attempts of one job *)

Lemma attempts_of_job_le db k :
  Inv db → count (λ _ a, bool_decide (a_job a = k)) (attempts db) ≤ 3.
Proof.
  intros HI. unfold count. set (rows := select _ _).
  assert (∀ i a, (i, a) ∈ rows → attempts db !! i = Some a ∧ a_job a = k) as Hrows.
  { by intros i a [? Hk%bool_decide_eq_true]%elem_of_select. }
  rewrite <-(length_fmap (λ ia : uuid * Attempt, a_number ia.2)).
  cut (length ((λ ia : uuid * Attempt, a_number ia.2) <$> rows) ≤ length [1; 2; 3]%Z)%nat; [simpl; lia|].
  apply submseteq_length, NoDup_submseteq.
  - apply NoDup_fmap_2_strong.
    + intros [i1 a1] [i2 a2] [H1 J1]%Hrows [H2 J2]%Hrows Hn. cbn in Hn.
      assert (i1 = i2) as -> by (eapply (ok_number_unique _ _ _ HI); [done..|congruence|done]).
      congruence.
    + eapply NoDup_fmap_1, NoDup_select.
  - intros n ([i a] & -> & [Ha Hk]%Hrows)%list_elem_of_fmap. cbn.
    destruct (ok_fits _ _ _ HI _ _ Ha) as (j & Hj & [Hnum _]).
    pose proof (wf_attempts _ (ok_wf _ _ _ HI _ _ Hj)).
    assert (a_number a = 1 ∨ a_number a = 2 ∨ a_number a = 3) as Hcases by lia. set_solver.
Qed.

(** ** The properties *)

(** C1: in every reachable state the tables are consistent: each job row is
    well formed (a claim exactly while running, a completion time exactly
    when terminal, at most three attempts), each running job is backed by
    the attempt whose claim, lease and number it records, only a current
    claim's attempt runs, claims and attempt numbers are unique, artifacts
    belong to succeeded jobs and no idempotency key names two jobs. *)
Theorem reachable_states_are_consistent db : reachable db → Inv db.
Proof. apply reachable_Inv. Qed.

(** C2: every operation refines the abstract life cycle of a job: a new row is
    in preparation, a row changes only along the edges of [job_edge] while
    it is active and never in what its admission fixed, a terminal row is
    not rewritten, and a row is deleted only after its retention deadline. *)
Theorem operations_follow_the_job_life_cycle s now op db :
  reachable db → evolves now db (step s now op db).
Proof. intros. apply run_op_good; [done|by apply reachable_Inv]. Qed.

(** C3: the outcome of a finished job is final: no sequence of operations
    before the retention deadline changes its row or removes it. *)
Theorem finished_jobs_are_immutable db later k j :
  reachable db → jobs db !! k = Some j → is_terminal (j_state j) = true →
  Forall (λ '(_, now, _), now < j_retained_until j) later →
  jobs (run later db) !! k = Some j.
Proof.
  intros Hr Hj Ht Hl.
  cut (Inv (run later db) ∧ jobs (run later db) !! k = Some j); [tauto|].
  apply run_ops_ind; [|split; [by apply reachable_Inv|done]].
  intros s now op db1 [HI Hdb] Hin. rewrite Forall_forall in Hl. specialize (Hl _ Hin). cbn in Hl.
  split; [by apply run_op_good|by apply terminal_step].
Qed.

(** Mutual exclusion of workers: two attempts of a job that are both
    running are the same attempt, the job runs under its claim, and the two
    record the same lease. *)
Theorem one_running_attempt_per_job db i1 i2 a1 a2 :
  reachable db → attempts db !! i1 = Some a1 → attempts db !! i2 = Some a2 →
  a_state a1 = ARunning → a_state a2 = ARunning → a_job a1 = a_job a2 →
  i1 = i2 ∧ ∃ j, jobs db !! a_job a1 = Some j ∧ j_state j = Running
                 ∧ j_current_claim j = Some (a_claim a1)
                 ∧ j_claim_expires_at j = Some (a_lease_expires_at a1).
Proof.
  intros Hr H1 H2 R1 R2 Hk. pose proof (reachable_Inv db Hr) as HI.
  destruct (ok_fits _ _ _ HI _ _ H1) as (j & Hj & [_ [Hr1 Hc1]%(λ f, f R1)]).
  destruct (ok_fits _ _ _ HI _ _ H2) as (j2 & Hj2 & [_ [_ Hc2]%(λ f, f R2)]).
  assert (j2 = j) as -> by congruence.
  split; [eapply (ok_claim_unique _ _ _ HI); [done..|congruence]|].
  exists j. split_and!; [done..|]. by apply (current_attempt _ _ _ _ _ _ _ HI Hj Hr1 H1 Hc1).
Qed.

(** However often workers fail, release or lose a job, it is attempted at
    most three times. *)
Theorem at_most_three_attempts db k :
  reachable db → count (λ _ a, bool_decide (a_job a = k)) (attempts db) ≤ 3.
Proof. intros. by apply attempts_of_job_le, reachable_Inv. Qed.

(** C4: admission control: in every reachable state the active jobs are at
    most the configured maximum, in total, for each requester and for each
    project. *)
Theorem active_jobs_respect_the_quotas db :
  0 ≤ max_queued_jobs config → 0 ≤ max_active_jobs_per_user config →
  0 ≤ max_active_jobs_per_project config → reachable db → quota_respected db.
Proof. apply reachable_quota. Qed.
End reachable_states.

(** ** Witnesses *)

Definition sample_reachable : DB → Prop :=
  reachable sample_config sample_sha256 sample_hex sample_provision.

Lemma sample_run_reachable trace : sample_reachable (sample_run trace empty_db).
Proof. apply run_ops_reachable, reachable_empty. Qed.


Theorem reachable_states_are_consistent_witness :
  Inv (sample_run (sample_queue ++ [sample_claim]) empty_db).
Proof.
  apply (reachable_states_are_consistent sample_config sample_sha256 sample_hex sample_provision
           sample_provisions), sample_run_reachable.
Defined.

Theorem operations_follow_the_job_life_cycle_witness :
  evolves 9 (sample_run sample_queue empty_db)
    (run_op sample_config sample_sha256 sample_hex sample_provision healthy 9
       (OCancel 10%N 1%N) (sample_run sample_queue empty_db)).
Proof.
  apply (operations_follow_the_job_life_cycle sample_config sample_sha256 sample_hex
           sample_provision sample_provisions), sample_run_reachable.
Defined.

Definition sample_cancelled : list (schedule * time * Op) := sample_queue ++ [(healthy, 3, OCancel 10%N 1%N)].

Theorem finished_jobs_are_immutable_witness :
  ∃ j, j_state j = Cancelled
       ∧ jobs (sample_run [sample_claim; (healthy, 4, OMaintain)] (sample_run sample_cancelled empty_db)) !! 1%N
         = Some j.
Proof.
  eexists. split; [|eapply (finished_jobs_are_immutable sample_config sample_sha256 sample_hex
    sample_provision sample_provisions _ _ 1%N _ (sample_run_reachable sample_cancelled))].
  2: vm_compute; reflexivity. all: [> reflexivity | reflexivity | ].
  repeat constructor.
Defined.

Theorem one_running_attempt_per_job_witness :
  ∃ j, jobs (sample_run (sample_queue ++ [sample_claim]) empty_db) !! 1%N = Some j
       ∧ j_state j = Running.
Proof.
  destruct (one_running_attempt_per_job sample_config sample_sha256 sample_hex sample_provision
    sample_provisions _ 60%N 60%N
    (default (MkAttempt 0 0 0 0 [] ARunning Complete 0 (MkLimits 0 0 0) None None None 0 0 None)
       (attempts running_db !! 60%N))
    (default (MkAttempt 0 0 0 0 [] ARunning Complete 0 (MkLimits 0 0 0) None None None 0 0 None)
       (attempts running_db !! 60%N)) (sample_run_reachable (sample_queue ++ [sample_claim]))) as [_ (j & Hj & Hs & _)];
    [vm_compute; reflexivity..|].
  exists j. split; [exact Hj|exact Hs].
Defined.

Theorem at_most_three_attempts_witness :
  count (λ _ a, bool_decide (a_job a = 1%N))
    (attempts (sample_run (sample_queue ++ [sample_claim]) empty_db)) ≤ 3.
Proof.
  apply (at_most_three_attempts sample_config sample_sha256 sample_hex sample_provision
           sample_provisions), sample_run_reachable.
Defined.

Theorem active_jobs_respect_the_quotas_witness :
  quota_respected sample_config (sample_run (sample_queue ++ [sample_claim]) empty_db).
Proof.
  apply (active_jobs_respect_the_quotas sample_config sample_sha256 sample_hex sample_provision
           sample_provisions); [vm_compute; discriminate..|apply sample_run_reachable].
Defined.
