(* ===== verification/ProcessingWorkers.v ===== *)
(** * Document processing: what a worker can do

    Functional specifications of the operations on a claim.  In each, either
    the database is untouched or the worker held the job's current claim under
    an unexpired lease, and the new state is given in full. *)
From S2P Require Import Prelude Store Text ProcessingModel ProcessingAdmission ProcessingClaims.
From S2P Require Import ProcessingRequests.
From S2P Require Import ProcessingMaintenance ProcessingInvariant Bundles ProcessingPublication.
From S2P Require Import ProcessingSteps ProcessingTheorems.

Open Scope Z_scope.

(** The worker [w] holds, in its session, the current claim of the job of the
    attempt [i], under a lease that has not expired. *)
Record holds_claim (now : time) (w : AuthenticatedWorker) (session claim : uuid) (db : DB)
    (i : uuid) (a : Attempt) (j : Job) : Prop := {
  hc_attempt : attempts db !! i = Some a;
  hc_job : jobs db !! a_job a = Some j;
  hc_claim : a_claim a = claim;
  hc_session : a_session a = session;
  hc_worker : ∃ sn, sessions db !! session = Some sn ∧ s_worker_identity sn = identity w;
  hc_running : j_state j = Running;
  hc_current : j_current_claim j = Some claim;
  hc_lease : now < a_lease_expires_at a;
}.

(** ** Heartbeats *)

Definition heartbeat_lease (now : time) (config : ProcessingConfig) (a : Attempt) (j : Job) : time :=
  if j_cancellation_requested j then Z.min (a_lease_expires_at a) (now + seconds 10)
  else now + claim_lease config.

Definition heartbeat_reply (now : time) (config : ProcessingConfig) (a : Attempt) (j : Job) :
    ClaimHeartbeatResponse :=
  let lease := heartbeat_lease now config a j in
  if j_cancellation_requested j then MkHeartbeat HbCancellationRequested now (Some lease) (Some lease)
  else MkHeartbeat HbActive now (Some lease) None.

Definition beaten (now : time) (phase : ProcessingPhase) (lease : time) (i : uuid) (a : Attempt)
    (j : Job) (db : DB) : DB :=
  db <| jobs := <[a_job a := j <| j_phase := phase |> <| j_claim_expires_at := Some lease |>
                               <| j_updated_at := now |>]> (jobs db) |>
     <| attempts := <[i := a <| a_phase := phase |> <| a_lease_expires_at := lease |>
                             <| a_updated_at := now |>]> (attempts db) |>.

Lemma heartbeat_claim_spec s now w session claim phase config db r db' :
  heartbeat_claim s now w session claim phase config db = (r, db') →
  (db' = db ∧ ∀ reply, r = Ok reply →
     hb_state reply = HbClaimLost ∨ hb_state reply = HbJobTerminal) ∨
  ∃ i a j, holds_claim now w session claim db i a j ∧ (phase = Processing ∨ phase = UploadingResult)
    ∧ db' = beaten now phase (heartbeat_lease now config a j) i a j db
    ∧ (r = Ok (heartbeat_reply now config a j) ∨ r = claim_fail Unavailable).
Proof.
  unfold heartbeat_claim. case_bool_decide as Hphase; cbn [negb]; [|intros [= <- <-]; by left].
  intros H. tx_start H; [by left|]. wp_step. wp_step; [by left|].
  destruct (claim_row w session claim db) as [[i a j]|] eqn:Hrow;
    [|wp_step; left; split; [done|intros ? [= <-]; by left]].
  apply claim_row_Some in Hrow as (Ha & Hj & Hc & Hs & Hw).
  destruct (is_terminal (j_state j)) eqn:Ht; [wp_step; left; split; [done|intros ? [= <-]; by right]|].
  case_match eqn:Hg; [wp_step; left; split; [done|intros ? [= <-]; by left]|]. passed Hg.
  assert (holds_claim now w session claim db i a j) as Hheld by (by split; try congruence).
  unfold heartbeat_reply, heartbeat_lease.
  destruct (j_cancellation_requested j) eqn:Hcan; do 2 (wp_step; wp_step; [by left|]); wp_step;
    rewrite (claim_updates _ _ _ _ _ _ _ Hj Ha); (split; right; exists i, a, j; rewrite Hcan; auto).
Qed.

(** A heartbeat changes the tables only for the holder of the current claim
    under an unexpired lease; then it sets the lease of the attempt and of the
    job to the same instant, which is the configured extension, or, once
    cancellation is requested, never later than the lease already granted nor
    than ten seconds from now.  A reply of an active claim is given to no one
    else. *)
Theorem heartbeat_extends_only_a_held_claim s now w session claim phase config db r db' :
  heartbeat_claim s now w session claim phase config db = (r, db') →
  (db' ≠ db ∨ ∃ reply, r = Ok reply ∧ (hb_state reply = HbActive ∨ hb_state reply = HbCancellationRequested)) →
  ∃ i a j lease, holds_claim now w session claim db i a j
    ∧ db' = beaten now phase lease i a j db
    ∧ lease = (if j_cancellation_requested j then Z.min (a_lease_expires_at a) (now + seconds 10)
               else now + claim_lease config).
Proof.
  intros [[-> Hr]|(i & a & j & Hh & _ & -> & _)]%heartbeat_claim_spec Hcond.
  - destruct Hcond as [Hne|(reply & Heq & Hst)]; [done|].
    destruct (Hr reply Heq), Hst; congruence.
  - by eexists i, a, j, _.
Qed.

(** ** Completion *)

Section completion.
Context (hex_decode : text → option bytes).

(** The completed artifact names a transfer uploaded for this attempt with
    the declared role, size and digest. *)
Definition uploaded_for (attempt claim : uuid) (db : DB) (c : CompletedArtifactInput) : Prop :=
  ∃ digest t, hex_decode (ca_sha256 c) = Some digest ∧ length digest = 32%nat
    ∧ transfers db !! ca_transfer_id c = Some t
    ∧ t_attempt t = attempt ∧ t_claim t = claim ∧ t_direction t = Upload
    ∧ (t_state t = TUploaded ∨ t_state t = TConsumed) ∧ t_role t = ca_role c
    ∧ t_exact_size t = Some (ca_size_bytes c) ∧ t_expected_sha256 t = Some digest
    ∧ is_Some (t_blob t).

(** The artifacts a worker reports are complete for the operation. *)
Definition delivers (operation : ProcessingOperation) (attempt claim : uuid) (db : DB)
    (completed : list CompletedArtifactInput) : Prop :=
  Forall (uploaded_for attempt claim db) completed ∧ NoDup (ca_role <$> completed)
  ∧ Forall (λ c, is_Some (artifact_contract (contract operation) (ca_role c))) completed
  ∧ ∀ ac, ac ∈ oc_artifacts (contract operation) → ac_required ac = true →
          ac_role ac ∈ ca_role <$> completed.

Lemma artifact_uploaded_true attempt claim digest c db :
  artifact_uploaded attempt claim digest c db = true → hex_decode (ca_sha256 c) = Some digest →
  length digest = 32%nat → uploaded_for attempt claim db c.
Proof.
  unfold artifact_uploaded. destruct (transfers db !! ca_transfer_id c) as [t|] eqn:Ht; [|done].
  intros (?&?&?&?&?&?&?&?)%bool_decide_eq_true Hd Hl. exists digest, t. by split_and!.
Qed.

Lemma check_completed_spec s c attempt claim roles l (E : complete_result → Prop) db n :
  (∀ e, E (claim_fail e)) → E (Ok CompleteInvalid) →
  wp (check_completed s hex_decode c attempt claim roles l) E
     (λ roles' db' _, db' = db ∧ Forall (uploaded_for attempt claim db) l
        ∧ NoDup (ca_role <$> l) ∧ (∀ r, r ∈ ca_role <$> l → r ∉ roles)
        ∧ Forall (λ c', is_Some (artifact_contract c (ca_role c'))) l
        ∧ ∀ r, r ∈ roles' ↔ r ∈ roles ∨ r ∈ ca_role <$> l) db n.
Proof.
  intros Hfail Hinv. induction l as [|x l IH] in roles, n |- *; cbn [check_completed].
  { wp_step. split_and!; try done; [constructor|set_solver..]. }
  destruct (bool_decide (ca_role x ∈ roles) || _) eqn:Hg; [by wp_step|].
  apply orb_false_iff in Hg as [Hin%bool_decide_eq_false Hc%bool_decide_eq_false].
  destruct (hex_decode (ca_sha256 x)) as [digest|] eqn:Hd; [|by wp_step].
  destruct (length digest =? 32)%nat eqn:Hl; cbn [negb]; [|by wp_step]. apply Nat.eqb_eq in Hl.
  wp_step. wp_step. destruct (artifact_uploaded _ _ _ _ _) eqn:Hu; cbn [negb]; [|by wp_step].
  eapply wp_mono; [apply IH|done|].
  intros roles' db' n' (-> & Hall & Hnd & Hfresh & Hdecl & Hroles).
  assert (ca_role x ∉ ca_role <$> l) as Hx.
  { intros Hr%Hfresh. apply Hr, elem_of_union. left. by apply elem_of_singleton. }
  split_and!; try done.
  - constructor; [by eapply artifact_uploaded_true|done].
  - rewrite fmap_cons. by apply NoDup_cons.
  - intros r [->|Hr]%elem_of_cons; [done|]. intros Hr'. apply (Hfresh r Hr), elem_of_union. by right.
  - constructor; [|done]. destruct (artifact_contract c (ca_role x)); [by eexists|done].
  - intros r. rewrite Hroles, elem_of_union, elem_of_singleton, fmap_cons, elem_of_cons. tauto.
Qed.

Definition accepted_db (now : time) (i : uuid) (a : Attempt) (j : Job) (db : DB) : DB :=
  db <| jobs := <[a_job a := finalizing now j]> (jobs db) |>
     <| attempts := <[i := delivered now a]> (attempts db) |>.

(** Completion is accepted only with every required artifact uploaded
    for this very attempt, with its declared role, size and digest; the
    first acceptance needs the current claim, an unexpired lease and no
    cancellation, moves the job to finalizing and its attempt to delivered,
    and a repetition after delivery is accepted without any change.  Every
    other outcome leaves the tables alone. *)
Theorem completion_delivers_a_held_claim s now w session claim completed db r db' :
  complete_claim s hex_decode now w session claim completed db = (r, db') →
  (db' ≠ db ∨ ∃ k, r = Ok (Accepted k)) →
  ∃ i a j, attempts db !! i = Some a ∧ jobs db !! a_job a = Some j ∧ a_claim a = claim
    ∧ a_session a = session ∧ delivers (j_operation j) i claim db completed
    ∧ ((holds_claim now w session claim db i a j ∧ j_cancellation_requested j = false
        ∧ db' = accepted_db now i a j db)
       ∨ (a_state a = ADelivered ∧ j_state j ≠ Running ∧ db' = db)).
Proof.
  intros H. cut ((db' = db ∧ ∀ k, r ≠ Ok (Accepted k)) ∨
    ∃ i a j, attempts db !! i = Some a ∧ jobs db !! a_job a = Some j ∧ a_claim a = claim
      ∧ a_session a = session ∧ delivers (j_operation j) i claim db completed
      ∧ ((holds_claim now w session claim db i a j ∧ j_cancellation_requested j = false
          ∧ db' = accepted_db now i a j db)
         ∨ (a_state a = ADelivered ∧ j_state j ≠ Running ∧ db' = db))).
  { intros [[-> Hn]|?] Hc; [|done]. destruct Hc as [?|[k ?]]; [done|by destruct (Hn k)]. }
  revert H. unfold complete_claim. case_bool_decide; [intros [= <- <-]; by left|].
  intros H1. tx_start H1; [by left|]. wp_step. wp_step; [by left|].
  destruct (claim_row w session claim db) as [[i a j]|] eqn:Hrow; [|wp_step; by left].
  apply claim_row_Some in Hrow as (Ha & Hj & Hc & Hs & Hw).
  set (replay := bool_decide (a_state a = ADelivered) && _).
  destruct (j_cancellation_requested j && negb replay) eqn:Hcan; [wp_step; by left|].
  destruct (negb replay && _) eqn:Hg; [wp_step; by left|]. wp_step; [wp_step; by left|].
  wp_step. eapply wp_mono; [|intros ? HE; exact HE|]; [apply check_completed_spec; by left|].
  intros roles ? n (-> & Hall & Hnd & _ & Hdecl & Hroles). cbn beta.
  destruct (missing_required _ roles) eqn:Hm; [wp_step; by left|].
  assert (delivers (j_operation j) i claim db completed) as Hdel.
  { split_and!; [done..|]. intros ac Hac Hreq. unfold missing_required in Hm.
    destruct (decide (ac_role ac ∈ roles)) as [Hr|Hr]; [by apply Hroles in Hr as [?%elem_of_empty|?]|].
    apply not_true_iff_false in Hm. destruct Hm. apply existsb_exists. exists ac.
    split; [by apply list_elem_of_In|]. by rewrite Hreq, bool_decide_false. }
  destruct replay eqn:Hrep.
  - wp_step. unfold replay in Hrep.
    apply andb_true_iff in Hrep as [Hd%bool_decide_eq_true Hst%bool_decide_eq_true].
    assert (j_state j ≠ Running) by (intros E; rewrite E in Hst; naive_solver).
    split; right; exists i, a, j; split_and!; auto.
  - cbn in Hg. passed Hg. rewrite andb_true_r in Hcan.
    do 2 (wp_step; wp_step; [by left|]). wp_step. rewrite (claim_updates _ _ _ _ _ _ _ Hj Ha).
    assert (holds_claim now w session claim db i a j) as Hheld by (by split).
    split; right; exists i, a, j; split_and!; auto.
Qed.
End completion.

(** ** Failure and release *)

Definition ended_db (now : time) (failure : option ReportedFailure) (i : uuid) (a : Attempt)
    (j : Job) (db : DB) : DB :=
  let next := state_after_claim failure j in
  let next_at := if bool_decide (next = Queued) then now + processing_retry_delay (j_attempt_count j)
                 else now in
  db <| jobs := <[a_job a := ended_job now next next_at failure j]> (jobs db) |>
     <| attempts := <[i := ended_attempt now failure a]> (attempts db) |>.

(** A worker's failure report or release ends only a claim it holds; the
    job is then cancelled if that was requested, queued again after the retry
    delay when the failure is retryable and attempts remain, and failed
    otherwise.  A report on an attempt that already ended so is answered with
    the job's state and changes nothing; any other outcome changes nothing. *)
Theorem failed_claim_is_requeued_or_closed s now w session claim failure db r db' :
  mutate_failed_claim s now w session claim failure db = (r, db') →
  db' ≠ db ∨ (∃ k st, r = Ok (Updated k st)) →
  ∃ i a j, attempts db !! i = Some a ∧ jobs db !! a_job a = Some j ∧ a_claim a = claim
    ∧ ((holds_claim now w session claim db i a j ∧ db' = ended_db now failure i a j db
        ∧ (∀ k st, r = Ok (Updated k st) → k = a_job a ∧ st = state_after_claim failure j))
       ∨ ((a_state a = AFailed ∨ a_state a = AReleased) ∧ db' = db
          ∧ r = Ok (Updated (a_job a) (j_state j)))).
Proof.
  intros H. cut ((db' = db ∧ ∀ k st, r ≠ Ok (Updated k st)) ∨
    ∃ i a j, attempts db !! i = Some a ∧ jobs db !! a_job a = Some j ∧ a_claim a = claim
      ∧ ((holds_claim now w session claim db i a j ∧ db' = ended_db now failure i a j db
          ∧ (∀ k st, r = Ok (Updated k st) → k = a_job a ∧ st = state_after_claim failure j))
         ∨ ((a_state a = AFailed ∨ a_state a = AReleased) ∧ db' = db
            ∧ r = Ok (Updated (a_job a) (j_state j))))).
  { intros [[-> Hn]|?] Hc; [|done]. destruct Hc as [?|(k & st & ?)]; [done|by destruct (Hn k st)]. }
  unfold mutate_failed_claim in H. tx_start H; [by left|]. wp_step. wp_step; [by left|].
  destruct (claim_row w session claim db) as [[i a j]|] eqn:Hrow; [|wp_step; by left].
  apply claim_row_Some in Hrow as (Ha & Hj & Hc & Hs & Hw).
  case_bool_decide as Hended.
  { wp_step. split; [right; exists i, a, j; split_and!; auto|by left]. }
  case_match eqn:Hg; [wp_step; by left|]. passed Hg. cbv zeta.
  do 2 (wp_step; wp_step; [by left|]). wp_step. rewrite (claim_updates _ _ _ _ _ _ _ Hj Ha).
  assert (holds_claim now w session claim db i a j) as Hheld by (by split).
  split; right; exists i, a, j; (split_and!; [done..|]); left; (split_and!; [done..|]).
  - by intros ? ? [= <- <-].
  - done.
Qed.

(** ** Claiming *)

(** The new rows of a started claim. *)
Record started (now : time) (fresh : Fresh) (session : uuid) (config : ProcessingConfig)
    (op : ProcessingOperation) (contract_id : text) (c : Candidate) (db db' : DB) : Prop := {
  st_job : jobs db' = <[cd_id c := claimed_job (j_attempt_count (cd_job c) + 1) (fresh_claim fresh)
                                     (now + claim_lease config) contract_id now (cd_job c)]> (jobs db);
  st_attempt : ∃ a, attempts db' = <[fresh_attempt fresh := a]> (attempts db)
    ∧ a_job a = cd_id c ∧ a_claim a = fresh_claim fresh ∧ a_session a = session
    ∧ a_state a = ARunning ∧ a_contract a = contract_id
    ∧ a_lease_expires_at a = now + claim_lease config;
  st_sessions : sessions db' = sessions db;
  st_processors : processors db' = processors db;
}.

(** The job is claimable and no claimable job with a stored input is older. *)
Definition oldest_claimable (op : ProcessingOperation) (now : time) (db : DB) (c : Candidate) : Prop :=
  jobs db !! cd_id c = Some (cd_job c) ∧ claimable op now (cd_job c) = true
  ∧ ∀ k j b, jobs db !! k = Some j → claimable op now j = true → j_input_blob j = Some b →
             is_Some (blobs db !! b) → j_created_at (cd_job c) ≤ j_created_at j.

Lemma next_candidate_oldest op now db c : next_candidate op now db = Some c → oldest_claimable op now db c.
Proof.
  intros Hc. pose proof Hc as (Hj & Hcl & _)%next_candidate_Some. split_and!; [done..|].
  intros k j b Hk Hclj Hb [bl Hbl]. unfold next_candidate in Hc.
  apply order_by_head_le in Hc as [_ Hmin]. apply (Hmin (MkCandidate k j b bl)).
  apply list_elem_of_omap. exists (k, j). split; [by apply elem_of_map_to_list|].
    cbn. rewrite Hb. cbn. rewrite Hbl. cbn. by rewrite Hclj.
Qed.

Lemma start_attempt_spec s sha256 now fresh session op contract_id c config db
    (E : result ClaimError (option WorkerClaim) → Prop) n :
  (∀ e, E (Err e)) → Inv db → jobs db !! cd_id c = Some (cd_job c) → j_state (cd_job c) = Queued →
  wp (start_attempt s sha256 now fresh session op contract_id c config) E
     (λ r db' _, started now fresh session config op contract_id c db db'
        ∧ ∃ reply, r = Ok (Some reply) ∧ wc_job reply = cd_id c ∧ wc_claim reply = fresh_claim fresh
                   ∧ wc_lease_expires_at reply = now + claim_lease config) db n.
Proof.
  intros HE HI Hj Hs. unfold start_attempt, not_null. cbv zeta.
  destruct (j_input_schema (cd_job c)) as [schema|]; [|apply wp_early, HE].
  destruct (attempt_count_succ _ (ok_wf _ _ _ HI _ _ Hj) Hs) as [Hsucc _]. rewrite Hsucc.
  wp_step. apply wp_exec; [intros; apply HE|]. intros [] db1 (_ & -> & _)%insert_attempt_Ok.
  wp_step. wp_step; [intros; apply HE|]. wp_step. unfold issue_transfer. wp_step.
  apply wp_exec; [intros; apply HE|]. intros [] db2 Hins. do 2 wp_step.
  split; [|by eexists].
  assert (jobs db2 = <[cd_id c := claimed_job (j_attempt_count (cd_job c) + 1) (fresh_claim fresh)
            (now + claim_lease config) contract_id now (cd_job c)]> (jobs db)
          ∧ attempts db2 = <[fresh_attempt fresh := MkAttempt (cd_id c) (j_attempt_count (cd_job c) + 1)
              (fresh_claim fresh) session contract_id ARunning Processing (now + claim_lease config)
              (MkLimits (job_wall_seconds config) (max_output_bytes config) (max_diagnostic_bytes config))
              None None None now now None]> (attempts db)
          ∧ sessions db2 = sessions db ∧ processors db2 = processors db) as (H1 & H2 & H3 & H4).
  { revert Hins. unfold insert_transfer. destruct (insert_row _ _ _); simpl; [|done].
    repeat case_match; intros Hins; simplify_eq; (split_and!; [|done..]); unfold update_job; cbn;
      by apply alter_as_insert. }
  split; [done| |done|done]. eexists. split; [exact H2|]. done.
Qed.

Lemma find_processor_Some session key db p :
  find_processor key (processors_of_session session db) = Some p →
  processors db !! (session, key) = Some p.
Proof.
  unfold find_processor. intros ([key' p'] & Hh & ->)%fmap_Some_1.
  apply head_Some_elem_of, list_elem_of_filter in Hh as [Hk%bool_decide_eq_true Hin]. cbn in Hk. subst.
  unfold processors_of_session in Hin. apply list_elem_of_omap in Hin as ([[s k] q] & Hin & Hb).
  apply elem_of_map_to_list in Hin. cbn in Hb. case_bool_decide; [|done]. by simplify_eq.
Qed.

Lemma started_capacity now fresh session config op contract_id c db db' slots :
  started now fresh session config op contract_id c db db' →
  jobs db !! cd_id c = Some (cd_job c) →
  active_attempts session (op, contract_id) now db < slots →
  active_attempts session (op, contract_id) now db' ≤ slots.
Proof.
  intros [Hj (a & Ha & _) _ _] Hc Hlt. unfold active_attempts in *. rewrite Ha.
  etrans; [apply count_insert_le|].
  enough (count (λ (_ : uuid) a0, bool_decide (a_session a0 = session ∧ a_contract a0 = contract_id
        ∧ a_state a0 = ARunning ∧ now < a_lease_expires_at a0)
      && match jobs db' !! a_job a0 with Some j => bool_decide (j_operation j = op) | None => false end)
      (attempts db) ≤ count (λ (_ : uuid) a0, bool_decide (a_session a0 = session ∧ a_contract a0 = contract_id
        ∧ a_state a0 = ARunning ∧ now < a_lease_expires_at a0)
      && match jobs db !! a_job a0 with Some j => bool_decide (j_operation j = op) | None => false end)
      (attempts db)) by (cbn in *; lia).
  apply count_le. intros k v Hv [H1 H2]%andb_true_iff. exists v. split; [done|].
  apply andb_true_iff. split; [done|]. rewrite Hj, lookup_insert in H2. case_decide as Heq; [|done].
  rewrite <-Heq, Hc. exact H2.
Qed.

(** What a reply with a claim says of the database it was made on. *)
Definition claim_taken (now : time) (fresh : Fresh) (w : AuthenticatedWorker) (session : uuid)
    (config : ProcessingConfig) (reply : WorkerClaim) (db db' : DB) : Prop :=
  ∃ op contract_id c p,
    approves w op contract_id = true
    ∧ processors db !! (session, (op, contract_id)) = Some p ∧ p_healthy p = true
    ∧ oldest_claimable op now db c
    ∧ started now fresh session config op contract_id c db db'
    ∧ wc_job reply = cd_id c ∧ wc_claim reply = fresh_claim fresh
    ∧ wc_lease_expires_at reply = now + claim_lease config
    ∧ active_attempts session (op, contract_id) now db' ≤ p_slots p.

Lemma try_offers_spec s sha256 now fresh w session config offers db n :
  Inv db →
  wp (try_offers s sha256 now fresh w session (processors_of_session session db) config offers)
     (λ r, ∀ reply, r ≠ Ok (Some reply))
     (λ r db' _, ∀ reply, r = Ok (Some reply) → claim_taken now fresh w session config reply db db') db n.
Proof.
  intros HI. induction offers as [|o offers IH] in n |- *; cbn [try_offers].
  { wp_step. done. }
  wp_step; [by wp_step|]. wp_step; [|by wp_step]. wp_step; [by wp_step|]. wp_step; [apply IH|].
  wp_step. wp_step. wp_step; [apply IH|]. wp_step. wp_step. wp_step; [|apply IH].
  unfold not_null. wp_step; [|by wp_step].
  pose proof (next_candidate_oldest _ _ _ _ Heqo1) as Hold.
  apply next_candidate_Some in Heqo1 as (Hj & Hc%claimable_true & _).
  wp_step. wp_step. wp_step; [by wp_steps|].
  eapply wp_mono; [apply (start_attempt_spec _ _ _ _ _ _ _ _ _ _ (λ r, ∀ reply, r ≠ Ok (Some reply)))|done|].
  { by intros. } { done. } { done. } { by destruct Hc as (_ & ? & _). }
  intros r db' _ (Hst & reply' & -> & H1 & H2 & H3) reply [= <-].
  apply negb_false_iff in Heqb, Heqb1. apply Z.leb_gt in Heqb2.
  exists (of_operation o), (of_processor_contract o), c, p. split_and!; try done.
  - by apply find_processor_Some.
  - by eapply started_capacity.
Qed.

(** A session is handed a claim only while it is active and unexpired, for
    a processor it registered, that is healthy and that its identity is
    approved for, and only if fewer attempts run on that processor than it has
    slots; the claim is on the oldest claimable job of the operation, starts
    one attempt under a lease of the configured length, and leaves the
    processor within its slots. *)
Theorem claims_take_the_oldest_job_within_capacity s sha256 now fresh w session offers config db reply db' :
  Inv db →
  try_claim s sha256 now fresh w session offers config db = (Ok (Some reply), db') →
  (∃ sn, sessions db !! session = Some sn ∧ s_worker_identity sn = identity w ∧ s_state sn = SActive
         ∧ now < s_expires_at sn)
  ∧ claim_taken now fresh w session config reply db db'.
Proof.
  intros HI H. set (r := Ok (Some reply)) in H.
  assert (∀ reply, r = Ok (Some reply) →
    (∃ sn, sessions db !! session = Some sn ∧ s_worker_identity sn = identity w ∧ s_state sn = SActive
         ∧ now < s_expires_at sn) ∧ claim_taken now fresh w session config reply db db') as Hcut; [|by apply Hcut].
  clearbody r. unfold try_claim in H. tx_start H; [done|].
  wp_step. wp_step. destruct (worker_session w session db) as [sn|] eqn:Hws; [|by wp_step].
  unfold worker_session in Hws. destruct (sessions db !! session) as [sn'|] eqn:Hsn; cbn in Hws; [|done].
  case_bool_decide as Hw; simplify_eq. wp_step; [by wp_step|]. passed Heqb. wp_step. wp_step.
  eapply wp_mono; [by apply try_offers_spec|by intros ? Hr reply' Heq; destruct (Hr reply' Heq)|].
  intros r' db2 n2 Hr. split; [|done]. intros reply' Heq. split; [|by apply Hr]. exists sn. by split_and!.
Qed.

(** ** Witnesses *)

Definition beat : result ClaimError ClaimHeartbeatResponse * DB :=
  heartbeat_claim healthy 5 sample_worker 50%N 61%N UploadingResult sample_config running_db.

Theorem heartbeat_extends_only_a_held_claim_witness :
  ∃ i a j lease, holds_claim 5 sample_worker 50%N 61%N running_db i a j
    ∧ beat.2 = beaten 5 UploadingResult lease i a j running_db
    ∧ lease = (if j_cancellation_requested j then Z.min (a_lease_expires_at a) (5 + seconds 10)
               else 5 + claim_lease sample_config).
Proof.
  eapply (heartbeat_extends_only_a_held_claim healthy 5 sample_worker 50%N 61%N UploadingResult
    sample_config running_db beat.1 beat.2); [reflexivity|].
  right. eexists. split; [vm_compute; reflexivity|left; reflexivity].
Defined.

Definition ready_db : DB := Eval vm_compute in sample_run (take 2 sample_finish) running_db.
Definition completion : complete_result * DB :=
  complete_claim healthy sample_hex 6 sample_worker 50%N 61%N
    [MkCompleted 63%N (lit "pdf") 14 (sample_sha256 sample_pdf)] ready_db.

Theorem completion_delivers_a_held_claim_witness :
  ∃ i a j, attempts ready_db !! i = Some a ∧ jobs ready_db !! a_job a = Some j ∧ a_claim a = 61%N
    ∧ a_session a = 50%N
    ∧ delivers sample_hex (j_operation j) i 61%N ready_db
        [MkCompleted 63%N (lit "pdf") 14 (sample_sha256 sample_pdf)]
    ∧ ((holds_claim 6 sample_worker 50%N 61%N ready_db i a j ∧ j_cancellation_requested j = false
        ∧ completion.2 = accepted_db 6 i a j ready_db)
       ∨ (a_state a = ADelivered ∧ j_state j ≠ Running ∧ completion.2 = ready_db)).
Proof.
  eapply (completion_delivers_a_held_claim sample_hex healthy 6 sample_worker 50%N 61%N _ ready_db
    completion.1 completion.2); [reflexivity|].
  right. eexists. vm_compute. reflexivity.
Defined.

Definition release : result ClaimError ClaimMutationOutcome * DB :=
  mutate_failed_claim healthy 5 sample_worker 50%N 61%N None running_db.

Theorem failed_claim_is_requeued_or_closed_witness :
  ∃ i a j, attempts running_db !! i = Some a ∧ jobs running_db !! a_job a = Some j ∧ a_claim a = 61%N
    ∧ ((holds_claim 5 sample_worker 50%N 61%N running_db i a j ∧ release.2 = ended_db 5 None i a j running_db
        ∧ (∀ k st, release.1 = Ok (Updated k st) → k = a_job a ∧ st = state_after_claim None j))
       ∨ ((a_state a = AFailed ∨ a_state a = AReleased) ∧ release.2 = running_db
          ∧ release.1 = Ok (Updated (a_job a) (j_state j)))).
Proof.
  eapply (failed_claim_is_requeued_or_closed healthy 5 sample_worker 50%N 61%N None running_db
    release.1 release.2); [reflexivity|].
  right. eexists _, _. vm_compute. reflexivity.
Defined.

Definition queued_db : DB := Eval vm_compute in sample_run sample_queue empty_db.
Definition claiming : result ClaimError (option WorkerClaim) * DB :=
  try_claim healthy sample_sha256 3 (MkFresh 60%N 61%N 62%N (lit "t")) sample_worker 50%N
    [MkOffer LatexCompilePdfV1 sample_contract 1] sample_config queued_db.

Lemma queued_Inv : Inv queued_db.
Proof.
  change queued_db with (sample_run sample_queue empty_db).
  apply run_ops_Inv; [apply sample_provisions|apply Inv_empty].
Qed.

Theorem claims_take_the_oldest_job_within_capacity_witness :
  ∃ reply, claim_taken 3 (MkFresh 60%N 61%N 62%N (lit "t")) sample_worker 50%N sample_config reply
             queued_db claiming.2.
Proof.
  destruct claiming as [[[reply|]|e] db'] eqn:Hc;
    [|exfalso; vm_compute in Hc; discriminate..].
  exists reply.
  apply (claims_take_the_oldest_job_within_capacity healthy sample_sha256 3
    (MkFresh 60%N 61%N 62%N (lit "t")) sample_worker 50%N
    [MkOffer LatexCompilePdfV1 sample_contract 1] sample_config queued_db reply db' queued_Inv Hc).
Defined.
