(* ===== verification/ProcessingFinalization.v ===== *)
(** * Document processing: the finalizer

    [finalize_one] composes the lease, the staged artifacts, their validation
    and the publication, and the theorems say what a published job guarantees:
    its artifacts satisfy the operation's contract and only the holder of the
    current finalization token publishes. *)
From S2P Require Import Prelude Store Text Paths ProcessingModel ProcessingAdmission.
From S2P Require Import ProcessingClaims ProcessingRequests.
From S2P Require Import ProcessingMaintenance ProcessingInvariant Bundles ProcessingPublication.
From S2P Require Import ProcessingSteps ProcessingTheorems.

Open Scope Z_scope.

Section finalizer.
Context (sha256 : bytes → bytes) (json_parse : bytes → option Value).
Context (pptx_ok : bytes → Z → bool) (bundle_ok : bytes → Z → option ValidatedWorkspaceBundle).
Context (access : FinalizationLease → DB → AccessCheck).
(** The staging of the imported assets and the project's provisioning. *)
Context (stage_assets : ValidatedWorkspaceBundle → option sqlx_error).
Context (provision : schedule → uuid → Tx DB (result sqlx_error bool) unit).

(** One pass of the loop of [spawn_processing_maintenance]; [ss] gives the
    server's schedule for each of its transactions and [fresh] the random
    identifiers of the artifacts. *)
Definition finalize_one (ss : nat → schedule) (acquired published : time) (token project_id : uuid)
    (fresh : nat → uuid) (config : ProcessingConfig) (db : DB) : result sqlx_error bool * DB :=
  match acquire_finalization_lease (ss 0%nat) acquired token config db with
  | (Err e, db) => (Err e, db)
  | (Ok None, db) => (Ok false, db)
  | (Ok (Some lease), db) =>
      match autocommit (ss 1%nat) 0 (λ db, (λ staged, (staged, db)) <$> load_staged_artifacts lease db) db with
      | (Err e, db) => (Err e, db)
      | (Ok staged, db) =>
          let named := imap (λ i a, (fresh i, a)) staged in
          match validate_finalization sha256 json_parse pptx_ok bundle_ok (access lease db) lease
                  staged config with
          | Ok ValidArtifacts =>
              let '(r, db) := publish_artifacts (ss 2%nat) published lease named db in
              ((λ _, true) <$> r, db)
          | Ok (ValidWorkspace bundle project_name) =>
              match stage_assets bundle with
              | Some e => (Err e, db)
              | None =>
                  let '(r, db) := publish_workspace (ss 2%nat) published lease project_id
                                    (provision (ss 2%nat) project_id) named db in
                  ((λ _, true) <$> r, db)
              end
          | Err (Rejected failure) =>
              let '(r, db) := reject_artifacts (ss 2%nat) published lease failure db in
              ((λ _, true) <$> r, db)
          | Err CheckUnavailable =>
              (Err (Protocol "project authorization unavailable"), db)
          end
      end
  end.
End finalizer.

(** ** What validation guarantees *)

Section contract.
Context (sha256 : bytes → bytes) (json_parse : bytes → option Value).
Context (pptx_ok : bytes → Z → bool) (bundle_ok : bytes → Z → option ValidatedWorkspaceBundle).

(** The artifact is one the operation declares, within its limits, and its
    recorded size and digest are those of its content. *)
Record conforms (config : ProcessingConfig) (c : OperationContract) (a : StagedArtifact) : Prop := {
  conforms_declared : ∃ ac, artifact_contract c (st_role a) = Some ac
    ∧ st_media_type a = ac_media_type ac
    ∧ ends_with (ac_filename_suffix ac) (st_filename a) = true
    ∧ st_size_bytes a ≤ match ac_size_class ac with
                        | Output => max_output_bytes config
                        | Diagnostic => max_diagnostic_bytes config
                        end;
  conforms_size : 0 < st_size_bytes a ∧ st_size_bytes a = len_i64 (st_content a);
  conforms_digest : st_sha256 a = sha256 (st_content a);
}.

Definition satisfies_contract (config : ProcessingConfig) (c : OperationContract)
    (staged : list StagedArtifact) : Prop :=
  Forall (conforms config c) staged ∧ NoDup (st_role <$> staged)
  ∧ ∀ ac, ac ∈ oc_artifacts c → ac_required ac = true → ac_role ac ∈ st_role <$> staged.

Lemma artifact_conforms_true config c ac a :
  artifact_contract c (st_role a) = Some ac → artifact_conforms sha256 config ac a = true →
  conforms config c a.
Proof.
  unfold artifact_conforms. rewrite !andb_true_iff.
  intros Hc [[[[[Hs%Z.eqb_eq Hd%bool_decide_eq_true] Hp%Z.ltb_lt] Hm%Z.leb_le]
               Ht%text_eqb_true] Hf].
  split; [exists ac; by split_and!|by split|done].
Qed.

Lemma check_staged_Some config c roles staged roles' :
  check_staged sha256 config c roles staged = Some roles' →
  Forall (conforms config c) staged ∧ NoDup (st_role <$> staged)
  ∧ (∀ r, r ∈ st_role <$> staged → r ∉ roles)
  ∧ ∀ r, r ∈ roles' ↔ r ∈ roles ∨ r ∈ st_role <$> staged.
Proof.
  induction staged as [|a staged IH] in roles |- *; cbn [check_staged].
  { intros [= <-]. split_and!; try constructor; set_solver. }
  destruct (artifact_contract c (st_role a)) as [ac|] eqn:Hc; cbn; [|done].
  destruct (artifact_conforms sha256 config ac a) eqn:Hok; cbn; [|done].
  case_bool_decide as Hin; cbn; [done|].
  intros (Hall & Hnd & Hfresh & Hroles)%IH. split_and!.
  - constructor; [by eapply artifact_conforms_true|done].
  - apply NoDup_cons. split; [|done]. intros Hr%Hfresh. set_solver.
  - set_solver.
  - set_solver.
Qed.

Lemma missing_required_false c roles :
  missing_required c roles = false →
  ∀ ac, ac ∈ oc_artifacts c → ac_required ac = true → ac_role ac ∈ roles.
Proof.
  unfold missing_required. intros H ac Hac Hreq.
  destruct (decide (ac_role ac ∈ roles)) as [|Hn]; [done|]. exfalso.
  apply not_true_iff_false in H. apply H, existsb_exists. exists ac.
  split; [by apply list_elem_of_In|]. by rewrite Hreq, bool_decide_false.
Qed.

Lemma validate_finalization_contract access lease staged config v :
  validate_finalization sha256 json_parse pptx_ok bundle_ok access lease staged config = Ok v →
  satisfies_contract config (contract (fl_operation lease)) staged
  ∧ (is_Some (fl_project lease) → access = Granted)
  ∧ validate_content json_parse pptx_ok bundle_ok lease (contract (fl_operation lease)) staged
      (u64_saturating_mul (max_output_bytes config) 4) = Ok v.
Proof.
  unfold validate_finalization.
  destruct (check_staged sha256 config (contract (fl_operation lease)) ∅ staged) as [roles|] eqn:Hs;
    [|by destruct (fl_project lease), access].
  destruct (missing_required (contract (fl_operation lease)) roles) eqn:Hm;
    [by destruct (fl_project lease), access|].
  intros Hv. apply check_staged_Some in Hs as (Hall & Hnd & _ & Hroles).
  assert (satisfies_contract config (contract (fl_operation lease)) staged) as Hsat.
  { split_and!; try done. intros ac Hac Hreq.
    pose proof (missing_required_false _ _ Hm ac Hac Hreq). set_solver. }
  split; [done|]. destruct (fl_project lease), access; try done; (split; [|exact Hv]); by intros [? ?].
Qed.
End contract.

(** ** What validation of the content guarantees *)

Section content.
Context (json_parse : bytes → option Value).
Context (pptx_ok : bytes → Z → bool) (bundle_ok : bytes → Z → option ValidatedWorkspaceBundle).

Definition has_role (staged : list StagedArtifact) (role : text) (P : bytes → Prop) : Prop :=
  ∃ a, a ∈ staged ∧ st_role a = role ∧ P (st_content a).

Definition reports (staged : list StagedArtifact) (schema : text) : Prop :=
  has_role staged (lit "report")
    (λ c, ∃ v, json_parse c = Some v ∧ get_str (lit "schema") v = Some schema).

(** The content rules of each operation. *)
Definition content_valid (lease : FinalizationLease) (limit : Z) (staged : list StagedArtifact)
    (v : ValidatedFinalization) : Prop :=
  match fl_operation lease with
  | LatexCompilePdfV1 =>
      v = ValidArtifacts ∧ has_role staged (lit "pdf") (λ c, valid_pdf c = true)
      ∧ ∀ a, a ∈ staged → st_role a = lit "log" → is_Some (from_utf8 (st_content a))
  | TypstExportPptxV1 =>
      v = ValidArtifacts ∧ has_role staged (lit "pptx") (λ c, pptx_ok c limit = true)
      ∧ reports staged (lit "pptx-export-report/v1")
  | PptxImportTypstV1 =>
      ∃ bundle raw name,
        v = ValidWorkspace bundle name
        ∧ has_role staged (lit "workspace") (λ c, bundle_ok c limit = Some bundle)
        ∧ reports staged (lit "pptx-import-report/v1")
        ∧ get_str (lit "project_name") (fl_normalized_options lease) = Some raw
        ∧ parse_project_name raw = Ok name
  end.

Lemma staged_role_Some role staged a :
  staged_role role staged = Some a → a ∈ staged ∧ st_role a = role.
Proof.
  unfold staged_role. intros [Hr Hin]%head_Some_elem_of%list_elem_of_filter.
  split; [done|by apply text_eqb_true].
Qed.

Lemma staged_role_unique staged a :
  NoDup (st_role <$> staged) → a ∈ staged → staged_role (st_role a) staged = Some a.
Proof.
  unfold staged_role. induction staged as [|b staged IH]; intros Hnd Hin; [by apply elem_of_nil in Hin|].
  rewrite fmap_cons in Hnd. apply NoDup_cons in Hnd as [Hb Hnd].
  rewrite filter_cons. apply elem_of_cons in Hin as [->|Hin].
  - rewrite decide_True; [done|]. unfold text_eqb. by apply bool_decide_eq_true.
  - rewrite decide_False; [by apply IH|]. intros He%text_eqb_true. apply Hb. rewrite He.
    by apply list_elem_of_fmap_2.
Qed.

Lemma staged_role_has role staged (P : bytes → Prop) a :
  staged_role role staged = Some a → P (st_content a) → has_role staged role P.
Proof. intros [? ?]%staged_role_Some ?. by exists a. Qed.

Lemma validate_report_true staged schema : validate_report json_parse staged schema = true → reports staged schema.
Proof.
  unfold validate_report. destruct (staged_role (lit "report") staged) as [a|] eqn:Ha; cbn; [|done].
  destruct (json_parse (st_content a)) as [v|] eqn:Hv; [|done]. intros Hs%bool_decide_eq_true.
  eapply staged_role_has; [done|]. by exists v.
Qed.

Lemma validate_content_valid lease staged limit v :
  NoDup (st_role <$> staged) →
  validate_content json_parse pptx_ok bundle_ok lease (contract (fl_operation lease)) staged limit = Ok v →
  content_valid lease limit staged v.
Proof.
  intros Hnd. unfold validate_content, content_valid. destruct (fl_operation lease); cbn [contract oc_finalization].
  - destruct (staged_role (lit "pdf") staged) as [a|] eqn:Ha; cbn [from_option negb]; [|done].
    destruct (valid_pdf (st_content a)) eqn:Hp; cbn [from_option negb]; [|done].
    destruct (from_option (λ a, bool_decide (from_utf8 (st_content a) = None)) false
                (staged_role (lit "log") staged)) eqn:Hl; [done|]. intros [= <-].
    split; [done|]. split; [exact (staged_role_has _ _ (λ c, valid_pdf c = true) a Ha Hp)|].
    intros b Hb Hrole.
    apply (staged_role_unique _ _ Hnd) in Hb. rewrite Hrole in Hb. rewrite Hb in Hl. cbn in Hl.
    apply bool_decide_eq_false in Hl. by destruct (from_utf8 (st_content b)).
  - destruct (staged_role (lit "pptx") staged) as [a|] eqn:Ha; cbn; [|done].
    destruct (pptx_ok (st_content a) limit) eqn:Hp; cbn; [|done].
    destruct (validate_report _ _ _) eqn:Hr; cbn; [|done]. intros [= <-].
    split; [done|]. split; [exact (staged_role_has _ _ (λ c, pptx_ok c limit = true) a Ha Hp)|].
    by apply validate_report_true.
  - destruct (staged_role (lit "workspace") staged) as [a|] eqn:Ha; cbn; [|done].
    destruct (bundle_ok (st_content a) limit) as [bundle|] eqn:Hb; cbn; [|done].
    destruct (validate_report _ _ _) eqn:Hr; cbn; [|done].
    destruct (get_str _ _) as [raw|] eqn:Hg; cbn; [|done].
    destruct (parse_project_name raw) as [name|] eqn:Hn; [|done]. intros [= <-].
    exists bundle, raw, name. split_and!; try done; [|by apply validate_report_true].
    exact (staged_role_has _ _ (λ c, bundle_ok c limit = Some bundle) a Ha Hb).
Qed.
End content.

(** ** What publication writes *)

(** The artifact row that [publish_staged_artifacts] inserts. *)
Definition artifact_row (k : uuid) (now : time) (a : StagedArtifact) : Artifact :=
  MkArtifact k (st_blob_id a) (st_role a) (st_media_type a) (st_filename a) (st_size_bytes a)
    (st_sha256 a) now.

(** The artifacts of job [k] are exactly the named ones. *)
Definition holds_artifacts (k : uuid) (now : time) (named : list (uuid * StagedArtifact)) (db : DB) : Prop :=
  (∀ i a, (i, a) ∈ named → artifacts db !! i = Some (artifact_row k now a))
  ∧ ∀ i f, artifacts db !! i = Some f → f_job f = k → ∃ a, (i, a) ∈ named ∧ f = artifact_row k now a.

Lemma insert_artifact_holds i k now a pre db db' :
  holds_artifacts k now pre db → st_role a ∉ st_role <$> pre.*2 →
  insert_artifact i k now a db = Ok ((), db') →
  holds_artifacts k now (pre ++ [(i, a)]) db' ∧ jobs db' = jobs db.
Proof.
  intros [Hin Honly] Hrole. unfold insert_artifact. destruct (exists_row _ _) eqn:Hex.
  { exfalso. apply exists_row_true in Hex as (i0 & f & Hf & [Hk Hr]%bool_decide_eq_true).
    destruct (Honly i0 f Hf Hk) as (a0 & Ha0 & ->). apply Hrole. cbn in Hr. rewrite <-Hr.
    rewrite <-list_fmap_compose. apply list_elem_of_fmap. by exists (i0, a0). }
  destruct (insert_row _ _ _) as [t|] eqn:Ht; simpl; [|done]. apply insert_row_Ok in Ht as [Hi ->].
  case_bool_decide; [|done]. intros [= <-]. split; [|done]. split; cbn.
  - intros i0 a0 [Ha0|Ha0]%elem_of_app.
    + rewrite lookup_insert_ne; [by apply Hin|]. intros <-. apply Hin in Ha0. congruence.
    + apply list_elem_of_singleton in Ha0 as [= -> ->]. by rewrite lookup_insert_eq.
  - intros i0 f [[<- <-]|[Hne Hf]]%lookup_insert_Some Hk.
    + exists a. split; [set_solver|done].
    + destruct (Honly i0 f Hf Hk) as (a0 & ? & ?). exists a0. split; [set_solver|done].
Qed.

Lemma publish_staged_holds {R} s (fail : sqlx_error → R) k named now db0 n :
  (∀ i f, artifacts db0 !! i = Some f → f_job f ≠ k) → NoDup (st_role <$> named.*2) →
  wp (publish_staged_artifacts s fail k named now) (λ _, True)
     (λ _ db' _, holds_artifacts k now named db' ∧ jobs db' = jobs db0) db0 n.
Proof.
  intros Hnone Hnd. unfold publish_staged_artifacts.
  eapply wp_mono; [apply (wp_for _ _ (λ _, True) (λ l db, ∃ pre, named = pre ++ l
    ∧ holds_artifacts k now pre db ∧ jobs db = jobs db0))|done|].
  - exists []. split; [done|]. split; [|done]. split; [set_solver|].
    intros i f Hf Hk. by destruct (Hnone i f Hf).
  - intros [i a] l db n' (pre & -> & Hh & Hj). wp_step. apply wp_exec; [done|]. intros [] db1 Hins.
    rewrite fmap_app, fmap_app, fmap_cons, fmap_cons in Hnd.
    apply NoDup_app in Hnd as (_ & Hdisj & _).
    destruct (insert_artifact_holds i k now a pre db db1 Hh) as [Hh1 Hj1]; [|exact Hins|].
    { intros Hr. apply (Hdisj _ Hr). left. }
    assert (∃ pre', pre ++ (i, a) :: l = pre' ++ l ∧ holds_artifacts k now pre' db1 ∧ jobs db1 = jobs db0) as Hnext.
    { exists (pre ++ [(i, a)]). by rewrite <-app_assoc, Hj1. }
    by wp_steps.
  - intros _ db _ (pre & Hpre & Hh & Hj). rewrite app_nil_r in Hpre. by subst.
Qed.

(** The outcome of either publication: nothing, or the job succeeded under its
    current token with exactly the staged artifacts. *)
Definition published (now : time) (lease : FinalizationLease) (named : list (uuid * StagedArtifact))
    (f : Job → Job) (db db' : DB) : Prop :=
  lock_finalization lease now db = true
  ∧ ∃ j, jobs db !! fl_job_id lease = Some j
         ∧ jobs db' = <[fl_job_id lease := f j]> (jobs db)
         ∧ holds_artifacts (fl_job_id lease) now named db'.

Lemma no_artifacts_while_finalizing db lease now :
  Inv db → lock_finalization lease now db = true →
  ∃ j, jobs db !! fl_job_id lease = Some j ∧ j_state j = Finalizing
       ∧ j_finalization_token j = Some (fl_token lease)
       ∧ ∀ i f, artifacts db !! i = Some f → f_job f ≠ fl_job_id lease.
Proof.
  unfold lock_finalization. intros HI. destruct (jobs db !! fl_job_id lease) as [j|] eqn:Hj; [|done].
  intros [[Hs Ht]%bool_decide_eq_true _]%andb_true_iff. exists j. split_and!; [done..|].
  intros i f Hf Hk. destruct (ok_published _ _ _ HI i f Hf) as (j' & Hj' & Hs').
  rewrite Hk in Hj'. congruence.
Qed.

Lemma finish_job_published now lease named f db db1 affected db2 :
  jobs db1 = jobs db → holds_artifacts (fl_job_id lease) now named db1 →
  lock_finalization lease now db = true →
  finish_job lease f db1 = (affected, db2) → (affected =? 1) = true →
  published now lease named f db db2.
Proof.
  intros Hj Hh Hl. unfold finish_job. rewrite Hj.
  destruct (jobs db !! fl_job_id lease) as [j|] eqn:Hk; [|by intros [= <- <-]].
  destruct (holds_token lease j); intros [= <- <-] Haff; [|done].
  split; [done|]. exists j. split_and!; [done| |done]. unfold update_job. cbn.
  rewrite Hj. by apply alter_as_insert.
Qed.

Lemma publish_artifacts_published s now lease named db :
  Inv db → NoDup (st_role <$> named.*2) →
  (publish_artifacts s now lease named db).2 = db
  ∨ published now lease named (succeeded now) db (publish_artifacts s now lease named db).2.
Proof.
  intros HI Hnd.
  apply (transact_inv (λ db', db' = db ∨ published now lease named (succeeded now) db db')); [by left|].
  do 2 wp_step. wp_step; [by apply wp_rollback|]. apply negb_false_iff in Heqb.
  destruct (no_artifacts_while_finalizing _ _ _ HI Heqb) as (j & Hj & Hs & Ht & Hnone). wp_step.
  eapply wp_mono; [by apply publish_staged_holds|done|]. intros [] db1 n1 [Hh Hj1]. wp_step.
  apply wp_exec; [done|]. intros affected db2 [= Hq].
  wp_step; [|by apply wp_rollback]. wp_step. right. by eapply finish_job_published.
Qed.

Lemma publish_workspace_published s now lease project provision named db :
  provisions provision → Inv db → NoDup (st_role <$> named.*2) →
  let f := λ j, succeeded now j <| j_result_project := Some project |> in
  let r := publish_workspace s now lease project (provision s project) named db in
  r.2 = db ∨ published now lease named f db r.2.
Proof.
  intros Hprov HI Hnd f.
  apply (transact_inv (λ db', db' = db ∨ published now lease named f db db')); [by left|].
  do 2 wp_step. wp_step; [by apply wp_rollback|]. apply negb_false_iff in Heqb.
  destruct (no_artifacts_while_finalizing _ _ _ HI Heqb) as (j & Hj & Hs & Ht & Hnone). wp_step.
  eapply wp_mono; [apply Hprov|done|]. intros [] db0 n0 (Hj0 & _ & Hf0). wp_step.
  eapply wp_mono; [by apply publish_staged_holds; rewrite ?Hf0|done|]. intros [] db1 n1 [Hh Hj1]. wp_step.
  apply wp_exec; [done|]. intros affected db2 [= Hq].
  wp_step; [|by apply wp_rollback]. wp_step. right.
  eapply (finish_job_published _ _ _ _ db db1); [by rewrite Hj1|done..].
Qed.

(** The lease is on a job of the table; no job changes state. *)
Definition state_and_operation (db : DB) (k : uuid) : option (ProcessingJobState * ProcessingOperation) :=
  (λ j, (j_state j, j_operation j)) <$> jobs db !! k.

Lemma acquire_spec s now token config db r db' :
  acquire_finalization_lease s now token config db = (r, db') →
  (∀ k, state_and_operation db' k = state_and_operation db k) ∧
  ∀ lease, r = Ok (Some lease) →
    ∃ j, jobs db !! fl_job_id lease = Some j ∧ fl_operation lease = j_operation j
         ∧ fl_project lease = j_project j ∧ fl_token lease = token.
Proof.
  intros H. unfold acquire_finalization_lease in H. tx_start H; [by split|]. do 2 wp_step.
  destruct (next_finalizable now db) as [[k j]|] eqn:Hn; wp_steps.
  assert (jobs db !! k = Some j) as Hj.
  { unfold next_finalizable in Hn. by apply order_by_head_le in Hn as [[Hj _]%elem_of_select _]. }
  assert (∀ k', state_and_operation (update_job k (take_token token (now + finalization_lease config) now) db) k'
                = state_and_operation db k') as Hsame.
  { intros k'. unfold state_and_operation, update_job. cbn. rewrite lookup_alter.
    case_decide; [|done]. subst. by destruct (jobs db !! k'). }
  split; (split; [done|]); [|done]. intros lease [= <-]. exists j. by split_and!.
Qed.

(** The new token is in the job's row. *)
Lemma acquire_token s now token config db lease db' :
  acquire_finalization_lease s now token config db = (Ok (Some lease), db') →
  ∃ j, jobs db' !! fl_job_id lease = Some j ∧ j_finalization_token j = Some token.
Proof.
  cut (∀ r, acquire_finalization_lease s now token config db = (r, db') → ∀ lease, r = Ok (Some lease) →
         ∃ j, jobs db' !! fl_job_id lease = Some j ∧ j_finalization_token j = Some token); [eauto|].
  clear lease. intros r H. unfold acquire_finalization_lease in H. tx_start H; [done|]. do 2 wp_step.
  destruct (next_finalizable now db) as [[k j]|] eqn:Hn; wp_steps. split; [|done]. intros lease [= <-].
  unfold next_finalizable in Hn. apply order_by_head_le in Hn as [[Hj _]%elem_of_select _].
  exists (take_token token (now + finalization_lease config) now j). unfold update_job. cbn in Hj |- *.
  by rewrite lookup_alter_eq, Hj.
Qed.

Lemma reject_artifacts_state s now lease failure db k :
  (∀ j, jobs db !! k = Some j → j_state j ≠ Succeeded) →
  ∀ j', jobs (reject_artifacts s now lease failure db).2 !! k = Some j' → j_state j' ≠ Succeeded.
Proof.
  intros Hn. apply (autocommit_inv (λ db', ∀ j', jobs db' !! k = Some j' → j_state j' ≠ Succeeded)); [done|].
  intros [] db' [= <-]. case_match; [|done]. intros j'. unfold update_job. cbn. rewrite lookup_alter.
  case_decide; [|by apply Hn]. by intros (j & _ & ->)%fmap_Some_1.
Qed.

Section finalized.
Context (sha256 : bytes → bytes) (json_parse : bytes → option Value).
Context (pptx_ok : bytes → Z → bool) (bundle_ok : bytes → Z → option ValidatedWorkspaceBundle).
Context (access : FinalizationLease → DB → AccessCheck).
Context (stage_assets : ValidatedWorkspaceBundle → option sqlx_error).
Context (provision : schedule → uuid → Tx DB (result sqlx_error bool) unit).
Context (Hprov : provisions provision).

Abbreviation finalize := (finalize_one sha256 json_parse pptx_ok bundle_ok access stage_assets provision).

(** The staged artifacts [named] passed validation for the job [j]. *)
Definition accepted (config : ProcessingConfig) (j : Job) (staged : list StagedArtifact) : Prop :=
  satisfies_contract sha256 config (contract (j_operation j)) staged
  ∧ ∃ lease v, fl_operation lease = j_operation j ∧ fl_project lease = j_project j
      ∧ content_valid json_parse pptx_ok bundle_ok lease
          (u64_saturating_mul (max_output_bytes config) 4) staged v.

Lemma published_succeeds now lease named f db db' k j' :
  published now lease named f db db' →
  (∀ j, jobs db !! k = Some j → j_state j ≠ Succeeded) →
  jobs db' !! k = Some j' → j_state j' = Succeeded →
  k = fl_job_id lease ∧ holds_artifacts k now named db'.
Proof.
  intros (_ & j & Hj & Hjobs & Hh) Hn. rewrite Hjobs, lookup_insert.
  case_decide; [by subst|]. intros Hj' Hs. by destruct (Hn j').
Qed.

Lemma imap_snd {A} (fresh : nat → uuid) (l : list A) : (imap (λ i a, (fresh i, a)) l).*2 = l.
Proof. rewrite fmap_imap. induction l as [|a l IH] in fresh |- *; [done|]. cbn. f_equal. apply (IH (fresh ∘ S)). Qed.

Lemma finalize_one_accepted ss t1 t2 token project fresh config db k j j' :
  Inv db → jobs db !! k = Some j → j_state j ≠ Succeeded →
  jobs (finalize ss t1 t2 token project fresh config db).2 !! k = Some j' → j_state j' = Succeeded →
  ∃ named, accepted config j (named.*2)
           ∧ holds_artifacts k t2 named (finalize ss t1 t2 token project fresh config db).2.
Proof.
  intros HI Hj Hns. unfold finalize_one.
  destruct (acquire_finalization_lease (ss 0%nat) t1 token config db) as [r db1] eqn:Hacq.
  pose proof (acquire_finalization_lease_good (ss 0%nat) t1 token config db HI) as [HI1 _].
  rewrite Hacq in HI1. cbn in HI1. apply acquire_spec in Hacq as [Hsame Hlease].
  assert (∀ j1, jobs db1 !! k = Some j1 → j_state j1 ≠ Succeeded) as Hn1.
  { intros j1 Hj1. specialize (Hsame k). unfold state_and_operation in Hsame.
    rewrite Hj, Hj1 in Hsame. cbn in Hsame. congruence. }
  destruct r as [[lease|]|]; [|by intros ?%Hn1..].
  destruct (Hlease lease eq_refl) as (jl & Hjl & Hop & Hpr & _).
  destruct (autocommit _ _ _ db1) as [r2 db2] eqn:Hload.
  assert (db2 = db1) as ->.
  { unfold autocommit in Hload. destruct (load_staged_artifacts lease db1); cbn in Hload;
      [destruct (ss 1%nat 0%nat)|]; by simplify_eq. }
  destruct r2 as [staged|]; [|by intros ?%Hn1].
  destruct (validate_finalization _ _ _ _ _ _ _ _) as [v|[failure|]] eqn:Hval; [|..|by intros ?%Hn1].
  2: { destruct (reject_artifacts _ _ _ _ _) as [r3 db3] eqn:Hrej. cbn. intros Hj' Hs.
       pose proof (reject_artifacts_state (ss 2%nat) t2 lease failure db1 k Hn1 j') as Hr.
       rewrite Hrej in Hr. by destruct (Hr Hj'). }
  pose proof Hval as (Hsat & _ & Hcontent)%validate_finalization_contract.
  set (named := imap (λ i a, (fresh i, a)) staged).
  assert (named.*2 = staged) as Hnamed by apply imap_snd.
  assert (∀ db3 f, db3 = db1 ∨ published t2 lease named f db1 db3 → jobs db3 !! k = Some j' →
    j_state j' = Succeeded → ∃ named, accepted config j named.*2 ∧ holds_artifacts k t2 named db3) as Hend.
  { intros db3 f [->|Hpub] Hj' Hs; [by destruct (Hn1 j')|].
    destruct (published_succeeds _ _ _ _ _ _ _ _ Hpub Hn1 Hj' Hs) as [-> Hh].
    assert (jl = j) as -> by congruence. exists named. split; [|done]. rewrite Hnamed, Hop in *.
    split; [done|]. exists lease, v. split_and!; try done.
    apply validate_content_valid; [apply Hsat|]. by rewrite Hop. }
  assert (NoDup (st_role <$> named.*2)) as Hnd by (rewrite Hnamed; apply Hsat).
  destruct v as [|bundle name].
  - pose proof (publish_artifacts_published (ss 2%nat) t2 lease named db1 HI1 Hnd) as Hp.
    destruct (publish_artifacts _ _ _ _ _) as [r3 db3]. by apply (Hend _ (succeeded t2)).
  - destruct (stage_assets bundle); [by intros ?%Hn1|].
    pose proof (publish_workspace_published (ss 2%nat) t2 lease project provision named db1 Hprov HI1 Hnd) as Hp.
    cbn in Hp. destruct (publish_workspace _ _ _ _ _ _ _) as [r3 db3]. by eapply Hend.
Qed.
End finalized.

(** ** The properties *)

(** C5: whatever the server answers, a job that one pass of the finalizer makes
    succeed has exactly the staged artifacts, they satisfy the contract of its
    operation (declared roles without repetition, every required role, media
    type, suffix, size limit, recorded size and digest those of the content)
    and their content passed the operation's own check. *)
Theorem published_results_satisfy_the_contract sha256 json_parse pptx_ok bundle_ok access
    stage_assets provision ss acquired at_publication token project fresh config db k j j' :
  provisions provision → Inv db → jobs db !! k = Some j → j_state j ≠ Succeeded →
  let db' := (finalize_one sha256 json_parse pptx_ok bundle_ok access stage_assets provision ss
                acquired at_publication token project fresh config db).2 in
  jobs db' !! k = Some j' → j_state j' = Succeeded →
  ∃ named, accepted sha256 json_parse pptx_ok bundle_ok config j (named.*2)
           ∧ holds_artifacts k at_publication named db'.
Proof. intros. by eapply finalize_one_accepted. Qed.

(** The lease can publish neither artifacts nor a workspace and cannot reject. *)
Definition powerless (lease : FinalizationLease) (db : DB) : Prop :=
  ∀ s now named project (provision : schedule → uuid → Tx DB (result sqlx_error bool) unit) failure,
    (publish_artifacts s now lease named db).2 = db
    ∧ (publish_workspace s now lease project (provision s project) named db).2 = db
    ∧ (reject_artifacts s now lease failure db).2 = db.

Lemma locked_out_powerless lease db :
  (∀ now, lock_finalization lease now db = false) → powerless lease db.
Proof.
  intros Hl s now named project provision failure. specialize (Hl now). split_and!.
  - apply (transact_inv (λ db', db' = db)); [done|]. do 2 wp_step. rewrite Hl. by apply wp_rollback.
  - apply (transact_inv (λ db', db' = db)); [done|]. do 2 wp_step. rewrite Hl. by apply wp_rollback.
  - apply (autocommit_inv (λ db', db' = db)); [done|]. intros [] db' [= <-]. by rewrite Hl.
Qed.

(** C6: fencing of finalizers: once another finalizer has acquired the lease of
    a job under a new token, the predecessor can neither publish artifacts,
    nor publish a workspace, nor reject the job, at any time and whatever the
    server answers: its writes change nothing. *)
Theorem superseded_finalizer_changes_nothing s1 t1 token config db lease2 db1 lease1 :
  acquire_finalization_lease s1 t1 token config db = (Ok (Some lease2), db1) →
  fl_job_id lease1 = fl_job_id lease2 → fl_token lease1 ≠ token → powerless lease1 db1.
Proof.
  intros Hacq Hid Htok. apply locked_out_powerless. intros now.
  apply acquire_token in Hacq as (j & Hj & Ht).
  unfold lock_finalization. rewrite Hid, Hj, bool_decide_false; [done|].
  intros [_ Ht']. congruence.
Qed.

(** ** Witnesses *)

Definition sample_json (_ : bytes) : option Value := None.
Definition sample_finalizing_db : DB := Eval vm_compute in sample_run (take 3 sample_finish) running_db.
Definition sample_finalize : DB → result sqlx_error bool * DB :=
  finalize_one sample_sha256 sample_json (λ _ _, false) (λ _ _, None) (λ _ _, Granted) (λ _, None)
    sample_provision (λ _, healthy) 7 8 70%N 90%N (λ n, (80 + N.of_nat n)%N) sample_config.

Lemma sample_finalizing_Inv : Inv sample_finalizing_db.
Proof.
  change sample_finalizing_db with (sample_run (sample_queue ++ [sample_claim] ++ take 3 sample_finish) empty_db).
  apply run_ops_Inv; [apply sample_provisions|apply Inv_empty].
Qed.

Theorem published_results_satisfy_the_contract_witness :
  ∃ named, accepted sample_sha256 sample_json (λ _ _, false) (λ _ _, None) sample_config
             (default (reserved_job sample_config sample_reserve) (jobs sample_finalizing_db !! 1%N)) (named.*2)
           ∧ holds_artifacts 1%N 8 named (sample_finalize sample_finalizing_db).2.
Proof.
  eapply (published_results_satisfy_the_contract sample_sha256 sample_json (λ _ _, false) (λ _ _, None)
    (λ _ _, Granted) (λ _, None) sample_provision (λ _, healthy) 7 8 70%N 90%N
    (λ n, (80 + N.of_nat n)%N) sample_config sample_finalizing_db 1%N).
  - apply sample_provisions.
  - apply sample_finalizing_Inv.
  - vm_compute; reflexivity.
  - vm_compute; discriminate.
  - vm_compute; reflexivity.
  - vm_compute; reflexivity.
Defined.

Theorem superseded_finalizer_changes_nothing_witness :
  powerless sample_lease
    (acquire_finalization_lease healthy (seconds 20) 71%N sample_config
       (sample_run [(healthy, 7, OAcquire 70%N)] sample_finalizing_db)).2.
Proof.
  destruct (acquire_finalization_lease healthy (seconds 20) 71%N sample_config
                (sample_run [(healthy, 7, OAcquire 70%N)] sample_finalizing_db)) as [r db1] eqn:Hacq.
  eapply (superseded_finalizer_changes_nothing healthy (seconds 20) 71%N sample_config
    (sample_run [(healthy, 7, OAcquire 70%N)] sample_finalizing_db)
    (MkLease 1%N 71%N LatexCompilePdfV1 10%N (Some 20%N) None VNull) db1 sample_lease).
  - rewrite Hacq. f_equal. vm_compute in Hacq. injection Hacq as <- _. reflexivity.
  - reflexivity.
  - discriminate.
Defined.
