(* ===== verification/ProcessingProgress.v ===== *)
(** * Document processing: progress, admission and transfers

    The maintenance loop recovers every expired claim, the retry delay is a
    capped exponential backoff, a reservation is idempotent, and a transfer is
    a bounded capability on one blob. *)
From S2P Require Import Prelude Store Text ProcessingModel ProcessingAdmission ProcessingClaims.
From S2P Require Import ProcessingRequests.
From S2P Require Import ProcessingMaintenance ProcessingInvariant Bundles ProcessingPublication.
From S2P Require Import ProcessingSteps ProcessingTheorems.

Open Scope Z_scope.

(** ** Retry delay *)

(** One second, doubled after each attempt, at most thirty seconds. *)
Definition capped_backoff (attempt : Z) : time := seconds (Z.min 30 (2 ^ Z.max 0 (attempt - 1))).

(** The delay before a retry doubles with each attempt from one second and
    is capped at thirty, for every 32-bit attempt count: no shift or
    subtraction overflows. *)
Theorem retry_delay_is_capped_backoff n :
  i32_min ≤ n ≤ i32_max → processing_retry_delay n = capped_backoff n.
Proof.
  unfold capped_backoff, processing_retry_delay, i32_saturating_sub, i32_min, i32_max. intros Hn.
  set (p := Z.max (-2147483648) (Z.min 2147483647 (n - 1))).
  replace (if p <? 0 then 0 else p) with (Z.max 0 (n - 1)).
  2: { destruct (Z.ltb_spec p 0); lia. }
  rewrite Z.shiftl_mul_pow2 by lia. f_equal.
  destruct (Z.le_gt_cases (Z.max 0 (n - 1)) 5) as [H|H].
  - rewrite (Z.min_l _ 5) by done. lia.
  - rewrite (Z.min_r _ 5) by lia. assert (2 ^ 5 ≤ 2 ^ Z.max 0 (n - 1)) by (apply Z.pow_le_mono_r; lia). lia.
Qed.

Theorem retry_delay_is_capped_backoff_witness : processing_retry_delay 3 = capped_backoff 3.
Proof. apply (retry_delay_is_capped_backoff 3). vm_compute. split; discriminate. Defined.

(** ** Recovery of expired claims *)

(** The job runs under an expired lease. *)
Definition overdue_job (now : time) (j : Job) : bool :=
  bool_decide (j_state j = Running)
  && match j_claim_expires_at j with Some e => e <=? now | None => false end.

Definition overdue (now : time) (db : DB) : Z := count (λ _, overdue_job now) (jobs db).

(** Every overdue job of the second table is one of the first, outside [done]. *)
Definition remaining (now : time) (gone : list uuid) (db db' : DB) : Prop :=
  ∀ k j, jobs db' !! k = Some j → overdue_job now j = true → jobs db !! k = Some j ∧ k ∉ gone.

Lemma remaining_subset now gone db db1 db2 :
  remaining now gone db db1 →
  (∀ k j, jobs db2 !! k = Some j → overdue_job now j = true → jobs db1 !! k = Some j) →
  remaining now gone db db2.
Proof. intros Hr Hs k j Hj Ho. eauto. Qed.

Lemma recovery_not_running now j : (recovery now j).1 ≠ Running.
Proof. pose proof (recovery_edge now j) as He. by inversion He. Qed.

Lemma recover_claim_remaining s now k j gone db0 db n :
  remaining now gone db0 db →
  wp (recover_claim s now (k, j)) (λ _, True) (λ _ db' _, remaining now (k :: gone) db0 db') db n.
Proof.
  intros Hr. unfold recover_claim. destruct (recovery now j) as [st fl] eqn:Hrec.
  assert (st ≠ Running) as Hst by (pose proof (recovery_not_running now j) as H; by rewrite Hrec in H).
  assert (∀ db1 f, jobs db1 = jobs db → (∀ j', j_state (f j') = st) →
                   remaining now (k :: gone) db0 (update_job k f db1)) as Hfin.
  { intros db1 f Hj1 Hf k' j' Hj' Ho. unfold update_job in Hj'. cbn in Hj'.
    rewrite Hj1, lookup_alter in Hj'. case_decide as Hk.
    - apply fmap_Some_1 in Hj' as (j0 & _ & ->). unfold overdue_job in Ho. rewrite Hf in Ho.
      by rewrite bool_decide_false in Ho.
    - destruct (Hr k' j' Hj' Ho) as [? Hn]. split; [done|].
      intros [->|Hin]%elem_of_cons; [done|by apply Hn]. }
  wp_steps; by apply Hfin.
Qed.

(** ** Runs on a server that never fails *)

Lemma wp_writes_healthy {DB' R} (fail : sqlx_error → R) (f : DB' → DB') E (Q : unit → DB' → nat → Prop) db n :
  Q () (f db) (S n) → wp (exec healthy fail (writes f)) E Q db n.
Proof. done. Qed.

Lemma wp_reads_healthy {DB' R A} (fail : sqlx_error → R) (f : DB' → A) E (Q : A → DB' → nat → Prop) db n :
  Q (f db) db (S n) → wp (exec healthy fail (reads f)) E Q db n.
Proof. done. Qed.

Lemma wp_for_total {DB' R A} (l : list A) (f : A → Tx DB' R unit) (db : DB') n :
  (∀ x db' n', x ∈ l → wp (f x) (λ _, False) (λ _ _ _, True) db' n') →
  wp (tx_for l f) (λ _, False) (λ _ _ _, True) db n.
Proof.
  induction l as [|x l IH] in db, n |- *; intros Hf; simpl; [done|].
  apply wp_bind. eapply wp_mono; [apply Hf; left|done|]. intros _ db' n' _. apply IH.
  intros. apply Hf. by right.
Qed.

Lemma recover_claim_total now row db n :
  wp (recover_claim healthy now row) (λ _, False) (λ _ _ _, True) db n.
Proof.
  destruct row as [k j]. unfold recover_claim. apply wp_bind.
  destruct (j_current_claim j); [apply wp_bind|apply wp_ret];
    repeat (apply wp_writes_healthy); destruct (recovery now j); done.
Qed.

Lemma wp_and {DB' R A} (m : Tx DB' R A) E1 E2 (Q1 Q2 : A → DB' → nat → Prop) db n :
  wp m E1 Q1 db n → wp m E2 Q2 db n →
  wp m (λ r, E1 r ∧ E2 r) (λ a db' n', Q1 a db' n' ∧ Q2 a db' n') db n.
Proof. unfold wp. destruct (m db n) as [|[[]]]; auto. Qed.

Lemma batch_remaining now db n :
  wp (tx_for (expired_claims now db) (recover_claim healthy now)) (λ _, False)
     (λ _ db' _, remaining now (expired_claims now db).*1 db db') db n.
Proof.
  eapply wp_mono; [apply (wp_and _ (λ _, False) (λ _, True))|by intros r [? ?]|intros a db' n' [_ H]; exact H].
  - apply wp_for_total. intros. apply recover_claim_total.
  - eapply wp_mono; [apply (wp_for _ _ (λ _, True) (λ l db', ∃ pre, expired_claims now db = pre ++ l
      ∧ remaining now pre.*1 db db'))|by intros; exact I|].
    + exists []. split; [done|]. intros k j Hj _. split; [done|apply not_elem_of_nil].
    + intros [k j] l db' n' (pre & Heq & Hr).
      eapply wp_mono; [by apply (recover_claim_remaining healthy now k j pre.*1)|done|].
      intros ? db2 ? Hr2. exists (pre ++ [(k, j)]). rewrite <-app_assoc. split; [done|].
      intros k' j' Hj' Ho. destruct (Hr2 k' j' Hj' Ho) as [? Hn]. split; [done|].
      rewrite fmap_app. set_solver.
    + intros ? db' ? (pre & Heq & Hr). rewrite app_nil_r in Heq. by rewrite Heq.
Qed.

Lemma expired_claims_length now db :
  Z.of_nat (length (expired_claims now db)) = Z.min 16 (overdue now db).
Proof.
  unfold expired_claims, overdue, count, order_by. rewrite length_take, merge_sort_Permutation.
  rewrite Nat2Z.inj_min. reflexivity.
Qed.

Lemma remaining_overdue now db db' :
  remaining now (expired_claims now db).*1 db db' →
  overdue now db' ≤ Z.max 0 (overdue now db - 16).
Proof.
  intros Hr. pose proof (expired_claims_length now db) as Hlen.
  destruct (expired_claims_spec now db) as [Hnd Hdue]. rewrite Forall_forall in Hdue.
  cut (overdue now db' + Z.of_nat (length (expired_claims now db)) ≤ overdue now db);
    [unfold overdue, count in *; lia|].
  unfold overdue, count. rewrite <-Nat2Z.inj_add, <-(length_fmap fst (select _ (jobs db'))),
    <-(length_fmap fst (expired_claims now db)), <-length_app, <-(length_fmap fst (select _ (jobs db))).
  apply Nat2Z.inj_le, submseteq_length, NoDup_submseteq.
  - apply NoDup_app. split_and!; [apply NoDup_select| |done].
    intros k ([k1 j1] & -> & [Hj Ho]%elem_of_select)%list_elem_of_fmap. by destruct (Hr _ _ Hj Ho).
  - intros k [([k1 j1] & -> & [Hj Ho]%elem_of_select)%list_elem_of_fmap
             |([k1 j1] & -> & Hin)%list_elem_of_fmap]%elem_of_app; apply list_elem_of_fmap; exists (k1, j1);
      (split; [done|]); apply elem_of_select.
    + by destruct (Hr _ _ Hj Ho).
    + destruct (Hdue _ Hin) as (Hj & Hs & e & He & Hle). cbn in *. split; [done|].
      unfold overdue_job. rewrite Hs, He, bool_decide_true by done. by apply Z.leb_le.
Qed.

Lemma after_maintenance_batch now db db1 :
  remaining now (expired_claims now db).*1 db db1 → Inv db1 →
  remaining now (expired_claims now db).*1 db
    (delete_unreferenced_blobs (delete_unretained now (delete_replies now
       (expire_transfers now (release_ended_pins (expire_queue now db1)))))).
Proof.
  intros Hr HI. eapply remaining_subset; [exact Hr|]. intros k j Hj Ho. cbn in Hj.
  apply lookup_delete_rows_Some in Hj as [Hj _]. cbn in Hj.
  apply lookup_update_rows_Some in Hj as (j0 & Hj0 & ->).
  destruct (queue_overdue now j0) eqn:Hq; [|done]. unfold overdue_job in Ho. cbn in Ho. done.
Qed.

Lemma maintain_transaction_healthy now db :
  Inv db →
  (maintain_transaction healthy now db).1 = Ok ()
  ∧ remaining now (expired_claims now db).*1 db (maintain_transaction healthy now db).2.
Proof.
  intros HI. unfold maintain_transaction.
  apply (transact_healthy _ _ (λ r db', r = Ok () ∧ remaining now (expired_claims now db).*1 db db')).
  wp_step. apply wp_reads_healthy. wp_step.
  eapply wp_mono; [apply wp_and; [apply batch_remaining|by apply recover_claims_wp]|by intros ? [? _]|].
  intros ? db1 ? [Hr [HI1 _]]. do 6 (wp_step; apply wp_writes_healthy). wp_step.
  split; [done|by apply after_maintenance_batch].
Qed.

Lemma expire_sessions_jobs now db : jobs (expire_drained now (expire_sessions now db)) = jobs db.
Proof. done. Qed.

Lemma maintain_lifecycle_healthy now db :
  Inv db →
  (maintain_lifecycle healthy now db).1 = Ok ()
  ∧ overdue now (maintain_lifecycle healthy now db).2 ≤ Z.max 0 (overdue now db - 16).
Proof.
  intros HI. set (db1 := expire_drained now (expire_sessions now db)).
  assert (Inv db1) as HI1 by (by eapply Inv_tables).
  change (maintain_lifecycle healthy now db) with (maintain_transaction healthy now db1).
  destruct (maintain_transaction_healthy now db1 HI1) as [Hok Hr]. split; [done|].
  change (overdue now db) with (overdue now db1). by apply remaining_overdue.
Qed.

Definition maintain_rounds (n : nat) (now : time) (db : DB) : DB :=
  Nat.iter n (λ db, (maintain_lifecycle healthy now db).2) db.

Lemma maintain_rounds_overdue n now db :
  Inv db → Inv (maintain_rounds n now db)
           ∧ overdue now (maintain_rounds n now db) ≤ Z.max 0 (overdue now db - 16 * Z.of_nat n).
Proof.
  intros HI. induction n as [|n [HIn Hn]]; [split; [done|]|].
  - change (maintain_rounds 0 now db) with db. lia.
  - change (maintain_rounds (S n) now db) with (maintain_lifecycle healthy now (maintain_rounds n now db)).2.
    split; [by apply maintain_lifecycle_good|].
    destruct (maintain_lifecycle_healthy now _ HIn) as [_ Hm]. lia.
Qed.

(** C7: progress of recovery: while the server answers, each maintenance run
    succeeds and takes sixteen jobs off those that run under an expired lease,
    so that after enough runs every running job has an unexpired lease. *)
Theorem maintenance_recovers_every_expired_claim n now db k j e :
  Inv db → overdue now db ≤ 16 * Z.of_nat n →
  jobs (maintain_rounds n now db) !! k = Some j → j_state j = Running →
  j_claim_expires_at j = Some e → now < e.
Proof.
  intros HI Hn Hj Hs He. destruct (maintain_rounds_overdue n now db HI) as [_ Hle].
  destruct (Z.lt_ge_cases now e) as [|Hge]; [done|]. exfalso.
  assert ((k, j) ∈ select (λ _, overdue_job now) (jobs (maintain_rounds n now db))) as Hin.
  { apply elem_of_select. split; [done|]. unfold overdue_job.
    rewrite Hs, He, bool_decide_true by done. by apply Z.leb_le. }
  unfold overdue, count in Hle, Hn.
  destruct (select (λ _, overdue_job now) (jobs (maintain_rounds n now db))) as [|? l];
    [by apply elem_of_nil in Hin|]. cbn [length] in Hle. lia.
Qed.

(** ** Reservation *)

(** The answers to a command whose key belongs to the job [j]. *)
Definition replay_answer (c : ReserveJob) (k : uuid) (j : Job)
    (r : result ReserveJobError ReserveJobOutcome) : Prop :=
  r = Ok (Existing (job_from_row k j)) ∧ j_command_digest j = rj_command_digest c
  ∨ r = Err IdempotencyConflict ∧ j_command_digest j ≠ rj_command_digest c
  ∨ ∃ e, r = Err (ReservePersistence e).

(** A reservation is idempotent: repeating the requester's scope and key
    returns the existing job when the command is the same, is refused as a
    conflict when it is not, and in no case changes the tables. *)
Theorem reservation_is_idempotent s config c db k j r db' :
  Inv db → jobs db !! k = Some j →
  idempotency j = (rj_requester_user_id c, rj_idempotency_scope c, rj_idempotency_key c) →
  reserve_job s config c db = (r, db') →
  db' = db ∧ replay_answer c k j r.
Proof.
  unfold replay_answer. intros HI Hj Hid H. unfold reserve_job in H.
  assert (find_idempotent_job (rj_requester_user_id c) (rj_idempotency_scope c) (rj_idempotency_key c) db
          = Some (k, j)) as Hfind.
  { unfold find_idempotent_job. unfold idempotency in Hid. injection Hid as H1 H2 H3.
    match goal with |- head ?l = _ => destruct l as [|[k' j'] l'] eqn:Hl end.
    - exfalso. assert ((k, j) ∈ ([] : list (uuid * Job))) as Hin; [|by apply elem_of_nil in Hin].
      rewrite <-Hl. apply elem_of_select. split; [done|]. by apply bool_decide_eq_true.
    - assert ((k', j') ∈ (k', j') :: l') as Hin by left. rewrite <-Hl in Hin.
      apply elem_of_select in Hin as [Hj' (E1 & E2 & E3)%bool_decide_eq_true].
      assert (k' = k) as ->.
      { eapply (ok_idempotency _ _ _ HI); [exact Hj'|exact Hj|]. unfold idempotency. congruence. }
      cbn. congruence. }
  tx_start H; [split; [done|eauto]|].
  wp_step. wp_step; [by intros; split; eauto|]. wp_step. wp_step; [by intros; split; eauto|].
  change (id db) with db. rewrite Hfind. wp_step. apply wp_fetch_one; [by intros; split; eauto|].
  rewrite Hj. cbn. intros digest [= <-]. case_bool_decide; wp_step; [|by auto].
  split; (split; [done|]); eauto.
Qed.

(** ** Transfers *)

(** The transfer, as stored, admits a download under this token. *)
Definition admits_download (now : time) (sha256 : bytes → bytes) (token : text)
    (t : Transfer) (db : DB) : Prop :=
  t_fingerprint t = sha256 (utf8 token) ∧ t_direction t = Download ∧ t_state t = TIssued
  ∧ now < t_expires_at t ∧ 0 < t_remaining_uses t ∧ transfer_live now t db = true.

(** A download is a bounded capability: content is handed out only for the
    token whose fingerprint is stored, while the transfer is issued, unexpired
    and has uses left and the attempt still runs under the job's current
    claim; it is the content of the transfer's blob, and each download
    consumes one use, the last one the transfer.  Any other outcome changes
    nothing. *)
Theorem download_is_a_bounded_capability s sha256 now k token db r db' :
  download_transfer s sha256 now k token db = (r, db') →
  db' ≠ db ∨ (∃ content media digest, r = Ok (Content content media digest)) →
  ∃ t b blob_id, transfers db !! k = Some t ∧ t_blob t = Some blob_id ∧ blobs db !! blob_id = Some b
    ∧ admits_download now sha256 token t db
    ∧ db' = update_transfer k (use_download (t_remaining_uses t - 1) now) db
    ∧ (∀ content media digest, r = Ok (Content content media digest) →
         content = blob_content b ∧ media = t_media_type t ∧ t_expected_sha256 t = Some digest).
Proof.
  intros H. unfold download_transfer in H.
  cut ((db' = db ∧ ∀ content media digest, r ≠ Ok (Content content media digest)) ∨
    ∃ t b blob_id, transfers db !! k = Some t ∧ t_blob t = Some blob_id ∧ blobs db !! blob_id = Some b
      ∧ admits_download now sha256 token t db
      ∧ db' = update_transfer k (use_download (t_remaining_uses t - 1) now) db
      ∧ (∀ content media digest, r = Ok (Content content media digest) →
           content = blob_content b ∧ media = t_media_type t ∧ t_expected_sha256 t = Some digest)).
  { intros [[-> Hn]|?] Hc; [|done]. destruct Hc as [?|(?&?&?&?)]; [done|exfalso; by eapply Hn]. }
  cbv zeta in H. tx_start H; [by left|]. wp_step. wp_step; [by left|].
  destruct (download_row now k db) as [[t b]|] eqn:Hrow; [|wp_step; by left].
  unfold download_row in Hrow.
  destruct (transfers db !! k) as [t0|] eqn:Ht; cbn in Hrow; [|done].
  destruct (t_blob t0) as [blob_id|] eqn:Htb; cbn in Hrow; [|done].
  destruct (blobs db !! blob_id) as [b0|] eqn:Hb; cbn in Hrow; [|done].
  destruct (transfer_live now t0 db) eqn:Hlive; simplify_eq.
  case_match eqn:Hg; [wp_step; by left|]. rewrite !orb_false_iff, negb_false_iff, !Z.leb_gt in Hg.
  destruct Hg as [[[[Hf%bool_decide_eq_true Hst%bool_decide_eq_false] Hdir%bool_decide_eq_false] Huses] Hexp].
  apply dec_stable in Hst, Hdir.
  wp_step. wp_step; [by left|]. unfold not_null.
  destruct (t_expected_sha256 t) as [digest|] eqn:Hd; [|wp_step; by left]. wp_step.
  split; right; exists t, b, blob_id; (split_and!; try done).
  intros ? ? ? [= <- <- <-]. done.
Qed.

(** The transfer holds a stored blob of this digest and size. *)
Definition holds_upload (k : uuid) (digest : bytes) (size : Z) (db : DB) : Prop :=
  ∃ t b blob_id, transfers db !! k = Some t ∧ t_state t = TUploaded ∧ t_blob t = Some blob_id
    ∧ blobs db !! blob_id = Some b ∧ blob_sha256 b = digest ∧ blob_size b = size.

Lemma store_blob_stored new_id digest media content now db id db' :
  store_blob new_id digest media content now db = Ok (id, db') →
  transfers db' = transfers db ∧
  ∃ b, blobs db' !! id = Some b ∧ blob_sha256 b = digest ∧ blob_size b = len_i64 content.
Proof.
  unfold store_blob. match goal with |- context [head ?l] => destruct l as [|[id' b] l'] eqn:Hl end; cbn.
  - destruct (insert_row new_id _ (blobs db)) as [t|] eqn:Ht; cbn; [|done]. intros [= <- <-].
    apply insert_row_Ok in Ht as [_ ->]. split; [done|]. eexists. cbn. rewrite lookup_insert_eq. done.
  - intros [= <- <-]. split; [done|]. exists b. assert ((id', b) ∈ (id', b) :: l') as Hin by left.
    rewrite <-Hl in Hin. by apply elem_of_select in Hin as [? ?%bool_decide_eq_true].
Qed.

(** The upload's transfer, as declared when it was issued, admits the content. *)
Definition admits_upload (now : time) (sha256 : bytes → bytes) (token : text) (content : bytes)
    (t : Transfer) (db : DB) : Prop :=
  t_fingerprint t = sha256 (utf8 token) ∧ t_direction t = Upload ∧ now < t_expires_at t
  ∧ (t_state t = TIssued ∨ t_state t = TUploaded) ∧ transfer_live now t db = true
  ∧ len_i64 content ≤ t_max_size t ∧ (∀ n, t_exact_size t = Some n → len_i64 content = n)
  ∧ (∀ d, t_expected_sha256 t = Some d → d = sha256 content).

(** An upload is stored only under the transfer's token, while the attempt
    runs under the job's current claim, and only with the declared size and
    digest; afterwards the transfer refers to a blob with that digest and
    size.  Repeating it is answered alike and changes nothing; every refusal
    changes nothing. *)
Theorem upload_stores_only_the_declared_content s sha256 now new_id k token content db r db' :
  upload_transfer s sha256 now new_id k token content db = (r, db') →
  db' ≠ db ∨ (∃ size digest, r = Ok (Stored size digest)) →
  (∃ t, transfers db !! k = Some t ∧ admits_upload now sha256 token content t db
        ∧ (t_state t = TUploaded → db' = db))
  ∧ holds_upload k (sha256 content) (len_i64 content) db'
  ∧ ∀ size digest, r = Ok (Stored size digest) → size = len_i64 content ∧ digest = sha256 content.
Proof.
  intros H. unfold upload_transfer in H.
  set (goal := λ (r : result sqlx_error TransferUploadOutcome) db',
    (∃ t, transfers db !! k = Some t ∧ admits_upload now sha256 token content t db
          ∧ (t_state t = TUploaded → db' = db))
    ∧ holds_upload k (sha256 content) (len_i64 content) db'
    ∧ ∀ size digest, r = Ok (Stored size digest) → size = len_i64 content ∧ digest = sha256 content).
  cut ((db' = db ∧ ∀ size digest, r ≠ Ok (Stored size digest)) ∨ goal r db').
  { intros [[-> Hn]|?] Hc; [|done]. destruct Hc as [?|(?&?&?)]; [done|exfalso; by eapply Hn]. }
  cbv zeta in H. tx_start H; [by left|]. wp_step. wp_step; [by left|].
  destruct (upload_row now k db) as [[t stored]|] eqn:Hrow; [|wp_step; by left].
  unfold upload_row in Hrow. destruct (transfers db !! k) as [t0|] eqn:Ht; cbn in Hrow; [|done].
  destruct (transfer_live now t0 db) eqn:Hlive; [|done]. injection Hrow as -> Hstored.
  case_match eqn:Hg; [wp_step; by left|]. rewrite !orb_false_iff, !negb_false_iff, Z.leb_gt in Hg.
  destruct Hg as [[[Hf%bool_decide_eq_true Hst%bool_decide_eq_true] Hdir%bool_decide_eq_false] Hexp].
  apply dec_stable in Hdir. case_match eqn:Hsize; [wp_step; by left|].
  apply orb_false_iff in Hsize as [Hmax%Z.ltb_ge Hexact].
  destruct (match t_expected_sha256 t with Some _ => _ | None => false end) eqn:Hdigest; [wp_step; by left|].
  assert (admits_upload now sha256 token content t db) as Hadm.
  { split_and!; try done.
    - intros n Hn. rewrite Hn in Hexact. by apply negb_false_iff, Z.eqb_eq in Hexact.
    - intros d Hd. rewrite Hd in Hdigest. apply bool_decide_eq_false in Hdigest. by apply dec_stable. }
  case_bool_decide as Hup.
  - case_bool_decide as Hsame; [|wp_step; by left]. wp_step. right. split_and!.
    + by exists t.
    + destruct (t_blob t) as [blob_id|] eqn:Hb; cbn in Hstored; [|subst; by destruct Hsame].
      destruct (blobs db !! blob_id) as [b|] eqn:Hbl; subst stored; [|by destruct Hsame].
      destruct Hsame as [[= Hs1] [= Hs2]]. by exists t, b, blob_id.
    + by intros ? ? [= <- <-].
  - wp_step. apply wp_exec; [by left|]. intros blob_id db1 (Htr & b & Hb & Hb1 & Hb2)%store_blob_stored.
    wp_step. wp_step; [by left|]. wp_step.
    assert (holds_upload k (sha256 content) (len_i64 content)
              (update_transfer k (uploaded blob_id now) db1)) as Hholds.
    { exists (uploaded blob_id now t), b, blob_id. unfold update_transfer. cbn.
      rewrite lookup_alter_eq, Htr, Ht. by split_and!. }
    split; right; (split_and!; [exists t; by split_and!|done|by intros ? ? [= <- <-]]).
Qed.

(** ** Witnesses *)

Definition crashed_db : DB := Eval vm_compute in sample_run (sample_queue ++ [sample_claim]) empty_db.

Lemma crashed_Inv : Inv crashed_db.
Proof.
  change crashed_db with (sample_run (sample_queue ++ [sample_claim]) empty_db).
  apply run_ops_Inv; [apply sample_provisions|apply Inv_empty].
Qed.

(** Five seconds later another session claims a second job. *)
Definition second_job : list (schedule * time * Op) := [
  (healthy, seconds 5, OReserve (MkReserveJob 2%N LatexCompilePdfV1 11%N (Some 21%N) (lit "s") (lit "k")
                                   [1%N] VNull [2%N] (seconds 5)));
  (healthy, seconds 5, OStoreInput 102%N 2%N (MkPreparedInput (lit "project-bundle/v1")
                         PROJECT_BUNDLE_MEDIA_TYPE [8%N] (sample_sha256 [8%N]) VNull [2%N] None None None
                         (seconds 5)));
  (healthy, seconds 5, ORegister 51%N sample_worker (lit "host2")
                         [MkAdvertisement LatexCompilePdfV1 sample_contract (lit "1") 1]);
  (healthy, seconds 5, OClaim (MkFresh 64%N 65%N 66%N (lit "v")) sample_worker 51%N
                         [MkOffer LatexCompilePdfV1 sample_contract 1])].
Definition two_running_db : DB := Eval vm_compute in sample_run second_job crashed_db.

Example first_claim_is_overdue : overdue (seconds 11) two_running_db = 1.
Proof. vm_compute. reflexivity. Qed.

Theorem maintenance_recovers_every_expired_claim_witness :
  ∃ j e, jobs (maintain_rounds 1 (seconds 11) two_running_db) !! 2%N = Some j ∧ j_state j = Running
         ∧ j_claim_expires_at j = Some e ∧ seconds 11 < e.
Proof.
  assert (Inv two_running_db) as HI.
  { change two_running_db with (sample_run second_job crashed_db).
    apply run_ops_Inv; [apply sample_provisions|apply crashed_Inv]. }
  eexists _, _. split; [vm_compute; reflexivity|]. split; [reflexivity|]. split; [reflexivity|].
  eapply (maintenance_recovers_every_expired_claim 1 (seconds 11) two_running_db 2%N);
    [exact HI|vm_compute; discriminate|vm_compute; reflexivity|reflexivity|reflexivity].
Defined.

Theorem reservation_is_idempotent_witness :
  (reserve_job healthy sample_config sample_reserve crashed_db).2 = crashed_db.
Proof.
  destruct (reserve_job healthy sample_config sample_reserve crashed_db) as [r db'] eqn:Hr.
  eapply (reservation_is_idempotent healthy sample_config sample_reserve crashed_db 1%N _ r db');
    [apply crashed_Inv|vm_compute; reflexivity|reflexivity|exact Hr].
Defined.

Theorem download_is_a_bounded_capability_witness :
  ∃ t b blob_id, transfers crashed_db !! 62%N = Some t ∧ t_blob t = Some blob_id
    ∧ blobs crashed_db !! blob_id = Some b
    ∧ (download_transfer healthy sample_sha256 5 62%N (lit "ptx_t") crashed_db).2
      = update_transfer 62%N (use_download (t_remaining_uses t - 1) 5) crashed_db.
Proof.
  destruct (download_is_a_bounded_capability healthy sample_sha256 5 62%N (lit "ptx_t") crashed_db
    (download_transfer healthy sample_sha256 5 62%N (lit "ptx_t") crashed_db).1
    (download_transfer healthy sample_sha256 5 62%N (lit "ptx_t") crashed_db).2)
    as (t & b & blob_id & H1 & H2 & H3 & _ & H4 & _);
    [reflexivity|right; eexists _, _, _; vm_compute; reflexivity|].
  exists t, b, blob_id. split; [exact H1|]. split; [exact H2|]. split; [exact H3|exact H4].
Defined.

Definition uploading_db : DB := Eval vm_compute in sample_run (take 1 sample_finish) crashed_db.

Theorem upload_stores_only_the_declared_content_witness :
  holds_upload 63%N (sample_sha256 sample_pdf) 14
    (upload_transfer healthy sample_sha256 5 101%N 63%N (lit "ptx_u") sample_pdf uploading_db).2.
Proof.
  apply (upload_stores_only_the_declared_content healthy sample_sha256 5 101%N 63%N (lit "ptx_u")
    sample_pdf uploading_db
    (upload_transfer healthy sample_sha256 5 101%N 63%N (lit "ptx_u") sample_pdf uploading_db).1);
    [reflexivity|right; eexists _, _; vm_compute; reflexivity].
Defined.
