(* ===== verification/AccessModel.v ===== *)
(** * Access: values and tables

    access::grant_model, ::auth_settings_model, ::organization_model,
    ::sharing_model and the access tables of
    migrations/202607120001_baseline.sql, with the constraints the statements
    run into. *)
From S2P Require Import Prelude Store Text.

Open Scope Z_scope.

(** ** Roles, permissions, modes *)

Inductive ProjectRole : Type := Owner | ReadWrite | ReadOnly.
Inductive ProjectAccessType : Type := AccessRead | AccessWrite | AccessManage.
Inductive ProjectPermission : Type := PermissionRead | PermissionWrite.
Inductive ProjectRoleSource : Type := DirectRole | ShareLinkInvite.
Inductive OrganizationRole : Type := OrganizationOwner | OrganizationMember.
Inductive AnonymousMode : Type := Off | ReadOnlyMode | ReadWriteNamed.

#[export] Instance ProjectRole_eq_dec : EqDecision ProjectRole.
Proof. solve_decision. Defined.
#[export] Instance ProjectPermission_eq_dec : EqDecision ProjectPermission.
Proof. solve_decision. Defined.
#[export] Instance ProjectRoleSource_eq_dec : EqDecision ProjectRoleSource.
Proof. solve_decision. Defined.
#[export] Instance OrganizationRole_eq_dec : EqDecision OrganizationRole.
Proof. solve_decision. Defined.
#[export] Instance AnonymousMode_eq_dec : EqDecision AnonymousMode.
Proof. solve_decision. Defined.

(** [ProjectRole::rank], [::access_type]. *)
Definition rank (r : ProjectRole) : Z :=
  match r with Owner => 3 | ReadWrite => 2 | ReadOnly => 1 end.
Definition access_type (r : ProjectRole) : ProjectAccessType :=
  match r with Owner => AccessManage | ReadWrite => AccessWrite | ReadOnly => AccessRead end.
(** [ProjectPermission::project_role], [::can_write]. *)
Definition project_role (p : ProjectPermission) : ProjectRole :=
  match p with PermissionRead => ReadOnly | PermissionWrite => ReadWrite end.
Definition can_write (p : ProjectPermission) : bool :=
  match p with PermissionWrite => true | PermissionRead => false end.
(** [OrganizationRole::rank]. *)
Definition organization_rank (r : OrganizationRole) : Z :=
  match r with OrganizationOwner => 2 | OrganizationMember => 1 end.
(** [AnonymousMode::allows_read], [::allows_guest_write]. *)
Definition allows_read (m : AnonymousMode) : bool :=
  match m with Off => false | ReadOnlyMode | ReadWriteNamed => true end.
Definition allows_guest_write (m : AnonymousMode) : bool :=
  match m with ReadWriteNamed => true | Off | ReadOnlyMode => false end.

(** ** Rows *)

Record User : Type := MkUser { u_email : text; u_display_name : text }.
Record AuthSession : Type := MkAuthSession { as_user : uuid; as_issued_at : time; as_expires_at : time }.
Record Project : Type := MkProject { p_access_epoch : Z; p_is_template : bool }.
Record RoleRow : Type := MkRole {
  r_role : ProjectRole; r_granted_at : time; r_source : ProjectRoleSource }.
Record OrganizationGrant : Type := MkGrant {
  g_permission : ProjectPermission; g_granted_by : option uuid; g_granted_at : time }.
Record GroupRole : Type := MkGroupRole { gr_role : ProjectRole; gr_granted_at : time }.
Record Membership : Type := MkMembership { mb_role : OrganizationRole; mb_joined_at : time }.
Record GroupMapping : Type := MkMapping { gm_role : OrganizationRole; gm_granted_at : time }.
Record TemplateGrant : Type := MkTemplateGrant { tg_granted_by : option uuid; tg_granted_at : time }.
Record ShareLink : Type := MkShareLink {
  sl_project : uuid; sl_token_prefix : text; sl_token_value : text;
  sl_permission : ProjectPermission; sl_created_by : option uuid; sl_created_at : time;
  sl_expires_at : option time; sl_revoked_at : option time }.
Record GuestSession : Type := MkGuestSession {
  gs_project : uuid; gs_share_link : uuid; gs_fingerprint : bytes; gs_display_name : text;
  gs_permission : ProjectPermission; gs_created_at : time; gs_expires_at : option time;
  gs_last_used_at : option time }.

#[export] Instance RoleRow_eta : Eta RoleRow :=
  λ r, MkRole (r_role r) (r_granted_at r) (r_source r).
#[export] Instance Project_eta : Eta Project := λ p, MkProject (p_access_epoch p) (p_is_template p).
#[export] Instance Membership_eta : Eta Membership := λ m, MkMembership (mb_role m) (mb_joined_at m).
#[export] Instance ShareLink_eta : Eta ShareLink := λ l,
  MkShareLink (sl_project l) (sl_token_prefix l) (sl_token_value l) (sl_permission l)
    (sl_created_by l) (sl_created_at l) (sl_expires_at l) (sl_revoked_at l).
#[export] Instance GuestSession_eta : Eta GuestSession := λ g,
  MkGuestSession (gs_project g) (gs_share_link g) (gs_fingerprint g) (gs_display_name g)
    (gs_permission g) (gs_created_at g) (gs_expires_at g) (gs_last_used_at g).

(** The keys are the primary keys: roles and grants by project and user,
    organization or group, memberships and mappings by organization and user
    or group, login sessions by the token's fingerprint. *)
Record AccessDB : Type := MkAccessDB {
  anonymous_mode : option AnonymousMode;
  users : gmap uuid User;
  auth_sessions : gmap bytes AuthSession;
  organizations : gmap uuid text;
  memberships : gmap (uuid * uuid) Membership;
  projects : gmap uuid Project;
  project_roles : gmap (uuid * uuid) RoleRow;
  organization_access : gmap (uuid * uuid) OrganizationGrant;
  group_roles : gmap (uuid * text) GroupRole;
  template_access : gmap (uuid * uuid) TemplateGrant;
  share_links : gmap uuid ShareLink;
  guest_sessions : gmap uuid GuestSession;
  group_mappings : gmap (uuid * text) GroupMapping;
  user_groups : gset (uuid * text);
}.
#[export] Instance AccessDB_eta : Eta AccessDB := λ db,
  MkAccessDB (anonymous_mode db) (users db) (auth_sessions db) (organizations db)
    (memberships db) (projects db) (project_roles db) (organization_access db) (group_roles db)
    (template_access db) (share_links db) (guest_sessions db) (group_mappings db) (user_groups db).

(** ** Shared statements *)

(** [organization_persistence::organization_user_is_member]. *)
Definition organization_user_is_member (user organization : uuid) (db : AccessDB) : bool :=
  bool_decide (is_Some (memberships db !! (organization, user))).

(** [grant_persistence::project_access_epoch]. *)
Definition project_access_epoch (project : uuid) (db : AccessDB) : option Z :=
  p_access_epoch <$> projects db !! project.

(** [grant_persistence::advance_project_access_epoch]; a [bigint] increment
    past the maximum is refused by the server. *)
Definition advance_project_access_epoch (project : uuid) (db : AccessDB) :
    result sqlx_error (Z * AccessDB) :=
  match projects db !! project with
  | None => Err RowNotFound
  | Some p =>
      if i64_max <=? p_access_epoch p then Err OutOfRange else
      let p := p <| p_access_epoch := p_access_epoch p + 1 |> in
      Ok (p_access_epoch p, db <| projects := <[project := p]> (projects db) |>)
  end.

Inductive ProjectAccessEpochMatch : Type := Current | Changed | ProjectNotFound.

(** [authorization::lock_project_access_epoch]. *)
Definition lock_project_access_epoch (project : uuid) (expected : Z) (db : AccessDB) :
    ProjectAccessEpochMatch :=
  match project_access_epoch project db with
  | Some current => if current =? expected then Current else Changed
  | None => ProjectNotFound
  end.

(** [revoked_at is null and (expires_at is null or expires_at > now())]. *)
Definition link_live (now : time) (l : ShareLink) : bool :=
  bool_decide (sl_revoked_at l = None)
  && match sl_expires_at l with Some e => now <? e | None => true end.
