(* ===== verification/AccessGrants.v ===== *)
(** * Access: grants

    access::grant, ::grant_persistence and ::template_grants: direct roles,
    organization and group grants, their epochs, and the list of the people
    with access.  The diagnostic stage an error names is not kept. *)
From S2P Require Import Prelude Store Text Paths AccessModel.

Open Scope Z_scope.

(** ** grant_persistence *)

(** The row of [project_roles] after an upsert; the project and the user are
    foreign keys. *)
Definition put_role (project user : uuid) (f : option RoleRow → RoleRow) (db : AccessDB) :
    result sqlx_error (RoleRow * AccessDB) :=
  match projects db !! project, users db !! user with
  | Some _, Some _ =>
      let r := f (project_roles db !! (project, user)) in
      Ok (r, db <| project_roles := <[(project, user) := r]> (project_roles db) |>)
  | _, _ => Err ForeignKeyViolation
  end.

Definition upsert_role (project user : uuid) (role : ProjectRole) (granted_at : time) :
    AccessDB → result sqlx_error (RoleRow * AccessDB) :=
  put_role project user (λ _, MkRole role granted_at DirectRole).

(** The three [case] expressions of [grant_project_share_link_role_at_least]. *)
Definition at_least (excluded : RoleRow) (existing : option RoleRow) : RoleRow :=
  match existing with
  | None => excluded
  | Some old =>
      let keep := match r_role old, r_role excluded with
                  | Owner, _ => true
                  | ReadWrite, ReadOnly => true
                  | _, _ => false
                  end in
      let keep_source := match r_role old, r_role excluded with
                         | Owner, _ => true
                         | ReadWrite, (ReadWrite | ReadOnly) => true
                         | ReadOnly, ReadOnly => true
                         | _, _ => false
                         end in
      MkRole (if keep then r_role old else r_role excluded)
             (if keep then r_granted_at old else r_granted_at excluded)
             (if keep_source then r_source old else r_source excluded)
  end.

Definition grant_project_share_link_role_at_least (project user : uuid)
    (requested : ProjectRole) (granted_at : time) (db : AccessDB) :
    result sqlx_error (ProjectRole * AccessDB) :=
  match put_role project user (at_least (MkRole requested granted_at ShareLinkInvite)) db with
  | Ok (r, db) => Ok (r_role r, db)
  | Err e => Err e
  end.

(** The returned row joins the organization's name. *)
Definition upsert_organization_access (project organization : uuid)
    (permission : ProjectPermission) (granted_by : uuid) (granted_at : time) (db : AccessDB) :
    result sqlx_error (text * AccessDB) :=
  match projects db !! project, organizations db !! organization, users db !! granted_by with
  | Some _, Some name, Some _ =>
      Ok (name, db <| organization_access := <[(project, organization) :=
            MkGrant permission (Some granted_by) granted_at]> (organization_access db) |>)
  | _, _, _ => Err ForeignKeyViolation
  end.

Definition delete_organization_access (project organization : uuid) (db : AccessDB) :
    result sqlx_error (bool * AccessDB) :=
  Ok (bool_decide (is_Some (organization_access db !! (project, organization))),
      db <| organization_access := delete (project, organization) (organization_access db) |>).

Definition upsert_group_role (project : uuid) (group : text) (role : ProjectRole)
    (granted_at : time) (db : AccessDB) : result sqlx_error (GroupRole * AccessDB) :=
  match projects db !! project with
  | Some _ =>
      let r := MkGroupRole role granted_at in
      Ok (r, db <| group_roles := <[(project, group) := r]> (group_roles db) |>)
  | None => Err ForeignKeyViolation
  end.

Definition delete_group_role (project : uuid) (group : text) (db : AccessDB) :
    result sqlx_error (bool * AccessDB) :=
  Ok (bool_decide (is_Some (group_roles db !! (project, group))),
      db <| group_roles := delete (project, group) (group_roles db) |>).

(** [advance_organization_project_access_epochs]: the projects one of the
    organizations has a grant on. *)
Definition organization_projects (changed : list uuid) (db : AccessDB) : list uuid :=
  elements (list_to_set ((λ kg, kg.1.1) <$> select (λ k _, bool_decide (k.2 ∈ changed))
                                            (organization_access db)) : gset uuid).

Definition advance_project_row (ids : list uuid) (k : uuid) (p : Project) : Project :=
  if bool_decide (k ∈ ids) then p <| p_access_epoch := p_access_epoch p + 1 |> else p.

Definition advance_organization_project_access_epochs (changed : list uuid) (db : AccessDB) :
    result sqlx_error (list uuid * AccessDB) :=
  let ids := organization_projects changed db in
  if exists_row (λ k p, bool_decide (k ∈ ids) && (i64_max <=? p_access_epoch p)) (projects db)
  then Err OutOfRange
  else Ok (filter (λ id, is_Some (projects db !! id)) ids,
           db <| projects := map_imap (λ k p, Some (advance_project_row ids k p)) (projects db) |>).

(** ** grant *)

Section grants.
Context (s : schedule).

(** [grant_initial_project_owner], inside the caller's transaction. *)
Definition grant_initial_project_owner {R} (fail : sqlx_error → R) (project owner : uuid)
    (granted_at : time) : Tx AccessDB R unit :=
  _ ← exec s fail (upsert_role project owner Owner granted_at); mret ().

Definition upsert_project_role (now : time) (project user : uuid) (role : ProjectRole) :
    AccessDB → result sqlx_error RoleRow * AccessDB :=
  transact s Err (
    binding ← exec s Err (upsert_role project user role now);
    _ ← exec s Err (advance_project_access_epoch project);
    mret (Ok binding)).

Inductive UpsertOrganizationAccessError : Type :=
| ActorNotMember
| OrganizationAccessPersistence (e : sqlx_error).

Definition upsert_project_organization_access (now : time) (project organization : uuid)
    (permission : ProjectPermission) (actor : uuid) :
    AccessDB → result UpsertOrganizationAccessError text * AccessDB :=
  let fail e := Err (OrganizationAccessPersistence e) in
  transact s fail (
    member ← exec s fail (reads (organization_user_is_member actor organization));
    if negb member then early (Err ActorNotMember) else
    access ← exec s fail (upsert_organization_access project organization permission actor now);
    _ ← exec s fail (advance_project_access_epoch project);
    mret (Ok access)).

Inductive DeleteGrantError : Type :=
| EmptyGroup | GrantNotFound | GrantPersistence (e : sqlx_error).

Definition delete_project_organization_access (project organization : uuid) :
    AccessDB → result DeleteGrantError unit * AccessDB :=
  let fail e := Err (GrantPersistence e) in
  transact s fail (
    deleted ← exec s fail (delete_organization_access project organization);
    if negb deleted then early (Err GrantNotFound) else
    _ ← exec s fail (advance_project_access_epoch project);
    mret (Ok ())).

Definition normalize_group_name (group_name : text) : option text :=
  let group_name := trim group_name in
  if text_eqb group_name [] then None else Some group_name.

Inductive UpsertGroupRoleError : Type :=
| EmptyGroupName | GroupRolePersistence (e : sqlx_error).

Definition upsert_project_group_role (now : time) (project : uuid) (group_name : text)
    (role : ProjectRole) (db : AccessDB) :
    result UpsertGroupRoleError (text * GroupRole) * AccessDB :=
  match normalize_group_name group_name with
  | None => (Err EmptyGroupName, db)
  | Some group =>
      let fail e := Err (GroupRolePersistence e) in
      transact s fail (
        binding ← exec s fail (upsert_group_role project group role now);
        _ ← exec s fail (advance_project_access_epoch project);
        mret (Ok (group, binding))) db
  end.

Definition delete_project_group_role (project : uuid) (group_name : text) (db : AccessDB) :
    result DeleteGrantError unit * AccessDB :=
  match normalize_group_name group_name with
  | None => (Err EmptyGroup, db)
  | Some group =>
      let fail e := Err (GrantPersistence e) in
      transact s fail (
        deleted ← exec s fail (delete_group_role project group);
        if negb deleted then early (Err GrantNotFound) else
        _ ← exec s fail (advance_project_access_epoch project);
        mret (Ok ())) db
  end.
End grants.

(** ** template_grants, inside the callers' transactions *)

Definition grant_template_organization_access (project organization granted_by : uuid)
    (granted_at : time) (db : AccessDB) : result sqlx_error (text * AccessDB) :=
  match projects db !! project, organizations db !! organization, users db !! granted_by with
  | Some _, Some name, Some _ =>
      Ok (name, db <| template_access := <[(project, organization) :=
            MkTemplateGrant (Some granted_by) granted_at]> (template_access db) |>)
  | _, _, _ => Err ForeignKeyViolation
  end.

Definition revoke_template_organization_access (s : schedule) (project organization : uuid)
    (db : AccessDB) : result sqlx_error bool * AccessDB :=
  autocommit s 0 (λ db,
    Ok (bool_decide (is_Some (template_access db !! (project, organization))),
        db <| template_access := delete (project, organization) (template_access db) |>)) db.

Definition revoke_all_template_organization_access (project : uuid) (db : AccessDB) : AccessDB :=
  db <| template_access := delete_rows (λ k _, bool_decide (k.1 = project)) (template_access db) |>.

(** ** The people with access *)

Inductive ProjectAccessSource : Type :=
| SourceDirectRole | SourceShareLinkInvite | SourceOrganization (name : text).
#[export] Instance ProjectAccessSource_eq_dec : EqDecision ProjectAccessSource.
Proof. solve_decision. Defined.

Definition source_of (source : ProjectRoleSource) : ProjectAccessSource :=
  match source with DirectRole => SourceDirectRole | ShareLinkInvite => SourceShareLinkInvite end.

Record ProjectAccessUser : Type := MkAccessUser {
  au_email : text; au_display_name : text; au_role : ProjectRole;
  au_access_type : ProjectAccessType; au_sources : list ProjectAccessSource }.

(** One row of [direct_access_users] or [organization_access_users]. *)
Record AccessRow : Type := MkAccessRow {
  ar_user : uuid; ar_email : text; ar_display_name : text; ar_role : ProjectRole;
  ar_source : ProjectAccessSource }.

Definition direct_access_users (project : uuid) (db : AccessDB) : list AccessRow :=
  omap (λ kr : (uuid * uuid) * RoleRow,
    let '((p, user), r) := kr in
    if bool_decide (p = project) then
      u ← users db !! user;
      Some (MkAccessRow user (u_email u) (u_display_name u) (r_role r) (source_of (r_source r)))
    else None) (map_to_list (project_roles db)).

(** [permission.project_role()] is applied by the caller. *)
Definition organization_access_users (project : uuid) (db : AccessDB) : list AccessRow :=
  map_to_list (organization_access db) ≫= λ kg : (uuid * uuid) * OrganizationGrant,
    let '((p, organization), g) := kg in
    if bool_decide (p = project) then
      match organizations db !! organization with
      | None => []
      | Some name =>
          omap (λ km : (uuid * uuid) * Membership,
            let '((o, user), _) := km in
            if bool_decide (o = organization) then
              u ← users db !! user;
              Some (MkAccessRow user (u_email u) (u_display_name u)
                      (project_role (g_permission g)) (SourceOrganization name))
            else None) (map_to_list (memberships db))
      end
    else [].

Definition merge_access_user (found : gmap uuid ProjectAccessUser) (row : AccessRow) :
    gmap uuid ProjectAccessUser :=
  let entry := match found !! ar_user row with
    | Some e =>
        let raised := rank (au_role e) <? rank (ar_role row) in
        MkAccessUser (au_email e) (au_display_name e)
          (if raised then ar_role row else au_role e)
          (if raised then access_type (ar_role row) else au_access_type e)
          (if bool_decide (ar_source row ∈ au_sources e) then au_sources e
           else au_sources e ++ [ar_source row])
    | None => MkAccessUser (ar_email row) (ar_display_name row) (ar_role row)
                (access_type (ar_role row)) [ar_source row]
    end in
  <[ar_user row := entry]> found.

Definition merged_access_users (project : uuid) (db : AccessDB) : gmap uuid ProjectAccessUser :=
  foldl merge_access_user (foldl merge_access_user ∅ (direct_access_users project db))
    (organization_access_users project db).

(** The derived order of [ProjectAccessSource]. *)
Definition source_leb (a b : ProjectAccessSource) : bool :=
  match a, b with
  | SourceDirectRole, _ => true
  | SourceShareLinkInvite, SourceDirectRole => false
  | SourceShareLinkInvite, _ => true
  | SourceOrganization x, SourceOrganization y => text_leb x y
  | SourceOrganization _, _ => false
  end.
Definition source_le : relation ProjectAccessSource := λ a b, source_leb a b = true.
#[export] Instance source_le_dec : RelDecision source_le.
Proof. intros a b. unfold source_le. apply _. Defined.

Definition sort_sources (u : ProjectAccessUser) : ProjectAccessUser :=
  MkAccessUser (au_email u) (au_display_name u) (au_role u) (au_access_type u)
    (stable_sort source_le (au_sources u)).

Section listing.
(** [str::to_lowercase], the Unicode mapping of the standard library. *)
Context (to_lowercase : text → text).

Definition display_le : relation (uuid * ProjectAccessUser) := λ a b,
  text_le (to_lowercase (au_display_name a.2)) (to_lowercase (au_display_name b.2)).
#[export] Instance display_le_dec : RelDecision display_le.
Proof. intros a b. unfold display_le. apply _. Defined.

(** Users of the same name come in the enumeration order of the hash map. *)
Definition list_project_access_users (project : uuid) (db : AccessDB) :
    list (uuid * ProjectAccessUser) :=
  stable_sort display_le (map_to_list (sort_sources <$> merged_access_users project db)).
End listing.
