(* ===== verification/AccessSharing.v ===== *)
(** * Access: share links, groups and templates

    access::sharing and ::sharing_persistence.  Random tokens, identifiers and
    the digest are arguments; [now] stands for both the server's [now()] and
    the process's [Utc::now()] during one request. *)
From S2P Require Import Prelude Store Text AccessModel AccessGrants.

Open Scope Z_scope.

(** ** sharing_persistence *)

Definition link_with_token (now : time) (token : text) (db : AccessDB) : option (uuid * ShareLink) :=
  head (select (λ _ l, bool_decide (sl_token_value l = token) && link_live now l) (share_links db)).

Definition share_link_permission (now : time) (project : uuid) (token : text) (db : AccessDB) :
    option ProjectPermission :=
  (λ kl, sl_permission kl.2) <$>
    head (select (λ _ l, bool_decide (sl_project l = project ∧ sl_token_value l = token)
                         && link_live now l) (share_links db)).

Record GuestSessionAccess : Type := MkGuestAccess {
  ga_session_id : uuid; ga_display_name : text; ga_permission : ProjectPermission }.

(** The session row joins its share link. *)
Definition session_admits (now : time) (project : uuid) (fingerprint : bytes) (db : AccessDB)
    (g : GuestSession) : bool :=
  bool_decide (gs_project g = project ∧ gs_fingerprint g = fingerprint)
  && match gs_expires_at g with Some e => now <? e | None => true end
  && match share_links db !! gs_share_link g with Some l => link_live now l | None => false end.

Definition guest_session_access (now : time) (project : uuid) (fingerprint : bytes)
    (db : AccessDB) : option GuestSessionAccess :=
  (λ kg, MkGuestAccess kg.1 (gs_display_name kg.2) (gs_permission kg.2)) <$>
    head (select (λ _, session_admits now project fingerprint db) (guest_sessions db)).

Definition touch_guest_session (session : uuid) (now : time) (db : AccessDB) : AccessDB :=
  db <| guest_sessions :=
    alter (λ g, g <| gs_last_used_at := Some now |>) session (guest_sessions db) |>.

(** [order by permission asc]: 'read' before 'write'. *)
Definition list_active (project : uuid) (include_write_links : bool) (db : AccessDB) :
    list (uuid * ShareLink) :=
  order_by (λ kl : uuid * ShareLink, if can_write (sl_permission kl.2) then 1 else 0)
    (select (λ _ l, bool_decide (sl_project l = project ∧ sl_revoked_at l = None)
                    && (include_write_links || bool_decide (sl_permission l = PermissionRead)))
       (share_links db)).

(** [insert ... on conflict (project_id, permission) where revoked_at is null do
    update]: the token of an active link is kept. *)
Definition active_link (project : uuid) (permission : ProjectPermission) (db : AccessDB) :
    option (uuid * ShareLink) :=
  head (select (λ _ l, bool_decide (sl_project l = project ∧ sl_permission l = permission
                                    ∧ sl_revoked_at l = None)) (share_links db)).

Definition upsert_active (id : uuid) (value : ShareLink) (db : AccessDB) :
    result sqlx_error ((uuid * ShareLink * bool) * AccessDB) :=
  let valid_user := match sl_created_by value with
                    | Some u => bool_decide (is_Some (users db !! u)) | None => true end in
  match active_link (sl_project value) (sl_permission value) db with
  | Some (old_id, old) =>
      if negb valid_user then Err ForeignKeyViolation else
      let link := old <| sl_created_by := sl_created_by value |>
                      <| sl_created_at := sl_created_at value |>
                      <| sl_expires_at := sl_expires_at value |> in
      Ok ((old_id, link, false), db <| share_links := <[old_id := link]> (share_links db) |>)
  | None =>
      if negb valid_user || bool_decide (projects db !! sl_project value = None)
      then Err ForeignKeyViolation else
      if exists_row (λ _ l, bool_decide (sl_token_value l = sl_token_value value)) (share_links db)
      then Err UniqueViolation else
      match insert_row id value (share_links db) with
      | Ok t => Ok ((id, value, true), db <| share_links := t |>)
      | Err e => Err e
      end
  end.

Definition revoke (project link : uuid) (now : time) (db : AccessDB) :
    result sqlx_error (bool * AccessDB) :=
  match share_links db !! link with
  | Some l =>
      if bool_decide (sl_project l = project ∧ sl_revoked_at l = None)
      then Ok (true, db <| share_links :=
             <[link := l <| sl_revoked_at := Some now |>]> (share_links db) |>)
      else Ok (false, db)
  | None => Ok (false, db)
  end.

Definition delete_guest_sessions (project : uuid) (db : AccessDB) : AccessDB :=
  db <| guest_sessions := delete_rows (λ _ g, bool_decide (gs_project g = project))
                            (guest_sessions db) |>.

Definition insert_anonymous_session (id : uuid) (value : GuestSession) (db : AccessDB) :
    result sqlx_error (unit * AccessDB) :=
  match projects db !! gs_project value, share_links db !! gs_share_link value with
  | Some _, Some _ =>
      if negb (length (gs_fingerprint value) =? 32)%nat then Err CheckViolation else
      if exists_row (λ _ g, bool_decide (gs_fingerprint g = gs_fingerprint value))
           (guest_sessions db)
      then Err UniqueViolation else
      match insert_row id value (guest_sessions db) with
      | Ok t => Ok ((), db <| guest_sessions := t |>)
      | Err e => Err e
      end
  | _, _ => Err ForeignKeyViolation
  end.

(** ** sharing *)

Section sharing.
Context (s : schedule).

Inductive EnableProjectShareLinkError : Type :=
| ExpirationNotFuture | EnablePersistence (e : sqlx_error).

Definition enable_project_share_link (now : time) (share_link_id : uuid) (candidate_token : text)
    (project : uuid) (permission : ProjectPermission) (expires_at : option time) (actor : uuid)
    (db : AccessDB) : result EnableProjectShareLinkError (uuid * ShareLink * bool) * AccessDB :=
  if match expires_at with Some e => e <=? now | None => false end
  then (Err ExpirationNotFuture, db) else
  let token_prefix := take 12 candidate_token in
  let fail e := Err (EnablePersistence e) in
  transact s fail (
    upserted ← exec s fail (upsert_active share_link_id
      (MkShareLink project token_prefix candidate_token permission (Some actor) now expires_at None));
    _ ← exec s fail (advance_project_access_epoch project);
    mret (Ok upserted)) db.

Inductive RevokeProjectShareLinkError : Type :=
| LinkNotFound | RevokePersistence (e : sqlx_error).

Definition revoke_project_share_link (now : time) (project share_link_id : uuid) :
    AccessDB → result RevokeProjectShareLinkError unit * AccessDB :=
  let fail e := Err (RevokePersistence e) in
  transact s fail (
    revoked ← exec s fail (revoke project share_link_id now);
    if negb revoked then early (Err LinkNotFound) else
    _ ← exec s fail (advance_project_access_epoch project);
    mret (Ok ())).

Inductive ShareTokenError : Type :=
| EmptyToken | TokenNotFound | TokenPersistence (e : sqlx_error).

Record JoinedProjectShareLink : Type := MkJoined {
  jl_project : uuid; jl_role : ProjectRole; jl_permission : ProjectPermission }.

Definition join_project_share_link (now : time) (actor : uuid) (token : text) (db : AccessDB) :
    result ShareTokenError JoinedProjectShareLink * AccessDB :=
  let token := trim token in
  if text_eqb token [] then (Err EmptyToken, db) else
  let fail e := Err (TokenPersistence e) in
  transact s fail (
    grant ← exec s fail (reads (link_with_token now token));
    match grant with
    | None => early (Err TokenNotFound)
    | Some (_, l) =>
        role ← exec s fail (grant_project_share_link_role_at_least (sl_project l) actor
                              (project_role (sl_permission l)) now);
        _ ← exec s fail (advance_project_access_epoch (sl_project l));
        mret (Ok (MkJoined (sl_project l) role (sl_permission l)))
    end) db.

(** [revoke_project_temporary_sessions], inside the caller's transaction. *)
Definition revoke_project_temporary_sessions {R} (fail : sqlx_error → R) (project : uuid) :
    Tx AccessDB R unit :=
  _ ← exec s fail (writes (delete_guest_sessions project));
  _ ← exec s fail (advance_project_access_epoch project);
  mret ().

Definition resolve_project_share_link (now : time) (token : text) (db : AccessDB) :
    result ShareTokenError (uuid * ProjectPermission) * AccessDB :=
  let token := trim token in
  if text_eqb token [] then (Err EmptyToken, db) else
  match autocommit s 0 (reads (link_with_token now token)) db with
  | (Err e, db) => (Err (TokenPersistence e), db)
  | (Ok None, db) => (Err TokenNotFound, db)
  | (Ok (Some (_, l)), db) => (Ok (sl_project l, sl_permission l), db)
  end.

Inductive CreateTemporaryShareLoginError : Type :=
| GuestWriteDisabled | LoginEmptyToken | InvalidDisplayName | LoginNotFound
| TemplateUnsupported | WritePermissionRequired | LoginPersistence (e : sqlx_error).

Record TemporaryShareSession : Type := MkTemporary {
  ts_project : uuid; ts_session_token : text; ts_session_id : uuid; ts_display_name : text;
  ts_permission : ProjectPermission }.

(** [lock_temporary_share_target]. *)
Definition temporary_share_target (now : time) (token : text) (project : uuid) (db : AccessDB) :
    option (uuid * ShareLink) :=
  head (select (λ _ l, bool_decide (sl_token_value l = token ∧ sl_project l = project)
                       && link_live now l) (share_links db)).

Definition days (n : Z) : Z := seconds (n * 86400).

Definition create_temporary_share_login (sha256 : bytes → bytes) (now : time) (session_id : uuid)
    (session_token token display_name : text) (mode : AnonymousMode) (db : AccessDB) :
    result CreateTemporaryShareLoginError TemporaryShareSession * AccessDB :=
  if negb (allows_guest_write mode) then (Err GuestWriteDisabled, db) else
  let token := trim token in
  let display_name := trim display_name in
  if text_eqb token [] then (Err LoginEmptyToken, db) else
  if text_eqb display_name [] || (64 <? str_len display_name)%N
  then (Err InvalidDisplayName, db) else
  let fail e := Err (LoginPersistence e) in
  transact s fail (
    target_project ← exec s fail (reads (λ db, sl_project ∘ snd <$> link_with_token now token db));
    match target_project with
    | None => early (Err LoginNotFound)
    | Some project =>
        is_template ← exec s fail (reads (λ db, p_is_template <$> projects db !! project));
        match is_template with
        | None => early (Err LoginNotFound)
        | Some true => early (Err TemplateUnsupported)
        | Some false =>
            target ← exec s fail (reads (temporary_share_target now token project));
            match target with
            | None => early (Err LoginNotFound)
            | Some (link_id, l) =>
                if negb (bool_decide (sl_permission l = PermissionWrite))
                then early (Err WritePermissionRequired) else
                _ ← exec s fail (insert_anonymous_session session_id
                      (MkGuestSession project link_id (sha256 (utf8 session_token)) display_name
                         (sl_permission l) now (Some (now + days 30)) (Some now)));
                mret (Ok (MkTemporary project session_token session_id display_name
                            (sl_permission l)))
            end
        end
    end) db.
End sharing.

(** * Access: organizations and OIDC groups

    access::organization, ::organization_persistence, ::oidc_group and
    ::oidc_group_persistence: memberships never lose an owner implicitly, and a
    login replaces the user's groups and the memberships they map to. *)
(** ** organization *)

(** [Uuid::from_u128(1)]. *)
Definition SITE_ADMIN_ORGANIZATION_ID : uuid := 1%N.

Definition user_is_owner (organization user : uuid) (db : AccessDB) : bool :=
  match memberships db !! (organization, user) with
  | Some m => bool_decide (mb_role m = OrganizationOwner)
  | None => false
  end.

Definition organization_user_is_site_admin (user : uuid) (db : AccessDB) : bool :=
  user_is_owner SITE_ADMIN_ORGANIZATION_ID user db.

Definition kept_owner (role : OrganizationRole) (joined_at : time) (m : option Membership) :
    Membership :=
  match m with
  | Some m => if bool_decide (mb_role m = OrganizationOwner) then m else m <| mb_role := role |>
  | None => MkMembership role joined_at
  end.

Definition upsert_organization_membership_role (organization user : uuid)
    (role : OrganizationRole) (joined_at : time) (db : AccessDB) :
    result sqlx_error (unit * AccessDB) :=
  match organizations db !! organization, users db !! user with
  | Some _, Some _ =>
      Ok ((), db <| memberships := <[(organization, user) :=
             kept_owner role joined_at (memberships db !! (organization, user))]>
           (memberships db) |>)
  | _, _ => Err ForeignKeyViolation
  end.

Definition grant_site_admin_membership (user : uuid) (granted_at : time) :
    AccessDB → result sqlx_error (unit * AccessDB) :=
  upsert_organization_membership_role SITE_ADMIN_ORGANIZATION_ID user OrganizationOwner granted_at.

Definition delete_non_owner_organization_membership (organization user : uuid) (db : AccessDB) :
    AccessDB :=
  if user_is_owner organization user db then db
  else db <| memberships := delete (organization, user) (memberships db) |>.

Definition list_organization_membership_roles (user : uuid) (db : AccessDB) :
    gmap uuid OrganizationRole :=
  list_to_map ((λ km, (km.1.1, mb_role km.2)) <$>
    select (λ k _, bool_decide (k.2 = user)) (memberships db)).

Inductive CreateOrganizationError : Type :=
| EmptyName | OrganizationPersistence (e : sqlx_error).

Definition create_organization (s : schedule) (id : uuid) (name : text) (db : AccessDB) :
    result CreateOrganizationError text * AccessDB :=
  let name := trim name in
  if text_eqb name [] then (Err EmptyName, db) else
  let fail e := Err (OrganizationPersistence e) in
  transact s fail (
    _ ← exec s fail (λ db,
          match insert_row id name (organizations db) with
          | Ok t => Ok ((), db <| organizations := t |>)
          | Err e => Err e
          end);
    mret (Ok name)) db.

(** ** oidc_group *)

Section groups.
Context (s : schedule).

Inductive UpsertGroupMappingError : Type :=
| EmptyMappedGroup | MappingPersistence (e : sqlx_error) | MappingNotFound.

Definition upsert_organization_group_mapping (now : time) (organization : uuid)
    (group_name : text) (role : OrganizationRole) (db : AccessDB) :
    result UpsertGroupMappingError GroupMapping * AccessDB :=
  let group := trim group_name in
  if text_eqb group [] then (Err EmptyMappedGroup, db) else
  let fail e := Err (MappingPersistence e) in
  transact s fail (
    m ← exec s fail (λ db,
          match organizations db !! organization with
          | Some _ =>
              let m := MkMapping role now in
              Ok (m, db <| group_mappings := <[(organization, group) := m]> (group_mappings db) |>)
          | None => Err ForeignKeyViolation
          end);
    mret (Ok m)) db.

Definition delete_organization_group_mapping (organization : uuid) (group_name : text) :
    AccessDB → result UpsertGroupMappingError unit * AccessDB :=
  let fail e := Err (MappingPersistence e) in
  transact s fail (
    deleted ← exec s fail (λ db,
      Ok (bool_decide (is_Some (group_mappings db !! (organization, group_name))),
          db <| group_mappings := delete (organization, group_name) (group_mappings db) |>));
    if negb deleted then early (Err MappingNotFound) else mret (Ok ())).

(** [replace_user_groups]. *)
Definition delete_user_groups (user : uuid) (db : AccessDB) : AccessDB :=
  db <| user_groups := filter (λ ug, ug.1 ≠ user) (user_groups db) |>.
Definition insert_user_group (user : uuid) (group : text) (db : AccessDB) :
    result sqlx_error (unit * AccessDB) :=
  if bool_decide (users db !! user = None) then Err ForeignKeyViolation else
  if bool_decide ((user, group) ∈ user_groups db) then Err UniqueViolation else
  Ok ((), db <| user_groups := {[(user, group)]} ∪ user_groups db |>).

(** The role a set of mappings gives in an organization: the highest of the
    mappings of the user's groups. *)
Definition add_desired (groups : list text) (desired : gmap uuid OrganizationRole)
    (m : (uuid * text) * GroupMapping) : gmap uuid OrganizationRole :=
  let '((organization, group), row) := m in
  if negb (bool_decide (group ∈ groups)) then desired else
  <[organization := match desired !! organization with
                    | Some current =>
                        if organization_rank current <? organization_rank (gm_role row)
                        then gm_role row else current
                    | None => gm_role row
                    end]> desired.
Definition desired_roles (groups : list text) (mappings : list ((uuid * text) * GroupMapping)) :
    gmap uuid OrganizationRole := foldl (add_desired groups) ∅ mappings.

Definition membership_role_needs_upsert (current : option OrganizationRole)
    (desired : OrganizationRole) : bool :=
  match current with
  | Some current => negb (bool_decide (current = desired ∨ current = OrganizationOwner))
  | None => true
  end.

(** The organizations the two loops visit. *)
Definition to_upsert (current desired : gmap uuid OrganizationRole) :
    list (uuid * OrganizationRole) :=
  filter (λ ds, membership_role_needs_upsert (current !! ds.1) ds.2 = true) (map_to_list desired).
Definition to_delete (mapped : list uuid) (current desired : gmap uuid OrganizationRole) :
    list (uuid * OrganizationRole) :=
  filter (λ cs, negb (bool_decide (cs.2 = OrganizationOwner)
                      || bool_decide (is_Some (desired !! cs.1))
                      || negb (bool_decide (cs.1 ∈ mapped))) = true) (map_to_list current).

Definition sync_oidc_identity_groups (now : time) (user : uuid) (groups : list text) :
    AccessDB → result sqlx_error (list uuid) * AccessDB :=
  transact s Err (
    _ ← exec s Err (writes (delete_user_groups user));
    _ ← tx_for groups (λ group, exec s Err (insert_user_group user group));
    mappings ← exec s Err (reads (λ db, map_to_list (group_mappings db)));
    current ← exec s Err (reads (list_organization_membership_roles user));
    let mapped := (λ m, m.1.1) <$> mappings in
    let desired := desired_roles groups mappings in
    let added := to_upsert current desired in
    let removed := to_delete mapped current desired in
    _ ← tx_for added (λ dr, exec s Err
          (upsert_organization_membership_role dr.1 user dr.2 now));
    _ ← tx_for removed (λ cr, exec s Err
          (writes (delete_non_owner_organization_membership cr.1 user)));
    affected ← exec s Err (advance_organization_project_access_epochs
                             (remove_dups (added.*1 ++ removed.*1)));
    mret (Ok affected)).
End groups.

(** * Templates: status and organization grants

    templates::template_status and ::organization_grants over the access
    tables. *)
(** [workspace::set_project_template_status]. *)
Definition set_project_template_status (project : uuid) (is_template : bool) (db : AccessDB) :
    result sqlx_error (option bool * AccessDB) :=
  match projects db !! project with
  | Some p => Ok (Some is_template,
               db <| projects := <[project := p <| p_is_template := is_template |>]> (projects db) |>)
  | None => Ok (None, db)
  end.

Section templates.
Context (s : schedule).

Inductive UpdateTemplateStatusError : Type :=
| TemplateProjectNotFound | TemplateStatusPersistence (e : sqlx_error).

Definition update_project_template (project : uuid) (is_template : bool) :
    AccessDB → result UpdateTemplateStatusError bool * AccessDB :=
  let fail e : result UpdateTemplateStatusError bool := Err (TemplateStatusPersistence e) in
  transact s fail (
    _ ← exec s fail (writes (λ db : AccessDB, db));
    set ← exec s fail (set_project_template_status project is_template);
    match set with
    | None => early (Err TemplateProjectNotFound)
    | Some is_template =>
        _ ← match is_template with
            | true => revoke_project_temporary_sessions s fail project
            | false => exec s fail (writes (revoke_all_template_organization_access project))
            end;
        mret (Ok is_template)
    end).

Inductive TemplateGrantError : Type :=
| ProjectNotTemplate | GrantProjectNotFound | OrganizationMembershipRequired
| TemplateGrantNotFound | TemplateGrantPersistence (e : sqlx_error).

Definition upsert_project_template_organization_access (now : time)
    (project organization actor : uuid) : AccessDB → result TemplateGrantError text * AccessDB :=
  let fail e : result TemplateGrantError text := Err (TemplateGrantPersistence e) in
  transact s fail (
    status ← exec s fail (reads (λ db, p_is_template <$> projects db !! project));
    match status with
    | Some false => early (Err ProjectNotTemplate)
    | None => early (Err GrantProjectNotFound)
    | Some true =>
        member ← exec s fail (reads (organization_user_is_member actor organization));
        if negb member then early (Err OrganizationMembershipRequired) else
        access ← exec s fail (grant_template_organization_access project organization actor now);
        mret (Ok access)
    end).

Definition delete_project_template_organization_access (project organization : uuid)
    (db : AccessDB) : result TemplateGrantError unit * AccessDB :=
  match revoke_template_organization_access s project organization db with
  | (Err e, db) => (Err (TemplateGrantPersistence e), db)
  | (Ok false, db) => (Err TemplateGrantNotFound, db)
  | (Ok true, db) => (Ok (), db)
  end.
End templates.
