(* ===== verification/Authorization.v ===== *)
(** * Access: authorization

    access::principal, ::resolution_persistence and ::authorization: who a
    request speaks for and what it may do to a project. *)
From S2P Require Import Prelude Store Text AccessModel AccessGrants AccessSharing.

Open Scope Z_scope.

(** ** principal *)

(** The first value of a header, when it is a valid string
    ([HeaderMap::get], [HeaderValue::to_str]; crate http). *)
Abbreviation HeaderMap := (text → option text).

Inductive RequestAuthenticationError : Type := Required | AuthenticationStore (e : sqlx_error).

(** The process environment and the library functions the requests use. *)
Record Environment : Type := MkEnvironment {
  AUTH_DEV_HEADER_ENABLED : option text;
  parse_uuid : text → option uuid;
  sha256 : bytes → bytes;
}.

Definition actor_user_id (env : Environment) (headers : HeaderMap) : option uuid :=
  let allow_dev_header :=
    match AUTH_DEV_HEADER_ENABLED env with
    | Some value => text_eqb value (lit "1") || eq_ignore_ascii_case value (lit "true")
    | None => false
    end in
  if negb allow_dev_header then None
  else headers (lit "x-user-id") ≫= parse_uuid env.

Definition bearer_token (headers : HeaderMap) : option text :=
  trim <$> (headers (lit "authorization") ≫= strip_prefix (lit "Bearer ")).

(** [str::split_once]. *)
Fixpoint split_once (sep : N) (t : text) : option (text * text) :=
  match t with
  | [] => None
  | c :: t =>
      if (c =? sep)%N then Some ([], t)
      else '(a, b) ← split_once sep t; Some (c :: a, b)
  end.

Definition semicolon : N := 0x3B%N.
Definition equals_sign : N := 0x3D%N.

Fixpoint cookie_among (name : text) (parts : list text) : option text :=
  match parts with
  | [] => None
  | part :: parts =>
      match split_once equals_sign (trim part) with
      | Some (key, value) =>
          if text_eqb (trim key) name then Some (trim value) else cookie_among name parts
      | None => cookie_among name parts
      end
  end.
Definition cookie_value (headers : HeaderMap) (name : text) : option text :=
  cookie_header ← headers (lit "cookie"); cookie_among name (split semicolon cookie_header).

Definition header_value (headers : HeaderMap) (name : text) : option text :=
  value ← headers name;
  if text_eqb (trim value) [] then None else Some (trim value).

Definition session_user_id (env : Environment) (now : time) (token : text) (db : AccessDB) :
    option uuid :=
  row ← auth_sessions db !! sha256 env (utf8 token);
  if now <? as_expires_at row then Some (as_user row) else None.

(** ** resolution_persistence *)

Record ProjectUserAccess : Type := MkUserAccess {
  ua_direct_role : option ProjectRole;
  ua_organization_permission : option ProjectPermission }.

(** The permissions the user's organizations give, the strongest first. *)
Definition organization_permissions (user project : uuid) (db : AccessDB) :
    list ProjectPermission :=
  (λ kg, g_permission kg.2) <$>
    order_by (λ kg : (uuid * uuid) * OrganizationGrant,
                if can_write (g_permission kg.2) then 0 else 1)
      (select (λ k _, bool_decide (k.1 = project) && organization_user_is_member user k.2 db)
         (organization_access db)).

Definition project_user_access (user project : uuid) (db : AccessDB) : ProjectUserAccess :=
  MkUserAccess (r_role <$> project_roles db !! (project, user))
               (head (organization_permissions user project db)).

Definition has_template_access (user project : uuid) (db : AccessDB) : bool :=
  exists_row (λ k _, bool_decide (k.1 = project) && organization_user_is_member user k.2 db)
    (template_access db).

Record ProjectCatalogAccess : Type := MkCatalogAccess {
  ca_project_id : uuid; ca_direct_role : option ProjectRole;
  ca_organization_permission : option ProjectPermission; ca_has_template_access : bool }.

Definition visible_projects (user : uuid) (db : AccessDB) : gset uuid :=
  list_to_set ((λ kr, kr.1.1) <$> select (λ k _, bool_decide (k.2 = user)) (project_roles db))
  ∪ list_to_set ((λ kg, kg.1.1) <$> select (λ k _, organization_user_is_member user k.2 db)
                                     (organization_access db))
  ∪ list_to_set ((λ kg, kg.1.1) <$> select (λ k _, organization_user_is_member user k.2 db)
                                     (template_access db)).

Definition catalog_record (user : uuid) (db : AccessDB) (project : uuid) : ProjectCatalogAccess :=
  let access := project_user_access user project db in
  MkCatalogAccess project (ua_direct_role access) (ua_organization_permission access)
    (has_template_access user project db).

Definition list_project_catalog_access (user : uuid) (db : AccessDB) : list ProjectCatalogAccess :=
  catalog_record user db <$> elements (visible_projects user db).

Definition project_user_has_catalog_access (user project : uuid) (include_template_access : bool)
    (db : AccessDB) : bool :=
  bool_decide (is_Some (project_roles db !! (project, user)))
  || exists_row (λ k _, bool_decide (k.1 = project) && organization_user_is_member user k.2 db)
       (organization_access db)
  || (include_template_access && has_template_access user project db).

(** ** authorization *)

Inductive ProjectAuthorizationQuery : Type :=
  QueryAnonymousMode | QueryGuestSession | QueryShareLink | QueryUserAccess.
Inductive ProjectAuthorizationError : Type :=
| AuthenticationRequired
| PermissionDenied
| Authentication (e : RequestAuthenticationError)
| AuthorizationStore (query : ProjectAuthorizationQuery) (e : sqlx_error).
Inductive SiteAdminAuthorizationError : Type :=
| AdminAuthenticationRequired
| AdminPermissionDenied
| AdminAuthentication (e : RequestAuthenticationError)
| AdminStore (e : sqlx_error).

Inductive AccessNeed : Type := Read | Write | Manage | GitSync.

Definition allows_role (need : AccessNeed) (role : ProjectRole) : bool :=
  match need with
  | Read => true
  | Write => bool_decide (role = Owner ∨ role = ReadWrite)
  | Manage | GitSync => bool_decide (role = Owner)
  end.
Definition allows_organization_permission (need : AccessNeed) (p : ProjectPermission) : bool :=
  match need with
  | Read => true
  | Write => can_write p
  | Manage | GitSync => false
  end.

Definition catalog_can_read (a : ProjectCatalogAccess) : bool :=
  bool_decide (is_Some (ca_direct_role a)) || bool_decide (is_Some (ca_organization_permission a)).
Definition permits_catalog_entry (a : ProjectCatalogAccess) (is_template : bool) : bool :=
  catalog_can_read a || (is_template && ca_has_template_access a).
Definition effective_role (a : ProjectCatalogAccess) : ProjectRole :=
  let direct_role := default ReadOnly (ca_direct_role a) in
  let organization_role := from_option project_role ReadOnly (ca_organization_permission a) in
  if rank direct_role <? rank organization_role then organization_role else direct_role.

Record ProjectAccessPrincipal : Type := MkPrincipal {
  pp_user_id : option uuid; pp_guest_session_id : option uuid;
  pp_guest_display_name : option text; pp_can_write : bool }.

Definition project_user_access_allows (direct_role : option ProjectRole)
    (organization_permission : option ProjectPermission) (need : AccessNeed) : bool :=
  from_option (allows_role need) false direct_role
  || from_option (allows_organization_permission need) false organization_permission.

Section authorization.
Context (s : schedule) (env : Environment) (now : time) (headers : HeaderMap).

(** A session token, when the request has one, asked in the store. *)
Definition session_of (token : option text) :
    Pool AccessDB RequestAuthenticationError (option uuid) :=
  match token with
  | Some token => stmt s AuthenticationStore (reads (session_user_id env now token))
  | None => mret None
  end.

Definition request_user_id : Pool AccessDB RequestAuthenticationError (option uuid) :=
  match actor_user_id env headers with
  | Some user => mret (Some user)
  | None =>
      by_bearer ← session_of (bearer_token headers);
      match by_bearer with
      | Some user => mret (Some user)
      | None => session_of (cookie_value headers (lit "typst_session"))
      end
  end.

Definition required_request_user_id : Pool AccessDB RequestAuthenticationError uuid :=
  user ← request_user_id;
  match user with Some user => mret user | None => throw Required end.

(** The [?] on an error of another type. *)
Definition lift_error {E E' A} (f : E → E') (m : Pool AccessDB E A) : Pool AccessDB E' A :=
  λ db n, match m db n with
          | (Ok a, db', n') => (Ok a, db', n')
          | (Err e, db', n') => (Err (f e), db', n')
          end.

Abbreviation Authorize := (Pool AccessDB ProjectAuthorizationError).

Definition ensure_project_role_for_user (actor project : uuid) (need : AccessNeed) :
    Authorize unit :=
  access ← stmt s (AuthorizationStore QueryUserAccess) (reads (project_user_access actor project));
  if project_user_access_allows (ua_direct_role access) (ua_organization_permission access) need
  then mret () else throw PermissionDenied.

(** [match ensure_project_role_for_user(.., Write).await]. *)
Definition user_can_write (actor project : uuid) : Authorize bool := λ db n,
  match ensure_project_role_for_user actor project Write db n with
  | (Ok _, db', n') => (Ok true, db', n')
  | (Err PermissionDenied, db', n') => (Ok false, db', n')
  | (Err e, db', n') => (Err e, db', n')
  end.

Definition load_anonymous_mode : Authorize AnonymousMode :=
  stmt s (AuthorizationStore QueryAnonymousMode) (reads (λ db, default Off (anonymous_mode db))).

Definition project_access_via_guest_session (project : uuid) (token : text) :
    Authorize (option ProjectAccessPrincipal) :=
  access ← stmt s (AuthorizationStore QueryGuestSession)
             (reads (guest_session_access now project (sha256 env (utf8 token))));
  match access with
  | None => mret None
  | Some a =>
      _ ← logged s (writes (touch_guest_session (ga_session_id a) now));
      mret (Some (MkPrincipal None (Some (ga_session_id a)) (Some (ga_display_name a))
                    (can_write (ga_permission a))))
  end.

(** The last part of [ensure_project_access]: the share token. *)
Definition access_via_share_token (mode : AnonymousMode) (project : uuid) (need : AccessNeed) :
    Authorize ProjectAccessPrincipal :=
  let share_token := match header_value headers (lit "x-share-token") with
                     | Some token => Some token
                     | None => cookie_value headers (lit "typst_share_token")
                     end in
  match share_token with
  | None => throw AuthenticationRequired
  | Some token =>
      permission ← stmt s (AuthorizationStore QueryShareLink)
                     (reads (share_link_permission now project token));
      match permission with
      | None => throw PermissionDenied
      | Some permission =>
          if negb (allows_read mode) then throw AuthenticationRequired else
          match need with
          | Write | Manage | GitSync => throw PermissionDenied
          | Read => mret (MkPrincipal None None None (can_write permission))
          end
      end
  end.

(** The checks on a principal of a guest session. *)
Definition admit_guest (mode : AnonymousMode) (need : AccessNeed)
    (principal : ProjectAccessPrincipal) : Authorize ProjectAccessPrincipal :=
  if negb (allows_read mode) then throw AuthenticationRequired else
  match need with
  | Write => if negb (allows_guest_write mode) || negb (pp_can_write principal)
             then throw PermissionDenied else mret principal
  | Manage | GitSync => throw PermissionDenied
  | Read => mret principal
  end.

Definition ensure_project_access (project : uuid) (need : AccessNeed) :
    Authorize ProjectAccessPrincipal :=
  user ← lift_error Authentication request_user_id;
  match user with
  | Some actor =>
      _ ← ensure_project_role_for_user actor project need;
      writable ← match need with
                 | Write | Manage | GitSync => mret true
                 | Read => user_can_write actor project
                 end;
      mret (MkPrincipal (Some actor) None None writable)
  | None =>
      mode ← load_anonymous_mode;
      if bool_decide (mode = Off) then throw AuthenticationRequired else
      guest ← match header_value headers (lit "x-guest-session") with
              | Some token => project_access_via_guest_session project token
              | None => mret None
              end;
      match guest with
      | Some principal => admit_guest mode need principal
      | None => access_via_share_token mode project need
      end
  end.

Definition ensure_project_role (project : uuid) (need : AccessNeed) : Authorize uuid :=
  user ← lift_error Authentication request_user_id;
  match user with
  | None => throw AuthenticationRequired
  | Some actor => _ ← ensure_project_role_for_user actor project need; mret actor
  end.

Definition ensure_site_admin : Pool AccessDB SiteAdminAuthorizationError uuid :=
  user ← lift_error AdminAuthentication request_user_id;
  match user with
  | None => throw AdminAuthenticationRequired
  | Some actor =>
      admin ← stmt s AdminStore (reads (organization_user_is_site_admin actor));
      if negb admin then throw AdminPermissionDenied else mret actor
  end.
End authorization.
