(* ===== verification/AccessSystem.v ===== *)
(** * Access: the operations as one system, and a small deployment

    An [AccessOp] is one request that changes the access tables, the creation of
    a project and the registration of a user included; a run is a sequence of
    them, each at its own time and under its own server.  No code deletes a
    project, a user or an organization. *)
From S2P Require Import Prelude Store Text AccessModel AccessGrants AccessSharing.
From S2P Require Import Authorization.

Open Scope Z_scope.

Inductive AccessOp : Type :=
| OUpsertRole (project user : uuid) (role : ProjectRole)
| OUpsertOrganization (project organization : uuid) (permission : ProjectPermission) (actor : uuid)
| ODeleteOrganization (project organization : uuid)
| OUpsertGroup (project : uuid) (group : text) (role : ProjectRole)
| ODeleteGroup (project : uuid) (group : text)
| OEnableLink (id : uuid) (token : text) (project : uuid) (permission : ProjectPermission)
    (expires_at : option time) (actor : uuid)
| ORevokeLink (project link : uuid)
| OJoin (actor : uuid) (token : text)
| OGuestLogin (sha256 : bytes → bytes) (id : uuid) (session_token token name : text)
    (mode : AnonymousMode)
| OTouch (session : uuid)
| OSetTemplate (project : uuid) (is_template : bool)
| OUpsertTemplateGrant (project organization actor : uuid)
| ODeleteTemplateGrant (project organization : uuid)
| OSyncGroups (user : uuid) (groups : list text)
| OUpsertMapping (organization : uuid) (group : text) (role : OrganizationRole)
| ODeleteMapping (organization : uuid) (group : text)
| OCreateOrganization (id : uuid) (name : text)
| OGrantSiteAdmin (user : uuid)
| OProvision (project owner : uuid)
| ORegister (id : uuid) (user : User).

(** workspace::provision_project, of its tables those the access operations
    read: the project row and its first owner. *)
Definition insert_project (project : uuid) (db : AccessDB) : result sqlx_error (unit * AccessDB) :=
  match insert_row project (MkProject 0 false) (projects db) with
  | Ok t => Ok ((), db <| projects := t |>)
  | Err e => Err e
  end.
Definition provision_project (s : schedule) (now : time) (project owner : uuid) :
    AccessDB → result sqlx_error unit * AccessDB :=
  transact s Err (
    _ ← exec s Err (insert_project project);
    _ ← grant_initial_project_owner s Err project owner now;
    mret (Ok ())).

(** The row of a new account, however it was registered. *)
Definition insert_user (id : uuid) (user : User) (db : AccessDB) :
    result sqlx_error (unit * AccessDB) :=
  match insert_row id user (users db) with
  | Ok t => Ok ((), db <| users := t |>)
  | Err e => Err e
  end.

Definition run_access (s : schedule) (now : time) (op : AccessOp) (db : AccessDB) : AccessDB :=
  match op with
  | OUpsertRole project user role => (upsert_project_role s now project user role db).2
  | OUpsertOrganization project organization permission actor =>
      (upsert_project_organization_access s now project organization permission actor db).2
  | ODeleteOrganization project organization =>
      (delete_project_organization_access s project organization db).2
  | OUpsertGroup project group role => (upsert_project_group_role s now project group role db).2
  | ODeleteGroup project group => (delete_project_group_role s project group db).2
  | OEnableLink id token project permission expires_at actor =>
      (enable_project_share_link s now id token project permission expires_at actor db).2
  | ORevokeLink project link => (revoke_project_share_link s now project link db).2
  | OJoin actor token => (join_project_share_link s now actor token db).2
  | OGuestLogin sha256 id session_token token name mode =>
      (create_temporary_share_login s sha256 now id session_token token name mode db).2
  | OTouch session => (autocommit s 0 (writes (touch_guest_session session now)) db).2
  | OSetTemplate project is_template => (update_project_template s project is_template db).2
  | OUpsertTemplateGrant project organization actor =>
      (upsert_project_template_organization_access s now project organization actor db).2
  | ODeleteTemplateGrant project organization =>
      (delete_project_template_organization_access s project organization db).2
  | OSyncGroups user groups => (sync_oidc_identity_groups s now user groups db).2
  | OUpsertMapping organization group role =>
      (upsert_organization_group_mapping s now organization group role db).2
  | ODeleteMapping organization group =>
      (delete_organization_group_mapping s organization group db).2
  | OCreateOrganization id name => (create_organization s id name db).2
  | OGrantSiteAdmin user => (autocommit s 0 (grant_site_admin_membership user now) db).2
  | OProvision project owner => (provision_project s now project owner db).2
  | ORegister id user => (autocommit s 0 (insert_user id user) db).2
  end.

Abbreviation access_trace := (list (schedule * time * AccessOp)).

Definition run_trace (trace : access_trace) (db : AccessDB) : AccessDB :=
  foldl (λ db '(s, now, op), run_access s now op db) db trace.

(** ** Credentials and what they admit at a time *)

Inductive Credential : Type :=
| CUser (user : uuid)
| CGuest (fingerprint : bytes)
| CLink (token : text).

Definition capability (project : uuid) (need : AccessNeed) (at_time : time) (c : Credential)
    (db : AccessDB) : bool :=
  match c with
  | CUser user =>
      let a := project_user_access user project db in
      project_user_access_allows (ua_direct_role a) (ua_organization_permission a) need
  | CGuest fingerprint =>
      match need, guest_session_access at_time project fingerprint db with
      | Read, Some _ => true
      | Write, Some a => can_write (ga_permission a)
      | _, _ => false
      end
  | CLink token =>
      match need, share_link_permission at_time project token db with
      | Read, Some _ => true
      | _, _ => false
      end
  end.

(** ** Well-formed access tables *)

Record AccessInv (db : AccessDB) : Prop := {
  ai_tokens : ∀ k k' l l', share_links db !! k = Some l → share_links db !! k' = Some l' →
              sl_token_value l = sl_token_value l' → k = k';
  ai_active : ∀ k k' l l', share_links db !! k = Some l → share_links db !! k' = Some l' →
              sl_project l = sl_project l' → sl_permission l = sl_permission l' →
              sl_revoked_at l = None → sl_revoked_at l' = None → k = k';
  ai_fingerprints : ∀ k k' g g', guest_sessions db !! k = Some g →
              guest_sessions db !! k' = Some g' → gs_fingerprint g = gs_fingerprint g' → k = k';
  ai_guests : ∀ k g, guest_sessions db !! k = Some g →
              gs_permission g = PermissionWrite
              ∧ (∃ p, projects db !! gs_project g = Some p ∧ p_is_template p = false)
              ∧ (∃ l, share_links db !! gs_share_link g = Some l ∧ sl_project l = gs_project g
                      ∧ sl_permission l = PermissionWrite);
  ai_templates : ∀ k t, template_access db !! k = Some t →
              ∃ p, projects db !! k.1 = Some p ∧ p_is_template p = true;
}.

(** * Access: a small deployment

    Concrete tables the theorems on access are instantiated at: alice owns a
    project that an organization with bob as its member may write; groups of
    the identity provider map to the organization. *)
Definition alice : uuid := 1%N.
Definition bob : uuid := 2%N.
Definition carol : uuid := 3%N.
Definition lab : uuid := 5%N.
Definition thesis : uuid := 10%N.
Definition write_link : uuid := 20%N.

Definition sample_user (name : text) : User := MkUser name name.
Definition sample_db : AccessDB := {|
  anonymous_mode := Some ReadOnlyMode;
  users := list_to_map [(alice, sample_user (lit "alice")); (bob, sample_user (lit "bob"));
                        (carol, sample_user (lit "carol"))];
  auth_sessions := ∅;
  organizations := list_to_map [(lab, lit "lab")];
  memberships := list_to_map [((lab, bob), MkMembership OrganizationMember 0)];
  projects := list_to_map [(thesis, MkProject 0 false)];
  project_roles := list_to_map [((thesis, alice), MkRole Owner 0 DirectRole)];
  organization_access := list_to_map [((thesis, lab), MkGrant PermissionWrite (Some alice) 0)];
  group_roles := ∅; template_access := ∅; share_links := ∅; guest_sessions := ∅;
  group_mappings := list_to_map [((lab, lit "staff"), MkMapping OrganizationMember 0)];
  user_groups := ∅ |}.

(** After a write link was enabled, and after it was revoked. *)
Definition link_token : text := lit "toss_share_token".
Definition enable_write_link : AccessOp :=
  OEnableLink write_link link_token thesis PermissionWrite None alice.
Definition shared_db : AccessDB := run_access healthy 1 enable_write_link sample_db.
Definition revoked_db : AccessDB := run_access healthy 2 (ORevokeLink thesis write_link) shared_db.

(** A visitor who presents the link. *)
Definition sample_environment : Environment := MkEnvironment None (λ _, None) (λ b, b).
Definition visitor_headers : HeaderMap := λ name,
  if text_eqb name (lit "x-share-token") then Some link_token else None.
