(* ===== verification/AccessSteps.v ===== *)
(** * Access: how one request changes the tables

    Every operation preserves the table invariant, never lowers an access
    epoch, keeps revoked links, and either leaves a project's access alone or
    advances its epoch. *)
From S2P Require Import Prelude Store Text AccessModel AccessGrants AccessSharing.
From S2P Require Import Authorization AccessSystem.

Open Scope Z_scope.

(** ** What a capability rests on *)

Lemma organization_user_is_member_true user organization db :
  organization_user_is_member user organization db = true ↔
  is_Some (memberships db !! (organization, user)).
Proof. apply bool_decide_eq_true. Qed.

Lemma allows_permission_mono need p q :
  can_write p = true ∨ can_write q = false →
  allows_organization_permission need q = true → allows_organization_permission need p = true.
Proof. by destruct need, p, q; naive_solver. Qed.

(** The strongest permission of the user's organizations comes first. *)
Lemma organization_permissions_spec user project need db :
  from_option (allows_organization_permission need) false
    (head (organization_permissions user project db)) = true ↔
  ∃ o g, organization_access db !! (project, o) = Some g
         ∧ is_Some (memberships db !! (o, user))
         ∧ allows_organization_permission need (g_permission g) = true.
Proof.
  unfold organization_permissions.
  set (rows := select _ (organization_access db)).
  assert (∀ k g, (k, g) ∈ rows ↔ organization_access db !! k = Some g ∧ k.1 = project
                                  ∧ is_Some (memberships db !! (k.2, user))) as Hrows.
  { intros k g. unfold rows. rewrite elem_of_select, andb_true_iff, bool_decide_eq_true,
      organization_user_is_member_true. done. }
  set (key := λ kg : (uuid * uuid) * OrganizationGrant, if can_write (g_permission kg.2) then 0 else 1).
  rewrite head_fmap_option. split.
  - destruct (head (order_by key rows)) as [[[p o] g]|] eqn:Hh; [|done]. simpl. intros Ha.
    apply order_by_head_le in Hh as [Hin _]. apply Hrows in Hin as (Hg & Hp & Hm); simpl in *; subst p.
    by exists o, g.
  - intros (o & g & Hg & Hm & Ha).
    assert (((project, o), g) ∈ rows) as Hin by by apply Hrows.
    destruct (head (order_by key rows)) as [[k g']|] eqn:Hh.
    + simpl. apply order_by_head_le in Hh as [_ Hle]. specialize (Hle _ Hin). unfold key in Hle.
      simpl in Hle. eapply allows_permission_mono; [|exact Ha].
      destruct (can_write (g_permission g')), (can_write (g_permission g)); auto; lia.
    + exfalso. assert (((project, o), g) ∈ order_by key rows) as Hin' by by apply elem_of_order_by.
      destruct (order_by key rows); [by apply elem_of_nil in Hin'|done].
Qed.

Lemma user_capability project need t user db :
  capability project need t (CUser user) db = true ↔
  (∃ r, project_roles db !! (project, user) = Some r ∧ allows_role need (r_role r) = true)
  ∨ ∃ o g, organization_access db !! (project, o) = Some g
           ∧ is_Some (memberships db !! (o, user))
           ∧ allows_organization_permission need (g_permission g) = true.
Proof.
  unfold capability, project_user_access_allows, project_user_access. cbn.
  rewrite orb_true_iff, organization_permissions_spec.
  destruct (project_roles db !! (project, user)) as [r|]; simpl; naive_solver.
Qed.

Lemma link_capability project need t token db :
  capability project need t (CLink token) db = true ↔
  need = Read ∧ ∃ k l, share_links db !! k = Some l ∧ sl_project l = project
                       ∧ sl_token_value l = token ∧ link_live t l = true.
Proof.
  unfold capability, share_link_permission. set (rows := select _ (share_links db)).
  assert (∀ k l, (k, l) ∈ rows ↔ share_links db !! k = Some l ∧ sl_project l = project
            ∧ sl_token_value l = token ∧ link_live t l = true) as Hrows.
  { intros k l. unfold rows. rewrite elem_of_select, andb_true_iff, bool_decide_eq_true. naive_solver. }
  destruct (head rows) as [[k l]|] eqn:Hh; simpl.
  - apply head_mem, Hrows in Hh. destruct need; naive_solver.
  - assert (rows = []) as Hnil by by destruct rows.
    split; [by destruct need|]. intros (-> & k & l & Hl%Hrows). rewrite Hnil in Hl.
    by apply elem_of_nil in Hl.
Qed.

Lemma session_admits_true t project fingerprint db g :
  session_admits t project fingerprint db g = true ↔
  gs_project g = project ∧ gs_fingerprint g = fingerprint
  ∧ (∀ e, gs_expires_at g = Some e → t < e)
  ∧ ∃ l, share_links db !! gs_share_link g = Some l ∧ link_live t l = true.
Proof.
  unfold session_admits. rewrite !andb_true_iff, bool_decide_eq_true.
  assert (match gs_expires_at g with Some e => t <? e | None => true end = true
          ↔ ∀ e, gs_expires_at g = Some e → t < e) as ->.
  { destruct (gs_expires_at g) as [e|]; [rewrite Z.ltb_lt|]; naive_solver. }
  destruct (share_links db !! gs_share_link g); naive_solver.
Qed.

Lemma guest_capability project need t fingerprint db :
  AccessInv db →
  capability project need t (CGuest fingerprint) db = true ↔
  (need = Read ∨ need = Write) ∧
  ∃ k g, guest_sessions db !! k = Some g ∧ session_admits t project fingerprint db g = true.
Proof.
  intros HI. unfold capability, guest_session_access.
  set (rows := select _ (guest_sessions db)).
  assert (∀ k g, (k, g) ∈ rows ↔ guest_sessions db !! k = Some g
                                 ∧ session_admits t project fingerprint db g = true) as Hrows
    by (intros k g; unfold rows; by rewrite elem_of_select).
  destruct (head rows) as [[k g]|] eqn:Hh; simpl.
  - apply head_mem, Hrows in Hh as [Hg Ha].
    destruct (ai_guests _ HI _ _ Hg) as [-> _]. destruct need; naive_solver.
  - assert (rows = []) as Hnil by by destruct rows.
    split; [by destruct need|]. intros (_ & k & g & Hg%Hrows). rewrite Hnil in Hg.
    by apply elem_of_nil in Hg.
Qed.

(** ** Steps *)

(** The rows a project's access rests on are still there. *)
Record agree_on (project : uuid) (db db' : AccessDB) : Prop := {
  ag_roles : ∀ user, project_roles db' !! (project, user) = project_roles db !! (project, user);
  ag_grants : ∀ o, organization_access db' !! (project, o) = organization_access db !! (project, o);
  ag_members : ∀ o g user, organization_access db !! (project, o) = Some g →
               is_Some (memberships db !! (o, user)) → is_Some (memberships db' !! (o, user));
  ag_links : ∀ k l, share_links db !! k = Some l → sl_project l = project →
             share_links db' !! k = Some l;
  ag_guests : ∀ k g, guest_sessions db !! k = Some g → gs_project g = project →
              ∃ g', guest_sessions db' !! k = Some g' ∧ gs_project g' = project
                ∧ gs_fingerprint g' = gs_fingerprint g ∧ gs_expires_at g' = gs_expires_at g
                ∧ gs_share_link g' = gs_share_link g;
}.

Definition epoch_advanced (project : uuid) (db db' : AccessDB) : Prop :=
  ∀ e, project_access_epoch project db = Some e →
       ∃ e', project_access_epoch project db' = Some e' ∧ e < e'.

Definition epochs_monotone (db db' : AccessDB) : Prop :=
  ∀ project e, project_access_epoch project db = Some e →
               ∃ e', project_access_epoch project db' = Some e' ∧ e ≤ e'.

(** Links stay, with their token; a revoked link stays as it is. *)
Definition links_persist (db db' : AccessDB) : Prop :=
  ∀ k l, share_links db !! k = Some l →
  ∃ l', share_links db' !! k = Some l' ∧ sl_token_value l' = sl_token_value l
        ∧ (sl_revoked_at l ≠ None → l' = l).

Record access_step (db db' : AccessDB) : Prop := {
  st_inv : AccessInv db';
  st_epochs : epochs_monotone db db';
  st_links : links_persist db db';
  st_project : ∀ project, agree_on project db db' ∨ epoch_advanced project db db';
}.

Lemma agree_on_refl project db : agree_on project db db.
Proof. split; eauto 10. Qed.

Lemma epochs_monotone_refl db : epochs_monotone db db.
Proof. intros project e He. exists e. by split; [|lia]. Qed.

Lemma epochs_monotone_same db db' : projects db' = projects db → epochs_monotone db db'.
Proof.
  intros Heq project e He. exists e. split; [|lia]. unfold project_access_epoch in *. by rewrite Heq.
Qed.

Lemma links_persist_refl db : links_persist db db.
Proof. intros k l Hl. by exists l. Qed.

Lemma links_persist_same db db' : share_links db' = share_links db → links_persist db db'.
Proof. intros Heq k l Hl. exists l. by rewrite Heq. Qed.

Lemma access_step_refl db : AccessInv db → access_step db db.
Proof.
  split; [done|apply epochs_monotone_refl|apply links_persist_refl|intros; left; apply agree_on_refl].
Qed.

Lemma links_persist_trans db1 db2 db3 :
  links_persist db1 db2 → links_persist db2 db3 → links_persist db1 db3.
Proof.
  intros H12 H23 k l Hl. destruct (H12 k l Hl) as (l2 & Hl2 & Ht2 & Hr2).
  destruct (H23 k l2 Hl2) as (l3 & Hl3 & Ht3 & Hr3). exists l3.
  split; [done|]. split; [congruence|]. intros Hr. specialize (Hr2 Hr). subst l2. auto.
Qed.

Lemma epochs_monotone_trans db1 db2 db3 :
  epochs_monotone db1 db2 → epochs_monotone db2 db3 → epochs_monotone db1 db3.
Proof.
  intros H12 H23 project e He. destruct (H12 _ _ He) as (e2 & He2 & ?).
  destruct (H23 _ _ He2) as (e3 & He3 & ?). exists e3. split; [done|lia].
Qed.

(** Where the rows agree, so do the capabilities. *)
Lemma agree_on_capability project need t c db db' :
  AccessInv db → AccessInv db' → agree_on project db db' →
  capability project need t c db = true → capability project need t c db' = true.
Proof.
  intros HI HI' [Hr Hg Hm Hl Hs]. destruct c as [user|fingerprint|token].
  - rewrite !user_capability. intros [(r & ? & ?)|(o & g & ? & ? & ?)].
    + left. exists r. by rewrite Hr.
    + right. exists o, g. rewrite Hg. eauto.
  - rewrite !guest_capability by done. intros (Hn & k & g & Hk & Ha). split; [done|].
    apply session_admits_true in Ha as (Hp & Hf & He & l & Hlk & Hlive).
    destruct (Hs _ _ Hk Hp) as (g' & Hk' & Hp' & Hf' & He' & Hsl). exists k, g'. split; [done|].
    apply session_admits_true. rewrite Hp', Hf', He', Hsl. split_and!; [done..|].
    exists l. split; [|done]. apply Hl; [done|].
    destruct (ai_guests _ HI _ _ Hk) as (_ & _ & l2 & Hl2 & Hpl & _). congruence.
  - rewrite !link_capability. intros (Hn & k & l & Hk & Hp & Ht & Hlive). split; [done|].
    exists k, l. split_and!; [by apply Hl|done..].
Qed.

(** ** Mutations followed by the epoch of their project *)

Lemma advance_spec project db z db' :
  advance_project_access_epoch project db = Ok (z, db') →
  ∃ p, projects db !! project = Some p ∧ z = p_access_epoch p + 1
    ∧ db' = db <| projects := <[project := p <| p_access_epoch := p_access_epoch p + 1 |>]>
                                (projects db) |>.
Proof.
  unfold advance_project_access_epoch. destruct (projects db !! project) as [p|]; [|done].
  destruct (_ <=? _); [done|]. intros [= <- <-]. by exists p.
Qed.

(** Only the project table changed, and no project's classification did. *)
Lemma AccessInv_projects f db :
  (∀ k p, projects db !! k = Some p → ∃ p', f !! k = Some p' ∧ p_is_template p' = p_is_template p) →
  AccessInv db → AccessInv (db <| projects := f |>).
Proof.
  intros Hf [Ht Ha Hfp Hg Htm]. split; cbn; [done..| |].
  - intros k g Hk. destruct (Hg k g Hk) as (? & (p & Hp & Hpt) & ?). split; [done|].
    split; [|done]. destruct (Hf _ _ Hp) as (p' & ? & ?). exists p'. split; [done|congruence].
  - intros k t Hk. destruct (Htm k t Hk) as (p & Hp & Hpt).
    destruct (Hf _ _ Hp) as (p' & ? & ?). exists p'. split; [done|congruence].
Qed.

Lemma advanced_classification (project : uuid) p (t : gmap uuid Project) :
  t !! project = Some p →
  ∀ k q, t !! k = Some q →
  ∃ q', <[project := p <| p_access_epoch := p_access_epoch p + 1 |>]> t !! k = Some q'
        ∧ p_is_template q' = p_is_template q.
Proof.
  intros Hp k q Hq. destruct (decide (project = k)) as [<-|Hne].
  - rewrite lookup_insert_eq. eexists. split; [done|]. cbn. congruence.
  - rewrite lookup_insert_ne by done. by exists q.
Qed.

(** The rest of the argument shared by every operation on one project. *)
Lemma targeted_step project db db1 z db2 :
  AccessInv db1 →
  (∀ k, project_access_epoch k db1 = project_access_epoch k db) →
  links_persist db db1 →
  (∀ other, other ≠ project → agree_on other db db1) →
  advance_project_access_epoch project db1 = Ok (z, db2) →
  access_step db db2.
Proof.
  intros HI He Hlinks Hag (p & Hp & -> & ->)%advance_spec.
  assert (∀ k, project_access_epoch k (db1 <| projects :=
             <[project := p <| p_access_epoch := p_access_epoch p + 1 |>]> (projects db1) |>)
           = if decide (k = project) then Some (p_access_epoch p + 1)
             else project_access_epoch k db) as Hepoch.
  { intros k. rewrite <-He. unfold project_access_epoch. cbn. case_decide as Hk.
    - subst k. by rewrite lookup_insert_eq.
    - by rewrite lookup_insert_ne. }
  assert (project_access_epoch project db = Some (p_access_epoch p)) as Hold.
  { rewrite <-He. unfold project_access_epoch. by rewrite Hp. }
  split.
  - apply AccessInv_projects; [by apply advanced_classification|done].
  - intros k e Hk. rewrite Hepoch. case_decide; [subst|by exists e; split; [|lia]].
    rewrite Hold in Hk. simplify_eq. eexists. split; [done|lia].
  - intros k l Hl. destruct (Hlinks k l Hl) as (l' & ?). by exists l'.
  - intros other. destruct (decide (other = project)) as [->|Hne].
    + right. intros e Hk. rewrite Hepoch, decide_True by done. rewrite Hold in Hk. simplify_eq.
      eexists. split; [done|lia].
    + left. destruct (Hag other Hne) as [? ? ? ? ?]. by split.
Qed.

(** A change to the access of one project, its epoch not yet advanced. *)
Record mutation (project : uuid) (db db1 : AccessDB) : Prop := {
  mu_inv : AccessInv db1;
  mu_epochs : ∀ k, project_access_epoch k db1 = project_access_epoch k db;
  mu_links : links_persist db db1;
  mu_agree : ∀ other, other ≠ project → agree_on other db db1;
}.

Lemma mutation_step project db db1 z db2 :
  mutation project db db1 → advance_project_access_epoch project db1 = Ok (z, db2) →
  access_step db db2.
Proof. intros [? ? ? ?]. by apply targeted_step. Qed.

Lemma AccessInv_tables db db' :
  share_links db' = share_links db → guest_sessions db' = guest_sessions db →
  projects db' = projects db → template_access db' = template_access db →
  AccessInv db → AccessInv db'.
Proof. intros Hl Hg Hp Ht [? ? ? ? ?]. split; rewrite ?Hl, ?Hg, ?Hp, ?Ht; done. Qed.

Lemma put_role_mutation project user f db r db1 :
  AccessInv db → put_role project user f db = Ok (r, db1) → mutation project db db1.
Proof.
  intros HI. unfold put_role. destruct (projects db !! project), (users db !! user); try done.
  intros [= <- <-]. split; [by apply (AccessInv_tables db)|done|by apply links_persist_same|].
  intros other Hne. split; cbn; eauto 10. intros ?. rewrite lookup_insert_ne; congruence.
Qed.

Lemma upsert_organization_access_mutation project o perm by_user at_time db name db1 :
  AccessInv db → upsert_organization_access project o perm by_user at_time db = Ok (name, db1) →
  mutation project db db1.
Proof.
  intros HI. unfold upsert_organization_access.
  destruct (projects db !! project), (organizations db !! o), (users db !! by_user); try done.
  intros [= <- <-]. split; [by apply (AccessInv_tables db)|done|by apply links_persist_same|].
  intros other Hne. split; cbn; eauto 10. intros ?. rewrite lookup_insert_ne; congruence.
Qed.

Lemma delete_organization_access_mutation project o db b db1 :
  AccessInv db → delete_organization_access project o db = Ok (b, db1) → mutation project db db1.
Proof.
  intros HI [= <- <-]. split; [by apply (AccessInv_tables db)|done|by apply links_persist_same|].
  intros other Hne. split; cbn; eauto 10. intros ?. rewrite lookup_delete_ne; congruence.
Qed.

(** Changes to tables no access rests on. *)
Lemma neutral_mutation project db db1 :
  AccessInv db →
  share_links db1 = share_links db → guest_sessions db1 = guest_sessions db →
  projects db1 = projects db → template_access db1 = template_access db →
  project_roles db1 = project_roles db → organization_access db1 = organization_access db →
  (∀ k, is_Some (memberships db !! k) → is_Some (memberships db1 !! k)) →
  mutation project db db1.
Proof.
  intros HI Hl Hg Hp Ht Hr Ho Hm. split.
  - by apply (AccessInv_tables db).
  - intros k. unfold project_access_epoch. by rewrite Hp.
  - by apply links_persist_same.
  - intros other _. split; rewrite ?Hr, ?Ho, ?Hl, ?Hg; eauto 10.
Qed.

Lemma neutral_step db db1 :
  AccessInv db →
  share_links db1 = share_links db → guest_sessions db1 = guest_sessions db →
  projects db1 = projects db → template_access db1 = template_access db →
  project_roles db1 = project_roles db → organization_access db1 = organization_access db →
  (∀ k, is_Some (memberships db !! k) → is_Some (memberships db1 !! k)) →
  access_step db db1.
Proof.
  intros HI Hl Hg Hp Ht Hr Ho Hm. split.
  - by apply (AccessInv_tables db).
  - by apply epochs_monotone_same.
  - by apply links_persist_same.
  - intros project. left. split; rewrite ?Hr, ?Ho, ?Hl, ?Hg; eauto 10.
Qed.

(** *** Share links *)

Lemma active_link_Some project permission db k l :
  active_link project permission db = Some (k, l) →
  share_links db !! k = Some l ∧ sl_project l = project ∧ sl_permission l = permission
  ∧ sl_revoked_at l = None.
Proof. intros [Hl (? & ? & ?)%bool_decide_eq_true]%head_mem%elem_of_select. by split_and!. Qed.

Lemma active_link_None project permission db k l :
  active_link project permission db = None → share_links db !! k = Some l →
  sl_project l = project → sl_permission l = permission → sl_revoked_at l ≠ None.
Proof.
  unfold active_link. intros Hn Hl Hp Hperm Hr.
  assert ((k, l) ∈ select (λ _ l, bool_decide (sl_project l = project ∧ sl_permission l = permission
                                    ∧ sl_revoked_at l = None)) (share_links db)) as Hin.
  { apply elem_of_select. split; [done|]. by apply bool_decide_eq_true. }
  apply head_Some_mem in Hin as [? Hs]. congruence.
Qed.

(** Replacing a link by one with the same identity. *)
Lemma AccessInv_replace_link k l l' db :
  AccessInv db → share_links db !! k = Some l →
  sl_token_value l' = sl_token_value l → sl_project l' = sl_project l →
  sl_permission l' = sl_permission l → (sl_revoked_at l' = None → sl_revoked_at l = None) →
  AccessInv (db <| share_links := <[k := l']> (share_links db) |>).
Proof.
  intros [Ht Ha Hfp Hg Htm] Hk Htok Hproj Hperm Hrev.
  assert (∀ k1 l1, <[k := l']> (share_links db) !! k1 = Some l1 →
          ∃ l0, share_links db !! k1 = Some l0 ∧ sl_token_value l1 = sl_token_value l0
            ∧ sl_project l1 = sl_project l0 ∧ sl_permission l1 = sl_permission l0
            ∧ (sl_revoked_at l1 = None → sl_revoked_at l0 = None)) as Hold.
  { intros k1 l1 [[<- <-]|[Hne Hl1]]%lookup_insert_Some; [by exists l|by exists l1]. }
  split; cbn; [| |done| |done].
  - intros k1 k2 l1 l2 (l3 & ? & ? & _)%Hold (l4 & ? & ? & _)%Hold ?. apply (Ht k1 k2 l3 l4); [done|done|congruence].
  - intros k1 k2 l1 l2 (l3 & ? & ? & ? & ? & ?)%Hold (l4 & ? & ? & ? & ? & ?)%Hold ? ? ? ?.
    eapply (Ha k1 k2 l3 l4); try done; try congruence; auto.
  - intros k1 g Hk1. destruct (Hg k1 g Hk1) as (? & ? & l1 & Hl1 & ? & ?). split_and!; [done..|].
    destruct (decide (k = gs_share_link g)) as [Heq|Hne].
    + exists l'. rewrite <-Heq in Hl1 |- *. rewrite lookup_insert_eq.
      assert (l1 = l) as -> by congruence. split_and!; [done|congruence..].
    + exists l1. by rewrite lookup_insert_ne.
Qed.

Lemma replace_link_mutation k l l' db :
  AccessInv db → share_links db !! k = Some l → sl_revoked_at l = None →
  sl_token_value l' = sl_token_value l → sl_project l' = sl_project l →
  sl_permission l' = sl_permission l →
  mutation (sl_project l) db (db <| share_links := <[k := l']> (share_links db) |>).
Proof.
  intros HI Hk Hr Ht Hp Hperm. split.
  - by eapply AccessInv_replace_link.
  - done.
  - intros k1 l1 Hl1. cbn. destruct (decide (k = k1)) as [<-|Hne].
    + exists l'. rewrite lookup_insert_eq. simplify_eq. by split_and!.
    + exists l1. by rewrite lookup_insert_ne.
  - intros other Hne. split; cbn; eauto 10. intros k1 l1 Hl1 Hp1.
    rewrite lookup_insert_ne; [done|]. intros <-. congruence.
Qed.

Lemma new_link_mutation id l db :
  AccessInv db → share_links db !! id = None →
  (∀ k l', share_links db !! k = Some l' → sl_token_value l' ≠ sl_token_value l) →
  active_link (sl_project l) (sl_permission l) db = None →
  mutation (sl_project l) db (db <| share_links := <[id := l]> (share_links db) |>).
Proof.
  intros HI Hid Htok Hact. split; [|done| |].
  - destruct HI as [Ht Ha Hfp Hg Htm]. split; cbn; [| |done| |done].
    + intros k k' l1 l2 [[<- <-]|[? H1]]%lookup_insert_Some [[<- <-]|[? H2]]%lookup_insert_Some ?;
        [done|by destruct (Htok _ _ H2)|by destruct (Htok _ _ H1)|by eapply Ht].
    + intros k k' l1 l2 [[<- <-]|[? H1]]%lookup_insert_Some [[<- <-]|[? H2]]%lookup_insert_Some
        Hp Hperm Hr1 Hr2; [done| | |by eapply Ha].
      * exfalso. by eapply active_link_None.
      * exfalso. by eapply active_link_None.
    + intros k g Hk. destruct (Hg k g Hk) as (? & ? & l1 & Hl1 & ?). split_and!; [done..|].
      exists l1. rewrite lookup_insert_ne; [done|congruence].
  - intros k l1 Hl1. exists l1. cbn. rewrite lookup_insert_ne; [by split_and!|congruence].
  - intros other Hne. split; cbn; eauto 10. intros k l1 Hl1 _. rewrite lookup_insert_ne; congruence.
Qed.

Lemma upsert_active_mutation id value db out db1 :
  AccessInv db → upsert_active id value db = Ok (out, db1) →
  sl_revoked_at value = None → mutation (sl_project value) db db1.
Proof.
  intros HI. unfold upsert_active. intros H Hrev.
  destruct (active_link (sl_project value) (sl_permission value) db) as [[k l]|] eqn:Ha.
  - apply active_link_Some in Ha as (Hl & Hp & Hperm & Hr). case_match; [done|].
    injection H as <- <-. rewrite <-Hp. by apply replace_link_mutation.
  - case_match; [done|]. destruct (exists_row _ _) eqn:He; [done|].
    destruct (insert_row id value (share_links db)) as [t|] eqn:Hi; [|done].
    injection H as <- <-. apply insert_row_Ok in Hi as [Hid ->]. apply new_link_mutation; try done.
    intros k l Hl Heq. eapply exists_row_false in He; [|exact Hl].
    by apply bool_decide_eq_false in He.
Qed.

Lemma revoke_mutation project link now db b db1 :
  AccessInv db → revoke project link now db = Ok (b, db1) → b = true → mutation project db db1.
Proof.
  intros HI H ->. unfold revoke in H. destruct (share_links db !! link) as [l|] eqn:Hl; [|done].
  case_bool_decide as Hc; [|done]. destruct Hc as [<- Hr]. injection H as <-.
  by apply replace_link_mutation.
Qed.

(** *** Guest sessions and templates *)

Lemma link_with_token_Some now token db k l :
  link_with_token now token db = Some (k, l) →
  share_links db !! k = Some l ∧ sl_token_value l = token ∧ link_live now l = true.
Proof.
  intros [Hl Ha]%head_mem%elem_of_select. apply andb_true_iff in Ha as [Ha%bool_decide_eq_true ?].
  by split_and!.
Qed.

Lemma temporary_share_target_Some now token project db k l :
  temporary_share_target now token project db = Some (k, l) →
  share_links db !! k = Some l ∧ sl_token_value l = token ∧ sl_project l = project
  ∧ link_live now l = true.
Proof.
  intros [Hl Ha]%head_mem%elem_of_select. apply andb_true_iff in Ha as [[? ?]%bool_decide_eq_true ?].
  by split_and!.
Qed.

Lemma insert_guest_step id g p l db db1 :
  AccessInv db → insert_anonymous_session id g db = Ok ((), db1) →
  gs_permission g = PermissionWrite →
  projects db !! gs_project g = Some p → p_is_template p = false →
  share_links db !! gs_share_link g = Some l → sl_project l = gs_project g →
  sl_permission l = PermissionWrite → access_step db db1.
Proof.
  intros HI H Hperm Hp Hpt Hl Hlp Hlperm. unfold insert_anonymous_session in H.
  rewrite Hp, Hl in H. case_match; [done|]. destruct (exists_row _ _) eqn:He; [done|].
  destruct (insert_row id g (guest_sessions db)) as [t|] eqn:Hi; [|done]. injection H as <-.
  apply insert_row_Ok in Hi as [Hid ->].
  assert (∀ k g', guest_sessions db !! k = Some g' → gs_fingerprint g' ≠ gs_fingerprint g) as Hfresh.
  { intros k g' Hg'. eapply exists_row_false in He; [|exact Hg']. by apply bool_decide_eq_false in He. }
  split; [|by apply epochs_monotone_same|by apply links_persist_same|].
  - destruct HI as [Ht Ha Hfp Hg Htm]. split; cbn; [done..| | |done].
    + intros k k' g1 g2 [[<- <-]|[? H1]]%lookup_insert_Some [[<- <-]|[? H2]]%lookup_insert_Some ?;
        [done|by destruct (Hfresh _ _ H2)|by destruct (Hfresh _ _ H1)|by eapply Hfp].
    + intros k g1 [[<- <-]|[? H1]]%lookup_insert_Some; [|by eapply Hg].
      split; [done|]. split; [by exists p|by exists l].
  - intros project. left. split; cbn; eauto 10. intros k g1 Hg1 Hg1p. exists g1.
    rewrite lookup_insert_ne; [by split_and!|congruence].
Qed.

Lemma touch_step session now db : AccessInv db → access_step db (touch_guest_session session now db).
Proof.
  intros HI. unfold touch_guest_session.
  assert (∀ k g, alter (λ g, g <| gs_last_used_at := Some now |>) session (guest_sessions db) !! k = Some g →
          ∃ g0, guest_sessions db !! k = Some g0 ∧ gs_project g = gs_project g0
            ∧ gs_fingerprint g = gs_fingerprint g0 ∧ gs_share_link g = gs_share_link g0
            ∧ gs_permission g = gs_permission g0) as Hold.
  { intros k g. rewrite lookup_alter. case_decide; [subst|by exists g].
    intros (g0 & ? & ->)%fmap_Some_1. by exists g0. }
  split; [|by apply epochs_monotone_same|by apply links_persist_same|].
  - destruct HI as [Ht Ha Hfp Hg Htm]. split; cbn; [done..| | |done].
    + intros k k' g1 g2 (g3 & ? & _ & ? & _)%Hold (g4 & ? & _ & ? & _)%Hold ?.
      apply (Hfp k k' g3 g4); [done|done|congruence].
    + intros k g (g0 & Hg0 & -> & _ & -> & ->)%Hold. by eapply Hg.
  - intros project. left. split; cbn; eauto 10. intros k g Hk Hp. rewrite lookup_alter.
    case_decide; [subst|by exists g]. rewrite Hk. eexists. split; [done|]. by split_and!.
Qed.

Lemma delete_guests_mutation project db :
  AccessInv db → mutation project db (delete_guest_sessions project db).
Proof.
  intros HI. split; [|done|by apply links_persist_same|].
  - destruct HI as [Ht Ha Hfp Hg Htm]. split; cbn; [done..| | |done].
    + intros k k' g g' [? _]%lookup_delete_rows_Some [? _]%lookup_delete_rows_Some. by eapply Hfp.
    + intros k g [? _]%lookup_delete_rows_Some. by eapply Hg.
  - intros other Hne. split; cbn; eauto 10. intros k g Hk Hp. exists g. split; [|by split_and!].
    apply lookup_delete_rows_Some. split; [done|]. apply bool_decide_eq_false. congruence.
Qed.

(** Marking a project as a template, its guest sessions gone. *)
Lemma mark_template_mutation project p db :
  AccessInv db → projects db !! project = Some p →
  mutation project db
    (delete_guest_sessions project
       (db <| projects := <[project := p <| p_is_template := true |>]> (projects db) |>)).
Proof.
  intros HI Hp. destruct (delete_guests_mutation project db HI) as [HI1 _ Hlinks Hag].
  split.
  - destruct HI1 as [Ht Ha Hfp Hg Htm]. split; cbn in *; [done..| |].
    + intros k g Hk. destruct (Hg k g Hk) as (? & (q & Hq & Hqt) & ?). split; [done|].
      split; [|done]. exists q. rewrite lookup_insert_ne; [done|]. intros Heq.
      apply lookup_delete_rows_Some in Hk as [_ Hk]. by apply bool_decide_eq_false in Hk; destruct Hk.
    + intros k t Hk. destruct (Htm k t Hk) as (q & Hq & Hqt).
      destruct (decide (project = k.1)) as [->|Hne].
      * eexists. by rewrite lookup_insert_eq.
      * exists q. by rewrite lookup_insert_ne.
  - intros k. unfold project_access_epoch. cbn. destruct (decide (project = k)) as [<-|Hne].
    + rewrite lookup_insert_eq, Hp. done.
    + by rewrite lookup_insert_ne.
  - by apply links_persist_same.
  - intros other Hne. destruct (Hag other Hne) as [? ? ? ? ?]. by split.
Qed.

Lemma unmark_template_step project p db :
  AccessInv db → projects db !! project = Some p →
  access_step db
    (revoke_all_template_organization_access project
       (db <| projects := <[project := p <| p_is_template := false |>]> (projects db) |>)).
Proof.
  intros HI Hp.
  assert (∀ k, project_access_epoch k (db <| projects :=
            <[project := p <| p_is_template := false |>]> (projects db) |>)
          = project_access_epoch k db) as He.
  { intros k. unfold project_access_epoch. cbn. destruct (decide (project = k)) as [<-|Hne].
    - rewrite lookup_insert_eq, Hp. done.
    - by rewrite lookup_insert_ne. }
  split.
  - destruct HI as [Ht Ha Hfp Hg Htm]. split; cbn; [done..| |].
    + intros k g Hk. destruct (Hg k g Hk) as (? & (q & Hq & Hqt) & ?). split; [done|].
      split; [|done]. destruct (decide (project = gs_project g)) as [->|Hne].
      * eexists. by rewrite lookup_insert_eq.
      * exists q. by rewrite lookup_insert_ne.
    + intros k t [Hk Hne%bool_decide_eq_false]%lookup_delete_rows_Some.
      destruct (Htm k t Hk) as (q & Hq & Hqt). exists q. by rewrite lookup_insert_ne.
  - intros k e Hk. exists e. split; [|lia]. by rewrite <-He in Hk.
  - by apply links_persist_same.
  - intros other. left. split; cbn; eauto 10.
Qed.

(** *** Group synchronisation *)

(** What the membership statements of one synchronisation may have done: only
    memberships and user groups changed, and a membership that is gone is one
    of the user's in an organization among [removed]. *)
Record membership_change (user : uuid) (removed : list uuid) (db db' : AccessDB) : Prop := {
  mc_links : share_links db' = share_links db;
  mc_guests : guest_sessions db' = guest_sessions db;
  mc_projects : projects db' = projects db;
  mc_templates : template_access db' = template_access db;
  mc_roles : project_roles db' = project_roles db;
  mc_grants : organization_access db' = organization_access db;
  mc_members : ∀ k, is_Some (memberships db !! k) →
               is_Some (memberships db' !! k) ∨ k.2 = user ∧ k.1 ∈ removed;
}.

Lemma membership_change_refl user removed db : membership_change user removed db db.
Proof. split; auto. Qed.

Lemma membership_change_trans user removed db1 db2 db3 :
  membership_change user removed db1 db2 → membership_change user removed db2 db3 →
  membership_change user removed db1 db3.
Proof.
  intros [? ? ? ? ? ? H12] [? ? ? ? ? ? H23]. split; try congruence.
  intros k Hk. destruct (H12 k Hk) as [Hk2|?]; [|by right]. by apply H23.
Qed.

Lemma upsert_membership_change o user role at_time removed db db1 :
  upsert_organization_membership_role o user role at_time db = Ok ((), db1) →
  membership_change user removed db db1.
Proof.
  unfold upsert_organization_membership_role.
  destruct (organizations db !! o), (users db !! user); try done. intros [= <-].
  split; try done. intros k Hk. left. cbn. destruct (decide ((o, user) = k)) as [<-|Hne].
  - rewrite lookup_insert_eq. by eexists.
  - by rewrite lookup_insert_ne.
Qed.

Lemma delete_membership_change o user removed db :
  o ∈ removed → membership_change user removed db (delete_non_owner_organization_membership o user db).
Proof.
  intros Ho. unfold delete_non_owner_organization_membership.
  destruct (user_is_owner o user db); [apply membership_change_refl|].
  split; try done. intros k Hk. cbn. destruct (decide ((o, user) = k)) as [<-|Hne]; [by right|].
  left. by rewrite lookup_delete_ne.
Qed.

Lemma insert_user_group_change user group removed db db1 :
  insert_user_group user group db = Ok ((), db1) → membership_change user removed db db1.
Proof.
  unfold insert_user_group. do 2 (case_bool_decide; [done|]). intros [= <-]. split; auto.
Qed.

Lemma elem_of_organization_projects changed db p :
  p ∈ organization_projects changed db ↔
  ∃ o g, organization_access db !! (p, o) = Some g ∧ o ∈ changed.
Proof.
  unfold organization_projects. rewrite elem_of_elements, elem_of_list_to_set, list_elem_of_fmap.
  split.
  - intros ([[p' o] g] & -> & [Hg Ho%bool_decide_eq_true]%elem_of_select). by exists o, g.
  - intros (o & g & Hg & Ho). exists ((p, o), g). split; [done|]. apply elem_of_select.
    split; [done|]. by apply bool_decide_eq_true.
Qed.

Lemma advance_organizations_spec changed db ids db' :
  advance_organization_project_access_epochs changed db = Ok (ids, db') →
  ∃ f, db' = db <| projects := f |> ∧
  ∀ k, f !! k = advance_project_row (organization_projects changed db) k <$> projects db !! k.
Proof.
  unfold advance_organization_project_access_epochs. case_match; [done|]. intros [= _ <-].
  eexists. split; [done|]. intros k. rewrite map_lookup_imap. by destruct (projects db !! k).
Qed.

Lemma synchronised_step user removed changed db db1 ids db2 :
  AccessInv db → membership_change user removed db db1 → (∀ o, o ∈ removed → o ∈ changed) →
  advance_organization_project_access_epochs changed db1 = Ok (ids, db2) → access_step db db2.
Proof.
  intros HI [Hl Hg Hp Ht Hr Ho Hm] Hsub (f & -> & Hf)%advance_organizations_spec.
  assert (∀ k e, project_access_epoch k db = Some e →
     project_access_epoch k (db1 <| projects := f |>)
     = Some (if bool_decide (k ∈ organization_projects changed db1) then e + 1 else e)) as Hepoch.
  { intros k e. unfold project_access_epoch. cbn. rewrite Hf, Hp.
    destruct (projects db !! k) as [p|]; [|done]. simpl. intros [= <-].
    unfold advance_project_row. by case_bool_decide. }
  assert (AccessInv db1) as HI1 by by apply (AccessInv_tables db).
  split.
  - apply AccessInv_projects; [|done]. intros k p Hk. rewrite Hf, Hk. eexists. split; [done|].
    unfold advance_project_row. by case_bool_decide.
  - intros k e Hk. rewrite (Hepoch k e Hk). eexists. split; [done|]. case_bool_decide; lia.
  - by apply links_persist_same.
  - intros project. destruct (decide (project ∈ organization_projects changed db1)) as [Hin|Hout].
    + right. intros e Hk. rewrite (Hepoch _ e Hk), bool_decide_true by done.
      eexists. split; [done|lia].
    + left. split; cbn; rewrite ?Hr, ?Ho, ?Hl, ?Hg; eauto 10.
      intros o g u Hog Hmem. destruct (Hm _ Hmem) as [?|[_ Hrem]]; [done|]. exfalso. apply Hout.
      apply elem_of_organization_projects. exists o, g. rewrite Ho. auto.
Qed.

(** ** Whole operations *)

(** Symbolic execution of an operation's block towards a step. *)
Ltac operation :=
  repeat first
    [ progress wp_step
    | apply wp_exec; [done|intros ? ? ?] ];
  try done.
Ltac start_operation :=
  match goal with
  | HI : AccessInv ?db |- access_step ?db _ =>
      apply (transact_inv (access_step db)); [by apply access_step_refl|]
  end.

Lemma enable_link_step s now id token project permission expires_at actor db :
  AccessInv db →
  access_step db (enable_project_share_link s now id token project permission expires_at actor db).2.
Proof.
  intros HI. unfold enable_project_share_link. case_match; [by apply access_step_refl|].
  start_operation. operation. eapply mutation_step; [|done].
  by eapply (upsert_active_mutation id (MkShareLink project _ _ _ _ _ _ None)).
Qed.

Lemma revoke_link_step s now project link db :
  AccessInv db → access_step db (revoke_project_share_link s now project link db).2.
Proof.
  intros HI. unfold revoke_project_share_link. start_operation. operation.
  eapply mutation_step; [|done]. eapply revoke_mutation; [done|done|]. by apply negb_false_iff.
Qed.

Lemma join_link_step s now actor token db :
  AccessInv db → access_step db (join_project_share_link s now actor token db).2.
Proof.
  intros HI. unfold join_project_share_link. case_match; [by apply access_step_refl|].
  start_operation. operation. eapply mutation_step; [|done].
  unfold grant_project_share_link_role_at_least in *.
  destruct (put_role _ _ _ db) as [[r db2]|] eqn:Hput; [|done]. simplify_eq.
  by eapply put_role_mutation.
Qed.

Lemma guest_login_step s digest now id session_token token name mode db :
  AccessInv db →
  access_step db (create_temporary_share_login s digest now id session_token token name mode db).2.
Proof.
  intros HI. unfold create_temporary_share_login. do 3 (case_match; [by apply access_step_refl|]).
  start_operation. operation.
  repeat match goal with
  | H : temporary_share_target _ _ _ _ = Some _ |- _ => apply temporary_share_target_Some in H as (? & ? & ? & ?)
  | H : p_is_template <$> _ = Some _ |- _ => apply fmap_Some_1 in H as (? & ? & ?)
  | H : negb (bool_decide _) = false |- _ => apply negb_false_iff, bool_decide_eq_true in H
  end.
  match goal with a : unit |- _ => destruct a end.
  by eapply insert_guest_step.
Qed.

Lemma set_template_step s project is_template db :
  AccessInv db → access_step db (update_project_template s project is_template db).2.
Proof.
  intros HI. unfold update_project_template. start_operation.
  wp_step. wp_step. wp_step. apply wp_exec; [done|]. intros found db1 Hset.
  unfold set_project_template_status in Hset.
  destruct (projects db !! project) as [p|] eqn:Hp; simplify_eq; [|operation].
  destruct is_template.
  - unfold revoke_project_temporary_sessions. operation.
    eapply mutation_step; [by apply (mark_template_mutation project p)|done].
  - operation. by apply unmark_template_step.
Qed.

Lemma upsert_template_grant_step s now project organization actor db :
  AccessInv db →
  access_step db (upsert_project_template_organization_access s now project organization actor db).2.
Proof.
  intros HI. unfold upsert_project_template_organization_access. start_operation. operation.
  match goal with H : p_is_template <$> _ = Some true |- _ =>
    apply fmap_Some_1 in H as (p & Hp & Hpt) end.
  match goal with H : grant_template_organization_access _ _ _ _ _ = _ |- _ =>
    unfold grant_template_organization_access in H; rewrite Hp in H;
    destruct (organizations db !! organization), (users db !! actor); simplify_eq end.
  split; [|by apply epochs_monotone_same|by apply links_persist_same|].
  - destruct HI as [Ht Ha Hfp Hg Htm]. split; cbn; [done..|].
    intros k t [[<- <-]|[_ Hk]]%lookup_insert_Some; [by exists p|by eapply Htm].
  - intros other. left. split; cbn; eauto 10.
Qed.

Lemma delete_template_grant_step s project organization db :
  AccessInv db →
  access_step db (delete_project_template_organization_access s project organization db).2.
Proof.
  intros HI. unfold delete_project_template_organization_access.
  assert (access_step db (revoke_template_organization_access s project organization db).2) as Hstep.
  { unfold revoke_template_organization_access.
    apply (autocommit_inv (access_step db)); [by apply access_step_refl|].
    intros a db' [= <- <-]. split; [|by apply epochs_monotone_same|by apply links_persist_same|].
    - destruct HI as [Ht Ha Hfp Hg Htm]. split; cbn; [done..|].
      intros k t [_ Hk]%lookup_delete_Some. by eapply Htm.
    - intros other. left. split; cbn; eauto 10. }
  by destruct (revoke_template_organization_access s project organization db) as [[[]|] db'].
Qed.

Lemma delete_user_groups_change user removed db : membership_change user removed db (delete_user_groups user db).
Proof. split; auto. Qed.

Lemma sync_groups_step s now user groups db :
  AccessInv db → access_step db (sync_oidc_identity_groups s now user groups db).2.
Proof.
  intros HI. unfold sync_oidc_identity_groups. start_operation.
  wp_step. wp_step. wp_step.
  set (I := λ removed db', membership_change user removed db db').
  eapply wp_mono; [apply (wp_for _ _ (λ _, True) (λ _, I []))| done |].
  { apply delete_user_groups_change. }
  { intros group l db' n Hc. apply wp_exec; [done|]. intros [] db2 Hi.
    eapply membership_change_trans; [exact Hc|]. by eapply insert_user_group_change. }
  intros ? db1 ? Hc1. wp_step. wp_step. wp_step. wp_step. cbv zeta.
  set (mappings := map_to_list (group_mappings db1)).
  set (current := list_organization_membership_roles user db1).
  set (desired := desired_roles groups mappings).
  set (added := to_upsert current desired). set (removed := to_delete _ current desired).
  wp_step. eapply wp_mono; [apply (wp_for _ _ (λ _, True) (λ _, I []))| done |].
  { exact Hc1. }
  { intros [o role] l db' n Hc. apply wp_exec; [done|]. intros [] db2 Hi.
    eapply membership_change_trans; [exact Hc|]. by eapply upsert_membership_change. }
  intros ? db2 ? Hc2. wp_step.
  eapply wp_mono; [apply (wp_for _ _ (λ _, True)
    (λ l db', I (removed.*1) db' ∧ ∀ x, x ∈ l → x ∈ removed))| done |].
  { split; [|done]. destruct Hc2 as [? ? ? ? ? ? Hm]. split; try done.
    intros k Hk. destruct (Hm k Hk) as [?|[_ ?%elem_of_nil]]; [by left|done]. }
  { intros [o role] l db' n [Hc Hin]. apply wp_writes; [done|]. split.
    - eapply membership_change_trans; [exact Hc|]. apply delete_membership_change.
      apply list_elem_of_fmap. exists (o, role). split; [done|]. apply Hin. left.
    - intros x Hx. apply Hin. by right. }
  intros ? db3 ? [Hc3 _]. wp_step. apply wp_exec; [done|]. intros ids db4 Hadv. wp_step.
  eapply synchronised_step; [done|exact Hc3| |exact Hadv].
  intros o Ho. apply elem_of_remove_dups, elem_of_app. by right.
Qed.

Lemma provision_step s now project owner db :
  AccessInv db → access_step db (provision_project s now project owner db).2.
Proof.
  intros HI. unfold provision_project, grant_initial_project_owner. start_operation. operation.
  unfold insert_project in *.
  destruct (insert_row project _ (projects db)) as [t|] eqn:Hi; [|done]. simplify_eq.
  apply insert_row_Ok in Hi as [Hnew ->].
  match goal with H : upsert_role _ _ _ _ _ = Ok (_, ?d) |- _ =>
    unfold upsert_role, put_role in H; cbn in H; rewrite lookup_insert_eq in H;
    destruct (users db !! owner); [|done]; simplify_eq end.
  split; [|intros k e He|by apply links_persist_same|intros other].
  - apply (AccessInv_tables (db <| projects := <[project := MkProject 0 false]> (projects db) |>));
      try done.
    apply AccessInv_projects; [|done]. intros k p Hk. exists p.
    rewrite lookup_insert_ne; [done|congruence].
  - exists e. split; [|lia]. unfold project_access_epoch in *. cbn.
    rewrite lookup_insert_ne; [done|]. intros <-. by rewrite Hnew in He.
  - destruct (decide (other = project)) as [->|Hne].
    + right. intros e He. unfold project_access_epoch in He. by rewrite Hnew in He.
    + left. split; cbn; eauto 10. intros ?. rewrite lookup_insert_ne; congruence.
Qed.

Lemma register_step s id user db :
  AccessInv db → access_step db (autocommit s 0 (insert_user id user) db).2.
Proof.
  intros HI. apply (autocommit_inv (access_step db)); [by apply access_step_refl|].
  intros [] db' H. unfold insert_user in H. destruct (insert_row id user (users db)); [|done].
  simplify_eq. by apply neutral_step.
Qed.

Lemma run_access_step s now op db : AccessInv db → access_step db (run_access s now op db).
Proof.
  intros HI. destruct op; cbn [run_access].
  - unfold upsert_project_role. start_operation. operation.
    eapply mutation_step; [|done]. by eapply put_role_mutation.
  - unfold upsert_project_organization_access. start_operation. operation.
    eapply mutation_step; [|done]. by eapply upsert_organization_access_mutation.
  - unfold delete_project_organization_access. start_operation. operation.
    eapply mutation_step; [|done]. by eapply delete_organization_access_mutation.
  - unfold upsert_project_group_role. case_match; [|by apply access_step_refl].
    start_operation. operation. eapply mutation_step; [|done].
    unfold upsert_group_role in *. case_match; [|done]. simplify_eq. by apply neutral_mutation.
  - unfold delete_project_group_role. case_match; [|by apply access_step_refl].
    start_operation. operation. eapply mutation_step; [|done].
    unfold delete_group_role in *. simplify_eq. by apply neutral_mutation.
  - by apply enable_link_step.
  - by apply revoke_link_step.
  - by apply join_link_step.
  - by apply guest_login_step.
  - apply (autocommit_inv (access_step db)); [by apply access_step_refl|].
    intros a db' [= <- <-]. by apply touch_step.
  - by apply set_template_step.
  - by apply upsert_template_grant_step.
  - by apply delete_template_grant_step.
  - by apply sync_groups_step.
  - unfold upsert_organization_group_mapping. case_match; [by apply access_step_refl|].
    start_operation. operation. case_match; [|done]. simplify_eq. by apply neutral_step.
  - unfold delete_organization_group_mapping. start_operation. operation.
    simplify_eq. by apply neutral_step.
  - unfold create_organization. case_match; [by apply access_step_refl|].
    start_operation. operation. case_match; [|done]. simplify_eq. by apply neutral_step.
  - apply (autocommit_inv (access_step db)); [by apply access_step_refl|].
    intros [] db' Hup. apply (upsert_membership_change _ _ _ _ []) in Hup as [? ? ? ? ? ? Hm].
    apply neutral_step; try done. intros k Hk. by destruct (Hm k Hk) as [?|[_ ?%elem_of_nil]].
  - by apply provision_step.
  - by apply register_step.
Qed.
