(* ===== verification/AuthorizationTheorems.v ===== *)
(** * Access: theorems on tables, links and authorization

    Consistency of the access tables, the access-epoch fence, revocation of
    share links, the policy authorization implements, role grants by links,
    group synchronisation, and the two views of a project's audience. *)
From S2P Require Import Prelude Store Text AccessModel AccessGrants AccessSharing Authorization AccessSystem.
From S2P Require Import AccessSteps.

Open Scope Z_scope.

(** ** Reachable tables *)

(** Before the first link, guest or template grant. *)
Definition unshared (db : AccessDB) : Prop :=
  share_links db = ∅ ∧ guest_sessions db = ∅ ∧ template_access db = ∅.

Inductive access_reachable : AccessDB → Prop :=
| access_start db : unshared db → access_reachable db
| access_next s now op db : access_reachable db → access_reachable (run_access s now op db).

Lemma unshared_Inv db : unshared db → AccessInv db.
Proof. intros (Hl & Hg & Ht). split; rewrite ?Hl, ?Hg, ?Ht; intros; by rewrite lookup_empty in *. Qed.

(** C27: whatever the requests and the server do, share-link tokens and guest
    tokens stay unique, a project has at most one active link per permission,
    guest sessions write through a link of their own project that is not a
    template, and only templates have template grants. *)
Theorem access_tables_stay_consistent db : access_reachable db → AccessInv db.
Proof.
  induction 1 as [db Hdb|s now op db _ IH]; [by apply unshared_Inv|]. by apply run_access_step.
Qed.

Lemma sample_unshared : unshared sample_db.
Proof. done. Qed.

Lemma access_tables_stay_consistent_witness : AccessInv revoked_db.
Proof.
  apply access_tables_stay_consistent. unfold revoked_db, shared_db.
  do 2 apply access_next. apply access_start, sample_unshared.
Defined.

(** ** The access-epoch fence *)

Lemma run_trace_step trace db :
  AccessInv db →
  AccessInv (run_trace trace db) ∧ epochs_monotone db (run_trace trace db)
  ∧ links_persist db (run_trace trace db).
Proof.
  induction trace as [|[[s now] op] trace IH] in db |- *; intros HI.
  { split; [done|]. split; [apply epochs_monotone_refl|apply links_persist_refl]. }
  destruct (run_access_step s now op db HI) as [HI1 He1 Hl1 _].
  destruct (IH _ HI1) as (HI2 & He2 & Hl2). split_and!; [done| |].
  - by eapply epochs_monotone_trans.
  - by eapply links_persist_trans.
Qed.

(** A write holding the access epoch of [db] is admitted by the tables [db']. *)
Definition epoch_admits (project : uuid) (db db' : AccessDB) : bool :=
  match project_access_epoch project db with
  | Some e => match lock_project_access_epoch project e db' with Current => true | _ => false end
  | None => false
  end.

Lemma lost_capability_advances_epoch trace db project need t c :
  AccessInv db →
  capability project need t c db = true →
  capability project need t c (run_trace trace db) = false →
  epoch_advanced project db (run_trace trace db).
Proof.
  intros HI Hbefore Hafter.
  induction trace as [|[[s now] op] trace IH] in db, HI, Hbefore, Hafter |- *;
    [cbn in Hafter; congruence|].
  destruct (run_access_step s now op db HI) as [HI1 He1 _ Hproj].
  change (run_trace ((s, now, op) :: trace) db) with (run_trace trace (run_access s now op db)) in *.
  destruct (run_trace_step trace _ HI1) as (_ & He2 & _).
  intros e He. destruct (Hproj project) as [Hag|Hadv].
  - destruct (He1 _ _ He) as (e1 & He1' & Hle).
    destruct (IH _ HI1 (agree_on_capability _ _ _ _ _ _ HI HI1 Hag Hbefore) Hafter e1 He1')
      as (e2 & ? & ?). exists e2. split; [done|lia].
  - destruct (Hadv e He) as (e1 & He1' & Hlt). destruct (He2 _ _ He1') as (e2 & ? & ?).
    exists e2. split; [done|lia].
Qed.

(** An advanced epoch is not the one that was held. *)
Lemma advanced_epoch_refused project e db db' :
  epoch_advanced project db db' → project_access_epoch project db = Some e →
  lock_project_access_epoch project e db' ≠ Current.
Proof.
  intros Hadv He. destruct (Hadv e He) as (e' & He' & Hlt). unfold lock_project_access_epoch. rewrite He'.
  by destruct (Z.eqb_spec e' e); [lia|].
Qed.

(** C29: the access epoch fences writes: once an operation has taken a
    credential's access to a project away, a write still holding the epoch
    under which that access was checked is refused, however many operations
    ran in between. *)
Theorem lost_access_fences_pending_writes trace db project need t c :
  AccessInv db →
  capability project need t c db = true →
  capability project need t c (run_trace trace db) = false →
  epoch_admits project db (run_trace trace db) = false.
Proof.
  intros HI Hbefore Hafter.
  pose proof (lost_capability_advances_epoch _ _ _ _ _ _ HI Hbefore Hafter) as Hadv.
  unfold epoch_admits. destruct (project_access_epoch project db) as [e|] eqn:He; [|done].
  pose proof (advanced_epoch_refused _ _ _ _ Hadv He).
  by destruct (lock_project_access_epoch project e (run_trace trace db)).
Qed.

(** Bob loses the organization's grant between the check and the write. *)
Lemma lost_access_fences_pending_writes_witness :
  let trace := [(healthy, 5, ODeleteOrganization thesis lab)] in
  capability thesis Write 0 (CUser bob) sample_db = true
  ∧ epoch_admits thesis sample_db (run_trace trace sample_db) = false.
Proof.
  split; [vm_compute; reflexivity|].
  apply (lost_access_fences_pending_writes _ _ _ Write 0 (CUser bob)).
  - apply unshared_Inv, sample_unshared.
  - vm_compute. reflexivity.
  - vm_compute. reflexivity.
Defined.

(** ** Revocation *)

(** The link is gone for good. *)
Definition revoked_link (link : uuid) (l : ShareLink) (db : AccessDB) : Prop :=
  share_links db !! link = Some l ∧ sl_revoked_at l ≠ None.

Lemma revoked_not_live t l : sl_revoked_at l ≠ None → link_live t l = false.
Proof. intros H. unfold link_live. by rewrite bool_decide_false. Qed.

(** C30: a revoked link admits nobody again: after any further operations,
    neither its token nor a guest session opened through it gives access to
    any project, at any time, and its token resolves to nothing. *)
Theorem revoked_link_never_admits_again trace db link l t project need :
  AccessInv db → revoked_link link l db →
  let db' := run_trace trace db in
  capability project need t (CLink (sl_token_value l)) db' = false
  ∧ link_with_token t (sl_token_value l) db' = None
  ∧ ∀ k g, guest_sessions db' !! k = Some g → gs_share_link g = link →
           capability project need t (CGuest (gs_fingerprint g)) db' = false.
Proof.
  intros HI [Hl Hr] db'. destruct (run_trace_step trace db HI) as (HI' & _ & Hpersist).
  fold db' in HI', Hpersist.
  destruct (Hpersist link l Hl) as (l' & Hl' & _ & Hsame). rewrite (Hsame Hr) in Hl'.
  assert (∀ k l1, share_links db' !! k = Some l1 → sl_token_value l1 = sl_token_value l →
          link_live t l1 = false) as Hdead.
  { intros k l1 Hk Htok. assert (k = link) as -> by by eapply (ai_tokens _ HI').
    assert (l1 = l) as -> by congruence. by apply revoked_not_live. }
  split_and!.
  - apply not_true_iff_false. rewrite link_capability. intros (_ & k & l1 & Hk & _ & Htok & Hlive).
    rewrite (Hdead k l1 Hk Htok) in Hlive. done.
  - destruct (link_with_token t (sl_token_value l) db') as [[k l1]|] eqn:Hw; [|done].
    apply link_with_token_Some in Hw as (Hk & Htok & Hlive). by rewrite (Hdead k l1 Hk Htok) in Hlive.
  - intros k g Hg Hglink. apply not_true_iff_false. rewrite guest_capability by done.
    intros (_ & k1 & g1 & Hg1 & Ha). apply session_admits_true in Ha as (_ & Hf & _ & l1 & Hl1 & Hlive).
    assert (k1 = k) as -> by by eapply (ai_fingerprints _ HI').
    assert (g1 = g) as -> by congruence. rewrite Hglink in Hl1.
    assert (l1 = l) as -> by congruence. by rewrite revoked_not_live in Hlive.
Qed.

Lemma revoked_link_never_admits_again_witness :
  capability thesis Read 3 (CLink link_token) shared_db = true
  ∧ capability thesis Read 3 (CLink link_token)
      (run_trace [(healthy, 3, OJoin carol link_token)] revoked_db) = false.
Proof.
  split; [vm_compute; reflexivity|].
  assert (∃ l, revoked_link write_link l revoked_db ∧ sl_token_value l = link_token)
    as (l & Hl & Htoken).
  { eexists. split; [split; [vm_compute; reflexivity|discriminate]|reflexivity]. }
  rewrite <-Htoken. apply (revoked_link_never_admits_again _ _ write_link); [|done].
  unfold revoked_db, shared_db. do 2 apply run_access_step. apply unshared_Inv, sample_unshared.
Defined.

(** * Access: the authorization decision

    [ensure_project_access] implements the access policy on every branch; the
    writing flag of a principal is exact for signed-in users and not for
    visitors. *)
(** ** The policy *)

Section policy.
Context (env : Environment) (now : time) (headers : HeaderMap).

(** Who the request speaks for: the development header, else the bearer
    session, else the session cookie. *)
Definition session_identity (token : option text) (db : AccessDB) : option uuid :=
  token ≫= λ token, session_user_id env now token db.
Definition request_identity (db : AccessDB) : option uuid :=
  match actor_user_id env headers with
  | Some user => Some user
  | None =>
      match session_identity (bearer_token headers) db with
      | Some user => Some user
      | None => session_identity (cookie_value headers (lit "typst_session")) db
      end
  end.

Definition guest_access (project : uuid) (db : AccessDB) : option GuestSessionAccess :=
  token ← header_value headers (lit "x-guest-session");
  guest_session_access now project (sha256 env (utf8 token)) db.

Definition presented_share_token : option text :=
  match header_value headers (lit "x-share-token") with
  | Some token => Some token
  | None => cookie_value headers (lit "typst_share_token")
  end.

Definition site_mode (db : AccessDB) : AnonymousMode := default Off (anonymous_mode db).

(** The access the policy gives: a signed-in user what the roles and grants
    allow; a visitor reading, where the site allows it, through a live guest
    session or share link of the project; a named guest also writing, where
    the site allows that; managing and Git to users only. *)
Inductive granted (project : uuid) (db : AccessDB) : AccessNeed → ProjectAccessPrincipal → Prop :=
| granted_user user need :
    request_identity db = Some user →
    capability project need now (CUser user) db = true →
    granted project db need
      (MkPrincipal (Some user) None None (capability project Write now (CUser user) db))
| granted_guest need a :
    request_identity db = None →
    allows_read (site_mode db) = true →
    guest_access project db = Some a →
    need = Read ∨ need = Write ∧ allows_guest_write (site_mode db) = true
                  ∧ can_write (ga_permission a) = true →
    granted project db need
      (MkPrincipal None (Some (ga_session_id a)) (Some (ga_display_name a))
         (can_write (ga_permission a)))
| granted_link token p :
    request_identity db = None →
    allows_read (site_mode db) = true →
    guest_access project db = None →
    presented_share_token = Some token →
    share_link_permission now project token db = Some p →
    granted project db Read (MkPrincipal None None None (can_write p)).

(** The two refusals; the other errors are failures of the store. *)
Definition refusal (r : result ProjectAuthorizationError ProjectAccessPrincipal) : Prop :=
  r = Err AuthenticationRequired ∨ r = Err PermissionDenied.

Definition decides (project : uuid) (need : AccessNeed) (db : AccessDB)
    (r : result ProjectAuthorizationError ProjectAccessPrincipal) (db' : AccessDB) : Prop :=
  (∀ p, r = Ok p → granted project db need p)
  ∧ (refusal r → ∀ p, ¬ granted project db need p)
  ∧ (db' = db ∨ ∃ session, db' = touch_guest_session session now db).

(** ** Lemmas *)

Lemma decides_error project need db e db' :
  e ≠ AuthenticationRequired → e ≠ PermissionDenied →
  db' = db ∨ (∃ session, db' = touch_guest_session session now db) →
  decides project need db (Err e) db'.
Proof. intros He1 He2 Hdb. split; [done|]. split; [|done]. intros [[= ?]|[= ?]]; done. Qed.

Lemma decides_refused project need db e db' :
  (∀ p, ¬ granted project db need p) →
  db' = db ∨ (∃ session, db' = touch_guest_session session now db) →
  decides project need db (Err e) db'.
Proof. intros Hn Hdb. split; [done|]. by split. Qed.

Lemma decides_granted project need db p db' :
  granted project db need p →
  db' = db ∨ (∃ session, db' = touch_guest_session session now db) →
  decides project need db (Ok p) db'.
Proof. intros Hg Hdb. split; [by intros ? [= <-]|]. split; [by intros [?|?]|done]. Qed.

Lemma session_of_wp s token db n (F : RequestAuthenticationError → AccessDB → Prop) Q :
  (∀ e, F (AuthenticationStore e) db) → (∀ n', Q (session_identity token db) db n') →
  pool_wp (session_of s env now token) F Q db n.
Proof.
  intros HF HQ. unfold session_of, session_identity. destruct token as [token|]; simpl.
  - apply pool_wp_reads; [done|apply HQ].
  - apply HQ.
Qed.

Lemma request_user_id_wp s db n F (Q : option uuid → AccessDB → nat → Prop) :
  (∀ e, F (AuthenticationStore e) db) → (∀ n', Q (request_identity db) db n') →
  pool_wp (request_user_id s env now headers) F Q db n.
Proof.
  intros HF HQ. unfold request_user_id, request_identity in *.
  destruct (actor_user_id env headers) as [user|]; [apply HQ|].
  apply pool_wp_bind, session_of_wp; [done|]. intros n'.
  destruct (session_identity (bearer_token headers) db); [apply HQ|].
  by apply session_of_wp.
Qed.

Lemma lift_error_wp {E E' A} (f : E → E') (m : Pool AccessDB E A) F Q db n :
  pool_wp m (λ e, F (f e)) Q db n → pool_wp (lift_error f m) F Q db n.
Proof. unfold pool_wp, lift_error. by destruct (m db n) as [[[a|e] db'] n']. Qed.

Lemma role_for_user_wp s actor project need db n F (Q : unit → AccessDB → nat → Prop) :
  (∀ e, F (AuthorizationStore QueryUserAccess e) db) →
  (capability project need now (CUser actor) db = true → ∀ n', Q () db n') →
  (capability project need now (CUser actor) db = false → F PermissionDenied db) →
  pool_wp (ensure_project_role_for_user s actor project need) F Q db n.
Proof.
  intros HF Ht Hf. unfold ensure_project_role_for_user.
  apply pool_wp_bind, pool_wp_reads; [done|]. unfold capability in *. cbv zeta in *.
  destruct (project_user_access_allows _ _ need); [by apply Ht|by apply Hf].
Qed.

Lemma user_can_write_wp s actor project db n F (Q : bool → AccessDB → nat → Prop) :
  (∀ e, F (AuthorizationStore QueryUserAccess e) db) →
  (∀ n', Q (capability project Write now (CUser actor) db) db n') →
  pool_wp (user_can_write s actor project) F Q db n.
Proof.
  intros HF HQ.
  assert (pool_wp (ensure_project_role_for_user s actor project Write)
    (λ e db', db' = db ∧ match e with
                         | PermissionDenied => capability project Write now (CUser actor) db = false
                         | e => F e db end)
    (λ _ db' _, db' = db ∧ capability project Write now (CUser actor) db = true) db n) as Hwp.
  { apply role_for_user_wp; auto. }
  unfold pool_wp, user_can_write in *.
  destruct (ensure_project_role_for_user s actor project Write db n) as [[[[]|e] db'] n'].
  - destruct Hwp as [-> Hc]. rewrite Hc in HQ. apply HQ.
  - destruct e; destruct Hwp as [-> Hc]; try done. rewrite Hc in HQ. apply HQ.
Qed.

Lemma manage_implies_write project need user db :
  need = Write ∨ need = Manage ∨ need = GitSync →
  capability project need now (CUser user) db = true →
  capability project Write now (CUser user) db = true.
Proof.
  rewrite !user_capability. intros Hneed [(r & Hr & Ha)|(o & g & Hg & Hm & Ha)].
  - left. exists r. split; [done|]. destruct r as [[] ? ?], Hneed as [->|[->| ->]]; done.
  - right. exists o, g. split_and!; [done..|].
    destruct (g_permission g), Hneed as [->|[->| ->]]; done.
Qed.

Lemma read_of_mode m : m ≠ Off → allows_read m = true.
Proof. by destruct m. Qed.
End policy.

(** ** The decision *)

Section decision.
Context (s : schedule) (env : Environment) (now : time) (headers : HeaderMap).
Context (project : uuid) (need : AccessNeed) (db : AccessDB).

Abbreviation decided := (decides env now headers project need db).
Abbreviation granted_here := (granted env now headers project db).

Lemma user_branch_wp user n :
  request_identity env now headers db = Some user →
  pool_wp (_ ← ensure_project_role_for_user s user project need;
           writable ← match need with
                      | Write | Manage | GitSync => mret true
                      | Read => user_can_write s user project
                      end;
           mret (MkPrincipal (Some user) None None writable))
    (λ e db', decided (Err e) db') (λ p db' _, decided (Ok p) db') db n.
Proof.
  intros Hid. assert (∀ e, decided (Err (AuthorizationStore QueryUserAccess e)) db) as Hstore.
  { intros e. apply decides_error; auto. }
  apply pool_wp_bind, (role_for_user_wp now); [done| |].
  - intros Hc n1. assert (granted_here need
      (MkPrincipal (Some user) None None (capability project Write now (CUser user) db))) as Hg
      by by apply granted_user.
    apply pool_wp_bind. destruct need eqn:Hneed.
    + apply (user_can_write_wp now); [done|]. intros n2. apply decides_granted; auto.
    + apply decides_granted; [|auto]. by rewrite Hc in Hg.
    + apply decides_granted; [|auto]. by rewrite (manage_implies_write now _ Manage) in Hg; auto.
    + apply decides_granted; [|auto]. by rewrite (manage_implies_write now _ GitSync) in Hg; auto.
  - intros Hc. apply decides_refused; [|auto]. intros p Hp. inversion Hp; simplify_eq; congruence.
Qed.

Lemma guest_branch_wp mode a db' n :
  request_identity env now headers db = None → mode = site_mode db → mode ≠ Off →
  guest_access env now headers project db = Some a →
  db' = db ∨ (∃ session, db' = touch_guest_session session now db) →
  pool_wp (admit_guest mode need (MkPrincipal None (Some (ga_session_id a))
             (Some (ga_display_name a)) (can_write (ga_permission a))))
    (λ e db', decided (Err e) db') (λ p db' _, decided (Ok p) db') db' n.
Proof.
  intros Hid -> Hoff%read_of_mode Ha Hdb. unfold admit_guest. rewrite Hoff. cbn [negb].
  assert (∀ p, granted_here need p → need = Read ∨ need = Write
            ∧ allows_guest_write (site_mode db) = true ∧ can_write (ga_permission a) = true) as Hinv.
  { intros p Hp. inversion Hp; simplify_eq; try congruence; auto. }
  destruct need eqn:Hneed.
  - apply decides_granted; [|done]. apply granted_guest; auto.
  - cbn [pp_can_write]. case_match eqn:Hw.
    + apply decides_refused; [|done]. intros p Hp. destruct (Hinv p Hp) as [?|(_ & H1 & H2)]; [done|].
      by rewrite H1, H2 in Hw.
    + apply orb_false_iff in Hw as [Hw1%negb_false_iff Hw2%negb_false_iff].
      apply decides_granted; [|done]. apply granted_guest; auto.
  - apply decides_refused; [|done]. intros p Hp. by destruct (Hinv p Hp) as [?|[? _]].
  - apply decides_refused; [|done]. intros p Hp. by destruct (Hinv p Hp) as [?|[? _]].
Qed.

Lemma link_branch_wp mode n :
  request_identity env now headers db = None → mode = site_mode db → mode ≠ Off →
  guest_access env now headers project db = None →
  pool_wp (access_via_share_token s now headers mode project need)
    (λ e db', decided (Err e) db') (λ p db' _, decided (Ok p) db') db n.
Proof.
  intros Hid -> Hoff%read_of_mode Hg. unfold access_via_share_token.
  change (match header_value headers (lit "x-share-token") with
          | Some token => Some token
          | None => cookie_value headers (lit "typst_share_token") end)
    with (presented_share_token headers).
  assert (∀ p, granted_here need p → need = Read ∧ ∃ token q,
            presented_share_token headers = Some token
            ∧ share_link_permission now project token db = Some q) as Hinv.
  { intros p Hp. inversion Hp; simplify_eq; try congruence; eauto. }
  destruct (presented_share_token headers) as [token|] eqn:Ht.
  2: { apply decides_refused; [|auto]. intros p Hp. by destruct (Hinv p Hp) as (_ & ? & ? & ? & _). }
  apply pool_wp_bind, pool_wp_reads; [intros e; apply decides_error; auto|].
  destruct (share_link_permission now project token db) as [q|] eqn:Hq.
  2: { apply decides_refused; [|auto]. intros p Hp.
       destruct (Hinv p Hp) as (_ & ? & ? & ? & ?). congruence. }
  rewrite Hoff. cbn [negb].
  destruct need eqn:Hneed;
    try (apply decides_refused; [|auto]; intros p Hp; by destruct (Hinv p Hp) as [? _]).
  apply decides_granted; [|auto]. by eapply granted_link.
Qed.

Lemma ensure_project_access_decides r db' :
  run_pool (ensure_project_access s env now headers project need) db = (r, db') →
  decides env now headers project need db r db'.
Proof.
  intros H. apply (run_pool_spec _ decided _ _ _ H). clear H.
  unfold ensure_project_access. apply pool_wp_bind, lift_error_wp, request_user_id_wp.
  { intros e. apply decides_error; auto. }
  intros n. destruct (request_identity env now headers db) as [user|] eqn:Hid; [by apply user_branch_wp|].
  apply pool_wp_bind. unfold load_anonymous_mode.
  apply pool_wp_reads; [intros e; apply decides_error; auto|].
  change (default Off (anonymous_mode db)) with (site_mode db).
  case_bool_decide as Hoff.
  { apply decides_refused; [|auto]. intros p Hp. inversion Hp; simplify_eq; try congruence;
      match goal with Hr : allows_read (site_mode db) = true |- _ => by rewrite Hoff in Hr end. }
  apply pool_wp_bind.
  destruct (header_value headers (lit "x-guest-session")) as [token|] eqn:Hheader.
  2: { apply link_branch_wp; auto. unfold guest_access. by rewrite Hheader. }
  assert (guest_access env now headers project db
          = guest_session_access now project (sha256 env (utf8 token)) db) as Hga
    by (unfold guest_access; by rewrite Hheader).
  unfold project_access_via_guest_session.
  apply pool_wp_bind, pool_wp_reads; [intros e; apply decides_error; auto|].
  destruct (guest_session_access now project (sha256 env (utf8 token)) db) as [a|] eqn:Ha.
  - apply pool_wp_bind, pool_wp_logged.
    + apply guest_branch_wp; auto.
    + intros db1 [= <-]. apply guest_branch_wp; eauto.
  - apply link_branch_wp; auto.
Qed.

(** C28: [ensure_project_access] decides by the access policy: what it grants
    is granted by the policy, what it refuses the policy grants in no way, and
    it changes nothing but the last-use instant of a guest session. *)
Theorem access_decisions_follow_the_policy r db' :
  run_pool (ensure_project_access s env now headers project need) db = (r, db') →
  decides env now headers project need db r db'.
Proof. apply ensure_project_access_decides. Qed.
End decision.

Lemma access_decisions_follow_the_policy_witness :
  decides sample_environment 3 visitor_headers thesis Write shared_db (Err PermissionDenied) shared_db.
Proof.
  apply (access_decisions_follow_the_policy healthy). vm_compute. reflexivity.
Defined.

(** ** The writing flag of a visitor *)

Lemma pool_wp_reads_healthy {DB E A} (fail : sqlx_error → E) (f : DB → A) F Q db n :
  Q (f db) db (S n) → pool_wp (stmt healthy fail (reads f)) F Q db n.
Proof. done. Qed.

Lemma request_user_id_healthy env now headers db n F (Q : option uuid → AccessDB → nat → Prop) :
  (∀ n', Q (request_identity env now headers db) db n') →
  pool_wp (request_user_id healthy env now headers) F Q db n.
Proof.
  intros HQ. unfold request_user_id, request_identity, session_of, session_identity in *.
  destruct (actor_user_id env headers) as [user|]; [apply HQ|].
  apply pool_wp_bind. destruct (bearer_token headers) as [token|]; simpl in *.
  - apply pool_wp_reads_healthy. destruct (session_user_id env now token db); [apply HQ|].
    destruct (cookie_value headers (lit "typst_session")); apply HQ.
  - destruct (cookie_value headers (lit "typst_session")); apply HQ.
Qed.

(** A visitor without account or guest session who presents a live link. *)
Definition link_visitor (env : Environment) (now : time) (headers : HeaderMap) (project : uuid)
    (p : ProjectPermission) (db : AccessDB) : Prop :=
  request_identity env now headers db = None ∧ allows_read (site_mode db) = true
  ∧ guest_access env now headers project db = None
  ∧ ∃ token, presented_share_token headers = Some token
             ∧ share_link_permission now project token db = Some p.

Lemma link_visitor_wp env now headers project p need db :
  link_visitor env now headers project p db →
  pool_wp (ensure_project_access healthy env now headers project need)
    (λ e db', need ≠ Read ∧ e = PermissionDenied ∧ db' = db)
    (λ q db' _, need = Read ∧ q = MkPrincipal None None None (can_write p) ∧ db' = db) db 0.
Proof.
  intros (Hid & Hmode & Hguest & token & Ht & Hp).
  unfold ensure_project_access. apply pool_wp_bind, lift_error_wp, request_user_id_healthy.
  intros n. rewrite Hid. apply pool_wp_bind. unfold load_anonymous_mode.
  apply pool_wp_reads_healthy. change (default Off (anonymous_mode db)) with (site_mode db).
  rewrite bool_decide_false by by intros Hoff; rewrite Hoff in Hmode.
  assert (∀ n', pool_wp (access_via_share_token healthy now headers (site_mode db) project need)
    (λ e db', need ≠ Read ∧ e = PermissionDenied ∧ db' = db)
    (λ q db' _, need = Read ∧ q = MkPrincipal None None None (can_write p) ∧ db' = db) db n') as Hlink.
  { intros n'. unfold access_via_share_token. unfold presented_share_token in Ht. rewrite Ht.
    apply pool_wp_bind, pool_wp_reads_healthy. rewrite Hp, Hmode. by destruct need. }
  apply pool_wp_bind. unfold guest_access in Hguest.
  destruct (header_value headers (lit "x-guest-session")) as [guest|]; [|apply Hlink].
  cbn in Hguest. unfold project_access_via_guest_session.
  apply pool_wp_bind, pool_wp_reads_healthy. rewrite Hguest. apply Hlink.
Qed.

(** The writing flag of a visitor is not write access: a visitor with a
    live write link is refused every write, yet admitted to read with
    [can_write] set, in read-only sites as well.  The realtime socket, which
    authorizes reading and then trusts the flag, takes this visitor's edits. *)
Theorem link_visitor_is_flagged_writable env now headers project db :
  link_visitor env now headers project PermissionWrite db →
  run_pool (ensure_project_access healthy env now headers project Write) db
  = (Err PermissionDenied, db)
  ∧ run_pool (ensure_project_access healthy env now headers project Read) db
    = (Ok (MkPrincipal None None None true), db).
Proof.
  intros Hv. split.
  - pose proof (run_pool_wp _ _ _ _ (link_visitor_wp _ _ _ _ _ Write db Hv)) as Hw.
    destruct (run_pool _ db) as [[p|e] db'].
    + by destruct Hw as (n & ? & _).
    + by destruct Hw as (_ & -> & ->).
  - pose proof (run_pool_wp _ _ _ _ (link_visitor_wp _ _ _ _ _ Read db Hv)) as Hw.
    destruct (run_pool _ db) as [[p|e] db'].
    + by destruct Hw as (n & _ & -> & ->).
    + by destruct Hw as [? _].
Qed.

Lemma link_visitor_is_flagged_writable_witness :
  run_pool (ensure_project_access healthy sample_environment 3 visitor_headers thesis Read) shared_db
  = (Ok (MkPrincipal None None None true), shared_db).
Proof.
  apply link_visitor_is_flagged_writable. split_and!; try (vm_compute; reflexivity).
  exists link_token. split; vm_compute; reflexivity.
Defined.

(** ** Group roles *)

(** The database with other project group roles. *)
Definition with_group_roles (g : gmap (uuid * text) GroupRole) (db : AccessDB) : AccessDB :=
  db <| group_roles := g |>.

Section group_roles.
Context (g : gmap (uuid * text) GroupRole).
Abbreviation blind := (commutes (with_group_roles g)).

Lemma blind_session_of s env now token : blind (session_of s env now token).
Proof. destruct token; [by apply commutes_reads|apply commutes_ret]. Qed.

Lemma blind_request_user_id s env now headers : blind (request_user_id s env now headers).
Proof.
  unfold request_user_id. destruct (actor_user_id env headers); [apply commutes_ret|].
  apply commutes_bind; [apply blind_session_of|]. intros [user|]; [apply commutes_ret|].
  apply blind_session_of.
Qed.

Lemma blind_lift {E E' A} (f : E → E') (m : Pool AccessDB E A) : blind m → blind (lift_error f m).
Proof. intros H db n. unfold lift_error. rewrite H. by destruct (m db n) as [[[a|e] db'] n']. Qed.

Lemma blind_role_for_user s actor project need :
  blind (ensure_project_role_for_user s actor project need).
Proof.
  apply commutes_bind; [by apply commutes_reads|]. intros a.
  case_match; [apply commutes_ret|apply commutes_throw].
Qed.

Lemma blind_user_can_write s actor project : blind (user_can_write s actor project).
Proof.
  intros db n. unfold user_can_write. rewrite blind_role_for_user.
  by destruct (ensure_project_role_for_user s actor project Write db n) as [[[[]|[]] db'] n'].
Qed.

Lemma blind_admit_guest mode need p : blind (admit_guest mode need p).
Proof.
  unfold admit_guest. case_match; [apply commutes_throw|].
  destruct need; try case_match; apply commutes_throw || apply commutes_ret.
Qed.

Lemma blind_share_token s now headers mode project need :
  blind (access_via_share_token s now headers mode project need).
Proof.
  unfold access_via_share_token. fold (presented_share_token headers). cbv zeta.
  destruct (presented_share_token headers) as [token|]; [|apply commutes_throw].
  apply commutes_bind; [by apply commutes_reads|]. intros [p|]; [|apply commutes_throw].
  case_match; [apply commutes_throw|]. destruct need; apply commutes_throw || apply commutes_ret.
Qed.

Lemma blind_guest_session s env now project token :
  blind (project_access_via_guest_session s env now project token).
Proof.
  apply commutes_bind; [by apply commutes_reads|]. intros [a|]; [|apply commutes_ret].
  apply commutes_bind; [by apply commutes_logged_writes|]. intros _. apply commutes_ret.
Qed.

Lemma blind_ensure_project_access s env now headers project need :
  blind (ensure_project_access s env now headers project need).
Proof.
  apply commutes_bind; [apply blind_lift, blind_request_user_id|]. intros [user|].
  - apply commutes_bind; [apply blind_role_for_user|]. intros _.
    apply commutes_bind; [destruct need; [apply blind_user_can_write|apply commutes_ret..]|].
    intros w. apply commutes_ret.
  - apply commutes_bind; [by apply commutes_reads|]. intros mode.
    case_bool_decide; [apply commutes_throw|].
    apply commutes_bind; [case_match; [apply blind_guest_session|apply commutes_ret]|].
    intros [p|]; [apply blind_admit_guest|apply blind_share_token].
Qed.

(** No authorization decision reads the project group roles: replacing
    them by any others leaves every decision as it is, so that granting a role
    to a group gives its members nothing. *)
Theorem group_roles_decide_nothing s env now headers project need db :
  (run_pool (ensure_project_access s env now headers project need) (with_group_roles g db)).1
  = (run_pool (ensure_project_access s env now headers project need) db).1.
Proof.
  unfold run_pool. rewrite blind_ensure_project_access.
  by destruct (ensure_project_access s env now headers project need db 0%nat) as [[r db'] n].
Qed.
End group_roles.
