(* ===== verification/AccessAudience.v ===== *)
(** * Access: who ends up with which role

    What joining a link, synchronising groups and listing the audience of a
    project do to, or say of, each user's role. *)
From S2P Require Import Prelude Store Text Paths AccessModel AccessGrants AccessSharing.
From S2P Require Import Authorization AccessSystem AccessSteps.

Open Scope Z_scope.

(** ** Joining a link *)

Definition rank_or_zero (r : option RoleRow) : Z := from_option (λ r, rank (r_role r)) 0 r.

(** The role row after joining with a link of permission [p]. *)
Record joined_role (p : ProjectPermission) (before : option RoleRow) (after : RoleRow) : Prop := {
  jr_highest : rank (r_role after) = Z.max (rank_or_zero before) (rank (project_role p));
  jr_kept : ∀ old, before = Some old → rank (project_role p) ≤ rank (r_role old) →
            r_role after = r_role old ∧ r_source after = r_source old;
  jr_source : (∀ old, before = Some old → rank (r_role old) < rank (project_role p)) →
              r_source after = ShareLinkInvite;
}.

Lemma at_least_joined p at_time before :
  joined_role p before (at_least (MkRole (project_role p) at_time ShareLinkInvite) before).
Proof.
  destruct before as [[r g src]|].
  - split; unfold at_least, rank_or_zero; cbn.
    + by destruct r, p.
    + intros old [= <-]. cbn. destruct r, p; cbn; try done; lia.
    + intros H. specialize (H _ eq_refl). cbn in H. destruct r, p; cbn in *; try done; lia.
  - split; unfold rank_or_zero; cbn; [by destruct p|done|done].
Qed.

(** Joining through a link needs a live link with the trimmed token; it
    raises the user's role to the link's, never lowers it, keeps the source of
    a role that was already sufficient, advances the epoch and touches no
    other role.  A join that is refused changes nothing. *)
Theorem joining_a_link_never_lowers_a_role s now actor token db r db' :
  join_project_share_link s now actor token db = (r, db') →
  match r with
  | Ok j =>
      ∃ k l row, share_links db !! k = Some l ∧ sl_token_value l = trim token
        ∧ link_live now l = true ∧ jl_project j = sl_project l
        ∧ jl_permission j = sl_permission l ∧ jl_role j = r_role row
        ∧ joined_role (sl_permission l) (project_roles db !! (sl_project l, actor)) row
        ∧ project_roles db' = <[(sl_project l, actor) := row]> (project_roles db)
        ∧ epoch_advanced (sl_project l) db db'
  | Err (TokenPersistence _) => True
  | Err _ => db' = db
  end.
Proof.
  unfold join_project_share_link. case_match; [by intros [= <- <-]|]. intros Hj.
  tx_start Hj; [done|]. wp_step. wp_step.
  destruct (link_with_token now (trim token) db) as [[k l]|] eqn:Hl; [|wp_step; done].
  apply link_with_token_Some in Hl as (Hk & Ht & Hlive).
  wp_step. apply wp_exec; [done|]. intros role db1 Hgrant.
  unfold grant_project_share_link_role_at_least, put_role in Hgrant.
  destruct (projects db !! sl_project l) as [p|] eqn:Hp; [|done].
  destruct (users db !! actor); [|done]. injection Hgrant as <- <-.
  wp_step. apply wp_exec; [done|]. intros z db2 (p' & Hp' & -> & ->)%advance_spec.
  wp_step. split; [|done]. eexists k, l, _. split_and!; try done; [by apply at_least_joined|].
  intros e. unfold project_access_epoch. cbn in *. rewrite lookup_insert_eq, Hp'.
  intros [= <-]. eexists. split; [done|]. cbn. lia.
Qed.

(** Bob, a reader of his own, joins through the write link. *)
Lemma joining_a_link_never_lowers_a_role_witness :
  let before := run_access healthy 2 (OUpsertRole thesis bob ReadOnly) shared_db in
  epoch_advanced thesis before (run_access healthy 3 (OJoin bob link_token) before).
Proof.
  intros before. set (joined := join_project_share_link healthy 3 bob link_token before).
  assert (joined = (Ok (MkJoined thesis ReadWrite PermissionWrite), joined.2)) as Hj.
  { rewrite (surjective_pairing joined) at 1. f_equal; vm_compute; reflexivity. }
  destruct (joining_a_link_never_lowers_a_role _ _ _ _ _ _ _ Hj)
    as (k & l & row & _ & _ & _ & Hp & _ & _ & _ & _ & Hadv).
  cbn [jl_project] in Hp. by rewrite <-Hp in Hadv.
Defined.

(** ** Catalogue *)

(** The catalogue of a user and the single-project check. *)
Definition in_catalogue (user project : uuid) (db : AccessDB) : Prop :=
  ∃ a, a ∈ list_project_catalog_access user db ∧ ca_project_id a = project.

Lemma elem_of_visible_projects user project db :
  project ∈ visible_projects user db ↔ project_user_has_catalog_access user project true db = true.
Proof.
  unfold visible_projects, project_user_has_catalog_access, has_template_access.
  rewrite !elem_of_union, !elem_of_list_to_set, !orb_true_iff, andb_true_l, !exists_row_true,
    bool_decide_eq_true, !list_elem_of_fmap.
  split.
  - intros [[([[p u] r] & -> & [Hr Hu%bool_decide_eq_true]%elem_of_select)
            |([[p o] g] & -> & [Hg Hm]%elem_of_select)]
            |([[p o] g] & -> & [Hg Hm]%elem_of_select)]; simpl in *.
    + left; left. subst u. by eexists.
    + left; right. exists (p, o), g. split; [done|]. by rewrite bool_decide_true.
    + right. exists (p, o), g. split; [done|]. by rewrite bool_decide_true.
  - intros [[[r Hr]|([p o] & g & Hg & [<-%bool_decide_eq_true Hm]%andb_true_iff)]
            |([p o] & g & Hg & [<-%bool_decide_eq_true Hm]%andb_true_iff)].
    + left; left. exists ((project, user), r). split; [done|]. apply elem_of_select.
      split; [done|]. by apply bool_decide_eq_true.
    + left; right. exists ((p, o), g). split; [done|]. by apply elem_of_select.
    + right. exists ((p, o), g). split; [done|]. by apply elem_of_select.
Qed.

Lemma catalog_read_capability user project t db :
  catalog_can_read (catalog_record user db project)
  = capability project Read t (CUser user) db.
Proof.
  unfold catalog_can_read, catalog_record, capability, project_user_access_allows. cbn.
  destruct (project_roles db !! (project, user)); simpl; [done|].
  by destruct (head (organization_permissions user project db)).
Qed.

(** A user's catalogue lists exactly the projects the single-project check
    admits, each once, and an entry is readable exactly when authorization
    lets the user read the project; a template grant alone only shows a
    template. *)
Theorem catalogue_agrees_with_authorization user db :
  NoDup (ca_project_id <$> list_project_catalog_access user db)
  ∧ (∀ project, in_catalogue user project db ↔
                project_user_has_catalog_access user project true db = true)
  ∧ ∀ a is_template t, a ∈ list_project_catalog_access user db →
    permits_catalog_entry a is_template
    = capability (ca_project_id a) Read t (CUser user) db
      || (is_template && has_template_access user (ca_project_id a) db).
Proof.
  unfold in_catalogue, list_project_catalog_access. split_and!.
  - rewrite <-list_fmap_compose. change (ca_project_id ∘ catalog_record user db) with (@id uuid).
    rewrite list_fmap_id. apply NoDup_elements.
  - intros project. rewrite <-elem_of_visible_projects. split.
    + intros (a & (p & -> & Hp%elem_of_elements)%list_elem_of_fmap & <-). done.
    + intros Hp. exists (catalog_record user db project). split; [|done].
      apply list_elem_of_fmap. exists project. by rewrite elem_of_elements.
  - intros a is_template t (p & -> & _)%list_elem_of_fmap. unfold permits_catalog_entry.
    by rewrite (catalog_read_capability user p t).
Qed.

(** ** The audience of a project *)

(** The rows of the audience that speak of a user. *)
Definition audience_rows (project : uuid) (db : AccessDB) : list AccessRow :=
  direct_access_users project db ++ organization_access_users project db.

Lemma rank_inj r r' : rank r = rank r' → r = r'.
Proof. by destruct r, r'. Qed.

Lemma merge_row_of row found :
  ∃ e, merge_access_user found row !! ar_user row = Some e
    ∧ (au_role e = ar_role row ∨ ∃ e0, found !! ar_user row = Some e0 ∧ au_role e0 = au_role e)
    ∧ rank (ar_role row) ≤ rank (au_role e)
    ∧ ∀ e0, found !! ar_user row = Some e0 → rank (au_role e0) ≤ rank (au_role e).
Proof.
  unfold merge_access_user. rewrite lookup_insert_eq. eexists. split; [done|].
  destruct (found !! ar_user row) as [e0|]; cbn.
  - destruct (Z.ltb_spec (rank (au_role e0)) (rank (ar_role row))); split_and!;
      try (intros ? [= <-]); try lia; auto. right. by exists e0.
  - split_and!; [by left|lia|done].
Qed.

Lemma merge_row_other row found user :
  ar_user row ≠ user → merge_access_user found row !! user = found !! user.
Proof. intros. unfold merge_access_user. by rewrite lookup_insert_ne. Qed.

(** What merging rows leaves for a user: the highest role among the rows and
    the entry already there. *)
Record merged_role (rows : list AccessRow) (user : uuid) (before after : option ProjectAccessUser) :
    Prop := {
  mr_present : is_Some after ↔ is_Some before ∨ ∃ row, row ∈ rows ∧ ar_user row = user;
  mr_source : ∀ e, after = Some e → (∃ e0, before = Some e0 ∧ au_role e0 = au_role e)
              ∨ ∃ row, row ∈ rows ∧ ar_user row = user ∧ ar_role row = au_role e;
  mr_before : ∀ e e0, after = Some e → before = Some e0 → rank (au_role e0) ≤ rank (au_role e);
  mr_rows : ∀ e row, after = Some e → row ∈ rows → ar_user row = user →
            rank (ar_role row) ≤ rank (au_role e);
}.

Lemma merged_role_nil user e : merged_role [] user e e.
Proof.
  split.
  - split; [by left|]. by intros [?|(? & ?%elem_of_nil & _)].
  - intros e0 ->. left. by exists e0.
  - intros e1 e0 ? ?. simplify_eq. lia.
  - by intros e1 row _ ?%elem_of_nil.
Qed.

Lemma merge_rows_spec rows found user :
  merged_role rows user (found !! user) (foldl merge_access_user found rows !! user).
Proof.
  induction rows as [|row rows IH] in found |- *; simpl; [apply merged_role_nil|].
  specialize (IH (merge_access_user found row)) as [IH1 IH2 IH3 IH4].
  destruct (decide (ar_user row = user)) as [Hu|Hne].
  - destruct (merge_row_of row found) as (e1 & He1 & Hwhich & Hrow & Hold).
    rewrite Hu in He1, Hwhich, Hold. rewrite He1 in IH1, IH2, IH3. split.
    + rewrite IH1. split; [|intros _; left; by eexists].
      intros _. right. exists row. by split; [left|].
    + intros e He. destruct (IH2 e He) as [(e0 & [= <-] & Heq)|(row' & ? & ? & ?)].
      * rewrite <-Heq. destruct Hwhich as [Hw|?]; [|by left]. right. exists row. by split; [left|].
      * right. exists row'. by split; [right|].
    + intros e e0 He He0. specialize (Hold e0 He0). specialize (IH3 e e1 He eq_refl). lia.
    + intros e row' He [->|Hin]%elem_of_cons Hu'; [|by apply IH4].
      specialize (IH3 e e1 He eq_refl). lia.
  - rewrite merge_row_other in IH1, IH2, IH3 by done. split.
    + rewrite IH1. split.
      * intros [?|(row' & ? & ?)]; [by left|right; exists row'; by split; [right|]].
      * intros [?|(row' & [->|?]%elem_of_cons & ?)]; [by left|done|right; by exists row'].
    + intros e He. destruct (IH2 e He) as [?|(row' & ? & ? & ?)]; [by left|].
      right. exists row'. by split; [right|].
    + done.
    + intros e row' He [->|Hin]%elem_of_cons Hu'; [done|by apply IH4].
Qed.

Lemma merge_user_access_type found row :
  map_Forall (λ _ e, au_access_type e = access_type (au_role e)) found →
  map_Forall (λ _ e, au_access_type e = access_type (au_role e)) (merge_access_user found row).
Proof.
  intros H. apply map_Forall_insert_2; [|done]. destruct (found !! ar_user row) as [e|] eqn:He; cbn; [|done].
  destruct (rank (au_role e) <? rank (ar_role row)); [done|]. by eapply H.
Qed.

Lemma merged_types project db user e :
  merged_access_users project db !! user = Some e → au_access_type e = access_type (au_role e).
Proof.
  unfold merged_access_users. rewrite <-foldl_app. revert user e.
  change (map_Forall (λ _ e, au_access_type e = access_type (au_role e))
    (foldl merge_access_user ∅ (direct_access_users project db ++ organization_access_users project db))).
  generalize (direct_access_users project db ++ organization_access_users project db). intros rows.
  assert (map_Forall (λ _ e, au_access_type e = access_type (au_role e))
    (∅ : gmap uuid ProjectAccessUser)) as H by done. revert H.
  generalize (∅ : gmap uuid ProjectAccessUser). induction rows as [|row rows IH]; [done|].
  intros t' Ht'. apply IH. by apply merge_user_access_type.
Qed.

(** The foreign keys of the tables the audience joins. *)
Record access_references (db : AccessDB) : Prop := {
  ref_roles : ∀ k r, project_roles db !! k = Some r → is_Some (users db !! k.2);
  ref_members : ∀ k m, memberships db !! k = Some m → is_Some (users db !! k.2);
  ref_grants : ∀ k g, organization_access db !! k = Some g → is_Some (organizations db !! k.2);
}.

Lemma elem_of_direct_rows project db row :
  row ∈ direct_access_users project db ↔
  ∃ user r u, project_roles db !! (project, user) = Some r ∧ users db !! user = Some u
    ∧ row = MkAccessRow user (u_email u) (u_display_name u) (r_role r) (source_of (r_source r)).
Proof.
  unfold direct_access_users. rewrite list_elem_of_omap. split.
  - intros ([[p user] r] & Hr%elem_of_map_to_list & Hrow). case_bool_decide; [subst|done].
    destruct (users db !! user) as [u|] eqn:Hu; simpl in Hrow; [|done]. injection Hrow as <-.
    by exists user, r, u.
  - intros (user & r & u & Hr & Hu & ->). exists ((project, user), r).
    split; [by apply elem_of_map_to_list|]. by rewrite bool_decide_true, Hu.
Qed.

Lemma elem_of_organization_rows project db row :
  row ∈ organization_access_users project db ↔
  ∃ o g name user m u, organization_access db !! (project, o) = Some g
    ∧ organizations db !! o = Some name ∧ memberships db !! (o, user) = Some m
    ∧ users db !! user = Some u
    ∧ row = MkAccessRow user (u_email u) (u_display_name u) (project_role (g_permission g))
              (SourceOrganization name).
Proof.
  unfold organization_access_users. rewrite list_elem_of_bind. split.
  - intros ([[p o] g] & Hrow & Hg%elem_of_map_to_list).
    case_bool_decide; [subst|by apply elem_of_nil in Hrow].
    destruct (organizations db !! o) as [name|] eqn:Hname; [|by apply elem_of_nil in Hrow].
    apply list_elem_of_omap in Hrow as ([[o' user] m] & Hm%elem_of_map_to_list & Hrow).
    case_bool_decide; [subst|done].
    destruct (users db !! user) as [u|] eqn:Hu; simpl in Hrow; [|done]. injection Hrow as <-.
    by exists o, g, name, user, m, u.
  - intros (o & g & name & user & m & u & Hg & Hname & Hm & Hu & ->). exists ((project, o), g).
    split; [|by apply elem_of_map_to_list]. rewrite bool_decide_true, Hname by done.
    apply list_elem_of_omap. exists ((o, user), m). split; [by apply elem_of_map_to_list|].
    by rewrite bool_decide_true, Hu.
Qed.

Lemma allows_organization_role need p : allows_organization_permission need p = allows_role need (project_role p).
Proof. by destruct need, p. Qed.

Lemma allows_role_rank need r r' :
  rank r ≤ rank r' → allows_role need r = true → allows_role need r' = true.
Proof. destruct need, r, r'; cbn; try done; lia. Qed.

(** A user may do what one of their rows in the audience allows. *)
Lemma audience_capability project need t user db :
  access_references db →
  capability project need t (CUser user) db = true ↔
  ∃ row, row ∈ audience_rows project db ∧ ar_user row = user
         ∧ allows_role need (ar_role row) = true.
Proof.
  intros HR. rewrite user_capability. unfold audience_rows. split.
  - intros [(r & Hr & Ha)|(o & g & Hg & [m Hm] & Ha)].
    + destruct (ref_roles _ HR _ _ Hr) as [u Hu].
      exists (MkAccessRow user (u_email u) (u_display_name u) (r_role r) (source_of (r_source r))).
      split; [|done]. apply elem_of_app. left. apply elem_of_direct_rows. by exists user, r, u.
    + destruct (ref_grants _ HR _ _ Hg) as [name Hname], (ref_members _ HR _ _ Hm) as [u Hu].
      rewrite allows_organization_role in Ha.
      exists (MkAccessRow user (u_email u) (u_display_name u) (project_role (g_permission g))
                (SourceOrganization name)). split; [|done].
      apply elem_of_app. right. apply elem_of_organization_rows. by exists o, g, name, user, m, u.
  - intros (row & [Hrow|Hrow]%elem_of_app & <- & Ha).
    + apply elem_of_direct_rows in Hrow as (user & r & u & Hr & Hu & ->). left. by exists r.
    + apply elem_of_organization_rows in Hrow as (o & g & name & user & m & u & Hg & _ & Hm & _ & ->).
      right. exists o, g. rewrite allows_organization_role. split_and!; [done|by exists m|done].
Qed.

Lemma merged_access_users_spec project db user :
  merged_role (audience_rows project db) user None (merged_access_users project db !! user).
Proof.
  unfold merged_access_users, audience_rows. rewrite <-foldl_app.
  rewrite <-(lookup_empty (M := gmap uuid) user). apply merge_rows_spec.
Qed.

Lemma merged_capability project need t user e db :
  access_references db → merged_access_users project db !! user = Some e →
  capability project need t (CUser user) db = allows_role need (au_role e).
Proof.
  intros HR He. destruct (merged_access_users_spec project db user) as [_ Hsource _ Hrows].
  apply Bool.eq_iff_eq_true. rewrite audience_capability by done. split.
  - intros (row & Hrow & Hu & Ha). by eapply allows_role_rank; [apply (Hrows e row)|].
  - intros Ha. destruct (Hsource e He) as [(? & ? & _)|(row & Hrow & Hu & Heq)]; [done|].
    exists row. by rewrite Heq.
Qed.

Lemma merged_present project t user db :
  access_references db →
  is_Some (merged_access_users project db !! user) ↔
  capability project Read t (CUser user) db = true.
Proof.
  intros HR. destruct (merged_access_users_spec project db user) as [-> _ _ _].
  rewrite audience_capability by done. split.
  - intros [[? ?]|(row & ? & ?)]; [done|by exists row].
  - intros (row & ? & ? & _). right. by exists row.
Qed.

Lemma role_by_needs r r' : (∀ need, allows_role need r = allows_role need r') → r = r'.
Proof.
  intros H. pose proof (H Write) as Hw. pose proof (H Manage) as Hm. by destruct r, r'.
Qed.

Lemma catalog_capability project need t user db :
  capability project Read t (CUser user) db = true →
  capability project need t (CUser user) db
  = allows_role need (effective_role (catalog_record user db project)).
Proof.
  unfold capability, effective_role, catalog_record, project_user_access_allows.
  cbv beta iota zeta. cbn [ca_direct_role ca_organization_permission].
  destruct (ua_direct_role (project_user_access user project db)) as [[]|],
    (ua_organization_permission (project_user_access user project db)) as [[]|], need; done.
Qed.

#[export] Instance display_le_total to_lowercase : Total (display_le to_lowercase).
Proof. intros a b. unfold display_le. apply (total text_le). Qed.
#[export] Instance display_le_trans to_lowercase : Transitive (display_le to_lowercase).
Proof. intros a b c. unfold display_le. apply (transitivity (R := text_le)). Qed.

(** The list of the people with access names exactly the users who may
    read the project, each once and in the order of their display names, with
    the highest role any of their grants gives; that is their role in their
    own catalogue, and it allows exactly what authorization lets them do. *)
Theorem listed_users_have_their_effective_role to_lowercase project t db :
  access_references db →
  let listed := list_project_access_users to_lowercase project db in
  NoDup listed.*1
  ∧ StronglySorted (display_le to_lowercase) listed
  ∧ (∀ user, user ∈ listed.*1 ↔ capability project Read t (CUser user) db = true)
  ∧ ∀ user e, (user, e) ∈ listed →
      au_role e = effective_role (catalog_record user db project)
      ∧ au_access_type e = access_type (au_role e)
      ∧ ∀ need, allows_role need (au_role e) = capability project need t (CUser user) db.
Proof.
  intros HR listed. unfold listed, list_project_access_users.
  set (found := merged_access_users project db).
  assert (∀ user e, (user, e) ∈ stable_sort (display_le to_lowercase)
             (map_to_list (sort_sources <$> found)) →
          ∃ e0, found !! user = Some e0 ∧ e = sort_sources e0) as Hin.
  { intros user e He%elem_of_stable_sort%elem_of_map_to_list.
    apply lookup_fmap_Some in He as (e0 & <- & ?). by exists e0. }
  split_and!.
  - rewrite (fmap_Permutation fst _ _ (stable_sort_Permutation _ _)). apply NoDup_fst_map_to_list.
  - apply (StronglySorted_stable_sort (display_le to_lowercase)).
  - intros user. rewrite elem_of_stable_sort_fmap, <-(merged_present _ t _ _ HR).
    rewrite list_elem_of_fmap. split.
    + intros ([user' e] & -> & He%elem_of_map_to_list).
      apply lookup_fmap_Some in He as (e0 & _ & He). by exists e0.
    + intros [e He]. exists (user, sort_sources e). split; [done|].
      apply elem_of_map_to_list, lookup_fmap_Some. by exists e.
  - intros user e (e0 & He & ->)%Hin. cbn [sort_sources au_role au_access_type].
    assert (∀ need, capability project need t (CUser user) db = allows_role need (au_role e0)) as Hc
      by (intros need; by apply merged_capability). split_and!; [|by eapply merged_types|by intros need; rewrite Hc].
    apply role_by_needs. intros need. rewrite <-Hc. apply catalog_capability.
    rewrite <-merged_present by done. by exists e0.
Qed.

Lemma sample_references : access_references sample_db.
Proof.
  split; intros k r Hk; apply elem_of_map_to_list in Hk; vm_compute in Hk;
    apply list_elem_of_singleton in Hk; injection Hk as -> ->; vm_compute; by eexists.
Qed.

Lemma listed_users_have_their_effective_role_witness :
  capability thesis Write 0 (CUser bob) sample_db = true.
Proof.
  assert (∃ e, (bob, e) ∈ list_project_access_users id thesis sample_db ∧ au_role e = ReadWrite)
    as (e & He & Hrole).
  { eexists. split; [vm_compute; right; left|reflexivity]. }
  destruct (listed_users_have_their_effective_role id thesis 0 sample_db sample_references)
    as (_ & _ & _ & Hlisted).
  destruct (Hlisted bob e He) as (_ & _ & Hneeds). rewrite <-Hneeds, Hrole. reflexivity.
Defined.
