(* ===== verification/AccessGroupSync.v ===== *)
(** * Access: what a login's group synchronisation leaves

    [sync_oidc_identity_groups] replaces the user's groups and sets the
    memberships their mappings give. *)
From S2P Require Import Prelude Store Text AccessModel AccessGrants AccessSharing.
From S2P Require Import Authorization AccessSystem AccessSteps.

Open Scope Z_scope.

(** ** Roles given by mappings *)

(** [r] is the highest role the mappings of the groups give in [organization]. *)
Record highest_mapping (mappings : gmap (uuid * text) GroupMapping) (groups : list text)
    (organization : uuid) (r : option OrganizationRole) : Prop := {
  hm_source : ∀ role, r = Some role → ∃ group m, mappings !! (organization, group) = Some m
              ∧ group ∈ groups ∧ gm_role m = role;
  hm_highest : ∀ group m, mappings !! (organization, group) = Some m → group ∈ groups →
              ∃ role, r = Some role ∧ organization_rank (gm_role m) ≤ organization_rank role;
}.

Lemma add_desired_other groups desired m o :
  m.1.1 ≠ o ∨ m.1.2 ∉ groups → add_desired groups desired m !! o = desired !! o.
Proof.
  destruct m as [[o' group] row]. unfold add_desired. intros Hne. case_bool_decide; cbn in *; [|done].
  destruct Hne; [|done]. by rewrite lookup_insert_ne.
Qed.

Lemma add_desired_same groups desired m :
  m.1.2 ∈ groups →
  ∃ role, add_desired groups desired m !! m.1.1 = Some role
    ∧ (role = gm_role m.2 ∨ desired !! m.1.1 = Some role)
    ∧ organization_rank (gm_role m.2) ≤ organization_rank role
    ∧ ∀ old, desired !! m.1.1 = Some old → organization_rank old ≤ organization_rank role.
Proof.
  destruct m as [[o group] row]. unfold add_desired. cbn. intros Hin.
  rewrite bool_decide_true by done. cbn. rewrite lookup_insert_eq. eexists. split; [done|].
  destruct (desired !! o) as [current|]; [|by split_and!; [left| |]].
  destruct (Z.ltb_spec (organization_rank current) (organization_rank (gm_role row)));
    split_and!; try (intros ? [= <-]); try lia; auto.
Qed.

(** What folding mappings makes of the role of one organization. *)
Lemma desired_fold groups o mappings desired :
  let r := foldl (add_desired groups) desired mappings !! o in
  (∀ role, r = Some role → desired !! o = Some role
     ∨ ∃ m, m ∈ mappings ∧ m.1.1 = o ∧ m.1.2 ∈ groups ∧ gm_role m.2 = role)
  ∧ (∀ old, desired !! o = Some old → ∃ role, r = Some role ∧ organization_rank old ≤ organization_rank role)
  ∧ ∀ m, m ∈ mappings → m.1.1 = o → m.1.2 ∈ groups →
      ∃ role, r = Some role ∧ organization_rank (gm_role m.2) ≤ organization_rank role.
Proof.
  induction mappings as [|m mappings IH] in desired |- *; simpl.
  { split; [auto|]. split; [|by intros ? ?%elem_of_nil]. intros old ->. exists old. split; [done|lia]. }
  destruct (IH (add_desired groups desired m)) as (IH1 & IH2 & IH3). clear IH.
  destruct (decide (m.1.1 = o ∧ m.1.2 ∈ groups)) as [[<- Hin]|Hne].
  - destruct (add_desired_same groups desired m Hin) as (role & Hr & Hsrc & Hle & Hold).
    rewrite Hr in IH1, IH2. destruct (IH2 role eq_refl) as (top & Htop & Hge).
    split_and!.
    + intros r Hr'. destruct (IH1 r Hr') as [[= <-]|(m' & ? & ? & ? & ?)].
      * destruct Hsrc as [Hm|?]; [|by left]. right. exists m. by split_and!; [left|..].
      * right. exists m'. by split_and!; [right|..].
    + intros old Hd. exists top. split; [done|]. specialize (Hold old Hd). lia.
    + intros m' [->|Hm']%elem_of_cons Ho Hg; [exists top; split; [done|lia]|by apply IH3].
  - rewrite add_desired_other in IH1, IH2
      by (destruct (decide (m.1.1 = o)); [right; naive_solver|by left]).
    split_and!; [|done|].
    + intros r Hr'. destruct (IH1 r Hr') as [?|(m' & ? & ? & ? & ?)]; [by left|right].
      exists m'. by split_and!; [right|..].
    + intros m' [->|Hm']%elem_of_cons Ho Hg; [by destruct Hne|by apply IH3].
Qed.

Lemma desired_roles_spec (mappings : gmap (uuid * text) GroupMapping) groups o :
  highest_mapping mappings groups o (desired_roles groups (map_to_list mappings) !! o).
Proof.
  unfold desired_roles. destruct (desired_fold groups o (map_to_list mappings) ∅) as (H1 & _ & H3).
  split.
  - intros role Hr. destruct (H1 role Hr) as [He|([[o' g] m] & Hm%elem_of_map_to_list & ? & ? & ?)].
    + by rewrite lookup_empty in He.
    + cbn in *. subst. by exists g, m.
  - intros g m Hm Hg. apply (H3 ((o, g), m)); [by apply elem_of_map_to_list|done..].
Qed.

Lemma current_roles_lookup user db o :
  list_organization_membership_roles user db !! o = mb_role <$> memberships db !! (o, user).
Proof.
  unfold list_organization_membership_roles.
  set (l := (λ km : (uuid * uuid) * Membership, (km.1.1, mb_role km.2)) <$>
              select (λ k _, bool_decide (k.2 = user)) (memberships db)).
  assert (∀ o r, (o, r) ∈ l ↔ mb_role <$> memberships db !! (o, user) = Some r) as Hl.
  { intros o' r. unfold l. rewrite list_elem_of_fmap, fmap_Some. split.
    - intros ([[o1 u] m] & [= -> ->] & [Hm Hu%bool_decide_eq_true]%elem_of_select). cbn in *. subst.
      by exists m.
    - intros (m & Hm & ->). exists ((o', user), m). split; [done|]. apply elem_of_select.
      by rewrite bool_decide_true. }
  assert (NoDup l.*1) as Hnd.
  { unfold l. rewrite <-list_fmap_compose. apply NoDup_fmap_2_strong.
    - intros [[o1 u1] m1] [[o2 u2] m2] [H1 E1%bool_decide_eq_true]%elem_of_select
        [H2 E2%bool_decide_eq_true]%elem_of_select Heq. cbn in *. subst. congruence.
    - apply (NoDup_fmap_1 fst), NoDup_select. }
  destruct (mb_role <$> memberships db !! (o, user)) as [r|] eqn:Hr.
  - apply elem_of_list_to_map_1; [done|]. by apply Hl.
  - apply not_elem_of_list_to_map_1. intros ([o' r] & -> & Hin)%list_elem_of_fmap.
    apply Hl in Hin. cbn in *. congruence.
Qed.

(** ** The synchronisation *)

(** The user's membership of one organization afterwards: an owner stays one,
    a mapped role is set, and without one a membership survives only in an
    organization that no mapping mentions. *)
Definition synchronised (now : time) (desired : option OrganizationRole) (mapped : bool)
    (before : option Membership) : option Membership :=
  match before, desired with
  | Some m, Some role =>
      Some (if bool_decide (mb_role m = OrganizationOwner) then m else m <| mb_role := role |>)
  | Some m, None => if bool_decide (mb_role m = OrganizationOwner) || negb mapped then Some m else None
  | None, Some role => Some (MkMembership role now)
  | None, None => None
  end.

Definition is_mapped (o : uuid) (db : AccessDB) : bool :=
  exists_row (λ k _, bool_decide (k.1 = o)) (group_mappings db).

(** Only the user's groups, and then only memberships, change. *)
Definition groups_frame : relation AccessDB := λ db db', ∃ t, db' = db <| user_groups := t |>.
Definition members_frame : relation AccessDB := λ db db', ∃ t, db' = db <| memberships := t |>.
#[export] Instance members_frame_preorder : PreOrder members_frame.
Proof.
  split.
  - intros db. exists (memberships db). by destruct db.
  - intros db1 db2 db3 [t ->] [t' ->]. by exists t'.
Qed.

Lemma replace_groups_wp s user groups db n :
  wp (tx_for groups (λ group, exec s Err (insert_user_group user group)))
    (λ r : result sqlx_error (list uuid), ∃ e, r = Err e)
    (λ _ db' _, groups_frame db db' ∧ ∀ u g, (u, g) ∈ user_groups db' ↔
        (u, g) ∈ user_groups db ∨ u = user ∧ g ∈ groups) db n.
Proof.
  induction groups as [|group groups IH] in db, n |- *; simpl.
  { split; [exists (user_groups db); by destruct db|]. intros u g. rewrite elem_of_nil. tauto. }
  apply wp_bind, wp_exec; [intros e; by exists e|]. intros [] db1 Hi.
  unfold insert_user_group in Hi. do 2 (case_bool_decide; [done|]). injection Hi as <-.
  eapply wp_mono; [apply IH|done|]. intros [] db2 n2 ([t ->] & Ht). cbn in Ht |- *.
  split; [by exists t|]. intros u g. rewrite Ht, elem_of_union, elem_of_singleton, elem_of_cons.
  naive_solver.
Qed.

Lemma partial_alter_set {A} (f : option A → option A) (k : uuid * uuid) (v : A) (m : gmap (uuid * uuid) A) :
  f (m !! k) = Some v → <[k := v]> m = partial_alter f k m.
Proof. intros Hf. apply partial_alter_ext. by intros x <-. Qed.

Lemma partial_alter_unset {A} (f : option A → option A) (k : uuid * uuid) (m : gmap (uuid * uuid) A) :
  f (m !! k) = None → delete k m = partial_alter f k m.
Proof. intros Hf. apply partial_alter_ext. by intros x <-. Qed.

Lemma NoDup_user_keys {B} (user : uuid) (l : list (uuid * B)) :
  NoDup l.*1 → NoDup ((λ x, (x.1, user)) <$> l).
Proof.
  intros Hl. change (NoDup (((λ o, (o, user)) ∘ fst) <$> l)). rewrite list_fmap_compose.
  apply NoDup_fmap_2; [|done]. intros x y Heq. by simplify_eq/=.
Qed.

Lemma upsert_members_wp s user now added db n :
  NoDup added.*1 →
  wp (tx_for added (λ dr : uuid * OrganizationRole, exec s Err
        (upsert_organization_membership_role dr.1 user dr.2 now)))
    (λ r : result sqlx_error (list uuid), ∃ e, r = Err e)
    (λ _ db' _, members_frame db db'
      ∧ (∀ dr, dr ∈ added → memberships db' !! (dr.1, user)
            = Some (kept_owner dr.2 now (memberships db !! (dr.1, user))))
      ∧ ∀ k, k ∉ (λ dr, (dr.1, user)) <$> added → memberships db' !! k = memberships db !! k) db n.
Proof.
  intros Hnd.
  apply (wp_for_keys memberships members_frame added (λ dr, (dr.1, user))
           (λ dr m, Some (kept_owner dr.2 now m))).
  - by apply NoDup_user_keys.
  - intros [o role] db1 n1 _. apply wp_exec; [intros e; by exists e|]. intros [] db2 H.
    unfold upsert_organization_membership_role in H. cbn [fst snd] in H.
    destruct (organizations db1 !! o), (users db1 !! user); try done. injection H as <-.
    split; [by eexists|]. cbn. by apply partial_alter_set.
Qed.

Lemma delete_members_wp s user (removed : list (uuid * OrganizationRole)) db n :
  NoDup removed.*1 →
  wp (tx_for removed (λ cr : uuid * OrganizationRole, exec s Err
        (writes (delete_non_owner_organization_membership cr.1 user))))
    (λ r : result sqlx_error (list uuid), ∃ e, r = Err e)
    (λ _ db' _, members_frame db db'
      ∧ (∀ cr, cr ∈ removed → memberships db' !! (cr.1, user)
            = (m ← memberships db !! (cr.1, user);
               if bool_decide (mb_role m = OrganizationOwner) then Some m else None))
      ∧ ∀ k, k ∉ (λ cr, (cr.1, user)) <$> removed → memberships db' !! k = memberships db !! k) db n.
Proof.
  intros Hnd.
  apply (wp_for_keys memberships members_frame removed (λ cr, (cr.1, user))
           (λ _ om, m ← om; if bool_decide (mb_role m = OrganizationOwner) then Some m else None)).
  - by apply NoDup_user_keys.
  - intros [o role] db1 n1 _. apply wp_writes; [intros e; by exists e|]. cbn.
    unfold delete_non_owner_organization_membership, user_is_owner.
    destruct (memberships db1 !! (o, user)) as [m|] eqn:Hm.
    + case_bool_decide as Ho.
      * split; [done|]. apply map_eq. intros k. destruct (decide ((o, user) = k)) as [<-|Hne].
        -- rewrite lookup_partial_alter_eq, Hm. simpl. by rewrite bool_decide_true.
        -- by rewrite lookup_partial_alter_ne.
      * split; [by eexists|]. cbn. apply partial_alter_unset. rewrite Hm. simpl.
        by rewrite bool_decide_false.
    + split; [by eexists|]. cbn. apply partial_alter_unset. by rewrite Hm.
Qed.

Lemma not_elem_of_keys {A B} (l : list (A * B)) k : k ∉ l.*1 ↔ ∀ v, (k, v) ∉ l.
Proof.
  rewrite list_elem_of_fmap. split; [|by intros Hl [[k' v] [-> Hv]]; apply (Hl v)].
  intros Hl v Hv. apply Hl. by exists (k, v).
Qed.

(** What the two loops leave of one membership. *)
Lemma synchronised_membership now user db mappings groups o (m1 m2 : option Membership) :
  let current := list_organization_membership_roles user db in
  let desired := desired_roles groups (map_to_list mappings) in
  let added := to_upsert current desired in
  let mapped := (λ m : (uuid * text) * GroupMapping, m.1.1) <$> map_to_list mappings in
  let removed := to_delete mapped current desired in
  let before := memberships db !! (o, user) in
  (∀ role, (o, role) ∈ added → m1 = Some (kept_owner role now before)) →
  (o ∉ added.*1 → m1 = before) →
  (∀ role, (o, role) ∈ removed →
     m2 = (m ← m1; if bool_decide (mb_role m = OrganizationOwner) then Some m else None)) →
  (o ∉ removed.*1 → m2 = m1) →
  m2 = synchronised now (desired !! o) (bool_decide (o ∈ mapped)) before
  ∧ (m2 ≠ before → o ∈ added.*1 ++ removed.*1).
Proof.
  intros current desired added mapped removed before Hadd Hnadd Hrem Hnrem.
  assert (∀ role, (o, role) ∈ added ↔ desired !! o = Some role
            ∧ membership_role_needs_upsert (current !! o) role = true) as Hin1.
  { intros role. unfold added, to_upsert. rewrite list_elem_of_filter, elem_of_map_to_list. tauto. }
  assert (∀ role, (o, role) ∈ removed ↔ current !! o = Some role ∧ role ≠ OrganizationOwner
            ∧ desired !! o = None ∧ o ∈ mapped) as Hin2.
  { intros role. unfold removed, to_delete. rewrite list_elem_of_filter, elem_of_map_to_list. cbn.
    rewrite negb_true_iff, !orb_false_iff, negb_false_iff, !bool_decide_eq_false, bool_decide_eq_true,
      <-eq_None_not_Some. tauto. }
  assert (current !! o = mb_role <$> before) as Hcur by apply current_roles_lookup.
  rewrite elem_of_app. rewrite not_elem_of_keys in Hnadd, Hnrem.
  split.
  - destruct (desired !! o) as [role|] eqn:Hd.
    + rewrite Hnrem by (intros r Hr%Hin2; destruct Hr as (_ & _ & ? & _); done).
      destruct before as [m|] eqn:Hb; simpl in Hcur.
      * destruct (membership_role_needs_upsert (current !! o) role) eqn:Hneeds.
        -- rewrite (Hadd role) by by apply Hin1. simpl. by case_bool_decide.
        -- rewrite Hnadd by (intros r [[= <-] Hr]%Hin1; congruence). simpl.
           rewrite Hcur in Hneeds. cbn in Hneeds. apply negb_false_iff, bool_decide_eq_true in Hneeds.
           case_bool_decide; [done|]. destruct Hneeds as [<-|?]; [by destruct m|done].
      * by rewrite (Hadd role) by (apply Hin1; by rewrite Hcur).
    + assert (m1 = before) as ->.
      { apply Hnadd. intros r [? _]%Hin1. congruence. }
      destruct before as [m|] eqn:Hb; simpl in Hcur.
      * simpl. destruct (decide (mb_role m ≠ OrganizationOwner ∧ o ∈ mapped)) as [[Ho Hm]|Hno].
        -- rewrite (Hrem (mb_role m)) by (apply Hin2; auto). simpl.
           rewrite (bool_decide_false (mb_role m = OrganizationOwner)) by done.
           by rewrite (bool_decide_true (o ∈ mapped)).
        -- rewrite Hnrem by (intros r (? & ? & _ & ?)%Hin2; apply Hno; split; congruence).
           case_bool_decide as Ho; [done|]. rewrite (bool_decide_false (o ∈ mapped)); [done|]. intros Hm. by apply Hno.
      * rewrite Hnrem; [done|]. intros r (? & _)%Hin2. congruence.
  - intros Hne. destruct (decide (o ∈ added.*1)) as [|Hna]; [by left|].
    destruct (decide (o ∈ removed.*1)) as [|Hnr]; [by right|]. exfalso. apply Hne.
    rewrite not_elem_of_keys in Hna, Hnr. by rewrite Hnrem, Hnadd.
Qed.

Lemma mapped_organization (mappings : gmap (uuid * text) GroupMapping) o :
  bool_decide (o ∈ (λ m : (uuid * text) * GroupMapping, m.1.1) <$> map_to_list mappings)
  = exists_row (λ k _, bool_decide (k.1 = o)) mappings.
Proof.
  apply Bool.eq_iff_eq_true. rewrite bool_decide_eq_true, exists_row_true, list_elem_of_fmap. split.
  - intros ([k m] & -> & Hk%elem_of_map_to_list). exists k, m. by rewrite bool_decide_true.
  - intros (k & m & Hk & <-%bool_decide_eq_true). exists (k, m). by rewrite elem_of_map_to_list.
Qed.

Record groups_synchronised (now : time) (user : uuid) (groups : list text) (db db' : AccessDB) :
    Prop := {
  gs_groups : ∀ u g, (u, g) ∈ user_groups db' ↔
              if decide (u = user) then g ∈ groups else (u, g) ∈ user_groups db;
  gs_members : ∀ o, ∃ desired, highest_mapping (group_mappings db) groups o desired
              ∧ memberships db' !! (o, user)
                = synchronised now desired (is_mapped o db) (memberships db !! (o, user));
  gs_others : ∀ o u, u ≠ user → memberships db' !! (o, u) = memberships db !! (o, u);
  gs_epochs : ∀ o project g, organization_access db !! (project, o) = Some g →
              memberships db' !! (o, user) ≠ memberships db !! (o, user) →
              epoch_advanced project db db';
}.

Lemma other_user_key {B} (user u : uuid) (l : list (uuid * B)) o :
  u ≠ user → (o, u) ∉ (λ x, (x.1, user)) <$> l.
Proof. intros Hne (x & [= _ ?] & _)%list_elem_of_fmap. done. Qed.

Lemma same_user_key {B} (user : uuid) (l : list (uuid * B)) o :
  (o, user) ∈ (λ x, (x.1, user)) <$> l → o ∈ l.*1.
Proof. intros (x & [= ->] & ?)%list_elem_of_fmap. by apply list_elem_of_fmap_2. Qed.

(** C31: synchronising a login's groups, when it succeeds, replaces exactly the
    user's groups, gives the user in every organization the highest role the
    mappings of these groups give, never demotes an owner, ends memberships of
    mapped organizations that no group gives any more, leaves organizations
    without mappings and everybody else alone, and advances the epoch of every
    project granted to an organization whose membership changed.  A failure
    leaves nothing behind, unless only the confirmation of the commit was lost. *)
Theorem group_sync_sets_exactly_the_mapped_memberships s now user groups db r db' :
  sync_oidc_identity_groups s now user groups db = (r, db') →
  match r with
  | Ok _ => groups_synchronised now user groups db db'
  | Err _ => db' = db ∨ groups_synchronised now user groups db db'
  end.
Proof.
  intros Hsync. unfold sync_oidc_identity_groups in Hsync. tx_start Hsync; [by left|].
  wp_step. wp_step; [by left|]. wp_step. eapply wp_mono; [apply replace_groups_wp| |].
  { intros r1 [e ->]. by left. }
  intros [] db1 n1 ([t1 ->] & Hgroups).
  wp_step. wp_step; [by left|]. wp_step. wp_step; [by left|]. cbv zeta.
  set (db1 := _ <| user_groups := t1 |>) in *.
  set (mappings := group_mappings db1). set (current := list_organization_membership_roles user db1).
  set (desired := desired_roles groups (map_to_list mappings)).
  set (added := to_upsert current desired).
  set (removed := to_delete _ current desired).
  wp_step. eapply wp_mono; [apply upsert_members_wp, NoDup_fst_filter, NoDup_fst_map_to_list| |].
  { intros r1 [e ->]. by left. }
  intros [] db2 n2 ([t2 ->] & Hadd & Hnadd).
  wp_step. eapply wp_mono; [apply delete_members_wp, NoDup_fst_filter, NoDup_fst_map_to_list| |].
  { intros r1 [e ->]. by left. }
  intros [] db3 n3 ([t3 ->] & Hrem & Hnrem).
  wp_step. apply wp_exec; [by left|]. intros ids db4 (f & -> & Hf)%advance_organizations_spec.
  cbn in Hadd, Hnadd, Hrem, Hnrem, Hf.
  assert (∀ o, t3 !! (o, user)
     = synchronised now (desired !! o) (bool_decide (o ∈ (λ m : (uuid * text) * GroupMapping, m.1.1)
         <$> map_to_list mappings)) (memberships db !! (o, user))
     ∧ (t3 !! (o, user) ≠ memberships db !! (o, user) → o ∈ added.*1 ++ removed.*1)) as Hmem.
  { intros o. apply (synchronised_membership now user db1 mappings groups o (t2 !! (o, user))).
    - intros role Hin. apply (Hadd _ Hin).
    - intros Hno. apply Hnadd. contradict Hno. by apply same_user_key in Hno.
    - intros role Hin. apply (Hrem _ Hin).
    - intros Hno. apply Hnrem. contradict Hno. by apply same_user_key in Hno. }
  assert (groups_synchronised now user groups db (db1 <| memberships := t2 |> <| memberships := t3 |>
            <| projects := f |>)) as Hdone.
  2: { wp_step. by auto. }
  split; cbn.
  - intros u g. cbn in Hgroups. rewrite Hgroups, elem_of_filter. cbn. case_decide; naive_solver.
  - intros o. destruct (Hmem o) as [-> _]. exists (desired !! o).
    split; [apply desired_roles_spec|]. by rewrite mapped_organization.
  - intros o u Hne. by rewrite Hnrem, Hnadd by by apply other_user_key.
  - intros o project g Hg Hchange e. unfold project_access_epoch. cbn. rewrite Hf.
    destruct (projects db !! project) as [p|]; [|done]. intros [= <-].
    eexists. split; [done|]. unfold advance_project_row. rewrite bool_decide_true; [cbn; lia|].
    apply elem_of_organization_projects. exists o, g. split; [done|].
    apply elem_of_remove_dups. by apply Hmem.
Qed.

(** Carol logs in as a member of the staff group, bob without any group. *)
Lemma group_sync_sets_exactly_the_mapped_memberships_witness :
  groups_synchronised 7 carol [lit "staff"] sample_db
    (run_access healthy 7 (OSyncGroups carol [lit "staff"]) sample_db)
  ∧ groups_synchronised 7 bob [] sample_db (run_access healthy 7 (OSyncGroups bob []) sample_db).
Proof.
  split; cbn [run_access].
  - assert (∃ ids, (sync_oidc_identity_groups healthy 7 carol [lit "staff"] sample_db).1 = Ok ids)
      as [ids Hids] by (eexists; vm_compute; reflexivity).
    apply (group_sync_sets_exactly_the_mapped_memberships healthy _ _ _ _ (Ok ids)).
    by rewrite <-Hids, <-surjective_pairing.
  - assert (∃ ids, (sync_oidc_identity_groups healthy 7 bob [] sample_db).1 = Ok ids)
      as [ids Hids] by (eexists; vm_compute; reflexivity).
    apply (group_sync_sets_exactly_the_mapped_memberships healthy _ _ _ _ (Ok ids)).
    by rewrite <-Hids, <-surjective_pairing.
Defined.
