(* ===== verification/WorkspaceModel.v ===== *)
(** * Workspace: tables, and what every content change records

    The content tables of migrations/202607120001_baseline.sql, the
    collaboration streams, and the bookkeeping of versioning and external
    repositories that every content change updates.  The columns of [projects]
    are divided: the access epoch and the template flag are in the access
    tables, which this database contains. *)
From S2P Require Import Prelude Store Text Paths AccessModel.

Open Scope Z_scope.

(** ** Rows *)

Record ProjectRow : Type := MkProjectRow {
  p_type : ProjectType; p_created_at : time; p_workspace_version : Z; p_content_epoch : Z }.
Record Document : Type := MkDocument {
  d_project : uuid; d_path : text; d_content : text; d_updated_at : time;
  d_path_revision : Z; d_collaboration_revision : Z; d_change_sequence : Z }.
Record Asset : Type := MkAsset {
  a_project : uuid; a_path : text; a_content_revision : uuid; a_object_key : text;
  a_content_type : text; a_size_bytes : Z; a_uploaded_by : option uuid; a_created_at : time;
  a_inline_data : option bytes }.
Record Settings : Type := MkSettings {
  st_entry_file_path : text; st_latex_engine : option LatexEngine; st_settings_revision : Z;
  st_updated_at : time }.

Inductive PersistedUpdateKind : Type := Update | Sync.
#[export] Instance PersistedUpdateKind_eq_dec : EqDecision PersistedUpdateKind.
Proof. solve_decision. Defined.

(** A collaboration stream: a document at one revision in one content epoch
    ([collaboration::CollaborationDocument]). *)
Record CollaborationDocument : Type := MkStream {
  cd_project : uuid; cd_document : uuid; cd_collaboration_revision : Z; cd_content_epoch : Z }.
#[export] Instance CollaborationDocument_eq_dec : EqDecision CollaborationDocument.
Proof. solve_decision. Defined.

Record UpdateRow : Type := MkUpdateRow {
  ur_stream : CollaborationDocument; ur_user : option uuid; ur_kind : PersistedUpdateKind;
  ur_payload : bytes; ur_created_at : time; ur_guest_display_name : option text }.
(** Keyed by project, document and revision. *)
Record SnapshotRow : Type := MkSnapshotRow {
  sr_upto_update_id : Z; sr_state_update : bytes; sr_updated_at : time; sr_content_epoch : Z }.

Record DeletionRow : Type := MkDeletionRow {
  dq_next_attempt_at : time; dq_attempt_count : Z; dq_locked_at : option time;
  dq_last_error : option text; dq_created_at : time; dq_updated_at : time }.

(** versioning: [git_repositories] and [project_sync_queue]. *)
Record RepositoryRow : Type := MkRepositoryRow { gr_pending_sync : bool; gr_updated_at : time }.
Record SyncQueueRow : Type := MkSyncQueueRow {
  sq_dirty_since : time; sq_last_enqueued_at : time; sq_last_attempt_at : option time;
  sq_attempt_count : Z; sq_last_error : option text }.

#[export] Instance ProjectRow_eta : Eta ProjectRow := λ p,
  MkProjectRow (p_type p) (p_created_at p) (p_workspace_version p) (p_content_epoch p).
#[export] Instance Document_eta : Eta Document := λ d,
  MkDocument (d_project d) (d_path d) (d_content d) (d_updated_at d) (d_path_revision d)
    (d_collaboration_revision d) (d_change_sequence d).
#[export] Instance Asset_eta : Eta Asset := λ a,
  MkAsset (a_project a) (a_path a) (a_content_revision a) (a_object_key a) (a_content_type a)
    (a_size_bytes a) (a_uploaded_by a) (a_created_at a) (a_inline_data a).
#[export] Instance Settings_eta : Eta Settings := λ s,
  MkSettings (st_entry_file_path s) (st_latex_engine s) (st_settings_revision s) (st_updated_at s).
#[export] Instance DeletionRow_eta : Eta DeletionRow := λ d,
  MkDeletionRow (dq_next_attempt_at d) (dq_attempt_count d) (dq_locked_at d) (dq_last_error d)
    (dq_created_at d) (dq_updated_at d).
#[export] Instance RepositoryRow_eta : Eta RepositoryRow := λ r,
  MkRepositoryRow (gr_pending_sync r) (gr_updated_at r).
#[export] Instance SyncQueueRow_eta : Eta SyncQueueRow := λ r,
  MkSyncQueueRow (sq_dirty_since r) (sq_last_enqueued_at r) (sq_last_attempt_at r)
    (sq_attempt_count r) (sq_last_error r).

(** ** The database

    [directories] is keyed by project and path, updates by their identity
    column; [next_update] and [next_change] are the next values of the two
    sequences (a value drawn by a block that is rolled back is drawn again,
    where PostgreSQL leaves a gap). *)
Record WorkspaceDB : Type := MkWorkspaceDB {
  access : AccessDB;
  project_rows : gmap uuid ProjectRow;
  documents : gmap uuid Document;
  directories : gmap (uuid * text) time;
  assets : gmap uuid Asset;
  settings : gmap uuid Settings;
  collab_updates : gmap Z UpdateRow;
  collab_snapshots : gmap (uuid * uuid * Z) SnapshotRow;
  next_update : Z;
  next_change : Z;
  deletion_queue : gmap text DeletionRow;
  git_repositories : gmap uuid RepositoryRow;
  sync_queue : gmap uuid SyncQueueRow;
  pending_authors : gmap (uuid * uuid) time;
  pending_guests : gmap (uuid * text) time;
  external_links : gset uuid;
  external_authors : gmap (uuid * uuid) time;
  external_guests : gmap (uuid * text) time;
  git_sync_states : gset uuid;
}.
#[export] Instance WorkspaceDB_eta : Eta WorkspaceDB := λ db,
  MkWorkspaceDB (access db) (project_rows db) (documents db) (directories db) (assets db)
    (settings db) (collab_updates db) (collab_snapshots db) (next_update db) (next_change db)
    (deletion_queue db) (git_repositories db) (sync_queue db) (pending_authors db)
    (pending_guests db) (external_links db) (external_authors db) (external_guests db)
    (git_sync_states db).

(** A statement of the access component on its part of the database. *)
Definition on_access {A} (q : AccessDB → result sqlx_error (A * AccessDB)) (db : WorkspaceDB) :
    result sqlx_error (A * WorkspaceDB) :=
  match q (access db) with
  | Ok (a, db_access) => Ok (a, db <| access := db_access |>)
  | Err e => Err e
  end.

Definition known_user (user : option uuid) (db : WorkspaceDB) : bool :=
  match user with Some u => bool_decide (is_Some (users (access db) !! u)) | None => true end.

(** ** content_generation *)

Inductive ProjectContentEpochMatch : Type := EpochCurrent | EpochChanged | EpochProjectNotFound.

Definition project_content_epoch (project : uuid) (db : WorkspaceDB) : option Z :=
  p_content_epoch <$> project_rows db !! project.

(** [lock_project_content_epoch]; [lock_project_content_mutation] and
    [lock_project_content_exclusively] only take the row's lock. *)
Definition lock_project_content_epoch (project : uuid) (expected : Z) (db : WorkspaceDB) :
    ProjectContentEpochMatch :=
  match project_content_epoch project db with
  | Some current => if current =? expected then EpochCurrent else EpochChanged
  | None => EpochProjectNotFound
  end.
Definition lock_project_content (db : WorkspaceDB) : WorkspaceDB := db.

(** * Workspace: what every content change records

    workspace::activity, versioning::persistence::record_workspace_change,
    external_repositories::checkpoint::persistence::record_project_activity
    and object_cleanup::enqueue_object_deletions. *)
Inductive WorkspaceContributor : Type := ByUser (user : uuid) | ByGuest (display_name : text) | BySystem.
Inductive CollaborationContributor : Type := ContributorUser (user : uuid) | ContributorGuest (name : text).
#[export] Instance CollaborationContributor_eq_dec : EqDecision CollaborationContributor.
Proof. solve_decision. Defined.
Inductive WorkspaceChangeKind : Type := Incremental | Replacement.

Definition normalized_guest_name (display_name : text) : option text :=
  let display_name := trim display_name in
  if text_eqb display_name [] then None else Some display_name.

(** The upserts of [record_workspace_change]; [project_id] and [user_id] are
    foreign keys of the tables. *)
Definition touch_repository (project : uuid) (now : time) (db : WorkspaceDB) :
    result sqlx_error (unit * WorkspaceDB) :=
  if bool_decide (project_rows db !! project = None) then Err ForeignKeyViolation else
  Ok ((), db <| git_repositories := <[project := MkRepositoryRow true now]> (git_repositories db) |>).

Definition queued_change (kind : WorkspaceChangeKind) (now : time) (row : option SyncQueueRow) :
    SyncQueueRow :=
  match row, kind with
  | None, _ => MkSyncQueueRow now now None 0 None
  | Some r, Incremental => r <| sq_last_enqueued_at := now |>
  | Some r, Replacement =>
      r <| sq_dirty_since := now |> <| sq_last_enqueued_at := now |> <| sq_last_error := None |>
  end.
Definition enqueue_sync (project : uuid) (kind : WorkspaceChangeKind) (now : time) (db : WorkspaceDB) :
    WorkspaceDB :=
  db <| sync_queue := <[project := queued_change kind now (sync_queue db !! project)]> (sync_queue db) |>.

Definition insert_pending_author (project user : uuid) (now : time) (db : WorkspaceDB) :
    result sqlx_error (unit * WorkspaceDB) :=
  if negb (known_user (Some user) db) then Err ForeignKeyViolation else
  Ok ((), db <| pending_authors := <[(project, user) := now]> (pending_authors db) |>).
Definition insert_pending_guest (project : uuid) (name : text) (now : time) (db : WorkspaceDB) :
    WorkspaceDB :=
  db <| pending_guests := <[(project, name) := now]> (pending_guests db) |>.

(** The selects on [external_git_project_links] keep projects that have one. *)
Definition insert_external_author (project user : uuid) (now : time) (db : WorkspaceDB) :
    result sqlx_error (unit * WorkspaceDB) :=
  if negb (bool_decide (project ∈ external_links db)) then Ok ((), db) else
  if negb (known_user (Some user) db) then Err ForeignKeyViolation else
  Ok ((), db <| external_authors := <[(project, user) := now]> (external_authors db) |>).
Definition insert_external_guest (project : uuid) (name : text) (now : time) (db : WorkspaceDB) :
    WorkspaceDB :=
  if bool_decide (project ∈ external_links db)
  then db <| external_guests := <[(project, name) := now]> (external_guests db) |> else db.

(** [advance_workspace_version]; a [bigint] increment past the maximum is
    refused by the server. *)
Definition advance_workspace_version (project : uuid) (db : WorkspaceDB) :
    result sqlx_error (unit * WorkspaceDB) :=
  match project_rows db !! project with
  | None => Ok ((), db)
  | Some p =>
      if i64_max <=? p_workspace_version p then Err OutOfRange else
      Ok ((), db <| project_rows :=
           <[project := p <| p_workspace_version := p_workspace_version p + 1 |>]> (project_rows db) |>)
  end.

(** object_cleanup: [external_object_keys] and [enqueue_object_deletions]. *)
Definition is_external_key (key : text) : bool :=
  negb (text_eqb (trim key) []) && negb (starts_with (lit "inline://") key).
Definition queued_deletion (now : time) (row : option DeletionRow) : DeletionRow :=
  match row with
  | None => MkDeletionRow now 0 None None now now
  | Some r => r <| dq_next_attempt_at := Z.min (dq_next_attempt_at r) now |>
                <| dq_locked_at := None |> <| dq_last_error := None |> <| dq_updated_at := now |>
  end.
Definition enqueue_object_deletion (now : time) (key : text) (db : WorkspaceDB) : WorkspaceDB :=
  db <| deletion_queue := <[key := queued_deletion now (deletion_queue db !! key)]> (deletion_queue db) |>.

Section activity.
Context {R : Type} (s : schedule) (fail : sqlx_error → R).

Definition enqueue_object_deletions (now : time) (keys : list text) : Tx WorkspaceDB R unit :=
  tx_for (filter (λ key, is_external_key key = true) keys) (λ key,
    exec s fail (writes (enqueue_object_deletion now key))).

Definition record_workspace_change (project : uuid) (contributor : WorkspaceContributor)
    (kind : WorkspaceChangeKind) (now : time) : Tx WorkspaceDB R unit :=
  _ ← exec s fail (touch_repository project now);
  _ ← exec s fail (writes (enqueue_sync project kind now));
  match contributor with
  | ByUser user => exec s fail (insert_pending_author project user now)
  | ByGuest name =>
      match normalized_guest_name name with
      | Some name => exec s fail (writes (insert_pending_guest project name now))
      | None => mret ()
      end
  | BySystem => mret ()
  end.

Definition record_project_activity (project : uuid) (actor : option uuid)
    (guest_display_name : option text) (now : time) : Tx WorkspaceDB R unit :=
  match actor, guest_display_name with
  | Some user, _ => exec s fail (insert_external_author project user now)
  | None, Some name =>
      match normalized_guest_name name with
      | Some name => exec s fail (writes (insert_external_guest project name now))
      | None => mret ()
      end
  | None, None => mret ()
  end.

Definition mark_project_dirty (project : uuid) (actor : option uuid)
    (guest_display_name : option text) (now : time) : Tx WorkspaceDB R unit :=
  _ ← exec s fail (advance_workspace_version project);
  let contributor := match actor, guest_display_name with
                     | Some user, _ => ByUser user
                     | None, Some name => ByGuest name
                     | None, None => BySystem
                     end in
  _ ← record_workspace_change project contributor Incremental now;
  record_project_activity project actor guest_display_name now.

Definition record_contribution (project : uuid) (now : time) (c : CollaborationContributor) :
    Tx WorkspaceDB R unit :=
  match c with
  | ContributorUser user =>
      _ ← record_workspace_change project (ByUser user) Incremental now;
      record_project_activity project (Some user) None now
  | ContributorGuest name =>
      _ ← record_workspace_change project (ByGuest name) Incremental now;
      record_project_activity project None (Some name) now
  end.

Definition record_collaborative_document_activity (project : uuid)
    (contributors : list CollaborationContributor) (now : time) : Tx WorkspaceDB R unit :=
  _ ← exec s fail (advance_workspace_version project);
  if bool_decide (length contributors = 0%nat) then
    _ ← record_workspace_change project BySystem Incremental now;
    record_project_activity project None None now
  else tx_for contributors (record_contribution project now).
End activity.
