(* ===== verification/WorkspaceStatements.v ===== *)
(** * Workspace: the statements on documents, files, assets and settings

    workspace::documents_persistence, ::files_persistence,
    ::assets_persistence and ::settings_persistence.  A multi-row [update]
    checks the unique constraints row by row, in the table's enumeration
    order, as PostgreSQL does in the order of its scan. *)
From S2P Require Import Prelude Store Text Paths AccessModel WorkspaceModel.

Open Scope Z_scope.

(** ** documents_persistence *)

Definition document_at (project : uuid) (path : text) (_ : uuid) (d : Document) : bool :=
  bool_decide (d_project d = project ∧ d_path d = path).
Definition find_document (project : uuid) (path : text) (db : WorkspaceDB) : option (uuid * Document) :=
  head (select (document_at project path) (documents db)).
Definition document_exists (project : uuid) (path : text) (db : WorkspaceDB) : bool :=
  exists_row (document_at project path) (documents db).

(** [nextval('documents_change_sequence_seq')]. *)
Definition with_change (f : Z → WorkspaceDB → WorkspaceDB) (db : WorkspaceDB) : WorkspaceDB :=
  f (next_change db) (db <| next_change := next_change db + 1 |>).

(** [insert]: the path must be free among the documents of the project. *)
Definition insert_document (id project : uuid) (path content : text) (now : time) (db : WorkspaceDB) :
    result sqlx_error (Document * WorkspaceDB) :=
  if bool_decide (project_rows db !! project = None) then Err ForeignKeyViolation else
  if document_exists project path db then Err UniqueViolation else
  let d := MkDocument project path content now 0 0 (next_change db) in
  if bool_decide (is_Some (documents db !! id)) then Err KeyViolation else
  Ok (d, db <| documents := <[id := d]> (documents db) |> <| next_change := next_change db + 1 |>).

Definition rewritten (content : text) (now : time) (seq : Z) (d : Document) : Document :=
  d <| d_content := content |> <| d_updated_at := now |>
    <| d_collaboration_revision := d_collaboration_revision d + 1 |> <| d_change_sequence := seq |>.

(** [upsert_by_path], [upsert_document]. *)
Definition upsert_by_path (id project : uuid) (path content : text) (now : time) (db : WorkspaceDB) :
    result sqlx_error ((uuid * Document) * WorkspaceDB) :=
  match find_document project path db with
  | Some (old, d) =>
      if i64_max <=? d_collaboration_revision d then Err OutOfRange else
      let d := rewritten content now (next_change db) d in
      Ok ((old, d), db <| documents := <[old := d]> (documents db) |>
                       <| next_change := next_change db + 1 |>)
  | None =>
      match insert_document id project path content now db with
      | Ok (d, db) => Ok ((id, d), db)
      | Err e => Err e
      end
  end.

Definition find_by_id (project document : uuid) (db : WorkspaceDB) : option Document :=
  d ← documents db !! document; if bool_decide (d_project d = project) then Some d else None.
Definition find_path_by_id (project document : uuid) (db : WorkspaceDB) : option text :=
  d_path <$> find_by_id project document db.
Definition revisions_by_id (project document : uuid) (db : WorkspaceDB) : option (Z * Z) :=
  (λ d, (d_path_revision d, d_collaboration_revision d)) <$> find_by_id project document db.

Definition update_content (project document : uuid) (path_revision collaboration_revision : Z)
    (content : text) (now : time) (db : WorkspaceDB) :
    result sqlx_error (option Document * WorkspaceDB) :=
  match find_by_id project document db with
  | Some d =>
      if (d_path_revision d =? path_revision) && (d_collaboration_revision d =? collaboration_revision)
      then if i64_max <=? d_collaboration_revision d then Err OutOfRange else
           let d := rewritten content now (next_change db) d in
           Ok (Some d, db <| documents := <[document := d]> (documents db) |>
                          <| next_change := next_change db + 1 |>)
      else Ok (None, db)
  | None => Ok (None, db)
  end.

(** [lock_by_collaboration_identity], [collaboration_seed_content]. *)
Definition find_by_identity (project document : uuid) (revision : Z) (db : WorkspaceDB) :
    option Document :=
  d ← find_by_id project document db;
  if d_collaboration_revision d =? revision then Some d else None.

Definition update_projected_content (project document : uuid) (revision : Z) (content : text)
    (now : time) (db : WorkspaceDB) : option Document * WorkspaceDB :=
  match find_by_identity project document revision db with
  | Some d =>
      let d := d <| d_content := content |> <| d_updated_at := now |>
                 <| d_change_sequence := next_change db |> in
      (Some d, db <| documents := <[document := d]> (documents db) |>
                  <| next_change := next_change db + 1 |>)
  | None => (None, db)
  end.

(** Deleting a document deletes its collaboration rows (foreign keys with
    [on delete cascade]). *)
Definition delete_documents (P : uuid → Document → bool) (db : WorkspaceDB) : WorkspaceDB :=
  let gone k := match documents db !! k with Some d => P k d | None => false end in
  db <| documents := delete_rows P (documents db) |>
     <| collab_updates := delete_rows (λ _ u, gone (cd_document (ur_stream u))) (collab_updates db) |>
     <| collab_snapshots := delete_rows (λ k _, gone k.1.2) (collab_snapshots db) |>.

Definition delete_by_id (project document : uuid) (db : WorkspaceDB) : Z * WorkspaceDB :=
  let P k d := bool_decide (k = document ∧ d_project d = project) in
  (count P (documents db), delete_documents P db).

Definition list_after_change_sequence (project : uuid) (after : option Z) (limit : nat)
    (db : WorkspaceDB) : list (uuid * Document) :=
  take limit (order_by (λ kd : uuid * Document, d_change_sequence kd.2)
    (select (λ _ d, bool_decide (d_project d = project) && (default 0 after <? d_change_sequence d))
       (documents db))).

(** ** files_persistence *)

(** [path = $2 or left(path, char_length($2) + 1) = $2 || '/'] and the [case]
    that rewrites a path of the subtree. *)
Definition in_sql_subtree (root path : text) : bool :=
  text_eqb path root || text_eqb (take (length root + 1) path) (root ++ [slash]).
Definition sql_moved (from to path : text) : text :=
  if text_eqb path from then to else to ++ drop (length from) path.

Record FileMutationCounts : Type := MkCounts { fc_directories : Z; fc_documents : Z; fc_assets : Z }.
Definition changed (c : FileMutationCounts) : bool :=
  (0 <? fc_directories c) || (0 <? fc_documents c) || (0 <? fc_assets c).

Definition insert_directory (project : uuid) (path : text) (now : time) (db : WorkspaceDB) :
    result sqlx_error (bool * WorkspaceDB) :=
  match directories db !! (project, path) with
  | Some _ => Ok (false, db)
  | None =>
      if bool_decide (project_rows db !! project = None) then Err ForeignKeyViolation else
      Ok (true, db <| directories := <[(project, path) := now]> (directories db) |>)
  end.

Definition delete_document_at_path (project : uuid) (path : text) : WorkspaceDB → WorkspaceDB :=
  delete_documents (document_at project path).

Section move.
Context (project : uuid) (from to : text).

Definition move_directory (db : WorkspaceDB) (row : (uuid * text) * time) :
    result sqlx_error WorkspaceDB :=
  let '(k, created_at) := row in
  let k' := (project, sql_moved from to k.2) in
  if bool_decide (k' ≠ k ∧ is_Some (directories db !! k')) then Err UniqueViolation else
  Ok (db <| directories := <[k' := created_at]> (delete k (directories db)) |>).

Definition move_document (now : time) (db : WorkspaceDB) (row : uuid * Document) :
    result sqlx_error WorkspaceDB :=
  let '(id, d) := row in
  let path := sql_moved from to (d_path d) in
  if exists_row (λ k d', bool_decide (k ≠ id) && document_at project path k d') (documents db)
  then Err UniqueViolation else
  if i64_max <=? d_path_revision d then Err OutOfRange else
  let d := d <| d_path := path |> <| d_path_revision := d_path_revision d + 1 |>
             <| d_change_sequence := next_change db |> <| d_updated_at := now |> in
  Ok (db <| documents := <[id := d]> (documents db) |> <| next_change := next_change db + 1 |>).

Definition asset_at (project : uuid) (path : text) (_ : uuid) (a : Asset) : bool :=
  bool_decide (a_project a = project ∧ a_path a = path).

Definition move_asset (db : WorkspaceDB) (row : uuid * Asset) : result sqlx_error WorkspaceDB :=
  let '(id, a) := row in
  let path := sql_moved from to (a_path a) in
  if exists_row (λ k a', bool_decide (k ≠ id) && asset_at project path k a') (assets db)
  then Err UniqueViolation else
  Ok (db <| assets := <[id := a <| a_path := path |>]> (assets db) |>).

(** One multi-row [update]: the rows selected at its start, one by one. *)
Fixpoint update_each {Row} (f : WorkspaceDB → Row → result sqlx_error WorkspaceDB)
    (rows : list Row) (db : WorkspaceDB) : result sqlx_error WorkspaceDB :=
  match rows with
  | [] => Ok db
  | row :: rows => db ← f db row; update_each f rows db
  end.
Definition updates_rows {Row} (f : WorkspaceDB → Row → result sqlx_error WorkspaceDB)
    (rows : WorkspaceDB → list Row) (db : WorkspaceDB) : result sqlx_error (Z * WorkspaceDB) :=
  match update_each f (rows db) db with
  | Ok db' => Ok (Z.of_nat (length (rows db)), db')
  | Err e => Err e
  end.

Definition directories_in (root : text) (db : WorkspaceDB) : list ((uuid * text) * time) :=
  select (λ k _, bool_decide (k.1 = project) && in_sql_subtree root k.2) (directories db).
Definition documents_in (root : text) (db : WorkspaceDB) : list (uuid * Document) :=
  select (λ _ d, bool_decide (d_project d = project) && in_sql_subtree root (d_path d)) (documents db).
Definition assets_in (root : text) (db : WorkspaceDB) : list (uuid * Asset) :=
  select (λ _ a, bool_decide (a_project a = project) && in_sql_subtree root (a_path a)) (assets db).

Definition move_directories : WorkspaceDB → result sqlx_error (Z * WorkspaceDB) :=
  updates_rows move_directory (directories_in from).
Definition move_documents (now : time) : WorkspaceDB → result sqlx_error (Z * WorkspaceDB) :=
  updates_rows (move_document now) (documents_in from).
Definition move_assets : WorkspaceDB → result sqlx_error (Z * WorkspaceDB) :=
  updates_rows move_asset (assets_in from).

Definition delete_directories (root : text) (db : WorkspaceDB) : Z * WorkspaceDB :=
  (Z.of_nat (length (directories_in root db)),
   db <| directories := delete_rows (λ k _, bool_decide (k.1 = project) && in_sql_subtree root k.2)
                          (directories db) |>).
Definition delete_documents_in (root : text) (db : WorkspaceDB) : Z * WorkspaceDB :=
  (Z.of_nat (length (documents_in root db)),
   delete_documents (λ _ d, bool_decide (d_project d = project) && in_sql_subtree root (d_path d)) db).
Definition delete_assets_in (root : text) (db : WorkspaceDB) : Z * WorkspaceDB :=
  (Z.of_nat (length (assets_in root db)),
   db <| assets := delete_rows (λ _ a, bool_decide (a_project a = project)
                                       && in_sql_subtree root (a_path a)) (assets db) |>).
End move.

(** A statement that returns the number of affected rows. *)
Definition affecting {A} (f : WorkspaceDB → A * WorkspaceDB) (db : WorkspaceDB) :
    result sqlx_error (A * WorkspaceDB) := Ok (f db).

(** ** assets_persistence *)

Definition object_keys_at_path (project : uuid) (path : text) (db : WorkspaceDB) : list text :=
  (λ ka, a_object_key ka.2) <$> select (asset_at project path) (assets db).

(** [upsert]: object keys are unique, and a row found at the path keeps its
    identity. *)
Definition upsert_asset (id : uuid) (a : Asset) (db : WorkspaceDB) :
    result sqlx_error ((uuid * Asset) * WorkspaceDB) :=
  if bool_decide (project_rows db !! a_project a = None) || negb (known_user (a_uploaded_by a) db)
  then Err ForeignKeyViolation else
  let target := head (select (asset_at (a_project a) (a_path a)) (assets db)) in
  let key := match target with Some (old, _) => old | None => id end in
  if exists_row (λ k a', bool_decide (k ≠ key ∧ a_object_key a' = a_object_key a)) (assets db)
  then Err KeyViolation else
  if bool_decide (target = None ∧ is_Some (assets db !! id)) then Err KeyViolation else
  Ok ((key, a), db <| assets := <[key := a]> (assets db) |>).

Definition find_asset (project asset : uuid) (db : WorkspaceDB) : option Asset :=
  a ← assets db !! asset; if bool_decide (a_project a = project) then Some a else None.
Definition delete_asset_by_id (project asset : uuid) (db : WorkspaceDB) : Z * WorkspaceDB :=
  let P k a := bool_decide (k = asset ∧ a_project a = project) in
  (count P (assets db), db <| assets := delete_rows P (assets db) |>).
Definition delete_assets_at_path (project : uuid) (path : text) (db : WorkspaceDB) : WorkspaceDB :=
  db <| assets := delete_rows (asset_at project path) (assets db) |>.

(** ** settings_persistence, project_entry_point *)

Record ProjectEntryPoint : Type := MkEntryPoint { ep_type : ProjectType; ep_entry_file_path : text }.

Definition find_project_entry_point (project : uuid) (db : WorkspaceDB) : option ProjectEntryPoint :=
  p ← project_rows db !! project;
  Some (MkEntryPoint (p_type p)
          (match settings db !! project with
           | Some st => st_entry_file_path st
           | None => default_entry_file_path (p_type p)
           end)).

Definition ensure_settings (project : uuid) (entry : text) (engine : option LatexEngine) (now : time)
    (db : WorkspaceDB) : result sqlx_error (Settings * WorkspaceDB) :=
  match settings db !! project with
  | Some st => Ok (st, db)
  | None =>
      if bool_decide (project_rows db !! project = None) then Err ForeignKeyViolation else
      let st := MkSettings entry engine 0 now in
      Ok (st, db <| settings := <[project := st]> (settings db) |>)
  end.

Definition update_settings (project : uuid) (f : Settings → Settings) (now : time) (db : WorkspaceDB) :
    result sqlx_error (Settings * WorkspaceDB) :=
  match settings db !! project with
  | None => Err RowNotFound
  | Some st =>
      if i64_max <=? st_settings_revision st then Err OutOfRange else
      let st := (f st) <| st_settings_revision := st_settings_revision st + 1 |>
                     <| st_updated_at := now |> in
      Ok (st, db <| settings := <[project := st]> (settings db) |>)
  end.
Definition update_entry_file_path (project : uuid) (entry : text) : time → WorkspaceDB →
    result sqlx_error (Settings * WorkspaceDB) :=
  update_settings project (λ st, st <| st_entry_file_path := entry |>).
Definition update_latex_engine (project : uuid) (engine : LatexEngine) : time → WorkspaceDB →
    result sqlx_error (Settings * WorkspaceDB) :=
  update_settings project (λ st, st <| st_latex_engine := Some engine |>).
