(* ===== verification/WorkspaceFiles.v ===== *)
(** * Workspace: the operations on project files

    workspace::document_mutations, ::project_file_creation,
    ::project_file_move, ::project_file_deletion, ::project_asset_upload and
    ::project_asset_deletion.  An operation is given the identifiers it draws
    and the clock it reads; objects are stored before the transaction and
    removed after it, by the code of object_cleanup. *)
From S2P Require Import Prelude Store Text Paths AccessModel WorkspaceModel.
From S2P Require Import WorkspaceStatements.

Open Scope Z_scope.

Inductive CreateDocumentError : Type := CreatePathConflict | CreatePersistence (source : sqlx_error).
Inductive UpsertDocumentByPathError : Type :=
| UpsertProjectNotFound
| UpsertContentEpochChanged
| UpsertPathConflict
| UpsertPersistence (source : sqlx_error).
Inductive UpdateDocumentError : Type :=
| UpdateProjectNotFound
| UpdateContentEpochChanged
| UpdateDocumentNotFound
| UpdateDocumentRevisionChanged
| UpdatePersistence (source : sqlx_error).
Inductive DeleteDocumentError : Type :=
| DeleteDocumentNotFound
| DeleteEntryFileDeletion
| DeletePersistence (source : sqlx_error).
Inductive CreateProjectFileError : Type :=
| FilePathConflict
| FilePersistence (source : sqlx_error).
Inductive MoveProjectFileError : Type :=
| MovePathConflict
| MoveEntryFileTypeMismatch
| MovePersistence (source : sqlx_error).
Inductive DeleteProjectFileError : Type :=
| FileEntryFileDeletion
| FileDeletionPersistence (source : sqlx_error).
Inductive DeleteProjectAssetError : Type :=
| AssetNotFound
| AssetDeletionPersistence (source : sqlx_error).

(** Who acts: [actor_user_id] and [guest_display_name] of the commands. *)
Record Actor : Type := MkActor { actor_user_id : option uuid; guest_display_name : option text }.

(** What [create_project_file] prepares before its transaction. *)
Inductive PreparedProjectFile : Type :=
| PreparedDirectory
| PreparedText (content : text)
| PreparedAsset (id : uuid) (object_key content_type : text) (inline_data : option bytes).

(** [prepare_empty_asset]: without object storage the content is inline. *)
Definition prepare_project_file (kind : ProjectFileKind) (is_text : bool) (content : text)
    (id : uuid) (object_key content_type : text) (storage : bool) : PreparedProjectFile :=
  match kind with
  | Directory => PreparedDirectory
  | File =>
      if is_text then PreparedText content
      else PreparedAsset id object_key content_type (if storage then None else Some [])
  end.

(** [is_unique_constraint_violation] on the path constraints. *)
Definition on_path_conflict {E} (conflict : E) (persistence : sqlx_error → E) (e : sqlx_error) : E :=
  match e with UniqueViolation => conflict | e => persistence e end.

Section operations.
Context (s : schedule) (now : time).

Definition mark_dirty {R} (fail : sqlx_error → R) (project : uuid) (actor : Actor) :
    Tx WorkspaceDB R unit :=
  mark_project_dirty s fail project (actor_user_id actor) (guest_display_name actor) now.

(** ** document_mutations *)

Definition create_document (id project : uuid) (path content : text) (actor : Actor) :
    WorkspaceDB → result CreateDocumentError Document * WorkspaceDB :=
  let fail e := Err (CreatePersistence e) in
  transact s fail (
    _ ← exec s fail (writes lock_project_content);
    record ← exec s (λ e, Err (on_path_conflict CreatePathConflict CreatePersistence e))
               (insert_document id project path content now);
    _ ← mark_dirty fail project actor;
    mret (Ok record)).

Definition upsert_document_by_path (id project : uuid) (path content : text)
    (expected_content_epoch : Z) (actor : Actor) :
    WorkspaceDB → result UpsertDocumentByPathError (uuid * Document) * WorkspaceDB :=
  let fail e := Err (UpsertPersistence e) in
  transact s fail (
    epoch ← exec s fail (reads (lock_project_content_epoch project expected_content_epoch));
    match epoch with
    | EpochChanged => early (Err UpsertContentEpochChanged)
    | EpochProjectNotFound => early (Err UpsertProjectNotFound)
    | EpochCurrent =>
        record ← exec s (λ e, Err (on_path_conflict UpsertPathConflict UpsertPersistence e))
                   (upsert_by_path id project path content now);
        _ ← mark_dirty fail project actor;
        mret (Ok record)
    end).

Definition update_document (project document : uuid)
    (expected_content_epoch expected_path_revision expected_collaboration_revision : Z)
    (content : text) (actor : Actor) :
    WorkspaceDB → result UpdateDocumentError Document * WorkspaceDB :=
  let fail e := Err (UpdatePersistence e) in
  transact s fail (
    epoch ← exec s fail (reads (lock_project_content_epoch project expected_content_epoch));
    match epoch with
    | EpochChanged => early (Err UpdateContentEpochChanged)
    | EpochProjectNotFound => early (Err UpdateProjectNotFound)
    | EpochCurrent =>
        record ← exec s fail (update_content project document expected_path_revision
                                expected_collaboration_revision content now);
        match record with
        | None =>
            current_revisions ← exec s fail (reads (revisions_by_id project document));
            early (Err (match current_revisions with
                        | Some _ => UpdateDocumentRevisionChanged
                        | None => UpdateDocumentNotFound
                        end))
        | Some record =>
            _ ← mark_dirty fail project actor;
            mret (Ok record)
        end
    end).

Definition is_entry (entry_point : option ProjectEntryPoint) (path : text) : bool :=
  match entry_point with Some e => text_eqb (ep_entry_file_path e) path | None => false end.

Definition delete_document (project document : uuid) (actor : Actor) :
    WorkspaceDB → result DeleteDocumentError unit * WorkspaceDB :=
  let fail e := Err (DeletePersistence e) in
  transact s fail (
    _ ← exec s fail (writes lock_project_content);
    entry_point ← exec s fail (reads (find_project_entry_point project));
    path ← exec s fail (reads (find_path_by_id project document));
    match path with
    | None => early (Err DeleteDocumentNotFound)
    | Some path =>
        if is_entry entry_point path then early (Err DeleteEntryFileDeletion) else
        deleted ← exec s fail (affecting (delete_by_id project document));
        if deleted =? 0 then early (Err DeleteDocumentNotFound) else
        _ ← mark_dirty fail project actor;
        mret (Ok ())
    end).

(** ** project_file_creation *)

(** The statements of each kind of file: whether anything changed, and the
    object keys that were replaced. *)
Definition persist_project_file {R} (fail : sqlx_error → R) (project : uuid) (path : text)
    (document : uuid) (uploaded_by : option uuid) (prepared : PreparedProjectFile) :
    Tx WorkspaceDB R (bool * list text) :=
  match prepared with
  | PreparedDirectory =>
      changed ← exec s fail (insert_directory project path now);
      mret (changed, [])
  | PreparedText content =>
      replaced ← exec s fail (reads (object_keys_at_path project path));
      _ ← exec s fail (upsert_by_path document project path content now);
      _ ← exec s fail (writes (delete_assets_at_path project path));
      mret (true, replaced)
  | PreparedAsset id object_key content_type inline_data =>
      replaced ← exec s fail (reads (object_keys_at_path project path));
      _ ← exec s fail (upsert_asset id (MkAsset project path id object_key content_type 0
                                          uploaded_by now inline_data));
      _ ← exec s fail (writes (delete_document_at_path project path));
      mret (true, replaced)
  end.

(** The transaction; the keys it returns are removed after the commit. *)
Definition create_project_file_transaction (project : uuid) (path : text) (document : uuid)
    (prepared : PreparedProjectFile) (actor : Actor) :
    Tx WorkspaceDB (result CreateProjectFileError unit) (result CreateProjectFileError unit * list text) :=
  let fail e := Err (FilePersistence e) in
  _ ← exec s fail (writes lock_project_content);
  '(changed, replaced_object_keys) ←
    persist_project_file (λ e, Err (on_path_conflict FilePathConflict FilePersistence e))
      project path document (actor_user_id actor) prepared;
  if changed : bool then
    _ ← enqueue_object_deletions s fail now replaced_object_keys;
    _ ← mark_dirty fail project actor;
    mret (Ok (), replaced_object_keys)
  else mret (Ok (), replaced_object_keys).
Definition create_project_file (project : uuid) (path : text) (document : uuid)
    (prepared : PreparedProjectFile) (actor : Actor) :
    WorkspaceDB → result CreateProjectFileError unit * WorkspaceDB :=
  transact_then s (λ e, Err (FilePersistence e))
    (create_project_file_transaction project path document prepared actor).

(** ** project_file_move *)

Definition move_subtree {R} (fail : sqlx_error → R) (project : uuid) (from to : text) :
    Tx WorkspaceDB R FileMutationCounts :=
  directories ← exec s fail (move_directories project from to);
  documents ← exec s fail (move_documents project from to now);
  assets ← exec s fail (move_assets project from to);
  mret (MkCounts directories documents assets).

Definition moved_entry (entry_point : option ProjectEntryPoint) (from to : text) :
    option (ProjectEntryPoint * text) :=
  e ← entry_point; moved ← move_path_with_subtree (ep_entry_file_path e) from to; Some (e, moved).

Definition move_project_file (project : uuid) (from to : text) (actor : Actor) :
    WorkspaceDB → result MoveProjectFileError unit * WorkspaceDB :=
  let fail e := Err (MovePersistence e) in
  transact s fail (
    _ ← exec s fail (writes lock_project_content);
    entry_point ← exec s fail (reads (find_project_entry_point project));
    let moved := moved_entry entry_point from to in
    if match moved with
       | Some (e, path) => negb (accepts_entry_file_path (ep_type e) path)
       | None => false
       end
    then early (Err MoveEntryFileTypeMismatch) else
    counts ← move_subtree (λ e, Err (on_path_conflict MovePathConflict MovePersistence e))
               project from to;
    if changed counts then
      _ ← match moved with
          | Some (e, path) =>
              _ ← exec s fail (ensure_settings project (default_entry_file_path (ep_type e))
                                 (default_latex_engine (ep_type e)) now);
              _ ← exec s fail (update_entry_file_path project path now);
              mret ()
          | None => mret ()
          end;
      _ ← mark_dirty fail project actor;
      mret (Ok ())
    else mret (Ok ())).

(** ** project_file_deletion *)

Definition object_keys_in_subtree (project : uuid) (root : text) (db : WorkspaceDB) : list text :=
  (λ ka, a_object_key ka.2) <$> assets_in project root db.

Definition delete_subtree {R} (fail : sqlx_error → R) (project : uuid) (path : text) :
    Tx WorkspaceDB R (FileMutationCounts * list text) :=
  object_keys ← exec s fail (reads (object_keys_in_subtree project path));
  directories ← exec s fail (affecting (delete_directories project path));
  documents ← exec s fail (affecting (delete_documents_in project path));
  assets ← exec s fail (affecting (delete_assets_in project path));
  mret (MkCounts directories documents assets, object_keys).

Definition delete_project_file_transaction (project : uuid) (path : text) (actor : Actor) :
    Tx WorkspaceDB (result DeleteProjectFileError unit) (result DeleteProjectFileError unit * list text) :=
  let fail e := Err (FileDeletionPersistence e) in
  _ ← exec s fail (writes lock_project_content);
  entry_point ← exec s fail (reads (find_project_entry_point project));
  if match entry_point with
     | Some e => path_is_in_subtree (ep_entry_file_path e) path
     | None => false
     end
  then early (Err FileEntryFileDeletion) else
  '(counts, object_keys) ← delete_subtree fail project path;
  if changed counts then
    _ ← enqueue_object_deletions s fail now object_keys;
    _ ← mark_dirty fail project actor;
    mret (Ok (), object_keys)
  else mret (Ok (), object_keys).
Definition delete_project_file (project : uuid) (path : text) (actor : Actor) :
    WorkspaceDB → result DeleteProjectFileError unit * WorkspaceDB :=
  transact_then s (λ e, Err (FileDeletionPersistence e))
    (delete_project_file_transaction project path actor).

(** ** project_asset_upload, project_asset_deletion *)

(** [lock_object_key_by_path]: the first row at the path. *)
Definition object_key_at_path (project : uuid) (path : text) (db : WorkspaceDB) : option text :=
  head (object_keys_at_path project path db).

Definition upload_project_asset_transaction (id : uuid) (project : uuid) (path : text)
    (content_revision : uuid) (object_key content_type : text) (size_bytes : Z)
    (inline_data : option bytes) (actor : Actor) :
    Tx WorkspaceDB (result sqlx_error (uuid * Asset)) (result sqlx_error (uuid * Asset) * list text) :=
  _ ← exec s Err (writes lock_project_content);
  replaced ← exec s Err (reads (object_key_at_path project path));
  record ← exec s Err (upsert_asset id (MkAsset project path content_revision object_key
                         content_type size_bytes (actor_user_id actor) now inline_data));
  let replaced_object_keys :=
    match replaced with
    | Some old => if text_eqb old object_key then [] else [old]
    | None => []
    end in
  _ ← enqueue_object_deletions s Err now replaced_object_keys;
  _ ← mark_dirty Err project actor;
  mret (Ok record, replaced_object_keys).
Definition upload_project_asset (id : uuid) (project : uuid) (path : text) (content_revision : uuid)
    (object_key content_type : text) (size_bytes : Z) (inline_data : option bytes) (actor : Actor) :
    WorkspaceDB → result sqlx_error (uuid * Asset) * WorkspaceDB :=
  transact_then s Err
    (upload_project_asset_transaction id project path content_revision object_key content_type
       size_bytes inline_data actor).

Definition delete_project_asset_transaction (project asset : uuid) (actor : Actor) :
    Tx WorkspaceDB (result DeleteProjectAssetError unit) (result DeleteProjectAssetError unit * list text) :=
  let fail e := Err (AssetDeletionPersistence e) in
  _ ← exec s fail (writes lock_project_content);
  object_key ← exec s fail (reads (λ db, a_object_key <$> find_asset project asset db));
  match object_key with
  | None => early (Err AssetNotFound)
  | Some object_key =>
      deleted ← exec s fail (affecting (delete_asset_by_id project asset));
      if deleted =? 0 then early (Err AssetNotFound) else
      _ ← enqueue_object_deletions s fail now [object_key];
      _ ← mark_dirty fail project actor;
      mret (Ok (), [object_key])
  end.
Definition delete_project_asset (project asset : uuid) (actor : Actor) :
    WorkspaceDB → result DeleteProjectAssetError unit * WorkspaceDB :=
  transact_then s (λ e, Err (AssetDeletionPersistence e))
    (delete_project_asset_transaction project asset actor).
End operations.
