(* ===== verification/WorkspaceProjects.v ===== *)
(** * Workspace: project graphs, content replacement and settings

    workspace::persistence (creating a project with its content, replacing
    the content as a whole, the content snapshot), ::project_provisioning,
    ::project_creation, ::project_settings and ::project_archive. *)
From S2P Require Import Prelude Store Text Paths AccessModel AccessGrants AccessSystem.
From S2P Require Import WorkspaceModel WorkspaceStatements WorkspaceFiles.

Open Scope Z_scope.

(** ** content *)

(** Each document with the identifier drawn for it. *)
Record WorkspaceDocument : Type := MkWorkspaceDocument {
  wd_id : uuid; wd_path : text; wd_content : text }.
Record WorkspaceAsset : Type := MkWorkspaceAsset {
  wa_id : uuid; wa_path : text; wa_object_key : text; wa_content_type : text; wa_size_bytes : Z;
  wa_inline_data : option bytes }.
Record CreateProjectGraph : Type := MkGraph {
  g_project : uuid; g_owner : uuid; g_type : ProjectType; g_entry_file_path : text;
  g_latex_engine : option LatexEngine; g_directories : list text;
  g_documents : list WorkspaceDocument; g_assets : list WorkspaceAsset; g_created_at : time }.
Record ReplaceProjectContent : Type := MkReplace {
  rc_project : uuid; rc_expected_workspace_version : option Z;
  rc_documents : list WorkspaceDocument; rc_assets : list WorkspaceAsset;
  rc_directories : list text; rc_entry_file_path : text; rc_asset_uploaded_by : option uuid;
  rc_updated_at : time }.
Record ReplacedProjectContent : Type := MkReplaced {
  rp_old_object_keys : list text; rp_workspace_version : Z; rp_content_epoch : Z }.
Inductive ReplaceProjectContentResult : Type :=
| Replaced (content : ReplacedProjectContent)
| ReplaceNotFound
| WorkspaceVersionChanged
| InvalidEntryFile.

(** ** Statements *)

(** The row of a new project; its access columns start at the defaults. *)
Definition insert_project_row (g : CreateProjectGraph) (db : WorkspaceDB) :
    result sqlx_error (unit * WorkspaceDB) :=
  if negb (known_user (Some (g_owner g)) db) then Err ForeignKeyViolation else
  if bool_decide (is_Some (project_rows db !! g_project g)) then Err KeyViolation else
  on_access (insert_project (g_project g))
    (db <| project_rows :=
       <[g_project g := MkProjectRow (g_type g) (g_created_at g) 0 0]> (project_rows db) |>).

Definition insert_settings (project : uuid) (entry : text) (engine : option LatexEngine) (now : time)
    (db : WorkspaceDB) : result sqlx_error (unit * WorkspaceDB) :=
  if bool_decide (is_Some (settings db !! project)) then Err KeyViolation else
  if bool_decide (project_rows db !! project = None) then Err ForeignKeyViolation else
  Ok ((), db <| settings := <[project := MkSettings entry engine 0 now]> (settings db) |>).

(** Plain inserts: an occupied key is an error. *)
Definition insert_new_directory (project : uuid) (now : time) (path : text) (db : WorkspaceDB) :
    result sqlx_error (unit * WorkspaceDB) :=
  match insert_directory project path now db with
  | Ok (true, db) => Ok ((), db)
  | Ok (false, _) => Err UniqueViolation
  | Err e => Err e
  end.
Definition insert_new_document (project : uuid) (now : time) (d : WorkspaceDocument)
    (db : WorkspaceDB) : result sqlx_error (unit * WorkspaceDB) :=
  match insert_document (wd_id d) project (wd_path d) (wd_content d) now db with
  | Ok (_, db) => Ok ((), db)
  | Err e => Err e
  end.
Definition insert_new_asset (project : uuid) (uploaded_by : option uuid) (now : time)
    (a : WorkspaceAsset) (db : WorkspaceDB) : result sqlx_error (unit * WorkspaceDB) :=
  if exists_row (asset_at project (wa_path a)) (assets db) then Err UniqueViolation else
  match upsert_asset (wa_id a) (MkAsset project (wa_path a) (wa_id a) (wa_object_key a)
          (wa_content_type a) (wa_size_bytes a) uploaded_by now (wa_inline_data a)) db with
  | Ok (_, db) => Ok ((), db)
  | Err e => Err e
  end.

(** versioning::initialize_project. *)
Definition initialize_project (project : uuid) (db : WorkspaceDB) :
    result sqlx_error (unit * WorkspaceDB) :=
  if bool_decide (project_rows db !! project = None) then Err ForeignKeyViolation else
  if bool_decide (project ∈ git_sync_states db) then Err KeyViolation else
  Ok ((), db <| git_sync_states := {[project]} ∪ git_sync_states db |>).

(** The object keys of a project's assets, and its deletions. *)
Definition project_object_keys (project : uuid) (db : WorkspaceDB) : list text :=
  filter (λ key, negb (starts_with (lit "inline://") key) = true)
    ((λ ka, a_object_key ka.2) <$> select (λ _ a, bool_decide (a_project a = project)) (assets db)).
Definition delete_project_documents (project : uuid) : WorkspaceDB → WorkspaceDB :=
  delete_documents (λ _ d, bool_decide (d_project d = project)).
Definition delete_project_assets (project : uuid) (db : WorkspaceDB) : WorkspaceDB :=
  db <| assets := delete_rows (λ _ a, bool_decide (a_project a = project)) (assets db) |>.
Definition delete_project_directories (project : uuid) (db : WorkspaceDB) : WorkspaceDB :=
  db <| directories := delete_rows (λ k _, bool_decide (k.1 = project)) (directories db) |>.

(** [update projects set workspace_version = workspace_version + 1,
    content_epoch = content_epoch + 1 ... returning]. *)
Definition advance_generation (project : uuid) (db : WorkspaceDB) :
    result sqlx_error ((Z * Z) * WorkspaceDB) :=
  match project_rows db !! project with
  | None => Err RowNotFound
  | Some p =>
      if (i64_max <=? p_workspace_version p) || (i64_max <=? p_content_epoch p)
      then Err OutOfRange else
      let p := p <| p_workspace_version := p_workspace_version p + 1 |>
                 <| p_content_epoch := p_content_epoch p + 1 |> in
      Ok ((p_workspace_version p, p_content_epoch p),
          db <| project_rows := <[project := p]> (project_rows db) |>)
  end.

Section operations.
Context (s : schedule).

(** ** persistence *)

Section graph.
Context {R : Type} (fail : sqlx_error → R).

Definition create_project_graph (g : CreateProjectGraph) : Tx WorkspaceDB R unit :=
  _ ← exec s fail (insert_project_row g);
  _ ← exec s fail (insert_settings (g_project g) (g_entry_file_path g) (g_latex_engine g)
                     (g_created_at g));
  _ ← tx_for (g_directories g) (λ path,
        exec s fail (insert_new_directory (g_project g) (g_created_at g) path));
  _ ← tx_for (g_documents g) (λ d,
        exec s fail (insert_new_document (g_project g) (g_created_at g) d));
  tx_for (g_assets g) (λ a,
    exec s fail (insert_new_asset (g_project g) (Some (g_owner g)) (g_created_at g) a)).

Definition provision_project (g : CreateProjectGraph) : Tx WorkspaceDB R unit :=
  _ ← create_project_graph g;
  _ ← exec s fail (on_access (upsert_role (g_project g) (g_owner g) Owner (g_created_at g)));
  exec s fail (initialize_project (g_project g)).

Definition entry_is_acceptable (t : ProjectType) (entry : text) (documents : list WorkspaceDocument) :
    bool :=
  accepts_entry_file_path t entry && existsb (λ d, text_eqb (wd_path d) entry) documents.

Definition replace_project_content (c : ReplaceProjectContent) :
    Tx WorkspaceDB R ReplaceProjectContentResult :=
  let project := rc_project c in
  let now := rc_updated_at c in
  row ← exec s fail (reads (λ db, project_rows db !! project));
  match row with
  | None => mret ReplaceNotFound
  | Some p =>
      if match rc_expected_workspace_version c with
         | Some expected => negb (expected =? p_workspace_version p)
         | None => false
         end
      then mret WorkspaceVersionChanged else
      if negb (entry_is_acceptable (p_type p) (rc_entry_file_path c) (rc_documents c))
      then mret InvalidEntryFile else
      _ ← exec s fail (ensure_settings project (default_entry_file_path (p_type p))
                         (default_latex_engine (p_type p)) now);
      old_object_keys ← exec s fail (reads (project_object_keys project));
      _ ← exec s fail (writes (delete_project_documents project));
      _ ← exec s fail (writes (delete_project_assets project));
      _ ← exec s fail (writes (delete_project_directories project));
      _ ← tx_for (rc_documents c) (λ d, exec s fail (insert_new_document project now d));
      _ ← tx_for (rc_assets c) (λ a,
            exec s fail (insert_new_asset project (rc_asset_uploaded_by c) now a));
      _ ← tx_for (rc_directories c) (λ path, exec s fail (insert_new_directory project now path));
      _ ← exec s fail (update_entry_file_path project (rc_entry_file_path c) now);
      '(version, epoch) ← exec s fail (advance_generation project);
      mret (Replaced (MkReplaced old_object_keys version epoch))
  end.
End graph.

(** [project_creation::create_project], from the starter content on. *)
Definition starter_graph (project owner : uuid) (type : ProjectType) (engine : LatexEngine)
    (document : uuid) (content : text) (now : time) : CreateProjectGraph :=
  MkGraph project owner type (default_entry_file_path type)
    (match type with Latex => Some engine | Typst => None end) []
    [MkWorkspaceDocument document (default_entry_file_path type) content] [] now.
Definition create_project_transaction (g : CreateProjectGraph) :
    Tx WorkspaceDB (result sqlx_error unit) (result sqlx_error unit * list text) :=
  _ ← provision_project Err g;
  _ ← mark_project_dirty s Err (g_project g) (Some (g_owner g)) None (g_created_at g);
  mret (Ok (), []).
Definition create_project (g : CreateProjectGraph) :
    WorkspaceDB → result sqlx_error unit * WorkspaceDB :=
  transact_then s Err (create_project_transaction g).

(** ** project_settings *)

Inductive ProjectSettingChange : Type := EntryFilePath (path : text) | LatexEngineChange (e : LatexEngine).
Inductive ChangeProjectSettingError : Type :=
| SettingProjectNotFound
| LatexEngineNotApplicable
| EntryFileTypeMismatch
| EntryFileNotFound
| SettingPersistence (source : sqlx_error).

Definition find_project_type (project : uuid) (db : WorkspaceDB) : option ProjectType :=
  p_type <$> project_rows db !! project.

Definition effective_latex_engine (t : ProjectType) (requested : option LatexEngine) :
    option LatexEngine :=
  match t, requested with
  | Latex, Some e => Some e
  | _, _ => default_latex_engine t
  end.

Definition get_or_create_project_settings (now : time) (project : uuid) :
    WorkspaceDB → result ChangeProjectSettingError Settings * WorkspaceDB :=
  let fail e := Err (SettingPersistence e) in
  transact s fail (
    type ← exec s fail (reads (find_project_type project));
    match type with
    | None => early (Err SettingProjectNotFound)
    | Some type =>
        st ← exec s fail (ensure_settings project (default_entry_file_path type)
                            (effective_latex_engine type None) now);
        mret (Ok st)
    end).

Definition change_applies (type : ProjectType) (change : ProjectSettingChange) :
    result ChangeProjectSettingError unit :=
  match change with
  | LatexEngineChange _ => match type with Latex => Ok () | Typst => Err LatexEngineNotApplicable end
  | EntryFilePath path => if accepts_entry_file_path type path then Ok () else Err EntryFileTypeMismatch
  end.

Definition change_project_setting (now : time) (project : uuid) (change : ProjectSettingChange)
    (actor : uuid) : WorkspaceDB → result ChangeProjectSettingError Settings * WorkspaceDB :=
  let fail e := Err (SettingPersistence e) in
  transact s fail (
    _ ← exec s fail (writes lock_project_content);
    type ← exec s fail (reads (find_project_type project));
    match type with
    | None => early (Err SettingProjectNotFound)
    | Some type =>
        match change_applies type change with
        | Err e => early (Err e)
        | Ok () =>
            _ ← exec s fail (ensure_settings project (default_entry_file_path type)
                               (effective_latex_engine type None) now);
            _ ← match change with
                | EntryFilePath path =>
                    present ← exec s fail (reads (document_exists project path));
                    if present : bool then mret () else early (Err EntryFileNotFound)
                | LatexEngineChange _ => mret ()
                end;
            st ← match change with
                 | EntryFilePath path => exec s fail (update_entry_file_path project path now)
                 | LatexEngineChange e => exec s fail (update_latex_engine project e now)
                 end;
            _ ← mark_project_dirty s fail project (Some actor) None now;
            mret (Ok st)
        end
    end).
End operations.

(** ** The content snapshot *)

Record ProjectContentAsset : Type := MkContentAsset {
  ca_object_key : text; ca_content_type : text; ca_inline_data : option bytes }.
Record ProjectContentSnapshot : Type := MkContentSnapshot {
  cs_workspace_version : Z; cs_content_epoch : Z; cs_type : ProjectType;
  cs_entry_file_path : text; cs_latex_engine : option LatexEngine;
  cs_documents : gmap text text; cs_assets : gmap text ProjectContentAsset;
  cs_directories : list text }.

(** The rows of a project in a table. *)
Definition rows_of {K V} `{Countable K} (owner : K → V → uuid) (project : uuid) (t : gmap K V) :
    list (K * V) :=
  map_to_list (filter (λ kv, owner kv.1 kv.2 = project) t).

(** [lock_project_content_snapshot]; its [source_epoch], the time of the last
    edit, is left out. *)
Definition lock_project_content_snapshot (project : uuid) (db : WorkspaceDB) :
    option ProjectContentSnapshot :=
  p ← project_rows db !! project;
  let st := settings db !! project in
  Some (MkContentSnapshot (p_workspace_version p) (p_content_epoch p) (p_type p)
    (default (default_entry_file_path (p_type p)) (st_entry_file_path <$> st))
    (match p_type p with
     | Latex => Some (default Xetex (st ≫= st_latex_engine))
     | Typst => None
     end)
    (list_to_map ((λ kd, (d_path kd.2, d_content kd.2)) <$>
       rows_of (λ _, d_project) project (documents db)))
    (list_to_map ((λ ka, (a_path ka.2, MkContentAsset (a_object_key ka.2) (a_content_type ka.2)
                                        (a_inline_data ka.2))) <$>
       rows_of (λ _, a_project) project (assets db)))
    (sort_text ((λ kt, kt.1.2) <$> rows_of (λ k _, k.1) project (directories db)))).

(** The entries [project_archive::build_zip] starts, in order. *)
Definition archive_entries (c : ProjectContentSnapshot) : list text :=
  sort_text ((map_to_list (cs_documents c)).*1 ++ (map_to_list (cs_assets c)).*1).
