(* ===== verification/Collaboration.v ===== *)
(** * Collaboration: durable document streams

    collaboration::persistence, ::yjs_state, ::projection, ::updates and
    ::bootstrap, with workspace::collaboration_projection.  A stream is the log
    of CRDT updates of one document revision in one content epoch, and the
    latest snapshot it was compacted into.  The CRDT itself is the [yrs]
    library: a parameter with the laws its documentation gives. *)
From S2P Require Import Prelude Store Text Paths AccessModel WorkspaceModel.
From S2P Require Import WorkspaceStatements.

Open Scope Z_scope.

(** ** The CRDT library *)

(** Of [yrs]: documents, [Doc::new], [Update::decode_v1] with [apply_update],
    [encode_state_as_update_v1] from the empty state vector, the string of the
    root text, and a document seeded with a text. *)
Class Yrs : Type := {
  ydoc : Type;
  y_new : ydoc;
  y_apply : ydoc → bytes → option ydoc;
  y_encode : ydoc → bytes;
  y_text : ydoc → text;
  y_seed : text → ydoc;
}.

(** Documents with the same integrated operations are equivalent: updates act
    on them alike, they have the same text, and a document is rebuilt from its
    encoded state. *)
Class YrsLaws `{Yrs} : Type := {
  y_equiv : Equiv ydoc;
  y_equiv_equivalence : Equivalence (≡@{ydoc});
  y_apply_equiv d d' u : d ≡ d' → y_apply d u ≡ y_apply d' u;
  y_text_equiv d d' : d ≡ d' → y_text d = y_text d';
  y_encode_new d : ∃ d', y_apply y_new (y_encode d) = Some d' ∧ d' ≡ d;
  y_seed_text t : y_text (y_seed t) = t;
}.
#[export] Existing Instances y_equiv y_equiv_equivalence.

Section collaboration.
Context `{Yrs}.

(** ** yjs_state *)

Definition seed_text (content : text) : bytes := y_encode (y_seed content).

Definition validate_update (payload : bytes) : bool := bool_decide (is_Some (y_apply y_new payload)).

Record MergedYjsState : Type := MkMerged { my_update : bytes; my_text : text }.

Definition apply_all (d : ydoc) (updates : list bytes) : option ydoc :=
  foldl (λ d u, d ← d; y_apply d u) (Some d) updates.
Definition merged_doc (snapshot : option bytes) (updates : list bytes) : option ydoc :=
  d ← match snapshot with Some s => y_apply y_new s | None => Some y_new end; apply_all d updates.
Definition merge_updates (snapshot : option bytes) (updates : list bytes) : option MergedYjsState :=
  d ← merged_doc snapshot updates; Some (MkMerged (y_encode d) (y_text d)).

(** ** persistence *)

Definition in_stream (stream : CollaborationDocument) (u : UpdateRow) : bool :=
  bool_decide (ur_stream u = stream).
Definition stream_key (c : CollaborationDocument) : uuid * uuid * Z :=
  (cd_project c, cd_document c, cd_collaboration_revision c).
(** Rows of the document by the columns without the epoch. *)
Definition of_document (c : CollaborationDocument) (k : uuid * uuid * Z) : bool :=
  bool_decide (k.1.1 = cd_project c ∧ k.1.2 = cd_document c).

Definition delete_collaboration (P : uuid * uuid * Z → bool) (db : WorkspaceDB) : WorkspaceDB :=
  db <| collab_updates := delete_rows (λ _ u, P (stream_key (ur_stream u))) (collab_updates db) |>
     <| collab_snapshots := delete_rows (λ k _, P k) (collab_snapshots db) |>.

Definition clear_project (project : uuid) : WorkspaceDB → WorkspaceDB :=
  delete_collaboration (λ k, bool_decide (k.1.1 = project)).
Definition clear_superseded_document_revisions (c : CollaborationDocument) : WorkspaceDB → WorkspaceDB :=
  delete_collaboration (λ k, of_document c k && negb (k.2 =? cd_collaboration_revision c)).
Definition clear_document_revision (c : CollaborationDocument) : WorkspaceDB → WorkspaceDB :=
  delete_collaboration (λ k, of_document c k && (k.2 =? cd_collaboration_revision c)).

Definition lock_document_updates (db : WorkspaceDB) : WorkspaceDB := db.

Record CollaborationUpdateWrite : Type := MkUpdateWrite {
  uw_document : CollaborationDocument; uw_user : option uuid; uw_kind : PersistedUpdateKind;
  uw_payload : bytes; uw_guest_display_name : option text }.

Definition insert_update (now : time) (w : CollaborationUpdateWrite) (db : WorkspaceDB) :
    result sqlx_error (Z * WorkspaceDB) :=
  let c := uw_document w in
  if bool_decide (is_Some (uw_user w) ∧ is_Some (uw_guest_display_name w))
     || (cd_collaboration_revision c <? 0) then Err CheckViolation else
  if bool_decide (project_rows db !! cd_project c = None)
     || bool_decide (documents db !! cd_document c = None) || negb (known_user (uw_user w) db)
  then Err ForeignKeyViolation else
  let id := next_update db in
  Ok (id, db <| collab_updates := <[id := MkUpdateRow c (uw_user w) (uw_kind w) (uw_payload w) now
                                           (uw_guest_display_name w)]> (collab_updates db) |>
             <| next_update := id + 1 |>).

Definition snapshot_accepts (old : option SnapshotRow) (epoch upto : Z) : bool :=
  match old with
  | None => true
  | Some r => (sr_content_epoch r <? epoch)
              || ((sr_content_epoch r =? epoch) && (sr_upto_update_id r <=? upto))
  end.
Definition upsert_snapshot (now : time) (c : CollaborationDocument) (upto : Z) (state_update : bytes)
    (db : WorkspaceDB) : result sqlx_error (unit * WorkspaceDB) :=
  if cd_collaboration_revision c <? 0 then Err CheckViolation else
  if bool_decide (project_rows db !! cd_project c = None)
     || bool_decide (documents db !! cd_document c = None)
  then Err ForeignKeyViolation else
  if snapshot_accepts (collab_snapshots db !! stream_key c) (cd_content_epoch c) upto
  then Ok ((), db <| collab_snapshots :=
         <[stream_key c := MkSnapshotRow upto state_update now (cd_content_epoch c)]>
           (collab_snapshots db) |>)
  else Ok ((), db).

(** [i64::saturating_sub] of a non-negative retention. *)
Definition saturating_sub (a b : Z) : Z := Z.max i64_min (Z.min i64_max (a - b)).

(** The snapshot of the stream itself: of its epoch. *)
Definition stream_snapshot (c : CollaborationDocument) (db : WorkspaceDB) : option SnapshotRow :=
  r ← collab_snapshots db !! stream_key c;
  if sr_content_epoch r =? cd_content_epoch c then Some r else None.

Definition prune_updates (update_retention : Z) (c : CollaborationDocument) (latest_update_id : Z)
    (db : WorkspaceDB) : WorkspaceDB :=
  let cutoff := saturating_sub latest_update_id update_retention in
  if cutoff <=? 0 then db else
  match stream_snapshot c db with
  | Some r =>
      if cutoff <=? sr_upto_update_id r
      then db <| collab_updates := delete_rows (λ id u, in_stream c u && (id <? cutoff))
                                     (collab_updates db) |>
      else db
  | None => db
  end.

(** [load_state]: the updates after the snapshot, oldest first, and who sent
    them. *)
Record BootstrapState : Type := MkState {
  bs_upto_update_id : Z; bs_snapshot_payload : option bytes;
  bs_updates : list (PersistedUpdateKind * bytes); bs_contributors : list CollaborationContributor }.

Definition upto_update_id (c : CollaborationDocument) (db : WorkspaceDB) : Z :=
  from_option sr_upto_update_id 0 (stream_snapshot c db).
Definition updates_after (c : CollaborationDocument) (upto : Z) (db : WorkspaceDB) :
    list (Z * UpdateRow) :=
  order_by fst (select (λ id u, in_stream c u && (upto <? id)) (collab_updates db)).

Definition update_contributor (u : UpdateRow) : option CollaborationContributor :=
  match ur_user u, ur_guest_display_name u with
  | Some user, _ => Some (ContributorUser user)
  | None, Some name => Some (ContributorGuest name)
  | None, None => None
  end.

Definition load_state (c : CollaborationDocument) (db : WorkspaceDB) : BootstrapState :=
  let upto := upto_update_id c db in
  let rows := updates_after c upto db in
  MkState (default upto (last rows.*1)) (sr_state_update <$> stream_snapshot c db)
    ((λ iu, (ur_kind iu.2, ur_payload iu.2)) <$> rows)
    (reverse (remove_dups (reverse (omap (λ iu, update_contributor iu.2) rows)))).

(** [pending_project_documents]: the streams with updates past their snapshot,
    by their first one; [next_pending_document] takes the first of all. *)
Definition is_pending (db : WorkspaceDB) (id : Z) (u : UpdateRow) : bool :=
  upto_update_id (ur_stream u) db <? id.
Definition pending_rows (P : UpdateRow → bool) (upto : Z) (db : WorkspaceDB) : list (Z * UpdateRow) :=
  order_by fst (select (λ id u, P u && (id <=? upto) && is_pending db id u) (collab_updates db)).
Definition pending_project_documents (project : uuid) (upto : Z) (db : WorkspaceDB) :
    list CollaborationDocument :=
  reverse (remove_dups (reverse ((λ iu, ur_stream iu.2) <$>
    pending_rows (λ u, bool_decide (cd_project (ur_stream u) = project)) upto db))).
Definition next_pending_document (db : WorkspaceDB) : option CollaborationDocument :=
  head ((λ iu, ur_stream iu.2) <$> order_by fst (select (is_pending db) (collab_updates db))).

Definition latest_project_update_id (project : uuid) (db : WorkspaceDB) : option Z :=
  last (order_by fst
    (select (λ _ u, bool_decide (cd_project (ur_stream u) = project)) (collab_updates db))).*1.

(** [parse_limit], on the parsed value of the variable. *)
Definition parse_limit (value : option Z) (minimum default_value : Z) : Z :=
  match value with
  | Some v => if minimum <=? v then v else default_value
  | None => default_value
  end.

(** ** workspace::collaboration_projection *)

Inductive CollaborationProjectionOutcome : Type :=
| Projected (document : uuid) (path : text) (collaboration_revision change_sequence : Z)
| Unchanged
| ProjectionEpochChanged
| ProjectionDocumentChanged.

Section blocks.
Context (s : schedule) (now : time) {R : Type} (fail : sqlx_error → R).

Definition project_collaboration_document (c : CollaborationDocument) (content : text)
    (contributors : list CollaborationContributor) : Tx WorkspaceDB R CollaborationProjectionOutcome :=
  let project := cd_project c in
  let document := cd_document c in
  let revision := cd_collaboration_revision c in
  epoch ← exec s fail (reads (lock_project_content_epoch project (cd_content_epoch c)));
  match epoch with
  | EpochChanged | EpochProjectNotFound => mret ProjectionEpochChanged
  | EpochCurrent =>
      current ← exec s fail (reads (find_by_identity project document revision));
      match current with
      | None => mret ProjectionDocumentChanged
      | Some current =>
          if text_eqb (d_content current) content then mret Unchanged else
          updated ← exec s fail (affecting (update_projected_content project document revision
                                              content now));
          match updated with
          | None => mret ProjectionDocumentChanged
          | Some updated =>
              _ ← record_collaborative_document_activity s fail project contributors now;
              mret (Projected document (d_path updated) (d_collaboration_revision updated)
                      (d_change_sequence updated))
          end
      end
  end.

(** ** projection *)

Inductive WorkspaceChange : Type :=
| DocumentChange (path : text) (document : uuid) (collaboration_revision change_sequence : Z)
| TreeChange (path : option text)
| SettingsChange
| AssetsChange (path : option text).

Record ReconciledCollaborationDocument : Type := MkReconciled {
  rd_snapshot_payload : bytes; rd_upto_update_id : Z; rd_workspace_change : option WorkspaceChange }.
Inductive ReconcileCollaborationDocumentOutcome : Type :=
| ReconcileCurrent (document : ReconciledCollaborationDocument)
| ReconcileContentEpochChanged
| ReconcileDocumentChanged.

Definition projected_change (o : CollaborationProjectionOutcome) : option WorkspaceChange :=
  match o with
  | Projected document path revision sequence => Some (DocumentChange path document revision sequence)
  | _ => None
  end.

(** [unmergeable] is the error of a payload the CRDT refuses. *)
Definition reconcile_collaboration_document (update_retention : Z) (unmergeable : R)
    (c : CollaborationDocument) (state : BootstrapState) (canonical_seed : option bytes) :
    Tx WorkspaceDB R ReconcileCollaborationDocumentOutcome :=
  let snapshot := match bs_snapshot_payload state with Some p => Some p | None => canonical_seed end in
  match merge_updates snapshot (bs_updates state).*2 with
  | None => early unmergeable
  | Some merged =>
      projection ← project_collaboration_document c (my_text merged) (bs_contributors state);
      match projection with
      | ProjectionEpochChanged => mret ReconcileContentEpochChanged
      | ProjectionDocumentChanged =>
          _ ← exec s fail (writes (clear_document_revision c));
          mret ReconcileDocumentChanged
      | Projected _ _ _ _ | Unchanged =>
          _ ← exec s fail (upsert_snapshot now c (bs_upto_update_id state) (my_update merged));
          _ ← exec s fail (writes (prune_updates update_retention c (bs_upto_update_id state)));
          mret (ReconcileCurrent (MkReconciled (my_update merged) (bs_upto_update_id state)
                                    (projected_change projection)))
      end
  end.
End blocks.

Inductive ReconcileError : Type := Unmergeable | ReconcilePersistence (source : sqlx_error).

Section operations.
Context (s : schedule) (now : time) (update_retention : Z).

Definition reconcile_pending_document (c : CollaborationDocument) :
    WorkspaceDB → result ReconcileError ReconcileCollaborationDocumentOutcome * WorkspaceDB :=
  let fail e := Err (ReconcilePersistence e) in
  transact s fail (
    epoch ← exec s fail (reads (lock_project_content_epoch (cd_project c) (cd_content_epoch c)));
    match epoch with
    | EpochCurrent =>
        _ ← exec s fail (writes lock_document_updates);
        state ← exec s fail (reads (load_state c));
        outcome ← reconcile_collaboration_document s now fail update_retention (Err Unmergeable)
                    c state None;
        mret (Ok outcome)
    | _ => early (Ok ReconcileContentEpochChanged)
    end).

(** ** updates *)

Record PersistedUpdateAck : Type := MkAck {
  ack_update_id : Z; ack_projected : bool; ack_workspace_change : option WorkspaceChange }.
Inductive PersistUpdateOutcome : Type :=
| Accepted (ack : PersistedUpdateAck)
| PersistContentEpochChanged
| AccessChanged
| PersistDocumentChanged.

Definition is_document (c : CollaborationDocument) (db : WorkspaceDB) : bool :=
  bool_decide (is_Some (find_by_identity (cd_project c) (cd_document c)
                          (cd_collaboration_revision c) db)).

Definition persist_update (c : CollaborationDocument) (user : option uuid)
    (kind : PersistedUpdateKind) (payload : bytes) (access_epoch : Z)
    (guest_display_name : option text) :
    WorkspaceDB → result ReconcileError PersistUpdateOutcome * WorkspaceDB :=
  let fail e := Err (ReconcilePersistence e) in
  transact s fail (
    epoch ← exec s fail (reads (lock_project_content_epoch (cd_project c) (cd_content_epoch c)));
    match epoch with
    | EpochChanged | EpochProjectNotFound => early (Ok PersistContentEpochChanged)
    | EpochCurrent =>
        admitted ← exec s fail (reads (λ db,
          lock_project_access_epoch (cd_project c) access_epoch (access db)));
        match admitted with
        | Changed => early (Ok AccessChanged)
        | ProjectNotFound => early (Ok PersistContentEpochChanged)
        | Current =>
            _ ← exec s fail (writes lock_document_updates);
            document_matches ← exec s fail (reads (is_document c));
            if negb document_matches then early (Ok PersistDocumentChanged) else
            id ← exec s fail (insert_update now
                   (MkUpdateWrite c user kind payload guest_display_name));
            match kind with
            | Sync =>
                state ← exec s fail (reads (load_state c));
                outcome ← reconcile_collaboration_document s now fail update_retention
                            (Err Unmergeable) c state None;
                match outcome with
                | ReconcileCurrent compacted =>
                    mret (Ok (Accepted (MkAck id true (rd_workspace_change compacted))))
                | ReconcileContentEpochChanged => early (Ok PersistContentEpochChanged)
                | ReconcileDocumentChanged => early (Ok PersistDocumentChanged)
                end
            | Update =>
                _ ← exec s fail (writes (prune_updates update_retention c id));
                mret (Ok (Accepted (MkAck id false None)))
            end
        end
    end).

(** ** bootstrap *)

Inductive PrepareBootstrapError : Type :=
| BootstrapDocumentChanged
| BootstrapUnmergeable
| BootstrapPersistence (source : sqlx_error).

(** [prepare_document_bootstrap] up to its commit; with the state, the change
    that is then announced. *)
Definition bootstrap_transaction (c : CollaborationDocument) :
    WorkspaceDB → result PrepareBootstrapError (BootstrapState * option WorkspaceChange) * WorkspaceDB :=
  let fail e := Err (BootstrapPersistence e) in
  transact s fail (
    _ ← exec s fail (writes lock_document_updates);
    content ← exec s fail (reads (λ db, d_content <$>
                find_by_identity (cd_project c) (cd_document c) (cd_collaboration_revision c) db));
    match content with
    | None => early (Err BootstrapDocumentChanged)
    | Some content =>
        _ ← exec s fail (writes (clear_superseded_document_revisions c));
        state ← exec s fail (reads (load_state c));
        let has_persisted_state :=
          bool_decide (is_Some (bs_snapshot_payload state)) || negb (bool_decide (bs_updates state = [])) in
        projected ← reconcile_collaboration_document s now fail update_retention
                      (Err BootstrapUnmergeable) c state
                      (if has_persisted_state then None else Some (seed_text content));
        match projected with
        | ReconcileCurrent compacted =>
            mret (Ok (MkState (rd_upto_update_id compacted) (Some (rd_snapshot_payload compacted)) [] [],
                      rd_workspace_change compacted))
        | _ => early (Err BootstrapDocumentChanged)
        end
    end).
Definition prepare_document_bootstrap (c : CollaborationDocument) (db : WorkspaceDB) :
    result PrepareBootstrapError BootstrapState * WorkspaceDB :=
  let '(r, db) := bootstrap_transaction c db in (fst <$> r, db).

End operations.

(** ** flush *)

(** [flush_project_collaboration]: the documents pending at its start, each
    reconciled in its own transaction under its own server; the first error
    ends it. *)
Fixpoint flush_documents (schedules : nat → schedule) (now : time) (update_retention : Z)
    (documents : list CollaborationDocument) (db : WorkspaceDB) :
    result ReconcileError unit * WorkspaceDB :=
  match documents with
  | [] => (Ok (), db)
  | c :: documents =>
      match reconcile_pending_document (schedules 0%nat) now update_retention c db with
      | (Ok _, db) => flush_documents (λ n, schedules (S n)) now update_retention documents db
      | (Err e, db) => (Err e, db)
      end
  end.

Definition flush_project_collaboration (schedules : nat → schedule) (now : time)
    (update_retention : Z) (project : uuid) (db : WorkspaceDB) :
    result ReconcileError unit * WorkspaceDB :=
  match latest_project_update_id project db with
  | None => (Ok (), db)
  | Some target =>
      flush_documents schedules now update_retention (pending_project_documents project target db) db
  end.

(** The projection worker's batch: the next pending document, at most [batch]
    times, until none is left or one fails. *)
Fixpoint projection_batch (schedules : nat → schedule) (now : time) (update_retention : Z)
    (batch : nat) (db : WorkspaceDB) : WorkspaceDB :=
  match batch with
  | O => db
  | S batch =>
      match next_pending_document db with
      | None => db
      | Some c =>
          match reconcile_pending_document (schedules 0%nat) now update_retention c db with
          | (Ok _, db) => projection_batch (λ n, schedules (S n)) now update_retention batch db
          | (Err _, db) => db
          end
      end
  end.
Definition PROJECTION_BATCH_SIZE : nat := 64.
End collaboration.
