(* ===== verification/WorkspaceFrames.v ===== *)
(** * Workspace: what a statement leaves alone, streams included

    The relations between the tables before and after a statement that the
    theorems about operations are assembled from: what other projects see
    ([elsewhere]), the evolution of documents ([gentle], [steady]), the
    bookkeeping of a content change ([calm], [bumped]), and the streams that
    stay in use ([kept]). *)
From S2P Require Import Prelude Store Text Paths AccessModel WorkspaceModel WorkspaceStatements WorkspaceFiles.
From S2P Require Import WorkspaceProjects Collaboration.

Open Scope Z_scope.

(** ** Other projects *)

Record elsewhere (q : uuid) (db db' : WorkspaceDB) : Prop := MkElsewhere {
  el_rows : ∀ p, p ≠ q → project_rows db' !! p = project_rows db !! p;
  el_settings : ∀ p, p ≠ q → settings db' !! p = settings db !! p;
  el_documents : ∀ k d, d_project d ≠ q → documents db' !! k = Some d ↔ documents db !! k = Some d;
  el_assets : ∀ k a, a_project a ≠ q → assets db' !! k = Some a ↔ assets db !! k = Some a;
  el_directories : ∀ k, k.1 ≠ q → directories db' !! k = directories db !! k;
}.

#[export] Instance elsewhere_preorder q : PreOrder (elsewhere q).
Proof.
  split; [by split|]. intros db1 db2 db3 [R1 S1 D1 A1 I1] [R2 S2 D2 A2 I2]. split.
  - intros p Hp. by rewrite R2, R1.
  - intros p Hp. by rewrite S2, S1.
  - intros k d Hd. by rewrite D2, D1.
  - intros k a Ha. by rewrite A2, A1.
  - intros k Hk. by rewrite I2, I1.
Qed.

(** ** Bookkeeping *)

Definition same_generation (p p' : ProjectRow) : Prop :=
  p_type p' = p_type p ∧ p_created_at p' = p_created_at p ∧ p_content_epoch p' = p_content_epoch p
  ∧ p_workspace_version p ≤ p_workspace_version p'.

(** Everything but the version of [q] and the queues is as before. *)
Record calm (q : uuid) (db db' : WorkspaceDB) : Prop := MkCalm {
  ca_access : access db' = access db;
  ca_documents : documents db' = documents db;
  ca_directories : directories db' = directories db;
  ca_assets : assets db' = assets db;
  ca_settings : settings db' = settings db;
  ca_updates : collab_updates db' = collab_updates db;
  ca_snapshots : collab_snapshots db' = collab_snapshots db;
  ca_next : next_update db' = next_update db;
  ca_rows : ∀ p, p ≠ q → project_rows db' !! p = project_rows db !! p;
  ca_own : option_Forall2 same_generation (project_rows db !! q) (project_rows db' !! q);
}.

#[export] Instance calm_preorder q : PreOrder (calm q).
Proof.
  split.
  - intros db. split; try done. destruct (project_rows db !! q); constructor. by split_and!.
  - intros db1 db2 db3 [? ? ? ? ? ? ? ? Hr1 Ho1] [? ? ? ? ? ? ? ? Hr2 Ho2]. split; try congruence.
    + intros p Hp. by rewrite Hr2, Hr1.
    + destruct Ho1 as [p1 p2 (?&?&?&?)|]; inversion Ho2 as [? p3 (?&?&?&?)|]; subst; constructor.
      split_and!; [congruence..|lia].
Qed.

Lemma calm_elsewhere q db db' : calm q db db' → elsewhere q db db'.
Proof. intros [_ Hd Hdir Ha Hs _ _ _ Hr _]. by split; rewrite ?Hd, ?Hdir, ?Ha, ?Hs. Qed.

(** The version of [q] is larger than before. *)
Definition bumped (q : uuid) (db db' : WorkspaceDB) : Prop :=
  ∀ p, project_rows db !! q = Some p →
  ∃ p', project_rows db' !! q = Some p' ∧ p_type p' = p_type p
        ∧ p_workspace_version p < p_workspace_version p'.

Definition rows_same (db db' : WorkspaceDB) : Prop := project_rows db' = project_rows db.

Lemma bumped_after_rows q db1 db2 db3 : rows_same db1 db2 → bumped q db2 db3 → bumped q db1 db3.
Proof. unfold rows_same, bumped. by intros ->. Qed.

Lemma bumped_then_calm q db1 db2 db3 : bumped q db1 db2 → calm q db2 db3 → bumped q db1 db3.
Proof.
  intros Hb Hc p Hp. destruct (Hb p Hp) as (p2 & Hp2 & ? & ?).
  pose proof (ca_own _ _ _ Hc) as Ho. rewrite Hp2 in Ho. inversion Ho as [? p3 (?&?&?&?)|]; subst.
  exists p3. split_and!; [done|congruence|lia].
Qed.

Section activity.
Context {R : Type} (s : schedule) (fail : sqlx_error → R).

Lemma calm_queue q db db' :
  access db' = access db → documents db' = documents db → directories db' = directories db →
  assets db' = assets db → settings db' = settings db → collab_updates db' = collab_updates db →
  collab_snapshots db' = collab_snapshots db → next_update db' = next_update db →
  project_rows db' = project_rows db → calm q db db'.
Proof.
  intros ???????? Hr. split; try done; rewrite Hr; [done|].
  destruct (project_rows db !! q); constructor. by split_and!.
Qed.

Lemma enqueue_object_deletions_wp now keys q E db n :
  (∀ e, E (fail e)) →
  wp (enqueue_object_deletions s fail now keys) E
     (λ _ db' _, calm q db db' ∧ rows_same db db') db n.
Proof.
  intros HE. unfold enqueue_object_deletions.
  eapply (wp_for _ _ _ (λ _ db', calm q db db' ∧ rows_same db db')); [by split|].
  intros key l db1 n1 [Hc Hr]. apply wp_writes; [done|]. split.
  - etrans; [exact Hc|]. by apply calm_queue.
  - done.
Qed.

Lemma record_workspace_change_wp project contributor kind now q E db n :
  (∀ e, E (fail e)) →
  wp (record_workspace_change s fail project contributor kind now) E
     (λ _ db' _, calm q db db' ∧ rows_same db db') db n.
Proof.
  intros HE. unfold record_workspace_change. apply wp_bind, wp_exec; [done|].
  unfold touch_repository. intros [] db1 H1. case_bool_decide; [done|]. injection H1 as <-.
  apply wp_bind, wp_writes; [done|]. destruct contributor as [user|name|].
  - apply wp_exec; [done|]. unfold insert_pending_author. intros [] db2 H2.
    destruct (negb _); [done|]. injection H2 as <-. by split; [apply calm_queue|].
  - destruct (normalized_guest_name name); [apply wp_writes; [done|]|apply wp_ret];
      by split; [apply calm_queue|].
  - apply wp_ret. by split; [apply calm_queue|].
Qed.

Lemma record_project_activity_wp project actor guest now q E db n :
  (∀ e, E (fail e)) →
  wp (record_project_activity s fail project actor guest now) E
     (λ _ db' _, calm q db db' ∧ rows_same db db') db n.
Proof.
  intros HE. unfold record_project_activity. destruct actor as [user|].
  - apply wp_exec; [done|]. unfold insert_external_author. intros [] db1 H1.
    destruct (negb (bool_decide _)); [by simplify_eq|].
    destruct (negb _); [done|]. injection H1 as <-. by split; [apply calm_queue|].
  - destruct guest as [name|]; [|by apply wp_ret].
    destruct (normalized_guest_name name); [|by apply wp_ret]. apply wp_writes; [done|].
    unfold insert_external_guest. case_bool_decide; [|done]. by split; [apply calm_queue|].
Qed.

Lemma advance_workspace_version_spec q db db' :
  advance_workspace_version q db = Ok ((), db') → calm q db db' ∧ bumped q db db'.
Proof.
  unfold advance_workspace_version, bumped. destruct (project_rows db !! q) as [p|] eqn:Hp.
  - destruct (i64_max <=? _); [done|]. intros [= <-]. split.
    + split; cbn; try done.
      * intros p' Hne. by rewrite lookup_insert_ne.
      * rewrite Hp, lookup_insert_eq. constructor. split_and!; cbn; [done..|lia].
    + intros ? [= <-]. cbn. rewrite lookup_insert_eq. eexists. split_and!; [done..|]. cbn. lia.
  - intros [= <-]. by split.
Qed.

Definition dirtied (q : uuid) (db db' : WorkspaceDB) : Prop := calm q db db' ∧ bumped q db db'.

Lemma dirtied_then_queue q db1 db2 db3 :
  dirtied q db1 db2 → calm q db2 db3 → dirtied q db1 db3.
Proof. intros [? ?] ?. split; [by etrans|]. by eapply bumped_then_calm. Qed.

Lemma mark_project_dirty_wp project actor guest now E db n :
  (∀ e, E (fail e)) →
  wp (mark_project_dirty s fail project actor guest now) E (λ _ db' _, dirtied project db db') db n.
Proof.
  intros HE. unfold mark_project_dirty. apply wp_bind, wp_exec; [done|].
  intros [] db1 H1%advance_workspace_version_spec. apply wp_bind.
  eapply wp_mono; [by apply (record_workspace_change_wp _ _ _ _ project)|done|].
  intros [] db2 n2 [H2 _].
  eapply wp_mono; [by apply (record_project_activity_wp _ _ _ _ project)|done|].
  intros [] db3 n3 [H3 _]. eapply dirtied_then_queue; [exact H1|]. by etrans.
Qed.

Lemma record_collaborative_document_activity_wp project contributors now E db n :
  (∀ e, E (fail e)) →
  wp (record_collaborative_document_activity s fail project contributors now) E
     (λ _ db' _, dirtied project db db') db n.
Proof.
  intros HE. unfold record_collaborative_document_activity. apply wp_bind, wp_exec; [done|].
  intros [] db1 H1%advance_workspace_version_spec. case_bool_decide.
  - apply wp_bind. eapply wp_mono; [by apply (record_workspace_change_wp _ _ _ _ project)|done|].
    intros [] db2 n2 [H2 _].
    eapply wp_mono; [by apply (record_project_activity_wp _ _ _ _ project)|done|].
    intros [] db3 n3 [H3 _]. eapply dirtied_then_queue; [exact H1|]. by etrans.
  - eapply (wp_for _ _ _ (λ _ db', dirtied project db db')); [done|].
    intros c l db2 n2 H2. unfold record_contribution. destruct c; apply wp_bind;
      (eapply wp_mono; [by apply (record_workspace_change_wp _ _ _ _ project)|done|];
       intros [] db3 n3 [H3 _];
       eapply wp_mono; [by apply (record_project_activity_wp _ _ _ _ project)|done|];
       intros [] db4 n4 [H4 _]; eapply dirtied_then_queue; [exact H2|]; by etrans).
Qed.
End activity.

(** * Workspace: documents, entry files and streams across statements

    The invariant of the collaboration streams, the relations that preserve
    it, and for each statement of the content tables the relations it is in. *)
(** A statement on the content of [q]. *)
Record within (q : uuid) (db db' : WorkspaceDB) : Prop := MkWithin {
  wt_elsewhere : elsewhere q db db';
  wt_rows : rows_same db db';
  wt_access : access db' = access db;
}.
#[export] Instance within_preorder q : PreOrder (within q).
Proof.
  split; [by split|]. intros db1 db2 db3 [] []. split; [by etrans|unfold rows_same in *; congruence|congruence].
Qed.

(** ** Streams *)

Definition row_ok (db : WorkspaceDB) (c : CollaborationDocument) : Prop :=
  ∃ d p, documents db !! cd_document c = Some d ∧ d_project d = cd_project c
         ∧ cd_collaboration_revision c ≤ d_collaboration_revision d
         ∧ project_rows db !! cd_project c = Some p ∧ p_content_epoch p = cd_content_epoch c.

Definition snapshot_stream (k : uuid * uuid * Z) (r : SnapshotRow) : CollaborationDocument :=
  MkStream k.1.1 k.1.2 k.2 (sr_content_epoch r).

Record StreamInv `{Yrs} (db : WorkspaceDB) : Prop := {
  si_next : 0 < next_update db;
  si_updates : ∀ i u, collab_updates db !! i = Some u → 0 < i < next_update db ∧ row_ok db (ur_stream u);
  si_snapshots : ∀ k r, collab_snapshots db !! k = Some r →
    0 ≤ sr_upto_update_id r < next_update db ∧ row_ok db (snapshot_stream k r);
  (** the canonical text is that of the compacted state *)
  si_text : ∀ k r doc, collab_snapshots db !! k = Some r → documents db !! k.1.2 = Some doc →
    d_collaboration_revision doc = k.2 →
    ∃ d, y_apply y_new (sr_state_update r) = Some d ∧ y_text d = d_content doc;
}.

(** The stream of a document as it is now. *)
Definition live (c : CollaborationDocument) (db : WorkspaceDB) : bool :=
  is_document c db
  && bool_decide (project_content_epoch (cd_project c) db = Some (cd_content_epoch c)).

Definition same_stream (c : CollaborationDocument) (db db' : WorkspaceDB) : Prop :=
  (∀ i u, ur_stream u = c → collab_updates db' !! i = Some u ↔ collab_updates db !! i = Some u)
  ∧ stream_snapshot c db' = stream_snapshot c db.

Definition kept `{Yrs} (db db' : WorkspaceDB) : Prop :=
  StreamInv db → StreamInv db' ∧ ∀ c, live c db' = true → same_stream c db db'.

Definition same_log (db db' : WorkspaceDB) : Prop :=
  collab_updates db' = collab_updates db ∧ collab_snapshots db' = collab_snapshots db
  ∧ next_update db' = next_update db.
Definition same_epochs (db db' : WorkspaceDB) : Prop :=
  ∀ p, project_content_epoch p db' = project_content_epoch p db.

(** Projects may be created, and keep their epochs. *)
Definition keeps_epochs (db db' : WorkspaceDB) : Prop :=
  ∀ p e, project_content_epoch p db = Some e → project_content_epoch p db' = Some e.

(** A later state of a document: a new text comes with a new revision. *)
Definition evolved (d d' : Document) : Prop :=
  d_project d' = d_project d ∧ d_collaboration_revision d ≤ d_collaboration_revision d'
  ∧ (d_collaboration_revision d' = d_collaboration_revision d → d_content d' = d_content d).

Record gentle (db db' : WorkspaceDB) : Prop := MkGentle {
  ge_log : same_log db db';
  ge_epochs : keeps_epochs db db';
  ge_documents : ∀ k d, documents db !! k = Some d → ∃ d', documents db' !! k = Some d' ∧ evolved d d';
}.
Record neutral (db db' : WorkspaceDB) : Prop := MkNeutral {
  ne_log : same_log db db';
  ne_epochs : same_epochs db db';
  ne_documents : documents db' = documents db;
}.

Lemma evolved_refl d : evolved d d.
Proof. by split_and!. Qed.
Lemma evolved_trans d1 d2 d3 : evolved d1 d2 → evolved d2 d3 → evolved d1 d3.
Proof.
  intros (?&?&H1) (?&?&H2). split_and!; [congruence|lia|]. intros.
  rewrite H2 by lia. apply H1. lia.
Qed.

Lemma neutral_gentle db db' : neutral db db' → gentle db db'.
Proof. intros [? He Hd]. split; [done|intros p e; by rewrite He|]. intros k d Hk. exists d. rewrite Hd. split; [done|]. apply evolved_refl. Qed.

#[export] Instance gentle_preorder : PreOrder gentle.
Proof.
  split.
  - intros db. apply neutral_gentle. by split.
  - intros db1 db2 db3 [(?&?&?) He1 Hd1] [(?&?&?) He2 Hd2]. split.
    + split_and!; congruence.
    + intros p e ?. by apply He2, He1.
    + intros k d (d2 & Hk2 & ?)%Hd1. destruct (Hd2 _ _ Hk2) as (d3 & ? & ?). exists d3.
      split; [done|]. by eapply evolved_trans.
Qed.

Lemma calm_neutral q db db' : calm q db db' → neutral db db'.
Proof.
  intros [_ Hd _ _ _ Hu Hs Hn Hr Ho]. split; [by split_and!| |done].
  intros p. unfold project_content_epoch. destruct (decide (p = q)) as [->|Hne].
  - destruct Ho as [p1 p2 (?&?&?&?)|]; simpl; congruence.
  - by rewrite Hr.
Qed.

Lemma neutral_live db db' c : neutral db db' → live c db' = live c db.
Proof.
  intros [_ He Hd]. unfold live, is_document, find_by_identity, find_by_id. by rewrite He, Hd.
Qed.

Lemma row_ok_documents db db' c :
  keeps_epochs db db' →
  (∀ d, documents db !! cd_document c = Some d → d_project d = cd_project c →
        ∃ d', documents db' !! cd_document c = Some d' ∧ d_project d' = d_project d
              ∧ d_collaboration_revision d ≤ d_collaboration_revision d') →
  row_ok db c → row_ok db' c.
Proof.
  intros He Hd (d & p & Hk & Hp & Hr & Hrow & Hep).
  destruct (Hd _ Hk Hp) as (d' & Hk' & Hp' & Hr').
  specialize (He (cd_project c)). unfold project_content_epoch in He. rewrite Hrow in He.
  specialize (He _ eq_refl). apply fmap_Some in He as (p' & Hrow' & He).
  exists d', p'. split_and!; [done|congruence|lia|done|congruence].
Qed.

Lemma gentle_row_ok db db' c : gentle db db' → row_ok db c → row_ok db' c.
Proof.
  intros [_ He Hd]. apply row_ok_documents; [done|]. intros d (d' & ? & ? & ? & _)%Hd _. by exists d'.
Qed.

Section streams.
Context `{YrsLaws}.

Lemma gentle_kept db db' : gentle db db' → kept db db'.
Proof.
  intros Hg [Hn Hu Hs Ht]. pose proof Hg as [(Eu & Es & En) He Hd]. split.
  - split; rewrite ?Eu, ?Es, ?En; [done| | |].
    + intros i u Hi. destruct (Hu i u Hi). split; [done|]. by eapply gentle_row_ok.
    + intros k r Hk. destruct (Hs k r Hk). split; [done|]. by eapply gentle_row_ok.
    + intros k r doc' Hk Hdoc' Hrev. destruct (Hs k r Hk) as (_ & d & p & Hdoc & _ & Hle & _).
      simpl in Hdoc, Hle. destruct (Hd _ _ Hdoc) as (d' & Hd' & _ & Hle' & Hc). simplify_eq.
      rewrite Hc by lia. apply (Ht k r d Hk Hdoc). lia.
  - intros c _. unfold same_stream, stream_snapshot. by rewrite Eu, Es.
Qed.

Lemma kept_after_gentle db1 db2 db3 : gentle db1 db2 → kept db2 db3 → kept db1 db3.
Proof.
  intros Hg Hk HI. destruct (gentle_kept _ _ Hg HI) as [HI2 _].
  destruct (Hk HI2) as [HI3 Hs]. split; [done|]. intros c Hc. destruct (Hs c Hc) as [Hu Hsn].
  destruct Hg as [(Eu & Es & _) _ _]. split; [by rewrite <-Eu|].
  unfold stream_snapshot in *. by rewrite Hsn, Es.
Qed.

Lemma kept_then_neutral db1 db2 db3 : kept db1 db2 → neutral db2 db3 → kept db1 db3.
Proof.
  intros Hk Hn HI. destruct (Hk HI) as [HI2 Hs].
  destruct (gentle_kept _ _ (neutral_gentle _ _ Hn) HI2) as [HI3 _]. split; [done|].
  intros c Hc. rewrite (neutral_live _ _ _ Hn) in Hc. destruct (Hs c Hc) as [Hu Hsn].
  destruct Hn as [(Eu & Es & _) _ _]. unfold same_stream, stream_snapshot in *. by rewrite Eu, Es.
Qed.

Lemma kept_refl db : kept db db.
Proof. apply gentle_kept. done. Qed.

(** Deleted documents take their streams with them. *)
Lemma delete_documents_kept P db : kept db (delete_documents P db).
Proof.
  intros [Hn Hu Hs Ht].
  assert (∀ c, row_ok db c →
    match documents db !! cd_document c with Some d => P (cd_document c) d | None => false end = false →
    row_ok (delete_documents P db) c) as Hok.
  { intros c Hrow HP. eapply row_ok_documents; [..|exact Hrow]; [intros p e He; exact He|].
    intros d Hd _. exists d. rewrite Hd in HP. by split; [apply lookup_delete_rows_Some|]. }
  split.
  - split; [done| | |].
    + intros i u [Hi HP]%lookup_delete_rows_Some. destruct (Hu i u Hi). split; [done|]. by apply Hok.
    + intros k r [Hk HP]%lookup_delete_rows_Some. destruct (Hs k r Hk). split; [done|]. by apply Hok.
    + intros k r doc [Hk HP]%lookup_delete_rows_Some [Hd _]%lookup_delete_rows_Some. by apply Ht.
  - intros c Hc.
    assert (match documents db !! cd_document c with
            | Some d => P (cd_document c) d | None => false end = false) as HP.
    { unfold live, is_document, find_by_identity, find_by_id in Hc.
      apply andb_true_iff in Hc as [Hc _]. apply bool_decide_eq_true in Hc as [d Hc].
      apply bind_Some in Hc as (d1 & Hc & _). apply bind_Some in Hc as (d2 & Hd2 & _).
      apply lookup_delete_rows_Some in Hd2 as [-> ?]. done. }
    split.
    + intros i u <-. etrans; [apply lookup_delete_rows_Some|]. simpl. naive_solver.
    + unfold stream_snapshot. f_equal. apply option_eq. intros r.
      etrans; [apply lookup_delete_rows_Some|]. simpl. naive_solver.
Qed.
End streams.

(** ** Entry files *)

Definition entries_accepted (db : WorkspaceDB) : Prop :=
  ∀ p e, find_project_entry_point p db = Some e →
         accepts_entry_file_path (ep_type e) (ep_entry_file_path e) = true.

Definition entry_present (p : uuid) (db : WorkspaceDB) : bool :=
  match find_project_entry_point p db with
  | Some e => document_exists p (ep_entry_file_path e) db
  | None => false
  end.

(** The documents stay where they are and the settings as they are. *)
Record steady (q : uuid) (db db' : WorkspaceDB) : Prop := MkSteady {
  sd_entry : find_project_entry_point q db' = find_project_entry_point q db;
  sd_documents : ∀ k d, documents db !! k = Some d → d_project d = q →
    ∃ d', documents db' !! k = Some d' ∧ d_project d' = q ∧ d_path d' = d_path d;
}.
#[export] Instance steady_preorder q : PreOrder (steady q).
Proof.
  split; [by split; eauto|]. intros db1 db2 db3 [E1 D1] [E2 D2]. split; [congruence|].
  intros k d Hd Hq. destruct (D1 _ _ Hd Hq) as (d2 & Hd2 & Hq2 & <-).
  destruct (D2 _ _ Hd2 Hq2) as (d3 & Hd3 & ? & ?). eauto.
Qed.

Lemma document_exists_true p path db :
  document_exists p path db = true ↔
  ∃ k d, documents db !! k = Some d ∧ d_project d = p ∧ d_path d = path.
Proof.
  unfold document_exists. rewrite exists_row_true. unfold document_at.
  by setoid_rewrite bool_decide_eq_true.
Qed.

Lemma steady_entry_present q db db' :
  steady q db db' → entry_present q db = true → entry_present q db' = true.
Proof.
  intros [He Hd]. unfold entry_present. rewrite He. destruct (find_project_entry_point q db); [|done].
  rewrite !document_exists_true. intros (k & d & Hk & Hp & Hpath).
  destruct (Hd _ _ Hk Hp) as (d' & ? & ? & ?). exists k, d'. split_and!; congruence.
Qed.

Lemma calm_steady q db db' : calm q db db' → steady q db db'.
Proof.
  intros [_ Hd _ _ Hs _ _ _ _ Ho]. split.
  - unfold find_project_entry_point. rewrite Hs. destruct Ho as [p1 p2 (Ht & _)|]; [|done].
    cbn. by rewrite Ht.
  - rewrite Hd. eauto.
Qed.

Lemma entry_present_elsewhere p q db db' :
  elsewhere q db db' → p ≠ q → entry_present p db' = entry_present p db.
Proof.
  intros [Hr Hs Hd _ _] Hne. unfold entry_present, find_project_entry_point. rewrite Hr, Hs by done.
  destruct (project_rows db !! p); [|done]. cbn. apply eq_true_iff_eq. rewrite !document_exists_true.
  split; intros (k & d & Hk & Hp & ?); exists k, d; split_and!; try done;
    apply (Hd k d); try done; congruence.
Qed.

(** The entry file of [q] after a step is an accepted one if it was before. *)
Definition entry_step (q : uuid) (db db' : WorkspaceDB) : Prop :=
  ∀ e, find_project_entry_point q db' = Some e →
  find_project_entry_point q db = Some e
  ∨ accepts_entry_file_path (ep_type e) (ep_entry_file_path e) = true.

Lemma entries_accepted_step q db db' :
  elsewhere q db db' → entry_step q db db' → entries_accepted db → entries_accepted db'.
Proof.
  intros [Hr Hs _ _ _] Hq Ha p e. destruct (decide (p = q)) as [->|Hne].
  - intros [?|?]%Hq; [by apply (Ha q)|done].
  - unfold find_project_entry_point. rewrite Hr, Hs by done. apply Ha.
Qed.

Lemma steady_entry_step q db db' : steady q db db' → entry_step q db db'.
Proof. intros [He _] e. rewrite He. by left. Qed.
