(* ===== verification/WorkspaceEffects.v ===== *)
(** * Workspace: the effect of each content statement

    For every statement of the content tables: it stays within its project,
    and is gentle, neutral or a deletion for the streams; whether documents
    and entry file stay in place. *)
From S2P Require Import Prelude Store Text Paths AccessModel WorkspaceModel.
From S2P Require Import WorkspaceStatements WorkspaceFiles WorkspaceProjects Collaboration WorkspaceFrames.

Open Scope Z_scope.

(** ** Documents *)

(** One row of [documents] is written. *)
Lemma put_document_within q k d next db :
  (∀ d0, documents db !! k = Some d0 → d_project d0 = q) → d_project d = q →
  within q db (db <| documents := <[k := d]> (documents db) |> <| next_change := next |>).
Proof.
  intros Hold Hq. split; [split; try done|done..]. intros k' d' Hd'. cbn.
  destruct (decide (k = k')) as [<-|Hne]; [|by rewrite lookup_insert_ne].
  rewrite lookup_insert_eq. split; [naive_solver|]. intros ?%Hold. done.
Qed.

Lemma put_document_gentle k d next db :
  (∀ d0, documents db !! k = Some d0 → evolved d0 d) →
  gentle db (db <| documents := <[k := d]> (documents db) |> <| next_change := next |>).
Proof.
  intros Hold. split; [by split_and!|intros p e He; exact He|]. intros k' d' Hd'. cbn.
  destruct (decide (k = k')) as [<-|Hne].
  - rewrite lookup_insert_eq. eauto.
  - rewrite lookup_insert_ne by done. exists d'. split; [done|apply evolved_refl].
Qed.

Lemma put_document_steady q k d next db :
  (∀ d0, documents db !! k = Some d0 → d_project d = d_project d0 ∧ d_path d = d_path d0) →
  steady q db (db <| documents := <[k := d]> (documents db) |> <| next_change := next |>).
Proof.
  intros Hold. split; [done|]. intros k' d' Hd' Hq. cbn. destruct (decide (k = k')) as [<-|Hne].
  - rewrite lookup_insert_eq. destruct (Hold _ Hd'). eexists. split_and!; [done|congruence|done].
  - rewrite lookup_insert_ne by done. eauto.
Qed.

Lemma evolved_rewritten content now seq d : evolved d (rewritten content now seq d).
Proof. unfold evolved, rewritten. cbn. split_and!; [done|lia|lia]. Qed.

(** A statement on the documents of [q] that moves none. *)
Definition writes_document (q : uuid) (db db' : WorkspaceDB) : Prop :=
  within q db db' ∧ gentle db db' ∧ steady q db db'.

Lemma insert_document_effect id q path content now db d db' :
  insert_document id q path content now db = Ok (d, db') → writes_document q db db'.
Proof.
  unfold insert_document. case_bool_decide; [done|]. destruct (document_exists q path db); [done|].
  case_bool_decide as Hid; [done|]. intros [= <- <-]. apply eq_None_not_Some in Hid.
  split_and!.
  - apply put_document_within; [|done]. rewrite Hid. done.
  - apply put_document_gentle. rewrite Hid. done.
  - apply put_document_steady. rewrite Hid. done.
Qed.

Lemma find_document_Some q path db k d :
  find_document q path db = Some (k, d) →
  documents db !! k = Some d ∧ d_project d = q ∧ d_path d = path.
Proof.
  unfold find_document. intros Hh.
  assert ((k, d) ∈ select (document_at q path) (documents db)) as Hin.
  { destruct (select _ _); simplify_eq/=. left. }
  apply elem_of_select in Hin as [? [??]%bool_decide_eq_true]. done.
Qed.

Lemma find_document_None q path db :
  find_document q path db = None → document_exists q path db = false.
Proof.
  unfold find_document, document_exists, exists_row. destruct (select _ _); [done|done].
Qed.

Lemma upsert_by_path_effect id q path content now db r db' :
  upsert_by_path id q path content now db = Ok (r, db') → writes_document q db db'.
Proof.
  unfold upsert_by_path. destruct (find_document q path db) as [[old d]|] eqn:Hf.
  - apply find_document_Some in Hf as (Hk & Hq & _). destruct (i64_max <=? _); [done|].
    intros [= <- <-]. split_and!.
    + apply put_document_within; [|done]. intros d0 Hd0. congruence.
    + apply put_document_gentle. intros d0 Hd0. simplify_eq. apply evolved_rewritten.
    + apply put_document_steady. intros d0 Hd0. by simplify_eq.
  - destruct (insert_document _ _ _ _ _ _) as [[d db1]|] eqn:Hi; [|done]. intros [= _ <-].
    by eapply insert_document_effect.
Qed.

Lemma find_by_id_Some q k db d :
  find_by_id q k db = Some d ↔ documents db !! k = Some d ∧ d_project d = q.
Proof.
  unfold find_by_id. destruct (documents db !! k) as [d0|]; simpl; [|naive_solver].
  case_bool_decide; naive_solver.
Qed.

Lemma find_by_identity_Some q k revision db d :
  find_by_identity q k revision db = Some d ↔
  documents db !! k = Some d ∧ d_project d = q ∧ d_collaboration_revision d = revision.
Proof.
  unfold find_by_identity. destruct (find_by_id q k db) as [d0|] eqn:Hf; simpl.
  - apply find_by_id_Some in Hf as [Hk Hq]. destruct (Z.eqb_spec (d_collaboration_revision d0) revision);
      naive_solver.
  - split; [done|]. intros (Hk & Hq & _).
    assert (find_by_id q k db = Some d) by by apply find_by_id_Some. congruence.
Qed.

Lemma update_content_effect q k path_revision revision content now db r db' :
  update_content q k path_revision revision content now db = Ok (Some r, db') →
  writes_document q db db'.
Proof.
  unfold update_content. destruct (find_by_id q k db) as [d|] eqn:Hf; [|done].
  apply find_by_id_Some in Hf as [Hk Hq]. destruct (_ && _); [|done].
  destruct (i64_max <=? _); [done|]. intros [= <- <-]. split_and!.
  - apply put_document_within; [|done]. intros d0 Hd0. congruence.
  - apply put_document_gentle. intros d0 Hd0. simplify_eq. apply evolved_rewritten.
  - apply put_document_steady. intros d0 Hd0. by simplify_eq.
Qed.

Lemma update_content_None q k path_revision revision content now db db' :
  update_content q k path_revision revision content now db = Ok (None, db') → db' = db.
Proof.
  unfold update_content. destruct (find_by_id q k db); [|by intros [= <-]].
  destruct (_ && _); [|by intros [= <-]]. by destruct (i64_max <=? _).
Qed.

(** ** Directories, assets and settings *)

(** A statement on other tables of [q]. *)
Definition leaves_documents (q : uuid) (db db' : WorkspaceDB) : Prop :=
  within q db db' ∧ neutral db db'.

#[export] Instance leaves_documents_preorder q : PreOrder (leaves_documents q).
Proof.
  split; [by split|]. intros db1 db2 db3 [Hw1 [(?&?&?) He1 Hd1]] [Hw2 [(?&?&?) He2 Hd2]].
  split; [by etrans|]. split; [split_and!; congruence| |congruence]. intros p. by rewrite He2.
Qed.

Lemma leaves_documents_steady q db db' :
  leaves_documents q db db' → settings db' = settings db → steady q db db'.
Proof.
  intros [[_ Hr _] [_ _ Hd]] Hs. split; [|rewrite Hd; eauto].
  unfold find_project_entry_point. by rewrite Hs, Hr.
Qed.

Ltac same_tables := split; [split; [split; try done|done..]|by split].

Lemma insert_directory_effect q path now db b db' :
  insert_directory q path now db = Ok (b, db') →
  leaves_documents q db db' ∧ settings db' = settings db ∧ (b = false → db' = db).
Proof.
  unfold insert_directory. destruct (directories db !! (q, path)) eqn:Hk; [by intros [= <- <-]|].
  case_bool_decide; [done|]. intros [= <- <-]. split; [|done]. same_tables.
  intros k Hne. cbn. rewrite lookup_insert_ne; [done|]. by intros <-.
Qed.

Lemma upsert_asset_effect id a db r db' :
  upsert_asset id a db = Ok (r, db') →
  leaves_documents (a_project a) db db' ∧ settings db' = settings db.
Proof.
  unfold upsert_asset. destruct (_ || _); [done|]. destruct (exists_row _ _); [done|].
  case_bool_decide as Hid; [done|]. intros [= <- <-]. split; [|done]. same_tables.
  intros k a' Ha'. cbn. set (key := match head _ with Some (old, _) => old | None => id end).
  destruct (decide (key = k)) as [<-|Hne]; [|by rewrite lookup_insert_ne].
  rewrite lookup_insert_eq. split; [naive_solver|]. intros Hk. exfalso.
  subst key. destruct (head (select _ _)) as [[old a0]|] eqn:Hh.
  - assert ((old, a0) ∈ select (asset_at (a_project a) (a_path a)) (assets db)) as Hin.
    { destruct (select _ _); simplify_eq/=. left. }
    apply elem_of_select in Hin as [Hold [? _]%bool_decide_eq_true]. congruence.
  - apply Hid. split; [done|]. by eexists.
Qed.

(** Rows of [q] are removed from the assets or the directories. *)
Lemma delete_assets_effect q (P : uuid → Asset → bool) db :
  (∀ k a, P k a = true → a_project a = q) →
  leaves_documents q db (db <| assets := delete_rows P (assets db) |>).
Proof.
  intros HP. same_tables. intros k a Ha. cbn. rewrite lookup_delete_rows_Some.
  destruct (P k a) eqn:HPk; [by apply HP in HPk|]. naive_solver.
Qed.

Lemma delete_directories_effect q (P : uuid * text → time → bool) db :
  (∀ k t, P k t = true → k.1 = q) →
  leaves_documents q db (db <| directories := delete_rows P (directories db) |>).
Proof.
  intros HP. same_tables. intros k Hk. cbn. apply option_eq. intros t.
  rewrite lookup_delete_rows_Some. destruct (P k t) eqn:HPk; [by apply HP in HPk|]. naive_solver.
Qed.

Lemma ensure_settings_effect q entry engine now db st db' :
  ensure_settings q entry engine now db = Ok (st, db') →
  leaves_documents q db db' ∧ assets db' = assets db ∧ directories db' = directories db
  ∧ settings db' !! q = Some st
  ∧ match settings db !! q with
    | Some st0 => st0 = st ∧ db' = db
    | None => st_entry_file_path st = entry ∧ st_latex_engine st = engine
    end.
Proof.
  unfold ensure_settings. destruct (settings db !! q) as [st0|] eqn:Hst.
  - by intros [= <- <-].
  - case_bool_decide; [done|]. intros [= <- <-].
    split; [|split_and!; try done; cbn; by rewrite lookup_insert_eq].
    same_tables. intros p Hp. cbn. by rewrite lookup_insert_ne.
Qed.

Lemma update_settings_effect q f now db st db' :
  update_settings q f now db = Ok (st, db') →
  leaves_documents q db db' ∧ settings db' !! q = Some st
  ∧ ∃ st0, settings db !! q = Some st0 ∧ st_entry_file_path st = st_entry_file_path (f st0).
Proof.
  unfold update_settings. destruct (settings db !! q) as [st0|] eqn:Hst; [|done].
  destruct (i64_max <=? _); [done|]. intros [= <- <-]. split; [|split].
  - same_tables. intros p Hp. cbn. by rewrite lookup_insert_ne.
  - cbn. by rewrite lookup_insert_eq.
  - by exists st0.
Qed.

(** ** Deletions *)

Lemma delete_documents_within q P db :
  (∀ k d, P k d = true → d_project d = q) → within q db (delete_documents P db).
Proof.
  intros HP. split; [split; try done|done..]. intros k d Hd. cbn.
  rewrite lookup_delete_rows_Some. destruct (P k d) eqn:HPk; [by apply HP in HPk|]. naive_solver.
Qed.

(** A deletion that spares the entry file keeps it. *)
Lemma delete_documents_entry q P db e :
  find_project_entry_point q db = Some e →
  (∀ k d, documents db !! k = Some d → P k d = true → d_project d = q →
          d_path d ≠ ep_entry_file_path e) →
  entry_present q db = true → entry_present q (delete_documents P db) = true.
Proof.
  intros He HP. unfold entry_present.
  change (find_project_entry_point q (delete_documents P db)) with (find_project_entry_point q db).
  rewrite He, !document_exists_true. intros (k & d & Hk & Hq & Hpath). exists k, d.
  split; [|done]. apply lookup_delete_rows_Some. split; [done|].
  destruct (P k d) eqn:HPk; [|done]. by destruct (HP k d Hk HPk Hq).
Qed.

Lemma select_nil {K V} `{Countable K} (P : K → V → bool) (t : gmap K V) :
  (∀ k v, t !! k = Some v → P k v = false) → select P t = [].
Proof.
  intros HP. destruct (select P t) as [|[k v] l] eqn:Hs; [done|].
  assert ((k, v) ∈ select P t) as [Hk HPk]%elem_of_select by (rewrite Hs; left).
  by rewrite (HP k v Hk) in HPk.
Qed.

(** Deleting no row changes nothing. *)
Lemma delete_rows_none {K V} `{Countable K} (P : K → V → bool) (t : gmap K V) :
  select P t = [] → delete_rows P t = t.
Proof.
  intros Hs. apply map_eq. intros k. apply option_eq. intros v. rewrite lookup_delete_rows_Some.
  split; [by intros [? _]|]. intros Hk. split; [done|]. destruct (P k v) eqn:HP; [|done].
  assert ((k, v) ∈ select P t) as Hin by by apply elem_of_select. rewrite Hs in Hin.
  by apply elem_of_nil in Hin.
Qed.

Lemma delete_documents_none P db :
  select P (documents db) = [] → delete_documents P db = db.
Proof.
  intros Hs. unfold delete_documents. cbv zeta.
  assert (∀ k, match documents db !! k with Some d => P k d | None => false end = false) as Hgone.
  { intros k. destruct (documents db !! k) as [d|] eqn:Hk; [|done]. destruct (P k d) eqn:HP; [|done].
    assert ((k, d) ∈ select P (documents db)) as Hin by by apply elem_of_select.
    rewrite Hs in Hin. by apply elem_of_nil in Hin. }
  rewrite (delete_rows_none P) by done. rewrite !delete_rows_none; [by destruct db|..].
  all: apply select_nil; intros; by rewrite Hgone.
Qed.

(** ** Moves *)

(** The SQL of a move agrees with the file policy. *)
Lemma in_sql_subtree_policy root path : in_sql_subtree root path = path_is_in_subtree path root.
Proof.
  apply eq_true_iff_eq. rewrite path_is_in_subtree_true. unfold in_sql_subtree.
  rewrite orb_true_iff, !text_eqb_true. apply or_iff_compat_l. split.
  - intros Ht. exists (drop (length root + 1) path).
    rewrite <-(take_drop (length root + 1) path) at 1. rewrite Ht. by rewrite <-app_assoc.
  - intros [r ->]. rewrite take_app, take_ge by lia. f_equal.
    by replace (length root + 1 - length root)%nat with 1%nat by lia.
Qed.

Lemma sql_moved_policy from to path :
  move_path_with_subtree path from to =
    if in_sql_subtree from path then Some (sql_moved from to path) else None.
Proof.
  rewrite in_sql_subtree_policy. unfold move_path_with_subtree, path_is_in_subtree, sql_moved.
  destruct (text_eqb path from) eqn:He; [done|]. simpl.
  destruct (strip_prefix from path) as [suffix|] eqn:Hs; [|done].
  destruct (starts_with [slash] suffix); [|done]. apply strip_prefix_Some in Hs as ->.
  by rewrite drop_app_length.
Qed.

(** A multi-row update, row by row. *)
Lemma update_each_ind {Row} (f : WorkspaceDB → Row → result sqlx_error WorkspaceDB)
    (I : list Row → WorkspaceDB → Prop) rows db db' :
  (∀ row rest db1 db2, I (row :: rest) db1 → f db1 row = Ok db2 → I rest db2) →
  I rows db → update_each f rows db = Ok db' → I [] db'.
Proof.
  intros Hf. induction rows as [|row rows IH] in db |- *; simpl; [by intros ? [= <-]|].
  intros HI. destruct (f db row) as [db1|] eqn:Hrow; [|done]. simpl. apply IH. by eapply Hf.
Qed.

Lemma updates_rows_Ok {Row} (f : WorkspaceDB → Row → result sqlx_error WorkspaceDB) rows db n db' :
  updates_rows f rows db = Ok (n, db') →
  n = Z.of_nat (length (rows db)) ∧ update_each f (rows db) db = Ok db'.
Proof. unfold updates_rows. destruct (update_each _ _ _); [|done]. by intros [= <- <-]. Qed.

Lemma move_directories_effect q from to db n db' :
  move_directories q from to db = Ok (n, db') →
  leaves_documents q db db' ∧ settings db' = settings db.
Proof.
  intros [_ Hu]%updates_rows_Ok.
  apply (update_each_ind _ (λ rows db1,
    (∀ k t, (k, t) ∈ rows → k.1 = q) ∧ leaves_documents q db db1 ∧ settings db1 = settings db)) in Hu.
  { by destruct Hu as (_ & ? & ?). }
  - intros [k t] rest db1 db2 (Hq & Hl & Hs). unfold move_directory. case_bool_decide; [done|].
    intros [= <-]. split; [intros; apply (Hq k0 t0); by right|]. split; [|done].
    etrans; [exact Hl|]. same_tables. intros k' Hk'. cbn.
    assert (k.1 = q) by (apply (Hq k t); left).
    rewrite lookup_insert_ne by by intros <-. rewrite lookup_delete_ne; [done|]. by intros ->.
  - split; [|done]. intros k t [_ Hk]%elem_of_select.
    apply andb_true_iff in Hk as [Hk _]. by apply bool_decide_eq_true in Hk.
Qed.

Lemma move_assets_effect q from to db n db' :
  move_assets q from to db = Ok (n, db') →
  leaves_documents q db db' ∧ settings db' = settings db.
Proof.
  intros [_ Hu]%updates_rows_Ok.
  apply (update_each_ind _ (λ rows db1,
    (∀ k a, (k, a) ∈ rows → a_project a = q ∧ ∀ a', assets db1 !! k = Some a' → a_project a' = q)
    ∧ leaves_documents q db db1 ∧ settings db1 = settings db)) in Hu.
  { by destruct Hu as (_ & ? & ?). }
  - intros [k a] rest db1 db2 (Hq & Hl & Hs). unfold move_asset. destruct (exists_row _ _); [done|].
    intros [= <-]. destruct (Hq k a) as [Ha Hk]; [left|]. split; [|split; [|done]].
    + intros k' a' Hin. destruct (Hq k' a') as [Ha' Hk']; [by right|]. split; [done|]. cbn.
      intros a2. rewrite lookup_insert_Some. intros [[<- <-]|[_ ?]]; [done|by apply Hk'].
    + etrans; [exact Hl|]. same_tables. intros k' a' Ha'. cbn.
      destruct (decide (k = k')) as [<-|]; [|by rewrite lookup_insert_ne].
      rewrite lookup_insert_eq. split; [by intros [= <-]|]. by intros ?%Hk.
  - split; [|done]. intros k a [Hk Ha]%elem_of_select.
    apply andb_true_iff in Ha as [Ha _]. apply bool_decide_eq_true in Ha. split; [done|].
    intros a' ?. congruence.
Qed.

(** Documents of [q] in the subtree are moved, the others are untouched. *)
Record documents_moved (q : uuid) (from to : text) (db db' : WorkspaceDB) : Prop := {
  dm_within : within q db db';
  dm_gentle : gentle db db';
  dm_settings : settings db' = settings db;
  dm_documents : ∀ k d, documents db !! k = Some d → d_project d = q →
    ∃ d', documents db' !! k = Some d' ∧ d_project d' = q
          ∧ d_path d' = default (d_path d) (move_path_with_subtree (d_path d) from to);
}.

Lemma move_documents_effect q from to now db n db' :
  move_documents q from to now db = Ok (n, db') → documents_moved q from to db db'.
Proof.
  intros [_ Hu]%updates_rows_Ok.
  apply (update_each_ind _ (λ rows db1,
    NoDup rows.*1 ∧ (∀ k d, (k, d) ∈ rows → documents db1 !! k = Some d ∧ d_project d = q)
    ∧ within q db db1 ∧ gentle db db1 ∧ settings db1 = settings db
    ∧ (∀ k d, documents db !! k = Some d → d_project d = q → k ∉ rows.*1 →
        ∃ d', documents db1 !! k = Some d' ∧ d_project d' = q
              ∧ d_path d' = default (d_path d) (move_path_with_subtree (d_path d) from to))
    ∧ (∀ k, k ∈ rows.*1 → documents db1 !! k = documents db !! k)
    ∧ (∀ k d, (k, d) ∈ rows → in_sql_subtree from (d_path d) = true))) in Hu.
  { destruct Hu as (_ & _ & ? & ? & ? & Hd & _). split; try done. intros k d Hk Hq.
    apply (Hd k d Hk Hq). apply not_elem_of_nil. }
  - intros [k d] rest db1 db2 ([Hk Hnd]%NoDup_cons & Hin & Hw & Hg & Hs & Hd & Hold & Hsub).
    unfold move_document. destruct (exists_row _ _); [done|]. destruct (i64_max <=? _); [done|].
    intros [= <-]. destruct (Hin k d) as [Hkd Hq]; [left|].
    set (d' := d <| d_path := _ |> <| d_path_revision := _ |> <| d_change_sequence := _ |>
                 <| d_updated_at := _ |>). split_and!.
    + done.
    + intros k' d2 Hin'. destruct (Hin k' d2) as [? ?]; [by right|]. split; [|done]. cbn.
      rewrite lookup_insert_ne; [done|]. intros <-. apply Hk. apply list_elem_of_fmap. by exists (k, d2).
    + etrans; [exact Hw|]. apply put_document_within; [|done]. intros d0 Hd0. congruence.
    + etrans; [exact Hg|]. apply put_document_gentle. intros d0 Hd0. simplify_eq.
      unfold evolved, d'. cbn. by split_and!.
    + done.
    + intros k' d2 Hk' Hq' Hn. cbn. destruct (decide (k = k')) as [<-|Hne].
      * rewrite lookup_insert_eq. exists d'. split; [done|]. split; [done|].
        assert (d2 = d) as -> by (rewrite Hold in Hkd by left; congruence).
        rewrite sql_moved_policy, (Hsub k d) by left. done.
      * rewrite lookup_insert_ne by done. apply Hd; [done..|].
        apply not_elem_of_cons. split; [by intros ->|done].
    + intros k' Hk'. cbn. rewrite lookup_insert_ne; [apply Hold; by right|]. by intros ->.
    + intros k' d2 ?. apply (Hsub k' d2). by right.
  - split_and!; [apply NoDup_select| | | |done| |done|].
    + intros k d [? Hd]%elem_of_select. apply andb_true_iff in Hd as [Hd _].
      by apply bool_decide_eq_true in Hd.
    + done.
    + done.
    + intros k d Hk Hq Hn. exists d. split; [done|]. split; [done|]. rewrite sql_moved_policy.
      destruct (in_sql_subtree from (d_path d)) eqn:Hsub; [|done]. exfalso. apply Hn.
      apply list_elem_of_fmap. exists (k, d). split; [done|]. apply elem_of_select. split; [done|].
      rewrite Hsub, bool_decide_true by done. done.
    + intros k d [_ Hd]%elem_of_select. by apply andb_true_iff in Hd as [_ ?].
Qed.

(** After a move the document that was the entry is at the entry's new path. *)
Lemma documents_moved_entry q from to db db' path :
  documents_moved q from to db db' →
  document_exists q path db = true →
  document_exists q (default path (move_path_with_subtree path from to)) db' = true.
Proof.
  intros [_ _ _ Hd]. rewrite !document_exists_true. intros (k & d & Hk & Hq & <-).
  destruct (Hd k d Hk Hq) as (d' & ? & ? & ?). by exists k, d'.
Qed.

(** With changes of other tables around it. *)
Lemma documents_moved_around q from to db1 db2 db3 db4 :
  leaves_documents q db1 db2 → settings db2 = settings db1 → documents_moved q from to db2 db3 →
  leaves_documents q db3 db4 → settings db4 = settings db3 → documents_moved q from to db1 db4.
Proof.
  intros [Hw1 Hn1] Hs1 [Hw Hg Hs Hd] [Hw2 Hn2] Hs2. split.
  - etrans; [exact Hw1|]. by etrans.
  - etrans; [by apply neutral_gentle|]. etrans; [exact Hg|by apply neutral_gentle].
  - congruence.
  - rewrite (ne_documents _ _ Hn2), <-(ne_documents _ _ Hn1). exact Hd.
Qed.

Lemma updates_rows_none {Row} (f : WorkspaceDB → Row → result sqlx_error WorkspaceDB) rows db n db' :
  updates_rows f rows db = Ok (n, db') → (0 <? n) = false → db' = db.
Proof.
  intros [-> Hu]%updates_rows_Ok Hn. apply Z.ltb_ge in Hn.
  destruct (rows db); [by injection Hu|simpl in Hn; lia].
Qed.
