(* ===== verification/WorkspaceSteps.v ===== *)
(** * Workspace: what each operation does to the tables

    Every operation on a project's content, as a step of the tables: it stays
    within its project, advances the workspace version or changes no content,
    keeps the entry file, and keeps the streams of the documents it leaves. *)
From S2P Require Import Prelude Store Text Paths AccessModel AccessGrants AccessSystem.
From S2P Require Import WorkspaceModel WorkspaceStatements WorkspaceFiles.
From S2P Require Import WorkspaceProjects Collaboration WorkspaceFrames WorkspaceEffects.

Open Scope Z_scope.

(** ** Snapshots *)

Lemma select_filter_perm {K V} `{Countable K} (P : K → V → bool) (t t' : gmap K V) :
  (∀ k v, P k v = true → t' !! k = Some v ↔ t !! k = Some v) → select P t' ≡ₚ select P t.
Proof.
  intros Ht. apply NoDup_Permutation.
  - apply (NoDup_fmap_1 fst), NoDup_select.
  - apply (NoDup_fmap_1 fst), NoDup_select.
  - intros [k v]. rewrite !elem_of_select. naive_solver.
Qed.

Section steps.
Context `{YrsLaws}.

(** What a step of [q] does to the content. *)
Record content_step (q : uuid) (db db' : WorkspaceDB) : Prop := MkStep {
  os_elsewhere : elsewhere q db db';
  os_rows : ∀ p, project_rows db !! q = Some p →
    ∃ p', project_rows db' !! q = Some p' ∧ p_type p' = p_type p
          ∧ (p_workspace_version p < p_workspace_version p'
             ∨ documents db' = documents db ∧ assets db' = assets db
               ∧ directories db' = directories db ∧ p' = p
               ∧ find_project_entry_point q db' = find_project_entry_point q db
               ∧ (settings db' !! q = settings db !! q
                  ∨ settings db !! q = None
                    ∧ st_latex_engine <$> settings db' !! q = Some (default_latex_engine (p_type p))));
  os_entry : entries_accepted db → entry_present q db = true → entry_present q db' = true;
  os_accepted : entry_step q db db';
  os_access : ∃ trace, access db' = run_trace trace (access db);
}.

(** And keeps the streams of the documents in use. *)
Record op_step (q : uuid) (db db' : WorkspaceDB) : Prop := MkOpStep {
  os_content : content_step q db db';
  os_kept : kept db db';
}.

Lemma content_step_refl q db : content_step q db db.
Proof.
  split; [done| |done| |by exists []].
  - intros p Hp. exists p. split_and!; [done..|]. right. split_and!; try done. by left.
  - intros e. by left.
Qed.

Lemma op_step_refl q db : op_step q db db.
Proof. split; [apply content_step_refl|apply kept_refl]. Qed.

(** A change of the content followed by the bookkeeping of the change. *)
Lemma dirtied_content_step q db db1 db2 :
  within q db db1 → entry_step q db db1 →
  (entries_accepted db → entry_present q db = true → entry_present q db1 = true) →
  dirtied q db1 db2 → content_step q db db2.
Proof.
  intros [He Hr Ha] Hs Hp [Hc Hb]. split.
  - etrans; [exact He|]. by apply calm_elsewhere.
  - intros p Hrow. rewrite <-Hr in Hrow. destruct (Hb p Hrow) as (p' & ? & ? & ?).
    exists p'. split_and!; [done..|]. by left.
  - intros Hacc Hpres. eapply steady_entry_present; [by apply calm_steady|]. by apply Hp.
  - intros e. rewrite (sd_entry _ _ _ (calm_steady _ _ _ Hc)). apply Hs.
  - exists []. etrans; [apply Hc|done].
Qed.

Lemma dirtied_step q db db1 db2 :
  within q db db1 → kept db db1 → entry_step q db db1 →
  (entries_accepted db → entry_present q db = true → entry_present q db1 = true) →
  dirtied q db1 db2 → op_step q db db2.
Proof.
  intros Hw Hk Hs Hp Hd. split; [by eapply dirtied_content_step|].
  eapply kept_then_neutral; [exact Hk|]. eapply calm_neutral, Hd.
Qed.

Lemma writes_document_step q db db1 db2 :
  writes_document q db db1 → dirtied q db1 db2 → op_step q db db2.
Proof.
  intros (Hw & Hg & Hs). apply dirtied_step; [done|by apply gentle_kept|by apply steady_entry_step|].
  intros _. by apply steady_entry_present.
Qed.

Lemma leaves_documents_step q db db1 db2 :
  leaves_documents q db db1 → settings db1 = settings db → dirtied q db1 db2 → op_step q db db2.
Proof.
  intros Hl Hs. pose proof (leaves_documents_steady _ _ _ Hl Hs) as Hst. destruct Hl as [Hw Hn].
  apply dirtied_step; [done|by apply gentle_kept, neutral_gentle|by apply steady_entry_step|].
  intros _. by apply steady_entry_present.
Qed.

Lemma dirtied_after_queue q db1 db2 db3 :
  calm q db1 db2 ∧ rows_same db1 db2 → dirtied q db2 db3 → dirtied q db1 db3.
Proof.
  intros [Hc Hr] [Hc' Hb]. split; [by etrans|]. by eapply bumped_after_rows.
Qed.
End steps.

Lemma accepted_is_text t path :
  accepts_entry_file_path t path = true → is_document_text_path path = true.
Proof.
  assert (∀ extension, extension ∈ document_extensions →
            ends_with extension (to_ascii_lowercase path) = true → is_document_text_path path = true) as Hin.
  { intros extension Hin He. apply existsb_exists. exists extension. split; [|done].
    by apply list_elem_of_In. }
  unfold accepts_entry_file_path. destruct t; simpl.
  - apply Hin. by apply (bool_decide_unpack _).
  - intros [Hl|Hl]%orb_true_iff; eapply Hin; try exact Hl; by apply (bool_decide_unpack _).
Qed.

(** Runs a block up to its bookkeeping, naming each statement's effect. *)
Ltac statement :=
  lazymatch goal with
  | |- wp (mbind _ (exec _ _ (writes lock_project_content))) _ _ _ _ =>
      apply wp_bind, wp_writes; [done|]; unfold lock_project_content
  | |- wp (mbind _ (exec _ _ (reads _))) _ _ _ _ => apply wp_bind, wp_reads; [done|]
  | |- wp (mbind _ (exec _ _ _)) _ _ _ _ =>
      let H := fresh "Hstmt" in apply wp_bind, wp_exec; [done|]; intros ? ? H; cbn beta in H
  end.
(** Opens an operation as the preservation of [op_step] by its transaction. *)
Ltac operation_then q db op block :=
  unfold op, block; cbv zeta; apply (transact_then_inv (op_step q db)); [apply op_step_refl|].
Ltac operation q db op :=
  unfold op; cbv zeta; apply (transact_inv (op_step q db)); [apply op_step_refl|].
Ltac bookkeeping :=
  unfold mark_dirty; apply wp_bind; eapply (wp_mono _ (λ _, True)); [by apply mark_project_dirty_wp|done|];
  let H := fresh "Hdirty" in intros [] ? ? H; apply wp_ret.
Ltac queueing q :=
  apply wp_bind; eapply (wp_mono _ (λ _, True)); [by apply (enqueue_object_deletions_wp _ _ _ _ q)|done|];
  let H := fresh "Hqueue" in intros [] ? ? H.

Section operations.
Context `{YrsLaws} (s : schedule) (now : time).

Lemma create_document_step id q path content actor db :
  op_step q db (create_document s now id q path content actor db).2.
Proof.
  operation q db create_document. do 2 statement.
  bookkeeping. eapply writes_document_step; [|exact Hdirty]. by eapply insert_document_effect.
Qed.

Lemma upsert_document_by_path_step id q path content epoch actor db :
  op_step q db (upsert_document_by_path s now id q path content epoch actor db).2.
Proof.
  operation q db upsert_document_by_path. statement.
  destruct (lock_project_content_epoch _ _ _); [|by apply wp_early..]. statement.
  bookkeeping. eapply writes_document_step; [|exact Hdirty]. by eapply upsert_by_path_effect.
Qed.

Lemma update_document_step q k epoch path_revision revision content actor db :
  op_step q db (update_document s now q k epoch path_revision revision content actor db).2.
Proof.
  operation q db update_document. statement.
  destruct (lock_project_content_epoch _ _ _); [|by apply wp_early..]. statement.
  destruct a as [d|].
  - bookkeeping. eapply writes_document_step; [|exact Hdirty]. by eapply update_content_effect.
  - statement. by apply wp_early.
Qed.

(** Documents of [q] other than the entry file are deleted, after changes
    elsewhere. *)
Lemma delete_documents_step q P db db1 db' :
  leaves_documents q db db1 → settings db1 = settings db →
  (∀ k d, P k d = true → d_project d = q) →
  (∀ e k d, entries_accepted db → find_project_entry_point q db = Some e →
            documents db !! k = Some d → P k d = true → d_path d ≠ ep_entry_file_path e) →
  dirtied q (delete_documents P db1) db' → op_step q db db'.
Proof.
  intros Hl Hs HP Hspare. pose proof (leaves_documents_steady _ _ _ Hl Hs) as Hst.
  destruct Hl as [Hw Hn]. apply dirtied_step.
  - etrans; [exact Hw|]. by apply delete_documents_within.
  - eapply kept_after_gentle; [by apply neutral_gentle|]. apply delete_documents_kept.
  - intros e. change (find_project_entry_point q (delete_documents P db1))
      with (find_project_entry_point q db1). rewrite (sd_entry _ _ _ Hst). by left.
  - intros Hacc Hp. pose proof (steady_entry_present _ _ _ Hst Hp) as Hp1. unfold entry_present in Hp.
    destruct (find_project_entry_point q db) as [e|] eqn:He; [|done].
    assert (find_project_entry_point q db1 = Some e) as He1 by (by rewrite (sd_entry _ _ _ Hst)).
    eapply delete_documents_entry; [exact He1| |done].
    intros k d Hk HPk _. rewrite (ne_documents _ _ Hn) in Hk. by apply (Hspare e k).
Qed.

(** The same, with assets deleted after them. *)
Lemma delete_documents_then_assets_step q P (PA : uuid → Asset → bool) db db1 db' :
  leaves_documents q db db1 → settings db1 = settings db →
  (∀ k d, P k d = true → d_project d = q) →
  (∀ e k d, entries_accepted db → find_project_entry_point q db = Some e →
            documents db !! k = Some d → P k d = true → d_path d ≠ ep_entry_file_path e) →
  (∀ k a, PA k a = true → a_project a = q) →
  dirtied q (delete_documents P db1 <| assets := delete_rows PA (assets db1) |>) db' →
  op_step q db db'.
Proof.
  intros Hl Hs HP Hspare HPA Hdirty.
  eapply (delete_documents_step q P db (db1 <| assets := delete_rows PA (assets db1) |>));
    [|done|exact HP|exact Hspare|exact Hdirty].
  etrans; [exact Hl|]. by apply delete_assets_effect.
Qed.

Lemma delete_document_step q k actor db :
  op_step q db (delete_document s now q k actor db).2.
Proof.
  operation q db delete_document. do 3 statement.
  destruct (find_path_by_id q k db) as [path|] eqn:Hpath; [|by apply wp_early].
  destruct (is_entry _ path) eqn:Hentry; [by apply wp_early|]. statement.
  destruct (a =? 0); [by apply wp_early|]. injection Hstmt as <- <-.
  bookkeeping. eapply delete_documents_step; [..|exact Hdirty]; [done|done| |].
  - by intros k' d [_ ?]%bool_decide_eq_true.
  - intros e k' d _ He Hd [-> Hq]%bool_decide_eq_true Heq. unfold find_path_by_id in Hpath.
    assert (find_by_id q k db = Some d) as Hf by by apply find_by_id_Some.
    rewrite Hf in Hpath. injection Hpath as <-. rewrite He in Hentry. simpl in Hentry.
    rewrite Heq in Hentry. by rewrite (proj2 (text_eqb_true _ _)) in Hentry.
Qed.

Lemma create_project_file_step q path kind content document asset object_key content_type storage
    actor db :
  op_step q db (create_project_file s now q path document
    (prepare_project_file kind (is_document_text_path path) content asset object_key content_type storage)
    actor db).2.
Proof.
  operation_then q db create_project_file create_project_file_transaction. statement.
  unfold persist_project_file, prepare_project_file. destruct kind; revgoals.
  - apply wp_bind. statement. apply wp_ret.
    apply insert_directory_effect in Hstmt as (Hl & Hs & Hn). destruct a.
    + queueing q. bookkeeping. eapply leaves_documents_step; [exact Hl|done|].
      by eapply dirtied_after_queue.
    + apply wp_ret. rewrite (Hn eq_refl). apply op_step_refl.
  - destruct (is_document_text_path path) eqn:Htext.
    + apply wp_bind. do 2 statement. apply wp_bind, wp_writes; [done|]. apply wp_ret.
      queueing q. bookkeeping. apply upsert_by_path_effect in Hstmt as (Hw & Hg & Hst).
      assert (leaves_documents q db' (delete_assets_at_path q path db')) as Hl.
      { apply delete_assets_effect. by intros k a' [? _]%bool_decide_eq_true. }
      eapply (writes_document_step q db (delete_assets_at_path q path db'));
        [|by eapply dirtied_after_queue].
      split_and!; [etrans; [exact Hw|apply Hl]| |].
      * etrans; [exact Hg|]. apply neutral_gentle, Hl.
      * etrans; [exact Hst|]. by apply leaves_documents_steady.
    + apply wp_bind. do 2 statement. apply wp_bind, wp_writes; [done|]. apply wp_ret.
      queueing q. bookkeeping. apply upsert_asset_effect in Hstmt as [Hl Hs].
      eapply delete_documents_step; [exact Hl|done|..| by eapply dirtied_after_queue].
      * by intros k d [? _]%bool_decide_eq_true.
      * intros e k d Hacc He Hd [_ <-]%bool_decide_eq_true Heq.
        rewrite Heq, (accepted_is_text _ _ (Hacc q e He)) in Htext. done.
Qed.

(** The settings after the entry file was moved with its documents. *)
Lemma moved_entry_effect q from to e path db db1 db2 db3 :
  find_project_entry_point q db = Some e →
  move_path_with_subtree (ep_entry_file_path e) from to = Some path →
  accepts_entry_file_path (ep_type e) path = true →
  documents_moved q from to db db1 → leaves_documents q db1 db2 →
  (∃ st, settings db2 !! q = Some st ∧ st_entry_file_path st = path) →
  dirtied q db2 db3 → op_step q db db3.
Proof.
  intros He Hm Hacc Hmv Hl (st & Hst & Hpath).
  assert (find_project_entry_point q db2 = Some (MkEntryPoint (ep_type e) path)) as He2.
  { destruct Hmv as [[_ Hr _] _ _ _], Hl as [[_ Hr2 _] _]. unfold find_project_entry_point in *.
    rewrite Hr2, Hr, Hst. destruct (project_rows db !! q); [|done]. injection He as <-. cbn in *.
    by rewrite Hpath. }
  apply dirtied_step.
  - etrans; [apply Hmv|apply Hl].
  - apply gentle_kept. etrans; [apply Hmv|apply neutral_gentle, Hl].
  - intros e'. rewrite He2. intros [= <-]. by right.
  - intros _ Hp. unfold entry_present in *. rewrite He in Hp. rewrite He2. cbn [ep_entry_file_path].
    apply (documents_moved_entry _ _ _ _ _ _ Hmv) in Hp. rewrite Hm in Hp. simpl in Hp.
    unfold document_exists in *. by rewrite (ne_documents _ _ (proj2 Hl)).
Qed.

Lemma unmoved_entry_effect q from to db db1 db2 :
  match find_project_entry_point q db with
  | Some e => move_path_with_subtree (ep_entry_file_path e) from to = None
  | None => True
  end →
  documents_moved q from to db db1 → dirtied q db1 db2 → op_step q db db2.
Proof.
  intros Hm Hmv. pose proof Hmv as [[_ Hr _] Hg Hs Hd].
  assert (find_project_entry_point q db1 = find_project_entry_point q db) as He
    by (unfold find_project_entry_point; by rewrite Hr, Hs).
  apply dirtied_step; [apply Hmv|by apply gentle_kept|intros e; rewrite He; by left|].
  intros _. unfold entry_present. rewrite He.
  destruct (find_project_entry_point q db) as [e|]; [|done]. intros Hp.
  apply (documents_moved_entry _ _ _ _ _ _ Hmv) in Hp. by rewrite Hm in Hp.
Qed.

Lemma move_project_file_step q from to actor db :
  op_step q db (move_project_file s now q from to actor db).2.
Proof.
  operation q db move_project_file. do 2 statement.
  destruct (match moved_entry _ _ _ with Some _ => _ | None => _ end) eqn:Hmismatch; [by apply wp_early|].
  unfold move_subtree. apply wp_bind. do 3 statement. apply wp_ret.
  rename a into directories, a0 into docs, a1 into assets, db' into db1, db'0 into db2, db'1 into db3.
  destruct (changed _) eqn:Hchanged.
  - apply move_directories_effect in Hstmt as [Hl1 Hs1]. apply move_documents_effect in Hstmt0.
    apply move_assets_effect in Hstmt1 as [Hl3 Hs3].
    assert (documents_moved q from to db db3) as Hmv by by eapply documents_moved_around.
    destruct (moved_entry _ from to) as [[e path]|] eqn:Hme.
    + apply bind_Some in Hme as (e0 & He & Hme). apply bind_Some in Hme as (path0 & Hm & [= -> ->]).
      apply negb_false_iff in Hmismatch. apply wp_bind. do 2 statement. apply wp_ret. bookkeeping.
      apply ensure_settings_effect in Hstmt as (Hl4 & _).
      apply update_settings_effect in Hstmt1 as (Hl5 & Hst' & st0 & Hst0 & Hpath).
      eapply moved_entry_effect; [exact He|exact Hm|exact Hmismatch|exact Hmv| | |exact Hdirty]; [by etrans|by eauto].
    + apply wp_bind, wp_ret. bookkeeping. eapply unmoved_entry_effect; [|done|done].
      destruct (find_project_entry_point q db) as [e|]; [|done]. unfold moved_entry in Hme. simpl in Hme.
      by destruct (move_path_with_subtree _ from to).
  - apply wp_ret. unfold changed in Hchanged. cbn [fc_directories fc_documents fc_assets] in Hchanged.
    apply orb_false_iff in Hchanged as [[Hd Hdoc]%orb_false_iff Ha].
    rewrite (updates_rows_none _ _ _ _ _ Hstmt1 Ha), (updates_rows_none _ _ _ _ _ Hstmt0 Hdoc),
      (updates_rows_none _ _ _ _ _ Hstmt Hd). apply op_step_refl.
Qed.

Lemma delete_project_file_step q path actor db :
  op_step q db (delete_project_file s now q path actor db).2.
Proof.
  operation_then q db delete_project_file delete_project_file_transaction. do 2 statement.
  destruct (match find_project_entry_point q db with Some _ => _ | None => _ end) eqn:Hentry;
    [by apply wp_early|].
  unfold delete_subtree. apply wp_bind. do 4 statement. apply wp_ret.
  injection Hstmt as <- <-. injection Hstmt0 as <- <-. injection Hstmt1 as <- <-.
  destruct (changed _) eqn:Hchanged.
  - queueing q. bookkeeping.
    set (db1 := db <| directories := _ |>) in *. set (db2 := delete_documents _ db1) in *.
    assert (leaves_documents q db db1) as Hl1.
    { apply delete_directories_effect. intros k t Hk. apply andb_true_iff in Hk as [Hk _].
      by apply bool_decide_eq_true in Hk. }
    eapply (delete_documents_then_assets_step q
              (λ _ d, bool_decide (d_project d = q) && in_sql_subtree path (d_path d))
              (λ _ a, bool_decide (a_project a = q) && in_sql_subtree path (a_path a)) db db1);
      [exact Hl1|done| | | |].
    + intros k d Hk. apply andb_true_iff in Hk as [Hk _]. by apply bool_decide_eq_true in Hk.
    + intros e k d _ He _ Hk Heq. apply andb_true_iff in Hk as [_ Hk]. rewrite He in Hentry.
      rewrite in_sql_subtree_policy, Heq in Hk. congruence.
    + intros k a Hk. apply andb_true_iff in Hk as [Hk _]. by apply bool_decide_eq_true in Hk.
    + eapply dirtied_after_queue; [exact Hqueue|exact Hdirty].
  - apply wp_ret.
    unfold changed, directories_in, documents_in, assets_in in Hchanged.
    cbn [fc_directories fc_documents fc_assets] in Hchanged.
    rewrite !orb_false_iff, !Z.ltb_ge in Hchanged. destruct Hchanged as [[Hdir Hdoc] Ha].
    rewrite (delete_rows_none _ (directories db)) in * by (apply length_zero_iff_nil; lia).
    assert (db <| directories := directories db |> = db) as Hdb by by destruct db. rewrite Hdb in *.
    rewrite delete_documents_none in * by (apply length_zero_iff_nil; lia).
    rewrite delete_rows_none by (apply length_zero_iff_nil; lia).
    replace (db <| assets := assets db |>) with db by by destruct db. apply op_step_refl.
Qed.

Lemma upload_project_asset_step id q path revision object_key content_type size inline_data actor db :
  op_step q db (upload_project_asset s now id q path revision object_key content_type size inline_data
                  actor db).2.
Proof.
  operation_then q db upload_project_asset upload_project_asset_transaction. do 3 statement. queueing q. bookkeeping.
  apply upsert_asset_effect in Hstmt as [Hl Hs].
  eapply leaves_documents_step; [exact Hl|done|by eapply dirtied_after_queue].
Qed.

Lemma delete_project_asset_step q asset actor db :
  op_step q db (delete_project_asset s now q asset actor db).2.
Proof.
  operation_then q db delete_project_asset delete_project_asset_transaction. do 2 statement.
  destruct (a_object_key <$> find_asset q asset db); [|by apply wp_early]. statement.
  destruct (a =? 0); [by apply wp_early|]. injection Hstmt as <- <-. queueing q. bookkeeping.
  eapply leaves_documents_step; [..|by eapply dirtied_after_queue]; [|done].
  apply delete_assets_effect. by intros k a' [_ ?]%bool_decide_eq_true.
Qed.

(** Settings that did not exist come into being with the defaults. *)
Lemma ensure_defaults_entry q p now' db st db' :
  project_rows db !! q = Some p →
  ensure_settings q (default_entry_file_path (p_type p)) (default_latex_engine (p_type p)) now' db
    = Ok (st, db') →
  find_project_entry_point q db' = find_project_entry_point q db.
Proof.
  intros Hp He. apply ensure_settings_effect in He as ([[_ Hr _] _] & _ & _ & Hst & Hold).
  unfold find_project_entry_point. rewrite Hr, Hp, Hst. simpl.
  destruct (settings db !! q) as [st0|]; destruct Hold as [Hold _]; simpl; by rewrite Hold.
Qed.

Lemma get_or_create_project_settings_step q db :
  op_step q db (get_or_create_project_settings s now q db).2.
Proof.
  operation q db get_or_create_project_settings. statement. unfold find_project_type.
  destruct (project_rows db !! q) as [p|] eqn:Hp; simpl; [|by apply wp_early]. statement. apply wp_ret.
  replace (effective_latex_engine (p_type p) None) with (default_latex_engine (p_type p)) in Hstmt
    by by destruct (p_type p).
  pose proof (ensure_defaults_entry _ _ _ _ _ _ Hp Hstmt) as He.
  apply ensure_settings_effect in Hstmt as ([[Hel Hr Ha] Hn] & Has & Hdir & Hst & Hold).
  assert (steady q db db') as Hsteady by (split; [done|rewrite (ne_documents _ _ Hn); eauto]).
  split; [|by apply gentle_kept, neutral_gentle].
  split; [done| | |by apply steady_entry_step|by exists []].
  - intros p0 Hp0. assert (p0 = p) as -> by congruence. exists p. split; [by rewrite Hr|]. split; [done|].
    right. split_and!; [apply Hn|done..|]. rewrite Hst.
    destruct (settings db !! q) as [st0|]; [left|right]; destruct Hold as [Hold Heng]; [by rewrite Hold|].
    split; [done|]. simpl. by rewrite Heng.
  - intros _. by apply steady_entry_present.
Qed.

Lemma effective_default_engine type : effective_latex_engine type None = default_latex_engine type.
Proof. by destruct type. Qed.

Lemma change_project_setting_step q change actor db :
  op_step q db (change_project_setting s now q change actor db).2.
Proof.
  operation q db change_project_setting. do 2 statement. unfold find_project_type.
  destruct (project_rows db !! q) as [p|] eqn:Hp; simpl; [|by apply wp_early].
  destruct (change_applies (p_type p) change) as [[]|] eqn:Happ; [|by apply wp_early]. statement.
  rewrite effective_default_engine in Hstmt.
  pose proof (ensure_defaults_entry _ _ _ _ _ _ Hp Hstmt) as He.
  apply ensure_settings_effect in Hstmt as (Hl & _ & _ & Hst & _).
  destruct change as [path|engine]; simpl in Happ.
  - destruct (accepts_entry_file_path (p_type p) path) eqn:Hacc; [|done].
    apply wp_bind. statement. destruct (document_exists q path db') eqn:Hex; [|by apply wp_early].
    apply wp_ret. statement. bookkeeping.
    apply update_settings_effect in Hstmt as (Hl2 & Hst2 & st0 & Hst0 & Hpath).
    assert (find_project_entry_point q db'0 = Some (MkEntryPoint (p_type p) path)) as He2.
    { destruct Hl as [[_ Hr _] _], Hl2 as [[_ Hr2 _] _]. unfold find_project_entry_point.
      rewrite Hr2, Hr, Hp, Hst2. simpl. by rewrite Hpath. }
    assert (leaves_documents q db db'0) as Hl3 by by etrans.
    eapply dirtied_step; [apply Hl3| | | |exact Hdirty].
    + apply gentle_kept, neutral_gentle, Hl3.
    + intros e. rewrite He2. intros [= <-]. by right.
    + intros _ _. unfold entry_present. rewrite He2. cbn [ep_entry_file_path].
      unfold document_exists in *. by rewrite (ne_documents _ _ (proj2 Hl2)).
  - apply wp_bind, wp_ret. statement. bookkeeping.
    apply update_settings_effect in Hstmt as (Hl2 & Hst2 & st0 & Hst0 & Hpath).
    assert (leaves_documents q db db'0) as Hl3 by by etrans.
    assert (steady q db db'0) as Hsteady.
    { split; [|rewrite (ne_documents _ _ (proj2 Hl3)); eauto]. rewrite <-He.
      destruct Hl2 as [[_ Hr2 _] _]. unfold find_project_entry_point. rewrite Hr2, Hst2, Hst0.
      destruct (project_rows db' !! q); [|done]. simpl. by rewrite Hpath. }
    eapply dirtied_step; [apply Hl3| | | |exact Hdirty].
    + apply gentle_kept, neutral_gentle, Hl3.
    + by apply steady_entry_step.
    + intros _. by apply steady_entry_present.
Qed.
End operations.
