(* ===== verification/WorkspaceSystem.v ===== *)
(** * Workspace: content, collaboration and access as one system, with a small project

    The transactions that replace a project's content, copies of projects, and
    the operations of the components as the steps of one system.  A run is a
    sequence of steps, each at its own time and under its own server. *)
From S2P Require Import Prelude Store Text Paths AccessModel AccessSystem WorkspaceModel WorkspaceStatements.
From S2P Require Import WorkspaceFiles WorkspaceProjects Collaboration.

Open Scope Z_scope.

(** ** versioning::materialization *)

Inductive RepositoryImportError : Type :=
| ImportWorkspaceChanged
| ImportProjectNotFound
| ImportMissingEntryFile
| ImportPersistence (source : sqlx_error).

(** [apply_repo_import], from its transaction on: the value is the new
    workspace version. *)
Definition apply_repo_import_transaction (s : schedule) (now : time) (c : ReplaceProjectContent) :
    Tx WorkspaceDB (result RepositoryImportError Z) (result RepositoryImportError Z * list text) :=
  let fail e := Err (ImportPersistence e) in
  replaced ← replace_project_content s fail c;
  match replaced with
  | Replaced r =>
      _ ← exec s fail (writes (clear_project (rc_project c)));
      _ ← enqueue_object_deletions s fail now (rp_old_object_keys r);
      mret (Ok (rp_workspace_version r), rp_old_object_keys r)
  | WorkspaceVersionChanged => early (Err ImportWorkspaceChanged)
  | ReplaceNotFound => early (Err ImportProjectNotFound)
  | InvalidEntryFile => early (Err ImportMissingEntryFile)
  end.
Definition apply_repo_import (s : schedule) (now : time) (c : ReplaceProjectContent) :
    WorkspaceDB → result RepositoryImportError Z * WorkspaceDB :=
  transact_then s (λ e, Err (ImportPersistence e)) (apply_repo_import_transaction s now c).

(** ** workspace::project_copy *)

(** The graph of a copy: the source's snapshot under new identifiers; [assets]
    are its assets, stored again. *)
Definition copy_graph (project owner : uuid) (source : ProjectContentSnapshot)
    (new_document_id : text → uuid) (assets : list WorkspaceAsset) (now : time) : CreateProjectGraph :=
  MkGraph project owner (cs_type source) (cs_entry_file_path source) (cs_latex_engine source)
    (cs_directories source)
    ((λ pc, MkWorkspaceDocument (new_document_id pc.1) pc.1 pc.2) <$> map_to_list (cs_documents source))
    assets now.

(** ** The system *)

Inductive WorkspaceOp : Type :=
| OAccess (op : AccessOp)
| OCreateProject (g : CreateProjectGraph)
| OCreateDocument (id project : uuid) (path content : text) (actor : Actor)
| OUpsertDocument (id project : uuid) (path content : text) (content_epoch : Z) (actor : Actor)
| OUpdateDocument (project document : uuid) (content_epoch path_revision collaboration_revision : Z)
    (content : text) (actor : Actor)
| ODeleteDocument (project document : uuid) (actor : Actor)
| OCreateFile (project : uuid) (path : text) (kind : ProjectFileKind) (content : text)
    (document asset : uuid) (object_key content_type : text) (storage : bool) (actor : Actor)
| OMoveFile (project : uuid) (from to : text) (actor : Actor)
| ODeleteFile (project : uuid) (path : text) (actor : Actor)
| OUploadAsset (id project : uuid) (path : text) (content_revision : uuid)
    (object_key content_type : text) (size_bytes : Z) (inline_data : option bytes) (actor : Actor)
| ODeleteAsset (project asset : uuid) (actor : Actor)
| OReadSettings (project : uuid)
| OChangeSetting (project : uuid) (change : ProjectSettingChange) (actor : uuid)
| OImport (c : ReplaceProjectContent)
| OPersistUpdate (c : CollaborationDocument) (user : option uuid) (kind : PersistedUpdateKind)
    (payload : bytes) (access_epoch : Z) (guest_display_name : option text)
| OBootstrap (c : CollaborationDocument)
| OReconcile (c : CollaborationDocument).

(** A run: each step under its own server, at its own time. *)
Abbreviation workspace_trace := (list (schedule * time * WorkspaceOp)).

Section system.
Context `{Yrs} (update_retention : Z).

Definition run_workspace (s : schedule) (now : time) (op : WorkspaceOp) (db : WorkspaceDB) : WorkspaceDB :=
  match op with
  | OAccess op => db <| access := run_access s now op (access db) |>
  | OCreateProject g => (create_project s g db).2
  | OCreateDocument id project path content actor =>
      (create_document s now id project path content actor db).2
  | OUpsertDocument id project path content epoch actor =>
      (upsert_document_by_path s now id project path content epoch actor db).2
  | OUpdateDocument project document epoch path_revision revision content actor =>
      (update_document s now project document epoch path_revision revision content actor db).2
  | ODeleteDocument project document actor => (delete_document s now project document actor db).2
  | OCreateFile project path kind content document asset object_key content_type storage actor =>
      (create_project_file s now project path document
         (prepare_project_file kind (is_document_text_path path) content asset object_key
            content_type storage) actor db).2
  | OMoveFile project from to actor => (move_project_file s now project from to actor db).2
  | ODeleteFile project path actor => (delete_project_file s now project path actor db).2
  | OUploadAsset id project path revision object_key content_type size inline_data actor =>
      (upload_project_asset s now id project path revision object_key content_type size inline_data
         actor db).2
  | ODeleteAsset project asset actor => (delete_project_asset s now project asset actor db).2
  | OReadSettings project => (get_or_create_project_settings s now project db).2
  | OChangeSetting project change actor => (change_project_setting s now project change actor db).2
  | OImport c => (apply_repo_import s now c db).2
  | OPersistUpdate c user kind payload epoch name =>
      (persist_update s now update_retention c user kind payload epoch name db).2
  | OBootstrap c => (prepare_document_bootstrap s now update_retention c db).2
  | OReconcile c => (reconcile_pending_document s now update_retention c db).2
  end.

Definition run_workspace_trace (trace : workspace_trace) (db : WorkspaceDB) : WorkspaceDB :=
  foldl (λ db '(s, now, op), run_workspace s now op db) db trace.
End system.

(** * Workspace: a small project

    A concrete CRDT (a document is the log of what was applied to it) and a
    project that alice has just created, with an opened stream: the tables the
    theorems are instantiated at. *)
#[export] Instance log_yrs : Yrs := {|
  ydoc := bytes; y_new := []; y_apply := λ d u, Some (d ++ u); y_encode := λ d, d;
  y_text := λ d, d; y_seed := λ t, t |}.

#[export] Instance log_yrs_laws : YrsLaws (H := log_yrs).
Proof.
  refine {| y_equiv := (=) |}.
  - intros d d' u Hd. destruct Hd. by constructor.
  - intros d d' Hd. by destruct Hd.
  - intros d. by exists d.
  - done.
Defined.

Definition blank_workspace (a : AccessDB) : WorkspaceDB :=
  MkWorkspaceDB a ∅ ∅ ∅ ∅ ∅ ∅ ∅ 1 1 ∅ ∅ ∅ ∅ ∅ ∅ ∅ ∅ ∅.

Definition retention : Z := 4000.
Definition notes : uuid := 11%N.
Definition main_document : uuid := 50%N.
Definition notes_graph : CreateProjectGraph :=
  starter_graph notes alice Typst Xetex main_document (lit "= Notes") 1.
Definition created_workspace : WorkspaceDB :=
  run_workspace retention healthy 1 (OCreateProject notes_graph) (blank_workspace sample_db).

Definition main_stream : CollaborationDocument := MkStream notes main_document 0 0.
Definition opened_workspace : WorkspaceDB :=
  run_workspace retention healthy 2 (OBootstrap main_stream) created_workspace.

Definition edit (kind : PersistedUpdateKind) (payload : text) : WorkspaceOp :=
  OPersistUpdate main_stream (Some alice) kind payload 0 None.
Definition edited_workspace : WorkspaceDB :=
  run_workspace retention healthy 3 (edit Update (lit " draft")) opened_workspace.
