(* ===== verification/WorkspaceImports.v ===== *)
(** * Workspace: replacing a project's content

    [replace_project_content] inside the import transaction, as a step: the
    old documents go with their streams, and the new content starts a new
    content epoch. *)
From S2P Require Import Prelude Store Text Paths AccessModel AccessGrants AccessSystem.
From S2P Require Import WorkspaceModel WorkspaceStatements WorkspaceFiles.
From S2P Require Import WorkspaceProjects Collaboration WorkspaceSystem WorkspaceFrames.
From S2P Require Import WorkspaceEffects WorkspaceSteps.

Open Scope Z_scope.

Section imports.
Context `{YrsLaws}.

(** No stream of the project is left. *)
Definition emptied (q : uuid) (db : WorkspaceDB) : Prop :=
  (∀ i u, collab_updates db !! i = Some u → cd_project (ur_stream u) ≠ q)
  ∧ (∀ k r, collab_snapshots db !! k = Some r → k.1.1 ≠ q).

(** The content of [q] is being replaced. *)
Record replacing (q : uuid) (db db' : WorkspaceDB) : Prop := MkReplacing {
  rp_elsewhere : elsewhere q db db';
  rp_access : access db' = access db;
  rp_streams : StreamInv db →
    StreamInv db' ∧ emptied q db' ∧ ∀ c, cd_project c ≠ q → same_stream c db db';
}.

Lemma replacing_start q db db0 :
  leaves_documents q db db0 → replacing q db (delete_project_documents q db0).
Proof.
  intros [[He Hr Ha] Hn]. split; [|done|].
  - etrans; [exact He|]. apply delete_documents_within. by intros k d ?%bool_decide_eq_true.
  - intros HI. destruct (gentle_kept _ _ (neutral_gentle _ _ Hn) HI) as [HI0 _].
    destruct (delete_documents_kept (λ _ d, bool_decide (d_project d = q)) db0 HI0) as [HI1 _].
    split; [done|]. split; [split|].
    + intros i u Hi Hq. destruct (si_updates _ HI1 i u Hi) as (_ & d & p & Hd & Hp & _).
      apply lookup_delete_rows_Some in Hd as [_ Hd%bool_decide_eq_false]. congruence.
    + intros k r Hk Hq. destruct (si_snapshots _ HI1 k r Hk) as (_ & d & p & Hd & Hp & _).
      apply lookup_delete_rows_Some in Hd as [_ Hd%bool_decide_eq_false]. simpl in Hp. congruence.
    + intros c Hc. destruct Hn as [(Eu & Es & _) _ _]. split.
      * intros i u <-. unfold delete_project_documents, delete_documents. cbn.
        rewrite lookup_delete_rows_Some, Eu. split; [by intros [? _]|]. intros Hi. split; [done|].
        rewrite <-Eu in Hi. destruct (si_updates _ HI0 i u Hi) as (_ & d & p & Hd & Hp & _).
        rewrite Hd. apply bool_decide_eq_false. congruence.
      * unfold stream_snapshot, delete_project_documents, delete_documents. cbn. rewrite Es. f_equal.
        apply option_eq. intros r. rewrite lookup_delete_rows_Some. split; [by intros [? _]|]. intros Hk.
        split; [done|]. rewrite <-Es in Hk.
        destruct (si_snapshots _ HI0 _ r Hk) as (_ & d & p & Hd & Hp & _). simpl in *.
        rewrite Hd. apply bool_decide_eq_false. congruence.
Qed.

Lemma replacing_gentle q db db1 db2 :
  replacing q db db1 → elsewhere q db1 db2 → access db2 = access db1 → gentle db1 db2 →
  replacing q db db2.
Proof.
  intros [He Ha Hs] He2 Ha2 Hg. split; [by etrans|congruence|].
  intros (HI1 & [Hu1 Hs1] & Hsame)%Hs. destruct (gentle_kept _ _ Hg HI1) as [HI2 _].
  destruct Hg as [(Eu & Es & _) _ _]. split; [done|]. split; [by split; rewrite ?Eu, ?Es|].
  intros c Hc. destruct (Hsame c Hc). split; [by rewrite Eu|]. unfold stream_snapshot in *. by rewrite Es.
Qed.

Lemma replacing_calm q db db1 db2 : replacing q db db1 → calm q db1 db2 → replacing q db db2.
Proof.
  intros Hr Hc. eapply replacing_gentle; [exact Hr|by apply calm_elsewhere|apply Hc|].
  by eapply neutral_gentle, calm_neutral.
Qed.

Lemma replacing_leaves q db db1 db2 :
  replacing q db db1 → leaves_documents q db1 db2 → replacing q db db2.
Proof. intros Hr [[]]. eapply replacing_gentle; [done..|by apply neutral_gentle]. Qed.

(** The rows of the other projects do not see the new generation. *)
Lemma replacing_advance q db db1 r db2 :
  replacing q db db1 → advance_generation q db1 = Ok (r, db2) →
  replacing q db db2 ∧ documents db2 = documents db1 ∧ settings db2 = settings db1
  ∧ ∃ p p', project_rows db1 !! q = Some p ∧ project_rows db2 !! q = Some p' ∧ p_type p' = p_type p
            ∧ p_workspace_version p' = p_workspace_version p + 1
            ∧ p_content_epoch p' = p_content_epoch p + 1
            ∧ r = (p_workspace_version p', p_content_epoch p').
Proof.
  intros [He Ha Hs]. unfold advance_generation. destruct (project_rows db1 !! q) as [p|] eqn:Hp; [|done].
  destruct (_ || _); [done|]. intros [= <- <-].
  assert (∀ c, cd_project c ≠ q → row_ok db1 c →
    row_ok (db1 <| project_rows := <[q := p <| p_workspace_version := p_workspace_version p + 1 |>
              <| p_content_epoch := p_content_epoch p + 1 |>]> (project_rows db1) |>) c) as Hok.
  { intros c Hc (d & p0 & ? & ? & ? & ? & ?). exists d, p0. split_and!; try done. cbn.
    by rewrite lookup_insert_ne. }
  split; [split; [|done|]|split; [done|split; [done|]]].
  - etrans; [exact He|]. split; try done. intros p0 Hp0. cbn. by rewrite lookup_insert_ne.
  - intros ([Hn Hu Hsn Ht] & [Hu1 Hs1] & Hsame)%Hs. split; [|by split].
    split; [done| | |done].
    + intros i u Hi. destruct (Hu i u Hi). split; [done|]. apply Hok; [|done]. by apply (Hu1 i).
    + intros k row Hk. destruct (Hsn k row Hk). split; [done|]. apply Hok; [|done]. by apply (Hs1 k row).
  - exists p. eexists. cbn. by rewrite lookup_insert_eq.
Qed.

Lemma replacing_clear q db db1 : replacing q db db1 → replacing q db (clear_project q db1).
Proof.
  intros [He Ha Hs]. split; [by destruct He|done|].
  intros ([Hn Hu Hsn Ht] & [Hu1 Hs1] & Hsame)%Hs. split; [split; [done| | |]|split; [split|]].
  - intros i u [Hi _]%lookup_delete_rows_Some. by apply Hu.
  - intros k r [Hk _]%lookup_delete_rows_Some. by apply Hsn.
  - intros k r doc [Hk _]%lookup_delete_rows_Some. by apply Ht.
  - intros i u [Hi _]%lookup_delete_rows_Some. by apply (Hu1 i).
  - intros k r [Hk _]%lookup_delete_rows_Some. by apply (Hs1 k r).
  - intros c Hc. destruct (Hsame c Hc) as [Hcu Hcs]. split.
    + intros i u Hi. etrans; [apply lookup_delete_rows_Some|]. rewrite <-(Hcu i u Hi).
      split; [by intros [? _]|]. intros ?. split; [done|]. apply bool_decide_eq_false. cbn. congruence.
    + rewrite <-Hcs. unfold stream_snapshot. f_equal. apply option_eq. intros r.
      etrans; [apply lookup_delete_rows_Some|]. split; [by intros [? _]|]. intros ?. split; [done|].
      by apply bool_decide_eq_false.
Qed.

Lemma replacing_kept q db db' :
  replacing q db db' →
  (∀ p p', project_rows db !! q = Some p → project_rows db' !! q = Some p' →
           p_content_epoch p' ≠ p_content_epoch p) →
  kept db db'.
Proof.
  intros [_ _ Hs] Hep HI. destruct (Hs HI) as (HI' & [Hu' Hs'] & Hsame). split; [done|].
  intros c Hc. destruct (decide (cd_project c = q)) as [Hq|Hq]; [|by apply Hsame].
  apply andb_true_iff in Hc as [_ Hc]. apply bool_decide_eq_true in Hc. unfold project_content_epoch in Hc.
  rewrite Hq in Hc. destruct (project_rows db' !! q) as [p'|] eqn:Hp'; [|done]. injection Hc as Hc.
  assert (∀ c', cd_project c' = q → cd_content_epoch c' = cd_content_epoch c → ¬ row_ok db c') as Hno.
  { intros c' Hq' Heq (d & p & _ & _ & _ & Hp & Hpe). rewrite Hq' in Hp. apply (Hep p p'); congruence. }
  split.
  - intros i u Hi. split; intros Hlook.
    + destruct (Hu' i u Hlook). congruence.
    + destruct (si_updates _ HI i u Hlook) as [_ Hrow]. destruct (Hno (ur_stream u)); congruence.
  - unfold stream_snapshot. destruct (collab_snapshots db' !! stream_key c) as [r'|] eqn:Hk'.
    { by destruct (Hs' _ _ Hk'). }
    destruct (collab_snapshots db !! stream_key c) as [r|] eqn:Hk; simpl; [|done].
    destruct (Z.eqb_spec (sr_content_epoch r) (cd_content_epoch c)) as [Heq|]; [|done].
    destruct (si_snapshots _ HI _ _ Hk) as [_ Hrow]. by destruct (Hno (snapshot_stream (stream_key c) r) Hq Heq).
Qed.

(** ** The import *)

Context (s : schedule) (now : time).

(** The content is inserted: each document is where it is meant to be. *)
Definition placed (q : uuid) (ds : list WorkspaceDocument) (db : WorkspaceDB) : Prop :=
  ∀ d, d ∈ ds → document_exists q (wd_path d) db = true.

Lemma steady_document_exists q path db db' :
  steady q db db' → document_exists q path db = true → document_exists q path db' = true.
Proof.
  intros [_ Hd]. rewrite !document_exists_true. intros (k & d & Hk & Hq & <-).
  destruct (Hd _ _ Hk Hq) as (d' & ? & ? & ?). by exists k, d'.
Qed.

Lemma insert_document_exists id q path content now' db d db' :
  insert_document id q path content now' db = Ok (d, db') → document_exists q path db' = true.
Proof.
  unfold insert_document. case_bool_decide; [done|]. destruct (document_exists q path db); [done|].
  case_bool_decide; [done|]. intros [= <- <-]. apply document_exists_true. exists id. eexists.
  cbn. rewrite lookup_insert_eq. by split_and!.
Qed.

Lemma insert_new_document_effect q now' d db db' :
  insert_new_document q now' d db = Ok ((), db') →
  writes_document q db db' ∧ settings db' = settings db ∧ document_exists q (wd_path d) db' = true.
Proof.
  unfold insert_new_document. destruct (insert_document _ _ _ _ _ _) as [[d' db1]|] eqn:Hi; [|done].
  intros [= <-]. split; [by eapply insert_document_effect|].
  split; [|by eapply insert_document_exists].
  unfold insert_document in Hi. case_bool_decide; [done|].
  destruct (document_exists q (wd_path d) db); [done|]. case_bool_decide; [done|]. by injection Hi as _ <-.
Qed.

Lemma insert_new_asset_effect q by' now' a db db' :
  insert_new_asset q by' now' a db = Ok ((), db') →
  leaves_documents q db db' ∧ settings db' = settings db.
Proof.
  unfold insert_new_asset. destruct (exists_row _ _); [done|].
  destruct (upsert_asset _ _ _) as [[r db1]|] eqn:Hu; [|done]. intros [= <-].
  by apply upsert_asset_effect in Hu.
Qed.

Lemma insert_new_directory_effect q now' path db db' :
  insert_new_directory q now' path db = Ok ((), db') →
  leaves_documents q db db' ∧ settings db' = settings db.
Proof.
  unfold insert_new_directory. destruct (insert_directory _ _ _ _) as [[[] db1]|] eqn:Hd; [|done..].
  intros [= <-]. by apply insert_directory_effect in Hd as (? & ? & _).
Qed.

Section loops.
Context {R : Type} (fail : sqlx_error → R) (q : uuid) (db0 : WorkspaceDB).
Implicit Types (E : R → Prop).

(** Between the start of a replacement and its end: [st] are the settings. *)
Definition filling (rows : gmap uuid ProjectRow) (st : gmap uuid Settings) (ds : list WorkspaceDocument)
    (db : WorkspaceDB) : Prop :=
  replacing q db0 db ∧ project_rows db = rows ∧ settings db = st ∧ placed q ds db.

Lemma fill_documents rows st ds now' E db n :
  (∀ e, E (fail e)) → filling rows st [] db →
  wp (tx_for ds (λ d, exec s fail (insert_new_document q now' d))) E
     (λ _ db' _, filling rows st ds db') db n.
Proof.
  intros HE Hf.
  eapply wp_mono; [apply (wp_for _ _ E (λ l db', ∃ done, ds = done ++ l ∧ filling rows st done db'))|done|].
  - by exists [].
  - intros d l db1 n1 (ds' & Heq & Hr & Hrows & Hst & Hpl). apply wp_exec; [done|].
    intros [] db2 (Hwd & Hs & Hex)%insert_new_document_effect. destruct Hwd as ([He Hro Ha] & Hg & Hsd).
    exists (ds' ++ [d]). split; [by rewrite <-app_assoc|]. split_and!.
    + by eapply replacing_gentle.
    + by rewrite Hro.
    + congruence.
    + intros d' [Hin| ->%list_elem_of_singleton]%elem_of_app; [|done].
      eapply steady_document_exists; [exact Hsd|by apply Hpl].
  - intros [] db' n' (ds' & -> & ?). by rewrite app_nil_r.
Qed.

Lemma filling_leaves rows st ds db db' :
  filling rows st ds db → leaves_documents q db db' → settings db' = settings db →
  filling rows st ds db'.
Proof.
  intros (Hr & Hrows & Hst & Hpl) Hl Hs. split_and!.
  - by eapply replacing_leaves.
  - by rewrite (wt_rows _ _ _ (proj1 Hl)).
  - congruence.
  - intros d Hd. eapply steady_document_exists; [by apply leaves_documents_steady|by apply Hpl].
Qed.

Lemma fill_others {A} rows st ds (f : A → WorkspaceDB → result sqlx_error (unit * WorkspaceDB)) l E db n :
  (∀ e, E (fail e)) →
  (∀ a db db', f a db = Ok ((), db') → leaves_documents q db db' ∧ settings db' = settings db) →
  filling rows st ds db →
  wp (tx_for l (λ a, exec s fail (f a))) E (λ _ db' _, filling rows st ds db') db n.
Proof.
  intros HE Hf HF. apply (wp_for _ _ E (λ _ db', filling rows st ds db')); [done|].
  intros a l' db1 n1 H1. apply wp_exec; [done|]. intros [] db2 [Hl Hs]%Hf.
  by eapply filling_leaves.
Qed.
End loops.

(** What a replacement that was made leaves behind. *)
Record replaced (c : ReplaceProjectContent) (db db' : WorkspaceDB) : Prop := MkReplacedTables {
  rd_replacing : replacing (rc_project c) db db';
  rd_rows : ∃ p p', project_rows db !! rc_project c = Some p ∧ project_rows db' !! rc_project c = Some p'
    ∧ p_type p' = p_type p ∧ p_workspace_version p' = p_workspace_version p + 1
    ∧ p_content_epoch p' = p_content_epoch p + 1
    ∧ (∀ expected, rc_expected_workspace_version c = Some expected → p_workspace_version p = expected)
    ∧ accepts_entry_file_path (p_type p) (rc_entry_file_path c) = true
    ∧ find_project_entry_point (rc_project c) db' = Some (MkEntryPoint (p_type p) (rc_entry_file_path c));
  rd_entry : document_exists (rc_project c) (rc_entry_file_path c) db' = true;
}.

(** The generation it returns is the project's. *)
Definition generation_of (q : uuid) (r : ReplacedProjectContent) (db : WorkspaceDB) : Prop :=
  ∃ p, project_rows db !! q = Some p ∧ p_workspace_version p = rp_workspace_version r
       ∧ p_content_epoch p = rp_content_epoch r.

Lemma replace_project_content_wp {R} (fail : sqlx_error → R) c E db n :
  (∀ e, E (fail e)) →
  wp (replace_project_content s fail c) E
     (λ r db' _, match r with
                 | Replaced r => replaced c db db' ∧ generation_of (rc_project c) r db'
                 | _ => db' = db
                 end) db n.
Proof.
  intros HE. unfold replace_project_content. cbv zeta. set (q := rc_project c).
  apply wp_bind, wp_reads; [done|]. destruct (project_rows db !! q) as [p|] eqn:Hp; [|by apply wp_ret].
  destruct (match rc_expected_workspace_version c with Some _ => _ | None => _ end) eqn:Hexp;
    [by apply wp_ret|].
  destruct (entry_is_acceptable _ _ _) eqn:Hentry; simpl; [|by apply wp_ret].
  apply andb_true_iff in Hentry as [Hacc Hin].
  apply wp_bind, wp_exec; [done|]. intros st db1 (Hl1 & _ & _ & Hst & _)%ensure_settings_effect.
  apply wp_bind, wp_reads; [done|].
  apply wp_bind, wp_writes; [done|]. apply wp_bind, wp_writes; [done|]. apply wp_bind, wp_writes; [done|].
  set (db2 := delete_project_directories q _).
  assert (filling q db (project_rows db) (settings db1) [] db2) as HF.
  { split_and!; [|by rewrite <-(wt_rows _ _ _ (proj1 Hl1))|done|by intros ? ?%elem_of_nil].
    eapply replacing_leaves; [by apply replacing_start|]. etrans; [apply delete_assets_effect|
      apply delete_directories_effect]; by intros k ? ?%bool_decide_eq_true. }
  apply wp_bind. eapply wp_mono; [by eapply (fill_documents _ q db)|done|]. intros [] db3 n3 HF3.
  apply wp_bind. eapply wp_mono; [eapply (fill_others _ q db); [done|intros; by eapply insert_new_asset_effect|exact HF3]|done|].
  intros [] db4 n4 HF4. apply wp_bind.
  eapply wp_mono; [eapply (fill_others _ q db); [done|intros; by eapply insert_new_directory_effect|exact HF4]|done|].
  intros [] db5 n5 (Hr5 & Hrows5 & Hst5 & Hpl5).
  apply wp_bind, wp_exec; [done|]. intros st6 db6 (Hl6 & Hst6 & st0 & Hst0 & Hpath)%update_settings_effect.
  apply wp_bind, wp_exec; [done|]. intros [v e] db7 H7.
  eapply replacing_advance in H7 as (Hr7 & Hd7 & Hs7 & p6 & p7 & Hp6 & Hp7 & Ht7 & Hv7 & He7 & [= -> ->]);
    [|by eapply replacing_leaves].
  apply wp_ret. rewrite (wt_rows _ _ _ (proj1 Hl6)), Hrows5 in Hp6.
  assert (p6 = p) as -> by congruence. cbn in Hpath. split; [|by exists p7]. split; [done| |].
  - exists p, p7. split_and!; try done.
    + intros expected Heq. rewrite Heq in Hexp. apply negb_false_iff, Z.eqb_eq in Hexp. done.
    + unfold find_project_entry_point. fold q. rewrite Hp7, Hs7, Hst6. simpl. by rewrite Ht7, Hpath.
  - fold q. unfold document_exists. rewrite Hd7, (ne_documents _ _ (proj2 Hl6)).
    apply existsb_exists in Hin as (d & Hd & <-%text_eqb_true). apply Hpl5. by apply list_elem_of_In.
Qed.

(** A replacement whose streams are cleared and whose bookkeeping is done. *)
Lemma replaced_step c db db1 db2 :
  replaced c db db1 →
  calm (rc_project c) (clear_project (rc_project c) db1) db2 →
  rows_same (clear_project (rc_project c) db1) db2 →
  op_step (rc_project c) db db2.
Proof.
  set (q := rc_project c). intros [Hr (p & p' & Hp & Hp' & Ht & Hv & He & _ & Hacc & Hentry) Hex] Hc Hro.
  fold q in Hr, Hp, Hp', Hentry, Hex.
  pose proof (replacing_calm _ _ _ _ (replacing_clear _ _ _ Hr) Hc) as Hrp.
  assert (project_rows db2 !! q = Some p') as Hrow by (by rewrite Hro).
  assert (find_project_entry_point q db2 = Some (MkEntryPoint (p_type p) (rc_entry_file_path c))) as Hent.
  { rewrite (sd_entry _ _ _ (calm_steady _ _ _ Hc)). exact Hentry. }
  split; [split; [apply Hrp| | | |exists []; apply Hrp]|].
  - intros p0 Hp0. assert (p0 = p) as -> by congruence. exists p'. split_and!; [done..|]. left. lia.
  - intros _ _. unfold entry_present. rewrite Hent. cbn [ep_entry_file_path].
    unfold document_exists. by rewrite (ca_documents _ _ _ Hc).
  - intros e. rewrite Hent. intros [= <-]. by right.
  - eapply replacing_kept; [exact Hrp|]. intros p0 p0' H1 H2. assert (p0 = p) as -> by congruence.
    assert (p0' = p') as -> by congruence. lia.
Qed.

Lemma apply_repo_import_step c db :
  op_step (rc_project c) db (apply_repo_import s now c db).2.
Proof.
  set (q := rc_project c). operation_then q db apply_repo_import apply_repo_import_transaction.
  apply wp_bind. eapply (wp_mono _ (λ _, True)); [by apply replace_project_content_wp|done|].
  intros r db1 n1 Hr. destruct r as [content| | |]; [|by apply wp_early..].
  destruct Hr as [Hr _].
  apply wp_bind, wp_writes; [done|]. queueing q. destruct Hqueue as [Hc Hro]. apply wp_ret.
  by eapply replaced_step.
Qed.

(** A replacement was made over the version it expected. *)
Lemma apply_repo_import_version c db v :
  (apply_repo_import s now c db).1 = Ok v →
  ∃ p, project_rows db !! rc_project c = Some p
       ∧ ∀ expected, rc_expected_workspace_version c = Some expected → p_workspace_version p = expected.
Proof.
  destruct (apply_repo_import s now c db) as [r db'] eqn:Hrun. simpl. intros ->.
  set (P := λ r : result RepositoryImportError Z, ∀ v, r = Ok v → ∃ p, project_rows db !! rc_project c = Some p
       ∧ ∀ expected, rc_expected_workspace_version c = Some expected → p_workspace_version p = expected).
  enough (P (Ok v)) as HP by by apply (HP v).
  unfold apply_repo_import, apply_repo_import_transaction, transact_then in Hrun. cbv zeta in Hrun.
  tx_start Hrun; [done|]. apply wp_then.
  apply wp_bind. eapply (wp_mono _ P); [by apply replace_project_content_wp|done|].
  intros r db1 n1 Hr. destruct r as [content| | |]; [|by apply wp_early..].
  assert (∀ r, P r) as HP.
  { intros r v0 _. destruct Hr as [[_ (p & _ & Hp & _ & _ & _ & _ & Hv & _) _] _]. by exists p. }
  apply wp_bind, wp_writes; [done|]. apply wp_bind.
  eapply (wp_mono _ P); [by apply (enqueue_object_deletions_wp s _ _ _ (rc_project c))|done|].
  intros [] db2 n2 _. apply wp_ret. split; apply HP.
Qed.

(** ** The creation of a project *)

(** The project exists only after: its tables are being filled. *)
Record founding (q : uuid) (db0 db : WorkspaceDB) : Prop := MkFounding {
  fo_elsewhere : elsewhere q db0 db;
  fo_gentle : gentle db0 db;
  fo_row : ∃ p, project_rows db !! q = Some p;
}.

Lemma founding_leaves q db0 db1 db2 :
  founding q db0 db1 → leaves_documents q db1 db2 → founding q db0 db2.
Proof.
  intros [He Hg Hr] [[He2 Hr2 _] Hn]. split; [by etrans| |by rewrite Hr2].
  etrans; [exact Hg|by apply neutral_gentle].
Qed.

Lemma founding_document q db0 db1 db2 :
  founding q db0 db1 → writes_document q db1 db2 → founding q db0 db2.
Proof.
  intros [He Hg Hr] ([He2 Hr2 _] & Hg2 & _). split; [by etrans|by etrans|by rewrite Hr2].
Qed.

Lemma founding_calm q db0 db1 db2 : founding q db0 db1 → calm q db1 db2 → founding q db0 db2.
Proof.
  intros [He Hg (p & Hp)] Hc. split.
  - etrans; [exact He|by apply calm_elsewhere].
  - etrans; [exact Hg|]. by eapply neutral_gentle, calm_neutral.
  - pose proof (ca_own _ _ _ Hc) as Ho. rewrite Hp in Ho. inversion Ho. by eexists.
Qed.

Lemma insert_project_row_effect g db db' :
  insert_project_row g db = Ok ((), db') →
  project_rows db !! g_project g = None
  ∧ founding (g_project g) db db' ∧ find_project_type (g_project g) db' = Some (g_type g)
  ∧ settings db' = settings db
  ∧ insert_project (g_project g) (access db) = Ok ((), access db').
Proof.
  unfold insert_project_row. destruct (negb _); [done|]. case_bool_decide as Hnew; [done|].
  apply eq_None_not_Some in Hnew. unfold on_access. cbn [access]. 
  destruct (insert_project _ _) as [[[] a]|] eqn:Hi; [|done]. intros [= <-].
  split; [done|]. split; [split|split_and!; try done].
  - split; try done. intros p Hp. cbn. by rewrite lookup_insert_ne.
  - split; [by split_and!| |].
    + intros p e He. unfold project_content_epoch in *. cbn. rewrite lookup_insert_ne; [done|].
      intros <-. by rewrite Hnew in He.
    + intros k d Hk. exists d. split; [done|apply evolved_refl].
  - cbn. rewrite lookup_insert_eq. by eexists.
  - unfold find_project_type. cbn. by rewrite lookup_insert_eq.
Qed.

(** The tables of a new project between two of its statements. *)
Definition founded (q : uuid) (entry : ProjectEntryPoint) (a : AccessDB) (db0 db : WorkspaceDB) : Prop :=
  founding q db0 db ∧ find_project_entry_point q db = Some entry ∧ access db = a.

Lemma founded_leaves q entry a db0 db1 db2 :
  founded q entry a db0 db1 → leaves_documents q db1 db2 → settings db2 = settings db1 →
  founded q entry a db0 db2.
Proof.
  intros (Hf & He & <-) Hl Hs. split; [by eapply founding_leaves|]. split; [|apply Hl].
  by rewrite (sd_entry _ _ _ (leaves_documents_steady _ _ _ Hl Hs)).
Qed.

Lemma founded_document q entry a db0 db1 db2 :
  founded q entry a db0 db1 → writes_document q db1 db2 → founded q entry a db0 db2.
Proof.
  intros (Hf & He & <-) Hw. split; [by eapply founding_document|]. destruct Hw as (Hw & _ & Hs).
  split; [by rewrite (sd_entry _ _ _ Hs)|apply Hw].
Qed.

Lemma found_loop {R A} (fail : sqlx_error → R) q entry a db0
    (f : A → WorkspaceDB → result sqlx_error (unit * WorkspaceDB)) l E db n :
  (∀ e, E (fail e)) →
  (∀ x db db', f x db = Ok ((), db') → founded q entry a db0 db → founded q entry a db0 db') →
  founded q entry a db0 db →
  wp (tx_for l (λ x, exec s fail (f x))) E (λ _ db' _, founded q entry a db0 db') db n.
Proof.
  intros HE Hf HF. apply (wp_for _ _ E (λ _ db', founded q entry a db0 db')); [done|].
  intros x l' db1 n1 H1. apply wp_exec; [done|]. intros [] db2 Hx. by eapply Hf.
Qed.

Lemma create_project_graph_wp {R} (fail : sqlx_error → R) g E db n :
  (∀ e, E (fail e)) →
  wp (create_project_graph s fail g) E (λ _ db' _,
    project_rows db !! g_project g = None
    ∧ ∃ a, insert_project (g_project g) (access db) = Ok ((), a)
           ∧ founded (g_project g) (MkEntryPoint (g_type g) (g_entry_file_path g)) a db db') db n.
Proof.
  intros HE. unfold create_project_graph. set (q := g_project g).
  apply wp_bind, wp_exec; [done|].
  intros [] db1 (Hnew & Hf1 & Ht1 & Hs1 & Ha1)%insert_project_row_effect. fold q in Hnew, Hf1, Ht1, Ha1.
  apply wp_bind, wp_exec; [done|]. unfold insert_settings. intros [] db2.
  case_bool_decide; [done|]. case_bool_decide; [done|]. intros [= <-].
  set (db2 := db1 <| settings := _ |>).
  assert (founded q (MkEntryPoint (g_type g) (g_entry_file_path g)) (access db1) db db2) as HF.
  { split; [|split; [|done]].
    - destruct Hf1 as [He1 Hg1 Hr1]. split; [|by destruct Hg1; split|exact Hr1].
      etrans; [exact He1|]. split; try done. intros p Hp. cbn. by rewrite lookup_insert_ne.
    - unfold find_project_entry_point. cbn. rewrite lookup_insert_eq. unfold find_project_type in Ht1.
      destruct (project_rows db1 !! q); [|done]. injection Ht1 as <-. done. }
  clearbody db2. apply wp_bind. eapply wp_mono; [eapply (found_loop _ q); [done| |exact HF]|done|].
  { intros x db3 db4 [Hl Hs]%insert_new_directory_effect H3. by eapply founded_leaves. }
  intros [] db3 n3 HF3. apply wp_bind. eapply wp_mono; [eapply (found_loop _ q); [done| |exact HF3]|done|].
  { intros x db4 db5 (Hw & _ & _)%insert_new_document_effect H4. by eapply founded_document. }
  intros [] db4 n4 HF4. eapply wp_mono; [eapply (found_loop _ q); [done| |exact HF4]|done|].
  { intros x db5 db6 [Hl Hs]%insert_new_asset_effect H5. by eapply founded_leaves. }
  intros [] db5 n5 HF5. split; [done|]. by exists (access db1).
Qed.

(** A project with its first owner and its repository state. *)
Lemma provision_project_wp {R} (fail : sqlx_error → R) g E db n :
  accepts_entry_file_path (g_type g) (g_entry_file_path g) = true → (∀ e, E (fail e)) →
  wp (provision_project s fail g) E
     (λ _ db' _, ∀ db2, calm (g_project g) db' db2 → op_step (g_project g) db db2) db n.
Proof.
  intros Hacc HE. unfold provision_project.
  apply wp_bind. eapply wp_mono; [by apply create_project_graph_wp|done|].
  intros [] db1 n1 (Hnew & a & Ha & HF). apply wp_bind, wp_exec; [done|]. unfold on_access.
  intros role db2. destruct (upsert_role _ _ _ _ (access db1)) as [[r a2]|] eqn:Hrole; [|done].
  intros [= <- <-]. apply wp_exec; [done|]. intros [] db3. unfold initialize_project.
  case_bool_decide; [done|]. case_bool_decide; [done|]. intros [= <-] db4 Hc.
  destruct HF as ([He Hg Hrow] & Hent & Hacc1).
  set (db3 := db1 <| access := _ |> <| git_sync_states := _ |>) in *.
  assert (founding (g_project g) db db3) as Hf3 by (by split; [destruct He; split|destruct Hg; split|]).
  destruct (founding_calm _ _ _ _ Hf3 Hc) as [He4 Hg4 Hrow4].
  assert (find_project_entry_point (g_project g) db4
          = Some (MkEntryPoint (g_type g) (g_entry_file_path g))) as Hent4.
  { rewrite (sd_entry _ _ _ (calm_steady _ _ _ Hc)). exact Hent. }
  split; [split; [done| | | |]|by apply gentle_kept].
  - intros p Hp. congruence.
  - intros _. unfold entry_present, find_project_entry_point. by rewrite Hnew.
  - intros e. rewrite Hent4. intros [= <-]. by right.
  - exists [(healthy, g_created_at g, OProvision (g_project g) (g_owner g))].
    rewrite (ca_access _ _ _ Hc). unfold db3. cbn [run_trace foldl]. cbn.
    unfold AccessSystem.provision_project, transact, healthy, grant_initial_project_owner, exec.
    unfold mbind, tx_bind. cbv beta. rewrite Ha. cbv beta iota. rewrite <-Hacc1, Hrole. done.
Qed.

Lemma create_project_step g db :
  accepts_entry_file_path (g_type g) (g_entry_file_path g) = true →
  op_step (g_project g) db (create_project s g db).2.
Proof.
  intros Hacc. operation_then (g_project g) db create_project create_project_transaction.
  apply wp_bind. eapply (wp_mono _ (λ _, True)); [by apply provision_project_wp|done|].
  intros [] db1 n1 Hstep. apply wp_bind.
  eapply (wp_mono _ (λ _, True)); [by apply mark_project_dirty_wp|done|].
  intros [] db4 n4 [Hc _]. apply wp_ret. by apply Hstep.
Qed.
End imports.
