(* ===== verification/CollaborationSteps.v ===== *)
(** * Collaboration: what the operations do to a stream

    The document a stream stands for, and how compaction, pruning and new
    updates act on it. *)
From S2P Require Import Prelude Store Text Paths AccessModel AccessGrants AccessSystem.
From S2P Require Import WorkspaceModel WorkspaceStatements WorkspaceFiles.
From S2P Require Import WorkspaceProjects Collaboration WorkspaceFrames.
From S2P Require Import WorkspaceEffects WorkspaceSteps.

Open Scope Z_scope.

(** ** Ordered selections *)

Lemma keyed_sorted_unique {V} (l1 l2 : list (Z * V)) :
  NoDup l1.*1 → StronglySorted (key_le fst) l1 → StronglySorted (key_le fst) l2 → l1 ≡ₚ l2 → l1 = l2.
Proof.
  intros Hnd H1 H2 Hp. apply (StronglySorted_unique_strong (key_le fst)); [|done..].
  intros [i v] [j w] Hi Hj Hij Hji. unfold key_le in *. simpl in *.
  assert (i = j) as -> by lia. rewrite <-Hp in Hj. f_equal.
  apply list_elem_of_lookup in Hi as [n1 L1]. apply list_elem_of_lookup in Hj as [n2 L2].
  assert (n1 = n2) as ->; [|congruence].
  apply (NoDup_lookup l1.*1 n1 n2 j Hnd); rewrite list_lookup_fmap, ?L1, ?L2; done.
Qed.

Lemma order_by_sorted {V} (l : list (Z * V)) : StronglySorted (key_le fst) (order_by fst l).
Proof. apply StronglySorted_merge_sort; apply _. Qed.
Lemma order_by_perm {V} (l : list (Z * V)) : order_by fst l ≡ₚ l.
Proof. apply merge_sort_Permutation. Qed.

Lemma order_by_unique {V} (l1 l2 : list (Z * V)) :
  NoDup l1.*1 → l1 ≡ₚ l2 → order_by fst l1 = order_by fst l2.
Proof.
  intros Hnd Hp. apply keyed_sorted_unique; [|apply order_by_sorted..|by rewrite !order_by_perm].
  by rewrite order_by_perm.
Qed.

Lemma order_by_app_max {V} (l : list (Z * V)) i v :
  NoDup l.*1 → (∀ j w, (j, w) ∈ l → j < i) → order_by fst (l ++ [(i, v)]) = order_by fst l ++ [(i, v)].
Proof.
  intros Hnd Hmax. apply keyed_sorted_unique; [|apply order_by_sorted| |by rewrite !order_by_perm].
  - rewrite order_by_perm, fmap_app. apply NoDup_app. split; [done|]. split; [|apply NoDup_singleton].
    intros x ([x' w1] & -> & Hx)%list_elem_of_fmap Heq%list_elem_of_singleton. cbn in Heq.
    apply Hmax in Hx. lia.
  - apply StronglySorted_app_2; [|apply order_by_sorted|repeat constructor].
    intros [j w] [j' w'] Hj Heq%list_elem_of_singleton. simplify_eq. apply elem_of_order_by in Hj.
    unfold key_le. simpl. apply Hmax in Hj. lia.
Qed.

(** The last key of an ordered list is the largest. *)
Lemma last_key_max {V} (l : list (Z * V)) k v d :
  (k, v) ∈ order_by fst l → k ≤ default d (last (order_by fst l).*1).
Proof.
  intros Hin. assert (order_by fst l ≠ []) as Hne by (intros Hnil; rewrite Hnil in Hin; by apply elem_of_nil in Hin).
  destruct (exists_last Hne) as (l' & [k' v'] & Heq). rewrite Heq in *.
  rewrite fmap_app. change ([(k', v')].*1) with [k']. rewrite last_snoc. simpl.
  pose proof (order_by_sorted l) as Hs. rewrite Heq in Hs. apply StronglySorted_app in Hs as (Hle & _).
  apply elem_of_app in Hin as [Hin|Hin%list_elem_of_singleton]; [|simplify_eq; lia].
  apply (Hle (k, v) (k', v')); [done|by left].
Qed.

(** ** The document of a stream *)

Section streams.
Context `{YrsLaws}.

#[local] Instance y_apply_proper u : Proper ((≡) ==> (≡)) (λ d, y_apply d u).
Proof. intros d d' Hd. by apply y_apply_equiv. Qed.

Definition payloads (rows : list (Z * UpdateRow)) : list bytes := (λ iu, ur_payload iu.2) <$> rows.

(** The document a new member of the stream is given: the snapshot with the
    updates after it. *)
Definition stream_doc (c : CollaborationDocument) (db : WorkspaceDB) : option ydoc :=
  merged_doc (sr_state_update <$> stream_snapshot c db)
    (payloads (updates_after c (upto_update_id c db) db)).

(** Something has been stored in the stream. *)
Definition opened (c : CollaborationDocument) (db : WorkspaceDB) : bool :=
  bool_decide (is_Some (stream_snapshot c db))
  || negb (bool_decide (updates_after c (upto_update_id c db) db = [])).

Lemma elem_of_updates_after c upto db i u :
  (i, u) ∈ updates_after c upto db ↔
  collab_updates db !! i = Some u ∧ ur_stream u = c ∧ upto < i.
Proof.
  unfold updates_after. rewrite elem_of_order_by, elem_of_select. unfold in_stream.
  rewrite andb_true_iff, bool_decide_eq_true, Z.ltb_lt. done.
Qed.

Lemma updates_after_ext c upto db db' :
  (∀ i u, ur_stream u = c → upto < i → collab_updates db' !! i = Some u ↔ collab_updates db !! i = Some u) →
  updates_after c upto db' = updates_after c upto db.
Proof.
  intros Hext. apply order_by_unique; [apply NoDup_select|]. apply select_filter_perm.
  intros i u [Hu Hi]%andb_true_iff. apply bool_decide_eq_true in Hu. apply Z.ltb_lt in Hi. by apply Hext.
Qed.

Lemma same_stream_doc c db db' :
  same_stream c db db' → stream_doc c db' = stream_doc c db ∧ opened c db' = opened c db.
Proof.
  intros [Hu Hs]. unfold stream_doc, opened, upto_update_id. rewrite Hs.
  by rewrite (updates_after_ext _ _ db db') by auto.
Qed.

Lemma apply_all_proper us d d' : d ≡ d' → apply_all d us ≡ apply_all d' us.
Proof.
  assert (∀ us o o', o ≡@{option ydoc} o' →
    foldl (λ d u, d ← d; y_apply d u) o us ≡ foldl (λ d u, d ← d; y_apply d u) o' us) as Hgen.
  { clear. intros us. induction us as [|u us IH]; intros o o' Ho; simpl; [done|]. apply IH.
    destruct Ho as [x y Hxy|]; simpl; [by apply y_apply_equiv|done]. }
  intros Hd. apply Hgen. by constructor.
Qed.

Lemma apply_all_app d us us' : apply_all d (us ++ us') = apply_all d us ≫= λ d, apply_all d us'.
Proof.
  unfold apply_all. rewrite foldl_app. destruct (foldl _ (Some d) us); simpl; [done|].
  induction us'; done.
Qed.

Lemma merged_doc_snoc snapshot us u :
  merged_doc snapshot (us ++ [u]) = merged_doc snapshot us ≫= λ d, y_apply d u.
Proof.
  unfold merged_doc. destruct snapshot as [s|]; simpl.
  - destruct (y_apply y_new s); simpl; [|done]. by rewrite apply_all_app.
  - by rewrite apply_all_app.
Qed.

(** A document is rebuilt from its encoded state. *)
Lemma merged_doc_encode d : merged_doc (Some (y_encode d)) [] ≡ Some d.
Proof.
  unfold merged_doc, apply_all. simpl. destruct (y_encode_new d) as (d' & -> & Hd). by constructor.
Qed.

(** ** New updates *)

Lemma upto_next c db : StreamInv db → upto_update_id c db < next_update db.
Proof.
  intros HI. unfold upto_update_id, stream_snapshot. pose proof (si_next _ HI).
  destruct (collab_snapshots db !! stream_key c) as [r|] eqn:Hk; simpl; [|lia].
  destruct (_ =? _); simpl; [|lia]. destruct (si_snapshots _ HI _ _ Hk). lia.
Qed.

Lemma insert_update_spec now w db id db' :
  insert_update now w db = Ok (id, db') →
  id = next_update db ∧ db' = db <| collab_updates := <[id := MkUpdateRow (uw_document w) (uw_user w)
      (uw_kind w) (uw_payload w) now (uw_guest_display_name w)]> (collab_updates db) |>
    <| next_update := id + 1 |>.
Proof. unfold insert_update. cbv zeta. repeat case_match; try done. by intros [= <- <-]. Qed.

Lemma insert_update_doc now w db id db' :
  StreamInv db → insert_update now w db = Ok (id, db') →
  stream_doc (uw_document w) db' = (stream_doc (uw_document w) db ≫= λ d, y_apply d (uw_payload w))
  ∧ opened (uw_document w) db' = true
  ∧ ∀ c, c ≠ uw_document w → same_stream c db db'.
Proof.
  intros HI [-> ->]%insert_update_spec. set (c := uw_document w). set (u := MkUpdateRow _ _ _ _ _ _).
  assert (collab_updates db !! next_update db = None) as Hfree.
  { apply eq_None_not_Some. intros [u' Hu']. destruct (si_updates _ HI _ _ Hu'). lia. }
  split; [|split].
  - unfold stream_doc. set (db' := db <| collab_updates := _ |> <| next_update := _ |>).
    change (stream_snapshot c db') with (stream_snapshot c db).
    change (upto_update_id c db') with (upto_update_id c db).
    rewrite <-merged_doc_snoc. f_equal. unfold payloads.
    assert (updates_after c (upto_update_id c db) db'
            = updates_after c (upto_update_id c db) db ++ [(next_update db, u)]) as ->;
      [|by rewrite fmap_app].
    unfold updates_after. rewrite <-order_by_app_max.
    + apply order_by_unique; [apply NoDup_select|]. unfold select. cbn [collab_updates].
      change (collab_updates db') with (<[next_update db := u]> (collab_updates db)).
      rewrite map_to_list_insert by done. rewrite filter_cons, decide_True.
      * by rewrite Permutation_app_comm.
      * cbn. unfold in_stream. rewrite bool_decide_true by done. apply Z.ltb_lt. by apply upto_next.
    + apply NoDup_select.
    + intros j v [Hj _]%elem_of_select. destruct (si_updates _ HI _ _ Hj). lia.
  - unfold opened. apply orb_true_iff. right. apply negb_true_iff, bool_decide_eq_false. intros Hnil.
    assert ((next_update db, u) ∈ @nil (Z * UpdateRow)) as Hin; [|by apply elem_of_nil in Hin].
    rewrite <-Hnil. apply elem_of_updates_after. cbn. rewrite lookup_insert_eq.
    split_and!; [done|done|exact (upto_next c db HI)].
  - intros c' Hc'. split; [|done]. intros i u' Hu'. cbn. rewrite lookup_insert_Some. split; [|intros Hi; right; split; [congruence|done]].
    intros [[<- <-]|[_ ?]]; [|done]. by destruct Hc'.
Qed.

Lemma insert_update_inv now w db id db' :
  StreamInv db → row_ok db (uw_document w) → insert_update now w db = Ok (id, db') → StreamInv db'.
Proof.
  intros [Hn Hu Hs Ht] Hrow [-> ->]%insert_update_spec. split; cbn; [lia| | |done].
  - intros i u [[<- <-]|[_ Hi]]%lookup_insert_Some; [split; [lia|exact Hrow]|].
    destruct (Hu i u Hi). split; [lia|done].
  - intros k r Hk. destruct (Hs k r Hk). split; [lia|done].
Qed.

(** ** Changes of the log only *)

Record log_only (db db' : WorkspaceDB) : Prop := MkLogOnly {
  lo_access : access db' = access db;
  lo_rows : project_rows db' = project_rows db;
  lo_documents : documents db' = documents db;
  lo_directories : directories db' = directories db;
  lo_assets : assets db' = assets db;
  lo_settings : settings db' = settings db;
}.
#[export] Instance log_only_preorder : PreOrder log_only.
Proof. split; [done|]. intros db1 db2 db3 [] []. split; congruence. Qed.

Lemma log_only_views db db' :
  log_only db db' →
  (∀ q, find_project_entry_point q db' = find_project_entry_point q db)
  ∧ (∀ q, entry_present q db' = entry_present q db) ∧ (∀ c, row_ok db c → row_ok db' c)
  ∧ (∀ c, live c db' = live c db).
Proof.
  intros [_ Hr Hd _ _ Hs]. unfold entry_present, find_project_entry_point, row_ok, live, is_document,
    find_by_identity, find_by_id, project_content_epoch, document_exists. by rewrite Hr, Hd, Hs.
Qed.

Lemma content_step_then_log q db db1 db2 : content_step q db db1 → log_only db1 db2 → content_step q db db2.
Proof.
  intros [He Hr Hp Ha [trace Hacc]] Hl. destruct (log_only_views _ _ Hl) as (Hent & Hpres & _).
  destruct Hl as [L1 L2 L3 L4 L5 L6]. split.
  - etrans; [exact He|]. by split; rewrite ?L2, ?L3, ?L4, ?L5, ?L6.
  - intros p Hrow. rewrite L2, L3, L4, L5, L6, Hent. by apply Hr.
  - rewrite Hpres. done.
  - intros e. rewrite Hent. apply Ha.
  - exists trace. congruence.
Qed.

Lemma content_step_after_log q db db1 db2 : log_only db db1 → content_step q db1 db2 → content_step q db db2.
Proof.
  intros Hl [He Hr Hp Ha [trace Hacc]]. pose proof Hl as Hl'.
  destruct (log_only_views _ _ Hl') as (Hent & Hpres & _). destruct Hl as [L1 L2 L3 L4 L5 L6]. split.
  - etrans; [|exact He]. by split; rewrite ?L2, ?L3, ?L4, ?L5, ?L6.
  - intros p Hrow. rewrite <-L2 in Hrow. destruct (Hr p Hrow) as (p' & ? & ? & Hor). exists p'.
    rewrite L3, L4, L5, L6, Hent in Hor. done.
  - rewrite <-Hpres. unfold entries_accepted in *. setoid_rewrite Hent in Hp. exact Hp.
  - intros e He'. rewrite <-Hent. by apply Ha.
  - exists trace. congruence.
Qed.

(** ** Pruning *)

Record trimmed (c : CollaborationDocument) (db db' : WorkspaceDB) : Prop := MkTrimmed {
  tr_log : log_only db db';
  tr_snapshots : collab_snapshots db' = collab_snapshots db;
  tr_next : next_update db' = next_update db;
  tr_subset : ∀ i u, collab_updates db' !! i = Some u → collab_updates db !! i = Some u;
  tr_kept : ∀ i u, collab_updates db !! i = Some u →
    ur_stream u ≠ c ∨ upto_update_id c db < i → collab_updates db' !! i = Some u;
}.

Lemma prune_updates_trimmed retention c latest db : trimmed c db (prune_updates retention c latest db).
Proof.
  unfold prune_updates. cbv zeta. destruct (_ <=? 0); [by split|].
  destruct (stream_snapshot c db) as [r|] eqn:Hs; [|by split].
  destruct (Z.leb_spec (saturating_sub latest retention) (sr_upto_update_id r)) as [Hcut|]; [|by split].
  split; [by split|done|done| |].
  - intros i u [? _]%lookup_delete_rows_Some. done.
  - intros i u Hi Hor. apply lookup_delete_rows_Some. split; [done|].
    apply andb_false_iff. destruct Hor as [Hne|Hlt].
    + left. by apply bool_decide_eq_false.
    + right. apply Z.ltb_ge. unfold upto_update_id in Hlt. rewrite Hs in Hlt. simpl in Hlt. lia.
Qed.

Lemma trimmed_inv c db db' : trimmed c db db' → StreamInv db → StreamInv db'.
Proof.
  intros [Hl Es En Hsub _] [Hn Hu Hs Ht]. destruct (log_only_views _ _ Hl) as (_ & _ & Hok & _).
  split; rewrite ?Es, ?En; [done| | |].
  - intros i u Hi%Hsub. destruct (Hu i u Hi). auto.
  - intros k r Hk. destruct (Hs k r Hk). auto.
  - rewrite (lo_documents _ _ Hl). exact Ht.
Qed.

Lemma trimmed_streams c db db' :
  trimmed c db db' →
  stream_doc c db' = stream_doc c db ∧ opened c db' = opened c db
  ∧ updates_after c (upto_update_id c db') db' = updates_after c (upto_update_id c db) db
  ∧ ∀ c', c' ≠ c → same_stream c' db db'.
Proof.
  intros [_ Es _ Hsub Hkept].
  assert (∀ c', stream_snapshot c' db' = stream_snapshot c' db) as Hsn
    by (intros c'; unfold stream_snapshot; by rewrite Es).
  assert (updates_after c (upto_update_id c db') db' = updates_after c (upto_update_id c db) db) as Hup.
  { unfold upto_update_id. rewrite Hsn. apply updates_after_ext. intros i u Hu Hi.
    split; [apply Hsub|]. intros ?. apply Hkept; [done|]. by right. }
  split_and!; [|by unfold opened; rewrite Hsn, Hup|done|].
  - unfold stream_doc. by rewrite Hup, Hsn.
  - intros c' Hc'. split; [|apply Hsn]. intros i u Hu. split; [apply Hsub|]. intros ?.
    apply Hkept; [done|]. left. congruence.
Qed.
End streams.
