(* ===== verification/CollaborationReconcile.v ===== *)
(** * Collaboration: compaction and the operations on streams

    Compacting a stream keeps its document and makes the canonical text its
    text; the operations persist, bootstrap and reconcile, each as a step. *)
From S2P Require Import Prelude Store Text Paths AccessModel AccessGrants AccessSystem.
From S2P Require Import WorkspaceModel WorkspaceStatements WorkspaceFiles.
From S2P Require Import WorkspaceProjects Collaboration WorkspaceFrames.
From S2P Require Import WorkspaceEffects WorkspaceSteps CollaborationSteps.

Open Scope Z_scope.

Section reconcile.
Context `{YrsLaws} (s : schedule) (now : time) (update_retention : Z).

(** ** Projection to the canonical text *)

Record projected (c : CollaborationDocument) (content : text) (db db1 : WorkspaceDB) : Prop := MkProjected {
  pj_log : same_log db db1;
  pj_epochs : same_epochs db db1;
  pj_epoch : project_content_epoch (cd_project c) db = Some (cd_content_epoch c);
  pj_document : ∃ d d', documents db !! cd_document c = Some d ∧ d_project d = cd_project c
    ∧ d_collaboration_revision d = cd_collaboration_revision c
    ∧ documents db1 = <[cd_document c := d']> (documents db)
    ∧ d_project d' = d_project d ∧ d_path d' = d_path d
    ∧ d_collaboration_revision d' = d_collaboration_revision d ∧ d_content d' = content;
  pj_content : content_step (cd_project c) db db1;
}.

Lemma lock_epoch_current q e db :
  lock_project_content_epoch q e db = EpochCurrent ↔ project_content_epoch q db = Some e.
Proof.
  unfold lock_project_content_epoch. destruct (project_content_epoch q db) as [e'|]; [|done].
  destruct (Z.eqb_spec e' e); naive_solver.
Qed.

Lemma lock_epoch_not_current c db :
  lock_project_content_epoch (cd_project c) (cd_content_epoch c) db ≠ EpochCurrent → live c db = false.
Proof.
  rewrite lock_epoch_current. intros Hne. unfold live. by rewrite (bool_decide_eq_false_2 _ Hne), andb_false_r.
Qed.

Lemma project_collaboration_document_wp {R} (fail : sqlx_error → R) c content contributors E db n :
  (∀ e, E (fail e)) →
  wp (project_collaboration_document s now fail c content contributors) E (λ o db' _,
    match o with
    | Projected _ _ _ _ | Unchanged => projected c content db db'
    | ProjectionEpochChanged => db' = db ∧ live c db = false
    | ProjectionDocumentChanged => db' = db ∧ is_document c db = false
    end) db n.
Proof.
  intros HE. unfold project_collaboration_document. cbv zeta. apply wp_bind, wp_reads; [done|].
  destruct (lock_project_content_epoch _ _ _) eqn:Hep.
  2,3: apply wp_ret; split; [done|by apply (lock_epoch_not_current c); rewrite Hep].
  apply lock_epoch_current in Hep. apply wp_bind, wp_reads; [done|].
  destruct (find_by_identity _ _ _ db) as [d|] eqn:Hf.
  2:{ apply wp_ret. split; [done|]. unfold is_document. by rewrite Hf. }
  pose proof Hf as (Hd & Hq & Hrev)%find_by_identity_Some.
  destruct (text_eqb (d_content d) content) eqn:Heq.
  - apply text_eqb_true in Heq as <-. apply wp_ret. split; [done|done|done| |apply content_step_refl].
    exists d, d. split_and!; try done. by rewrite insert_id.
  - apply wp_bind, wp_exec; [done|]. unfold affecting, update_projected_content. rewrite Hf.
    intros r db1 [= <- <-]. set (d' := d <| d_content := _ |> <| d_updated_at := _ |> <| d_change_sequence := _ |>).
    set (db1 := db <| documents := _ |> <| next_change := _ |>).
    apply wp_bind. eapply wp_mono; [by apply record_collaborative_document_activity_wp|done|].
    intros [] db2 n2 [Hc Hb]. apply wp_ret. pose proof (calm_neutral _ _ _ Hc) as [(Lu & Ls & Ln) He2 Hd2].
    split; [by split_and!|done|done| |].
    + by exists d, d'.
    + eapply (dirtied_content_step _ db db1); [| | |by split].
      * apply put_document_within; [|done]. intros d0 Hd0. congruence.
      * intros e. by left.
      * intros _. apply steady_entry_present, put_document_steady. intros d0 Hd0. by simplify_eq.
Qed.

(** ** Compaction *)

Lemma upto_max c db i u :
  collab_updates db !! i = Some u → ur_stream u = c → i ≤ bs_upto_update_id (load_state c db).
Proof.
  intros Hi Hu. unfold load_state. cbn [bs_upto_update_id]. cbv zeta.
  destruct (decide (upto_update_id c db < i)) as [Hlt|Hge].
  - apply (last_key_max _ i u). by apply elem_of_updates_after.
  - destruct (last _) as [j|] eqn:Hl; simpl; [|lia].
    apply last_Some_elem_of in Hl. apply list_elem_of_fmap in Hl as ([j' v] & -> & Hj).
    apply elem_of_updates_after in Hj as (_ & _ & ?). simpl. lia.
Qed.

Lemma upto_bounds c db :
  StreamInv db → upto_update_id c db ≤ bs_upto_update_id (load_state c db) < next_update db.
Proof.
  intros HI. unfold load_state. cbn [bs_upto_update_id]. cbv zeta. pose proof (upto_next c db HI).
  destruct (last _) as [j|] eqn:Hl; simpl; [|lia].
  apply last_Some_elem_of in Hl. apply list_elem_of_fmap in Hl as ([j' v] & -> & Hj).
  apply elem_of_updates_after in Hj as (Hj & _ & ?). simpl. destruct (si_updates _ HI _ _ Hj). lia.
Qed.

Lemma upto_nonneg c db : StreamInv db → 0 ≤ upto_update_id c db.
Proof.
  intros HI. unfold upto_update_id, stream_snapshot.
  destruct (collab_snapshots db !! stream_key c) as [r|] eqn:Hk; simpl; [|lia].
  destruct (_ =? _); simpl; [|lia]. destruct (si_snapshots _ HI _ _ Hk). lia.
Qed.

(** A stored snapshot of the document belongs to the current epoch. *)
Lemma snapshot_current c db r :
  StreamInv db → project_content_epoch (cd_project c) db = Some (cd_content_epoch c) →
  collab_snapshots db !! stream_key c = Some r → sr_content_epoch r = cd_content_epoch c.
Proof.
  intros HI Hep Hk. destruct (si_snapshots _ HI _ _ Hk) as (_ & d & p & _ & _ & _ & Hp & He).
  simpl in *. unfold project_content_epoch in Hep. rewrite Hp in Hep. simpl in Hep. congruence.
Qed.

Lemma upsert_snapshot_spec c upto payload db db' :
  upsert_snapshot now c upto payload db = Ok ((), db') →
  snapshot_accepts (collab_snapshots db !! stream_key c) (cd_content_epoch c) upto = true →
  db' = db <| collab_snapshots := <[stream_key c := MkSnapshotRow upto payload now (cd_content_epoch c)]>
                                    (collab_snapshots db) |>.
Proof. unfold upsert_snapshot. intros Hu Ha. rewrite Ha in Hu. repeat case_match; try done. by injection Hu. Qed.

Record compacted (c : CollaborationDocument) (m : ydoc) (db db' : WorkspaceDB) : Prop := MkCompacted {
  cp_inv : StreamInv db';
  cp_doc : stream_doc c db' ≡ Some m;
  cp_done : updates_after c (upto_update_id c db') db' = [];
  cp_opened : opened c db' = true;
  cp_live : live c db' = true;
  cp_text : ∃ d, documents db' !! cd_document c = Some d ∧ d_content d = y_text m;
  cp_others : ∀ c', c' ≠ c → same_stream c' db db';
  cp_content : content_step (cd_project c) db db';
  cp_epoch : project_content_epoch (cd_project c) db = Some (cd_content_epoch c);
  cp_lives : ∀ c', live c' db' = live c' db;
  cp_snapshot : is_Some (stream_snapshot c db');
  cp_next : next_update db' = next_update db;
}.

Lemma stream_key_eq c c' :
  stream_key c' = stream_key c → cd_content_epoch c' = cd_content_epoch c → c' = c.
Proof. destruct c, c'. unfold stream_key. cbn. congruence. Qed.

Lemma projected_live c content db db1 : projected c content db db1 → live c db1 = true.
Proof.
  intros [_ He Hep (d & d' & Hd & Hq & Hr & Hdocs & Hq' & _ & Hr' & _) _].
  unfold live, is_document. apply andb_true_iff. split; [|apply bool_decide_eq_true; by rewrite He].
  apply bool_decide_eq_true. exists d'. apply find_by_identity_Some. rewrite Hdocs, lookup_insert_eq.
  split_and!; congruence.
Qed.

Lemma projected_lives c content db db1 :
  projected c content db db1 → ∀ c', live c' db1 = live c' db.
Proof.
  intros [_ He _ (d & d' & Hd & _ & _ & Hdocs & Hq & _ & Hr & _) _] c'.
  unfold live. f_equal; [|by rewrite He]. unfold is_document. apply bool_decide_ext.
  unfold is_Some. setoid_rewrite find_by_identity_Some. rewrite Hdocs.
  destruct (decide (cd_document c = cd_document c')) as [Heq|Hne].
  - rewrite <-Heq, lookup_insert_eq, Hd. split; intros (x & [= <-] & ? & ?); eexists; split_and!;
      [done|congruence..|done|congruence|congruence].
  - by rewrite lookup_insert_ne.
Qed.

Lemma compaction c m db db1 db2 :
  StreamInv db → projected c (y_text m) db db1 →
  upsert_snapshot now c (bs_upto_update_id (load_state c db)) (y_encode m) db1 = Ok ((), db2) →
  compacted c m db db2.
Proof.
  intros HI Hpj Hup. pose proof (upto_bounds c db HI) as [HU1 HU2]. pose proof (upto_nonneg c db HI) as HU0.
  assert (∀ i u, collab_updates db !! i = Some u → ur_stream u = c →
                 i ≤ bs_upto_update_id (load_state c db)) as Hmax by (intros; by eapply upto_max).
  set (U := bs_upto_update_id (load_state c db)) in *. clearbody U.
  pose proof Hpj as [(Lu & Ls & Ln) Hes Hep (d & d' & Hd & Hq & Hr & Hdocs & Hq' & Hpath & Hr' & Hc) Hcs].
  apply upsert_snapshot_spec in Hup.
  2:{ rewrite Ls. destruct (collab_snapshots db !! stream_key c) as [r|] eqn:Hk; [|done]. simpl.
      rewrite (snapshot_current _ _ _ HI Hep Hk), Z.eqb_refl. apply orb_true_iff. right. simpl.
      apply Z.leb_le. unfold upto_update_id, stream_snapshot in HU1.
      rewrite Hk in HU1. simpl in HU1.
      rewrite (snapshot_current _ _ _ HI Hep Hk), Z.eqb_refl in HU1. done. }
  assert (collab_updates db2 = collab_updates db) as Eu by (by rewrite Hup).
  assert (next_update db2 = next_update db) as En by (by rewrite Hup).
  assert (collab_snapshots db2 = <[stream_key c := MkSnapshotRow U (y_encode m) now (cd_content_epoch c)]>
            (collab_snapshots db)) as Es by (rewrite Hup; cbn; by rewrite Ls).
  assert (log_only db1 db2) as Hlo by by rewrite Hup. destruct (log_only_views _ _ Hlo) as (_ & _ & _ & Hlive).
  assert (stream_snapshot c db2 = Some (MkSnapshotRow U (y_encode m) now (cd_content_epoch c))) as Hsn.
  { unfold stream_snapshot. rewrite Es, lookup_insert_eq. simpl. by rewrite Z.eqb_refl. }
  assert (upto_update_id c db2 = U) as HU by (unfold upto_update_id; by rewrite Hsn).
  assert (updates_after c (upto_update_id c db2) db2 = []) as Hdone.
  { rewrite HU. apply elem_of_nil_inv. intros [i u] (Hi & Hu & Hlt)%elem_of_updates_after.
    rewrite Eu in Hi. specialize (Hmax i u Hi Hu). lia. }
  assert (∀ c0, row_ok db c0 → row_ok db2 c0) as Hok.
  { intros c0 Hrow. apply (row_ok_documents db); [| |done].
    - intros p e He. unfold project_content_epoch. rewrite (lo_rows _ _ Hlo).
      rewrite <-(Hes p) in He. done.
    - intros d0 Hd0 Hq0. rewrite (lo_documents _ _ Hlo), Hdocs.
      destruct (decide (cd_document c = cd_document c0)) as [Heq|Hne].
      + rewrite <-Heq in *. rewrite lookup_insert_eq. exists d'. assert (d0 = d) as -> by congruence. split_and!; [done..|lia].
      + rewrite lookup_insert_ne by done. by exists d0. }
  split.
  - split; rewrite ?Eu, ?En, ?Es; [apply HI| | |].
    + intros i u Hi. destruct (si_updates _ HI i u Hi). auto.
    + intros k r [[<- <-]|[_ Hk]]%lookup_insert_Some; cbn.
      * split; [lia|].
        apply Hok. exists d. apply fmap_Some in Hep as (p & Hp & ->). exists p. cbn. split_and!; try done. lia.
      * destruct (si_snapshots _ HI k r Hk). auto.
    + intros k r doc Hk Hdoc Hrev. rewrite (lo_documents _ _ Hlo), Hdocs in Hdoc.
      apply lookup_insert_Some in Hk as [[<- <-]|[Hne Hk]]; cbn in *.
      * rewrite lookup_insert_eq in Hdoc. injection Hdoc as <-.
        destruct (y_encode_new m) as (m' & Hm' & Hmm'). exists m'. split; [done|].
        rewrite Hc. by apply y_text_equiv.
      * destruct (decide (cd_document c = k.1.2)) as [Heq|Hdne].
        -- rewrite <-Heq, lookup_insert_eq in Hdoc. injection Hdoc as <-. exfalso. apply Hne.
           destruct (si_snapshots _ HI k r Hk) as (_ & d0 & p & Hd0 & Hq0 & _). simpl in *.
           destruct k as [[kp kd] kr]. unfold stream_key. simpl in *. subst kd.
           assert (d0 = d) as -> by congruence. f_equal; [f_equal; congruence|congruence].
        -- rewrite lookup_insert_ne in Hdoc by done. by apply (si_text _ HI k r).
  - unfold stream_doc. rewrite Hsn, Hdone. apply merged_doc_encode.
  - done.
  - unfold opened. rewrite Hsn. done.
  - rewrite Hlive. by eapply projected_live.
  - exists d'. rewrite (lo_documents _ _ Hlo), Hdocs, lookup_insert_eq. done.
  - intros c' Hc'. split.
    + intros i u _. by rewrite Eu.
    + unfold stream_snapshot. rewrite Es. destruct (decide (stream_key c = stream_key c')) as [Heq|Hne].
      * assert (cd_content_epoch c ≠ cd_content_epoch c') as Hne by (intros ?; by apply Hc', stream_key_eq).
        rewrite <-Heq, lookup_insert_eq. simpl. rewrite (proj2 (Z.eqb_neq _ _) Hne).
        destruct (collab_snapshots db !! stream_key c) as [r|] eqn:Hk; simpl; [|done].
        rewrite (snapshot_current _ _ _ HI Hep Hk). by rewrite (proj2 (Z.eqb_neq _ _) Hne).
      * by rewrite lookup_insert_ne.
  - by eapply content_step_then_log.
  - done.
  - intros c'. rewrite Hlive. by eapply projected_lives.
  - by rewrite Hsn.
  - done.
Qed.

Lemma compacted_trimmed c m db db1 db2 : compacted c m db db1 → trimmed c db1 db2 → compacted c m db db2.
Proof.
  intros [Hi Hd Hdone Ho Hl Ht Hoth Hcs Hep Hlv Hsn Hnx] Htr. destruct (trimmed_streams _ _ _ Htr) as (Ed & Eo & Eu & Esame).
  pose proof (tr_log _ _ _ Htr) as Hlo. destruct (log_only_views _ _ Hlo) as (_ & _ & _ & Hlive). split.
  - by eapply trimmed_inv.
  - by rewrite Ed.
  - by rewrite Eu.
  - by rewrite Eo.
  - by rewrite Hlive.
  - by rewrite (lo_documents _ _ Hlo).
  - intros c' Hc'. destruct (Hoth c' Hc') as [U1 S1], (Esame c' Hc') as [U2 S2]. split.
    + intros i u Hu. by rewrite U2, U1.
    + by rewrite S2.
  - by eapply content_step_then_log.
  - done.
  - intros c'. by rewrite Hlive.
  - unfold stream_snapshot in *. by rewrite (tr_snapshots _ _ _ Htr).
  - by rewrite (tr_next _ _ _ Htr).
Qed.

(** ** Clearing streams out of use *)

Lemma live_identity c db :
  live c db = true →
  ∃ d, documents db !! cd_document c = Some d ∧ d_project d = cd_project c
       ∧ d_collaboration_revision d = cd_collaboration_revision c
       ∧ project_content_epoch (cd_project c) db = Some (cd_content_epoch c).
Proof.
  intros [Hd He]%andb_true_iff. apply bool_decide_eq_true in Hd as [d Hd]. apply bool_decide_eq_true in He.
  apply find_by_identity_Some in Hd as (? & ? & ?). by exists d.
Qed.

Lemma delete_collaboration_kept P db :
  (∀ c, live c db = true → P (stream_key c) = false) →
  kept db (delete_collaboration P db) ∧ log_only db (delete_collaboration P db).
Proof.
  intros HP. split; [|done]. intros [Hn Hu Hs Ht]. split.
  - split; [done| | |].
    + intros i u [Hi _]%lookup_delete_rows_Some. by apply Hu.
    + intros k r [Hk _]%lookup_delete_rows_Some. by apply Hs.
    + intros k r doc [Hk _]%lookup_delete_rows_Some. by apply Ht.
  - intros c Hc. change (live c db = true) in Hc. apply HP in Hc. split.
    + intros i u <-. etrans; [apply lookup_delete_rows_Some|]. split; [by intros [? _]|]. done.
    + unfold stream_snapshot. f_equal. apply option_eq. intros r.
      etrans; [apply lookup_delete_rows_Some|]. split; [by intros [? _]|]. done.
Qed.

Lemma clear_superseded_kept c db :
  is_document c db = true →
  kept db (clear_superseded_document_revisions c db) ∧ log_only db (clear_superseded_document_revisions c db).
Proof.
  intros [d (Hd & _ & Hr)%find_by_identity_Some]%bool_decide_eq_true. apply delete_collaboration_kept.
  intros c' (d' & Hd' & _ & Hr' & _)%live_identity. apply not_true_is_false.
  intros [[_ Hdoc]%bool_decide_eq_true Hne]%andb_true_iff. cbn in Hdoc, Hne.
  apply negb_true_iff, Z.eqb_neq in Hne. rewrite Hdoc in Hd'. congruence.
Qed.

Lemma clear_document_revision_kept c db :
  is_document c db = false →
  kept db (clear_document_revision c db) ∧ log_only db (clear_document_revision c db).
Proof.
  intros Hno. apply delete_collaboration_kept. intros c' (d' & Hd' & Hq & Hr' & _)%live_identity.
  apply not_true_is_false. intros [[Hp Hdoc]%bool_decide_eq_true Heq]%andb_true_iff. cbn in Hp, Hdoc, Heq.
  apply Z.eqb_eq in Heq. apply not_true_iff_false in Hno. apply Hno. apply bool_decide_eq_true. exists d'.
  apply find_by_identity_Some. rewrite <-Hdoc. split_and!; congruence.
Qed.

(** ** Reconciliation *)

Lemma reconcile_wp {R} (fail : sqlx_error → R) unmergeable c seed E db n :
  (∀ e, E (fail e)) → E unmergeable → StreamInv db →
  wp (reconcile_collaboration_document s now fail update_retention unmergeable c (load_state c db) seed) E
     (λ o db' _, match o with
      | ReconcileCurrent r => ∃ m, rd_snapshot_payload r = y_encode m ∧
          merged_doc (match sr_state_update <$> stream_snapshot c db with Some p => Some p | None => seed end)
            (payloads (updates_after c (upto_update_id c db) db)) = Some m ∧ compacted c m db db'
      | ReconcileContentEpochChanged => db' = db ∧ live c db = false
      | ReconcileDocumentChanged => is_document c db = false ∧ db' = clear_document_revision c db
      end) db n.
Proof.
  intros HE HU HI. unfold reconcile_collaboration_document. cbv zeta.
  change (bs_snapshot_payload (load_state c db)) with (sr_state_update <$> stream_snapshot c db).
  assert ((bs_updates (load_state c db)).*2 = payloads (updates_after c (upto_update_id c db) db)) as ->
    by (unfold load_state, payloads; cbn [bs_updates]; by rewrite <-list_fmap_compose).
  unfold merge_updates. destruct (merged_doc _ _) as [m|] eqn:Hm; simpl; [|by apply wp_early].
  apply wp_bind. eapply wp_mono; [by apply project_collaboration_document_wp|done|].
  intros o db1 n1 Ho.
  assert (projected c (y_text m) db db1 →
    wp (_ ← exec s fail (upsert_snapshot now c (bs_upto_update_id (load_state c db)) (y_encode m));
        _ ← exec s fail (writes (prune_updates update_retention c (bs_upto_update_id (load_state c db))));
        mret (ReconcileCurrent (MkReconciled (y_encode m) (bs_upto_update_id (load_state c db))
                                  (projected_change o)))) E
      (λ o db' _, match o with
      | ReconcileCurrent r => ∃ m', rd_snapshot_payload r = y_encode m' ∧ Some m = Some m'
                                     ∧ compacted c m' db db'
      | ReconcileContentEpochChanged => db' = db ∧ live c db = false
      | ReconcileDocumentChanged => is_document c db = false ∧ db' = clear_document_revision c db
      end) db1 n1) as Hcompact.
  { intros Hpj. apply wp_bind, wp_exec; [done|]. intros [] db2 Hup.
    apply wp_bind, wp_writes; [done|]. apply wp_ret. exists m. split; [done|]. split; [done|].
    eapply compacted_trimmed; [by eapply compaction|]. apply prune_updates_trimmed. }
  destruct o; try (by apply Hcompact).
  - apply wp_ret. done.
  - destruct Ho as [-> Hno]. apply wp_bind, wp_writes; [done|]. by apply wp_ret.
Qed.

(** ** The operations *)

(** A step on the stream [c]: every other stream in use stays as it is. *)
Record collab_step (c : CollaborationDocument) (db db' : WorkspaceDB) : Prop := MkCollabStep {
  co_inv : StreamInv db';
  co_content : content_step (cd_project c) db db';
  co_others : ∀ c', c' ≠ c → live c' db' = true → same_stream c' db db';
}.

(** The canonical text is the text of the stream, with no update pending. *)
Definition settled (c : CollaborationDocument) (db : WorkspaceDB) : Prop :=
  is_Some (stream_snapshot c db) ∧ updates_after c (upto_update_id c db) db = []
  ∧ ∃ d m, documents db !! cd_document c = Some d ∧ stream_doc c db = Some m ∧ d_content d = y_text m.

(** By the invariant a stream with a snapshot and nothing pending is settled. *)
Lemma snapshot_settles c db r :
  StreamInv db → live c db = true → stream_snapshot c db = Some r →
  updates_after c (upto_update_id c db) db = [] →
  ∃ d m, documents db !! cd_document c = Some d ∧ stream_doc c db = Some m ∧ d_content d = y_text m.
Proof.
  intros HI (d & Hd & Hq & Hr & _)%live_identity Hs Hu.
  assert (collab_snapshots db !! stream_key c = Some r) as Hk.
  { unfold stream_snapshot in Hs. apply bind_Some in Hs as (r' & Hk & Hr').
    destruct (_ =? _); [|done]. by injection Hr' as ->. }
  destruct (si_text _ HI _ _ d Hk Hd Hr) as (m & Hm & Ht). exists d, m. split; [done|]. split; [|done].
  unfold stream_doc. rewrite Hs, Hu. unfold merged_doc. simpl. rewrite Hm. done.
Qed.

Lemma compacted_settled c m db db' : compacted c m db db' → settled c db'.
Proof.
  intros [_ Hd Hdone _ _ (d & Hk & Ht) _ _ _ _ Hsn _]. split; [done|]. split; [done|].
  inversion Hd as [m' ? Hm Heq|]. subst. exists d, m'. split_and!; [done|done|].
  rewrite Ht. by apply y_text_equiv.
Qed.

Lemma compacted_collab_step c m db db' : compacted c m db db' → collab_step c db db'.
Proof. intros []. split; [done|done|by auto]. Qed.

Lemma kept_collab_step c db db' :
  StreamInv db → kept db db' → log_only db db' → collab_step c db db'.
Proof.
  intros HI Hk Hlo. destruct (Hk HI) as [HI' Hs]. split; [done| |by auto].
  eapply content_step_then_log; [apply content_step_refl|done].
Qed.

Lemma collab_step_refl c db : StreamInv db → collab_step c db db.
Proof. intros HI. by split; [|apply content_step_refl|]. Qed.

(** A new update, then anything that keeps its stream's document. *)
Lemma collab_step_after c db db1 db2 :
  (∀ c', c' ≠ c → same_stream c' db db1) → log_only db db1 → collab_step c db1 db2 → collab_step c db db2.
Proof.
  intros Hs Hlo [HI Hc Ho]. split; [done|by eapply content_step_after_log|].
  intros c' Hne Hl. destruct (Hs c' Hne) as [U1 S1], (Ho c' Hne Hl) as [U2 S2]. split; [|congruence].
  intros i u Hu. by rewrite U2, U1.
Qed.

(** What an update that was stored has done. *)
Record update_stored (c : CollaborationDocument) (kind : PersistedUpdateKind) (payload : bytes)
    (access_epoch : Z) (db db' : WorkspaceDB) : Prop := MkStored {
  us_step : collab_step c db db';
  us_live : live c db = true;
  us_access : lock_project_access_epoch (cd_project c) access_epoch (access db) = Current;
  us_doc : stream_doc c db' ≡ (stream_doc c db ≫= λ d, y_apply d payload);
  us_live' : live c db' = true;
  us_opened : opened c db' = true;
  us_settled : kind = Sync → settled c db';
  us_next : next_update db' = next_update db + 1;
}.

Lemma insert_update_log now' w db id db' : insert_update now' w db = Ok (id, db') → log_only db db'.
Proof. by intros [_ ->]%insert_update_spec. Qed.

Lemma is_document_true c db :
  is_document c db = true → project_content_epoch (cd_project c) db = Some (cd_content_epoch c) →
  live c db = true ∧ row_ok db c.
Proof.
  intros Hd Hep. split; [apply andb_true_iff; split; [done|by apply bool_decide_eq_true]|].
  apply bool_decide_eq_true in Hd as [d (Hd & Hq & Hr)%find_by_identity_Some].
  apply fmap_Some in Hep as (p & Hp & He). exists d, p. split_and!; [done..|lia|done|done].
Qed.

Lemma persist_update_spec c user kind payload epoch name db r db' :
  StreamInv db →
  persist_update s now update_retention c user kind payload epoch name db = (r, db') →
  (db' = db ∧ ∀ ack, r ≠ Ok (Accepted ack))
  ∨ update_stored c kind payload epoch db db' ∧ ∀ o, r = Ok o → ∃ ack, o = Accepted ack.
Proof.
  intros HI Hrun. unfold persist_update in Hrun. cbv zeta in Hrun. tx_start Hrun; [by left|].
  apply wp_bind, wp_reads; [by left|].
  destruct (lock_project_content_epoch _ _ _) eqn:Hep; [|by apply wp_early; left..].
  apply lock_epoch_current in Hep. apply wp_bind, wp_reads; [by left|].
  destruct (lock_project_access_epoch _ _ _) eqn:Hacc; [|by apply wp_early; left..].
  apply wp_bind, wp_writes; [by left|]. unfold lock_document_updates.
  apply wp_bind, wp_reads; [by left|].
  destruct (is_document c db) eqn:Hdoc; simpl; [|by apply wp_early; left].
  destruct (is_document_true _ _ Hdoc Hep) as [Hlive Hrow].
  apply wp_bind, wp_exec; [by left|]. intros id db1 Hins.
  pose proof (insert_update_doc _ _ _ _ _ HI Hins) as (Hdoc1 & Hopen1 & Hsame). cbn [uw_document uw_payload] in *.
  assert (StreamInv db1) as HI1 by (eapply insert_update_inv; [exact HI| |exact Hins]; exact Hrow).
  pose proof (insert_update_log _ _ _ _ _ Hins) as Hlo.
  assert (next_update db1 = next_update db + 1) as Hnext by (by destruct (insert_update_spec _ _ _ _ _ Hins) as [-> ->]).
  destruct (log_only_views _ _ Hlo) as (_ & _ & _ & Hlive1).
  destruct kind.
  - apply wp_bind, wp_writes; [by left|]. apply wp_ret.
    pose proof (prune_updates_trimmed update_retention c id db1) as Htr.
    set (db2 := prune_updates _ _ _ _) in *. destruct (trimmed_streams _ _ _ Htr) as (Ed & Eo & _ & Esame).
    assert (update_stored c Update payload epoch db db2) as Hst.
    { split; [|done|done| | | |done|].
      - eapply collab_step_after; [exact Hsame|done|]. split; [by eapply trimmed_inv| |by auto].
        eapply content_step_then_log; [apply content_step_refl|apply Htr].
      - by rewrite Ed, Hdoc1.
      - destruct (log_only_views _ _ (tr_log _ _ _ Htr)) as (_ & _ & _ & ->). by rewrite Hlive1.
      - by rewrite Eo.
      - by rewrite (tr_next _ _ _ Htr). }
    split; right; (split; [done|]); [intros o [= <-]; by eexists|done].
  - apply wp_bind, wp_reads; [by left|]. apply wp_bind.
    eapply (wp_mono _ (λ r, db = db ∧ ∀ ack, r ≠ Ok (Accepted ack))); [by apply reconcile_wp| |].
    { intros r0 ?. by left. }
    intros o db2 n2 Ho. destruct o as [cd| |]; [|by apply wp_early; left..]. apply wp_ret.
    destruct Ho as (m & _ & Hm & Hcp).
    assert (stream_doc c db1 = Some m) as Hdoc2.
    { unfold stream_doc. rewrite <-Hm. f_equal. by destruct (sr_state_update <$> stream_snapshot c db1). }
    assert (update_stored c Sync payload epoch db db2) as Hst.
    { split; [|done|done| |apply Hcp|apply Hcp|intros _; by eapply compacted_settled|by rewrite (cp_next _ _ _ _ Hcp)].
      - eapply collab_step_after; [exact Hsame|done|]. by eapply compacted_collab_step.
      - rewrite <-Hdoc1, Hdoc2. apply Hcp. }
    split; right; (split; [done|]); [intros o [= <-]; by eexists|done].
Qed.

(** A block that stops early leaves the database as it is. *)
Ltac aborted := intros; cbv beta; split_and!; solve [done | auto | intros; discriminate].

Lemma reconcile_pending_document_spec c db r db' :
  StreamInv db → reconcile_pending_document s now update_retention c db = (r, db') →
  collab_step c db db'
  ∧ (live c db' = true → stream_doc c db' ≡ stream_doc c db)
  ∧ (live c db' = true → opened c db = true → opened c db' = true)
  ∧ (∀ d, r = Ok (ReconcileCurrent d) → settled c db' ∧ live c db' = true)
  ∧ (∀ o, r = Ok o → live c db' = true → ∃ d, o = ReconcileCurrent d)
  ∧ (∀ c', live c' db' = live c' db).
Proof.
  intros HI Hrun. unfold reconcile_pending_document in Hrun. cbv zeta in Hrun.
  pose proof (collab_step_refl c db HI) as Hrefl.
  tx_start Hrun; [aborted|]. apply wp_bind, wp_reads; [aborted|].
  destruct (lock_project_content_epoch _ _ _) eqn:Hep.
  2,3: assert (live c db = false) as Hl by (apply lock_epoch_not_current; by rewrite Hep);
    apply wp_early; split_and!; intros; first [done|congruence].
  apply wp_bind, wp_writes; [aborted|]. apply wp_bind, wp_reads; [aborted|].
  unfold lock_document_updates. apply wp_bind.
  eapply (wp_mono _ (λ r, ∀ o, r ≠ Ok o)); [by apply reconcile_wp| |].
  { intros r0 Hr0. split_and!; [done..|intros d Hd|intros o Ho|done]; exfalso; by eapply Hr0. }
  intros o db1 n1 Ho. apply wp_ret. destruct o as [cd| |].
  - destruct Ho as (m & _ & Hm & Hcp).
    assert (collab_step c db db1) as Hst by by eapply compacted_collab_step.
    assert (stream_doc c db1 ≡ stream_doc c db) as Hdoc.
    { assert (stream_doc c db = Some m) as ->; [|apply Hcp]. unfold stream_doc. rewrite <-Hm. f_equal.
      by destruct (sr_state_update <$> stream_snapshot c db). }
    assert (settled c db1 ∧ live c db1 = true) as Hset by (split; [by eapply compacted_settled|apply Hcp]).
    assert (opened c db1 = true) as Ho by apply Hcp.
    assert (∀ c', live c' db1 = live c' db) as Hlv by apply Hcp.
    split; split_and!; try done. intros o [= <-] _. by exists cd.
  - destruct Ho as [-> Hl]. split; split_and!; intros; first [done|congruence].
  - destruct Ho as [Hno ->]. destruct (clear_document_revision_kept c db Hno) as [Hk Hlo].
    assert (live c (clear_document_revision c db) = false) as Hl.
    { destruct (log_only_views _ _ Hlo) as (_ & _ & _ & ->). unfold live. by rewrite Hno. }
    assert (collab_step c db (clear_document_revision c db)) as Hst by by apply kept_collab_step.
    assert (∀ c', live c' (clear_document_revision c db) = live c' db) as Hlv by done.
    split; split_and!; intros; first [done|congruence].
Qed.

Lemma bootstrap_transaction_spec c db r db' :
  StreamInv db → bootstrap_transaction s now update_retention c db = (r, db') →
  collab_step c db db'
  ∧ (live c db' = true → opened c db = true → stream_doc c db' ≡ stream_doc c db ∧ opened c db' = true)
  ∧ (live c db' = true → opened c db = false → db' = db ∨ ∃ d, documents db !! cd_document c = Some d
        ∧ stream_doc c db' ≡ Some (y_seed (d_content d)))
  ∧ (∀ state change, r = Ok (state, change) → settled c db' ∧ live c db' = true ∧ opened c db' = true
        ∧ bs_updates state = []
        ∧ ∃ m, bs_snapshot_payload state = Some (y_encode m) ∧ stream_doc c db' ≡ Some m).
Proof.
  intros HI Hrun. unfold bootstrap_transaction in Hrun. cbv zeta in Hrun.
  pose proof (collab_step_refl c db HI) as Hrefl.
  tx_start Hrun; [aborted|]. apply wp_bind, wp_writes; [aborted|].
  unfold lock_document_updates. apply wp_bind, wp_reads; [aborted|].
  destruct (find_by_identity _ _ _ db) as [d|] eqn:Hf; simpl; [|apply wp_early; aborted].
  assert (is_document c db = true) as Hdoc by (unfold is_document; by rewrite Hf).
  destruct (clear_superseded_kept c db Hdoc) as [Hk Hlo]. destruct (Hk HI) as [HI1 Hsame].
  apply wp_bind, wp_writes; [aborted|]. set (db1 := clear_superseded_document_revisions c db) in *.
  apply wp_bind, wp_reads; [aborted|]. apply wp_bind.
  eapply (wp_mono _ (λ r, ∀ o, r ≠ Ok o)); [by apply reconcile_wp| |].
  { intros r0 Hr0. split_and!; auto. intros state change ->. by destruct (Hr0 (state, change)). }
  intros o db2 n2 Ho. destruct o as [cd| |]; [|apply wp_early; aborted..]. apply wp_ret.
  destruct Ho as (m & Hpay & Hm & Hcp).
  assert (collab_step c db db2) as Hst.
  { destruct (compacted_collab_step _ _ _ _ Hcp) as [HI2 Hc2 Ho2]. split; [done| |].
    - by eapply content_step_after_log.
    - intros c' Hne Hl. pose proof (Ho2 c' Hne Hl) as [U2 S2]. rewrite (cp_lives _ _ _ _ Hcp) in Hl.
      destruct (Hsame c' Hl) as [U1 S1]. split; [|congruence]. intros i u Hu. by rewrite U2, U1. }
  assert (live c db1 = true) as Hl1 by (by rewrite <-(cp_lives _ _ _ _ Hcp); apply Hcp).
  destruct (same_stream_doc _ _ _ (Hsame c Hl1)) as [Ed1 Eo1].
  assert (bool_decide (is_Some (bs_snapshot_payload (load_state c db1)))
          || negb (bool_decide (bs_updates (load_state c db1) = [])) = opened c db1) as Hpersisted.
  { unfold opened, load_state. cbn [bs_snapshot_payload bs_updates]. f_equal.
    - apply bool_decide_ext. by rewrite fmap_is_Some.
    - f_equal. apply bool_decide_ext. by destruct (updates_after _ _ _). }
  rewrite Hpersisted, Eo1 in Hm. clear Hpersisted.
  assert (opened c db = true → stream_doc c db2 ≡ stream_doc c db) as Hopen.
  { intros Ho. rewrite Ho in Hm. rewrite <-Ed1. assert (stream_doc c db1 = Some m) as ->; [|apply Hcp].
    unfold stream_doc. rewrite <-Hm. f_equal. by destruct (sr_state_update <$> stream_snapshot c db1). }
  assert (opened c db = false → stream_doc c db2 ≡ Some (y_seed (d_content d))) as Hseed.
  { intros Ho. rewrite Ho in Hm. rewrite <-Eo1 in Ho. unfold opened in Ho. apply orb_false_iff in Ho as [Hs Hu].
    apply bool_decide_eq_false, eq_None_not_Some in Hs. apply negb_false_iff, bool_decide_eq_true in Hu.
    rewrite Hs, Hu in Hm. rewrite (cp_doc _ _ _ _ Hcp), <-Hm. apply merged_doc_encode. }
  apply find_by_identity_Some in Hf as (Hd & _ & _).
  assert (∀ state change, Ok (E := PrepareBootstrapError) (MkState (rd_upto_update_id cd)
                       (Some (rd_snapshot_payload cd)) [] [], rd_workspace_change cd) = Ok (state, change) →
            settled c db2 ∧ live c db2 = true ∧ opened c db2 = true ∧ bs_updates state = []
            ∧ ∃ m, bs_snapshot_payload state = Some (y_encode m) ∧ stream_doc c db2 ≡ Some m) as Hok.
  { intros state change [= <- _]. split_and!; [by eapply compacted_settled|apply Hcp|apply Hcp|done|].
    exists m. cbn. rewrite Hpay. split; [done|apply Hcp]. }
  assert (opened c db2 = true) as Ho2 by apply Hcp.
  split; split_and!; try done; auto; intros _ Ho; right; exists d; auto.
Qed.

Lemma prepare_document_bootstrap_spec c db r db' :
  StreamInv db → prepare_document_bootstrap s now update_retention c db = (r, db') →
  collab_step c db db'
  ∧ (live c db' = true → opened c db = true → stream_doc c db' ≡ stream_doc c db ∧ opened c db' = true)
  ∧ (live c db' = true → opened c db = false → db' = db ∨ ∃ d, documents db !! cd_document c = Some d
        ∧ stream_doc c db' ≡ Some (y_seed (d_content d)))
  ∧ (∀ state, r = Ok state → settled c db' ∧ live c db' = true ∧ opened c db' = true
        ∧ ∃ m, bs_snapshot_payload state = Some (y_encode m) ∧ stream_doc c db' ≡ Some m).
Proof.
  intros HI Hrun. unfold prepare_document_bootstrap in Hrun.
  destruct (bootstrap_transaction s now update_retention c db) as [r0 db0] eqn:E. injection Hrun as <- <-.
  destruct (bootstrap_transaction_spec c db r0 db0 HI E) as (? & ? & ? & Hok). split_and!; [done..|].
  intros state Hs. destruct r0 as [[state0 change]|]; [|done]. injection Hs as ->. destruct (Hok state change eq_refl) as (? & ? & ? & _ & ?). done.
Qed.
End reconcile.
