(* ===== verification/WorkspaceTheorems.v ===== *)
(** * Workspace: theorems

    Reachable tables; the streams hold exactly the accepted updates; the
    canonical text; the access fence on edits; entry files; and what the
    workspace version identifies. *)
From S2P Require Import Prelude Store Text Paths AccessModel AccessGrants AccessSystem AccessSteps.
From S2P Require Import Authorization AuthorizationTheorems WorkspaceModel WorkspaceStatements WorkspaceFiles.
From S2P Require Import WorkspaceProjects Collaboration WorkspaceSystem WorkspaceFrames.
From S2P Require Import WorkspaceEffects WorkspaceSteps WorkspaceImports CollaborationSteps.
From S2P Require Import CollaborationReconcile.

Open Scope Z_scope.

Section theorems.
Context `{YrsLaws} (update_retention : Z).
Implicit Types (db : WorkspaceDB).

(** New projects have an entry file their type accepts: the default one, or
    that of the project they copy. *)
Definition op_ok (op : WorkspaceOp) : Prop :=
  match op with
  | OCreateProject g => accepts_entry_file_path (g_type g) (g_entry_file_path g) = true
  | _ => True
  end.

(** How the document of [c] may change in a step. *)
Inductive stream_change (s : schedule) (now : time) (op : WorkspaceOp) (c : CollaborationDocument)
    (db db' : WorkspaceDB) : Prop :=
| StreamSame :
    stream_doc c db' ≡ stream_doc c db → (opened c db = true → opened c db' = true) →
    (∀ user kind payload epoch name ack, op = OPersistUpdate c user kind payload epoch name →
       (persist_update s now update_retention c user kind payload epoch name db).1 ≠ Ok (Accepted ack)) →
    stream_change s now op c db db'
| StreamEdited user kind payload epoch name :
    op = OPersistUpdate c user kind payload epoch name →
    (∃ ack, (persist_update s now update_retention c user kind payload epoch name db).1
            = Ok (Accepted ack))
    ∨ (∃ e, (persist_update s now update_retention c user kind payload epoch name db).1 = Err e) →
    stream_doc c db' ≡ (stream_doc c db ≫= λ d, y_apply d payload) → opened c db' = true →
    stream_change s now op c db db'
| StreamOpened d :
    op = OBootstrap c → opened c db = false → documents db !! cd_document c = Some d →
    stream_doc c db' ≡ Some (y_seed (d_content d)) →
    stream_change s now op c db db'.

Record system_step (s : schedule) (now : time) (op : WorkspaceOp) (db db' : WorkspaceDB) : Prop := MkSystemStep {
  ss_content : ∃ q, content_step q db db';
  ss_inv : StreamInv db';
  ss_streams : ∀ c, live c db' = true → stream_change s now op c db db';
}.

Lemma op_step_system s now op q db db' :
  StreamInv db → op_step q db db' →
  (∀ c user kind payload epoch name, op ≠ OPersistUpdate c user kind payload epoch name) →
  system_step s now op db db'.
Proof.
  intros HI [Hc Hk] Hop. destruct (Hk HI) as [HI' Hs]. split; [by exists q|done|].
  intros c Hl. destruct (same_stream_doc _ _ _ (Hs c Hl)) as [Hd Ho].
  apply StreamSame; [by rewrite Hd|by rewrite Ho|]. intros * Heq. by destruct (Hop _ _ _ _ _ _ Heq).
Qed.

(** A step on the stream [c0] changes the others in no way. *)
Lemma collab_step_system s now op c0 db db' :
  collab_step c0 db db' →
  (∀ c user kind payload epoch name, op = OPersistUpdate c user kind payload epoch name → c = c0) →
  (live c0 db' = true → stream_change s now op c0 db db') →
  system_step s now op db db'.
Proof.
  intros [HI Hc Ho] Hop Hown. split; [by eexists|done|].
  intros c Hl. destruct (decide (c = c0)) as [->|Hne]; [by apply Hown|].
  destruct (same_stream_doc _ _ _ (Ho c Hne Hl)) as [Hd Hop']. apply StreamSame; [by rewrite Hd|by rewrite Hop'|].
  intros * Heq. by apply Hop in Heq.
Qed.

Lemma run_workspace_step s now op db :
  op_ok op → StreamInv db → system_step s now op db (run_workspace update_retention s now op db).
Proof.
  intros Hok HI. destruct op; simpl.
  - eapply op_step_system; [done| |done]. instantiate (1 := 0%N). split; [|by apply gentle_kept, neutral_gentle].
    split; [by split| |done| |by exists [(s, now, op)]].
    + intros p Hp. exists p. split_and!; [done..|]. right. split_and!; try done. by left.
    + intros e. by left.
  - eapply op_step_system; [done|by apply create_project_step|done].
  - eapply op_step_system; [done|apply create_document_step|done].
  - eapply op_step_system; [done|apply upsert_document_by_path_step|done].
  - eapply op_step_system; [done|apply update_document_step|done].
  - eapply op_step_system; [done|apply delete_document_step|done].
  - eapply op_step_system; [done|apply create_project_file_step|done].
  - eapply op_step_system; [done|apply move_project_file_step|done].
  - eapply op_step_system; [done|apply delete_project_file_step|done].
  - eapply op_step_system; [done|apply upload_project_asset_step|done].
  - eapply op_step_system; [done|apply delete_project_asset_step|done].
  - eapply op_step_system; [done|apply get_or_create_project_settings_step|done].
  - eapply op_step_system; [done|apply change_project_setting_step|done].
  - eapply op_step_system; [done|apply apply_repo_import_step|done].
  - destruct (persist_update _ _ _ _ _ _ _ _ _ db) as [r db'] eqn:Hrun. simpl.
    destruct (persist_update_spec _ _ _ _ _ _ _ _ _ _ _ _ HI Hrun) as [[-> Hr]|[Hst Hr]].
    + eapply (collab_step_system _ _ _ c); [by apply collab_step_refl|by intros * [= <-]|].
      intros _. apply StreamSame; [done|done|]. intros * [= <- <- <- <- <-]. by rewrite Hrun.
    + eapply (collab_step_system _ _ _ c); [apply Hst|by intros * [= <-]|].
      intros _. eapply StreamEdited; [done| |apply Hst|apply Hst]. rewrite Hrun. simpl.
      destruct r as [o|e]; [left|right; by exists e]. destruct (Hr o eq_refl) as [ack ->]. by exists ack.
  - destruct (prepare_document_bootstrap _ _ _ _ db) as [r db'] eqn:Hrun. simpl.
    destruct (prepare_document_bootstrap_spec _ _ _ _ _ _ _ HI Hrun) as (Hst & Hopen & Hnew & Hok').
    eapply (collab_step_system _ _ _ c); [done|done|]. intros Hl. destruct (opened c db) eqn:Ho.
    + destruct (Hopen Hl eq_refl). by apply StreamSame.
    + destruct (Hnew Hl eq_refl) as [->|(d & Hd & Hdoc)]; [by apply StreamSame|]. by eapply StreamOpened.
  - destruct (reconcile_pending_document _ _ _ _ db) as [r db'] eqn:Hrun. simpl.
    destruct (reconcile_pending_document_spec _ _ _ _ _ _ _ HI Hrun) as (Hst & Hdoc & Ho & _).
    eapply (collab_step_system _ _ _ c); [done|done|]. intros Hl. by apply StreamSame; auto.
Qed.

(** ** Reachable tables *)

(** Before the first project. *)
Definition blank (db : WorkspaceDB) : Prop :=
  project_rows db = ∅ ∧ documents db = ∅ ∧ settings db = ∅ ∧ collab_updates db = ∅
  ∧ collab_snapshots db = ∅ ∧ next_update db = 1 ∧ unshared (access db).

Inductive workspace_reachable : WorkspaceDB → Prop :=
| workspace_start db : blank db → workspace_reachable db
| workspace_next s now op db :
    workspace_reachable db → op_ok op →
    workspace_reachable (run_workspace update_retention s now op db).

Abbreviation trace_ok := (Forall (λ sto : schedule * time * WorkspaceOp, op_ok sto.2)).
Abbreviation run_ws := (run_workspace_trace update_retention).

Lemma reachable_inv db :
  workspace_reachable db → StreamInv db ∧ entries_accepted db ∧ AccessInv (access db).
Proof.
  induction 1 as [db (Hr & Hd & Hs & Hu & Hsn & Hn & Hun)|s now op db _ (HI & He & Ha) Hok].
  - split_and!; [| |by apply unshared_Inv].
    + split; rewrite ?Hu, ?Hsn, ?Hn; [lia|..]; intros *; by rewrite lookup_empty.
    + intros p e. unfold find_project_entry_point. by rewrite Hr, lookup_empty.
  - destruct (run_workspace_step s now op db Hok HI) as [[q [Hel _ _ Hacc [trace Ht]]] HI' _].
    split_and!; [done|by eapply entries_accepted_step|]. rewrite Ht. by apply run_trace_step.
Qed.

Lemma trace_reachable trace db :
  workspace_reachable db → trace_ok trace → workspace_reachable (run_ws trace db).
Proof.
  induction trace as [|[[s now] op] trace IH] in db |- *; [done|].
  intros Hr [Hok Ht]%Forall_cons. simpl. apply IH; [|done]. by apply workspace_next.
Qed.

(** ** Streams *)

(** The updates [us] explain a run for the stream [c]: each acknowledged
    update is there, in order, and otherwise only updates whose request ended
    in an error (a commit may be applied and not acknowledged). *)
Inductive explains (c : CollaborationDocument) : workspace_trace → WorkspaceDB → list bytes → Prop :=
| ex_nil db : explains c [] db []
| ex_stored s now user kind payload epoch name trace db us :
    let op := OPersistUpdate c user kind payload epoch name in
    (∃ ack, (persist_update s now update_retention c user kind payload epoch name db).1
            = Ok (Accepted ack))
    ∨ (∃ e, (persist_update s now update_retention c user kind payload epoch name db).1 = Err e) →
    explains c trace (run_workspace update_retention s now op db) us →
    explains c ((s, now, op) :: trace) db (payload :: us)
| ex_silent s now op trace db us :
    (∀ user kind payload epoch name ack, op = OPersistUpdate c user kind payload epoch name →
       (persist_update s now update_retention c user kind payload epoch name db).1 ≠ Ok (Accepted ack)) →
    explains c trace (run_workspace update_retention s now op db) us →
    explains c ((s, now, op) :: trace) db us.

(** The document stays at its revision, in its epoch, after every step. *)
Fixpoint used_throughout (c : CollaborationDocument) (trace : workspace_trace) (db : WorkspaceDB) : bool :=
  match trace with
  | [] => true
  | (s, now, op) :: trace =>
      let db := run_workspace update_retention s now op db in live c db && used_throughout c trace db
  end.

Lemma apply_all_cons d u us : apply_all d (u :: us) = y_apply d u ≫= λ d, apply_all d us.
Proof. apply (apply_all_app d [u] us). Qed.

Lemma bind_apply_all_proper (o o' : option ydoc) us :
  o ≡ o' → (o ≫= λ d, apply_all d us) ≡ (o' ≫= λ d, apply_all d us).
Proof. intros [x y Hxy|]; simpl; [by apply apply_all_proper|done]. Qed.

(** C8: nothing that was accepted is lost and nothing is applied twice: through
    compaction, pruning, bootstraps, projections and failing servers, the
    document a stream stands for is its earlier document with exactly the
    acknowledged updates applied, in order, and possibly updates whose
    acknowledgement was lost. *)
Theorem streams_hold_the_accepted_updates trace db c :
  workspace_reachable db → trace_ok trace →
  opened c db = true → used_throughout c trace db = true →
  ∃ us, explains c trace db us
        ∧ stream_doc c (run_ws trace db) ≡ (stream_doc c db ≫= λ d, apply_all d us).
Proof.
  intros Hr Hok Ho Hused. induction trace as [|[[s now] op] trace IH] in db, Hr, Hok, Ho, Hused |- *.
  { exists []. split; [constructor|]. simpl. by destruct (stream_doc c db). }
  apply Forall_cons in Hok as [Hop Hok]. simpl in Hused, Hop. apply andb_true_iff in Hused as [Hl Hused].
  destruct (reachable_inv _ Hr) as (HI & _).
  destruct (run_workspace_step s now op db Hop HI) as [_ _ Hs].
  simpl. set (db1 := run_workspace update_retention s now op db) in *.
  assert (workspace_reachable db1) as Hr1 by by apply workspace_next.
  destruct (Hs c Hl) as [Hdoc Ho1 Hno|user kind payload epoch name -> Hres Hdoc Ho1|d -> Hc _ _];
    [| |congruence].
  - destruct (IH db1 Hr1 Hok (Ho1 Ho) Hused) as (us & Hex & Hend). exists us.
    split; [by apply ex_silent|]. rewrite Hend. by apply bind_apply_all_proper.
  - destruct (IH db1 Hr1 Hok Ho1 Hused) as (us & Hex & Hend). exists (payload :: us).
    split; [by apply ex_stored|]. rewrite Hend, (bind_apply_all_proper _ _ _ Hdoc).
    destruct (stream_doc c db); [|done]. simpl. by rewrite apply_all_cons.
Qed.

(** C9: the canonical text of a document is the text of its collaboration state
    as soon as no update is waiting to be compacted. *)
Theorem canonical_text_is_the_compacted_text db c :
  workspace_reachable db → live c db = true → is_Some (stream_snapshot c db) →
  updates_after c (upto_update_id c db) db = [] →
  ∃ d m, documents db !! cd_document c = Some d ∧ stream_doc c db = Some m ∧ d_content d = y_text m.
Proof.
  intros (HI & _)%reachable_inv Hl [r Hs] Hu. by eapply snapshot_settles.
Qed.

(** ** Flush *)

(** Compacted: nothing of the stream is waiting for its snapshot. *)
Definition compact (c : CollaborationDocument) (db : WorkspaceDB) : Prop :=
  is_Some (stream_snapshot c db) ∧ updates_after c (upto_update_id c db) db = [].

Lemma same_stream_compact c db db' : same_stream c db db' → compact c db → compact c db'.
Proof.
  intros [Hu Hs] [Hsn Hdone]. unfold compact, upto_update_id in *. rewrite Hs. split; [done|].
  rewrite (updates_after_ext _ _ db db') by auto. done.
Qed.

Lemma compact_settled c db : StreamInv db → live c db = true → compact c db → settled c db.
Proof. intros HI Hl [[r Hs] Hdone]. split; [by exists r|]. split; [done|]. by eapply snapshot_settles. Qed.

(** One document of the list: reconciled if it is [c], as it was otherwise. *)
Lemma reconcile_compacts s now c0 c db o db' :
  StreamInv db → reconcile_pending_document s now update_retention c0 db = (Ok o, db') →
  live c db = true → c = c0 ∨ compact c db → compact c db'.
Proof.
  intros HI Hrun Hl Hc.
  destruct (reconcile_pending_document_spec _ _ _ _ _ _ _ HI Hrun) as ([_ _ Hothers] & _ & _ & Hok & Hcur & Hlives).
  rewrite <-(Hlives c) in Hl. destruct (decide (c = c0)) as [->|Hne].
  - destruct (Hcur o eq_refl Hl) as [d ->]. destruct (Hok d eq_refl) as [(Hs & Hd & _) _]. by split.
  - destruct Hc as [?|Hc]; [done|]. eapply same_stream_compact; [by apply Hothers|done].
Qed.

Lemma flush_documents_compacts schedules now l c db db' :
  StreamInv db → flush_documents schedules now update_retention l db = (Ok (), db') →
  live c db = true → c ∈ l ∨ compact c db →
  StreamInv db' ∧ live c db' = true ∧ compact c db'.
Proof.
  induction l as [|c0 l IH] in schedules, db |- *; intros HI Hrun Hl Hc; simpl in Hrun.
  { injection Hrun as ->. destruct Hc as [Hc|Hc]; [by apply elem_of_nil in Hc|done]. }
  destruct (reconcile_pending_document _ _ _ c0 db) as [[o|e] db1] eqn:H1; [|done].
  destruct (reconcile_pending_document_spec _ _ _ _ _ _ _ HI H1) as (Hst & _ & _ & _ & _ & Hlives).
  apply (IH (λ n, schedules (S n)) db1); [apply Hst|done|by rewrite Hlives|].
  destruct Hc as [[->|Hc]%elem_of_cons|Hc]; [right|by left|right];
    (eapply reconcile_compacts; [done|done|done|by auto]).
Qed.

(** A stream with updates past its snapshot is in the list of the flush. *)
Lemma pending_listed c db i u target :
  collab_updates db !! i = Some u → ur_stream u = c → upto_update_id c db < i →
  latest_project_update_id (cd_project c) db = Some target →
  c ∈ pending_project_documents (cd_project c) target db.
Proof.
  intros Hi Hu Hlt Htarget. unfold pending_project_documents.
  rewrite elem_of_reverse, elem_of_remove_dups, elem_of_reverse, list_elem_of_fmap.
  exists (i, u). split; [done|]. unfold pending_rows. rewrite elem_of_order_by, elem_of_select.
  split; [done|]. unfold is_pending. rewrite Hu, bool_decide_eq_true_2 by done. simpl.
  apply andb_true_iff. split; [|by apply Z.ltb_lt]. apply Z.leb_le.
  unfold latest_project_update_id in Htarget.
  pose proof (last_key_max (select (λ _ u, bool_decide (cd_project (ur_stream u) = cd_project c))
    (collab_updates db)) i u 0) as Hmax. rewrite Htarget in Hmax. apply Hmax.
  apply elem_of_order_by, elem_of_select. split; [done|]. rewrite Hu. by apply bool_decide_eq_true.
Qed.

(** C10: a flush that reports success has worked: every stream in use of the
    project that held anything is compacted, and the canonical text of its
    document, which an export or a Git snapshot reads next, is the text of all
    updates stored before the flush. *)
Theorem flush_settles_every_document schedules now project db db' c :
  workspace_reachable db →
  flush_project_collaboration schedules now update_retention project db = (Ok (), db') →
  cd_project c = project → live c db = true → opened c db = true →
  settled c db'.
Proof.
  intros (HI & _)%reachable_inv Hrun <- Hl Ho. unfold flush_project_collaboration in Hrun.
  assert (∀ i u, (i, u) ∈ updates_after c (upto_update_id c db) db →
    ∃ target, latest_project_update_id (cd_project c) db = Some target) as Hsome.
  { intros i u (Hi & Hu & _)%elem_of_updates_after. unfold latest_project_update_id.
    destruct (last _) as [t|] eqn:Ht; [by exists t|]. exfalso. apply last_None, fmap_nil_inv in Ht.
    apply order_by_nil in Ht. assert ((i, u) ∈ @nil (Z * UpdateRow)) as []%elem_of_nil.
    rewrite <-Ht. apply elem_of_select. split; [done|]. rewrite Hu. by apply bool_decide_eq_true. }
  assert (compact c db ∨ ∃ i u, (i, u) ∈ updates_after c (upto_update_id c db) db) as Hc.
  { destruct (updates_after c (upto_update_id c db) db) as [|[i u] l] eqn:Hu; [left|right; exists i, u; left].
    split; [|done]. unfold opened in Ho. rewrite Hu in Ho.
    apply orb_true_iff in Ho as [Ho|?]; [by apply bool_decide_eq_true in Ho|done]. }
  destruct (latest_project_update_id (cd_project c) db) as [target|] eqn:Ht.
  - destruct (flush_documents_compacts _ _ _ c _ _ HI Hrun Hl) as (HI' & Hl' & Hc').
    + destruct Hc as [Hc|(i & u & (Hi & Hu & Hlt)%elem_of_updates_after)]; [by right|left].
      by eapply pending_listed.
    + by apply compact_settled.
  - injection Hrun as <-. destruct Hc as [Hc|(i & u & Hiu)]; [by apply compact_settled|].
    by destruct (Hsome _ _ Hiu).
Qed.

(** ** The composition with access *)

Lemma trace_access trace db :
  workspace_reachable db → trace_ok trace →
  ∃ accesses, access (run_ws trace db) = run_trace accesses (access db).
Proof.
  induction trace as [|[[s now] op] trace IH] in db |- *; intros Hr Hok; [by exists []|].
  apply Forall_cons in Hok as [Hop Hok]. simpl in Hop. pose proof (proj1 (reachable_inv _ Hr)) as HI.
  destruct (run_workspace_step s now op db Hop HI) as [[q [_ _ _ _ [t1 H1]]] _ _].
  destruct (IH (run_workspace update_retention s now op db)) as [t2 H2]; [by apply workspace_next|done|].
  exists (t1 ++ t2). simpl. rewrite H2, H1. unfold run_trace. by rewrite foldl_app.
Qed.

(** C11: an edit is fenced by access: once any operation has taken a
    credential's access to the project away, a collaboration session that was
    admitted under the epoch of the earlier check stores nothing more. *)
Theorem lost_access_refuses_edits trace s now c user kind payload epoch name db need t credential :
  workspace_reachable db → trace_ok trace →
  project_access_epoch (cd_project c) (access db) = Some epoch →
  capability (cd_project c) need t credential (access db) = true →
  capability (cd_project c) need t credential (access (run_ws trace db)) = false →
  ∃ r, persist_update s now update_retention c user kind payload epoch name (run_ws trace db)
       = (r, run_ws trace db)
       ∧ ∀ ack, r ≠ Ok (Accepted ack).
Proof.
  intros Hr Hok He Hbefore Hafter. destruct (reachable_inv _ Hr) as (_ & _ & HA).
  destruct (trace_access _ _ Hr Hok) as [accesses Ht]. rewrite Ht in Hafter.
  pose proof (lost_capability_advances_epoch _ _ _ _ _ _ HA Hbefore Hafter) as Hadv.
  pose proof (advanced_epoch_refused _ _ _ _ Hadv He) as Hno. rewrite <-Ht in Hno.
  destruct (reachable_inv _ (trace_reachable _ _ Hr Hok)) as (HI & _).
  destruct (persist_update _ _ _ _ _ _ _ _ _ (run_ws trace db)) as [r db'] eqn:Hrun.
  destruct (persist_update_spec _ _ _ _ _ _ _ _ _ _ _ _ HI Hrun) as [[-> Hr']|[[_ _ Ha _ _ _ _ _] _]];
    [by exists r|done].
Qed.

(** ** Entry files *)

(** C23: whatever files are created, moved, deleted or imported, by whom and
    over which server, a project that has its entry file keeps having one, of
    a kind its type compiles. *)
Theorem entry_file_is_never_lost trace db p :
  workspace_reachable db → trace_ok trace → entry_present p db = true →
  entry_present p (run_ws trace db) = true
  ∧ ∀ e, find_project_entry_point p (run_ws trace db) = Some e →
         accepts_entry_file_path (ep_type e) (ep_entry_file_path e) = true.
Proof.
  intros Hr Hok Hp. split.
  2:{ destruct (reachable_inv _ (trace_reachable _ _ Hr Hok)) as (_ & Ha & _). apply Ha. }
  induction trace as [|[[s now] op] trace IH] in db, Hr, Hok, Hp |- *; [done|].
  apply Forall_cons in Hok as [Hop Hok]. simpl in Hop. destruct (reachable_inv _ Hr) as (HI & Ha & _).
  destruct (run_workspace_step s now op db Hop HI) as [[q [Hel _ He _ _]] _ _].
  apply (IH (run_workspace update_retention s now op db)); [by apply workspace_next|done|].
  destruct (decide (p = q)) as [->|Hne]; [by apply He|]. by rewrite (entry_present_elsewhere p q db).
Qed.

(** ** What the workspace version identifies *)

Lemma rows_of_elsewhere {K V} `{Countable K} (owner : K → V → uuid) p (t t' : gmap K V) :
  (∀ k v, owner k v = p → t' !! k = Some v ↔ t !! k = Some v) → rows_of owner p t' = rows_of owner p t.
Proof.
  intros Ht. unfold rows_of. f_equal. apply map_eq. intros k. apply option_eq. intros v.
  rewrite !map_lookup_filter_Some. simpl. naive_solver.
Qed.

(** The snapshot of an untouched project is the same. *)
Lemma snapshot_elsewhere p q db db' :
  elsewhere q db db' → p ≠ q →
  lock_project_content_snapshot p db' = lock_project_content_snapshot p db.
Proof.
  intros [Hr Hs Hd Ha Hi] Hne. unfold lock_project_content_snapshot. rewrite Hr, Hs by done.
  rewrite (rows_of_elsewhere _ p (documents db)), (rows_of_elsewhere _ p (assets db)),
    (rows_of_elsewhere _ p (directories db)); [done|..].
  - intros k v Hk. rewrite Hi; [done|congruence].
  - intros k a Hk. apply Ha. congruence.
  - intros k d Hk. apply Hd. congruence.
Qed.

Lemma snapshot_step q db db' p snapshot :
  content_step q db db' → lock_project_content_snapshot p db = Some snapshot →
  ∃ snapshot', lock_project_content_snapshot p db' = Some snapshot'
    ∧ (snapshot' = snapshot ∨ cs_workspace_version snapshot < cs_workspace_version snapshot').
Proof.
  intros [Hel Hrows _ _ _] Hsn. destruct (decide (p = q)) as [->|Hne].
  2:{ exists snapshot. rewrite (snapshot_elsewhere p q db) by done. auto. }
  unfold lock_project_content_snapshot in *.
  destruct (project_rows db !! q) as [r|] eqn:Hr; [|done]. simpl in Hsn. injection Hsn as <-.
  destruct (Hrows r eq_refl) as (r' & Hr' & Ht & Hcase). rewrite Hr'. simpl. eexists. split; [done|].
  destruct Hcase as [Hlt|(Hd & Ha & Hi & -> & Hentry & Hst)]; [by right|left].
  rewrite Hd, Ha, Hi. unfold find_project_entry_point in Hentry. rewrite Hr, Hr' in Hentry. simpl in Hentry.
  injection Hentry as Hentry. f_equal.
  { by destruct (settings db !! q), (settings db' !! q). }
  destruct Hst as [->|[Hnone Hdef]]; [done|]. rewrite Hnone.
  destruct (p_type r); [done|]. destruct (settings db' !! q); [|done]. simpl in *. by injection Hdef as ->.
Qed.

Lemma snapshot_trace trace db p snapshot :
  workspace_reachable db → trace_ok trace → lock_project_content_snapshot p db = Some snapshot →
  ∃ snapshot', lock_project_content_snapshot p (run_ws trace db) = Some snapshot'
    ∧ (snapshot' = snapshot ∨ cs_workspace_version snapshot < cs_workspace_version snapshot').
Proof.
  induction trace as [|[[s now] op] trace IH] in db, snapshot |- *; intros Hr Hok Hsn.
  { exists snapshot. auto. }
  apply Forall_cons in Hok as [Hop Hok]. simpl in Hop. destruct (reachable_inv _ Hr) as (HI & _).
  destruct (run_workspace_step s now op db Hop HI) as [[q Hc] _ _].
  destruct (snapshot_step _ _ _ _ _ Hc Hsn) as (sn1 & Hsn1 & H1).
  destruct (IH (run_workspace update_retention s now op db) sn1) as (sn2 & Hsn2 & H2);
    [by apply workspace_next|done|done|].
  exists sn2. split; [done|]. destruct H1 as [->|?], H2 as [->|?]; auto; right; lia.
Qed.

(** C24: a replacement of the content that was computed from a snapshot and
    names its workspace version succeeds only where the project still is that
    snapshot, document by document: no concurrent edit of the files, the
    settings or the canonical texts is overwritten. *)
Theorem import_overwrites_no_concurrent_change trace s now c db snapshot v :
  workspace_reachable db → trace_ok trace →
  lock_project_content_snapshot (rc_project c) db = Some snapshot →
  rc_expected_workspace_version c = Some (cs_workspace_version snapshot) →
  (apply_repo_import s now c (run_ws trace db)).1 = Ok v →
  lock_project_content_snapshot (rc_project c) (run_ws trace db) = Some snapshot.
Proof.
  intros Hr Hok Hsn Hexp Hrun.
  destruct (snapshot_trace _ _ _ _ Hr Hok Hsn) as (sn' & Hsn' & [->|Hlt]); [done|exfalso].
  destruct (apply_repo_import_version _ _ _ _ _ Hrun) as (p & Hp & Hv). rewrite Hexp in Hv.
  specialize (Hv _ eq_refl). unfold lock_project_content_snapshot in Hsn'. rewrite Hp in Hsn'. simpl in Hsn'.
  injection Hsn' as <-. simpl in Hlt. lia.
Qed.
End theorems.

(** ** The properties at the small project *)

Lemma created_reachable : workspace_reachable retention created_workspace.
Proof. apply workspace_next; [by apply workspace_start|]. vm_compute. done. Qed.

Lemma opened_reachable : workspace_reachable retention opened_workspace.
Proof. apply workspace_next; [apply created_reachable|done]. Qed.

(** An edit that stays in the log, and a synchronisation that compacts it. *)
Definition editing : workspace_trace :=
  [(healthy, 3, edit Update (lit " draft")); (healthy, 4, edit Sync (lit "!"))].

Lemma streams_hold_the_accepted_updates_witness :
  ∃ us, explains retention main_stream editing opened_workspace us
    ∧ stream_doc main_stream (run_workspace_trace retention editing opened_workspace)
      ≡ (stream_doc main_stream opened_workspace ≫= λ d, apply_all d us).
Proof.
  apply streams_hold_the_accepted_updates; [apply opened_reachable|by repeat constructor|..];
    vm_compute; reflexivity.
Defined.

(** The document the edits have made is the canonical text. *)
Example editing_result :
  d_content <$> documents (run_workspace_trace retention editing opened_workspace) !! main_document
  = Some (lit "= Notes draft!").
Proof. vm_compute. reflexivity. Qed.

Lemma canonical_text_is_the_compacted_text_witness :
  ∃ d m, documents opened_workspace !! cd_document main_stream = Some d
    ∧ stream_doc main_stream opened_workspace = Some m ∧ d_content d = y_text m.
Proof.
  apply (canonical_text_is_the_compacted_text retention); [apply opened_reachable|..].
  - vm_compute. reflexivity.
  - eexists. vm_compute. reflexivity.
  - vm_compute. reflexivity.
Defined.

Lemma flush_settles_every_document_witness :
  settled main_stream
    (flush_project_collaboration (λ _, healthy) 4 retention notes edited_workspace).2.
Proof.
  apply (flush_settles_every_document retention (λ _, healthy) 4 notes edited_workspace).
  - apply workspace_next; [apply opened_reachable|done].
  - vm_compute. reflexivity.
  - done.
  - vm_compute. reflexivity.
  - vm_compute. reflexivity.
Defined.

(** Bob edits through his organization's grant, which is then withdrawn. *)
Definition lab_workspace : WorkspaceDB :=
  run_workspace retention healthy 3 (OAccess (OUpsertOrganization notes lab PermissionWrite bob))
    opened_workspace.
Definition lab_withdrawn : workspace_trace := [(healthy, 4, OAccess (ODeleteOrganization notes lab))].

Lemma lost_access_refuses_edits_witness :
  ∃ r, persist_update healthy 5 retention main_stream (Some bob) Update (lit "!") 1 None
         (run_workspace_trace retention lab_withdrawn lab_workspace)
       = (r, run_workspace_trace retention lab_withdrawn lab_workspace)
       ∧ ∀ ack, r ≠ Ok (Accepted ack).
Proof.
  apply (lost_access_refuses_edits retention _ _ _ _ _ _ _ _ _ _ Write 0 (CUser bob)).
  - apply workspace_next; [apply opened_reachable|done].
  - by repeat constructor.
  - vm_compute. reflexivity.
  - vm_compute. reflexivity.
  - vm_compute. reflexivity.
Defined.

Definition bob_actor : Actor := MkActor (Some bob) None.
(** The entry file is moved, and its old place deleted. *)
Definition reorganising : workspace_trace :=
  [(healthy, 3, OMoveFile notes (lit "main.typ") (lit "book/notes.typ") bob_actor);
   (healthy, 4, ODeleteFile notes (lit "book") bob_actor)].

Lemma entry_file_is_never_lost_witness :
  entry_present notes (run_workspace_trace retention reorganising opened_workspace) = true
  ∧ ∀ e, find_project_entry_point notes (run_workspace_trace retention reorganising opened_workspace) = Some e →
         accepts_entry_file_path (ep_type e) (ep_entry_file_path e) = true.
Proof.
  apply (entry_file_is_never_lost retention); [apply opened_reachable|by repeat constructor|].
  vm_compute. reflexivity.
Defined.

Example reorganised_entry :
  ep_entry_file_path <$> find_project_entry_point notes
    (run_workspace_trace retention reorganising opened_workspace) = Some (lit "book/notes.typ").
Proof. vm_compute. reflexivity. Qed.

(** A pull that was prepared at the snapshot of [opened_workspace], and finds
    another reader of the settings before it. *)
Definition pulled : ReplaceProjectContent :=
  MkReplace notes (Some 1) [MkWorkspaceDocument 60%N (lit "main.typ") (lit "= Pulled")] [] []
    (lit "main.typ") (Some alice) 9.
Definition settings_read : workspace_trace := [(healthy, 3, OReadSettings notes)].
Definition opened_snapshot : ProjectContentSnapshot :=
  MkContentSnapshot 1 0 Typst (lit "main.typ") None {[lit "main.typ" := lit "= Notes"]} ∅ [].

Lemma import_overwrites_no_concurrent_change_witness :
  lock_project_content_snapshot notes (run_workspace_trace retention settings_read opened_workspace)
  = Some opened_snapshot.
Proof.
  apply (import_overwrites_no_concurrent_change retention settings_read healthy 9 pulled
           opened_workspace opened_snapshot 2); [apply opened_reachable|by repeat constructor|..];
    vm_compute; reflexivity.
Defined.

(** Uploading an asset does not look at the documents: the project then has two
    files at one path, and its archive two entries of one name. *)
Definition uploaded_workspace : WorkspaceDB :=
  run_workspace retention healthy 3
    (OUploadAsset 70%N notes (lit "main.typ") 71%N (lit "inline://70") (lit "text/plain") 1
       (Some (lit "x")) bob_actor) opened_workspace.
Lemma upload_duplicates_an_archive_entry :
  archive_entries <$> lock_project_content_snapshot notes uploaded_workspace
  = Some [lit "main.typ"; lit "main.typ"].
Proof. vm_compute. reflexivity. Qed.
