(* ===== verification/Programs.v ===== *)
(** * Programs between transactions

    A handler or worker that runs several transactions and talks to other
    programs in between is a [Prog]: its database steps, each atomic, and its
    questions to the outside (a Git command, another component), whose answers
    nobody promises.  Other programs run between any two of its steps.

    [safe R G I p Q db]: from any state that the others reach from [db] by [R],
    each database step of [p] keeps the invariant [I] and is of the form [G],
    and [p] ends where [Q] holds.  A program that is safe at a state is safe at
    every state that the others take it to. *)
From S2P Require Import Prelude Store Text.

Inductive Prog (DB : Type) (Ev : Type → Type) (A : Type) : Type :=
| Done (a : A)
| Step (X : Type) (q : schedule → time → DB → X * DB) (k : X → Prog DB Ev A)
| Ask (X : Type) (e : Ev X) (k : X → Prog DB Ev A).
Arguments Done {DB Ev A} _.
Arguments Step {DB Ev A X} _ _.
Arguments Ask {DB Ev A X} _ _.

Section programs.
Context {DB : Type} {Ev : Type → Type}.

Fixpoint prog_bind {A B} (k : A → Prog DB Ev B) (p : Prog DB Ev A) : Prog DB Ev B :=
  match p with
  | Done a => k a
  | Step q k' => Step q (λ x, prog_bind k (k' x))
  | Ask e k' => Ask e (λ x, prog_bind k (k' x))
  end.
#[export] Instance prog_ret : MRet (Prog DB Ev) := λ A a, Done a.
#[export] Instance prog_mbind : MBind (Prog DB Ev) := λ A B k p, prog_bind k p.

Definition ask {X} (e : Ev X) : Prog DB Ev X := Ask e Done.
(** A transaction, at the time it runs. *)
Definition transaction {X} (q : schedule → time → DB → X * DB) : Prog DB Ev X := Step q Done.
(** A statement on the pool. *)
Definition statement {X} (q : time → DB → result sqlx_error (X * DB)) : Prog DB Ev (result sqlx_error X) :=
  Step (λ s now, autocommit s 0 (q now)) Done.

(** Rust's [p.await.map_err(fail)?]. *)
Definition try_bind {E F A B} (fail : E → F) (p : Prog DB Ev (result E A))
    (k : A → Prog DB Ev (result F B)) : Prog DB Ev (result F B) :=
  p ≫= λ r, match r with Ok a => k a | Err e => mret (Err (fail e)) end.

Fixpoint prog_for {A} (l : list A) (f : A → Prog DB Ev unit) : Prog DB Ev unit :=
  match l with
  | [] => mret ()
  | x :: l => f x ≫= λ _, prog_for l f
  end.

(** One step, to the rest of the program. *)
Definition prog_step {A} (p : Prog DB Ev A) (db : DB) (p' : Prog DB Ev A) (db' : DB) : Prop :=
  match p with
  | Done _ => False
  | Step q k => ∃ s now, p' = k (q s now db).1 ∧ db' = (q s now db).2
  | Ask e k => ∃ x, p' = k x ∧ db' = db
  end.

(** A run in which nothing else happens and [answer i] answers the [i]-th
    question; the schedule and the time of each step are [s] and [now]. *)
Section runs.
Context (answer : nat → ∀ X, Ev X → X) (s : schedule) (now : time).

Fixpoint run_prog {A} (i : nat) (p : Prog DB Ev A) (db : DB) : A * DB :=
  match p with
  | Done a => (a, db)
  | Step q k => let '(x, db) := q s now db in run_prog i (k x) db
  | Ask e k => run_prog (S i) (k (answer i _ e)) db
  end.
(** Its first [n] steps. *)
Fixpoint run_steps {A} (i n : nat) (p : Prog DB Ev A) (db : DB) : Prog DB Ev A * DB :=
  match n, p with
  | S n, Step q k => let '(x, db) := q s now db in run_steps i n (k x) db
  | S n, Ask e k => run_steps (S i) n (k (answer i _ e)) db
  | _, _ => (p, db)
  end.
Definition runs_to {A} : relation (Prog DB Ev A * DB) := rtc (λ a b, prog_step a.1 a.2 b.1 b.2).

Lemma run_steps_reach {A} i n (p : Prog DB Ev A) db : runs_to (p, db) (run_steps i n p db).
Proof.
  induction n as [|n IH] in i, p, db |- *; [constructor|]. destruct p as [a|X q k|X e k]; simpl; [constructor|..].
  - destruct (q s now db) as [x db'] eqn:E. eapply rtc_l; [|apply IH]. cbn. exists s, now. by rewrite E.
  - eapply rtc_l; [|apply IH]. by exists (answer i X e).
Qed.

Definition finished {A} (p : Prog DB Ev A) : bool := match p with Done _ => true | _ => false end.
Lemma run_steps_S {A} i n (p : Prog DB Ev A) db :
  finished (run_steps i n p db).1 = false →
  prog_step (run_steps i n p db).1 (run_steps i n p db).2 (run_steps i (S n) p db).1 (run_steps i (S n) p db).2.
Proof.
  induction n as [|n IH] in i, p, db |- *; destruct p as [a|X q k|X e k]; try done; intros Hf.
  - exists s, now. simpl. by destruct (q s now db).
  - by exists (answer i X e).
  - change (run_steps i (S (S n)) (Step q k) db) with
      (let '(x, db) := q s now db in run_steps i (S n) (k x) db).
    change (run_steps i (S n) (Step q k) db) with (let '(x, db) := q s now db in run_steps i n (k x) db) in Hf |- *.
    destruct (q s now db) as [x db']. by apply IH.
  - by apply IH.
Qed.
End runs.

(** What an observer sees of a run, whatever the outside answers: [observe]
    picks from the questions and their answers; the steps find databases of
    which [found] holds. *)
Section traces.
Context {O : Type} (observe : ∀ X, Ev X → X → list O) (found : DB → Prop).

Fixpoint traced {A} (p : Prog DB Ev A) (os : list O) (a : A) : Prop :=
  match p with
  | Done b => os = [] ∧ a = b
  | Step q k => ∃ s now db, found db ∧ traced (k (q s now db).1) os a
  | Ask e k => ∃ x os', os = observe _ e x ++ os' ∧ traced (k x) os' a
  end.

Lemma traced_bind {A B} (p : Prog DB Ev A) (k : A → Prog DB Ev B) os b :
  traced (p ≫= k) os b → ∃ os1 os2 a, os = os1 ++ os2 ∧ traced p os1 a ∧ traced (k a) os2 b.
Proof.
  unfold mbind, prog_mbind. induction p as [a|X q k' IH|X e k' IH] in os |- *; simpl.
  - intros Hk. by exists [], os, a.
  - intros (s & now & db & Hf & Hk). destruct (IH _ _ Hk) as (os1 & os2 & a & -> & ? & ?).
    exists os1, os2, a. eauto 10.
  - intros (x & os' & -> & Hk). destruct (IH _ _ Hk) as (os1 & os2 & a & -> & ? & ?).
    exists (observe X e x ++ os1), os2, a. rewrite <-(assoc_L (++)). eauto 10.
Qed.

Lemma traced_try {E F A B} (fail : E → F) (p : Prog DB Ev (result E A)) (k : A → Prog DB Ev (result F B)) os r :
  traced (try_bind fail p k) os r →
  (∃ e, traced p os (Err e) ∧ r = Err (fail e))
  ∨ ∃ os1 os2 a, os = os1 ++ os2 ∧ traced p os1 (Ok a) ∧ traced (k a) os2 r.
Proof.
  intros (os1 & os2 & [a|e] & -> & Hp & Hk)%traced_bind; [right; by exists os1, os2, a|left].
  destruct Hk as [-> ->]. exists e. by rewrite (right_id_L [] (++)).
Qed.

(** Programs of which nothing is seen. *)
Definition unseen {A} (p : Prog DB Ev A) : Prop := ∀ os a, traced p os a → os = [].
Lemma unseen_ret {A} (a : A) : unseen (mret a).
Proof. by intros os b [-> _]. Qed.
Lemma unseen_transaction {X} (q : schedule → time → DB → X * DB) : unseen (transaction q).
Proof. by intros os b (s & now & db & _ & -> & _). Qed.
Lemma unseen_ask {X} (e : Ev X) : (∀ x, observe X e x = []) → unseen (ask e).
Proof. intros He os b (x & os' & -> & -> & _). by rewrite He. Qed.
Lemma unseen_try {E F A B} (fail : E → F) (p : Prog DB Ev (result E A)) (k : A → Prog DB Ev (result F B)) os r :
  unseen p → traced (try_bind fail p k) os r →
  (os = [] ∧ ∃ e, r = Err (fail e)) ∨ ∃ a, traced p [] (Ok a) ∧ traced (k a) os r.
Proof.
  intros Hp [(e & ->%Hp & ->)|(os1 & os2 & a & -> & Ha & Hk)]%traced_try; [left; eauto|right].
  pose proof (Hp _ _ Ha) as ->. by exists a.
Qed.

(** What is seen of a run with given answers. *)
Fixpoint observed {A} (answer : nat → ∀ X, Ev X → X) (s : schedule) (now : time) (i : nat)
    (p : Prog DB Ev A) (db : DB) : list O :=
  match p with
  | Done _ => []
  | Step q k => let '(x, db) := q s now db in observed answer s now i (k x) db
  | Ask e k => let x := answer i _ e in observe _ e x ++ observed answer s now (S i) (k x) db
  end.
Lemma observed_traced {A} answer s now i (p : Prog DB Ev A) db :
  (∀ db, found db) → traced p (observed answer s now i p db) (run_prog answer s now i p db).1.
Proof.
  intros Hf. induction p as [a|X q k IH|X e k IH] in i, db |- *; simpl; [done|..].
  - exists s, now, db. destruct (q s now db) as [x db']. split; [done|]. apply IH.
  - exists (answer i X e). eexists. split; [done|]. apply IH.
Qed.
End traces.

Section safety.
Context (R G : relation DB) `{!PreOrder R} (I : DB → Prop).

Fixpoint safe {A} (p : Prog DB Ev A) (Q : A → DB → Prop) (db : DB) : Prop :=
  match p with
  | Done a => ∀ db', R db db' → I db' → Q a db'
  | Step q k => ∀ db' s now, R db db' → I db' →
      I (q s now db').2 ∧ G db' (q s now db').2 ∧ safe (k (q s now db').1) Q (q s now db').2
  | Ask e k => ∀ x, safe (k x) Q db
  end.

Lemma safe_stable {A} (p : Prog DB Ev A) Q db db' : R db db' → safe p Q db → safe p Q db'.
Proof.
  intros HR. induction p as [a|X q k IH|X e k IH]; simpl.
  - intros HQ db2 H2. apply HQ. by trans db'.
  - intros Hp db2 s now H2. apply Hp. by trans db'.
  - intros Hp x. auto.
Qed.

Lemma safe_weaken {A} (p : Prog DB Ev A) (Q Q' : A → DB → Prop) db :
  safe p Q db → (∀ a db', I db' → Q a db' → Q' a db') → safe p Q' db.
Proof.
  intros Hp HQ. induction p as [a|X q k IH|X e k IH] in db, Hp |- *; simpl in *.
  - eauto.
  - intros db' s now HR HI. destruct (Hp db' s now HR HI) as (? & ? & ?). eauto.
  - eauto.
Qed.

Lemma safe_bind {A B} (p : Prog DB Ev A) (k : A → Prog DB Ev B) Q db :
  safe p (λ a db', safe (k a) Q db') db → I db → safe (p ≫= k) Q db.
Proof.
  intros Hp HI. unfold mbind, prog_mbind. induction p as [a|X q k' IH|X e k' IH] in db, Hp, HI |- *; simpl in *.
  - by apply Hp.
  - intros db' s now HR HI'. destruct (Hp db' s now HR HI') as (? & ? & ?). auto.
  - auto.
Qed.

Lemma safe_ask {X} (e : Ev X) Q db : (∀ x db', R db db' → I db' → Q x db') → safe (ask e) Q db.
Proof. intros HQ x db'. apply HQ. Qed.

Lemma safe_transaction {X} (q : schedule → time → DB → X * DB) Q db :
  (∀ db' s now, R db db' → I db' → I (q s now db').2 ∧ G db' (q s now db').2
     ∧ ∀ db'', R (q s now db').2 db'' → I db'' → Q (q s now db').1 db'') →
  safe (transaction q) Q db.
Proof. intros HQ db' s now HR HI. destruct (HQ db' s now HR HI) as (? & ? & ?). split_and!; auto. Qed.

Lemma safe_ret {A} (a : A) (Q : A → DB → Prop) db :
  (∀ db', R db db' → I db' → Q a db') → safe (mret a) Q db.
Proof. done. Qed.

Lemma safe_step {A} (p p' : Prog DB Ev A) Q db db' :
  safe p Q db → I db → prog_step p db p' db' →
  safe p' Q db' ∧ I db' ∧ (db' = db ∨ G db db').
Proof.
  destruct p as [a|X q k|X e k]; simpl; intros Hp HI; [done|..].
  - intros (s & now & -> & ->). destruct (Hp db s now (reflexivity _) HI) as (? & ? & ?). auto.
  - intros (x & -> & ->). auto.
Qed.

(** *** Triples

    The assertions of a program speak of what the others cannot change. *)
Class Stable (P : DB → Prop) : Prop := stable db db' : R db db' → P db → P db'.

#[export] Instance stable_pure (φ : Prop) : Stable (λ _, φ).
Proof. by intros db db'. Qed.
#[export] Instance stable_and P Q : Stable P → Stable Q → Stable (λ db, P db ∧ Q db).
Proof. intros HP HQ db db' HR [??]. split; by eapply stable. Qed.
#[export] Instance stable_or P Q : Stable P → Stable Q → Stable (λ db, P db ∨ Q db).
Proof. intros HP HQ db db' HR [?|?]; [left|right]; by eapply stable. Qed.
#[export] Instance stable_exists {X} (P : X → DB → Prop) :
  (∀ x, Stable (P x)) → Stable (λ db, ∃ x, P x db).
Proof. intros HP db db' HR [x Hx]. exists x. by eapply stable. Qed.
#[export] Instance stable_result {E A} (P : A → DB → Prop) (F : E → DB → Prop) r :
  (∀ a, Stable (P a)) → (∀ e, Stable (F e)) →
  Stable (λ db, match r with Ok a => P a db | Err e => F e db end).
Proof. intros HP HF db db' HR. destruct r; by apply stable. Qed.

Definition triple {A} (P : DB → Prop) (p : Prog DB Ev A) (Q : A → DB → Prop) : Prop :=
  ∀ db, I db → P db → safe p Q db.

Lemma triple_ret {A} (a : A) P Q :
  Stable P → (∀ db, I db → P db → Q a db) → triple P (mret a) Q.
Proof. intros HP HQ db HI Hp db' HR HI'. apply HQ; [done|]. by eapply stable. Qed.

Lemma triple_bind {A B} (p : Prog DB Ev A) (k : A → Prog DB Ev B) P M Q :
  triple P p M → (∀ a, triple (M a) (k a) Q) → triple P (p ≫= k) Q.
Proof.
  intros Hp Hk db HI HP. apply safe_bind; [|done]. eapply safe_weaken; [by apply Hp|].
  intros a db' HI' HM. by apply Hk.
Qed.

Lemma triple_conseq {A} (p : Prog DB Ev A) (P P' : DB → Prop) (Q Q' : A → DB → Prop) :
  triple P p Q → (∀ db, I db → P' db → P db) → (∀ a db, I db → Q a db → Q' a db) → triple P' p Q'.
Proof. intros Hp HP HQ db HI HP'. eapply safe_weaken; [by apply Hp, HP|]. auto. Qed.

Lemma triple_pre {A} (p : Prog DB Ev A) (P P' : DB → Prop) Q :
  (∀ db, I db → P' db → P db) → triple P p Q → triple P' p Q.
Proof. intros HP Hp. by eapply triple_conseq. Qed.

Lemma triple_try {E F A B} (fail : E → F) (p : Prog DB Ev (result E A))
    (k : A → Prog DB Ev (result F B)) P (M : A → DB → Prop) (N : E → DB → Prop) Q :
  triple P p (λ r db, match r with Ok a => M a db | Err e => N e db end) →
  (∀ e, Stable (N e)) → (∀ e db, I db → N e db → Q (Err (fail e)) db) →
  (∀ a, triple (M a) (k a) Q) → triple P (try_bind fail p k) Q.
Proof.
  intros Hp HN HE Hk. eapply triple_bind; [exact Hp|]. intros [a|e]; [apply Hk|].
  apply triple_ret; [done|]. intros db. apply HE.
Qed.

Lemma triple_ask {X} (e : Ev X) P (Q : X → DB → Prop) :
  Stable P → (∀ x db, I db → P db → Q x db) → triple P (ask e) Q.
Proof. intros HP HQ db HI Hp x db' HR HI'. apply HQ; [done|]. by eapply stable. Qed.

Lemma triple_transaction {X} (q : schedule → time → DB → X * DB) P (Q : X → DB → Prop) :
  Stable P → (∀ x, Stable (Q x)) →
  (∀ db s now, I db → P db → I (q s now db).2 ∧ G db (q s now db).2 ∧ Q (q s now db).1 (q s now db).2) →
  triple P (transaction q) Q.
Proof.
  intros HP HQ Hq db HI Hp. apply safe_transaction. intros db' s now HR HI'.
  destruct (Hq db' s now HI') as (? & ? & ?); [by eapply stable|]. split_and!; [done..|].
  intros db'' HR' _. by eapply stable.
Qed.

Lemma triple_ask_then {X A} (e : Ev X) P (k : X → Prog DB Ev A) Q :
  Stable P → (∀ x, triple P (k x) Q) → triple P (ask e ≫= k) Q.
Proof. intros HP Hk. eapply triple_bind; [|exact Hk]. by apply triple_ask. Qed.

(** Work that keeps an assertion; [ψ] tells what it returns. *)
Definition keeps {A} (P : DB → Prop) (p : Prog DB Ev A) (ψ : A → Prop) : Prop :=
  triple P p (λ a db, ψ a ∧ P db).

Lemma work_ret {A} (a : A) P (ψ : A → Prop) : Stable P → ψ a → keeps P (mret a) ψ.
Proof. intros HP Ha. by apply triple_ret. Qed.
Lemma keeps_ask {X} (e : Ev X) P : Stable P → keeps P (ask e) (λ _, True).
Proof. intros HP. by apply triple_ask. Qed.
Lemma work_bind {A B} (p : Prog DB Ev A) (k : A → Prog DB Ev B) P ψ φ :
  keeps P p ψ → (∀ a, ψ a → keeps P (k a) φ) → keeps P (p ≫= k) φ.
Proof. intros Hp Hk. eapply triple_bind; [exact Hp|]. intros a db HI [Hψ HP]. by apply Hk. Qed.
Lemma keeps_try {E F A B} (fail : E → F) (p : Prog DB Ev (result E A)) (k : A → Prog DB Ev (result F B)) P ψ φ :
  Stable P → keeps P p ψ → (∀ e, ψ (Err e) → φ (Err (fail e))) → (∀ a, ψ (Ok a) → keeps P (k a) φ) →
  keeps P (try_bind fail p k) φ.
Proof.
  intros HP Hp He Hk. eapply work_bind; [exact Hp|]. intros [a|e] Hψ; [by apply Hk|apply work_ret; auto].
Qed.
Lemma keeps_triple {A} (p : Prog DB Ev A) P ψ : keeps P p ψ → triple P p (λ _, P).
Proof. intros Hp. eapply triple_conseq; [exact Hp|by intros|by intros ? ? _ []]. Qed.

Context (HG : ∀ db, I db → G db db).

Lemma keeps_reads {X} (f : DB → X) P : Stable P → keeps P (statement (λ _, reads f)) (λ _, True).
Proof.
  intros HP. apply triple_transaction; [done|apply _|]. intros db s now HI Hp.
  unfold autocommit, reads. destruct (s 0%nat); simpl; auto.
Qed.

Lemma triple_reads {X} (f : DB → X) P (M : X → DB → Prop) (N : sqlx_error → DB → Prop) :
  Stable P → (∀ x, Stable (M x)) → (∀ e, Stable (N e)) →
  (∀ db, I db → P db → M (f db) db) → (∀ e db, I db → P db → N e db) →
  triple P (statement (λ _, reads f)) (λ r db, match r with Ok x => M x db | Err e => N e db end).
Proof.
  intros HP HM HN HQ HE. apply triple_transaction; [done|by intros []|].
  intros db s now HI Hp. unfold autocommit, reads. destruct (s 0%nat); simpl; auto.
Qed.

Lemma triple_writes (f : time → DB → DB) P (M N : DB → Prop) :
  Stable P → Stable M → Stable N →
  (∀ db now, I db → P db → I (f now db) ∧ G db (f now db) ∧ M (f now db) ∧ N (f now db)) →
  (∀ db, I db → P db → N db) →
  triple P (statement (λ now, writes (f now)))
    (λ r db, match r with Ok _ => M db | Err _ => N db end).
Proof.
  intros HP HM HN Hf HE. apply triple_transaction; [done|by intros []|].
  intros db s now HI Hp. destruct (Hf db now HI Hp) as (? & ? & ? & ?).
  unfold autocommit, writes. destruct (s 0%nat); simpl; auto.
Qed.

Lemma triple_for {A} (l : list A) (f : A → Prog DB Ev unit) P :
  Stable P → (∀ x, triple P (f x) (λ _, P)) → triple P (prog_for l f) (λ _, P).
Proof.
  intros HP Hf. induction l as [|x l IH]; simpl; [by apply triple_ret|].
  by eapply triple_bind; [apply Hf|].
Qed.
End safety.

(** An invariant that the others keep need not be assumed of them. *)
Lemma safe_invariant (R G : relation DB) `{!PreOrder R} (I : DB → Prop) {A} (p : Prog DB Ev A) Q db :
  (∀ db db', R db db' → I db → I db') → safe R G I p Q db → I db →
  safe R (λ _ _, True) (λ _, True) p (λ a db', Q a db' ∧ I db') db.
Proof.
  intros HR. induction p as [a|X q k IH|X e k IH] in db |- *; simpl; intros Hp HI.
  - intros db' Hd _. split; [apply Hp|]; eauto.
  - intros db' s now Hd _. destruct (Hp db' s now Hd) as (? & ? & ?); [by eapply HR|]. auto.
  - intros x. auto.
Qed.
(** A run of a program between the steps [R] of the others, with the states it
    passes. *)
Inductive run_among (R : relation DB) {A} : Prog DB Ev A → DB → list DB → Prog DB Ev A → DB → Prop :=
| among_here p db : run_among R p db [db] p db
| among_own p db p1 db1 dbs p' db' :
    prog_step p db p1 db1 → run_among R p1 db1 dbs p' db' → run_among R p db (db :: dbs) p' db'
| among_others p db db1 dbs p' db' :
    R db db1 → run_among R p db1 dbs p' db' → run_among R p db (db :: dbs) p' db'.

Lemma run_among_head R {A} (p p' : Prog DB Ev A) db dbs db' : run_among R p db dbs p' db' → db ∈ dbs.
Proof. by destruct 1; left. Qed.

(** What a program may rely on may speak of the states that the run passes. *)
Lemma run_among_safe R (R' G : relation DB) `{!PreOrder R'} (I : DB → Prop) {A} (p p' : Prog DB Ev A) Q db dbs db' :
  run_among R p db dbs p' db' → (∀ db1 db2, db2 ∈ dbs → R db1 db2 → R' db1 db2) →
  (∀ db1 db2, R' db1 db2 → I db1 → I db2) →
  I db → safe R' G I p Q db → I db' ∧ safe R' G I p' Q db'.
Proof.
  intros Hrun HR HK. induction Hrun as [p db|p db p1 db1 dbs p' db' Hst Hrun IH|p db db1 dbs p' db' Ho Hrun IH]; intros HI Hs.
  - done.
  - destruct (safe_step R' G I p p1 Q db db1 Hs HI Hst) as (Hs1 & HI1 & _).
    apply IH; [|done..]. intros db2 db3 Hin. apply HR. by right.
  - assert (HR' : R' db db1) by (apply HR; [right; by eapply run_among_head|done]).
    apply IH; [|by eapply HK|by eapply safe_stable]. intros db2 db3 Hin. apply HR. by right.
Qed.
Lemma run_among_result R (R' G : relation DB) `{!PreOrder R'} (I : DB → Prop) {A} (p : Prog DB Ev A) a Q db dbs db' :
  run_among R p db dbs (Done a) db' → (∀ db1 db2, db2 ∈ dbs → R db1 db2 → R' db1 db2) →
  (∀ db1 db2, R' db1 db2 → I db1 → I db2) → I db → safe R' G I p Q db → I db' ∧ Q a db'.
Proof.
  intros Hrun HR HK HI Hs. destruct (run_among_safe R R' G I p (Done a) Q db dbs db') as [HI' Hs']; [done..|].
  split; [done|]. by apply Hs'.
Qed.

Lemma run_among_steps R {A} (p p' : Prog DB Ev A) db db' :
  runs_to (p, db) (p', db') → ∃ dbs, run_among R p db dbs p' db'.
Proof.
  intros Hr. remember (p, db) as x eqn:Ex. remember (p', db') as z eqn:Ez.
  revert p db Ex. induction Hr as [x|x [p1 db1] z' Hxy _ IH]; intros p db ->; subst.
  - injection Ez as <- <-. eexists. apply among_here.
  - destruct (IH eq_refl p1 db1 eq_refl) as [dbs ?]. exists (db :: dbs). by eapply among_own.
Qed.

(** A run to the end of a sequence goes through the end of its first part. *)
Lemma run_among_bind R {A B} (p : Prog DB Ev A) (k : A → Prog DB Ev B) db dbs b db' :
  run_among R (p ≫= k) db dbs (Done b) db' →
  ∃ a dbs1 dbs2 db1, run_among R p db dbs1 (Done a) db1 ∧ run_among R (k a) db1 dbs2 (Done b) db'
    ∧ dbs1 ⊆ dbs ∧ dbs2 ⊆ dbs.
Proof.
  remember (p ≫= k) as pk eqn:Epk. remember (Done b) as pb eqn:Eb. intros Hrun. revert p Epk Eb.
  assert (Hdone : ∀ p db dbs db' pk, run_among R pk db dbs (Done b) db' → (∃ a, p = Done a) → pk = p ≫= k →
    ∃ a dbs1 dbs2 db1, run_among R p db dbs1 (Done a) db1 ∧ run_among R (k a) db1 dbs2 (Done b) db'
      ∧ dbs1 ⊆ dbs ∧ dbs2 ⊆ dbs).
  { intros p db0 dbs0 db1 pk0 Hr [a ->] ->. exists a, [db0], dbs0, db0.
    split_and!; [apply among_here|exact Hr| |done]. intros ? ->%list_elem_of_singleton. by eapply run_among_head. }
  induction Hrun as [pk db|pk db p1 db1 dbs p' db' Hst Hrun IH|pk db db1 dbs p' db' Ho Hrun IH]; intros p Epk Eb.
  - rewrite Eb in Epk |- *. apply (Hdone p _ _ _ (Done b)); [apply among_here| |done].
    destruct p as [a|X q k0|X e k0]; [by exists a|discriminate..].
  - subst p'. destruct p as [a|X q k0|X e k0].
    + apply (Hdone (Done a) _ _ _ pk); [by eapply among_own|by exists a|done].
    + subst pk. destruct Hst as (s & now & -> & ->).
      destruct (IH (k0 (q s now db).1) eq_refl eq_refl) as (a & dbs1 & dbs2 & dbm & H1 & H2 & Hs1 & Hs2).
      exists a, (db :: dbs1), dbs2, dbm. split_and!; [|done|set_solver..]. eapply among_own; [|exact H1]. by exists s, now.
    + subst pk. destruct Hst as (x & -> & ->).
      destruct (IH (k0 x) eq_refl eq_refl) as (a & dbs1 & dbs2 & dbm & H1 & H2 & Hs1 & Hs2).
      exists a, (db :: dbs1), dbs2, dbm. split_and!; [|done|set_solver..]. eapply among_own; [|exact H1]. by exists x.
  - destruct (IH p Epk Eb) as (a & dbs1 & dbs2 & dbm & H1 & H2 & Hs1 & Hs2).
    exists a, (db :: dbs1), dbs2, dbm. split_and!; [by eapply among_others|done|set_solver..].
Qed.
Lemma run_among_done R {A} (a b : A) db dbs db' : run_among R (Done a) db dbs (Done b) db' → a = b.
Proof.
  remember (Done a) as p eqn:Ep. remember (Done b) as p' eqn:Ep'. intros Hr.
  induction Hr as [p db|p db p1 db1 dbs p' db' Hst|p db db1 dbs p' db' Ho Hr IH]; [congruence|by subst|auto].
Qed.
Lemma run_among_try R {E F A B} (fail : E → F) (p : Prog DB Ev (result E A)) (k : A → Prog DB Ev (result F B)) db dbs b db' :
  run_among R (try_bind fail p k) db dbs (Done (Ok b)) db' →
  ∃ a dbs1 dbs2 db1, run_among R p db dbs1 (Done (Ok a)) db1 ∧ run_among R (k a) db1 dbs2 (Done (Ok b)) db'
    ∧ dbs1 ⊆ dbs ∧ dbs2 ⊆ dbs.
Proof.
  intros ([a|e] & dbs1 & dbs2 & db1 & H1 & H2 & Hs1 & Hs2)%run_among_bind; [by exists a, dbs1, dbs2, db1|].
  by apply run_among_done in H2.
Qed.
End programs.

Notation "x ←? p | fail ; k" := (try_bind fail p (λ x, k))
  (at level 100, p at level 99, fail at level 99, k at level 200, right associativity) : stdpp_scope.
