(* ===== verification/RevisionTransfer.v ===== *)
(** * Versioning: transfers of revisions

    versioning::revision_transfer, ::revision_documents and
    workspace::revision_paths: a revision is sent as a whole or as its
    difference to a content the browser already has, whichever is estimated to
    be smaller; the browser applies it with [applyRevisionTransfer]
    (web/src/pages/workspace/revisions.ts).  The repository is what git2 shows
    of it: the blobs of a commit in the order of the tree walk, and the paths a
    tree diff mentions. *)
From S2P Require Import Prelude Store Text Paths WorkspaceModel.

Open Scope Z_scope.

(** ** The repository *)

(** A blob and its path, none where the name is not UTF-8. *)
Record GitBlob : Type := MkGitBlob { bl_path : option text; bl_content : bytes }.
(** The two sides of a delta of a diff. *)
Record DiffDelta : Type := MkDelta { dl_old_path : option text; dl_new_path : option text }.

(** The content of the blob at a path. *)
Definition blob_at (commit : list GitBlob) (path : text) : option bytes :=
  bl_content <$> head (filter (λ blob, bl_path blob = Some path) commit).

Record RepositoryView : Type := MkView {
  rv_commits : gmap N (list GitBlob);
  rv_branch : option N }.

Inductive RevisionTransferMode : Type := TransferFull | TransferDelta.
#[export] Instance RevisionTransferMode_eq_dec : EqDecision RevisionTransferMode.
Proof. solve_decision. Defined.
Inductive RevisionBaseAnchor : Type := BaseNone | BaseLive | BaseRevision.
Inductive RevisionTransferError : Type :=
| InvalidRevisionId
| RevisionNotFound (revision_id : text)
| TransferGit
| TransferInvalidPath (path : text)
| InvalidDocumentEncoding (path : text).

Record RevisionDocument : Type := MkRevisionDocument { rd_path : text; rd_content : text }.
(** The bytes travel as base64. *)
Record RevisionAsset : Type := MkRevisionAsset {
  ra_path : text; ra_content_type : text; ra_size_bytes : Z; ra_content : bytes }.
Record RevisionTransfer : Type := MkTransfer {
  rt_revision_id : text;
  rt_entry_file_path : text;
  rt_transfer_mode : RevisionTransferMode;
  rt_base_anchor : RevisionBaseAnchor;
  rt_base_revision_id : option text;
  rt_nodes : list ProjectFileNode;
  rt_documents : list RevisionDocument;
  rt_deleted_documents : list text;
  rt_assets : list RevisionAsset;
  rt_deleted_assets : list text }.

Inductive RevisionAnchorKind : Type := AnchorNone | AnchorLive | AnchorRevision (id : text).
Inductive CommitPathKind : Type := PathDocument | PathAsset.
Record CommitPathMeta : Type := MkPathMeta {
  cpm_kind : CommitPathKind; cpm_content_type : text; cpm_size_bytes : Z }.
Record CommitManifest : Type := MkManifest {
  cm_files : gmap text CommitPathMeta; cm_directories : gset text }.
Record RevisionTransferCandidate : Type := MkCandidate {
  rc_transfer_mode : RevisionTransferMode;
  rc_anchor_kind : RevisionAnchorKind;
  rc_document_paths : list text;
  rc_deleted_documents : list text;
  rc_asset_paths : list text;
  rc_deleted_assets : list text;
  rc_estimated_bytes : Z }.
Record PreparedRevisionTransfer : Type := MkPrepared {
  pt_target_manifest : CommitManifest;
  pt_nodes : list ProjectFileNode;
  pt_candidates : list RevisionTransferCandidate;
  pt_live_base_context : option (CommitManifest * gset text) }.

#[export] Instance RevisionTransferCandidate_eta : Eta RevisionTransferCandidate := λ c,
  MkCandidate (rc_transfer_mode c) (rc_anchor_kind c) (rc_document_paths c) (rc_deleted_documents c)
    (rc_asset_paths c) (rc_deleted_assets c) (rc_estimated_bytes c).
#[export] Instance PreparedRevisionTransfer_eta : Eta PreparedRevisionTransfer := λ p,
  MkPrepared (pt_target_manifest p) (pt_nodes p) (pt_candidates p) (pt_live_base_context p).

(** [usize] addition that stops at the maximum. *)
Definition usize_add (a b : Z) : Z := Z.min u64_max (a + b).
Definition text_bytes (t : text) : Z := Z.of_N (str_len t).
Definition estimate_asset_b64_bytes (size_bytes : Z) : Z := (Z.max size_bytes 0 + 2) / 3 * 4.

Section transfer.
(** The crate mime_guess. *)
Context (guess_content_type : text → text).
(** git2: reading an identifier, writing one, and the deltas between two trees. *)
Context (oid_from_str : text → option N) (oid_to_string : N → text).
Context (diff_tree_to_tree : list GitBlob → list GitBlob → option (list DiffDelta)).

Definition path_meta (path : text) : CommitPathMeta :=
  MkPathMeta (if is_document_text_path path then PathDocument else PathAsset)
    (guess_content_type path) 0.

Fixpoint load_commit_manifest_into (blobs : list GitBlob) (manifest : CommitManifest) :
    result RevisionTransferError CommitManifest :=
  match blobs with
  | [] => Ok manifest
  | blob :: blobs =>
      match bl_path blob with
      | None => load_commit_manifest_into blobs manifest
      | Some raw_path =>
          match sanitize_project_path raw_path with
          | Err _ => Err (TransferInvalidPath raw_path)
          | Ok clean_path =>
              load_commit_manifest_into blobs
                (MkManifest (<[clean_path := path_meta clean_path]> (cm_files manifest))
                   (collect_parent_directories clean_path (cm_directories manifest)))
          end
      end
  end.
Definition load_commit_manifest (commit : list GitBlob) : result RevisionTransferError CommitManifest :=
  load_commit_manifest_into commit (MkManifest ∅ ∅).

Definition clean_delta_path (path : option text) : gset text :=
  match path with
  | Some path => match sanitize_project_path path with Ok clean => {[clean]} | Err _ => ∅ end
  | None => ∅
  end.
Definition diff_changed_paths_between (base target : list GitBlob) : result RevisionTransferError (gset text) :=
  match diff_tree_to_tree base target with
  | None => Err TransferGit
  | Some deltas =>
      Ok (foldl (λ out delta, clean_delta_path (dl_new_path delta)
                              ∪ (clean_delta_path (dl_old_path delta) ∪ out)) ∅ deltas)
  end.

(** One file of the target, in either branch of [build_transfer_candidate]. *)
Definition add_target_path (path : text) (meta : CommitPathMeta) (c : RevisionTransferCandidate) :
    RevisionTransferCandidate :=
  match cpm_kind meta with
  | PathDocument =>
      let approx_doc_bytes := Z.max (Z.max (cpm_size_bytes meta) 0) 1024 in
      c <| rc_estimated_bytes :=
             usize_add (usize_add (usize_add (rc_estimated_bytes c) (text_bytes path)) approx_doc_bytes) 24 |>
        <| rc_document_paths := rc_document_paths c ++ [path] |>
  | PathAsset =>
      let approx_asset_bytes := Z.max (estimate_asset_b64_bytes (cpm_size_bytes meta)) (256 * 1024) in
      c <| rc_estimated_bytes :=
             usize_add (usize_add (usize_add (usize_add (rc_estimated_bytes c) (text_bytes path))
               (text_bytes (cpm_content_type meta))) approx_asset_bytes) 32 |>
        <| rc_asset_paths := rc_asset_paths c ++ [path] |>
  end.
Definition add_deleted_path (path : text) (c : RevisionTransferCandidate) : RevisionTransferCandidate :=
  let c := c <| rc_estimated_bytes := usize_add (usize_add (rc_estimated_bytes c) (text_bytes path)) 12 |> in
  if is_document_text_path path
  then c <| rc_deleted_documents := rc_deleted_documents c ++ [path] |>
  else c <| rc_deleted_assets := rc_deleted_assets c ++ [path] |>.
Definition add_changed_path (manifest : CommitManifest) (c : RevisionTransferCandidate) (path : text) :
    RevisionTransferCandidate :=
  match cm_files manifest !! path with
  | Some meta => add_target_path path meta c
  | None => add_deleted_path path c
  end.
Definition add_present_path (manifest : CommitManifest) (c : RevisionTransferCandidate) (path : text) :
    RevisionTransferCandidate :=
  match cm_files manifest !! path with
  | Some meta => add_target_path path meta c
  | None => c
  end.

Definition build_transfer_candidate (target_manifest : CommitManifest)
    (changed_paths : option (gset text)) (anchor_kind : RevisionAnchorKind) : RevisionTransferCandidate :=
  match changed_paths with
  | Some paths =>
      foldl (add_changed_path target_manifest)
        (MkCandidate TransferDelta anchor_kind [] [] [] [] 0) (sort_text (elements paths))
  | None =>
      foldl (add_present_path target_manifest)
        (MkCandidate TransferFull anchor_kind [] [] [] [] 0)
        (sort_text (elements (dom (cm_files target_manifest))))
  end.

Fixpoint file_nodes (paths : list text) (acc : gset text * list ProjectFileNode) :
    result RevisionTransferError (gset text * list ProjectFileNode) :=
  match paths with
  | [] => Ok acc
  | path :: paths =>
      match sanitize_project_path path with
      | Err _ => Err (TransferInvalidPath path)
      | Ok clean => file_nodes paths (collect_parent_directories clean acc.1, acc.2 ++ [Node clean File])
      end
  end.
Fixpoint clean_directories (paths : list text) (dirs : gset text) : result RevisionTransferError (gset text) :=
  match paths with
  | [] => Ok dirs
  | dir :: paths =>
      match sanitize_project_path dir with
      | Err _ => Err (TransferInvalidPath dir)
      | Ok clean => clean_directories paths ({[clean]} ∪ dirs)
      end
  end.
Definition build_nodes_from_manifest (target_manifest : CommitManifest) :
    result RevisionTransferError (list ProjectFileNode) :=
  files ← file_nodes (elements (dom (cm_files target_manifest))) (∅, []);
  dirs ← clean_directories (elements (cm_directories target_manifest)) files.1;
  Ok (dedup_nodes (stable_sort node_le
        (files.2 ++ ((λ dir, Node dir Directory) <$> elements dirs)))).

(** [tree.get_path] and [find_blob]. *)
Definition load_blob_bytes_at_path (commit : list GitBlob) (path : text) : result RevisionTransferError bytes :=
  ok_or (blob_at commit path) TransferGit.

Definition find_revision (view : RepositoryView) (revision_id : text) :
    result RevisionTransferError (list GitBlob) :=
  match oid_from_str revision_id with
  | None => Err InvalidRevisionId
  | Some oid => ok_or (rv_commits view !! oid) (RevisionNotFound revision_id)
  end.

(** The commit of the default branch, if it has one. *)
Definition head_commit (view : RepositoryView) : option (N * list GitBlob) :=
  oid ← rv_branch view; commit ← rv_commits view !! oid; Some (oid, commit).

Definition is_anchored_at (id : text) (c : RevisionTransferCandidate) : bool :=
  match rc_anchor_kind c with AnchorRevision existing => text_eqb existing id | _ => false end.

(** The part of [prepare_revision_transfer] that compares with the branch. *)
Definition prepare_branch_anchor (view : RepositoryView) (target_commit : list GitBlob)
    (revision_id : text) (current_revision_id : option text) (prepared : PreparedRevisionTransfer) :
    result RevisionTransferError PreparedRevisionTransfer :=
  match head_commit view with
  | None => Ok prepared
  | Some (oid, head) =>
      let head_id := oid_to_string oid in
      head_manifest ← load_commit_manifest head;
      if text_eqb head_id revision_id
      then Ok (prepared <| pt_live_base_context := Some (head_manifest, ∅) |>)
      else
        changed_paths ← diff_changed_paths_between head target_commit;
        let candidate := build_transfer_candidate (pt_target_manifest prepared) (Some changed_paths)
                           (AnchorRevision head_id) in
        Ok (prepared <| pt_candidates := pt_candidates prepared ++
                          match current_revision_id with Some _ => [candidate] | None => [] end |>
                     <| pt_live_base_context := Some (head_manifest, changed_paths) |>)
  end.
Definition prepare_current_anchor (view : RepositoryView) (target_commit : list GitBlob)
    (revision_id base_revision_id : text) (prepared : PreparedRevisionTransfer) :
    result RevisionTransferError PreparedRevisionTransfer :=
  if text_eqb base_revision_id revision_id then Ok prepared else
  match oid_from_str base_revision_id ≫= λ oid, rv_commits view !! oid with
  | None => Ok prepared
  | Some base_commit =>
      if existsb (is_anchored_at base_revision_id) (pt_candidates prepared) then Ok prepared else
      changed_paths ← diff_changed_paths_between base_commit target_commit;
      Ok (prepared <| pt_candidates := pt_candidates prepared ++
            [build_transfer_candidate (pt_target_manifest prepared) (Some changed_paths)
               (AnchorRevision base_revision_id)] |>)
  end.
Definition prepare_revision_transfer (view : RepositoryView) (revision_id : text)
    (current_revision_id : option text) : result RevisionTransferError PreparedRevisionTransfer :=
  target_commit ← find_revision view revision_id;
  target_manifest ← load_commit_manifest target_commit;
  nodes ← build_nodes_from_manifest target_manifest;
  let prepared := MkPrepared target_manifest nodes
                    [build_transfer_candidate target_manifest None AnchorNone] None in
  prepared ← prepare_branch_anchor view target_commit revision_id current_revision_id prepared;
  match current_revision_id with
  | Some base_revision_id => prepare_current_anchor view target_commit revision_id base_revision_id prepared
  | None => Ok prepared
  end.

Definition clean_set (paths : list text) : gset text :=
  list_to_set (omap (λ path, match sanitize_project_path path with Ok p => Some p | Err _ => None end) paths).

(** The paths at which the live content may differ from the branch. *)
Definition live_to_head (head_manifest : CommitManifest) (has_live_snapshot : bool)
    (changed_document_paths changed_asset_paths live_document_paths live_asset_paths : list text) :
    gset text :=
  if has_live_snapshot then
    let live_path_set := clean_set (live_document_paths ++ live_asset_paths) in
    clean_set (changed_document_paths ++ changed_asset_paths)
    ∪ (dom (cm_files head_manifest) ∖ live_path_set)
    ∪ (live_path_set ∖ dom (cm_files head_manifest))
  else ∅.
Definition add_live_anchor_candidate (prepared : PreparedRevisionTransfer) (has_live_snapshot : bool)
    (changed_document_paths changed_asset_paths live_document_paths live_asset_paths : list text) :
    PreparedRevisionTransfer :=
  match pt_live_base_context prepared with
  | None => prepared
  | Some (head_manifest, head_to_target) =>
      let live_union := head_to_target ∪ live_to_head head_manifest has_live_snapshot
        changed_document_paths changed_asset_paths live_document_paths live_asset_paths in
      prepared <| pt_candidates := pt_candidates prepared ++
        [build_transfer_candidate (pt_target_manifest prepared) (Some live_union) AnchorLive] |>
  end.

(** [Iterator::min_by_key]: the first of the least. *)
Definition candidate_le (a b : RevisionTransferCandidate) : bool :=
  let full c := if bool_decide (rc_transfer_mode c = TransferFull) then 1 else 0 in
  (rc_estimated_bytes a <? rc_estimated_bytes b)
  || ((rc_estimated_bytes a =? rc_estimated_bytes b) && (full a <=? full b)).
Fixpoint least_candidate (best : RevisionTransferCandidate) (candidates : list RevisionTransferCandidate) :
    RevisionTransferCandidate :=
  match candidates with
  | [] => best
  | c :: candidates => least_candidate (if candidate_le best c then best else c) candidates
  end.
Definition select_transfer_candidate (target_manifest : CommitManifest)
    (candidates : list RevisionTransferCandidate) : RevisionTransferCandidate :=
  match candidates with
  | [] => build_transfer_candidate target_manifest None AnchorNone
  | c :: candidates => least_candidate c candidates
  end.

(** [Vec::dedup]. *)
Fixpoint dedup_texts (l : list text) : list text :=
  match l with
  | [] => []
  | x :: l' =>
      match dedup_texts l' with
      | y :: l'' => if bool_decide (x = y) then x :: l'' else x :: y :: l''
      | [] => [x]
      end
  end.
Definition clean_transfer_path (path : text) : result RevisionTransferError text :=
  match sanitize_project_path path with Ok clean => Ok clean | Err _ => Err (TransferInvalidPath path) end.
Definition clean_transfer_paths (paths : list text) : result RevisionTransferError (list text) :=
  (λ clean, dedup_texts (sort_text clean)) <$> collect_ok (clean_transfer_path <$> paths).

Definition load_document (commit : list GitBlob) (path : text) : result RevisionTransferError RevisionDocument :=
  content ← load_blob_bytes_at_path commit path;
  match from_utf8 content with
  | None => Err (InvalidDocumentEncoding path)
  | Some content => Ok (MkRevisionDocument path content)
  end.
(** A path the manifest does not have is passed over. *)
Fixpoint load_assets (manifest : CommitManifest) (commit : list GitBlob) (paths : list text) :
    result RevisionTransferError (list RevisionAsset) :=
  match paths with
  | [] => Ok []
  | path :: paths =>
      match cm_files manifest !! path with
      | None => load_assets manifest commit paths
      | Some meta =>
          content ← load_blob_bytes_at_path commit path;
          cons (MkRevisionAsset path (cpm_content_type meta) (Z.min i64_max (Z.of_nat (length content))) content)
            <$> load_assets manifest commit paths
      end
  end.

Definition materialize_revision_transfer (view : RepositoryView) (revision_id entry_file_path : text)
    (prepared : PreparedRevisionTransfer) (selected : RevisionTransferCandidate) :
    result RevisionTransferError RevisionTransfer :=
  target_commit ← find_revision view revision_id;
  document_paths ← clean_transfer_paths (rc_document_paths selected);
  documents ← collect_ok (load_document target_commit <$> document_paths);
  asset_paths ← clean_transfer_paths (rc_asset_paths selected);
  assets ← load_assets (pt_target_manifest prepared) target_commit asset_paths;
  let '(base_anchor, base_revision_id) :=
    match rc_anchor_kind selected with
    | AnchorNone => (BaseNone, None)
    | AnchorLive => (BaseLive, None)
    | AnchorRevision id => (BaseRevision, Some id)
    end in
  deleted_documents ← clean_transfer_paths (rc_deleted_documents selected);
  deleted_assets ← clean_transfer_paths (rc_deleted_assets selected);
  Ok (MkTransfer revision_id entry_file_path (rc_transfer_mode selected) base_anchor base_revision_id
        (pt_nodes prepared) documents deleted_documents assets deleted_assets).

Definition materialize_best_revision_transfer (view : RepositoryView) (revision_id entry_file_path : text)
    (prepared : PreparedRevisionTransfer) : result RevisionTransferError RevisionTransfer :=
  materialize_revision_transfer view revision_id entry_file_path prepared
    (select_transfer_candidate (pt_target_manifest prepared) (pt_candidates prepared)).

(** ** versioning::revision_state *)

Record GitRevisionAsset : Type := MkGitAsset { ga_content_type : text; ga_bytes : bytes }.
Record GitRevisionState : Type := MkGitState {
  gs_documents : gmap text text; gs_assets : gmap text GitRevisionAsset }.

(** [load_git_state_from_commit]; the blobs can be read. *)
Fixpoint load_git_state_into (blobs : list GitBlob) (state : GitRevisionState) : result text GitRevisionState :=
  match blobs with
  | [] => Ok state
  | blob :: blobs =>
      match bl_path blob with
      | None => load_git_state_into blobs state
      | Some raw_path =>
          match sanitize_project_path raw_path with
          | Err _ => Err raw_path
          | Ok clean_path =>
              match (if is_document_text_path clean_path then from_utf8 (bl_content blob) else None) with
              | Some text =>
                  load_git_state_into blobs
                    (MkGitState (<[clean_path := text]> (gs_documents state)) (gs_assets state))
              | None =>
                  load_git_state_into blobs
                    (MkGitState (gs_documents state)
                       (<[clean_path := MkGitAsset (guess_content_type clean_path) (bl_content blob)]>
                          (gs_assets state)))
              end
          end
      end
  end.
Definition load_git_state_from_commit (commit : list GitBlob) : result text GitRevisionState :=
  load_git_state_into commit (MkGitState ∅ ∅).

(** ** workspace::revision_paths *)

Record RevisionPathSnapshot : Type := MkPathSnapshot {
  ps_changed_document_paths : list text;
  ps_changed_asset_paths : list text;
  ps_live_document_paths : list text;
  ps_live_asset_paths : list text }.

Definition document_paths_where (p : Document → bool) (db : WorkspaceDB) : list text :=
  (λ kd, d_path kd.2) <$> select (λ _ d, p d) (documents db).
Definition asset_paths_where (p : Asset → bool) (db : WorkspaceDB) : list text :=
  (λ ka, a_path ka.2) <$> select (λ _ a, p a) (assets db).
Definition document_paths_updated_since (project : uuid) (updated_after : time) : WorkspaceDB → list text :=
  document_paths_where (λ d, bool_decide (d_project d = project) && (updated_after <? d_updated_at d)).
Definition asset_paths_created_since (project : uuid) (created_after : time) : WorkspaceDB → list text :=
  asset_paths_where (λ a, bool_decide (a_project a = project) && (created_after <? a_created_at a)).
Definition document_paths (project : uuid) : WorkspaceDB → list text :=
  document_paths_where (λ d, bool_decide (d_project d = project)).
Definition asset_paths (project : uuid) : WorkspaceDB → list text :=
  asset_paths_where (λ a, bool_decide (a_project a = project)).
Definition revision_path_snapshot (project : uuid) (changed_after : time) (db : WorkspaceDB) :
    RevisionPathSnapshot :=
  MkPathSnapshot (document_paths_updated_since project changed_after db)
    (asset_paths_created_since project changed_after db)
    (document_paths project db) (asset_paths project db).

(** ** revision_documents *)

Record RevisionTransferRequest : Type := MkRequest {
  tq_current_revision_id : option text; tq_include_live_anchor : bool }.
(** [load_live_sync_state]. *)
Record LiveRevisionSyncState : Type := MkLiveSync {
  ls_pending_sync : bool; ls_last_server_sync_at : option time }.

(** [load_live_revision_paths]; the epoch of Unix is the time 0. *)
Definition load_live_revision_paths (project : uuid) (sync_state : option LiveRevisionSyncState)
    (db : WorkspaceDB) : option RevisionPathSnapshot :=
  sync_state ← sync_state;
  if ls_pending_sync sync_state
  then Some (revision_path_snapshot project (default 0 (ls_last_server_sync_at sync_state)) db)
  else None.

(** [revision_documents] once the repository and the rows have been read:
    [view] is the repository, [entry] the entry file of the project, [live] the
    answer of [load_live_revision_paths]. *)
Definition revision_documents (view : RepositoryView) (entry : text) (live : option RevisionPathSnapshot)
    (revision_id : text) (request : RevisionTransferRequest) : result RevisionTransferError RevisionTransfer :=
  prepared ← prepare_revision_transfer view revision_id (tq_current_revision_id request);
  let prepared :=
    if tq_include_live_anchor request && bool_decide (tq_current_revision_id request = None)
    then match live with
         | Some snapshot =>
             add_live_anchor_candidate prepared true (ps_changed_document_paths snapshot)
               (ps_changed_asset_paths snapshot) (ps_live_document_paths snapshot)
               (ps_live_asset_paths snapshot)
         | None => add_live_anchor_candidate prepared false [] [] [] []
         end
    else prepared in
  materialize_best_revision_transfer view revision_id entry prepared.
End transfer.

(** ** The browser: applyRevisionTransfer

    The documents and assets it shows, by path. *)
Record Shown : Type := MkShown { sh_docs : gmap text text; sh_assets : gmap text bytes }.
Record RevisionTransferInput : Type := MkInput {
  ti_force_full : bool;
  ti_current_revision_anchor_id : option text;
  ti_live : Shown;
  ti_revision : Shown }.

Definition patch_shown (response : RevisionTransfer) (base : Shown) : Shown :=
  MkShown
    (foldl (λ docs doc, <[rd_path doc := rd_content doc]> docs)
       (foldl (λ docs path, delete path docs) (sh_docs base) (rt_deleted_documents response))
       (rt_documents response))
    (foldl (λ assets asset, <[ra_path asset := ra_content asset]> assets)
       (foldl (λ assets path, delete path assets) (sh_assets base) (rt_deleted_assets response))
       (rt_assets response)).

(** None where the transfer is not applied; an empty identifier is no
    identifier. *)
Definition applyRevisionTransfer (input : RevisionTransferInput) (response : RevisionTransfer) : option Shown :=
  let delta := negb (ti_force_full input) && bool_decide (rt_transfer_mode response = TransferDelta) in
  if negb delta then Some (patch_shown response (MkShown ∅ ∅)) else
  match rt_base_anchor response with
  | BaseRevision =>
      match rt_base_revision_id response, ti_current_revision_anchor_id input with
      | Some base, Some current =>
          if negb (text_eqb base []) && text_eqb base current
          then Some (patch_shown response (ti_revision input)) else None
      | _, _ => None
      end
  | BaseLive => Some (patch_shown response (ti_live input))
  | BaseNone => Some (patch_shown response (MkShown ∅ ∅))
  end.
