(* ===== verification/RevisionTheorems.v ===== *)
(** * Versioning: what the transfers of revisions show

    A browser that applies a transfer shows the revision, whatever the transfer
    is a difference to ([transfers_reproduce_the_revision]), but for two cases:
    an asset moved onto the path of an older one, and a text file that is not
    UTF-8. *)
From S2P Require Import Prelude Store Text Paths PathFacts AccessModel AccessSystem WorkspaceModel WorkspaceStatements WorkspaceFiles WorkspaceSystem.
From S2P Require Import RevisionTransfer.

Open Scope Z_scope.

Arguments build_transfer_candidate : simpl never.

(** ** What the browser should show *)

(** Every blob has a path, and all are canonical. *)
Definition canonical_tree (commit : list GitBlob) : Prop :=
  ∀ blob raw, blob ∈ commit → bl_path blob = Some raw → canonical_path raw.

(** The documents and assets of a commit. *)
Definition shown_document (commit : list GitBlob) (p : text) : option text :=
  if is_document_text_path p then blob_at commit p ≫= from_utf8 else None.
Definition shown_asset (commit : list GitBlob) (p : text) : option bytes :=
  if is_document_text_path p then None else blob_at commit p.
Definition agrees_at (commit : list GitBlob) (sh : Shown) (p : text) : Prop :=
  sh_docs sh !! p = shown_document commit p ∧ sh_assets sh !! p = shown_asset commit p.
Definition shows (commit : list GitBlob) (sh : Shown) : Prop := ∀ p, agrees_at commit sh p.

(** ** Sorting and cleaning paths *)

Lemma elem_of_dedup_texts x l : x ∈ dedup_texts l ↔ x ∈ l.
Proof.
  induction l as [|y l IH]; simpl; [done|]. destruct (dedup_texts l) as [|z l'] eqn:E.
  - set_solver.
  - case_bool_decide; subst; set_solver.
Qed.

Lemma collect_ok_inv {E A} (l : list (result E A)) r : collect_ok l = Ok r → l = Ok <$> r.
Proof.
  induction l as [|[a|e] l IH] in r |- *; simpl; [by intros [= <-]| |done].
  destruct (collect_ok l) as [r'|]; simpl; [|done]. intros [= <-]. simpl. by rewrite (IH r').
Qed.

Lemma clean_transfer_paths_elem l l' p :
  (∀ q, q ∈ l → canonical_path q) → clean_transfer_paths l = Ok l' → p ∈ l' ↔ p ∈ l.
Proof.
  intros Hc. unfold clean_transfer_paths. destruct (collect_ok _) as [cl|] eqn:E; simpl; [|done].
  intros [= <-]. rewrite elem_of_dedup_texts, elem_of_sort_text.
  enough (cl = l) as -> by done. apply collect_ok_inv in E. clear p.
  induction l as [|q l IH] in cl, Hc, E |- *; destruct cl as [|q' cl]; simplify_eq/=; [done|].
  f_equal; [|apply IH; [set_solver|done]].
  assert (Hq : canonical_path q) by (apply Hc; set_solver).
  unfold clean_transfer_path in *. rewrite (sanitize_complete q) in * by done. congruence.
Qed.

Lemma blob_at_cons b commit p :
  blob_at (b :: commit) p = if decide (bl_path b = Some p) then Some (bl_content b) else blob_at commit p.
Proof. unfold blob_at. rewrite filter_cons. by case_decide. Qed.

Lemma blob_at_elem commit p x : blob_at commit p = Some x → ∃ b, b ∈ commit ∧ bl_path b = Some p.
Proof.
  unfold blob_at. destruct (head _) as [b|] eqn:E; [|done]. intros _. exists b.
  apply head_Some_elem_of in E. apply list_elem_of_filter in E. naive_solver.
Qed.
Lemma blob_at_canonical commit p x : canonical_tree commit → blob_at commit p = Some x → canonical_path p.
Proof. intros Hc (b & Hb & Hp)%blob_at_elem. by eapply Hc. Qed.

(** ** Manifests *)

Section facts.
Context (guess_content_type : text → text).
Context (oid_from_str : text → option N) (oid_to_string : N → text).
Context (diff_tree_to_tree : list GitBlob → list GitBlob → option (list DiffDelta)).

Definition manifest_of (commit : list GitBlob) (m : CommitManifest) : Prop :=
  ∀ p, cm_files m !! p = (λ _, path_meta guess_content_type p) <$> blob_at commit p.

Lemma load_commit_manifest_spec commit m :
  canonical_tree commit → load_commit_manifest guess_content_type commit = Ok m → manifest_of commit m.
Proof.
  intros Hc. unfold load_commit_manifest.
  enough (∀ m0, load_commit_manifest_into guess_content_type commit m0 = Ok m →
    ∀ p, cm_files m !! p = match blob_at commit p with
                           | Some _ => Some (path_meta guess_content_type p)
                           | None => cm_files m0 !! p end) as Hgen.
  { intros Hm p. rewrite (Hgen _ Hm p). simpl. rewrite lookup_empty. by destruct (blob_at commit p). }
  induction commit as [|b commit IH]; intros m0; simpl; [by intros [= <-]|].
  assert (canonical_tree commit) as Hc' by (intros b' raw Hb'; eapply Hc; set_solver).
  destruct (bl_path b) as [raw|] eqn:Hb.
  - assert (canonical_path raw) as Hraw by (eapply Hc; [left|done]).
    rewrite (sanitize_complete raw) by done. intros Hm p. rewrite (IH Hc' _ Hm p), blob_at_cons, Hb. simpl.
    destruct (decide (Some raw = Some p)) as [[= ->]|Hne]; destruct (blob_at commit p); try done.
    + by rewrite lookup_insert_eq.
    + rewrite lookup_insert_ne; congruence.
  - intros Hm p. rewrite (IH Hc' _ Hm p), blob_at_cons, Hb. by rewrite decide_False.
Qed.

(** ** Candidates *)

Definition in_commit (commit : list GitBlob) (p : text) : Prop := is_Some (blob_at commit p).
#[local] Instance in_commit_dec commit p : Decision (in_commit commit p).
Proof. unfold in_commit. apply _. Defined.

(** What a candidate sends: of the paths [S], those the target has, and the
    names of the others. *)
Definition sends (target : list GitBlob) (S : text → Prop) (c : RevisionTransferCandidate) : Prop :=
  ∀ p, (p ∈ rc_document_paths c ↔ S p ∧ in_commit target p ∧ is_document_text_path p = true)
     ∧ (p ∈ rc_asset_paths c ↔ S p ∧ in_commit target p ∧ is_document_text_path p = false)
     ∧ (p ∈ rc_deleted_documents c ↔ S p ∧ ¬ in_commit target p ∧ is_document_text_path p = true)
     ∧ (p ∈ rc_deleted_assets c ↔ S p ∧ ¬ in_commit target p ∧ is_document_text_path p = false).

Lemma sends_proper target S S' c : (∀ p, S p ↔ S' p) → sends target S c → sends target S' c.
Proof. intros HS Hc p. rewrite <-(HS p). apply Hc. Qed.

Lemma sends_empty target mode anchor n : sends target (λ _, False) (MkCandidate mode anchor [] [] [] [] n).
Proof. intros p. set_solver. Qed.

Lemma add_changed_path_sends target manifest S c p :
  manifest_of target manifest → sends target S c →
  sends target (λ q, S q ∨ q = p) (add_changed_path manifest c p).
Proof.
  intros Hm Hc q. destruct (Hc q) as (Hd & Ha & Hdd & Hda).
  unfold add_changed_path. rewrite (Hm p). unfold in_commit in *.
  assert (Hq : q = p → is_Some (blob_at target q) ↔ is_Some (blob_at target p)) by by intros ->.
  assert (He : q = p → is_document_text_path q = is_document_text_path p) by by intros ->.
  assert (Hn : is_document_text_path q = true → is_document_text_path q ≠ false) by congruence.
  destruct (blob_at target p) as [x|] eqn:Hp; simpl.
  - assert (Hx : q = p → is_Some (blob_at target q)) by (intros ->; by rewrite Hp).
    unfold add_target_path, path_meta. simpl. destruct (is_document_text_path p) eqn:Ed; simpl;
      rewrite ?elem_of_app, ?list_elem_of_singleton, ?Hd, ?Ha, ?Hdd, ?Hda; clear - Hx He Hn; tauto.
  - assert (Hx : q = p → ¬ is_Some (blob_at target q)) by (intros ->; rewrite Hp; by intros []).
    unfold add_deleted_path. destruct (is_document_text_path p) eqn:Ed; simpl;
      rewrite ?elem_of_app, ?list_elem_of_singleton, ?Hd, ?Ha, ?Hdd, ?Hda; clear - Hx He Hn; tauto.
Qed.

Lemma add_changed_path_frame manifest c p :
  rc_transfer_mode (add_changed_path manifest c p) = rc_transfer_mode c
  ∧ rc_anchor_kind (add_changed_path manifest c p) = rc_anchor_kind c.
Proof.
  unfold add_changed_path, add_target_path, add_deleted_path. repeat case_match; done.
Qed.

Lemma add_present_path_changed manifest c p :
  p ∈ dom (cm_files manifest) → add_present_path manifest c p = add_changed_path manifest c p.
Proof. intros [m Hm]%elem_of_dom. unfold add_present_path, add_changed_path. by rewrite Hm. Qed.

Lemma fold_changed_sends target manifest l S c :
  manifest_of target manifest → sends target S c →
  sends target (λ q, S q ∨ q ∈ l) (foldl (add_changed_path manifest) c l)
  ∧ rc_transfer_mode (foldl (add_changed_path manifest) c l) = rc_transfer_mode c
  ∧ rc_anchor_kind (foldl (add_changed_path manifest) c l) = rc_anchor_kind c.
Proof.
  intros Hm. induction l as [|p l IH] in S, c |- *; simpl; intros Hc.
  - split_and!; [|done..]. eapply sends_proper; [|exact Hc]. set_solver.
  - destruct (IH _ _ (add_changed_path_sends _ _ _ _ p Hm Hc)) as (Hs & -> & ->).
    destruct (add_changed_path_frame manifest c p) as [-> ->]. split_and!; [|done..].
    eapply sends_proper; [|exact Hs]. set_solver.
Qed.

(** A candidate sends what its anchor lacks. *)
Definition changed_or_all (changed : option (gset text)) (target : list GitBlob) (p : text) : Prop :=
  match changed with Some paths => p ∈ paths | None => in_commit target p end.

Lemma build_transfer_candidate_sends target manifest changed anchor :
  manifest_of target manifest →
  let c := build_transfer_candidate manifest changed anchor in
  sends target (changed_or_all changed target) c
  ∧ rc_anchor_kind c = anchor
  ∧ rc_transfer_mode c = match changed with Some _ => TransferDelta | None => TransferFull end.
Proof.
  intros Hm. unfold build_transfer_candidate. destruct changed as [ps|]; cbv zeta.
  - destruct (fold_changed_sends target manifest (sort_text (elements ps)) (λ _, False) _ Hm
      (sends_empty target TransferDelta anchor 0)) as (Hs & -> & ->).
    split_and!; [|done..]. eapply sends_proper; [|exact Hs]. intros p. simpl.
    rewrite elem_of_sort_text, elem_of_elements. naive_solver.
  - set (l := sort_text (elements (dom (cm_files manifest)))).
    assert (Hext : ∀ c, foldl (add_present_path manifest) c l = foldl (add_changed_path manifest) c l).
    { assert (Hl : ∀ p, p ∈ l → p ∈ dom (cm_files manifest)).
      { intros p. unfold l. by rewrite elem_of_sort_text, elem_of_elements. }
      clear -Hl. induction l as [|p l IH]; intros c; simpl; [done|].
      rewrite IH by set_solver. f_equal. apply add_present_path_changed, Hl. left. }
    rewrite Hext. destruct (fold_changed_sends target manifest l (λ _, False) _ Hm
      (sends_empty target TransferFull anchor 0)) as (Hs & -> & ->).
    split_and!; [|done..]. eapply sends_proper; [|exact Hs]. intros p. unfold l.
    rewrite elem_of_sort_text, elem_of_elements, elem_of_dom, (Hm p). unfold in_commit.
    rewrite fmap_is_Some. simpl. tauto.
Qed.

(** ** Applying a transfer *)

Lemma lookup_fold_delete {A} (m : gmap text A) ks p :
  foldl (λ m k, delete k m) m ks !! p = if decide (p ∈ ks) then None else m !! p.
Proof.
  induction ks as [|k ks IH] in m |- *; cbn [foldl]; [by rewrite decide_False by apply not_elem_of_nil|].
  rewrite IH. destruct (decide (p ∈ ks)) as [Hi|Hi]; [by rewrite decide_True by by right|].
  destruct (decide (p = k)) as [->|Hne].
  - rewrite lookup_delete_eq, decide_True; [done|left].
  - rewrite lookup_delete_ne, decide_False; [done| |done]. by intros [?|?]%elem_of_cons.
Qed.

Lemma lookup_fold_insert {A B} (key : A → text) (val : A → B) (m : gmap text B) l p v :
  (∀ x, x ∈ l → key x = p → val x = v) →
  foldl (λ m x, <[key x := val x]> m) m l !! p = if decide (p ∈ key <$> l) then Some v else m !! p.
Proof.
  induction l as [|x l IH] in m |- *; cbn [foldl]; intros Hl; [by rewrite decide_False by apply not_elem_of_nil|].
  rewrite IH by (intros y Hy; apply Hl; by right). rewrite fmap_cons.
  destruct (decide (p ∈ key <$> l)) as [Hi|Hi]; [by rewrite decide_True by by right|].
  destruct (decide (p = key x)) as [->|Hne].
  - rewrite lookup_insert_eq, decide_True; [|left]. f_equal. apply Hl; [left|done].
  - rewrite lookup_insert_ne, decide_False; [done| |done]. by intros [?|?]%elem_of_cons.
Qed.

Lemma load_documents_spec commit ps ds :
  collect_ok (load_document commit <$> ps) = Ok ds →
  rd_path <$> ds = ps ∧ ∀ d, d ∈ ds → blob_at commit (rd_path d) ≫= from_utf8 = Some (rd_content d).
Proof.
  intros E%collect_ok_inv. induction ps as [|p ps IH] in ds, E |- *; destruct ds as [|d ds]; simplify_eq/=.
  - split; [done|]. set_solver.
  - destruct (IH ds) as [<- Hds]; [done|]. unfold load_document, load_blob_bytes_at_path in *.
    destruct (blob_at commit p) as [x|] eqn:Hx; simplify_eq/=.
    destruct (from_utf8 x) as [y|] eqn:Hy; simplify_eq/=. split; [done|].
    intros d [->|Hd]%elem_of_cons; [simpl; by rewrite Hx|auto].
Qed.

Lemma load_assets_spec commit manifest ps rs p :
  manifest_of commit manifest → load_assets manifest commit ps = Ok rs →
  (p ∈ ra_path <$> rs ↔ p ∈ ps ∧ in_commit commit p)
  ∧ ∀ a, a ∈ rs → blob_at commit (ra_path a) = Some (ra_content a).
Proof.
  intros Hm. induction ps as [|q ps IH] in rs |- *; simpl; [intros [= <-]; set_solver|].
  rewrite (Hm q). destruct (blob_at commit q) as [x|] eqn:Hx; simpl.
  - unfold load_blob_bytes_at_path. rewrite Hx. simpl.
    destruct (load_assets manifest commit ps) as [rs'|] eqn:E; simpl; [|done]. intros [= <-].
    destruct (IH rs' eq_refl) as [Hp Hall]. split.
    + rewrite fmap_cons, elem_of_cons, Hp, elem_of_cons. simpl. unfold in_commit.
      split; [|naive_solver]. intros [->|[??]]; [rewrite Hx; eauto|auto].
    + intros a [->|Ha]%elem_of_cons; [done|auto].
  - intros E. destruct (IH rs E) as [Hp Hall]. split; [|done]. rewrite Hp, elem_of_cons. unfold in_commit.
    split; [naive_solver|]. intros [[->|?] Hs]; [|done]. rewrite Hx in Hs. by destruct Hs.
Qed.

(** A content that has documents and assets where their names say so. *)
Definition kinds_at (sh : Shown) (p : text) : Prop :=
  if is_document_text_path p then sh_assets sh !! p = None else sh_docs sh !! p = None.

Lemma agrees_kinds commit sh p : agrees_at commit sh p → kinds_at sh p.
Proof. unfold agrees_at, kinds_at, shown_document, shown_asset. intros []. by case_match. Qed.

(** The lists of a transfer. *)
Record sent (target : list GitBlob) (S : text → Prop) (t : RevisionTransfer) : Prop := {
  st_documents p : p ∈ rd_path <$> rt_documents t ↔ S p ∧ in_commit target p ∧ is_document_text_path p = true;
  st_assets p : p ∈ ra_path <$> rt_assets t ↔ S p ∧ in_commit target p ∧ is_document_text_path p = false;
  st_deleted_documents p : p ∈ rt_deleted_documents t ↔ S p ∧ ¬ in_commit target p ∧ is_document_text_path p = true;
  st_deleted_assets p : p ∈ rt_deleted_assets t ↔ S p ∧ ¬ in_commit target p ∧ is_document_text_path p = false;
  st_texts d : d ∈ rt_documents t → blob_at target (rd_path d) ≫= from_utf8 = Some (rd_content d);
  st_contents a : a ∈ rt_assets t → blob_at target (ra_path a) = Some (ra_content a) }.

Lemma materialize_sent view revision_id target entry prepared S c t :
  find_revision oid_from_str view revision_id = Ok target →
  manifest_of target (pt_target_manifest prepared) →
  sends target S c → (∀ p, S p → canonical_path p) →
  materialize_revision_transfer oid_from_str view revision_id entry prepared c = Ok t → sent target S t.
Proof.
  intros Hfind Hm Hs HS. unfold materialize_revision_transfer. rewrite Hfind. simpl.
  destruct (clean_transfer_paths (rc_document_paths c)) as [dps|] eqn:Edps; simpl; [|done].
  destruct (collect_ok _) as [ds|] eqn:Eds; simpl; [|done].
  destruct (clean_transfer_paths (rc_asset_paths c)) as [aps|] eqn:Eaps; simpl; [|done].
  destruct (load_assets _ _ _) as [rs|] eqn:Ers; simpl; [|done].
  destruct (match rc_anchor_kind c with AnchorNone => _ | _ => _ end) as [anchor id].
  destruct (clean_transfer_paths (rc_deleted_documents c)) as [dds|] eqn:Edds; simpl; [|done].
  destruct (clean_transfer_paths (rc_deleted_assets c)) as [das|] eqn:Edas; simpl; [|done].
  intros [= <-]. apply load_documents_spec in Eds as [Hdps Hds].
  pose proof (λ p, load_assets_spec _ _ _ _ p Hm Ers) as Hrs.
  assert (Hcl : ∀ l l' q, clean_transfer_paths l = Ok l' → (∀ x, x ∈ l → S x) → q ∈ l' ↔ q ∈ l).
  { intros l l' q E Hl. eapply clean_transfer_paths_elem, E. auto. }
  split; simpl; [..|done|by apply (Hrs [])]; intros p.
  - rewrite Hdps, (Hcl _ _ p Edps) by (intros x Hx; by apply Hs in Hx as [? _]). apply Hs.
  - rewrite (proj1 (Hrs p)), (Hcl _ _ p Eaps) by (intros x Hx; by apply Hs in Hx as [? _]).
    destruct (Hs p) as (_ & -> & _). tauto.
  - rewrite (Hcl _ _ p Edds) by (intros x Hx; by apply Hs in Hx as [? _]). apply Hs.
  - rewrite (Hcl _ _ p Edas) by (intros x Hx; by apply Hs in Hx as [? _]). apply Hs.
Qed.

Lemma materialize_fields view revision_id target entry prepared c t :
  find_revision oid_from_str view revision_id = Ok target →
  materialize_revision_transfer oid_from_str view revision_id entry prepared c = Ok t →
  rt_transfer_mode t = rc_transfer_mode c
  ∧ match rc_anchor_kind c with
    | AnchorNone => rt_base_anchor t = BaseNone
    | AnchorLive => rt_base_anchor t = BaseLive
    | AnchorRevision id => rt_base_anchor t = BaseRevision ∧ rt_base_revision_id t = Some id
    end.
Proof.
  intros Hfind Ht. unfold materialize_revision_transfer in Ht. rewrite Hfind in Ht. simpl in Ht.
  destruct (rc_anchor_kind c);
    repeat match type of Ht with context [?r ≫= _] => destruct r; simpl in Ht; [|done] end.
  all: by injection Ht as <-.
Qed.

Lemma patch_untouched target S t base p :
  sent target S t → ¬ S p →
  sh_docs (patch_shown t base) !! p = sh_docs base !! p ∧ sh_assets (patch_shown t base) !! p = sh_assets base !! p.
Proof.
  intros [H1 H2 H3 H4 _ _] Hp. unfold patch_shown. simpl.
  rewrite (lookup_fold_insert rd_path rd_content _ _ p []), (lookup_fold_insert ra_path ra_content _ _ p []).
  - rewrite !lookup_fold_delete, !decide_False; [done|..]; rewrite ?H1, ?H2, ?H3, ?H4; tauto.
  - intros a Ha <-. destruct Hp. apply H2. by apply list_elem_of_fmap_2.
  - intros d Hd <-. destruct Hp. apply H1. by apply list_elem_of_fmap_2.
Qed.

Lemma patch_shows target S t base :
  sent target S t →
  (∀ p, ¬ S p → agrees_at target base p) → (∀ p, S p → kinds_at base p) →
  shows target (patch_shown t base).
Proof.
  intros Ht Hbase Hkinds p. pose proof Ht as [H1 H2 H3 H4 Hds Hrs].
  assert (Hnone : ¬ in_commit target p → blob_at target p = None).
  { unfold in_commit. destruct (blob_at target p); [intros []; eauto|done]. }
  destruct (decide (p ∈ (rd_path <$> rt_documents t) ++ (ra_path <$> rt_assets t)
                        ++ rt_deleted_documents t ++ rt_deleted_assets t)) as [Hin|Hout].
  2:{ assert (Hp : ¬ S p).
      { intros Hp. apply Hout. rewrite !elem_of_app, H1, H2, H3, H4.
        destruct (decide (in_commit target p)), (is_document_text_path p); tauto. }
      unfold agrees_at. destruct (patch_untouched _ _ _ base _ Ht Hp) as [-> ->]. by apply Hbase. }
  rewrite !elem_of_app in Hin.
  unfold agrees_at, patch_shown. simpl.
  rewrite (lookup_fold_insert rd_path rd_content _ _ p (default [] (shown_document target p))).
  2:{ intros d Hd <-. apply Hds in Hd as Hc. assert (Hp : rd_path d ∈ rd_path <$> rt_documents t) by by apply list_elem_of_fmap_2.
      apply H1 in Hp as (_ & _ & Hk). unfold shown_document. by rewrite Hk, Hc. }
  rewrite (lookup_fold_insert ra_path ra_content _ _ p (default [] (shown_asset target p))).
  2:{ intros a Ha <-. apply Hrs in Ha as Hc. assert (Hp : ra_path a ∈ ra_path <$> rt_assets t) by by apply list_elem_of_fmap_2.
      apply H2 in Hp as (_ & _ & Hk). unfold shown_asset. by rewrite Hk, Hc. }
  rewrite !lookup_fold_delete. pose proof (Hkinds p) as Hkp. unfold kinds_at in Hkp.
  unfold shown_document, shown_asset in *. destruct Hin as [Hp|[Hp|[Hp|Hp]]].
  - pose proof (proj1 (H1 p) Hp) as (HSp & _ & Hk). rewrite Hk in *.
    apply list_elem_of_fmap in Hp as Hd. destruct Hd as (d & -> & Hd). rewrite (Hds d Hd) in *.
    rewrite decide_True by done. rewrite !decide_False by (rewrite ?H2, ?H4; intros (_ & ? & ?); congruence || contradiction). auto.
  - pose proof (proj1 (H2 p) Hp) as (HSp & _ & Hk). rewrite Hk in *.
    apply list_elem_of_fmap in Hp as Ha. destruct Ha as (a & -> & Ha). rewrite (Hrs a Ha) in *.
    rewrite (decide_True (P := ra_path a ∈ ra_path <$> _)) by done.
    rewrite !decide_False by (rewrite ?H1, ?H3; intros (_ & ? & ?); congruence || contradiction). auto.
  - pose proof (proj1 (H3 p) Hp) as (HSp & Hn & Hk). rewrite Hk, (Hnone Hn) in *.
    rewrite (decide_True (P := p ∈ rt_deleted_documents t)) by done.
    rewrite !decide_False by (rewrite ?H1, ?H2, ?H4; intros (_ & ? & ?); congruence || contradiction). auto.
  - pose proof (proj1 (H4 p) Hp) as (HSp & Hn & Hk). rewrite Hk, (Hnone Hn) in *.
    rewrite (decide_True (P := p ∈ rt_deleted_assets t)) by done.
    rewrite !decide_False by (rewrite ?H1, ?H2, ?H3; intros (_ & ? & ?); congruence || contradiction). auto.
Qed.

(** ** The candidates of a request *)

(** git2: a diff mentions every path at which the trees differ; an identifier
    is read back from its text. *)
Context (diff_covers : ∀ base target deltas p, diff_tree_to_tree base target = Some deltas →
  blob_at base p ≠ blob_at target p →
  ∃ d, d ∈ deltas ∧ (dl_old_path d = Some p ∨ dl_new_path d = Some p)).
Context (oid_round_trip : ∀ oid, oid_from_str (oid_to_string oid) = Some oid).

Lemma agrees_at_ext a b sh p : blob_at a p = blob_at b p → agrees_at a sh p → agrees_at b sh p.
Proof. unfold agrees_at, shown_document, shown_asset. by intros ->. Qed.

Lemma elem_of_clean_delta path p :
  p ∈ clean_delta_path path ↔ ∃ raw, path = Some raw ∧ sanitize_project_path raw = Ok p.
Proof.
  unfold clean_delta_path. destruct path as [raw|]; [|set_solver].
  destruct (sanitize_project_path raw) as [q|] eqn:E.
  - rewrite elem_of_singleton. split; [intros ->; by exists raw|]. intros (? & [= <-] & ?). congruence.
  - split; [by intros []%elem_of_empty|]. intros (? & [= <-] & ?). congruence.
Qed.

Lemma elem_of_changed deltas out p :
  p ∈ foldl (λ out delta, clean_delta_path (dl_new_path delta) ∪ (clean_delta_path (dl_old_path delta) ∪ out))
        out deltas
  ↔ p ∈ out ∨ ∃ d, d ∈ deltas ∧ (p ∈ clean_delta_path (dl_old_path d) ∨ p ∈ clean_delta_path (dl_new_path d)).
Proof.
  induction deltas as [|d deltas IH] in out |- *; cbn [foldl].
  - split; [by left|intros [?|(d & []%elem_of_nil & _)]; done].
  - rewrite IH, !elem_of_union. setoid_rewrite elem_of_cons. naive_solver.
Qed.

(** Paths outside [ps] have the same content in both. *)
Definition same_outside (ps : gset text) (base target : list GitBlob) : Prop :=
  (∀ p, p ∈ ps → canonical_path p) ∧ ∀ p, p ∉ ps → blob_at base p = blob_at target p.

Lemma diff_changed_same base target ps :
  canonical_tree base → canonical_tree target →
  diff_changed_paths_between diff_tree_to_tree base target = Ok ps → same_outside ps base target.
Proof.
  intros Hb Ht. unfold diff_changed_paths_between. destruct (diff_tree_to_tree _ _) as [deltas|] eqn:E; [|done].
  intros [= <-]. split.
  - intros p [[]%elem_of_empty|(d & _ & Hp)]%elem_of_changed. rewrite !elem_of_clean_delta in Hp.
    destruct Hp as [(raw & _ & Hp)|(raw & _ & Hp)]; by eapply sanitize_sound.
  - intros p Hp. destruct (decide (blob_at base p = blob_at target p)) as [|Hne]; [done|]. destruct Hp.
    assert (Hc : canonical_path p).
    { destruct (blob_at base p) eqn:E1; [exact (blob_at_canonical _ _ _ Hb E1)|].
      destruct (blob_at target p) eqn:E2; [exact (blob_at_canonical _ _ _ Ht E2)|done]. }
    destruct (diff_covers _ _ _ _ E Hne) as (d & Hd & Hp). apply (elem_of_changed deltas ∅ p). right. exists d.
    split; [done|]. rewrite !elem_of_clean_delta. apply sanitize_complete in Hc.
    destruct Hp; [left|right]; eauto.
Qed.

Definition known_commits (view : RepositoryView) : Prop :=
  ∀ oid commit, rv_commits view !! oid = Some commit → canonical_tree commit.

Lemma head_commit_known view oid head : head_commit view = Some (oid, head) → rv_commits view !! oid = Some head.
Proof.
  unfold head_commit. destruct (rv_branch view) as [o|]; simpl; [|done].
  destruct (rv_commits view !! o) eqn:E; [|done]. by intros [= <- <-].
Qed.

(** What a candidate is for its anchor; [live ps] holds of the differences to
    the live content. *)
Definition sound_candidate (view : RepositoryView) (target : list GitBlob) (live : gset text → Prop)
    (c : RevisionTransferCandidate) : Prop :=
  ∃ changed, sends target (changed_or_all changed target) c
    ∧ rc_transfer_mode c = match changed with Some _ => TransferDelta | None => TransferFull end
    ∧ match rc_anchor_kind c, changed with
      | AnchorNone, None => True
      | AnchorRevision id, Some ps =>
          ∃ base, find_revision oid_from_str view id = Ok base ∧ same_outside ps base target
      | AnchorLive, Some ps => live ps
      | _, _ => False
      end.

Lemma built_sound view target live manifest changed anchor :
  manifest_of target manifest →
  match anchor, changed with
  | AnchorNone, None => True
  | AnchorRevision id, Some ps =>
      ∃ base, find_revision oid_from_str view id = Ok base ∧ same_outside ps base target
  | AnchorLive, Some ps => live ps
  | _, _ => False
  end →
  sound_candidate view target live (build_transfer_candidate manifest changed anchor).
Proof.
  intros Hm Ha. destruct (build_transfer_candidate_sends target manifest changed anchor Hm) as (Hs & Hk & Hmode).
  exists changed. by rewrite Hk.
Qed.

Record sound_prepared (view : RepositoryView) (target : list GitBlob) (live : gset text → Prop)
    (prepared : PreparedRevisionTransfer) : Prop := {
  sp_manifest : manifest_of target (pt_target_manifest prepared);
  sp_candidates : Forall (sound_candidate view target live) (pt_candidates prepared);
  sp_live : match pt_live_base_context prepared with
            | None => True
            | Some (manifest, changed) =>
                ∃ oid head, head_commit view = Some (oid, head) ∧ manifest_of head manifest
                  ∧ same_outside changed head target
            end }.

Lemma prepare_branch_sound view target live rid current prepared prepared' :
  known_commits view → canonical_tree target → find_revision oid_from_str view rid = Ok target →
  sound_prepared view target live prepared → pt_live_base_context prepared = None →
  prepare_branch_anchor guess_content_type oid_to_string diff_tree_to_tree view target rid current prepared = Ok prepared' →
  sound_prepared view target live prepared'.
Proof.
  intros Hk Hc Hfind Hp Hnone. pose proof Hp as [Hm Hcs Hl]. unfold prepare_branch_anchor.
  destruct (head_commit view) as [[oid head]|] eqn:Ehead; [|by intros [= <-]].
  pose proof (head_commit_known _ _ _ Ehead) as Hhead.
  destruct (load_commit_manifest _ head) as [hm|] eqn:Ehm; simpl; [|done].
  apply load_commit_manifest_spec in Ehm; [|by eapply Hk].
  destruct (text_eqb (oid_to_string oid) rid) eqn:Eid.
  - apply text_eqb_true in Eid as <-. intros [= <-]. split; [done..|]. simpl. exists oid, head.
    split_and!; [done..|]. split; [by intros p []%elem_of_empty|]. intros p _. f_equal.
    unfold find_revision in Hfind. rewrite oid_round_trip, Hhead in Hfind. by injection Hfind.
  - destruct (diff_changed_paths_between _ _ _) as [ps|] eqn:Eps; simpl; [|done]. intros [= <-].
    apply diff_changed_same in Eps; [|by eapply Hk|done]. split; simpl; [done| |eauto].
    apply Forall_app_2; [done|]. destruct current; [|constructor]. apply Forall_singleton.
    apply built_sound; [done|]. exists head. split; [|done].
    unfold find_revision. by rewrite oid_round_trip, Hhead.
Qed.

Lemma prepare_current_sound view target live rid base prepared prepared' :
  known_commits view → canonical_tree target → sound_prepared view target live prepared →
  prepare_current_anchor oid_from_str diff_tree_to_tree view target rid base prepared = Ok prepared' →
  sound_prepared view target live prepared'.
Proof.
  intros Hk Hc Hp. pose proof Hp as [Hm Hcs Hl]. unfold prepare_current_anchor.
  destruct (text_eqb base rid); [by intros [= <-]|].
  destruct (oid_from_str base ≫= _) as [commit|] eqn:E; [|by intros [= <-]].
  destruct (existsb _ _); [by intros [= <-]|].
  apply bind_Some in E as (oid & Ho & Hcommit).
  destruct (diff_changed_paths_between _ _ _) as [ps|] eqn:Eps; simpl; [|done]. intros [= <-].
  apply diff_changed_same in Eps; [|by eapply Hk|done]. split; simpl; [done| |done].
  apply Forall_app_2; [done|]. apply Forall_singleton, built_sound; [done|].
  exists commit. split; [|done]. unfold find_revision. by rewrite Ho, Hcommit.
Qed.

Lemma prepare_sound view target live rid current prepared :
  known_commits view → find_revision oid_from_str view rid = Ok target →
  prepare_revision_transfer guess_content_type oid_from_str oid_to_string diff_tree_to_tree view rid current = Ok prepared →
  canonical_tree target ∧ sound_prepared view target live prepared.
Proof.
  intros Hk Hfind. unfold prepare_revision_transfer. rewrite Hfind. simpl.
  assert (Hc : canonical_tree target).
  { unfold find_revision in Hfind. destruct (oid_from_str rid) as [oid|]; [|done].
    destruct (rv_commits view !! oid) as [x|] eqn:E; [|done]. injection Hfind as <-. by eapply Hk. }
  destruct (load_commit_manifest _ target) as [m|] eqn:Em; simpl; [|done].
  apply load_commit_manifest_spec in Em; [|done].
  destruct (build_nodes_from_manifest m) as [ns|]; simpl; [|done].
  destruct (prepare_branch_anchor _ _ _ _ _ _ _ _) as [p1|] eqn:E1; simpl; [|done].
  assert (Hp1 : sound_prepared view target live p1).
  { eapply prepare_branch_sound; [..|exact E1]; [done..| |done]. split; [done| |done].
    by apply Forall_singleton, built_sound. }
  destruct current as [base|]; [|by intros [= <-]]. intros E2. split; [done|].
  by eapply prepare_current_sound.
Qed.

(** ** The live content *)

Definition held (sh : Shown) (p : text) : Prop := is_Some (sh_docs sh !! p) ∨ is_Some (sh_assets sh !! p).

(** The live content the browser holds is the one the server compares with:
    the branch when nothing is pending; otherwise its paths are those listed,
    and a listed path that the branch has, too, and that is not listed as
    changed has the content of the branch. *)
Definition live_agrees (view : RepositoryView) (snapshot : option RevisionPathSnapshot) (live : Shown) : Prop :=
  ∀ oid head, head_commit view = Some (oid, head) →
  match snapshot with
  | None => shows head live
  | Some s =>
      let listed := ps_live_document_paths s ++ ps_live_asset_paths s in
      let changed := ps_changed_document_paths s ++ ps_changed_asset_paths s in
      (∀ p, p ∈ listed ++ changed → canonical_path p)
      ∧ (∀ p, kinds_at live p)
      ∧ (∀ p, held live p → p ∈ listed)
      ∧ (∀ p, p ∈ listed → p ∉ changed → in_commit head p → agrees_at head live p)
  end.

Definition live_covers (target : list GitBlob) (live : Shown) (ps : gset text) : Prop :=
  (∀ p, p ∈ ps → canonical_path p) ∧ (∀ p, p ∉ ps → agrees_at target live p) ∧ ∀ p, kinds_at live p.

Lemma elem_of_clean_set l p :
  (∀ q, q ∈ l → canonical_path q) → p ∈ clean_set l ↔ p ∈ l.
Proof.
  intros Hc. unfold clean_set. rewrite elem_of_list_to_set, list_elem_of_omap. split.
  - intros (q & Hq & E). rewrite (sanitize_complete q) in E by auto. congruence.
  - intros Hp. exists p. by rewrite (sanitize_complete p) by auto.
Qed.

Lemma not_held sh p : ¬ held sh p → sh_docs sh !! p = None ∧ sh_assets sh !! p = None.
Proof.
  unfold held. intros Hn. destruct (sh_docs sh !! p), (sh_assets sh !! p); try done; destruct Hn; eauto.
Qed.

Lemma live_union_covers view target snapshot live oid head manifest changed :
  head_commit view = Some (oid, head) → canonical_tree head → manifest_of head manifest →
  same_outside changed head target → live_agrees view snapshot live →
  live_covers target live
    (changed ∪ match snapshot with
               | Some s => live_to_head manifest true (ps_changed_document_paths s) (ps_changed_asset_paths s)
                             (ps_live_document_paths s) (ps_live_asset_paths s)
               | None => live_to_head manifest false [] [] [] []
               end).
Proof.
  intros Hhead Hcan Hm [Hc Hsame] Hl. specialize (Hl _ _ Hhead).
  destruct snapshot as [s|]; unfold live_to_head; cbv zeta.
  2:{ split_and!.
      - intros p [?|[]%elem_of_empty]%elem_of_union. by apply Hc.
      - intros p [Hp _]%not_elem_of_union. by eapply agrees_at_ext, Hl; apply Hsame.
      - intros p. by eapply agrees_kinds, Hl. }
  cbv zeta in Hl. set (listed := ps_live_document_paths s ++ _) in *.
  set (edited := ps_changed_document_paths s ++ _) in *. destruct Hl as (Hcp & Hk & Hheld & Hag).
  assert (Hlisted : ∀ p, p ∈ clean_set listed ↔ p ∈ listed) by (intros; apply elem_of_clean_set; set_solver).
  assert (Hedited : ∀ p, p ∈ clean_set edited ↔ p ∈ edited) by (intros; apply elem_of_clean_set; set_solver).
  assert (Hdom : ∀ p, p ∈ dom (cm_files manifest) ↔ in_commit head p).
  { intros p. by rewrite elem_of_dom, (Hm p), fmap_is_Some. }
  split_and!; [| |done].
  - intros p. rewrite !elem_of_union, !elem_of_difference, Hlisted, Hedited, Hdom.
    intros [?|[[?|[[x Hx] _]]|[? _]]]; [by apply Hc|apply Hcp; set_solver| |apply Hcp; set_solver].
    exact (blob_at_canonical _ _ _ Hcan Hx).
  - intros p. rewrite !not_elem_of_union, !not_elem_of_difference, Hlisted, Hedited, Hdom.
    intros (Hnc & (Hne & H1) & H2). eapply agrees_at_ext; [by apply Hsame|].
    destruct (decide (in_commit head p)) as [Hi|Hi].
    + destruct H1 as [?|Hp]; [done|]. by apply Hag.
    + destruct H2 as [Hp|?]; [|done]. destruct (not_held live p) as [Hd Ha]; [by intros ?%Hheld|].
      unfold agrees_at, shown_document, shown_asset. rewrite Hd, Ha. unfold in_commit in Hi.
      destruct (blob_at head p); [by destruct Hi|]. by destruct (is_document_text_path p).
Qed.

Lemma least_candidate_elem best l : least_candidate best l ∈ best :: l.
Proof.
  induction l as [|c l IH] in best |- *; simpl; [left|].
  destruct (candidate_le best c).
  - destruct (proj1 (elem_of_cons _ _ _) (IH best)) as [->|Hl]; [left|by right; right].
  - right. apply IH.
Qed.

Lemma select_sound view target live prepared :
  sound_prepared view target live prepared →
  sound_candidate view target live
    (select_transfer_candidate (pt_target_manifest prepared) (pt_candidates prepared)).
Proof.
  intros [Hm Hcs _]. unfold select_transfer_candidate. destruct (pt_candidates prepared) as [|c cs].
  - by apply built_sound.
  - rewrite Forall_forall in Hcs. apply Hcs, least_candidate_elem.
Qed.

Lemma add_live_sound view target live snapshot prepared :
  known_commits view → sound_prepared view target (live_covers target live) prepared →
  live_agrees view snapshot live →
  sound_prepared view target (live_covers target live)
    (match snapshot with
     | Some s => add_live_anchor_candidate prepared true (ps_changed_document_paths s)
                   (ps_changed_asset_paths s) (ps_live_document_paths s) (ps_live_asset_paths s)
     | None => add_live_anchor_candidate prepared false [] [] [] []
     end).
Proof.
  intros Hk Hp Hlive. pose proof Hp as [Hm Hcs Hl]. unfold add_live_anchor_candidate.
  destruct (pt_live_base_context prepared) as [[manifest changed]|] eqn:Hctx; [|by destruct snapshot].
  destruct Hl as (oid & head & Hhead & Hmh & Hsame).
  pose proof (Hk _ _ (head_commit_known _ _ _ Hhead)) as Hcan.
  pose proof (live_union_covers _ _ _ _ _ _ _ _ Hhead Hcan Hmh Hsame Hlive) as Hcov.
  destruct snapshot as [s|]; (split; simpl; [done| |rewrite Hctx; eauto];
    apply Forall_app_2; [done|]; apply Forall_singleton, built_sound; [done|exact Hcov]).
Qed.

(** The base a transfer is applied to. *)
Lemma sound_transfer_shows view target rid entry prepared t input sh :
  canonical_tree target → find_revision oid_from_str view rid = Ok target →
  sound_prepared view target (live_covers target (ti_live input)) prepared →
  materialize_best_revision_transfer oid_from_str view rid entry prepared = Ok t →
  ti_force_full input = false →
  (∀ id base, ti_current_revision_anchor_id input = Some id →
     find_revision oid_from_str view id = Ok base → shows base (ti_revision input)) →
  applyRevisionTransfer input t = Some sh → shows target sh.
Proof.
  intros Hcan Hfind Hp Ht Hff Hcur. unfold materialize_best_revision_transfer in Ht.
  destruct (select_sound _ _ _ _ Hp) as (changed & Hsend & Hmode & Hanchor).
  set (c := select_transfer_candidate _ _) in *.
  assert (Hpatch : ∀ base, (∀ p, changed_or_all changed target p → canonical_path p) →
    (∀ p, ¬ changed_or_all changed target p → agrees_at target base p) →
    (∀ p, changed_or_all changed target p → kinds_at base p) → shows target (patch_shown t base)).
  { intros base Hc1 Hc2 Hc3. eapply patch_shows; [|exact Hc2|exact Hc3].
    eapply materialize_sent; [done|apply Hp|done|done|exact Ht]. }
  destruct (materialize_fields _ _ _ _ _ _ _ Hfind Ht) as [Hm Ha]. unfold applyRevisionTransfer. rewrite Hff, Hm, Hmode. simpl.
  destruct changed as [ps|]; simpl in *.
  - destruct (rc_anchor_kind c) as [| |id] eqn:Ek; [done|..].
    + rewrite Ha. intros [= <-]. destruct Hanchor as (Hc1 & Hc2 & Hc3). apply Hpatch; auto.
    + destruct Ha as [-> ->]. destruct (ti_current_revision_anchor_id input) as [current|] eqn:Ec; [|done].
      destruct (negb _ && _) eqn:E; [|done]. apply andb_true_iff in E as [_ <-%text_eqb_true].
      intros [= <-]. destruct Hanchor as (base & Hbase & Hc1 & Hc2).
      pose proof (Hcur _ _ eq_refl Hbase) as Hs. apply Hpatch; [done|..].
      * intros p Hnp. eapply agrees_at_ext, Hs. by apply Hc2.
      * intros p _. by eapply agrees_kinds.
  - intros [= <-]. apply Hpatch.
    + intros p [x Hx]. exact (blob_at_canonical _ _ _ Hcan Hx).
    + intros p Hn. unfold agrees_at, shown_document, shown_asset, in_commit in *. simpl. rewrite !lookup_empty.
      destruct (blob_at target p); [by destruct Hn|]. by destruct (is_document_text_path p).
    + intros p _. unfold kinds_at. simpl. rewrite !lookup_empty. by destruct (is_document_text_path p).
Qed.

(** C32: what the browser shows after applying a transfer is exactly the
    revision it asked for: whichever difference the server chose to send, to
    nothing, to another revision the browser shows, or to the live content,
    every document and asset of the commit is there with its content and
    nothing else is.  A difference to the live content is taken from the list
    of live paths the server keeps, and the theorem supposes that this list is
    truthful ([live_agrees]): with a pending change, the browser holds no path
    that is not listed, and a listed path that the head has too and that is not
    listed as changed has the content of the head.  The list is not truthful
    after an asset was moved onto the path of another, and then the browser
    shows something else ([moved_assets_hide_the_revision]). *)
Theorem transfers_reproduce_the_revision view entry snapshot revision_id request t target input sh :
  known_commits view →
  find_revision oid_from_str view revision_id = Ok target →
  revision_documents guess_content_type oid_from_str oid_to_string diff_tree_to_tree view entry snapshot
    revision_id request = Ok t →
  ti_force_full input = false →
  (∀ id base, ti_current_revision_anchor_id input = Some id →
     find_revision oid_from_str view id = Ok base → shows base (ti_revision input)) →
  live_agrees view snapshot (ti_live input) →
  applyRevisionTransfer input t = Some sh →
  shows target sh.
Proof.
  intros Hk Hfind. unfold revision_documents.
  destruct (prepare_revision_transfer _ _ _ _ _ _ _) as [prepared|] eqn:Ep; simpl; [|done].
  destruct (prepare_sound _ _ (live_covers target (ti_live input)) _ _ _ Hk Hfind Ep) as [Hcan Hp].
  intros Ht Hff Hcur Hlive. eapply sound_transfer_shows; [done..| |exact Ht|done|done].
  destruct (_ && _); [|done]. by apply add_live_sound.
Qed.

(** What is compared with the live content. *)
Lemma prepare_live_context view revision_id head oid target prepared :
  known_commits view → head_commit view = Some (oid, head) →
  find_revision oid_from_str view revision_id = Ok target →
  prepare_revision_transfer guess_content_type oid_from_str oid_to_string diff_tree_to_tree view revision_id None = Ok prepared →
  ∃ hm changed, pt_live_base_context prepared = Some (hm, changed) ∧ manifest_of head hm
    ∧ (∀ p, p ∈ changed → ∃ deltas d, diff_tree_to_tree head target = Some deltas ∧ d ∈ deltas
         ∧ p ∈ clean_delta_path (dl_old_path d) ∪ clean_delta_path (dl_new_path d)).
Proof.
  intros Hk Hhead Hfind. unfold prepare_revision_transfer. rewrite Hfind. simpl.
  destruct (load_commit_manifest _ target) as [m|]; simpl; [|done].
  destruct (build_nodes_from_manifest m) as [ns|]; simpl; [|done].
  unfold prepare_branch_anchor. rewrite Hhead.
  pose proof (Hk _ _ (head_commit_known _ _ _ Hhead)) as Hcan.
  destruct (load_commit_manifest _ head) as [hm|] eqn:Ehm; simpl; [|done].
  apply load_commit_manifest_spec in Ehm; [|done].
  destruct (text_eqb _ _).
  - intros [= <-]. simpl. exists hm, ∅. split_and!; [done..|]. by intros p []%elem_of_empty.
  - unfold diff_changed_paths_between. destruct (diff_tree_to_tree head target) as [deltas|]; simpl; [|done].
    intros [= <-]. simpl. eexists hm, _. split_and!; [done..|].
    intros p [[]%elem_of_empty|(d & Hd & Hp)]%elem_of_changed. exists deltas, d.
    rewrite elem_of_union. auto.
Qed.

Lemma asset_paths_since project since db p : p ∈ asset_paths_created_since project since db → p ∈ asset_paths project db.
Proof.
  unfold asset_paths_created_since, asset_paths, asset_paths_where. rewrite !list_elem_of_fmap.
  intros ([k a] & -> & Ha). apply elem_of_select in Ha as [Hk [Hp _]%andb_true_iff]. exists (k, a).
  split; [done|]. by apply elem_of_select.
Qed.
Lemma document_paths_since project since db p :
  p ∈ document_paths_updated_since project since db → p ∈ document_paths project db.
Proof.
  unfold document_paths_updated_since, document_paths, document_paths_where. rewrite !list_elem_of_fmap.
  intros ([k d] & -> & Hd). apply elem_of_select in Hd as [Hk [Hp _]%andb_true_iff]. exists (k, d).
  split; [done|]. by apply elem_of_select.
Qed.

(** A listed path of the branch that is not listed as changed, and the paths
    of the difference. *)
Lemma live_to_head_misses head hm project since db p :
  canonical_tree head → manifest_of head hm →
  (∀ q, q ∈ asset_paths project db ++ document_paths project db → canonical_path q) →
  let ps := live_to_head hm true (document_paths_updated_since project since db)
              (asset_paths_created_since project since db) (document_paths project db) (asset_paths project db) in
  (∀ q, q ∈ ps → canonical_path q)
  ∧ (in_commit head p → p ∈ asset_paths project db → p ∉ asset_paths_created_since project since db →
     p ∉ document_paths_updated_since project since db → p ∉ ps).
Proof.
  intros Hcan Hm Hq. unfold live_to_head. cbv zeta.
  assert (Hlisted : ∀ q, q ∈ clean_set (document_paths project db ++ asset_paths project db)
                         ↔ q ∈ document_paths project db ++ asset_paths project db).
  { intros q. apply elem_of_clean_set. intros x Hx. apply Hq. set_solver. }
  assert (Hedited : ∀ q, q ∈ clean_set (document_paths_updated_since project since db ++ asset_paths_created_since project since db)
                         ↔ q ∈ document_paths_updated_since project since db ++ asset_paths_created_since project since db).
  { intros q. apply elem_of_clean_set. intros x [Hx%document_paths_since|Hx%asset_paths_since]%elem_of_app;
      apply Hq, elem_of_app; auto. }
  assert (Hdom : ∀ q, q ∈ dom (cm_files hm) ↔ in_commit head q).
  { intros q. by rewrite elem_of_dom, (Hm q), fmap_is_Some. }
  split.
  - intros q. rewrite !elem_of_union, !elem_of_difference, Hlisted, Hedited, Hdom, !elem_of_app.
    intros [[[Hx|Hx]|[[x Hx] _]]|[Hx _]].
    + apply document_paths_since in Hx. apply Hq, elem_of_app. auto.
    + apply asset_paths_since in Hx. apply Hq, elem_of_app. auto.
    + exact (blob_at_canonical _ _ _ Hcan Hx).
    + apply Hq, elem_of_app. tauto.
  - intros Hi Ha Hna Hnd. rewrite !not_elem_of_union, !not_elem_of_difference, Hlisted, Hedited, Hdom, !elem_of_app.
    tauto.
Qed.

(** An asset that was moved onto the path of an older one is not listed as
    changed, since a move keeps the time of its creation: a difference to the
    live content then leaves the browser with the live asset, whatever the
    revision has at that path. *)
Theorem moved_assets_hide_the_revision view entry db project since revision_id head oid target p x t input sh :
  known_commits view →
  head_commit view = Some (oid, head) →
  find_revision oid_from_str view revision_id = Ok target →
  blob_at head p = Some x →
  (∀ deltas d, diff_tree_to_tree head target = Some deltas → d ∈ deltas →
     p ∉ clean_delta_path (dl_old_path d) ∪ clean_delta_path (dl_new_path d)) →
  p ∈ asset_paths project db →
  p ∉ asset_paths_created_since project since db →
  p ∉ document_paths_updated_since project since db →
  (∀ q, q ∈ asset_paths project db ++ document_paths project db → canonical_path q) →
  revision_documents guess_content_type oid_from_str oid_to_string diff_tree_to_tree view entry
    (Some (revision_path_snapshot project since db)) revision_id (MkRequest None true) = Ok t →
  rt_base_anchor t = BaseLive →
  ti_force_full input = false →
  applyRevisionTransfer input t = Some sh →
  sh_assets sh !! p = sh_assets (ti_live input) !! p ∧ sh_docs sh !! p = sh_docs (ti_live input) !! p.
Proof.
  intros Hk Hhead Hfind Hxh Hsame Hlive Hnew_a Hnew_d Hcan. unfold revision_documents.
  destruct (prepare_revision_transfer _ _ _ _ _ _ _) as [prepared|] eqn:Ep; simpl; [|done].
  destruct (prepare_sound _ _ (λ _, False) _ _ _ Hk Hfind Ep) as [Htc Hp].
  destruct (prepare_live_context _ _ _ _ _ _ Hk Hhead Hfind Ep) as (hm & h2t & Hctx & Hmh & Hps).
  pose proof (Hk _ _ (head_commit_known _ _ _ Hhead)) as Hhcan.
  destruct (live_to_head_misses head hm project since db p Hhcan Hmh Hcan) as [Hlc Hnl].
  unfold add_live_anchor_candidate. rewrite Hctx. unfold materialize_best_revision_transfer. simpl.
  set (live_union := h2t ∪ _). set (c := select_transfer_candidate _ _). intros Ht Hbase Hff Happly.
  assert (Hc : c ∈ pt_candidates prepared
                 ++ [build_transfer_candidate (pt_target_manifest prepared) (Some live_union) AnchorLive]).
  { unfold c, select_transfer_candidate. destruct (pt_candidates prepared); [left|apply least_candidate_elem]. }
  clearbody c. destruct (materialize_fields _ _ _ _ _ _ _ Hfind Ht) as [Hmode Hanchor].
  destruct (build_transfer_candidate_sends target (pt_target_manifest prepared) (Some live_union) AnchorLive)
    as (Hs & Hkind & Hdelta); [apply Hp|].
  apply elem_of_app in Hc as [Hc| ->%list_elem_of_singleton].
  { destruct Hp as [_ Hcs _]. rewrite Forall_forall in Hcs. destruct (Hcs _ Hc) as (changed & _ & _ & Ha).
    destruct (rc_anchor_kind c); [congruence|by destruct changed|]. destruct Hanchor. congruence. }
  assert (Hsent : sent target (λ q, q ∈ live_union) t).
  { eapply materialize_sent; [done|apply Hp|exact Hs| |exact Ht]. intros q [Hq|Hq]%elem_of_union; [|by apply Hlc].
    destruct (Hps q Hq) as (deltas & d & _ & _ & Hd). apply elem_of_union in Hd.
    rewrite !elem_of_clean_delta in Hd. destruct Hd as [(raw & _ & Hr)|(raw & _ & Hr)]; by eapply sanitize_sound. }
  unfold applyRevisionTransfer in Happly. rewrite Hff, Hmode, Hdelta, Hbase in Happly. injection Happly as <-.
  destruct (patch_untouched _ _ _ (ti_live input) p Hsent) as [-> ->]; [|done].
  intros [Hq|Hq]%elem_of_union.
  - destruct (Hps p Hq) as (deltas & d & Hdeltas & Hd & Hpd). exact (Hsame _ _ Hdeltas Hd Hpd).
  - apply Hnl in Hq; [done|unfold in_commit; rewrite Hxh; eauto|done..].
Qed.

Lemma prepare_candidates view revision_id target prepared :
  find_revision oid_from_str view revision_id = Ok target →
  prepare_revision_transfer guess_content_type oid_from_str oid_to_string diff_tree_to_tree view revision_id None = Ok prepared →
  pt_candidates prepared = [build_transfer_candidate (pt_target_manifest prepared) None AnchorNone].
Proof.
  intros Hfind. unfold prepare_revision_transfer. rewrite Hfind. simpl.
  destruct (load_commit_manifest _ target) as [m|]; simpl; [|done].
  destruct (build_nodes_from_manifest m) as [ns|]; simpl; [|done].
  unfold prepare_branch_anchor. destruct (head_commit view) as [[oid head]|]; simpl; [|by intros [= <-]].
  destruct (load_commit_manifest _ head); simpl; [|done]. destruct (text_eqb _ _); [by intros [= <-]|].
  destruct (diff_changed_paths_between _ _ _); simpl; [by intros [= <-]|done].
Qed.

(** The state that a push is merged from. *)
Lemma load_git_state_into_spec commit s0 state p :
  canonical_tree commit → NoDup (bl_path <$> commit) →
  load_git_state_into guess_content_type commit s0 = Ok state →
  match blob_at commit p with
  | None => gs_documents state !! p = gs_documents s0 !! p ∧ gs_assets state !! p = gs_assets s0 !! p
  | Some x =>
      match shown_document commit p with
      | Some t => gs_documents state !! p = Some t ∧ gs_assets state !! p = gs_assets s0 !! p
      | None => gs_documents state !! p = gs_documents s0 !! p
                ∧ gs_assets state !! p = Some (MkGitAsset (guess_content_type p) x)
      end
  end.
Proof.
  induction commit as [|b commit IH] in s0 |- *; intros Hc Hnd; [by intros [= <-]|]. simpl.
  apply NoDup_cons in Hnd as [Hb Hnd].
  assert (Hc' : canonical_tree commit) by (intros b' raw Hb'; eapply Hc; by right).
  unfold shown_document. rewrite !blob_at_cons. destruct (bl_path b) as [q|] eqn:Hq.
  2:{ rewrite !decide_False by done. intros Hl. exact (IH _ Hc' Hnd Hl). }
  rewrite (sanitize_complete q) by (eapply Hc; [left|done]).
  destruct (decide (Some q = Some p)) as [[= ->]|Hne].
  - assert (Hnone : blob_at commit p = None).
    { destruct (blob_at commit p) eqn:E; [|done]. apply blob_at_elem in E as (b' & Hb' & Hp').
      destruct Hb. rewrite <-Hp'. by apply list_elem_of_fmap_2. }
    destruct (is_document_text_path p); [simpl; destruct (from_utf8 (bl_content b))|];
      intros Hl; apply (IH _ Hc' Hnd) in Hl; rewrite Hnone in Hl; simpl in Hl;
      by rewrite lookup_insert_eq in Hl.
  - assert (Hqp : q ≠ p) by congruence.
    destruct (if is_document_text_path q then _ else _); intros Hl; apply (IH _ Hc' Hnd) in Hl; simpl in Hl;
      rewrite lookup_insert_ne in Hl by done; exact Hl.
Qed.

(** A text file of a commit that is not UTF-8 is an asset where a push is
    merged, but keeps the whole revision from being opened. *)
Theorem undecodable_text_hides_the_revision view entry snapshot revision_id target p content :
  known_commits view →
  find_revision oid_from_str view revision_id = Ok target → NoDup (bl_path <$> target) →
  blob_at target p = Some content → is_document_text_path p = true → from_utf8 content = None →
  (∀ state, load_git_state_from_commit guess_content_type target = Ok state →
     gs_assets state !! p = Some (MkGitAsset (guess_content_type p) content))
  ∧ ∀ t, revision_documents guess_content_type oid_from_str oid_to_string diff_tree_to_tree view entry snapshot
           revision_id (MkRequest None false) ≠ Ok t.
Proof.
  intros Hk Hfind Hnd Hp Hdoc Hutf.
  assert (Htree : canonical_tree target).
  { unfold find_revision in Hfind. destruct (oid_from_str revision_id) as [oid|]; [|done].
    destruct (rv_commits view !! oid) as [c|] eqn:E; [|done]. injection Hfind as <-. by eapply Hk. }
  split.
  - intros state Hl. apply (load_git_state_into_spec _ _ _ p) in Hl; [|done..].
    unfold shown_document in Hl. rewrite Hdoc, Hp in Hl. simpl in Hl. rewrite Hutf in Hl. apply Hl.
  - intros t. unfold revision_documents. simpl.
    destruct (prepare_revision_transfer _ _ _ _ _ _ _) as [prepared|] eqn:Ep; simpl; [|done].
    destruct (prepare_sound _ _ (λ _, False) _ _ _ Hk Hfind Ep) as [Hcan [Hm _ _]].
    pose proof (prepare_candidates _ _ _ _ Hfind Ep) as Hcs.
    unfold materialize_best_revision_transfer, select_transfer_candidate. rewrite Hcs. simpl. intros Ht.
    destruct (build_transfer_candidate_sends target (pt_target_manifest prepared) None AnchorNone Hm) as (Hs & _).
    assert (Hsent : sent target (in_commit target) t).
    { eapply materialize_sent; [exact Hfind|exact Hm|exact Hs| |exact Ht].
      intros q [x Hx]. exact (blob_at_canonical _ _ _ Hcan Hx). }
    destruct Hsent as [Hd _ _ _ Htexts _].
    assert (Hin : p ∈ rd_path <$> rt_documents t) by (apply Hd; simpl; unfold in_commit; rewrite Hp; eauto).
    apply list_elem_of_fmap in Hin as (d & -> & Hd'). apply Htexts in Hd'. rewrite Hp in Hd'. simpl in Hd'. congruence.
Qed.
End facts.

(** * A repository of two revisions *)

Definition no_type (_ : text) : text := [].
Definition digit_oid (t : text) : option N := match t with [oid] => Some oid | _ => None end.
Definition oid_digit (oid : N) : text := [oid].
Definition differing_paths (base target : list GitBlob) : option (list DiffDelta) :=
  Some ((λ p, MkDelta p p) <$> filter (λ p : option text,
          match p with
          | Some q => negb (bool_decide (blob_at base q = blob_at target q))
          | None => false end = true) (bl_path <$> base ++ target)).

Lemma differing_paths_covers base target deltas p :
  differing_paths base target = Some deltas → blob_at base p ≠ blob_at target p →
  ∃ d, d ∈ deltas ∧ (dl_old_path d = Some p ∨ dl_new_path d = Some p).
Proof.
  intros [= <-] Hne. exists (MkDelta (Some p) (Some p)). split; [|by left].
  apply list_elem_of_fmap. exists (Some p). split; [done|]. apply list_elem_of_filter.
  split; [by apply negb_true_iff, bool_decide_eq_false|]. rewrite fmap_app.
  destruct (blob_at base p) eqn:Hb; [|destruct (blob_at target p) eqn:Ht; [|done]].
  - apply blob_at_elem in Hb as (b & Hb & Hp). apply elem_of_app. left. rewrite <-Hp. by apply list_elem_of_fmap_2.
  - apply blob_at_elem in Ht as (b & Hb' & Hp). apply elem_of_app. right. rewrite <-Hp. by apply list_elem_of_fmap_2.
Qed.


Lemma digit_round_trip oid : digit_oid (oid_digit oid) = Some oid.
Proof. done. Qed.

(** Two revisions of one document. *)
Definition main_blob (content : string) : GitBlob := MkGitBlob (Some (lit "main.typ")) (lit content).
Definition two_revisions : RepositoryView :=
  MkView {[1%N := [main_blob "= One"]; 2%N := [main_blob "= Two"]]} (Some 2%N).
Definition shown_main (content : string) : Shown := MkShown {[lit "main.typ" := lit content]} ∅.

Lemma shows_main content : from_utf8 (lit content) = Some (lit content) → shows [main_blob content] (shown_main content).
Proof.
  intros Hu p. unfold agrees_at, shown_document, shown_asset, shown_main, main_blob. simpl.
  rewrite blob_at_cons. simpl. destruct (decide (Some (lit "main.typ") = Some p)) as [[= <-]|Hne].
  - rewrite lookup_singleton_eq, lookup_empty. simpl. by rewrite Hu.
  - rewrite lookup_singleton_ne by congruence. rewrite lookup_empty. by destruct (is_document_text_path p).
Qed.

(** Whether every path of a tree is canonical. *)
Definition checked_tree (commit : list GitBlob) : bool :=
  forallb (λ b, match bl_path b with
                | Some p => match sanitize_project_path p with Ok q => text_eqb q p | Err _ => false end
                | None => true end) commit.
Lemma checked_tree_canonical commit : checked_tree commit = true → canonical_tree commit.
Proof.
  unfold checked_tree. rewrite forallb_forall. intros Hc b p Hb%list_elem_of_In Hp.
  specialize (Hc b Hb). rewrite Hp in Hc.
  destruct (sanitize_project_path p) as [q|] eqn:E; [|done]. apply text_eqb_true in Hc as ->. by eapply sanitize_sound.
Qed.
Lemma known_checked view :
  forallb (λ kc, checked_tree kc.2) (map_to_list (rv_commits view)) = true → known_commits view.
Proof.
  rewrite forallb_forall. intros Hc oid commit Hk. apply checked_tree_canonical.
  apply (Hc (oid, commit)), list_elem_of_In. by apply elem_of_map_to_list.
Qed.

(** The browser shows the first revision and asks for the second. *)
Definition browsing_input : RevisionTransferInput :=
  MkInput false (Some (oid_digit 1)) (shown_main "= Two") (shown_main "= One").
Definition second_revision : result RevisionTransferError RevisionTransfer :=
  revision_documents no_type digit_oid oid_digit differing_paths two_revisions (lit "main.typ") None
    (oid_digit 2) (MkRequest (Some (oid_digit 1)) true).
Definition second_transfer : RevisionTransfer :=
  MkTransfer (oid_digit 2) (lit "main.typ") TransferDelta BaseRevision (Some (oid_digit 1))
    [Node (lit "main.typ") File] [MkRevisionDocument (lit "main.typ") (lit "= Two")] [] [] [].

Lemma transfers_reproduce_the_revision_witness : shows [main_blob "= Two"] (shown_main "= Two").
Proof.
  apply (transfers_reproduce_the_revision no_type digit_oid oid_digit differing_paths differing_paths_covers
           digit_round_trip two_revisions (lit "main.typ") None (oid_digit 2)
           (MkRequest (Some (oid_digit 1)) true) second_transfer _ browsing_input).
  - apply known_checked. vm_compute. reflexivity.
  - vm_compute. reflexivity.
  - vm_compute. reflexivity.
  - reflexivity.
  - intros id base [= <-] Hb. vm_compute in Hb. injection Hb as <-. by apply shows_main.
  - intros oid head [= <- <-]. by apply shows_main.
  - vm_compute. reflexivity.
Defined.

(** Two pictures, uploaded before the synchronisation at time 5; then the first
    is deleted and the second moved to its place. *)
Definition picture (path : string) (id : uuid) (content : bytes) : WorkspaceOp :=
  OUploadAsset id notes (lit path) id (lit "inline://" ++ [id]) (lit "image/png") 1 (Some content)
    (MkActor (Some bob) None).
Definition rearranged_pictures : WorkspaceDB :=
  run_workspace_trace retention
    [(healthy, 3, picture "a.png" 70%N [1%N]); (healthy, 4, picture "b.png" 71%N [2%N]);
     (healthy, 6, ODeleteFile notes (lit "a.png") (MkActor (Some bob) None));
     (healthy, 7, OMoveFile notes (lit "b.png") (lit "a.png") (MkActor (Some bob) None))] opened_workspace.
Definition pictures_commit : list GitBlob :=
  [MkGitBlob (Some (lit "a.png")) [1%N]; MkGitBlob (Some (lit "b.png")) [2%N]; main_blob "= Notes"].
Definition pictures_view : RepositoryView := MkView {[1%N := pictures_commit]} (Some 1%N).
Definition pictures_live : Shown :=
  MkShown {[lit "main.typ" := lit "= Notes"]} {[lit "a.png" := [2%N]]}.
Definition pictures_transfer : result RevisionTransferError RevisionTransfer :=
  revision_documents no_type digit_oid oid_digit differing_paths pictures_view (lit "main.typ")
    (Some (revision_path_snapshot notes 5 rearranged_pictures)) (oid_digit 1) (MkRequest None true).
Definition sent_pictures : RevisionTransfer :=
  MkTransfer (oid_digit 1) (lit "main.typ") TransferDelta BaseLive None
    [Node (lit "a.png") File; Node (lit "b.png") File; Node (lit "main.typ") File]
    [] [] [MkRevisionAsset (lit "b.png") [] 1 [2%N]] [].

(** The browser shows the live picture in place of the one of the revision. *)
Lemma moved_assets_hide_the_revision_witness :
  sh_assets (patch_shown sent_pictures pictures_live) !! lit "a.png" = Some [2%N]
  ∧ blob_at pictures_commit (lit "a.png") = Some [1%N].
Proof.
  split; [|vm_compute; reflexivity].
  apply (moved_assets_hide_the_revision no_type digit_oid oid_digit differing_paths differing_paths_covers
    digit_round_trip pictures_view (lit "main.typ") rearranged_pictures notes 5 (oid_digit 1) pictures_commit 1%N
    pictures_commit (lit "a.png") [1%N] sent_pictures (MkInput false None pictures_live (MkShown ∅ ∅))).
  - apply known_checked. vm_compute. reflexivity.
  - vm_compute. reflexivity.
  - vm_compute. reflexivity.
  - vm_compute. reflexivity.
  - intros deltas d Hd. vm_compute in Hd. injection Hd as <-. by intros ?%elem_of_nil.
  - apply (bool_decide_unpack _). vm_compute. exact I.
  - apply (bool_decide_unpack _). vm_compute. exact I.
  - apply (bool_decide_unpack _). vm_compute. exact I.
  - intros q Hq. apply (sanitize_sound q).
    assert (Hl : asset_paths notes rearranged_pictures ++ document_paths notes rearranged_pictures
                 = [lit "a.png"; lit "main.typ"]) by (vm_compute; reflexivity).
    rewrite Hl in Hq. apply elem_of_cons in Hq as [->| ->%list_elem_of_singleton]; vm_compute; reflexivity.
  - vm_compute. reflexivity.
  - reflexivity.
  - reflexivity.
  - vm_compute. reflexivity.
Defined.

(** A table in Latin-1. *)
Definition latin_commit : list GitBlob := [MkGitBlob (Some (lit "data.csv")) [0xE9%N]; main_blob "= Notes"].
Definition latin_view : RepositoryView := MkView {[1%N := latin_commit]} (Some 1%N).

Lemma undecodable_text_hides_the_revision_witness :
  is_ok (load_git_state_from_commit no_type latin_commit) = true
  ∧ ∀ t, revision_documents no_type digit_oid oid_digit differing_paths latin_view (lit "main.typ") None
           (oid_digit 1) (MkRequest None false) ≠ Ok t.
Proof.
  split; [vm_compute; reflexivity|].
  apply (undecodable_text_hides_the_revision no_type digit_oid oid_digit differing_paths differing_paths_covers
    digit_round_trip latin_view (lit "main.typ") None (oid_digit 1) latin_commit (lit "data.csv") [0xE9%N]).
  - apply known_checked. vm_compute. reflexivity.
  - vm_compute. reflexivity.
  - apply (bool_decide_unpack _). vm_compute. exact I.
  - vm_compute. reflexivity.
  - vm_compute. reflexivity.
  - vm_compute. reflexivity.
Defined.
