(* ===== verification/GitTracking.v ===== *)
(** * Versioning: content changes and the pending flag

    A project whose content is not in its repository is marked pending in
    [git_repositories].  Every operation that changes the content of a project
    marks it, in the same transaction, but for the import of repository
    content, whose caller settles the mark (versioning::http::receive_pack). *)
From S2P Require Import Prelude Store Text Paths AccessModel AccessSystem WorkspaceModel WorkspaceStatements.
From S2P Require Import WorkspaceFiles WorkspaceProjects Collaboration WorkspaceFrames WorkspaceSystem.
From S2P Require Import WorkspaceSteps WorkspaceTheorems.

Open Scope Z_scope.

(** ** Marks *)

Definition pending (p : uuid) (db : WorkspaceDB) : Prop :=
  ∃ row, git_repositories db !! p = Some row ∧ gr_pending_sync row = true.

(** From one database to a later one: the row of [p] is as before or pending,
    and it is pending if the version of the project has moved. *)
Record tracked (p : uuid) (db db' : WorkspaceDB) : Prop := MkTracked {
  tk_project : is_Some (project_rows db !! p) → is_Some (project_rows db' !! p);
  tk_row : git_repositories db' !! p = git_repositories db !! p
           ∨ pending p db' ∧ is_Some (project_rows db' !! p);
  tk_version : ∀ r r', project_rows db !! p = Some r → project_rows db' !! p = Some r' →
    p_workspace_version r' = p_workspace_version r ∨ pending p db';
}.

Lemma pending_row p db db' : git_repositories db' !! p = git_repositories db !! p → pending p db → pending p db'.
Proof. intros He (row & Hr & Hp). exists row. by rewrite He. Qed.

#[export] Instance tracked_preorder p : PreOrder (tracked p).
Proof.
  split.
  - intros db. split; [done|by left|]. intros r r' Hr Hr'. left. congruence.
  - intros db1 db2 db3 [P1 R1 V1] [P2 R2 V2]. split; [auto| |].
    + destruct R2 as [R2|]; [|by right]. destruct R1 as [R1|[R1 ?]]; [left; congruence|right].
      split; [by eapply pending_row|auto].
    + intros r1 r3 H1 H3. destruct (P1 (mk_is_Some _ _ H1)) as [r2 H2].
      destruct (V2 r2 r3 H2 H3) as [E2|]; [|by right]. destruct (V1 r1 r2 H1 H2) as [E1|Hp]; [left; congruence|].
      right. destruct R2 as [R2|[]]; [by eapply pending_row|done].
Qed.

(** Statements that leave both tables alone. *)
Definition quiet (db db' : WorkspaceDB) : Prop :=
  project_rows db' = project_rows db ∧ git_repositories db' = git_repositories db.
#[export] Instance quiet_preorder : PreOrder quiet.
Proof. split; [by split|]. intros db1 db2 db3 [] []. split; congruence. Qed.
Lemma quiet_tracked p db db' : quiet db db' → tracked p db db'.
Proof. intros [Hr Hg]. split; rewrite ?Hr, ?Hg; [done|by left|]. intros r r' H1 H2. left. congruence. Qed.

Create HintDb quiet.
Ltac quiet := intros; simpl in *; repeat (case_match; simplify_eq/=; try done); split; reflexivity.

Lemma quiet_insert_document id q path content now db d db' :
  insert_document id q path content now db = Ok (d, db') → quiet db db'.
Proof. unfold insert_document. quiet. Qed.
Lemma quiet_upsert_by_path id q path content now db r db' :
  upsert_by_path id q path content now db = Ok (r, db') → quiet db db'.
Proof. unfold upsert_by_path, insert_document. quiet. Qed.
Lemma quiet_update_content q k pr cr content now db r db' :
  update_content q k pr cr content now db = Ok (r, db') → quiet db db'.
Proof. unfold update_content. quiet. Qed.
Lemma quiet_affecting {A} (f : WorkspaceDB → A * WorkspaceDB) db a db' :
  quiet db (f db).2 → affecting f db = Ok (a, db') → quiet db db'.
Proof. unfold affecting. intros Hq [= Hf]. by rewrite Hf in Hq. Qed.
Lemma quiet_delete_documents P db : quiet db (delete_documents P db).
Proof. by split. Qed.
Lemma quiet_update_projected q k revision content now db : quiet db (update_projected_content q k revision content now db).2.
Proof. unfold update_projected_content. by destruct (find_by_identity _ _ _ _). Qed.
Lemma quiet_insert_directory q path now db b db' : insert_directory q path now db = Ok (b, db') → quiet db db'.
Proof. unfold insert_directory. quiet. Qed.
Lemma quiet_upsert_asset id a db r db' : upsert_asset id a db = Ok (r, db') → quiet db db'.
Proof. unfold upsert_asset. quiet. Qed.
Lemma quiet_ensure_settings q entry engine now db r db' : ensure_settings q entry engine now db = Ok (r, db') → quiet db db'.
Proof. unfold ensure_settings. quiet. Qed.
Lemma quiet_update_settings q f now db r db' : update_settings q f now db = Ok (r, db') → quiet db db'.
Proof. unfold update_settings. quiet. Qed.
Lemma quiet_updates_rows {Row} (f : WorkspaceDB → Row → result sqlx_error WorkspaceDB) rows db n db' :
  (∀ db row db', f db row = Ok db' → quiet db db') → updates_rows f rows db = Ok (n, db') → quiet db db'.
Proof.
  intros Hf. unfold updates_rows. destruct (update_each f (rows db) db) as [d|] eqn:E; [|done]. intros [= _ <-].
  revert E. generalize (rows db). intros l. induction l as [|row l IH] in db |- *; cbn [update_each]; [by intros [= ->]|].
  destruct (f db row) as [d1|] eqn:E1; [|done]. cbn. intros H. etrans; [by eapply Hf|by apply IH].
Qed.
Lemma quiet_move_directories q from to db n db' : move_directories q from to db = Ok (n, db') → quiet db db'.
Proof. apply quiet_updates_rows. unfold move_directory. intros d [k c] d'. quiet. Qed.
Lemma quiet_move_documents q from to now db n db' : move_documents q from to now db = Ok (n, db') → quiet db db'.
Proof. apply quiet_updates_rows. unfold move_document. intros d [k c] d'. quiet. Qed.
Lemma quiet_move_assets q from to db n db' : move_assets q from to db = Ok (n, db') → quiet db db'.
Proof. apply quiet_updates_rows. unfold move_asset. intros d [k c] d'. quiet. Qed.
Lemma quiet_insert_update now w db i db' : insert_update now w db = Ok (i, db') → quiet db db'.
Proof. unfold insert_update. quiet. Qed.
Lemma quiet_upsert_snapshot now c upto u db r db' : upsert_snapshot now c upto u db = Ok (r, db') → quiet db db'.
Proof. unfold upsert_snapshot. quiet. Qed.
Lemma quiet_prune r c l db : quiet db (prune_updates r c l db).
Proof. unfold prune_updates. repeat case_match; done. Qed.
#[export] Hint Resolve quiet_insert_document quiet_upsert_by_path quiet_update_content quiet_delete_documents
  quiet_update_projected quiet_insert_directory quiet_upsert_asset quiet_ensure_settings quiet_update_settings
  quiet_move_directories quiet_move_documents quiet_move_assets quiet_insert_update quiet_upsert_snapshot quiet_prune : quiet.

(** ** Blocks *)


Lemma touch_repository_tracked q now db u db' p :
  touch_repository q now db = Ok (u, db') →
  project_rows db' = project_rows db ∧ tracked p db db' ∧ pending q db'.
Proof.
  unfold touch_repository. case_bool_decide as Hq; [done|]. intros [= _ <-]. split; [done|].
  assert (Hp : pending q (db <| git_repositories := <[q := MkRepositoryRow true now]> (git_repositories db) |>)).
  { eexists. cbn. by rewrite lookup_insert_eq. }
  split; [|exact Hp]. destruct (decide (p = q)) as [->|Hne].
  - split; [done| |by intros; right]. right. split; [exact Hp|]. cbn. by apply not_eq_None_Some.
  - split; [done| |].
    + left. cbn. by rewrite lookup_insert_ne.
    + intros r r' Hr Hr'. cbn in Hr'. left. congruence.
Qed.

(** A block that tracks a project. *)
Definition tracks {R A} (p : uuid) (m : Tx WorkspaceDB R A) : Prop :=
  ∀ db n, wp m (λ _, True) (λ _ db' _, tracked p db db') db n.

Section blocks.
Context {R : Type} (s : schedule) (fail : sqlx_error → R) (p : uuid).

Lemma tracks_exec {A} (q : WorkspaceDB → result sqlx_error (A * WorkspaceDB)) :
  (∀ db a db', q db = Ok (a, db') → tracked p db db') → tracks p (exec s fail q).
Proof. intros Hq db n. apply wp_exec; [done|]. intros a db'. apply Hq. Qed.
Lemma tracks_quiet {A} (q : WorkspaceDB → result sqlx_error (A * WorkspaceDB)) :
  (∀ db a db', q db = Ok (a, db') → quiet db db') → tracks p (exec s fail q).
Proof. intros Hq. apply tracks_exec. intros db a db' H. apply quiet_tracked. by eapply Hq. Qed.
Lemma tracks_reads {A} (f : WorkspaceDB → A) : tracks p (exec s fail (reads f)).
Proof. apply tracks_quiet. by intros db a db' [= _ ->]. Qed.
Lemma tracks_writes (f : WorkspaceDB → WorkspaceDB) : (∀ db, quiet db (f db)) → tracks p (exec s fail (writes f)).
Proof. intros Hf. apply tracks_quiet. by intros db a db' [= _ <-]. Qed.
Lemma tracks_affecting {A} (f : WorkspaceDB → A * WorkspaceDB) :
  (∀ db, quiet db (f db).2) → tracks p (exec s fail (affecting f)).
Proof. intros Hf. apply tracks_quiet. intros db a db'. by apply quiet_affecting. Qed.

Lemma tracks_ret {A} (a : A) : tracks (R := R) p (mret a).
Proof. intros db n. by apply wp_ret. Qed.
Lemma tracks_early {A} (r : R) : tracks (A := A) p (early r).
Proof. intros db n. by apply wp_early. Qed.
Lemma tracks_bind {A B} (m : Tx WorkspaceDB R A) (k : A → Tx WorkspaceDB R B) :
  tracks p m → (∀ a, tracks p (k a)) → tracks p (m ≫= k).
Proof.
  intros Hm Hk db n. apply wp_bind. eapply wp_mono; [apply Hm|done|]. intros a db1 n1 H1.
  eapply wp_mono; [apply Hk|done|]. intros b db2 n2 H2. etrans; [exact H1|exact H2].
Qed.
Lemma tracks_for {A} (l : list A) (f : A → Tx WorkspaceDB R unit) : (∀ x, tracks p (f x)) → tracks p (tx_for l f).
Proof.
  intros Hf db n. eapply (wp_for _ _ _ (λ _ db', tracked p db db')); [done|].
  intros x l' db1 n1 H1. eapply wp_mono; [apply Hf|done|]. intros a db2 n2 H2. etrans; [exact H1|exact H2].
Qed.
End blocks.

#[export] Hint Resolve tracks_reads tracks_ret tracks_early : tracks.
(** Walks through a block. *)
Ltac track :=
  repeat match goal with
  | |- tracks _ (let _ := _ in _) => cbv zeta
  | |- tracks _ (mbind _ _) => apply tracks_bind; [|intros ?]
  | |- tracks _ (exec _ _ (affecting _)) => apply tracks_affecting; intros ?; first [by split|auto with quiet; fail]
  | |- tracks _ (exec _ _ (writes _)) => apply tracks_writes; intros ?; first [by split|auto with quiet; fail]
  | |- tracks _ (tx_for _ _) => apply tracks_for; intros ?
  | |- tracks _ (if ?b then _ else _) => destruct b
  | |- tracks _ (match ?x with _ => _ end) => destruct x
  | |- tracks _ _ => solve [eauto with tracks]
  | |- tracks _ (exec _ _ _) => apply tracks_quiet; intros ???; eauto with quiet; fail
  end.

Section marks.
Context {R : Type} (s : schedule) (fail : sqlx_error → R) (p : uuid).

Lemma record_workspace_change_marks q contributor kind now db n :
  wp (record_workspace_change s fail q contributor kind now) (λ _, True)
     (λ _ db' _, project_rows db' = project_rows db ∧ tracked p db db' ∧ pending q db') db n.
Proof.
  unfold record_workspace_change. apply wp_bind, wp_exec; [done|]. intros [] db1 (H1 & H2 & H3)%(touch_repository_tracked _ _ _ _ _ p).
  assert (Hq : ∀ db2, quiet db1 db2 → project_rows db2 = project_rows db ∧ tracked p db db2 ∧ pending q db2).
  { intros db2 Hq. split_and!; [destruct Hq; congruence|etrans; [exact H2|by apply quiet_tracked]|].
    eapply pending_row; [|exact H3]. by destruct Hq as [_ ->]. }
  apply wp_bind, wp_writes; [done|]. destruct contributor as [user|name|].
  - apply wp_exec; [done|]. unfold insert_pending_author. intros [] db2. destruct (negb _); [done|]. intros [= <-]. by apply Hq.
  - destruct (normalized_guest_name name); [apply wp_writes; [done|]|apply wp_ret]; by apply Hq.
  - apply wp_ret. by apply Hq.
Qed.
Lemma record_workspace_change_tracks q contributor kind now : tracks p (record_workspace_change s fail q contributor kind now).
Proof. intros db n. eapply wp_mono; [apply record_workspace_change_marks|done|]. by intros ??? (_ & ? & _). Qed.

Lemma record_project_activity_tracked q actor guest now db n :
  wp (record_project_activity s fail q actor guest now) (λ _, True) (λ _ db' _, quiet db db') db n.
Proof.
  unfold record_project_activity. destruct actor; [|destruct guest; [destruct (normalized_guest_name _)|]]; try by apply wp_ret.
  - apply wp_exec; [done|]. unfold insert_external_author. quiet.
  - apply wp_writes; [done|]. unfold insert_external_guest. case_bool_decide; by split.
Qed.
Lemma record_project_activity_tracks q actor guest now : tracks p (record_project_activity s fail q actor guest now).
Proof.
  intros db n. eapply wp_mono; [apply record_project_activity_tracked|done|]. intros ? db' ? H. by apply quiet_tracked.
Qed.
Lemma enqueue_object_deletions_tracks now keys : tracks p (enqueue_object_deletions s fail now keys).
Proof. unfold enqueue_object_deletions. track. Qed.

(** The version moves, and the project is marked. *)
Lemma advanced_tracked q db u db1 db2 :
  advance_workspace_version q db = Ok (u, db1) → project_rows db2 = project_rows db1 →
  tracked p db1 db2 → pending q db2 → tracked p db db2.
Proof.
  unfold advance_workspace_version. destruct (project_rows db !! q) as [r|] eqn:Hq; [|by intros [= _ ->]].
  destruct (_ <=? _); [done|]. intros [= _ <-] Hr [_ T _] Hp. cbn in *.
  destruct (decide (p = q)) as [->|Hne].
  - split; [|right|by intros; right]; rewrite Hr, lookup_insert_eq; [done|by split].
  - rewrite Hr, lookup_insert_ne in T by done. split; rewrite Hr, lookup_insert_ne by done; [done|exact T|]. intros r1 r2 E1 E2. left. congruence.
Qed.

Lemma mark_project_dirty_tracks q actor guest now : tracks p (mark_project_dirty s fail q actor guest now).
Proof.
  intros db n. unfold mark_project_dirty. apply wp_bind, wp_exec; [done|]. intros u db1 H1. cbv zeta. apply wp_bind.
  eapply wp_mono; [apply record_workspace_change_marks|done|]. intros [] db2 n2 (Hr & Ht & Hp).
  eapply wp_mono; [apply record_project_activity_tracks|done|]. intros [] db3 n3 H3.
  etrans; [|exact H3]. by eapply advanced_tracked.
Qed.
Lemma record_collaborative_activity_tracks q contributors now :
  tracks p (record_collaborative_document_activity s fail q contributors now).
Proof.
  intros db n. unfold record_collaborative_document_activity. apply wp_bind, wp_exec; [done|]. intros u db1 H1.
  assert (Hrest : ∀ {A} (m : Tx WorkspaceDB R A) n1, wp m (λ _, True)
            (λ _ db2 _, project_rows db2 = project_rows db1 ∧ tracked p db1 db2 ∧ pending q db2) db1 n1 →
          wp m (λ _, True) (λ _ db2 _, tracked p db db2) db1 n1).
  { intros A m n1 Hm. eapply wp_mono; [exact Hm|done|]. intros ? db2 n2 (? & ? & ?). by eapply advanced_tracked. }
  assert (Hact : ∀ actor guest db2 n2, project_rows db2 = project_rows db1 → tracked p db1 db2 → pending q db2 →
    wp (record_project_activity s fail q actor guest now) (λ _, True)
       (λ _ db3 _, project_rows db3 = project_rows db1 ∧ tracked p db1 db3 ∧ pending q db3) db2 n2).
  { intros actor guest db2 n2 Hr Ht Hp. eapply wp_mono; [by apply (record_project_activity_tracked q)|done|].
    intros [] db3 n3 Hq. split_and!; [destruct Hq; congruence|etrans; [exact Ht|by apply quiet_tracked]|].
    eapply pending_row; [|exact Hp]. by destruct Hq as [_ ->]. }
  apply Hrest. case_bool_decide as Hl.
  - apply wp_bind. eapply wp_mono; [apply record_workspace_change_marks|done|]. intros [] db2 n2 (? & ? & ?).
    by apply Hact.
  - destruct contributors as [|c contributors]; [done|]. clear Hl.
    assert (Hone : ∀ c db2 n2, project_rows db2 = project_rows db1 → tracked p db1 db2 →
      wp (record_contribution s fail q now c) (λ _, True)
        (λ _ db3 _, project_rows db3 = project_rows db1 ∧ tracked p db1 db3 ∧ pending q db3) db2 n2).
    { intros c' db2 n2 Hr Ht. unfold record_contribution. destruct c'; apply wp_bind;
        (eapply wp_mono; [apply record_workspace_change_marks|done|]; intros [] db3 n3 (? & ? & ?);
         apply Hact; [congruence|by etrans|done]). }
    cbn [tx_for]. apply wp_bind. eapply wp_mono; [by apply Hone|done|]. intros [] db2 n2 (? & ? & ?).
    eapply (wp_for _ _ _ (λ _ db3, project_rows db3 = project_rows db1 ∧ tracked p db1 db3 ∧ pending q db3)); [done|].
    intros c' l db3 n3 (? & ? & ?). by apply Hone.
Qed.
End marks.

#[export] Hint Resolve mark_project_dirty_tracks record_collaborative_activity_tracks enqueue_object_deletions_tracks : tracks.

Lemma tracks_transact {R} s fail (body : Tx WorkspaceDB R R) p db : tracks p body → tracked p db (transact s fail body db).2.
Proof. intros Hb. apply (transact_inv (tracked p db)); [done|apply Hb]. Qed.
Lemma tracks_transact_then {R X} s fail (body : Tx WorkspaceDB R (R * X)) p db :
  tracks p body → tracked p db (transact_then s fail body db).2.
Proof. intros Hb. apply (transact_then_inv (tracked p db)); [done|apply Hb]. Qed.

Lemma insert_project_row_tracked g p db u db' : insert_project_row g db = Ok (u, db') → tracked p db db'.
Proof.
  unfold insert_project_row, on_access. destruct (negb _); [done|]. case_bool_decide as Hnew; [done|].
  destruct (insert_project _ _) as [[a acc]|]; [|done]. intros [= _ <-].
  destruct (decide (p = g_project g)) as [->|Hne].
  - split; cbn; rewrite ?lookup_insert_eq; [done|by left|]. intros r r' Hr. destruct Hnew. by rewrite Hr.
  - split; cbn; rewrite ?lookup_insert_ne by done; [done|by left|]. intros r r' Hr Hr'. left. congruence.
Qed.

Section operations.
Context `{Yrs} (s : schedule) (now : time) (update_retention : Z) (p : uuid).

Lemma project_collaboration_document_tracks {R} (fail : sqlx_error → R) c content contributors :
  tracks p (project_collaboration_document s now fail c content contributors).
Proof. unfold project_collaboration_document. track. Qed.
Lemma reconcile_tracks {R} (fail : sqlx_error → R) unmergeable c state seed :
  tracks p (reconcile_collaboration_document s now fail update_retention unmergeable c state seed).
Proof. unfold reconcile_collaboration_document. pose proof @project_collaboration_document_tracks. track. Qed.
End operations.

#[export] Hint Resolve project_collaboration_document_tracks reconcile_tracks : tracks.

Lemma quiet_insert_new_directory q now path db u db' : insert_new_directory q now path db = Ok (u, db') → quiet db db'.
Proof. unfold insert_new_directory, insert_directory. quiet. Qed.
Lemma quiet_insert_new_document q now d db u db' : insert_new_document q now d db = Ok (u, db') → quiet db db'.
Proof. unfold insert_new_document, insert_document. quiet. Qed.
Lemma quiet_insert_new_asset q by' now a db u db' : insert_new_asset q by' now a db = Ok (u, db') → quiet db db'.
Proof. unfold insert_new_asset, upsert_asset. quiet. Qed.
Lemma quiet_insert_settings q entry engine now db u db' : insert_settings q entry engine now db = Ok (u, db') → quiet db db'.
Proof. unfold insert_settings. quiet. Qed.
Lemma quiet_on_access {A} (f : AccessDB → result sqlx_error (A * AccessDB)) db a db' :
  on_access f db = Ok (a, db') → quiet db db'.
Proof. unfold on_access. quiet. Qed.
Lemma quiet_initialize_project q db u db' : initialize_project q db = Ok (u, db') → quiet db db'.
Proof. unfold initialize_project. quiet. Qed.
Lemma quiet_update_entry_file_path q entry now db r db' : update_entry_file_path q entry now db = Ok (r, db') → quiet db db'.
Proof. unfold update_entry_file_path. apply quiet_update_settings. Qed.
Lemma quiet_update_latex_engine q engine now db r db' : update_latex_engine q engine now db = Ok (r, db') → quiet db db'.
Proof. unfold update_latex_engine. apply quiet_update_settings. Qed.
#[export] Hint Resolve quiet_insert_new_directory quiet_insert_new_document quiet_insert_new_asset
  quiet_insert_settings quiet_on_access quiet_initialize_project quiet_update_entry_file_path
  quiet_update_latex_engine : quiet.

(** A project keeps its mark when another one moves to its next generation. *)
Lemma advance_generation_tracked q p db r db' : advance_generation q db = Ok (r, db') → p ≠ q → tracked p db db'.
Proof.
  unfold advance_generation. intros H Hne. destruct (project_rows db !! q); [|done]. destruct (_ || _); [done|].
  injection H as <- <-. split; cbn; rewrite ?lookup_insert_ne by done; [done|by left|].
  intros r1 r2 E1 E2. left. congruence.
Qed.

Section run.
Context `{Yrs} (update_retention : Z) (p : uuid).

Lemma replace_project_content_tracks {R} s (fail : sqlx_error → R) c :
  p ≠ rc_project c → tracks p (replace_project_content s fail c).
Proof.
  intros Hne. assert (Hg : ∀ R (fail : sqlx_error → R), tracks p (exec s fail (advance_generation (rc_project c)))).
  { intros R' fail'. apply tracks_exec. intros db a db' H'. by eapply advance_generation_tracked. }
  unfold replace_project_content. track.
Qed.
Lemma apply_repo_import_tracked s now c db : p ≠ rc_project c → tracked p db (apply_repo_import s now c db).2.
Proof.
  intros Hne. unfold apply_repo_import. apply tracks_transact_then. unfold apply_repo_import_transaction.
  pose proof (replace_project_content_tracks (R := result RepositoryImportError Z) s (λ e, Err (ImportPersistence e)) c Hne) as Hr. track.
Qed.
End run.

Ltac operation op := unfold op; cbv zeta; apply tracks_transact; unfold move_subtree, mark_dirty; track.

Section operations.
Context `{Yrs} (update_retention : Z).

(** The import of repository content into [p], whose caller settles the mark. *)
Definition imports_into (p : uuid) (op : WorkspaceOp) : Prop :=
  match op with OImport c => rc_project c = p | _ => False end.

Lemma run_workspace_tracked s now op db p :
  ¬ imports_into p op → tracked p db (run_workspace update_retention s now op db).
Proof.
  intros Hop. destruct op; cbn [run_workspace].
  - by apply quiet_tracked.
  - unfold create_project. apply tracks_transact_then. unfold create_project_transaction, provision_project, create_project_graph.
    assert (Hrow : ∀ R (fail : sqlx_error → R), tracks p (exec s fail (insert_project_row g))).
    { intros R fail. apply tracks_exec. intros db0 a db' H'. by eapply insert_project_row_tracked. }
    track.
  - operation create_document.
  - operation upsert_document_by_path.
  - operation update_document.
  - operation delete_document.
  - unfold create_project_file. apply tracks_transact_then. unfold create_project_file_transaction, persist_project_file, mark_dirty.
    track.
  - operation move_project_file.
  - unfold delete_project_file. apply tracks_transact_then. unfold delete_project_file_transaction, delete_subtree, mark_dirty.
    track.
  - unfold upload_project_asset. apply tracks_transact_then. unfold upload_project_asset_transaction, mark_dirty. track.
  - unfold delete_project_asset. apply tracks_transact_then. unfold delete_project_asset_transaction, mark_dirty. track.
  - operation get_or_create_project_settings.
  - operation change_project_setting.
  - apply apply_repo_import_tracked. by intros ->.
  - unfold persist_update; cbv zeta; apply tracks_transact; track.
  - unfold prepare_document_bootstrap. destruct (bootstrap_transaction _ _ _ _ _) as [r db'] eqn:E. cbn.
    change db' with (r, db').2. rewrite <-E. unfold bootstrap_transaction; cbv zeta; apply tracks_transact; track.
  - unfold reconcile_pending_document; cbv zeta; apply tracks_transact; track.
Qed.
End operations.

Section theorems.
Context `{YrsLaws} (update_retention : Z).

(** The content of a project, and the row of its repository, from one
    database to a later one. *)
Definition content_kept (p : uuid) (db db' : WorkspaceDB) : Prop :=
  lock_project_content_snapshot p db' = lock_project_content_snapshot p db
  ∧ git_repositories db' !! p = git_repositories db !! p.
(** A project that exists stays, and either nothing happened to it or it is
    pending. *)
Definition marked (p : uuid) (db db' : WorkspaceDB) : Prop :=
  is_Some (project_rows db !! p) →
  is_Some (project_rows db' !! p) ∧ (content_kept p db db' ∨ pending p db').

Lemma marked_refl p db : marked p db db.
Proof. intros Hp. split; [done|]. by left. Qed.
Lemma marked_trans p db1 db2 db3 : marked p db1 db2 → marked p db2 db3 → marked p db1 db3.
Proof.
  intros H12 H23 H1. destruct (H12 H1) as [H2 C12]. destruct (H23 H2) as [H3 C23]. split; [done|].
  destruct C23 as [[Hc3 Hg3]|]; [|by right]. destruct C12 as [[Hc2 Hg2]|Hp]; [left|right].
  - split; congruence.
  - by eapply pending_row.
Qed.

Lemma run_workspace_marked s now op db p :
  StreamInv db → op_ok op → ¬ imports_into p op → marked p db (run_workspace update_retention s now op db).
Proof.
  intros HI Hok Hop Hp. pose proof (run_workspace_tracked update_retention s now op db p Hop) as [Tp Tr Tv].
  split; [auto|]. destruct Tr as [Tr|[? _]]; [|by right].
  destruct (run_workspace_step update_retention s now op db Hok HI) as [[q Hc] _ _].
  destruct Hp as [r Hr].
  assert (Hsn : ∃ c, lock_project_content_snapshot p db = Some c ∧ cs_workspace_version c = p_workspace_version r).
  { unfold lock_project_content_snapshot. rewrite Hr. by eexists. }
  destruct Hsn as (c & Hsn & Hv). destruct (snapshot_step _ _ _ _ _ Hc Hsn) as (c' & Hsn' & [->|Hlt]).
  { left. split; [congruence|done]. }
  destruct (Tp (mk_is_Some _ _ Hr)) as [r' Hr'].
  assert (Hv' : cs_workspace_version c' = p_workspace_version r').
  { unfold lock_project_content_snapshot in Hsn'. rewrite Hr' in Hsn'. by injection Hsn' as <-. }
  destruct (Tv r r' Hr Hr') as [|]; [lia|by right].
Qed.

(** C37: whatever operations run, unless they import repository content into it,
    a project whose content is not what it was is marked as pending: no edit of
    a document, file, asset, setting or stream escapes the next flush. *)
Theorem changed_content_is_pending trace db p c :
  workspace_reachable update_retention db → Forall (λ sto : schedule * time * WorkspaceOp, op_ok sto.2) trace →
  Forall (λ sto : schedule * time * WorkspaceOp, ¬ imports_into p sto.2) trace →
  lock_project_content_snapshot p db = Some c →
  lock_project_content_snapshot p (run_workspace_trace update_retention trace db) ≠ Some c →
  pending p (run_workspace_trace update_retention trace db).
Proof.
  intros Hr Hok Himp Hsn Hne.
  assert (Hm : marked p db (run_workspace_trace update_retention trace db)).
  { clear Hsn Hne. induction trace as [|[[s now] op] trace IH] in db, Hr, Hok, Himp |- *; [apply marked_refl|].
    apply Forall_cons in Hok as [Ho Hok]. apply Forall_cons in Himp as [Hi Himp]. cbn in Ho, Hi.
    destruct (reachable_inv _ _ Hr) as (HI & _). eapply marked_trans; [by apply (run_workspace_marked s now)|].
    apply IH; [by apply workspace_next|done..]. }
  destruct Hm as [_ [[Hc _]|Hp]]; [|congruence|done].
  unfold lock_project_content_snapshot in Hsn. by destruct (project_rows db !! p).
Qed.
End theorems.

(** ** At the small project *)

(** An edit that is compacted. *)
Definition rewriting : workspace_trace :=
  [(healthy, 3, edit Update (lit " draft")); (healthy, 4, OReconcile main_stream)].
Lemma changed_content_is_pending_witness :
  pending notes (run_workspace_trace retention rewriting opened_workspace).
Proof.
  apply (changed_content_is_pending retention rewriting opened_workspace notes opened_snapshot).
  - apply opened_reachable.
  - by repeat constructor.
  - repeat constructor; by intros [].
  - vm_compute. reflexivity.
  - vm_compute. discriminate.
Defined.
