(* ===== verification/GitRevisions.v ===== *)
(** * Versioning: authors of revisions, and their history

    versioning::authors, and of ::revision_history and ::flush the messages of
    commits, the co-authors read back from them, and the pages of the history.
    Identities come from the account component; the commits are those of the
    walk from the head, newest first. *)
From S2P Require Import Prelude Text.

Open Scope N_scope.

(** ** authors *)

Definition MAX_GIT_IDENTITY_NAME_CHARS : nat := 200.
Definition MAX_GIT_IDENTITY_EMAIL_BYTES : N := 320.
Definition GUEST_EMAIL_FINGERPRINT_BYTES : nat := 6.

Record GitIdentity : Type := MkGitIdentity { gi_name : text; gi_email : text }.
#[export] Instance GitIdentity_eq_dec : EqDecision GitIdentity.
Proof. solve_decision. Defined.

Definition carriage_return : N := 0xD.
Definition line_feed : N := 0xA.
Definition space : N := 0x20.
Definition less_than : N := 0x3C.
Definition greater_than : N := 0x3E.

Definition clean_git_name (value : text) : text :=
  join space (split_whitespace
    ((λ c, if existsb (N.eqb c) [carriage_return; line_feed; less_than; greater_than] then space else c) <$> value)).
Definition normalized_git_name (value fallback : text) : text :=
  let cleaned := clean_git_name value in
  let selected := if text_eqb cleaned [] then clean_git_name fallback else cleaned in
  let selected := if text_eqb selected [] then lit "Git user" else selected in
  take MAX_GIT_IDENTITY_NAME_CHARS selected.

Definition is_ascii_whitespace (byte : N) : bool :=
  existsb (N.eqb byte) [0x9; 0xA; 0xC; 0xD; 0x20].
Definition git_email_is_safe (value : text) : bool :=
  let trimmed := trim value in
  negb (text_eqb trimmed [])
  && (str_len trimmed <=? MAX_GIT_IDENTITY_EMAIL_BYTES)
  && negb (existsb (λ byte, is_ascii_whitespace byte || (byte =? less_than) || (byte =? greater_than)) (utf8 trimmed)).
Definition normalized_git_email (value fallback : text) : text :=
  if git_email_is_safe value then trim value
  else if git_email_is_safe fallback then trim fallback
  else lit "noreply@localhost".

Definition account (display_name email fallback_name fallback_email : text) : GitIdentity :=
  MkGitIdentity (normalized_git_name display_name fallback_name) (normalized_git_email email fallback_email).
(** The crates sha2 and hex. *)
Definition guest (sha256 : bytes → bytes) (hex_encode : bytes → text)
    (display_name fallback_email_domain : text) : GitIdentity :=
  let fingerprint := hex_encode (take GUEST_EMAIL_FINGERPRINT_BYTES (sha256 (utf8 display_name))) in
  MkGitIdentity
    (normalized_git_name (display_name ++ lit " (Unverified)") (lit "Guest collaborator (Unverified)"))
    (normalized_git_email (lit "guest+" ++ fingerprint ++ lit "@" ++ fallback_email_domain) (lit "guest@localhost")).
Definition service (product_name fallback_email_domain : text) : GitIdentity :=
  account product_name (lit "noreply@" ++ fallback_email_domain) (lit "Workspace Server") (lit "noreply@localhost").

Definition coauthor_trailer (i : GitIdentity) : text :=
  lit "Co-authored-by: " ++ gi_name i ++ lit " <" ++ gi_email i ++ lit ">".

(** The message of flush_pending_server_commit and create_revision. *)
Definition revision_message (subject : text) (trailers : list text) : text :=
  match trailers with
  | [] => subject
  | _ => subject ++ [line_feed; line_feed] ++ join line_feed trailers
  end.

(** ** revision_history *)

(** [str::lines]. *)
Definition strip_carriage_return (line : text) : text := default line (strip_suffix [carriage_return] line).
Fixpoint lines_of (pieces : list text) : list text :=
  match pieces with
  | [] => []
  | [piece] => if text_eqb piece [] then [] else [piece]
  | piece :: pieces => strip_carriage_return piece :: lines_of pieces
  end.
Definition lines (t : text) : list text := lines_of (split line_feed t).

(** [str::find] and [str::rfind] of a character. *)
Fixpoint find_char (c : N) (t : text) : option nat :=
  match t with
  | [] => None
  | d :: t => if d =? c then Some 0%nat else S <$> find_char c t
  end.
Definition rfind_char (c : N) (t : text) : option nat :=
  i ← find_char c (reverse t); Some (length t - S i)%nat.

Definition parse_co_author (line : text) : option (text * text) :=
  let trimmed := trim line in
  if negb (starts_with (lit "co-authored-by:") (to_ascii_lowercase trimmed)) then None else
  let value := match find_char 0x3A trimmed with Some i => trim (drop (S i) trimmed) | None => [] end in
  start ← rfind_char less_than value; end_ ← rfind_char greater_than value;
  if (end_ <=? start)%nat then None else
  let name := trim (take start value) in
  let email := trim (drop (S start) (take end_ value)) in
  if text_eqb name [] || text_eqb email [] then None else Some (name, email).
Definition parse_co_authors (message : text) : list (text * text) := omap parse_co_author (lines message).

(** A commit of the walk, and what [list_revisions] takes of it. *)
Record WalkedCommit : Type := MkWalked {
  wc_oid : text; wc_summary : option text; wc_seconds : Z;
  wc_author_name : option text; wc_author_email : option text; wc_message : text }.
Record RevisionCommitRow : Type := MkRevisionRow {
  rr_id : text; rr_subject : text; rr_seconds : Z;
  rr_author_name : text; rr_author_email : text; rr_co_authors : list (text * text) }.

(** Those whose address, in lower case, was not seen before. *)
Fixpoint unseen_authors (seen : gset text) (authors : list (text * text)) : list (text * text) :=
  match authors with
  | [] => []
  | (name, email) :: authors =>
      let key := to_ascii_lowercase email in
      if bool_decide (key ∈ seen) then unseen_authors seen authors
      else (name, email) :: unseen_authors ({[key]} ∪ seen) authors
  end.
Definition revision_row (c : WalkedCommit) : RevisionCommitRow :=
  let author_email := default (lit "unknown@example.com") (wc_author_email c) in
  MkRevisionRow (wc_oid c) (default (lit "Online updates") (wc_summary c)) (wc_seconds c)
    (default (lit "Unknown") (wc_author_name c)) author_email
    (unseen_authors {[to_ascii_lowercase author_email]} (parse_co_authors (wc_message c))).

Fixpoint collect_revisions (passed : bool) (before_cursor : option text) (limit : nat)
    (walk : list WalkedCommit) (rows : list RevisionCommitRow) : list RevisionCommitRow :=
  match walk with
  | [] => rows
  | c :: walk =>
      if negb passed then
        collect_revisions (bool_decide (Some (wc_oid c) = before_cursor)) before_cursor limit walk rows
      else if (limit <=? length rows)%nat then rows
      else collect_revisions passed before_cursor limit walk (rows ++ [revision_row c])
  end.
Definition list_revision_rows (walk : list WalkedCommit) (before_cursor : option text) (limit : nat) :
    list RevisionCommitRow :=
  collect_revisions (match before_cursor with None => true | Some _ => false end) before_cursor limit walk [].

(** * Facts *)

(** ** Identities *)

(** A name fits in a line and keeps off the brackets; so does an address. *)
Definition one_line (t : text) : Prop :=
  carriage_return ∉ t ∧ line_feed ∉ t ∧ less_than ∉ t ∧ greater_than ∉ t.
Definition name_ok (name : text) : Prop :=
  one_line name ∧ ∃ c rest, name = c :: rest ∧ is_whitespace c = false.
Definition email_ok (email : text) : Prop := one_line email ∧ email ≠ [] ∧ trimmed email.
Definition identity_ok (i : GitIdentity) : Prop := name_ok (gi_name i) ∧ email_ok (gi_email i).

Definition is_word (w : text) : Prop := w ≠ [] ∧ Forall (λ c, is_whitespace c = false) w.

Lemma split_whitespace_words (P : N → Prop) word t :
  Forall (λ c, is_whitespace c = false) word → Forall P word → Forall P t →
  Forall (λ w, is_word w ∧ Forall P w) (split_whitespace_from word t).
Proof.
  assert (Hflush : ∀ w, Forall (λ c, is_whitespace c = false) w → Forall P w →
    Forall (λ w, is_word w ∧ Forall P w) (if text_eqb w [] then [] else [w])).
  { intros w Hw HP. destruct (text_eqb w []) eqn:E; [constructor|]. apply text_eqb_false in E.
    apply Forall_singleton. done. }
  induction t as [|c t IH] in word |- *; intros Hw HP Ht; cbn [split_whitespace_from]; [by apply Hflush|].
  apply Forall_cons in Ht as [Hc Ht]. destruct (is_whitespace c) eqn:E.
  - apply Forall_app. split; [by apply Hflush|]. by apply IH.
  - apply IH; [|by apply Forall_app; split; [|apply Forall_singleton]..|done].
    apply Forall_app. split; [done|]. by apply Forall_singleton.
Qed.

Lemma clean_name_ok value : clean_git_name value ≠ [] → name_ok (clean_git_name value).
Proof.
  unfold clean_git_name. set (u := _ <$> value).
  assert (Hu : Forall (λ c, c ≠ carriage_return ∧ c ≠ line_feed ∧ c ≠ less_than ∧ c ≠ greater_than) u).
  { unfold u. apply Forall_fmap, Forall_forall. intros c _. cbn -[N.eqb].
    destruct (N.eqb_spec c carriage_return), (N.eqb_spec c line_feed), (N.eqb_spec c less_than),
      (N.eqb_spec c greater_than); cbn; by split_and!. }
  pose proof (split_whitespace_words _ [] u (List.Forall_nil _) (List.Forall_nil _) Hu) as Hw.
  change (split_whitespace_from [] u) with (split_whitespace u) in Hw. clearbody u.
  intros Hne. destruct (split_whitespace u) as [|w ws]; [done|]. split.
  - assert (Hj : ∀ c, c ∈ join space (w :: ws) →
      c ≠ carriage_return ∧ c ≠ line_feed ∧ c ≠ less_than ∧ c ≠ greater_than).
    { intros c [->|(p & Hp & Hc)]%elem_of_join; [done|].
      rewrite Forall_forall in Hw. destruct (Hw p Hp) as [_ HP]. rewrite Forall_forall in HP. auto. }
    split_and!; intros Hin%Hj; naive_solver.
  - apply Forall_cons in Hw as [[[Hwne Hws] _] _]. destruct w as [|c w]; [done|].
    apply Forall_cons in Hws as [Hc _]. exists c. by destruct ws as [|w' ws]; eexists.
Qed.

Lemma one_line_take n t : one_line t → one_line (take n t).
Proof.
  assert (Hin : ∀ c, c ∈ take n t → c ∈ t) by (intros c; intros (i & Hi & _)%elem_of_take; by eapply list_elem_of_lookup_2).
  intros (?&?&?&?). split_and!; intros ?%Hin; done.
Qed.

Lemma normalized_git_name_ok value fallback : name_ok (normalized_git_name value fallback).
Proof.
  unfold normalized_git_name.
  assert (Hsel : ∀ t, name_ok t → name_ok (take MAX_GIT_IDENTITY_NAME_CHARS t)).
  { intros t [Ho (c & rest & -> & Hc)]. split; [by apply one_line_take|]. by exists c, (take 199 rest). }
  apply Hsel. destruct (text_eqb (clean_git_name value) []) eqn:E1.
  - destruct (text_eqb (clean_git_name fallback) []) eqn:E2.
    + split; [|by eexists _, _]. split_and!; apply (bool_decide_unpack _); vm_compute; exact I.
    + apply text_eqb_false in E2. by apply clean_name_ok.
  - rewrite E1. apply text_eqb_false in E1. by apply clean_name_ok.
Qed.

Lemma utf8_ascii c t : c ∈ t → c < 0x80 → c ∈ utf8 t.
Proof.
  intros Hin Hc. apply list_elem_of_bind. exists c. split; [|done]. unfold utf8_char.
  rewrite (proj2 (N.ltb_lt _ _)) by done. left.
Qed.
Lemma safe_email value : git_email_is_safe value = true → email_ok (trim value).
Proof.
  unfold git_email_is_safe. cbv zeta. rewrite !andb_true_iff, !negb_true_iff, text_eqb_false.
  intros [[Hne _] Hs]. split; [|split; [done|apply trim_trimmed]].
  assert (Hin : ∀ c, c ∈ trim value → c < 0x80 →
    is_ascii_whitespace c || (c =? less_than) || (c =? greater_than) = false).
  { intros c Hc Ha. apply not_true_iff_false. intros Hb. apply not_true_iff_false in Hs. apply Hs.
    apply existsb_exists. exists c. split; [|done]. by apply list_elem_of_In, utf8_ascii. }
  split_and!; intros Hc; apply Hin in Hc; done.
Qed.
Lemma normalized_git_email_ok value fallback : email_ok (normalized_git_email value fallback).
Proof.
  unfold normalized_git_email. destruct (git_email_is_safe value) eqn:E1; [by apply safe_email|].
  destruct (git_email_is_safe fallback) eqn:E2; [by apply safe_email|].
  split; [split_and!; apply (bool_decide_unpack _); vm_compute; exact I|]. split; [done|].
  by split; vm_compute.
Qed.

Lemma account_ok display_name email fallback_name fallback_email :
  identity_ok (account display_name email fallback_name fallback_email).
Proof. split; [apply normalized_git_name_ok|apply normalized_git_email_ok]. Qed.
Lemma guest_ok sha256 hex_encode display_name domain : identity_ok (guest sha256 hex_encode display_name domain).
Proof. split; [apply normalized_git_name_ok|apply normalized_git_email_ok]. Qed.

(** ** Finding characters *)

Lemma find_char_app c s t : c ∉ s → find_char c (s ++ c :: t) = Some (length s).
Proof.
  induction s as [|d s IH]; intros Hc; cbn [find_char app]; [by rewrite N.eqb_refl|].
  apply not_elem_of_cons in Hc as [Hne Hc]. destruct (N.eqb_spec d c); [congruence|]. by rewrite IH.
Qed.
Lemma rfind_char_app c s t : c ∉ t → rfind_char c (s ++ c :: t) = Some (length s).
Proof.
  intros Hc. unfold rfind_char. rewrite reverse_app, reverse_cons, <-(assoc_L (++)). cbn [app].
  rewrite find_char_app by by rewrite elem_of_reverse. cbn. f_equal. rewrite length_reverse, length_app.
  simpl. lia.
Qed.

Lemma trim_end_space t : trim_end (t ++ [space]) = trim_end t.
Proof. unfold trim_end. by rewrite reverse_snoc. Qed.
Lemma trim_space_after c rest : is_whitespace c = false → trim ((c :: rest) ++ [space]) = trim (c :: rest).
Proof.
  intros Hc. unfold trim. cbn [app trim_start]. rewrite Hc.
  change (c :: rest ++ [space]) with ((c :: rest) ++ [space]). apply trim_end_space.
Qed.
Lemma trim_space_before t : trim (space :: t) = trim t.
Proof. reflexivity. Qed.
Lemma trimmed_between c t d : is_whitespace c = false → is_whitespace d = false → trimmed (c :: t ++ [d]).
Proof.
  intros Hc Hd. split; [done|]. change (c :: t ++ [d]) with ((c :: t) ++ [d]). by rewrite last_snoc.
Qed.

(** ** Trailers *)

Lemma trim_name_nonempty c rest : is_whitespace c = false → trim (c :: rest) ≠ [].
Proof.
  intros Hc. unfold trim. cbn [trim_start]. rewrite Hc. unfold trim_end. intros H.
  apply (f_equal reverse) in H. rewrite reverse_involutive in H. change (reverse (@nil N)) with (@nil N) in H.
  destruct (trim_start_suffix (reverse (c :: rest))) as (w & Hw & Hall). rewrite H, (right_id_L [] (++)) in Hw.
  assert (Hin : c ∈ w) by (rewrite <-Hw; apply elem_of_reverse; left).
  rewrite Forall_forall in Hall. apply Hall in Hin. congruence.
Qed.

(** The part of a trailer after its colon. *)
Lemma parse_trailer_value c rest email :
  let name := c :: rest in let value := name ++ lit " <" ++ email ++ lit ">" in
  is_whitespace c = false → one_line name → email_ok email →
  rfind_char less_than value = Some (S (length name)) ∧ rfind_char greater_than value = Some (S (S (length name)) + length email)%nat
  ∧ take (S (length name)) value = name ++ [space]
  ∧ drop (S (S (length name))) (take (S (S (length name)) + length email) value) = email.
Proof.
  intros name value Hc (_ & _ & Hlt & Hgt) [(_ & _ & Helt & Hegt) _].
  assert (Hv1 : value = (name ++ [space]) ++ less_than :: (email ++ [greater_than])).
  { unfold value. by rewrite <-(assoc_L (++)). }
  assert (Hv2 : value = (name ++ [space; less_than] ++ email) ++ [greater_than]).
  { unfold value. by rewrite <-!(assoc_L (++)). }
  assert (Hl : length (name ++ [space]) = S (length name)) by (rewrite length_app; simpl; lia).
  split_and!.
  - rewrite Hv1, rfind_char_app, Hl; [done|]. rewrite elem_of_app, list_elem_of_singleton. by intros [?|?].
  - rewrite Hv2, rfind_char_app by apply not_elem_of_nil. f_equal. rewrite !length_app. simpl. lia.
  - rewrite Hv1. apply take_app_length'. lia.
  - rewrite Hv2, take_app_length' by (rewrite !length_app; simpl; lia).
    rewrite (assoc_L (++)). apply drop_app_length'. rewrite length_app. simpl. lia.
Qed.

Lemma trailer_read i : identity_ok i → parse_co_author (coauthor_trailer i) = Some (trim (gi_name i), gi_email i).
Proof.
  destruct i as [name email]. intros [[Ho (c & rest & Hn & Hc)] He]. cbn [gi_name gi_email] in *.
  set (tail := name ++ lit " <" ++ email ++ lit ">").
  assert (Htrim : trim (coauthor_trailer (MkGitIdentity name email)) = lit "Co-authored-by:" ++ space :: tail).
  { rewrite trim_id; [done|].
    change (coauthor_trailer (MkGitIdentity name email)) with (67 :: lit "o-authored-by: " ++ (name ++ lit " <" ++ email ++ [greater_than])).
    rewrite !(assoc_L (++)). by apply trimmed_between. }
  unfold parse_co_author. cbv zeta. rewrite Htrim.
  assert (Hs : starts_with (lit "co-authored-by:") (to_ascii_lowercase (lit "Co-authored-by:" ++ space :: tail)) = true).
  { apply starts_with_true. exists (to_ascii_lowercase (space :: tail)). unfold to_ascii_lowercase. rewrite fmap_app. f_equal. }
  rewrite Hs. cbn [negb]. change (lit "Co-authored-by:" ++ space :: tail) with (lit "Co-authored-by" ++ 0x3A :: space :: tail).
  rewrite find_char_app by (apply (bool_decide_unpack _); vm_compute; exact I).
  change (drop (S (length (lit "Co-authored-by"))) (lit "Co-authored-by" ++ 0x3A :: space :: tail)) with (space :: tail).
  rewrite trim_space_before.
  assert (Htail : trim tail = tail).
  { apply trim_id. unfold tail. rewrite Hn. change ((c :: rest) ++ lit " <" ++ email ++ lit ">") with (c :: rest ++ lit " <" ++ email ++ [greater_than]).
    rewrite !(assoc_L (++)). by apply trimmed_between. }
  rewrite Htail. unfold tail. rewrite Hn in Ho |- *.
  destruct (parse_trailer_value c rest email Hc Ho He) as (Hlt & Hgt & Htake & Hdrop).
  rewrite Hlt, Hgt. cbn [mbind option_bind].
  rewrite (proj2 (Nat.leb_gt _ _)) by lia. rewrite Htake, Hdrop.
  rewrite trim_space_after by done. destruct He as (_ & Hne & Ht). rewrite (trim_id email) by done.
  rewrite (proj2 (text_eqb_false _ _)) by by apply trim_name_nonempty.
  by rewrite (proj2 (text_eqb_false _ _)).
Qed.

Lemma trailer_one_line i : identity_ok i → line_feed ∉ coauthor_trailer i.
Proof.
  intros [[(_ & Hn & _) _] [(_ & He & _) _]]. unfold coauthor_trailer. rewrite !elem_of_app.
  assert (Hlit : ∀ s, bool_decide (line_feed ∉ lit s) = true → line_feed ∉ lit s) by (intros s; apply bool_decide_eq_true).
  intros [H|[H|[H|[H|H]]]]; [|by apply Hn| |by apply He|]; revert H; by apply Hlit.
Qed.

(** ** Messages *)

Lemma parse_strip_carriage_return line : parse_co_author (strip_carriage_return line) = parse_co_author line.
Proof.
  unfold strip_carriage_return, strip_suffix. destruct (strip_prefix _ (reverse line)) as [r|] eqn:E; [|done].
  cbn. apply strip_prefix_Some in E. apply (f_equal reverse) in E.
  rewrite reverse_involutive, reverse_app in E. unfold parse_co_author. cbv zeta. rewrite E.
  assert (Ht : trim (reverse r ++ [carriage_return]) = trim (reverse r)).
  { unfold trim. destruct (trim_start (reverse r)) eqn:Es.
    - destruct (trim_start_suffix (reverse r)) as (w & Hw & Hall). rewrite Es, (right_id_L [] (++)) in Hw. rewrite Hw.
      clear -Hall. induction Hall as [|c w Hc _ IH]; [done|]. cbn [app trim_start]. by rewrite Hc.
    - assert (Hs : trim_start (reverse r ++ [carriage_return]) = (n :: l) ++ [carriage_return]).
      { revert Es. generalize (reverse r). intros t. induction t as [|c t IH]; [done|]. cbn [app trim_start].
        destruct (is_whitespace c); [done|]. by intros [= -> ->]. }
      rewrite Hs. unfold trim_end. by rewrite reverse_snoc. }
  change (reverse (reverse [carriage_return])) with [carriage_return]. by rewrite Ht.
Qed.

Lemma omap_step {A B} (f : A → option B) x l :
  omap f (x :: l) = match f x with Some y => y :: omap f l | None => omap f l end.
Proof. done. Qed.
Lemma parse_lines pieces : omap parse_co_author (lines_of pieces) = omap parse_co_author pieces.
Proof.
  induction pieces as [|p pieces IH]; [done|]. destruct pieces as [|q pieces].
  - cbn [lines_of]. destruct (text_eqb p []) eqn:E; [|done]. apply text_eqb_true in E as ->. done.
  - change (lines_of (p :: q :: pieces)) with (strip_carriage_return p :: lines_of (q :: pieces)).
    by rewrite !omap_step, parse_strip_carriage_return, IH.
Qed.

Lemma split_app_pieces sep s t : split sep (s ++ sep :: t) = split sep s ++ split sep t.
Proof.
  induction s as [|c s IH]; [cbn; by rewrite N.eqb_refl|]. cbn [app split]. rewrite IH.
  destruct (c =? sep); [done|]. by destruct (split sep s) eqn:E; [apply split_nonempty in E|].
Qed.

Lemma parse_message subject trailers :
  Forall (λ l, line_feed ∉ l) trailers →
  parse_co_authors (revision_message subject trailers)
  = parse_co_authors subject ++ omap parse_co_author trailers.
Proof.
  intros Hall. unfold parse_co_authors, lines. rewrite !parse_lines. unfold revision_message.
  destruct trailers as [|t trailers]; [symmetry; apply (right_id_L [] (++))|].
  change ([line_feed; line_feed] ++ ?l) with (line_feed :: line_feed :: l).
  rewrite split_app_pieces, omap_app. f_equal. change (line_feed :: join ?s ?l) with ([] ++ line_feed :: join s l).
  rewrite split_app_pieces, omap_app, split_join by done. done.
Qed.

(** C36: the co-authors that are read back from the message of a commit are
    those of its subject's lines, followed by its contributors, each in order
    and with the name and address it was given; a line break in a name or an
    address adds none. *)
Theorem contributors_are_read_back subject contributors :
  Forall identity_ok contributors →
  parse_co_authors (revision_message subject (coauthor_trailer <$> contributors))
  = parse_co_authors subject ++ ((λ i, (trim (gi_name i), gi_email i)) <$> contributors).
Proof.
  intros Hall. rewrite parse_message.
  2:{ apply Forall_fmap. eapply Forall_impl; [exact Hall|]. intros i. apply trailer_one_line. }
  f_equal. induction Hall as [|i l Hi _ IH]; [done|]. rewrite !fmap_cons.
  rewrite omap_step, trailer_read by done. by f_equal.
Qed.

(** ** Pages *)

Lemma collect_passed before limit walk rows :
  collect_revisions true before limit walk rows = rows ++ (revision_row <$> take (limit - length rows) walk).
Proof.
  induction walk as [|c walk IH] in rows |- *; cbn [collect_revisions].
  { rewrite take_nil. symmetry. apply (right_id_L [] (++)). }
  cbn [negb]. destruct (Nat.leb_spec limit (length rows)).
  - replace (limit - length rows)%nat with 0%nat by lia. symmetry. apply (right_id_L [] (++)).
  - rewrite IH, length_app. cbn [length]. replace (limit - length rows)%nat with (S (limit - (length rows + 1))) by lia.
    cbn [take]. by rewrite fmap_cons, <-(assoc_L (++)).
Qed.
Lemma collect_before walk1 c walk2 limit :
  Forall (λ d, wc_oid d ≠ wc_oid c) walk1 →
  collect_revisions false (Some (wc_oid c)) limit (walk1 ++ c :: walk2) [] = revision_row <$> take limit walk2.
Proof.
  induction 1 as [|d walk1 Hd _ IH]; cbn [app collect_revisions negb].
  - rewrite bool_decide_true by done. rewrite collect_passed. simpl. by rewrite Nat.sub_0_r.
  - rewrite bool_decide_false by congruence. exact IH.
Qed.

(** The pages from a cursor on; [fuel] bounds their number. *)
Fixpoint pages (fuel : nat) (walk : list WalkedCommit) (cursor : option text) (limit : nat) : list RevisionCommitRow :=
  match fuel with
  | O => []
  | S fuel =>
      let page := list_revision_rows walk cursor limit in
      match last page with
      | Some row => page ++ pages fuel walk (Some (rr_id row)) limit
      | None => page
      end
  end.

Lemma page_end {A} limit (l : list A) e :
  last (take limit l) = Some e →
  ∃ w rest, l = w ++ e :: rest ∧ take limit l = w ++ [e] ∧ (length rest < length l)%nat.
Proof.
  intros [w Hw]%last_Some. exists w, (drop limit l).
  assert (Hl : l = w ++ e :: drop limit l).
  { rewrite <-(take_drop limit l) at 1. by rewrite Hw, <-(assoc_L (++)). }
  split_and!; [done|done|]. rewrite Hl at 2. rewrite length_app. simpl. lia.
Qed.

Lemma pages_after limit walk1 c walk2 fuel :
  NoDup (wc_oid <$> walk1 ++ c :: walk2) → (0 < limit)%nat → (length walk2 < fuel)%nat →
  pages fuel (walk1 ++ c :: walk2) (Some (wc_oid c)) limit = revision_row <$> walk2.
Proof.
  induction fuel as [|fuel IH] in walk1, c, walk2 |- *; intros Hnd Hl Hf; [lia|]. cbn [pages].
  assert (Hbefore : Forall (λ d, wc_oid d ≠ wc_oid c) walk1).
  { rewrite fmap_app, fmap_cons in Hnd. apply NoDup_app in Hnd as (_ & Hnd & _). apply Forall_forall.
    intros d Hd Heq. apply (Hnd (wc_oid d)); [by apply list_elem_of_fmap_2|rewrite Heq; left]. }
  unfold list_revision_rows. rewrite collect_before by done. rewrite fmap_last.
  destruct (last (take limit walk2)) as [e|] eqn:Hlast.
  - cbn [fmap option_fmap option_map]. change (rr_id (revision_row e)) with (wc_oid e).
    destruct (page_end limit walk2 e Hlast) as (w & rest & -> & Hw & Hrest). rewrite Hw.
    replace (walk1 ++ c :: w ++ e :: rest) with ((walk1 ++ c :: w) ++ e :: rest) in Hnd |- *
      by (by rewrite <-(assoc_L (++))).
    rewrite IH; [|done|done|lia]. rewrite !fmap_app, fmap_cons, <-(assoc_L (++)). reflexivity.
  - apply last_None in Hlast. cbn. rewrite Hlast. destruct walk2; [done|]. by destruct limit; [lia|].
Qed.

Lemma first_page walk limit : list_revision_rows walk None limit = revision_row <$> take limit walk.
Proof. unfold list_revision_rows. rewrite collect_passed. cbn [length app]. by rewrite Nat.sub_0_r. Qed.

(** Asking for page after page, each from the last revision of the one
    before, lists the history completely: every commit of the walk once and in
    order, whatever the size of the pages. *)
Theorem pages_list_the_history walk limit fuel :
  NoDup (wc_oid <$> walk) → (0 < limit)%nat → (length walk < fuel)%nat →
  pages fuel walk None limit = revision_row <$> walk.
Proof.
  intros Hnd Hl Hf. destruct fuel as [|fuel]; [lia|]. cbn [pages]. rewrite first_page, fmap_last.
  destruct (last (take limit walk)) as [e|] eqn:Hlast.
  - cbn [fmap option_fmap option_map]. change (rr_id (revision_row e)) with (wc_oid e).
    destruct (page_end limit walk e Hlast) as (w & rest & -> & Hw & Hrest). rewrite Hw.
    rewrite pages_after; [|done|done|lia]. rewrite !fmap_app, fmap_cons, <-(assoc_L (++)). reflexivity.
  - apply last_None in Hlast. cbn. rewrite Hlast. destruct walk; [done|]. by destruct limit; [lia|].
Qed.

(** ** The theorems at small inputs *)

(** A name with a line break, and a subject that carries a trailer of its own. *)
Definition alice_identity : GitIdentity :=
  account (lit "Alice" ++ [line_feed] ++ lit "Co-authored-by: Eve <eve@x>") (lit "alice@example.com")
    (lit "Collaborator") (lit "collaborator@localhost").
Definition forged_subject : text :=
  lit "Draft" ++ [line_feed; line_feed] ++ lit "Co-authored-by: Mallory <mallory@example.com>".

Lemma contributors_are_read_back_witness :
  parse_co_authors (revision_message forged_subject [coauthor_trailer alice_identity])
  = [(lit "Mallory", lit "mallory@example.com"); (lit "Alice Co-authored-by: Eve eve@x", lit "alice@example.com")].
Proof.
  pose proof (contributors_are_read_back forged_subject [alice_identity]) as H.
  etrans; [apply H; apply Forall_singleton, account_ok|]. vm_compute. reflexivity.
Defined.

Definition short_walk : list WalkedCommit :=
  (λ i, MkWalked [i] (Some (lit "Online updates")) 0 (Some (lit "Alice")) (Some (lit "alice@example.com")) (lit "Online updates"))
    <$> [3; 2; 1].
Lemma pages_list_the_history_witness : rr_id <$> pages 4 short_walk None 2 = [[3]; [2]; [1]].
Proof.
  rewrite (pages_list_the_history short_walk 2 4); [vm_compute; reflexivity| |lia|vm_compute; lia].
  apply (bool_decide_unpack _). vm_compute. exact I.
Defined.
