(* ===== verification/GitMerge.v ===== *)
(** * Versioning: pushes beside online edits

    versioning::http::merge: a push into a project that has edits the branch
    lacks is merged with them, file by file, and a rejected push is answered in
    the side-band format of the Git protocol. *)
From S2P Require Import Prelude Text Paths PathFacts RevisionTransfer.

Open Scope N_scope.

(** ** The three-way merge of two contents *)

Inductive MergeFileValue : Type :=
| MergeText (content : text)
| MergeBinary (content : bytes) (content_type : text).
#[export] Instance MergeFileValue_eq_dec : EqDecision MergeFileValue.
Proof. solve_decision. Defined.

Definition merge_file_equal (a b : MergeFileValue) : bool :=
  match a, b with
  | MergeText a, MergeText b => text_eqb a b
  | MergeBinary a_bytes a_content_type, MergeBinary b_bytes b_content_type =>
      bool_decide (a_bytes = b_bytes) && text_eqb a_content_type b_content_type
  | _, _ => false
  end.

Inductive MergeWorkspaceResult : Type :=
| Merged (files : gmap text MergeFileValue)
| MergeConflicts (paths : list text).

Definition value_changed (base other : option MergeFileValue) : bool :=
  match base, other with
  | Some a, Some b => negb (merge_file_equal a b)
  | None, None => false
  | _, _ => true
  end.

Section merge.
(** git2: [merge_file_from_index] on the three texts of a path, none where they
    conflict or it fails. *)
Context (three_way_merge_text : text → text → text → text → option text).

(** The value of a key, or a conflict. *)
Definition merged_value (key : text) (base_value pushed_value online_value : option MergeFileValue) :
    result unit (option MergeFileValue) :=
  if negb (value_changed base_value online_value) then Ok pushed_value
  else if negb (value_changed base_value pushed_value) then Ok online_value
  else match base_value, pushed_value, online_value with
       | Some (MergeText base_text), Some (MergeText pushed_text), Some (MergeText online_text) =>
           match three_way_merge_text key base_text pushed_text online_text with
           | Some merged_text => Ok (Some (MergeText merged_text))
           | None => Err ()
           end
       | _, Some a, Some b => if merge_file_equal a b then Ok (Some a) else Err ()
       | _, None, None => Ok None
       | _, _, _ => Err ()
       end.

Definition merge_step (base pushed online : gmap text MergeFileValue)
    (acc : gmap text MergeFileValue * list text) (key : text) : gmap text MergeFileValue * list text :=
  match merged_value key (base !! key) (pushed !! key) (online !! key) with
  | Ok (Some value) => (<[key := value]> acc.1, acc.2)
  | Ok None => acc
  | Err _ => (acc.1, acc.2 ++ [key])
  end.

(** The keys in the order of the hash set, here that of the elements. *)
Definition merge_online_over_pushed (base pushed online : gmap text MergeFileValue) : MergeWorkspaceResult :=
  let keys := dom base ∪ dom pushed ∪ dom online in
  let '(merged, conflicts) := foldl (merge_step base pushed online) (∅, []) (elements keys) in
  match conflicts with
  | [] => Merged merged
  | _ => MergeConflicts (sort_text conflicts)
  end.
End merge.

(** [git_revision_state_to_merge_map]; documents first, then assets. *)
Definition git_revision_state_to_merge_map (source : GitRevisionState) : gmap text MergeFileValue :=
  ((λ a, MergeBinary (ga_bytes a) (ga_content_type a)) <$> gs_assets source)
  ∪ (MergeText <$> gs_documents source).

(** ** Answers to a rejected push *)

Definition newline : N := 0xA.
Definition line (s : string) : text := lit s ++ [newline].

Definition push_reject_hint_lines (reason : text) : list text :=
  if text_eqb reason (lit "forced push prohibited") then
    [line "error: forced push prohibited"; [newline];
     line "hint: You can't git push --force to this Typst project. Rebase or merge on top of current head."]
  else if starts_with (lit "fetch first:") reason then
    [line "error: push rejected because server has newer online updates";
     line "hint: Pull latest changes, rebase/merge your local commit, then push again."]
  else [lit "error: " ++ reason ++ [newline]].

(** [{:04x}]: at least four digits. *)
Definition hex_digit (d : N) : N := if d <? 10 then 0x30 + d else 0x57 + d.
Fixpoint hex_digits (k : nat) (n : N) : text :=
  match k with
  | O => []
  | S k => hex_digits k (n / 16) ++ [hex_digit (n mod 16)]
  end.
Definition hex4 (n : N) : text := hex_digits (if n <? 0x10000 then 4 else (N.size_nat n + 3) / 4) n.

Definition pkt_line_bytes (payload : bytes) : bytes := hex4 (N.of_nat (length payload) + 4) ++ payload.
Definition pkt_line (payload : text) : bytes := pkt_line_bytes (utf8 payload).
Definition flush_pkt : bytes := lit "0000".

Definition receive_pack_report (ref_name reason : text) : bytes :=
  pkt_line (line "unpack ok") ++ pkt_line (lit "ng " ++ ref_name ++ lit " " ++ reason ++ [newline]) ++ flush_pkt.
Definition git_receive_pack_reject_body (ref_name reason : text) (hints : list text) : bytes :=
  concat ((λ hint, pkt_line_bytes (2 :: utf8 hint)) <$> hints)
  ++ pkt_line_bytes (1 :: receive_pack_report ref_name reason) ++ flush_pkt.

(** ** The client: reading pkt-lines *)

Definition hex_value (c : N) : option N :=
  if in_range 0x30 0x39 c then Some (c - 0x30)
  else if in_range 0x61 0x66 c then Some (c - 0x57) else None.
(** The packets up to a flush, and what follows it. *)
Fixpoint read_packets (fuel : nat) (l : bytes) : option (list bytes * bytes) :=
  match fuel, l with
  | S fuel, a :: b :: c :: d :: l =>
      a ← hex_value a; b ← hex_value b; c ← hex_value c; d ← hex_value d;
      let n := ((a * 16 + b) * 16 + c) * 16 + d in
      if n =? 0 then Some ([], l)
      else if n <? 4 then None
      else let k := N.to_nat (n - 4) in
           if (length l <? k)%nat then None else
           '(ps, rest) ← read_packets fuel (drop k l); Some (take k l :: ps, rest)
  | _, _ => None
  end.
(** Of a side-band stream: the messages (band 2) and the data (band 1). *)
Definition band (b : N) (p : bytes) : option bytes :=
  match p with c :: p => if c =? b then Some p else None | [] => None end.
Definition read_side_band (fuel : nat) (l : bytes) : option (list bytes * bytes) :=
  '(ps, _) ← read_packets fuel l; Some (omap (band 2) ps, concat (omap (band 1) ps)).

(** * Facts *)

Lemma merge_file_equal_true a b : merge_file_equal a b = true ↔ a = b.
Proof.
  destruct a, b; simpl; rewrite ?andb_true_iff, ?text_eqb_true, ?bool_decide_eq_true; naive_solver.
Qed.

Lemma value_changed_false a b : value_changed a b = false ↔ a = b.
Proof.
  destruct a as [a|], b as [b|]; simpl; try naive_solver.
  rewrite negb_false_iff, merge_file_equal_true. naive_solver.
Qed.

(** ** Merging

    The value a three-way merge should have: a side that did not change gives
    way to the other; changes that agree are kept; two different changes of a
    text are merged as texts; all else is a conflict. *)
Section merged.
Context (merge_text : text → text → text → text → option text).

Definition reference_merge (p : text) (base pushed online : option MergeFileValue) :
    result unit (option MergeFileValue) :=
  if decide (online = base) then Ok pushed else
  if decide (pushed = base) then Ok online else
  match base, pushed, online with
  | Some (MergeText b), Some (MergeText x), Some (MergeText y) =>
      match merge_text p b x y with Some t => Ok (Some (MergeText t)) | None => Err () end
  | _, _, _ => if decide (pushed = online) then Ok pushed else Err ()
  end.

Lemma merged_value_reference p base pushed online :
  merged_value merge_text p base pushed online = reference_merge p base pushed online.
Proof.
  unfold merged_value, reference_merge.
  destruct (value_changed base online) eqn:Ho; simpl.
  2:{ apply value_changed_false in Ho. by rewrite decide_True. }
  rewrite decide_False.
  2:{ intros ->. assert (value_changed base base = false) by by apply value_changed_false. congruence. }
  destruct (value_changed base pushed) eqn:Hp; simpl.
  2:{ apply value_changed_false in Hp. by rewrite decide_True. }
  rewrite decide_False.
  2:{ intros ->. assert (value_changed base base = false) by by apply value_changed_false. congruence. }
  assert (Heq : ∀ a b, merge_file_equal a b = bool_decide (a = b)).
  { intros a b. apply eq_bool_prop_intro. rewrite !Is_true_true, merge_file_equal_true. by rewrite bool_decide_eq_true. }
  destruct base as [[b|b bt]|], pushed as [[x|x xt]|], online as [[y|y yt]|]; try done;
    rewrite ?Heq; repeat case_decide; repeat case_bool_decide; simplify_eq; try done.
Qed.

(** ** The whole merge *)

Lemma merge_fold base pushed online l files conflicts :
  NoDup l → (∀ p, p ∈ l → files !! p = None ∧ p ∉ conflicts) →
  let r := foldl (merge_step merge_text base pushed online) (files, conflicts) l in
  (∀ p, r.1 !! p = if decide (p ∈ l) then
                     match reference_merge p (base !! p) (pushed !! p) (online !! p) with
                     | Ok v => v | Err _ => None end
                   else files !! p)
  ∧ (∀ p, p ∈ r.2 ↔ p ∈ conflicts ∨ p ∈ l ∧ reference_merge p (base !! p) (pushed !! p) (online !! p) = Err ())
  ∧ (NoDup conflicts → NoDup r.2).
Proof.
  cbv zeta. induction l as [|k l IH] in files, conflicts |- *; intros Hnd Hfresh; cbn [foldl].
  { split_and!; [..|done]; intros p.
    - by rewrite decide_False by apply not_elem_of_nil.
    - split; [by left|]. intros [?|[[]%elem_of_nil _]]; done. }
  apply NoDup_cons in Hnd as [Hk Hnd]. destruct (Hfresh k) as [Hkf Hkc]; [left|].
  unfold merge_step at 2 4 6. rewrite merged_value_reference. cbn [fst snd].
  destruct (reference_merge k _ _ _) as [[v|]|[]] eqn:Er.
  - destruct (IH (<[k := v]> files) conflicts Hnd) as (H1 & H2 & H3).
    { intros p Hp. destruct (Hfresh p) as [Hpf Hpc]; [by right|]. split; [|done].
      rewrite lookup_insert_ne by (intros ->; done). done. }
    split_and!; [intros p..|done].
    + rewrite H1. destruct (decide (p ∈ l)) as [Hp|Hp]; [by rewrite decide_True by by right|].
      destruct (decide (p = k)) as [->|Hne].
      * rewrite lookup_insert_eq, decide_True by left. by rewrite Er.
      * rewrite lookup_insert_ne, decide_False; [done| |done]. by intros [?|?]%elem_of_cons.
    + rewrite H2, elem_of_cons. split; [naive_solver|]. intros [?|[[->|?] He]]; [by left|congruence|by right].
  - destruct (IH files conflicts Hnd) as (H1 & H2 & H3); [intros p Hp; apply Hfresh; by right|].
    split_and!; [intros p..|done].
    + rewrite H1. destruct (decide (p ∈ l)) as [Hp|Hp]; [by rewrite decide_True by by right|].
      destruct (decide (p = k)) as [->|Hne].
      * rewrite decide_True by left. by rewrite Er.
      * rewrite decide_False; [done|]. by intros [?|?]%elem_of_cons.
    + rewrite H2, elem_of_cons. split; [naive_solver|]. intros [?|[[->|?] He]]; [by left|congruence|by right].
  - destruct (IH files (conflicts ++ [k]) Hnd) as (H1 & H2 & H3).
    { intros p Hp. destruct (Hfresh p) as [Hpf Hpc]; [by right|]. split; [done|].
      rewrite elem_of_app, list_elem_of_singleton. intros [?| ->]; done. }
    split_and!; [intros p..|].
    + rewrite H1. destruct (decide (p ∈ l)) as [Hp|Hp]; [by rewrite decide_True by by right|].
      destruct (decide (p = k)) as [->|Hne].
      * rewrite decide_True by left. by rewrite Er.
      * rewrite decide_False; [done|]. by intros [?|?]%elem_of_cons.
    + rewrite H2, elem_of_cons, elem_of_app, list_elem_of_singleton. split.
      * intros [[?| ->]|[??]]; [by left|right; by split; [left|]|right; by split; [right|]].
      * intros [?|[[->|?] He]]; [by left; left|by left; right|by right].
    + intros Hc. apply H3. apply NoDup_app. split_and!; [done| |apply NoDup_singleton].
      intros x Hx ->%list_elem_of_singleton. done.
Qed.

(** C33: a push into a project that was edited online is merged file by file:
    a file only one side changed gets that change, whatever it is, equal
    changes are kept, texts changed differently are merged as texts, and the
    push is refused, naming exactly the files in question, if any of these
    does not work out. *)
Theorem merges_keep_the_changes_of_both_sides base pushed online :
  match merge_online_over_pushed merge_text base pushed online with
  | Merged files => ∀ p, reference_merge p (base !! p) (pushed !! p) (online !! p) = Ok (files !! p)
  | MergeConflicts paths =>
      paths ≠ [] ∧ NoDup paths ∧ StronglySorted text_le paths
      ∧ ∀ p, p ∈ paths ↔ reference_merge p (base !! p) (pushed !! p) (online !! p) = Err ()
  end.
Proof.
  unfold merge_online_over_pushed. cbv zeta. set (keys := elements (dom base ∪ dom pushed ∪ dom online)).
  destruct (merge_fold base pushed online keys ∅ []) as (H1 & H2 & H3).
  { apply NoDup_elements. }
  { intros p _. split; [apply lookup_empty|apply not_elem_of_nil]. }
  assert (Hout : ∀ p, p ∉ keys → reference_merge p (base !! p) (pushed !! p) (online !! p) = Ok None).
  { intros p. unfold keys. rewrite elem_of_elements, !not_elem_of_union, !not_elem_of_dom.
    intros [[-> ->] ->]. unfold reference_merge. by rewrite decide_True. }
  destruct (foldl _ _ keys) as [files conflicts]. simpl in *. destruct conflicts as [|c conflicts].
  - intros p. rewrite H1. destruct (decide (p ∈ keys)) as [Hp|Hp].
    + destruct (reference_merge p _ _ _) as [v|[]] eqn:E; [done|].
      assert (Hn : p ∈ @nil text) by (apply H2; auto). by apply elem_of_nil in Hn.
    + rewrite Hout by done. by rewrite lookup_empty.
  - set (cs := c :: conflicts) in *. split_and!.
    + unfold sort_text. intros Hnil. assert (Hc : c ∈ stable_sort text_le cs) by (apply elem_of_stable_sort; left).
      rewrite Hnil in Hc. by apply elem_of_nil in Hc.
    + unfold sort_text. rewrite stable_sort_Permutation. apply H3, NoDup_nil_2.
    + apply (StronglySorted_stable_sort text_le cs).
    + intros p. rewrite elem_of_sort_text, H2. split; [by intros [[]%elem_of_nil|[_ ?]]|].
      intros He. right. split; [|done]. destruct (decide (p ∈ keys)) as [|Hp]; [done|].
      rewrite Hout in He by done. done.
Qed.
End merged.

(** ** Packets *)

Lemma hex_value_digit d : d < 16 → hex_value (hex_digit d) = Some d.
Proof.
  intros Hd. unfold hex_digit, hex_value, in_range. destruct (N.ltb_spec d 10).
  - rewrite (proj2 (N.leb_le _ _)), (proj2 (N.leb_le _ _)) by lia. simpl. f_equal. lia.
  - rewrite (proj2 (N.leb_gt (0x57 + d) 0x39)), andb_false_r by lia.
    rewrite (proj2 (N.leb_le _ _)), (proj2 (N.leb_le _ _)) by lia. simpl. f_equal. lia.
Qed.

Lemma hex4_read n : n < 0x10000 →
  ∃ a b c d, hex4 n = [hex_digit a; hex_digit b; hex_digit c; hex_digit d]
    ∧ a < 16 ∧ b < 16 ∧ c < 16 ∧ d < 16 ∧ ((a * 16 + b) * 16 + c) * 16 + d = n.
Proof.
  intros Hn. unfold hex4. rewrite (proj2 (N.ltb_lt _ _)) by done. cbn [hex_digits app].
  eexists _, _, _, _. split; [reflexivity|].
  pose proof (N.div_mod n 16). pose proof (N.div_mod (n / 16) 16). pose proof (N.div_mod (n / 16 / 16) 16).
  pose proof (N.mod_upper_bound n 16). pose proof (N.mod_upper_bound (n / 16) 16).
  pose proof (N.mod_upper_bound (n / 16 / 16) 16). pose proof (N.mod_upper_bound (n / 16 / 16 / 16) 16).
  assert (n / 16 / 16 / 16 < 16).
  { rewrite !N.Div0.div_div. apply N.Div0.div_lt_upper_bound. lia. }
  rewrite (N.mod_small (n / 16 / 16 / 16)) by done. split_and!; lia.
Qed.

(** What fits in one packet. *)
Definition packet_sized (payload : bytes) : Prop := N.of_nat (length payload) + 4 < 0x10000.

Lemma read_pkt_line fuel payload l :
  packet_sized payload →
  read_packets (S fuel) (pkt_line_bytes payload ++ l) =
    ('(ps, rest) ← read_packets fuel l; Some (payload :: ps, rest)).
Proof.
  intros Hp. unfold pkt_line_bytes. destruct (hex4_read _ Hp) as (a & b & c & d & -> & Ha & Hb & Hc & Hd & Hn).
  cbn [app]. cbn [read_packets]. rewrite !hex_value_digit by done. cbn [mbind option_bind].
  rewrite Hn. rewrite (proj2 (N.eqb_neq _ _)), (proj2 (N.ltb_ge _ _)) by lia.
  replace (N.to_nat (N.of_nat (length payload) + 4 - 4)) with (length payload) by lia.
  rewrite length_app. destruct (Nat.ltb_spec (length payload + length l) (length payload)); [lia|].
  by rewrite take_app_length, drop_app_length.
Qed.

Lemma read_flush fuel l : read_packets (S fuel) (flush_pkt ++ l) = Some ([], l).
Proof. reflexivity. Qed.

Lemma read_packet_list fuel ps l :
  Forall packet_sized ps → (length ps < fuel)%nat →
  read_packets fuel (concat (pkt_line_bytes <$> ps) ++ flush_pkt ++ l) = Some (ps, l).
Proof.
  induction ps as [|p ps IH] in fuel |- *; intros Hall Hf; (destruct fuel as [|fuel]; [simpl in Hf; lia|]).
  - apply read_flush.
  - apply Forall_cons in Hall as [Hp Hall]. rewrite fmap_cons. cbn [concat]. rewrite <-(assoc_L (++)).
    rewrite read_pkt_line by done. rewrite IH; [done|done|simpl in Hf; lia].
Qed.

Lemma reject_body_packets ref_name reason hints :
  git_receive_pack_reject_body ref_name reason hints =
    concat (pkt_line_bytes <$> (((λ hint, 2 :: utf8 hint) <$> hints) ++ [1 :: receive_pack_report ref_name reason]))
    ++ flush_pkt ++ [].
Proof.
  unfold git_receive_pack_reject_body. set (report := 1 :: receive_pack_report _ _). clearbody report.
  rewrite fmap_app, concat_app, <-list_fmap_compose, <-(assoc_L (++)). f_equal.
  cbn [fmap list_fmap concat]. by rewrite !(right_id_L [] (++)).
Qed.
Lemma messages_of_hints (hints : list text) : omap (band 2) ((λ hint, 2 :: utf8 hint) <$> hints) = utf8 <$> hints.
Proof. induction hints as [|h hints IH]; [done|]. rewrite !fmap_cons. cbn [omap list_omap band]. simpl. by f_equal. Qed.
Lemma data_of_hints (hints : list text) : omap (band 1) ((λ hint, 2 :: utf8 hint) <$> hints) = [].
Proof. induction hints as [|h hints IH]; [done|]. rewrite fmap_cons. simpl. exact IH. Qed.

(** What the server answers to a rejected push is what the client reads:
    the hints on the message band, and the report that the pack was unpacked
    and the ref refused for the reason given, as long as each fits a packet. *)
Theorem rejections_are_read_back ref_name reason hints fuel :
  Forall (λ hint, packet_sized (2 :: utf8 hint)) hints →
  packet_sized (1 :: receive_pack_report ref_name reason) →
  (length hints + 3 < fuel)%nat →
  ∃ report, read_side_band fuel (git_receive_pack_reject_body ref_name reason hints)
              = Some (utf8 <$> hints, report)
    ∧ read_packets fuel report
      = Some ([utf8 (line "unpack ok"); utf8 (lit "ng " ++ ref_name ++ lit " " ++ reason ++ [newline])], []).
Proof.
  intros Hh Hr Hf. exists (receive_pack_report ref_name reason). split.
  - unfold read_side_band. rewrite reject_body_packets, read_packet_list.
    + change (Some (omap (band 2) (((λ hint, 2 :: utf8 hint) <$> hints) ++ [1 :: receive_pack_report ref_name reason]),
        concat (omap (band 1) (((λ hint, 2 :: utf8 hint) <$> hints) ++ [1 :: receive_pack_report ref_name reason])))
        = Some (utf8 <$> hints, receive_pack_report ref_name reason)).
      generalize (receive_pack_report ref_name reason). intros report.
      rewrite !omap_app, messages_of_hints, data_of_hints. simpl. by rewrite !(right_id_L [] (++)).
    + apply Forall_app. split; [by apply Forall_fmap|]. apply Forall_singleton. exact Hr.
    + rewrite length_app, length_fmap. simpl. lia.
  - unfold receive_pack_report, pkt_line.
    pose proof (read_packet_list fuel [utf8 (line "unpack ok"); utf8 (lit "ng " ++ ref_name ++ lit " " ++ reason ++ [newline])] [])
      as Hread.
    cbn [fmap list_fmap concat] in Hread. rewrite !(right_id_L [] (++)), <-(assoc_L (++)) in Hread. apply Hread.
    + unfold packet_sized, receive_pack_report, pkt_line, pkt_line_bytes in *.
      cbn [length] in Hr. rewrite !length_app in Hr. constructor; [by vm_compute|].
      apply Forall_singleton. lia.
    + simpl. lia.
Qed.

Lemma rejections_are_read_back_witness :
  let reason := lit "forced push prohibited" in
  ∃ report, read_side_band 9 (git_receive_pack_reject_body (lit "refs/heads/main") reason (push_reject_hint_lines reason))
              = Some (utf8 <$> push_reject_hint_lines reason, report)
    ∧ read_packets 9 report
      = Some ([utf8 (line "unpack ok"); utf8 (lit "ng " ++ lit "refs/heads/main" ++ lit " " ++ reason ++ [newline])], []).
Proof.
  apply (rejections_are_read_back (lit "refs/heads/main") (lit "forced push prohibited")
           (push_reject_hint_lines (lit "forced push prohibited")) 9).
  - repeat (apply Forall_cons; split; [vm_compute; reflexivity|]). apply Forall_nil. exact I.
  - vm_compute. reflexivity.
  - vm_compute. lia.
Defined.
