(* ===== verification/GitWorktree.v ===== *)
(** * Versioning: the content of a worktree

    versioning::worktree_files, and of ::materialization the writing of a
    snapshot into a directory and the reading of a worktree as the content of a
    project.  A directory is the set of its regular files and its directories,
    by their paths relative to it; symbolic links and special files, which both
    directions pass over, are left out. *)
From S2P Require Import Prelude Store Text Paths PathFacts AccessModel WorkspaceModel WorkspaceProjects.
From S2P Require Import AccessSystem WorkspaceFiles WorkspaceSystem GitMerge.

Open Scope Z_scope.

(** ** The file system *)

Record DirectoryTree : Type := MkTree { dt_files : gmap text bytes; dt_directories : gset text }.
Definition empty_directory : DirectoryTree := MkTree ∅ ∅.

(** [std::fs::create_dir_all]: no part of the path may be a file. *)
Definition create_dir_all (path : text) (d : DirectoryTree) : option DirectoryTree :=
  let parts := {[path]} ∪ collect_parent_directories path ∅ in
  if bool_decide (parts ## dom (dt_files d))
  then Some (MkTree (dt_files d) (parts ∪ dt_directories d)) else None.
(** The directories above a target, the worktree itself not counted. *)
Definition create_parent (path : text) (d : DirectoryTree) : option DirectoryTree :=
  let parts := collect_parent_directories path ∅ in
  if bool_decide (parts ## dom (dt_files d))
  then Some (MkTree (dt_files d) (parts ∪ dt_directories d)) else None.
(** [std::fs::write]: the path must not be a directory. *)
Definition write_file (path : text) (content : bytes) (d : DirectoryTree) : option DirectoryTree :=
  if bool_decide (path ∈ dt_directories d) then None
  else Some (MkTree (<[path := content]> (dt_files d)) (dt_directories d)).

(** ** worktree_files *)

(** The components of a path that are not empty or [.], if none of them leaves
    the worktree or addresses the repository. *)
Definition repository_file_path (relative_path : text) : option text :=
  if starts_with [slash] relative_path then None else
  let components := filter (λ c, negb (text_eqb c [] || text_eqb c (lit ".")) = true) (split slash relative_path) in
  if existsb (λ c, text_eqb c (lit "..") || eq_ignore_ascii_case c (lit ".git")) components then None
  else Some (join slash components).

(** [collect_repository_files]: not those below a directory called [.git]. *)
Definition below_metadata (path : text) : bool :=
  existsb (text_eqb (lit ".git")) (removelast (split slash path)).
Definition collect_repository_files (d : DirectoryTree) : gmap text bytes :=
  filter (λ kv, below_metadata kv.1 = false) (dt_files d).

(** ** Writing a snapshot *)

Inductive MaterializeWorkspaceError : Type :=
| MaterializePersistence (source : sqlx_error)
| MaterializeProjectNotFound
| MaterializeInvalidPath (path : text)
| MaterializeAsset (path : text)
| MaterializeFilesystem.

(** A directory, and a file with the directories above it. *)
Definition stage_directory (path : text) (staging : DirectoryTree) :
    result MaterializeWorkspaceError DirectoryTree :=
  match repository_file_path path with
  | None => Err (MaterializeInvalidPath path)
  | Some target => ok_or (create_dir_all target staging) MaterializeFilesystem
  end.
Definition stage_file (path : text) (content : bytes) (staging : DirectoryTree) :
    result MaterializeWorkspaceError DirectoryTree :=
  match repository_file_path path with
  | None => Err (MaterializeInvalidPath path)
  | Some target =>
      ok_or (staging ← create_parent target staging; write_file target content staging) MaterializeFilesystem
  end.
Fixpoint stage_all {A} (stage : A → DirectoryTree → result MaterializeWorkspaceError DirectoryTree)
    (l : list A) (staging : DirectoryTree) : result MaterializeWorkspaceError DirectoryTree :=
  match l with
  | [] => Ok staging
  | x :: l => staging ← stage x staging; stage_all stage l staging
  end.

Definition by_path {A} : relation (text * A) := λ a b, text_le a.1 b.1.
#[export] Instance by_path_dec A : RelDecision (by_path (A := A)).
Proof. intros a b. unfold by_path. apply _. Defined.
Definition sorted_files {A} (files : gmap text A) : list (text * A) := stable_sort by_path (map_to_list files).

(** The object store: what it holds under a key, which no operation changes,
    and whether it is configured; [available] tells which objects it delivers
    at the moment. *)
Section loading.
Context (storage : bool) (object_bytes : text → bytes) (available : text → bool).

Definition load_project_content_asset_bytes (asset : ProjectContentAsset) : option bytes :=
  match ca_inline_data asset with
  | Some inline_data => Some inline_data
  | None => if storage && available (ca_object_key asset) then Some (object_bytes (ca_object_key asset)) else None
  end.

Definition stage_asset (a : text * ProjectContentAsset) (staging : DirectoryTree) :
    result MaterializeWorkspaceError DirectoryTree :=
  content ← ok_or (load_project_content_asset_bytes a.2) (MaterializeAsset a.1);
  stage_file a.1 content staging.

(** [sync_project_documents_to_repo] from the snapshot to the staged directory. *)
Definition stage_content (c : ProjectContentSnapshot) : result MaterializeWorkspaceError DirectoryTree :=
  staging ← stage_all stage_directory (cs_directories c) empty_directory;
  staging ← stage_all (λ d, stage_file d.1 (utf8 d.2)) (sorted_files (cs_documents c)) staging;
  stage_all stage_asset (sorted_files (cs_assets c)) staging.

(** [workspace_snapshot_to_merge_map]; documents first, then assets. *)
Fixpoint insert_assets (l : list (text * ProjectContentAsset)) (output : gmap text MergeFileValue) :
    option (gmap text MergeFileValue) :=
  match l with
  | [] => Some output
  | (path, asset) :: l =>
      content ← load_project_content_asset_bytes asset;
      insert_assets l (<[path := MergeBinary content (ca_content_type asset)]> output)
  end.
Definition workspace_snapshot_to_merge_map (c : ProjectContentSnapshot) : option (gmap text MergeFileValue) :=
  insert_assets (map_to_list (cs_assets c)) (MergeText <$> cs_documents c).
End loading.

(** http::merge: [materialize_merge_map_to_dir], in the order of the map. *)
Definition merge_value_bytes (v : MergeFileValue) : bytes :=
  match v with MergeText content => utf8 content | MergeBinary content _ => content end.
Definition write_merge_file (kv : text * MergeFileValue) (d : DirectoryTree) : option DirectoryTree :=
  d ← create_parent kv.1 d; write_file kv.1 (merge_value_bytes kv.2) d.
Fixpoint materialize_merge_map_to_dir (l : list (text * MergeFileValue)) (d : DirectoryTree) : option DirectoryTree :=
  match l with
  | [] => Some d
  | kv :: l => d ← write_merge_file kv d; materialize_merge_map_to_dir l d
  end.

(** ** Reading a worktree *)

Inductive RepositoryFilesError : Type :=
| RepositoryFilesUnreadable
| RepositoryInvalidPath (path : text)
| RepositoryDocumentEncoding (path : text)
| RepositoryAssetTooLarge (path : text)
| RepositoryMissingEntryFile.

Record RawRepoAsset : Type := MkRawAsset {
  rw_path : text; rw_content_type : text; rw_size_bytes : Z; rw_bytes : bytes }.
Record PreparedRepoImport : Type := MkPreparedImport {
  pr_documents : list (text * text);
  pr_assets : list RawRepoAsset;
  pr_directories : list text;
  pr_entry_file_path : text }.

Section import.
Context (guess_content_type : text → text).

Record ReadFiles : Type := MkRead {
  rf_documents : list (text * text); rf_assets : list RawRepoAsset; rf_directories : gset text }.

Definition read_file (path : text) (content : bytes) (r : ReadFiles) : result RepositoryFilesError ReadFiles :=
  match sanitize_project_path path with
  | Err _ => Err (RepositoryInvalidPath path)
  | Ok clean_path =>
      let directories := collect_parent_directories clean_path (rf_directories r) in
      if is_document_text_path clean_path && looks_like_text content then
        match from_utf8 content with
        | None => Err (RepositoryDocumentEncoding clean_path)
        | Some text => Ok (MkRead (rf_documents r ++ [(clean_path, text)]) (rf_assets r) directories)
        end
      else
        let size_bytes := Z.of_nat (length content) in
        if i64_max <? size_bytes then Err (RepositoryAssetTooLarge clean_path) else
        Ok (MkRead (rf_documents r)
              (rf_assets r ++ [MkRawAsset clean_path (guess_content_type clean_path) size_bytes content])
              directories)
  end.
Fixpoint read_files (files : list (text * bytes)) (r : ReadFiles) : result RepositoryFilesError ReadFiles :=
  match files with
  | [] => Ok r
  | (path, content) :: files => r ← read_file path content r; read_files files r
  end.

(** [prepare_repo_import] up to the storing of the assets. *)
Definition read_repository (type : ProjectType) (current_entry : text) (d : DirectoryTree) :
    result RepositoryFilesError PreparedRepoImport :=
  r ← read_files (sorted_files (collect_repository_files d)) (MkRead [] [] ∅);
  match choose_entry_file_path type current_entry ((rf_documents r).*1) with
  | None => Err RepositoryMissingEntryFile
  | Some entry =>
      Ok (MkPreparedImport (rf_documents r) (rf_assets r) (sort_text (elements (rf_directories r))) entry)
  end.
End import.

(** * Facts *)

(** ** Paths of project files in a worktree *)

Lemma good_segment_plain s : good_segment s →
  text_eqb s [] || text_eqb s (lit ".") = false
  ∧ text_eqb s (lit "..") || eq_ignore_ascii_case s (lit ".git") = false
  ∧ text_eqb (lit ".git") s = false.
Proof.
  intros (Hne & _ & Hd & Hdd & Hg & _). rewrite !orb_false_iff, !text_eqb_false. split_and!; try done.
  intros <-. vm_compute in Hg. done.
Qed.
Lemma good_segments_plain ss : Forall good_segment ss →
  filter (λ c, negb (text_eqb c [] || text_eqb c (lit ".")) = true) ss = ss
  ∧ existsb (λ c, text_eqb c (lit "..") || eq_ignore_ascii_case c (lit ".git")) ss = false
  ∧ existsb (text_eqb (lit ".git")) (removelast ss) = false.
Proof.
  induction 1 as [|s ss (H1 & H2 & H3)%good_segment_plain _ (IH1 & IH2 & IH3)]; [done|].
  rewrite filter_cons_True by by rewrite H1. rewrite IH1. split_and!; [done| |].
  - cbn [existsb]. by rewrite H2, IH2.
  - destruct ss as [|s' ss]; [done|]. change (removelast (s :: s' :: ss)) with (s :: removelast (s' :: ss)).
    cbn [existsb]. by rewrite H3, IH3.
Qed.

Lemma repository_file_path_canonical p : canonical_path p → repository_file_path p = Some p.
Proof.
  intros Hc. pose proof (split_canonical p Hc) as [Hall Hj]. unfold repository_file_path.
  destruct Hc as (ss & Hne & Hss & Hp). rewrite Hp at 1. rewrite join_good_starts by done.
  destruct (good_segments_plain _ Hall) as (H1 & H2 & _). by rewrite H1, H2, Hj.
Qed.
Lemma below_metadata_canonical p : canonical_path p → below_metadata p = false.
Proof. intros [Hall _]%split_canonical. apply (good_segments_plain _ Hall). Qed.

(** ** Staging

    A tree is sound if no path is both a file and a directory of it. *)
Definition sound_tree (d : DirectoryTree) : Prop := ∀ x, x ∈ dt_directories d → dt_files d !! x = None.
(** [d'] is [d] with some more directories. *)
Definition grown (d d' : DirectoryTree) (more : text → Prop) : Prop :=
  sound_tree d' ∧ ∀ x, x ∈ dt_directories d' ↔ x ∈ dt_directories d ∨ more x.

Lemma proper_ancestor_irrefl p : ¬ proper_ancestor p p.
Proof. intros (r & _ & _ & H). apply (f_equal length) in H. rewrite length_app in H. simpl in H. lia. Qed.

Lemma dom_disjoint_lookup {A : Type} (parts : gset text) (m : gmap text A) :
  parts ## dom m ↔ ∀ x, x ∈ parts → m !! x = None.
Proof.
  rewrite elem_of_disjoint. setoid_rewrite elem_of_dom. split; intros H x.
  - intros Hx. destruct (m !! x) eqn:E; [|done]. by destruct (H x Hx); eauto.
  - intros Hx [v Hv]. rewrite H in Hv; done.
Qed.
Lemma not_disjoint_lookup {A : Type} (parts : gset text) (m : gmap text A) :
  ¬ parts ## dom m → ∃ x, x ∈ parts ∧ is_Some (m !! x).
Proof.
  intros H. destruct (decide (set_Exists (λ x, is_Some (m !! x)) parts)) as [(x & ? & ?)|Hn]; [by exists x|].
  destruct H. apply dom_disjoint_lookup. intros x Hx. apply eq_None_not_Some. intros Hs. apply Hn. by exists x.
Qed.

(** The directories of a statement, [here] if the path is one of them. *)
Definition made (here : bool) (path x : text) : Prop := (here = true ∧ x = path) ∨ proper_ancestor x path.

Lemma create_spec here path d :
  canonical_path path → sound_tree d →
  match (if here : bool then create_dir_all path d else create_parent path d) with
  | Some d' => grown d d' (made here path) ∧ dt_files d' = dt_files d
  | None => ∃ x, made here path x ∧ is_Some (dt_files d !! x)
  end.
Proof.
  intros Hc Hd. set (parts := (if here then {[path]} else ∅) ∪ collect_parent_directories path ∅ : gset text).
  assert (Hparts : ∀ x, x ∈ parts ↔ made here path x).
  { intros x. unfold parts, made. rewrite elem_of_union, collect_parent_directories_spec by done.
    destruct here; rewrite ?elem_of_singleton, elem_of_empty; intuition done. }
  assert (He : (if here then create_dir_all path d else create_parent path d)
    = if bool_decide (parts ## dom (dt_files d)) then Some (MkTree (dt_files d) (parts ∪ dt_directories d)) else None).
  { unfold parts, create_dir_all, create_parent. destruct here; [done|]. by rewrite (left_id_L ∅ (∪)). }
  rewrite He. case_bool_decide as H; simpl.
  - split; [|done]. split; intros x; simpl; rewrite elem_of_union, Hparts; [|tauto].
    intros [Hx|Hx]; [|by apply Hd]. by apply (proj1 (dom_disjoint_lookup _ _) H), Hparts.
  - apply not_disjoint_lookup in H as (x & Hx & ?). exists x. by rewrite <-Hparts.
Qed.

Definition is_filesystem_error (e : MaterializeWorkspaceError) : Prop := e = MaterializeFilesystem.

Lemma stage_directory_spec path d :
  canonical_path path → sound_tree d →
  match stage_directory path d with
  | Ok d' => grown d d' (made true path) ∧ dt_files d' = dt_files d
  | Err e => e = MaterializeFilesystem ∧ ∃ x, made true path x ∧ is_Some (dt_files d !! x)
  end.
Proof.
  intros Hc Hd. unfold stage_directory. rewrite repository_file_path_canonical by done.
  pose proof (create_spec true path d Hc Hd) as H. by destruct (create_dir_all path d).
Qed.
Lemma stage_file_spec path content d :
  canonical_path path → sound_tree d →
  match stage_file path content d with
  | Ok d' => grown d d' (made false path) ∧ dt_files d' = <[path := content]> (dt_files d)
  | Err e => e = MaterializeFilesystem
             ∧ (path ∈ dt_directories d ∨ ∃ x, made false path x ∧ is_Some (dt_files d !! x))
  end.
Proof.
  intros Hc Hd. unfold stage_file. rewrite repository_file_path_canonical by done.
  pose proof (create_spec false path d Hc Hd) as H. destruct (create_parent path d) as [d1|]; simpl.
  2:{ split; [done|by right]. }
  destruct H as [[Hs Hdirs] Hfiles]. unfold write_file. case_bool_decide as Hin; simpl.
  - split; [done|]. left. apply Hdirs in Hin as [?|[[? _]|Ha]]; [done..|by apply proper_ancestor_irrefl in Ha].
  - rewrite Hfiles. split; [split; simpl; [|done]|done]. intros x Hx. cbn in Hx |- *.
    rewrite lookup_insert_ne by (intros ->; done). rewrite <-Hfiles. by apply Hs.
Qed.

(** A loop over directories, or over files. *)
Lemma stage_directories_spec l d :
  Forall canonical_path l → sound_tree d →
  match stage_all stage_directory l d with
  | Ok d' => grown d d' (λ x, ∃ p, p ∈ l ∧ made true p x) ∧ dt_files d' = dt_files d
  | Err e => e = MaterializeFilesystem ∧ ∃ x p, p ∈ l ∧ made true p x ∧ is_Some (dt_files d !! x)
  end.
Proof.
  intros Hl. induction Hl as [|p l Hp _ IH] in d |- *; intros Hd; cbn [stage_all].
  { split; [|done]. split; [done|]. intros x. split; [by left|]. by intros [?|(? & []%elem_of_nil & _)]. }
  pose proof (stage_directory_spec p d Hp Hd) as H1.
  destruct (stage_directory p d) as [d1|e]; cbn [mbind result_bind].
  2:{ destruct H1 as [-> (x & ? & ?)]. split; [done|]. exists x, p. split_and!; [left|done..]. }
  destruct H1 as [[Hs Hdirs] Hf]. specialize (IH d1 Hs).
  destruct (stage_all _ l d1) as [d2|e].
  - destruct IH as [[Hs2 Hd2] Hf2]. split; [|by rewrite Hf2]. split; [done|]. intros x. rewrite Hd2, Hdirs.
    setoid_rewrite elem_of_cons. split; [naive_solver|]. intros [?|(q & [->|?] & ?)]; [by left; left|by left; right|].
    right. by exists q.
  - destruct IH as [-> (x & q & ? & ? & Hx)]. split; [done|]. rewrite Hf in Hx. exists x, q. split_and!; [by right|done..].
Qed.
Lemma stage_files_spec {A} (content : A → bytes) (l : list (text * A)) d :
  Forall canonical_path l.*1 → NoDup l.*1 → sound_tree d →
  match stage_all (λ a, stage_file a.1 (content a.2)) l d with
  | Ok d' => grown d d' (λ x, ∃ p, p ∈ l.*1 ∧ made false p x)
             ∧ dt_files d' = (content <$> list_to_map l) ∪ dt_files d
  | Err e => e = MaterializeFilesystem
             ∧ ∃ x, (is_Some (dt_files d !! x) ∨ x ∈ l.*1)
                    ∧ (x ∈ dt_directories d ∨ ∃ p, p ∈ l.*1 ∧ made false p x)
  end.
Proof.
  induction l as [|[p a] l IH] in d |- *; intros Hc Hn Hd; cbn [stage_all].
  { rewrite list_to_map_nil, fmap_empty, (left_id_L ∅ (∪)).
    split; [|done]. split; [done|]. intros x. split; [by left|]. by intros [?|(? & []%elem_of_nil & _)]. }
  rewrite fmap_cons in Hc, Hn |- *. apply Forall_cons in Hc as [Hp Hc]. apply NoDup_cons in Hn as [Hpl Hn].
  cbn [fst snd] in *. pose proof (stage_file_spec p (content a) d Hp Hd) as H1.
  destruct (stage_file p (content a) d) as [d1|e]; cbn [mbind result_bind].
  2:{ destruct H1 as [-> H1]. split; [done|]. destruct H1 as [H1|(x & ? & ?)].
      - exists p. split; [right; left|by left].
      - exists x. split; [by left|]. right. exists p. split; [left|done]. }
  destruct H1 as [[Hs Hdirs] Hf]. specialize (IH d1 Hc Hn Hs). destruct (stage_all _ l d1) as [d2|e].
  - destruct IH as [[Hs2 Hd2] Hf2]. split.
    + split; [done|]. intros x. rewrite Hd2, Hdirs. setoid_rewrite elem_of_cons.
      split; [naive_solver|]. intros [?|(q & [->|?] & ?)]; [by left; left|by left; right|]. right. by exists q.
    + rewrite Hf2, Hf, list_to_map_cons, fmap_insert. rewrite <-insert_union_r, insert_union_l; [done|].
      rewrite lookup_fmap, (not_elem_of_list_to_map_1 l) by done. done.
  - destruct IH as [-> (x & Hx & Hq)]. split; [done|]. exists x. rewrite Hf in Hx. setoid_rewrite elem_of_cons. split.
    + destruct Hx as [Hx|?]; [|by right; right]. destruct (decide (x = p)) as [->|]; [by right; left|].
      rewrite lookup_insert_ne in Hx by done. by left.
    + rewrite Hdirs in Hq. destruct Hq as [[?|?]|(q & ? & ?)]; [by left|right; exists p; by split; [left|]|].
      right. exists q. split; [by right|done].
Qed.

(** ** A snapshot in a directory *)

Section snapshot.
Context (directories : list text) (documents : gmap text text) (assets : gmap text bytes).

(** The staging of a snapshot whose assets are at hand. *)
Definition stage_snapshot : result MaterializeWorkspaceError DirectoryTree :=
  staging ← stage_all stage_directory directories empty_directory;
  staging ← stage_all (λ d, stage_file d.1 (utf8 d.2)) (sorted_files documents) staging;
  stage_all (λ a, stage_file a.1 a.2) (sorted_files assets) staging.

(** The files of a snapshot, and the directories it needs. *)
Definition snapshot_files : gmap text bytes := assets ∪ (utf8 <$> documents).
Definition snapshot_directory (x : text) : Prop :=
  (∃ p, p ∈ directories ∧ (x = p ∨ proper_ancestor x p)) ∨ ∃ p, is_Some (snapshot_files !! p) ∧ proper_ancestor x p.

Lemma sorted_files_keys {A} (m : gmap text A) x : x ∈ (sorted_files m).*1 ↔ is_Some (m !! x).
Proof.
  unfold sorted_files. rewrite stable_sort_Permutation, list_elem_of_fmap. split.
  - intros ([k v] & -> & Hin%elem_of_map_to_list). by exists v.
  - intros [v Hv]. exists (x, v). by rewrite elem_of_map_to_list.
Qed.
Lemma sorted_files_NoDup {A} (m : gmap text A) : NoDup (sorted_files m).*1.
Proof. unfold sorted_files. rewrite stable_sort_Permutation. apply NoDup_fst_map_to_list. Qed.
Lemma list_to_map_sorted_files {A} (m : gmap text A) : list_to_map (sorted_files m) = m.
Proof.
  rewrite <-(list_to_map_to_list m) at 2. apply list_to_map_proper; [apply sorted_files_NoDup|].
  unfold sorted_files. apply stable_sort_Permutation.
Qed.
Lemma sorted_files_canonical {A} (m : gmap text A) :
  (∀ p, is_Some (m !! p) → canonical_path p) → Forall canonical_path (sorted_files m).*1.
Proof. intros H. apply Forall_forall. intros p Hp%sorted_files_keys. by apply H. Qed.

Context (canonical_directories : Forall canonical_path directories).
Context (canonical_files : ∀ p, is_Some (snapshot_files !! p) → canonical_path p).

Lemma snapshot_file p : is_Some (snapshot_files !! p) ↔ is_Some (documents !! p) ∨ is_Some (assets !! p).
Proof. unfold snapshot_files. rewrite lookup_union_is_Some, lookup_fmap, fmap_is_Some. tauto. Qed.

Lemma stage_snapshot_spec :
  match stage_snapshot with
  | Ok d => sound_tree d ∧ dt_files d = snapshot_files ∧ ∀ x, x ∈ dt_directories d ↔ snapshot_directory x
  | Err e => e = MaterializeFilesystem ∧ ∃ x, is_Some (snapshot_files !! x) ∧ snapshot_directory x
  end.
Proof using canonical_directories canonical_files.
  unfold stage_snapshot.
  pose proof (stage_directories_spec directories empty_directory canonical_directories) as H1.
  destruct (stage_all stage_directory directories empty_directory) as [d1|e]; cbn [mbind result_bind];
    unfold grown in H1; cbn [dt_files dt_directories empty_directory] in H1.
  2:{ destruct H1 as [_ (x & p & _ & _ & [v Hv])]; [done|]. by rewrite lookup_empty in Hv. }
  destruct H1 as [[Hs1 Hd1] Hf1]; [done|].
  pose proof (stage_files_spec utf8 (sorted_files documents) d1) as H2.
  destruct (stage_all _ (sorted_files documents) d1) as [d2|e]; cbn [mbind result_bind].
  2:{ destruct H2 as [-> (x & Hx & Hq)]; [|apply sorted_files_NoDup|done|].
      { apply sorted_files_canonical. intros p Hp. apply canonical_files, snapshot_file. by left. }
      split; [done|]. exists x. rewrite snapshot_file. rewrite Hf1 in Hx. split.
      - destruct Hx as [[v Hv]|Hx]; [by rewrite lookup_empty in Hv|]. left. by apply sorted_files_keys.
      - destruct Hq as [Hq|(p & Hp%sorted_files_keys & [[]|Hq])]; [|done|].
        + apply Hd1 in Hq as [?|(p & ? & [[_ ->]|?])]; [set_solver|left; exists p; auto..].
        + right. exists p. rewrite snapshot_file. auto. }
  destruct H2 as [[Hs2 Hd2] Hf2]; [|apply sorted_files_NoDup|done|].
  { apply sorted_files_canonical. intros p Hp. apply canonical_files, snapshot_file. by left. }
  pose proof (stage_files_spec id (sorted_files assets) d2) as H3.
  assert (Hdirs : ∀ x, x ∈ dt_directories d2 ∨ (∃ p, p ∈ (sorted_files assets).*1 ∧ made false p x) ↔ snapshot_directory x).
  { intros x. rewrite Hd2, Hd1. unfold snapshot_directory. setoid_rewrite sorted_files_keys.
    setoid_rewrite snapshot_file. unfold made. set_solver. }
  change (λ a : text * bytes, stage_file a.1 (id a.2)) with (λ a : text * bytes, stage_file a.1 a.2) in H3.
  assert (Hca : Forall canonical_path (sorted_files assets).*1).
  { apply sorted_files_canonical. intros p Hp. apply canonical_files, snapshot_file. by right. }
  destruct (stage_all _ (sorted_files assets) d2) as [d3|e].
  - destruct H3 as [[Hs3 Hd3] Hf3]; [done|apply sorted_files_NoDup|done|]. split_and!; [done| |].
    + rewrite Hf3, Hf2, Hf1, !list_to_map_sorted_files, map_fmap_id. by rewrite (right_id_L ∅ (∪)).
    + intros x. by rewrite Hd3, Hdirs.
  - destruct H3 as [-> (x & Hx & Hq)]; [done|apply sorted_files_NoDup|done|]. split; [done|]. exists x. split.
    + rewrite sorted_files_keys in Hx. apply snapshot_file. destruct Hx as [Hx|?]; [|by right]. left.
      rewrite Hf2, Hf1, list_to_map_sorted_files, (right_id_L ∅ (∪)), lookup_fmap, fmap_is_Some in Hx. done.
    + by apply Hdirs.
Qed.
End snapshot.

(** ** The content of a project in a directory *)

(** What an asset is: its own bytes, or those of its object. *)
Definition asset_content (object_bytes : text → bytes) (a : ProjectContentAsset) : bytes :=
  default (object_bytes (ca_object_key a)) (ca_inline_data a).
Definition content_files (object_bytes : text → bytes) (c : ProjectContentSnapshot) : gmap text bytes :=
  snapshot_files (cs_documents c) (asset_content object_bytes <$> cs_assets c).
Definition content_directory (object_bytes : text → bytes) (c : ProjectContentSnapshot) : text → Prop :=
  snapshot_directory (cs_directories c) (cs_documents c) (asset_content object_bytes <$> cs_assets c).
(** Every stored path is canonical. *)
Definition canonical_content (c : ProjectContentSnapshot) : Prop :=
  Forall canonical_path (cs_directories c)
  ∧ ∀ p, is_Some (cs_documents c !! p) ∨ is_Some (cs_assets c !! p) → canonical_path p.

Section content.
Context (storage : bool) (object_bytes : text → bytes) (available : text → bool).
Let load := load_project_content_asset_bytes storage object_bytes available.

Lemma load_content a bytes : load a = Some bytes → bytes = asset_content object_bytes a.
Proof.
  unfold load, load_project_content_asset_bytes, asset_content. destruct (ca_inline_data a); simpl; [congruence|].
  destruct (storage && _); [congruence|done].
Qed.

Lemma stage_assets_plain l d :
  stage_all (stage_asset storage object_bytes available) l d
  = stage_all (λ a, stage_file a.1 (asset_content object_bytes a.2)) l d
  ∨ ∃ p a, (p, a) ∈ l ∧ load a = None
      ∧ stage_all (stage_asset storage object_bytes available) l d = Err (MaterializeAsset p).
Proof.
  induction l as [|[p a] l IH] in d |- *; [by left|]. cbn [stage_all].
  assert (Hs : stage_asset storage object_bytes available (p, a) d
    = match load a with Some content => stage_file p content d | None => Err (MaterializeAsset p) end).
  { unfold stage_asset, load. cbn [fst snd]. by destruct (load_project_content_asset_bytes _ _ _ a). }
  rewrite Hs. cbn [fst snd]. destruct (load a) as [bytes|] eqn:E.
  2:{ right. exists p, a. split_and!; [left|done..]. }
  pose proof (load_content a bytes E) as ->. clear Hs. destruct (stage_file p _ d) as [d1|e]; cbn [mbind result_bind]; [|by left].
  destruct (IH d1) as [->|(q & b & ? & ? & ->)]; [by left|]. right. exists q, b. split_and!; [by right|done..].
Qed.

Lemma stage_all_fmap {A B} (g : A → B) (content : B → bytes) (l : list (text * A)) d :
  stage_all (λ a, stage_file a.1 (content a.2)) (prod_map id g <$> l) d
  = stage_all (λ a, stage_file a.1 (content (g a.2))) l d.
Proof.
  induction l as [|[p a] l IH] in d |- *; [done|]. rewrite fmap_cons. cbn [stage_all prod_map fst snd].
  change (id p) with p. destruct (stage_file p _ d); cbn [mbind result_bind]; [apply IH|done].
Qed.
Lemma insert_sorted_fmap {A B} (g : A → B) x (l : list (text * A)) :
  insert_sorted by_path (prod_map id g x) (prod_map id g <$> l) = prod_map id g <$> insert_sorted by_path x l.
Proof.
  induction l as [|y l IH]; [done|]. rewrite fmap_cons. cbn [insert_sorted]. 
  destruct (decide (by_path x y)) as [H|H].
  - rewrite decide_True; [done|exact H].
  - rewrite decide_False by exact H. by rewrite fmap_cons, IH.
Qed.
Lemma stable_sort_fmap {A B} (g : A → B) (l : list (text * A)) :
  stable_sort by_path (prod_map id g <$> l) = prod_map id g <$> stable_sort by_path l.
Proof.
  induction l as [|x l IH]; [done|]. rewrite fmap_cons.
  change (insert_sorted by_path (prod_map id g x) (stable_sort by_path (prod_map id g <$> l))
          = prod_map id g <$> insert_sorted by_path x (stable_sort by_path l)).
  by rewrite IH, insert_sorted_fmap.
Qed.
Lemma sorted_files_fmap {A B} (g : A → B) (m : gmap text A) :
  sorted_files (g <$> m) = prod_map id g <$> sorted_files m.
Proof. unfold sorted_files. by rewrite map_to_list_fmap, stable_sort_fmap. Qed.

Lemma stage_content_plain c :
  stage_content storage object_bytes available c
  = stage_snapshot (cs_directories c) (cs_documents c) (asset_content object_bytes <$> cs_assets c)
  ∨ ∃ p a, cs_assets c !! p = Some a ∧ load a = None
      ∧ ∃ e, stage_content storage object_bytes available c = Err e.
Proof.
  unfold stage_content, stage_snapshot. rewrite sorted_files_fmap.
  destruct (stage_all stage_directory _ _) as [d1|]; cbn [mbind result_bind]; [|by left].
  destruct (stage_all _ (sorted_files (cs_documents c)) d1) as [d2|]; cbn [mbind result_bind]; [|by left].
  destruct (stage_assets_plain (sorted_files (cs_assets c)) d2) as [->|(p & a & Hin & Hl & ->)].
  - left. symmetry. apply (stage_all_fmap (asset_content object_bytes) id).
  - right. exists p, a. split_and!; [|done|by eexists].
    unfold sorted_files in Hin. rewrite elem_of_stable_sort in Hin. by apply elem_of_map_to_list.
Qed.

Lemma canonical_content_files c : canonical_content c →
  ∀ p, is_Some (snapshot_files (cs_documents c) (asset_content object_bytes <$> cs_assets c) !! p) → canonical_path p.
Proof. intros [_ Hfiles] p Hp%snapshot_file. apply Hfiles. by rewrite lookup_fmap, fmap_is_Some in Hp. Qed.

(** A worktree that could be written. *)
Lemma staged_content c d :
  canonical_content c → stage_content storage object_bytes available c = Ok d →
  sound_tree d ∧ dt_files d = content_files object_bytes c
  ∧ ∀ x, x ∈ dt_directories d ↔ content_directory object_bytes c x.
Proof.
  intros Hc Hd. destruct (stage_content_plain c) as [He|(_ & _ & _ & _ & e & He)]; [|congruence].
  pose proof (stage_snapshot_spec (cs_directories c) (cs_documents c) (asset_content object_bytes <$> cs_assets c)
    (proj1 Hc) (canonical_content_files c Hc)) as Hs. rewrite <-He, Hd in Hs. exact Hs.
Qed.

(** The files written for a revision are exactly those of the project,
    documents as UTF-8 and assets as stored, below the directories they need;
    this fails only when an asset cannot be loaded, or when some file lies
    where another path of the project needs a directory. *)
Theorem worktrees_hold_the_content c :
  canonical_content c →
  (∀ a, a ∈ map_to_list (cs_assets c) → is_Some (load a.2)) →
  let clash := λ x, is_Some (content_files object_bytes c !! x) ∧ content_directory object_bytes c x in
  match stage_content storage object_bytes available c with
  | Ok d => dt_files d = content_files object_bytes c
            ∧ (∀ x, x ∈ dt_directories d ↔ content_directory object_bytes c x) ∧ ∀ x, ¬ clash x
  | Err e => e = MaterializeFilesystem ∧ ∃ x, clash x
  end.
Proof.
  intros Hc Hload clash.
  destruct (stage_content_plain c) as [->|(p & a & Ha & Hl & _)].
  2:{ destruct (Hload (p, a)) as [b Hb]; [by apply elem_of_map_to_list|]. simpl in Hb. congruence. }
  pose proof (stage_snapshot_spec (cs_directories c) (cs_documents c) (asset_content object_bytes <$> cs_assets c)
    (proj1 Hc) (canonical_content_files c Hc)) as Hs.
  destruct (stage_snapshot _ _ _) as [d|e]; [|exact Hs]. destruct Hs as (Hs & Hf & Hd). split_and!; [done..|].
  intros x [[v Hv] Hx]. apply Hd, Hs in Hx. unfold content_files in Hv. by rewrite Hf, Hv in Hx.
Qed.
End content.

(** A project that has a file at a path and another below it, which no operation
    on files refuses, can no longer be written to a worktree. *)
Definition has_file (c : ProjectContentSnapshot) (p : text) : Prop :=
  is_Some (cs_documents c !! p) ∨ is_Some (cs_assets c !! p).

Lemma content_file object_bytes c p : is_Some (content_files object_bytes c !! p) ↔ has_file c p.
Proof. unfold content_files, has_file. by rewrite snapshot_file, lookup_fmap, fmap_is_Some. Qed.

(** C35: a project that holds a file at one path and another file below that
    path cannot be written to its worktree, whatever the object store delivers:
    it can be neither flushed nor cloned, and no revision of it can be created,
    until one of the two is gone. *)
Theorem nested_files_cannot_be_materialized storage object_bytes available project db c p q :
  lock_project_content_snapshot project db = Some c →
  canonical_content c → has_file c p → has_file c q → proper_ancestor p q →
  ∃ e, stage_content storage object_bytes available c = Err e.
Proof.
  intros _ Hc Hp Hq Hpq. destruct (stage_content storage object_bytes available c) as [d|e] eqn:Hd; [exfalso|by exists e].
  destruct (staged_content storage object_bytes available c d Hc Hd) as (Hs & Hf & Hdirs).
  apply (content_file object_bytes) in Hp as [v Hv]. rewrite <-Hf in Hv.
  assert (Hin : p ∈ dt_directories d).
  { apply Hdirs. right. exists q. split; [by apply (content_file object_bytes)|done]. }
  apply Hs in Hin. congruence.
Qed.

(** ** Reading a worktree back *)

(** How a file of a worktree is taken: as a document, or else as an asset. *)
Definition read_as_document (f : text * bytes) : option (text * text) :=
  if is_document_text_path f.1 && looks_like_text f.2 then t ← from_utf8 f.2; Some (f.1, t) else None.
Definition read_as_asset (guess_content_type : text → text) (f : text * bytes) : option RawRepoAsset :=
  if is_document_text_path f.1 && looks_like_text f.2 then None
  else Some (MkRawAsset f.1 (guess_content_type f.1) (Z.of_nat (length f.2)) f.2).

Section reading.
Context (guess_content_type : text → text).

Lemma looks_like_text_utf8 content : looks_like_text content = true → is_Some (from_utf8 content).
Proof. unfold looks_like_text. by rewrite andb_true_iff, bool_decide_eq_true; intros [_ ?]. Qed.

Lemma read_files_spec l r :
  Forall (λ f, canonical_path f.1 ∧ Z.of_nat (length f.2) ≤ i64_max) l →
  ∃ r', read_files guess_content_type l r = Ok r'
    ∧ rf_documents r' = rf_documents r ++ omap read_as_document l
    ∧ rf_assets r' = rf_assets r ++ omap (read_as_asset guess_content_type) l
    ∧ ∀ x, x ∈ rf_directories r' ↔ x ∈ rf_directories r ∨ ∃ f, f ∈ l ∧ proper_ancestor x f.1.
Proof.
  induction l as [|[p content] l IH] in r |- *; intros Hl.
  { exists r. split_and!; [done|symmetry; apply (right_id_L [] (++))|symmetry; apply (right_id_L [] (++))|]. intros x. split; [by left|].
    by intros [?|(f & []%elem_of_nil & _)]. }
  apply Forall_cons in Hl as [[Hc Hs] Hl]. cbn [fst snd] in Hc, Hs. cbn [read_files].
  assert (Hr : ∃ r1, read_file guess_content_type p content r = Ok r1
    ∧ rf_documents r1 = rf_documents r ++ omap read_as_document [(p, content)]
    ∧ rf_assets r1 = rf_assets r ++ omap (read_as_asset guess_content_type) [(p, content)]
    ∧ rf_directories r1 = collect_parent_directories p (rf_directories r)).
  { unfold read_file, omap, list_omap, read_as_document, read_as_asset. cbn [fst snd]. rewrite sanitize_complete by done.
    destruct (is_document_text_path p && looks_like_text content) eqn:E.
    - apply andb_true_iff in E as [_ [t Ht]%looks_like_text_utf8]. rewrite Ht. eexists. split; [done|].
      by rewrite (right_id_L [] (++)).
    - rewrite (proj2 (Z.ltb_ge _ _)) by done. eexists. split; [done|]. by rewrite (right_id_L [] (++)). }
  destruct Hr as (r1 & -> & Hd1 & Ha1 & Hx1). cbn [mbind result_bind].
  destruct (IH r1 Hl) as (r2 & -> & Hd2 & Ha2 & Hx2). exists r2. split; [done|].
  change ((p, content) :: l) with ([(p, content)] ++ l). rewrite !omap_app, Hd2, Hd1, Ha2, Ha1, <-!(assoc_L (++)).
  split_and!; [done..|]. intros x. rewrite Hx2, Hx1, collect_parent_directories_spec by done.
  cbn [app]. setoid_rewrite elem_of_cons. split.
  - intros [[?|?]|(f & ? & ?)]; [by left|right; exists (p, content); auto|right; eauto].
  - intros [?|(f & [->|?] & ?)]; [by left; left|by left; right|right; eauto].
Qed.
End reading.

Lemma utf8_char_zero c : 0%N ∈ utf8_char c → c = 0%N.
Proof.
  assert (Hadd : ∀ a b, a ≠ 0%N → 0%N ≠ (a + b)%N) by (intros a b ? [? _]%symmetry%N.eq_add_0; done).
  unfold utf8_char. repeat case_match; rewrite ?elem_of_cons, elem_of_nil; intros Hz; [by destruct Hz|..];
    exfalso; repeat (destruct Hz as [Hz|Hz]; [by apply Hadd in Hz|]); done.
Qed.
Lemma looks_like_text_document t :
  Forall (λ c, scalar c = true) t → 0%N ∉ t → looks_like_text (utf8 t) = true.
Proof.
  intros Hs Hz. unfold looks_like_text. rewrite andb_true_iff, negb_true_iff, bool_decide_eq_true. split.
  - apply not_true_iff_false. rewrite existsb_exists. intros (b & Hb%list_elem_of_In & <-%N.eqb_eq).
    unfold utf8 in Hb. apply list_elem_of_bind in Hb as (c & Hb & Hc). apply utf8_char_zero in Hb as ->. done.
  - rewrite from_utf8_utf8 by done. by eexists.
Qed.

(** What of a project survives the worktree: its documents are named and read
    as documents, its assets are not. *)
Record plain_content (object_bytes : text → bytes) (c : ProjectContentSnapshot) : Prop := MkPlain {
  pc_canonical : canonical_content c;
  pc_documents : ∀ p t, cs_documents c !! p = Some t →
    is_document_text_path p = true ∧ Forall (λ c, scalar c = true) t ∧ 0%N ∉ t
    ∧ Z.of_nat (length (utf8 t)) ≤ i64_max;
  pc_assets : ∀ p a, cs_assets c !! p = Some a →
    cs_documents c !! p = None ∧ Z.of_nat (length (asset_content object_bytes a)) ≤ i64_max
    ∧ is_document_text_path p && looks_like_text (asset_content object_bytes a) = false;
  pc_entry : accepts_entry_file_path (cs_type c) (cs_entry_file_path c) = true
    ∧ is_Some (cs_documents c !! cs_entry_file_path c);
}.

Lemma plain_file object_bytes c p content :
  plain_content object_bytes c →
  content_files object_bytes c !! p = Some content ↔
  (∃ t, cs_documents c !! p = Some t ∧ content = utf8 t)
  ∨ ∃ a, cs_assets c !! p = Some a ∧ content = asset_content object_bytes a.
Proof.
  intros Hp. unfold content_files, snapshot_files. rewrite lookup_union_Some_raw, !lookup_fmap, fmap_None, !fmap_Some.
  split; [naive_solver|]. intros [(t & Ht & ->)|?]; [|by left]. right. split; [|by exists t].
  destruct (cs_assets c !! p) as [a|] eqn:Ha; [|done]. destruct (pc_assets _ _ Hp _ _ Ha) as [Hn _]. congruence.
Qed.

Section read_back.
Context (guess_content_type object_bytes : text → bytes) (storage : bool) (available : text → bool).
Context (c : ProjectContentSnapshot) (Hc : plain_content object_bytes c).

Lemma plain_document p t content :
  content_files object_bytes c !! p = Some content →
  read_as_document (p, content) = Some (p, t) ↔ cs_documents c !! p = Some t.
Proof using Hc.
  intros Hf. unfold read_as_document. cbn [fst snd]. apply plain_file in Hf as [(u & Hu & ->)|(a & Ha & ->)]; [| |done].
  - destruct (pc_documents _ _ Hc _ _ Hu) as (Hd & Hs & Hz & _).
    rewrite Hd, looks_like_text_document, from_utf8_utf8 by done. simpl. rewrite Hu. split; by intros [= ->].
  - destruct (pc_assets _ _ Hc _ _ Ha) as (Hn & _ & ->). rewrite Hn. done.
Qed.

(** C34: a project that is written to a worktree and imported from it again is
    the same: the same documents, the same assets but for the content type,
    which is guessed anew, the same entry file, and of the directories those
    that files need.  It is said of the projects a worktree can tell apart
    ([plain_content]): paths are canonical; documents lie at the paths of text
    files and have no NUL; no asset lies at the path of a text file with bytes
    that read as text, nor at the path of a document; sizes fit in 64 bits; and
    the entry file is a document of the project's kind.  An uploaded asset
    [refs.bib], which no upload refuses, is outside: it comes back as a
    document. *)
Theorem worktrees_are_read_back d :
  stage_content storage object_bytes available c = Ok d →
  ∃ r, read_repository guess_content_type (cs_type c) (cs_entry_file_path c) d = Ok r
    ∧ pr_entry_file_path r = cs_entry_file_path c
    ∧ (∀ p t, (p, t) ∈ pr_documents r ↔ cs_documents c !! p = Some t)
    ∧ (∀ a, a ∈ pr_assets r ↔ ∃ x, cs_assets c !! rw_path a = Some x
         ∧ a = MkRawAsset (rw_path a) (guess_content_type (rw_path a))
                 (Z.of_nat (length (asset_content object_bytes x))) (asset_content object_bytes x))
    ∧ ∀ x, x ∈ pr_directories r ↔ ∃ p, has_file c p ∧ proper_ancestor x p.
Proof using Hc.
  intros Hd. destruct (staged_content _ _ _ c d (pc_canonical _ _ Hc) Hd) as (_ & Hf & _).
  unfold read_repository. assert (Hcol : collect_repository_files d = content_files object_bytes c).
  { unfold collect_repository_files. rewrite Hf. apply map_filter_id. intros p content Hp. cbn [fst].
    apply below_metadata_canonical. apply (pc_canonical _ _ Hc). apply (content_file object_bytes). by exists content. }
  rewrite Hcol. set (l := sorted_files (content_files object_bytes c)).
  assert (Hl : ∀ p content, (p, content) ∈ l ↔ content_files object_bytes c !! p = Some content).
  { intros p content. unfold l, sorted_files. rewrite elem_of_stable_sort. apply elem_of_map_to_list. }
  destruct (read_files_spec guess_content_type l (MkRead [] [] ∅)) as (r & -> & Hrd & Hra & Hrx).
  { apply Forall_forall. intros [p content] Hp%Hl. cbn [fst snd]. split.
    - apply (pc_canonical _ _ Hc), (content_file object_bytes). by exists content.
    - apply plain_file in Hp as [(t & Ht & ->)|(a & Ha & ->)]; [| |done].
      + by destruct (pc_documents _ _ Hc _ _ Ht) as (_ & _ & _ & ?).
      + by destruct (pc_assets _ _ Hc _ _ Ha) as (_ & ? & _). }
  assert (Hdocs : ∀ p t, (p, t) ∈ rf_documents r ↔ cs_documents c !! p = Some t).
  { intros p t. rewrite Hrd. cbn [rf_documents app]. rewrite list_elem_of_omap. split.
    - intros ([q content] & Hq%Hl & Hdoc). assert (q = p) as ->.
      { unfold read_as_document in Hdoc. cbn [fst snd] in Hdoc. destruct (_ && _); [|done].
        destruct (from_utf8 content); [|done]. simpl in Hdoc. by injection Hdoc. }
      by apply (plain_document p t content Hq).
    - intros Ht. assert (Hp : content_files object_bytes c !! p = Some (utf8 t)) by (apply plain_file; eauto).
      exists (p, utf8 t). split; [by apply Hl|]. by apply (plain_document p t (utf8 t) Hp). }
  cbn [mbind result_bind]. pose proof (entry_file_is_an_acceptable_document (cs_type c) (cs_entry_file_path c) (rf_documents r).*1) as He.
  assert (Hacc : acceptable_document (cs_type c) (rf_documents r).*1 (cs_entry_file_path c)).
  { destruct (pc_entry _ _ Hc) as [Hacc [t Ht]]. split; [|done]. apply list_elem_of_fmap. exists (cs_entry_file_path c, t).
    split; [done|]. by apply Hdocs. }
  destruct (choose_entry_file_path _ _ _) as [entry|]; [|by apply He in Hacc].
  destruct He as (_ & He & _). rewrite (He Hacc). eexists. split; [done|]. cbn [pr_entry_file_path pr_documents pr_assets pr_directories].
  split_and!; [done..| |].
  - intros a. rewrite Hra. cbn [rf_assets app]. rewrite list_elem_of_omap. split.
    + intros ([p content] & Hp%Hl & Ha). unfold read_as_asset in Ha. cbn [fst snd] in Ha.
      destruct (_ && _) eqn:E; [done|]. injection Ha as <-. cbn [rw_path].
      apply plain_file in Hp as [(t & Ht & ->)|(x & Hx & ->)]; [|by exists x|done].
      destruct (pc_documents _ _ Hc _ _ Ht) as (Hdt & Hs & Hz & _). by rewrite Hdt, looks_like_text_document in E.
    + intros (x & Hx & ->). exists (rw_path a, asset_content object_bytes x). split.
      * apply Hl, plain_file; eauto.
      * unfold read_as_asset. cbn [fst snd]. by destruct (pc_assets _ _ Hc _ _ Hx) as (_ & _ & ->).
  - intros x. rewrite elem_of_sort_text, elem_of_elements, Hrx. cbn [rf_directories]. split.
    + intros [[]%elem_of_empty|([p content] & Hp%Hl & Hx)]. exists p. split; [|done].
      apply (content_file object_bytes). by exists content.
    + intros (p & [content Hp]%(content_file object_bytes) & Hx). right. exists (p, content). by rewrite Hl.
Qed.
End read_back.

(** ** The theorems at small projects *)

Lemma canonical_by_sanitizing p : sanitize_project_path p = Ok p → canonical_path p.
Proof. apply sanitize_sound. Qed.
Definition canonical_contentb (c : ProjectContentSnapshot) : bool :=
  forallb (λ p, match sanitize_project_path p with Ok q => text_eqb q p | Err _ => false end)
    (cs_directories c ++ (map_to_list (cs_documents c)).*1 ++ (map_to_list (cs_assets c)).*1).
Lemma canonical_contentb_true c : canonical_contentb c = true → canonical_content c.
Proof.
  unfold canonical_contentb. rewrite forallb_forall. intros Hall.
  assert (H : ∀ p, p ∈ cs_directories c ++ (map_to_list (cs_documents c)).*1 ++ (map_to_list (cs_assets c)).*1 →
    canonical_path p).
  { intros p Hp%list_elem_of_In%Hall. apply canonical_by_sanitizing.
    destruct (sanitize_project_path p) as [q|]; [|done]. by apply text_eqb_true in Hp as ->. }
  split.
  - apply Forall_forall. intros p Hp. apply H, elem_of_app. by left.
  - intros p [[t Ht]|[a Ha]]; apply H; rewrite !elem_of_app; right; [left|right]; apply list_elem_of_fmap.
    + exists (p, t). by rewrite elem_of_map_to_list.
    + exists (p, a). by rewrite elem_of_map_to_list.
Qed.

Definition logo : ProjectContentAsset := MkContentAsset (lit "inline://7") (lit "image/png") (Some [1%N; 0%N]).
Definition illustrated : ProjectContentSnapshot :=
  MkContentSnapshot 4 0 Typst (lit "main.typ") None {[lit "main.typ" := lit "= Notes"]}
    {[lit "img/logo.png" := logo]} [lit "drafts"; lit "img"].
Definition nothing_stored : text → bytes := λ _, [].
Definition always_available : text → bool := λ _, true.

Lemma illustrated_canonical : canonical_content illustrated.
Proof. apply canonical_contentb_true. vm_compute. reflexivity. Qed.
Lemma illustrated_staged : ∃ d, stage_content false nothing_stored always_available illustrated = Ok d.
Proof. vm_compute. eexists. reflexivity. Qed.

Lemma worktrees_hold_the_content_witness :
  let clash := λ x, is_Some (content_files nothing_stored illustrated !! x)
                    ∧ content_directory nothing_stored illustrated x in
  match stage_content false nothing_stored always_available illustrated with
  | Ok d => dt_files d = content_files nothing_stored illustrated
            ∧ (∀ x, x ∈ dt_directories d ↔ content_directory nothing_stored illustrated x) ∧ ∀ x, ¬ clash x
  | Err e => e = MaterializeFilesystem ∧ ∃ x, clash x
  end.
Proof.
  apply (worktrees_hold_the_content false nothing_stored always_available illustrated illustrated_canonical).
  intros a Ha. change (cs_assets illustrated) with ({[lit "img/logo.png" := logo]} : gmap text ProjectContentAsset) in Ha.
  rewrite map_to_list_singleton in Ha. apply list_elem_of_singleton in Ha as ->. by eexists.
Defined.

(** A second file below the entry document. *)
Definition nested_workspace : WorkspaceDB :=
  run_workspace retention healthy 3
    (OCreateFile notes (lit "main.typ/notes.typ") File (lit "text") 70%N 71%N (lit "") (lit "") false
       (MkActor (Some alice) None)) opened_workspace.
Definition nested_content : ProjectContentSnapshot :=
  default illustrated (lock_project_content_snapshot notes nested_workspace).

Lemma nested_files_cannot_be_materialized_witness :
  ∃ e, stage_content true nothing_stored always_available nested_content = Err e.
Proof.
  apply (nested_files_cannot_be_materialized true nothing_stored always_available notes nested_workspace
           nested_content (lit "main.typ") (lit "main.typ/notes.typ")).
  - vm_compute. reflexivity.
  - apply canonical_contentb_true. vm_compute. reflexivity.
  - left. apply (bool_decide_unpack _). vm_compute. exact I.
  - left. apply (bool_decide_unpack _). vm_compute. exact I.
  - exists (lit "notes.typ"). split_and!; [apply canonical_by_sanitizing; vm_compute; reflexivity..|reflexivity].
Defined.

Lemma illustrated_plain : plain_content nothing_stored illustrated.
Proof.
  split.
  - apply illustrated_canonical.
  - intros p t Ht. change (({[lit "main.typ" := lit "= Notes"]} : gmap text text) !! p = Some t) in Ht.
    apply lookup_singleton_Some in Ht as [<- <-]. split_and!; [vm_compute; reflexivity| | |vm_compute; discriminate].
    + apply (bool_decide_unpack _). vm_compute. exact I.
    + apply (bool_decide_unpack _). vm_compute. exact I.
  - intros p a Ha. change (({[lit "img/logo.png" := logo]} : gmap text ProjectContentAsset) !! p = Some a) in Ha.
    apply lookup_singleton_Some in Ha as [<- <-]. split_and!; [|vm_compute; discriminate|vm_compute; reflexivity].
    vm_compute. reflexivity.
  - split; [vm_compute; reflexivity|]. apply (bool_decide_unpack _). vm_compute. exact I.
Qed.

Lemma worktrees_are_read_back_witness :
  ∃ d r, stage_content false nothing_stored always_available illustrated = Ok d
    ∧ read_repository (λ _, lit "image/png") Typst (lit "main.typ") d = Ok r
    ∧ pr_documents r = [(lit "main.typ", lit "= Notes")] ∧ pr_directories r = [lit "img"].
Proof.
  destruct (stage_content false nothing_stored always_available illustrated) as [d|] eqn:E; [|vm_compute in E; discriminate].
  destruct (worktrees_are_read_back (λ _, lit "image/png") nothing_stored false always_available illustrated
    illustrated_plain d E) as (r & Hr & _). exists d, r. split; [done|]. split; [exact Hr|].
  vm_compute in E. injection E as <-. vm_compute in Hr. injection Hr as <-. split; reflexivity.
Defined.
