(* ===== verification/GitRepository.v ===== *)
(** * Versioning: the local repository of a project

    versioning::local_repository, ::commit and the replacement of the worktree
    in ::materialization, over the library git2.  Of a repository the model has
    the worktree, a directory the backend writes itself, the commit at the head,
    and what git2 does with both; the name of the branch is fixed, and what can
    fail does so as the schedule says. *)
From S2P Require Import Prelude Store Text Paths PathFacts AccessModel WorkspaceModel WorkspaceProjects.
From S2P Require Import RevisionTransfer GitRevisions GitMerge GitWorktree.

Open Scope Z_scope.

Definition main_branch : text := lit "main".
Definition branch_reference : text := lit "refs/heads/main".

(** ** git2

    Trees and commits are named by what they hold.  [checkout_head] is the safe
    checkout; [index_add_all] opens the index, adds ["*"] and writes it. *)
Class Git2 : Type := {
  repository : Type;
  git2_error : Type;
  git_tree : Type;
  git_commit : Type;
  git_tree_eq :: EqDecision git_tree;
  git_commit_eq :: EqDecision git_commit;
  working_tree : repository → DirectoryTree;
  with_working_tree : DirectoryTree → repository → repository;
  head_target : repository → option git_commit;
  has_commit : repository → git_commit → bool;
  find_commit : schedule → repository → git_commit → result git2_error unit;
  commit_summary : git_commit → option text;
  commit_seconds : git_commit → Z;
  commit_tree : git_commit → git_tree;
  tree_blobs : git_tree → list GitBlob;
  has_reference : repository → text → bool;
  repository_init : schedule → text → result git2_error repository;
  set_configuration : schedule → repository → result git2_error unit * repository;
  set_head : schedule → text → repository → result git2_error unit * repository;
  checkout_head : schedule → repository → result git2_error unit * repository;
  statuses_empty : schedule → repository → result git2_error bool;
  index_add_all : schedule → repository → result git2_error unit * repository;
  write_tree : schedule → repository → result git2_error git_tree * repository;
  commit_on_head : schedule → time → GitIdentity → GitIdentity → text → git_tree → option git_commit →
    repository → result git2_error git_commit * repository;
  reset_hard : schedule → git_commit → repository → result git2_error unit * repository;
  delete_reference : schedule → text → repository → result git2_error unit * repository;
  clear_index : schedule → repository → result git2_error unit * repository;
  graph_descendant_of : schedule → repository → git_commit → git_commit → result git2_error bool;
}.

(** The files of a tree. *)
Definition blob_files (blobs : list GitBlob) : gmap text bytes :=
  list_to_map (omap (λ b, p ← bl_path b; Some (p, bl_content b)) blobs).
Definition commit_files `{Git2} (commit : git_commit) : gmap text bytes := blob_files (tree_blobs (commit_tree commit)).
(** The files of the branch: none before the first commit. *)
Definition head_files `{Git2} (r : repository) : gmap text bytes :=
  match head_target r with Some commit => commit_files commit | None => ∅ end.

(** What git2 documents: the worktree and the branch change independently of
    each other, and HEAD stays on the branch of the project, where the
    initialization puts it; the tracked files are the files of the worktree as
    they are, but where the rules of a [.gitignore] or [.gitattributes] among
    them are about the path; what is added to the index is what is tracked; the
    status is empty only if the head has exactly that; a commit has the tree it
    is given and becomes the head unless it fails. *)
Class Git2Laws `{Git2} : Type := {
  tracked_files : repository → gmap text bytes;
  index_files : repository → gmap text bytes;
  plain_path : gmap text bytes → text → bool;
  working_tree_written d r : working_tree (with_working_tree d r) = d;
  head_of_written d r : head_target (with_working_tree d r) = head_target r;
  tracked_exist r p : is_Some (tracked_files r !! p) → is_Some (dt_files (working_tree r) !! p);
  tracked_plain r p :
    plain_path (dt_files (working_tree r)) p = true → tracked_files r !! p = dt_files (working_tree r) !! p;
  configuration_keeps s r : head_target (set_configuration s r).2 = head_target r;
  set_head_keeps s r : head_target (set_head s branch_reference r).2 = head_target r;
  checkout_keeps s r : head_target (checkout_head s r).2 = head_target r;
  status_spec s r : statuses_empty s r = Ok true → head_files r = tracked_files r;
  add_all_spec s r :
    head_target (index_add_all s r).2 = head_target r ∧ working_tree (index_add_all s r).2 = working_tree r
    ∧ ((index_add_all s r).1 = Ok () → index_files (index_add_all s r).2 = tracked_files r);
  write_tree_spec s r :
    head_target (write_tree s r).2 = head_target r ∧ working_tree (write_tree s r).2 = working_tree r
    ∧ ∀ t, (write_tree s r).1 = Ok t → blob_files (tree_blobs t) = index_files r;
  commit_spec s now author committer message t parent r :
    match commit_on_head s now author committer message t parent r with
    | (Ok c, r') => head_target r' = Some c ∧ commit_tree c = t
    | (Err _, r') => head_target r' = head_target r
    end;
  no_reference r : has_reference r branch_reference = false → head_target r = None;
  delete_spec s r : (delete_reference s branch_reference r).1 = Ok () → head_target (delete_reference s branch_reference r).2 = None;
  clear_index_keeps s r : head_target (clear_index s r).2 = head_target r;
  reset_spec s c r : (reset_hard s c r).1 = Ok () → head_target (reset_hard s c r).2 = Some c;
  commit_worktree s now author committer message t parent r :
    working_tree (commit_on_head s now author committer message t parent r).2 = working_tree r;
}.

(** ** local_repository *)

(** git2 calls on a repository that end at the first failure. *)
Definition GitCall `{Git2} (A : Type) : Type := repository → result git2_error A * repository.
Definition git_bind `{Git2} {A B} (k : A → GitCall B) (c : GitCall A) : GitCall B := λ r,
  match c r with (Ok a, r) => k a r | (Err e, r) => (Err e, r) end.
Definition git_ret `{Git2} {A} (a : A) : GitCall A := λ r, (Ok a, r).
Definition git_query `{Git2} {A} (q : repository → result git2_error A) : GitCall A := λ r, (q r, r).

Section local_repository.
Context `{Git2}.

(** The directory is created first; [None]: there is no repository in it. *)
Definition ensure_initialized (s : schedule) (r : option repository) :
    result unit unit * option repository :=
  match s 0%nat with
  | Served =>
      match (match r with Some r => Ok r | None => repository_init (after 1 s) main_branch end) with
      | Err _ => (Err (), r)
      | Ok r =>
          match set_configuration (after 2 s) r with
          | (Ok _, r) => (Ok (), Some r)
          | (Err _, r) => (Err (), Some r)
          end
      end
  | _ => (Err (), r)
  end.

Definition checkout_branch (s : schedule) : GitCall unit :=
  git_bind (λ _ r,
    if has_reference r branch_reference then checkout_head (after 1 s) r else (Ok (), r))
    (set_head s branch_reference).

Definition worktree_is_clean (s : schedule) : GitCall bool := git_query (statuses_empty s).
Definition head_oid : GitCall (option git_commit) := git_query (λ r, Ok (head_target r)).
Definition is_ancestor (s : schedule) (ancestor tip : git_commit) : GitCall bool :=
  git_query (λ r, graph_descendant_of s r tip ancestor).

(** [clear_preserving_metadata] and [clear_repo_working_tree]: each entry of the
    directory but [.git], in some order, until one fails. *)
Definition entry_name (path : text) : text := default [] (head (split slash path)).
Definition entry_names (d : DirectoryTree) : list text :=
  elements (set_map entry_name (dom (dt_files d) ∪ dt_directories d) : gset text).
Definition remove_entry (name : text) (d : DirectoryTree) : DirectoryTree :=
  MkTree (filter (λ kv, entry_name kv.1 ≠ name) (dt_files d)) (filter (λ p, entry_name p ≠ name) (dt_directories d)).
Fixpoint clear_entries (s : schedule) (names : list text) (d : DirectoryTree) : result unit DirectoryTree * DirectoryTree :=
  match names with
  | [] => (Ok d, d)
  | name :: names =>
      match s 0%nat with
      | Served => clear_entries (after 1 s) names (remove_entry name d)
      | _ => (Err (), d)
      end
  end.
Definition clear_repo_working_tree (s : schedule) (d : DirectoryTree) : result unit DirectoryTree * DirectoryTree :=
  match s 0%nat with Served => clear_entries (after 1 s) (entry_names d) d | _ => (Err (), d) end.

(** [restore_head]. *)
Inductive RestoreRepositoryHeadError : Type := RestoreGit | RestoreFilesystem.
Definition lift_restore {A} (x : result git2_error A * repository) : result RestoreRepositoryHeadError A * repository :=
  (match x.1 with Ok a => Ok a | Err _ => Err RestoreGit end, x.2).
Definition restore_head (s : schedule) (target : option git_commit) (r : repository) :
    result RestoreRepositoryHeadError unit * repository :=
  match target with
  | Some target => lift_restore (reset_hard s target r)
  | None =>
      match lift_restore (git_bind (λ _, git_bind (λ _, clear_index (after 2 s)) (set_head (after 1 s) branch_reference))
              (λ r, if has_reference r branch_reference then delete_reference s branch_reference r else (Ok (), r)) r) with
      | (Ok _, r) =>
          let '(cleared, d) := clear_repo_working_tree (after 3 s) (working_tree r) in
          (match cleared with Ok _ => Ok () | Err _ => Err RestoreFilesystem end, with_working_tree d r)
      | (Err e, r) => (Err e, r)
      end
  end.

(** ** commit *)

(** The index written as a tree, and the head it is compared with. *)
Definition stage_tree (s : schedule) : GitCall git_tree :=
  git_bind (λ _, write_tree (after 1 s)) (index_add_all s).
Definition parent_commit (r : repository) : option git_commit :=
  c ← head_target r; if has_commit r c then Some c else None.
Definition commit_staged_if_changed (s : schedule) (now : time) (message : text) (author committer : GitIdentity) :
    GitCall (option git_commit) :=
  git_bind (λ tree r,
    let parent := parent_commit r in
    if bool_decide (commit_tree <$> parent = Some tree) then (Ok None, r) else
    git_bind (λ c, git_ret (Some c)) (commit_on_head (after 2 s) now author committer message tree parent) r)
    (stage_tree s).
Definition commit_allow_empty (s : schedule) (now : time) (message : text) (author committer : GitIdentity) :
    GitCall git_commit :=
  git_bind (λ tree r, commit_on_head (after 2 s) now author committer message tree (parent_commit r) r) (stage_tree s).

(** ** materialization *)

(** [replace_repo_working_tree]: the entries of the staged directory are renamed
    into the cleared one. *)
Definition move_entry (name : text) (staged d : DirectoryTree) : DirectoryTree :=
  MkTree (filter (λ kv, entry_name kv.1 = name) (dt_files staged) ∪ dt_files d)
    (filter (λ p, entry_name p = name) (dt_directories staged) ∪ dt_directories d).
Fixpoint move_entries (s : schedule) (names : list text) (staged d : DirectoryTree) : result unit unit * DirectoryTree :=
  match names with
  | [] => (Ok (), d)
  | name :: names =>
      match s 0%nat with
      | Served => move_entries (after 1 s) names staged (move_entry name staged d)
      | _ => (Err (), d)
      end
  end.
Definition replace_repo_working_tree (s : schedule) (staged : DirectoryTree) (d : DirectoryTree) :
    result unit unit * DirectoryTree :=
  match clear_repo_working_tree s d with
  | (Err _, d) => (Err (), d)
  | (Ok _, d) =>
      let s := after (S (length (entry_names d))) s in
      match s 0%nat with
      | Served => move_entries (after 1 s) (entry_names staged) staged d
      | _ => (Err (), d)
      end
  end.
End local_repository.

(** * Facts *)

(** ** The worktree *)

Lemma entry_names_spec d p :
  is_Some (dt_files d !! p) ∨ p ∈ dt_directories d → entry_name p ∈ entry_names d.
Proof.
  intros Hp. unfold entry_names. rewrite elem_of_elements, elem_of_map. exists p. split; [done|].
  rewrite elem_of_union, elem_of_dom. tauto.
Qed.

Lemma clear_entries_spec s names d d' :
  clear_entries s names d = (Ok d', d') →
  ∀ p, dt_files d' !! p = if bool_decide (entry_name p ∈ names) then None else dt_files d !! p.
Proof.
  induction names as [|name names IH] in s, d |- *; cbn [clear_entries].
  { intros [= <-] p. done. }
  destruct (s 0%nat); [|done..]. intros H p. rewrite (IH _ _ H p). cbn [remove_entry dt_files].
  destruct (decide (entry_name p = name)) as [He|Hne].
  - rewrite (bool_decide_eq_true_2 (_ ∈ _ :: _)) by (rewrite He; left). case_bool_decide; [done|].
    apply map_lookup_filter_None. right. intros v _ []. done.
  - rewrite (bool_decide_ext (_ ∈ _ :: _) (entry_name p ∈ names)) by (rewrite elem_of_cons; tauto).
    case_bool_decide; [done|]. apply option_eq. intros v. rewrite map_lookup_filter_Some. tauto.
Qed.
Lemma clear_entries_ends s names d : ∃ d', clear_entries s names d = (Ok d', d') ∨ clear_entries s names d = (Err (), d').
Proof.
  induction names as [|name names IH] in s, d |- *; cbn [clear_entries]; [eexists; by left|].
  destruct (s 0%nat); [apply IH|eexists; by right..].
Qed.
Lemma clear_repo_spec s d :
  ∃ d', (clear_repo_working_tree s d = (Ok d', d') ∧ dt_files d' = ∅) ∨ clear_repo_working_tree s d = (Err (), d').
Proof.
  unfold clear_repo_working_tree. destruct (s 0%nat); [|eexists; by right..].
  destruct (clear_entries_ends (after 1 s) (entry_names d) d) as [d' [H|H]]; exists d'; [left|by right].
  split; [done|]. apply map_eq. intros p. rewrite (clear_entries_spec _ _ _ _ H), lookup_empty.
  case_bool_decide as Hn; [done|]. apply eq_None_not_Some. intros Hp. apply Hn, entry_names_spec. by left.
Qed.

Lemma move_entries_spec s names staged d d' :
  move_entries s names staged d = (Ok (), d') →
  ∀ p, dt_files d' !! p
    = if bool_decide (entry_name p ∈ names)
      then match dt_files staged !! p with Some v => Some v | None => dt_files d !! p end else dt_files d !! p.
Proof.
  induction names as [|name names IH] in s, d |- *; cbn [move_entries].
  { intros [= <-] p. done. }
  destruct (s 0%nat); [|done..]. intros H p. rewrite (IH _ _ H p). cbn [move_entry dt_files].
  assert (Hl : (filter (λ kv : text * bytes, entry_name kv.1 = name) (dt_files staged) ∪ dt_files d) !! p
    = if bool_decide (entry_name p = name) then match dt_files staged !! p with Some v => Some v | None => dt_files d !! p end
      else dt_files d !! p).
  { rewrite lookup_union, map_lookup_filter. destruct (dt_files staged !! p), (dt_files d !! p);
      cbn; try case_guard; case_bool_decide; done. }
  rewrite Hl. clear Hl. destruct (decide (entry_name p = name)) as [He|Hne].
  - rewrite (bool_decide_eq_true_2 (_ ∈ _ :: _)) by (rewrite He; left). rewrite (bool_decide_eq_true_2 (_ = _)) by done.
    case_bool_decide; by destruct (dt_files staged !! p).
  - rewrite (bool_decide_ext (_ ∈ _ :: _) (entry_name p ∈ names)) by (rewrite elem_of_cons; tauto).
    by rewrite (bool_decide_eq_false_2 (_ = _)) by done.
Qed.

(** The worktree that replaces another one has exactly the staged files. *)
Lemma replaced_files s staged d d' : replace_repo_working_tree s staged d = (Ok (), d') → dt_files d' = dt_files staged.
Proof.
  unfold replace_repo_working_tree. destruct (clear_repo_spec s d) as [d1 [[-> Hd1]| ->]]; [|done].
  cbv zeta. destruct (after _ s 0%nat); [|done..]. intros H. apply map_eq. intros p.
  rewrite (move_entries_spec _ _ _ _ _ H), Hd1, lookup_empty. case_bool_decide as Hn.
  - by destruct (dt_files staged !! p).
  - symmetry. apply eq_None_not_Some. intros Hp. apply Hn, entry_names_spec. by left.
Qed.

(** ** The branch *)

Section branch.
Context `{Git2Laws}.

Lemma initialized_head s r :
  head_target <$> (ensure_initialized s (Some r)).2 = Some (head_target r).
Proof.
  unfold ensure_initialized. destruct (s 0%nat); [|done..]. pose proof (configuration_keeps (after 2 s) r) as Hc.
  destruct (set_configuration (after 2 s) r) as [[] r1]; simpl in *; by rewrite Hc.
Qed.
Lemma checked_out_head s r : head_target (checkout_branch s r).2 = head_target r.
Proof.
  unfold checkout_branch, git_bind. pose proof (set_head_keeps s r) as Hh.
  destruct (set_head s branch_reference r) as [[] r1]; simpl in *; [|done].
  destruct (has_reference r1 branch_reference); simpl; [by rewrite checkout_keeps|done].
Qed.

(** A head that could be restored is the target. *)
Lemma restored_head s target r : (restore_head s target r).1 = Ok () → head_target (restore_head s target r).2 = target.
Proof.
  unfold restore_head, lift_restore. destruct target as [c|].
  { cbn. pose proof (reset_spec s c r) as Hr. destruct (reset_hard s c r) as [[[]|] r1]; cbn in *; [by intros _; apply Hr|done]. }
  assert (Hstart : ∀ x, x = (if has_reference r branch_reference then delete_reference s branch_reference r else (Ok (), r)) →
    x.1 = Ok () → head_target x.2 = None).
  { intros x ->. destruct (has_reference r branch_reference) eqn:Hh; [apply delete_spec|intros _; by apply no_reference]. }
  unfold git_bind. destruct (if has_reference r branch_reference then _ else _) as [[[]|] r1]; [|done].
  specialize (Hstart _ eq_refl eq_refl). cbn in Hstart.
  pose proof (set_head_keeps (after 1 s) r1) as H1. destruct (set_head _ _ r1) as [[[]|] r2]; [|done]. cbn in H1.
  pose proof (clear_index_keeps (after 2 s) r2) as H2. destruct (clear_index _ r2) as [[[]|] r3]; [|done]. cbn in H2 |- *.
  destruct (clear_repo_working_tree _ _) as [cleared d]. cbn. intros _. rewrite head_of_written. congruence.
Qed.

Lemma stage_tree_spec s r :
  head_target (stage_tree s r).2 = head_target r ∧ working_tree (stage_tree s r).2 = working_tree r
  ∧ ∀ t, (stage_tree s r).1 = Ok t → blob_files (tree_blobs t) = tracked_files r.
Proof.
  unfold stage_tree, git_bind. destruct (add_all_spec s r) as (Ha & Hd & Hi).
  destruct (index_add_all s r) as [[[]|] r1]; simpl in *; [|done].
  destruct (write_tree_spec (after 1 s) r1) as (Hw & Hd' & Ht). destruct (write_tree (after 1 s) r1) as [res r2]; simpl in *.
  split_and!; [congruence..|]. intros t Hr. rewrite (Ht t Hr). by apply Hi.
Qed.

(** What a commit does to the branch: it has the tracked files, or nothing happened to it. *)
Definition committed {A} (r : repository) (x : result git2_error A * repository) : Prop :=
  match x.1 with Ok _ => head_files x.2 = tracked_files r | Err _ => head_target x.2 = head_target r end
  ∧ working_tree x.2 = working_tree r.

Lemma commit_on_head_committed s now author committer message t parent r1 r :
  blob_files (tree_blobs t) = tracked_files r → head_target r1 = head_target r → working_tree r1 = working_tree r →
  committed r (commit_on_head s now author committer message t parent r1).
Proof.
  intros Ht Hr Hd. pose proof (commit_spec s now author committer message t parent r1) as Hc.
  pose proof (commit_worktree s now author committer message t parent r1) as Hw. unfold committed.
  destruct (commit_on_head _ _ _ _ _ _ _ _) as [[c|e] r2]; cbn [fst snd] in *; (split; [|congruence]); [|congruence].
  destruct Hc as [Hc <-]. unfold head_files. by rewrite Hc, <-Ht.
Qed.
Lemma commit_allow_empty_committed s now message author committer r :
  committed r (commit_allow_empty s now message author committer r).
Proof.
  unfold commit_allow_empty, git_bind. destruct (stage_tree_spec s r) as (Hh & Hd & Ht).
  destruct (stage_tree s r) as [[t|e] r1]; simpl in *; [|done]. apply commit_on_head_committed; auto.
Qed.
Lemma commit_staged_committed s now message author committer r :
  committed r (commit_staged_if_changed s now message author committer r).
Proof.
  unfold commit_staged_if_changed, git_bind. destruct (stage_tree_spec s r) as (Hh & Hd & Ht).
  destruct (stage_tree s r) as [[t|e] r1]; cbn [fst snd] in *; [|done]. cbv zeta. case_bool_decide as Hp.
  - unfold committed. cbn [fst snd]. rewrite <-(Ht t) by done. split; [|done].
    unfold parent_commit in Hp. unfold head_files.
    destruct (head_target r1) as [c|]; cbn in Hp; [|done]. destruct (has_commit r1 c); cbn in Hp; [|done].
    by injection Hp as <-.
  - pose proof (commit_on_head_committed (after 2 s) now author committer message t (parent_commit r1) r1 r (Ht t eq_refl) Hh Hd) as Hc.
    revert Hc. destruct (commit_on_head _ _ _ _ _ _ _ _) as [[c|e] r2]; by unfold committed.
Qed.

(** The branch has the given files: no others, and each of them that no rule is about. *)
Definition holds_files (r : repository) (files : gmap text bytes) : Prop :=
  (∀ p, is_Some (head_files r !! p) → is_Some (files !! p))
  ∧ ∀ p, plain_path files p = true → head_files r !! p = files !! p.

Lemma tracked_holds r r' : head_files r' = tracked_files r → holds_files r' (dt_files (working_tree r)).
Proof.
  intros Hh. split; intros p; rewrite Hh; [apply tracked_exist|apply tracked_plain].
Qed.
Lemma head_holds r r' files : head_target r' = head_target r → holds_files r files → holds_files r' files.
Proof. unfold holds_files, head_files. by intros ->. Qed.
End branch.

(** ** A small git

    Repositories without [.gitignore]; a commit is the list of the trees and
    messages since the first one. *)
Record SmallRepository : Type := MkSmall {
  sm_tree : DirectoryTree; sm_head : option (list (gmap text bytes * text)); sm_index : gmap text bytes }.
Definition small_call {A} (s : schedule) (a : A) (r' r : SmallRepository) : result unit A * SmallRepository :=
  match s 0%nat with Served => (Ok a, r') | _ => (Err (), r) end.
Definition small_tree (c : list (gmap text bytes * text)) : gmap text bytes :=
  match c with (t, _) :: _ => t | [] => ∅ end.
Definition small_head_files (r : SmallRepository) : gmap text bytes := from_option small_tree ∅ (sm_head r).

#[export] Instance small_git : Git2 := {|
  repository := SmallRepository;
  git2_error := unit;
  git_tree := gmap text bytes;
  git_commit := list (gmap text bytes * text);
  working_tree := sm_tree;
  with_working_tree d r := MkSmall d (sm_head r) (sm_index r);
  head_target := sm_head;
  has_commit _ _ := true;
  find_commit s r _ := (small_call s () r r).1;
  commit_summary c := snd <$> head c;
  commit_seconds c := Z.of_nat (length c);
  commit_tree := small_tree;
  tree_blobs t := (λ kv, MkGitBlob (Some kv.1) kv.2) <$> map_to_list t;
  has_reference r _ := bool_decide (is_Some (sm_head r));
  repository_init s _ := (small_call s (MkSmall empty_directory None ∅) (MkSmall empty_directory None ∅) (MkSmall empty_directory None ∅)).1;
  set_configuration s r := small_call s () r r;
  set_head s _ r := small_call s () r r;
  checkout_head s r := small_call s () r r;
  statuses_empty s r :=
    (small_call s (bool_decide (small_head_files r = dt_files (sm_tree r))) r r).1;
  index_add_all s r := small_call s () (MkSmall (sm_tree r) (sm_head r) (dt_files (sm_tree r))) r;
  write_tree s r := small_call s (sm_index r) r r;
  commit_on_head s _ _ _ message t _ r :=
    let c := (t, message) :: default [] (sm_head r) in
    small_call s c (MkSmall (sm_tree r) (Some c) (sm_index r)) r;
  reset_hard s c r := small_call s () (MkSmall (MkTree (small_tree c) ∅) (Some c) (small_tree c)) r;
  delete_reference s _ r := small_call s () (MkSmall (sm_tree r) None (sm_index r)) r;
  clear_index s r := small_call s () (MkSmall (sm_tree r) (sm_head r) ∅) r;
  graph_descendant_of s r tip ancestor :=
    (small_call s (bool_decide (ancestor `suffix_of` tip ∧ ancestor ≠ tip)) r r).1;
|}.

Lemma small_blobs (t : gmap text bytes) : blob_files (tree_blobs t) = t.
Proof.
  unfold blob_files. cbn. rewrite <-(list_to_map_to_list t) at 2. f_equal.
  induction (map_to_list t) as [|[k v] l IH]; [done|]. rewrite fmap_cons, omap_step. cbn. by rewrite IH.
Qed.
Lemma small_files r : head_files r = small_head_files r.
Proof.
  unfold head_files, small_head_files, commit_files. change (head_target r) with (sm_head r).
  destruct (sm_head r) as [c|]; [|done]. apply small_blobs.
Qed.
#[export, program] Instance small_git_laws : Git2Laws := {|
  tracked_files r := dt_files (sm_tree r);
  index_files := sm_index;
  plain_path _ _ := true;
|}.
Solve Obligations with (intros; cbn in *; unfold small_call in *; by destruct (_ 0%nat)).
Solve Obligations with (intros; cbn in *; done).
Next Obligation.
  intros s r. rewrite small_files. cbn. unfold small_call. destruct (s 0%nat); [|done..]. cbn. intros [= H].
  by apply bool_decide_eq_true in H.
Qed.
Next Obligation.
  intros s r. cbn. unfold small_call. destruct (s 0%nat); cbn; split_and!; try done. by intros t [= <-]; apply small_blobs.
Qed.
Next Obligation.
  intros r. cbn. intros Hn%bool_decide_eq_false. by apply eq_None_not_Some.
Qed.
