(* ===== verification/GitSync.v ===== *)
(** * Versioning: the repository of a project and its content

    versioning::git_persistence, ::state and ::flush, and create_revision of
    ::revision_history: the content of a project is written into the worktree
    of its repository and committed, and its pending flag is cleared unless the
    project changed in the meantime.  A program holds the lock of its project;
    the operations of the workspace and the programs of the other projects run
    between its steps. *)
From S2P Require Import Prelude Store Text Paths AccessModel AccessSystem WorkspaceModel WorkspaceProjects.
From S2P Require Import Collaboration WorkspaceFrames WorkspaceSystem WorkspaceSteps WorkspaceTheorems Programs.
From S2P Require Import GitTracking GitRevisions GitMerge GitWorktree GitRepository.

Open Scope Z_scope.

(** ** The database and the repositories *)

Inductive GitSyncStatus : Type := SyncClean | SyncReceivePackImportFailed.
(** A row of [git_sync_states]; the branch is that of every project. *)
Record GitSyncState : Type := MkSyncState {
  ss_last_pull_at : option time; ss_last_push_at : option time; ss_has_conflicts : bool; ss_status : GitSyncStatus }.
Definition initial_sync_state : GitSyncState := MkSyncState None None false SyncClean.

(** The tables of the workspace; the column [last_server_sync_at] of
    [git_repositories]; the rows of [git_sync_states] that are not as they were
    inserted; and the repositories below [storage_root], by project. *)
Record GitDB `{Git2} : Type := MkGitDB {
  gd_workspace : WorkspaceDB;
  gd_synced_at : gmap uuid time;
  gd_sync_states : gmap uuid GitSyncState;
  gd_directories : gmap uuid repository;
}.
Arguments MkGitDB {_} _ _ _ _.
#[export] Instance GitDB_eta `{Git2} : Eta GitDB := λ db,
  MkGitDB (gd_workspace db) (gd_synced_at db) (gd_sync_states db) (gd_directories db).

(** What [git http-backend] did to a repository, and how it ended. *)
Inductive BackendEnd : Type :=
| BackendIo | BackendTimedOut | BackendInterrupted
| BackendFailedExit | BackendUnreadable | BackendInvalidResponse | BackendStreamFailed
| BackendResponded (status : Z).
Record BackendAnswer `{Git2} : Type := MkBackendAnswer { ba_effect : repository → repository; ba_end : BackendEnd }.
Arguments MkBackendAnswer {_} _ _.

(** What the programs wait for: the objects that the store delivers, and what
    becomes of one that is put; new identifiers, by path; the cleanup of objects
    and of the rooms of a replaced content; the Git process; the owner of a personal token; the audit
    log. *)
Inductive GitEvent `{Git2} : Type → Type :=
| FetchObjects : GitEvent (text → bool)
| NewIdentifiers : GitEvent (text → uuid)
| PutObject (key content_type : text) (content : bytes) : GitEvent (result unit unit)
| CleanupUncommitted (keys : list text) : GitEvent unit
| ContentReplaced (project : uuid) : GitEvent unit
| AuthenticateToken : GitEvent (result unit (option uuid))
| RunHttpBackend (project : uuid) : GitEvent BackendAnswer
| RecordEvent (kind : string) : GitEvent unit.

Section statements.
Context `{Git2}.

Definition within_workspace {A} (q : WorkspaceDB → result sqlx_error (A * WorkspaceDB)) (db : GitDB) :
    result sqlx_error (A * GitDB) :=
  match q (gd_workspace db) with
  | Ok (a, w) => Ok (a, db <| gd_workspace := w |>)
  | Err e => Err e
  end.
(** What a query of the workspace reads. *)
Definition of_workspace {A} (f : WorkspaceDB → A) (db : GitDB) : A := f (gd_workspace db).
Definition change_workspace (f : WorkspaceDB → WorkspaceDB) (db : GitDB) : GitDB := db <| gd_workspace := f (gd_workspace db) |>.

(** [lock_workspace_version]: the row's lock lasts until the end of the transaction. *)
Definition lock_workspace_version (project : uuid) (db : GitDB) : option Z :=
  p_workspace_version <$> project_rows (gd_workspace db) !! project.

(** ** git_persistence *)

Record LiveSyncState : Type := MkLiveSync { lv_pending_sync : bool; lv_last_server_sync_at : option time }.
Definition load_live_sync_state (project : uuid) (db : GitDB) : option LiveSyncState :=
  row ← git_repositories (gd_workspace db) !! project; Some (MkLiveSync (gr_pending_sync row) (gd_synced_at db !! project)).
(** The path is that of the project below [storage_root], the branch [main]. *)
Record GitRepositoryConfig : Type := MkRepositoryConfig { gc_pending_sync : bool }.
Definition load_repository (project : uuid) (db : GitDB) : option GitRepositoryConfig :=
  row ← git_repositories (gd_workspace db) !! project; Some (MkRepositoryConfig (gr_pending_sync row)).

Definition insert_repository (project : uuid) (now : time) (w : WorkspaceDB) : result sqlx_error (unit * WorkspaceDB) :=
  if bool_decide (is_Some (git_repositories w !! project)) then Ok ((), w) else
  if bool_decide (project_rows w !! project = None) then Err ForeignKeyViolation else
  Ok ((), w <| git_repositories := <[project := MkRepositoryRow true now]> (git_repositories w) |>).
Definition mark_repository_pending (project : uuid) (now : time) : GitDB → GitDB :=
  change_workspace (λ w, w <| git_repositories := alter (λ _, MkRepositoryRow true now) project (git_repositories w) |>).
Definition repository_pending_sync (project : uuid) (db : GitDB) : option bool :=
  gr_pending_sync <$> git_repositories (gd_workspace db) !! project.

Definition find_sync_state (project : uuid) (db : GitDB) : option GitSyncState :=
  if bool_decide (project ∈ git_sync_states (gd_workspace db))
  then Some (default initial_sync_state (gd_sync_states db !! project)) else None.
Definition update_sync_state (project : uuid) (status : GitSyncStatus) (has_conflicts : bool)
    (last_pull_at last_push_at : option time) (db : GitDB) : GitDB :=
  match find_sync_state project db with
  | None => db
  | Some state =>
      db <| gd_sync_states := <[project := MkSyncState
        (match last_pull_at with Some _ => last_pull_at | None => ss_last_pull_at state end)
        (match last_push_at with Some _ => last_push_at | None => ss_last_push_at state end)
        has_conflicts status]> (gd_sync_states db) |>
  end.

(** In the order in which they touched the project last. *)
Definition touched_before {A} : relation (A * time) := λ a b, a.2 ≤ b.2.
#[export] Instance touched_before_dec A : RelDecision (touched_before (A := A)).
Proof. intros a b. unfold touched_before. apply _. Defined.
Definition touching {A} `{Countable A} (project : uuid) (t : gmap (uuid * A) time) : list A :=
  (stable_sort touched_before ((λ row, (row.1.2, row.2)) <$> rows_of (λ k _, k.1) project t)).*1.
Definition pending_author_ids (project : uuid) (w : WorkspaceDB) : list uuid := touching project (pending_authors w).
Definition pending_guest_names (project : uuid) (w : WorkspaceDB) : list text := touching project (pending_guests w).

Definition set_repository_sync_state (project : uuid) (pending_sync : bool) (synced_at : time) (db : GitDB) : GitDB :=
  let w := gd_workspace db in
  match git_repositories w !! project with
  | None => db
  | Some row =>
      db <| gd_workspace := w <| git_repositories := <[project := MkRepositoryRow pending_sync (gr_updated_at row)]> (git_repositories w) |> |>
         <| gd_synced_at := <[project := synced_at]> (gd_synced_at db) |>
  end.
Definition mark_repository_synced (project : uuid) (synced_at : time) : GitDB → GitDB :=
  set_repository_sync_state project false synced_at.
Definition clear_pending_authors (project : uuid) : GitDB → GitDB :=
  change_workspace (λ w, w
    <| pending_authors := filter (λ kv, kv.1.1 ≠ project) (pending_authors w) |>
    <| pending_guests := filter (λ kv, kv.1.1 ≠ project) (pending_guests w) |>).
Definition clear_queue_item (project : uuid) : GitDB → GitDB :=
  change_workspace (λ w, w <| sync_queue := delete project (sync_queue w) |>).

Definition dirtied_before : relation (uuid * SyncQueueRow) := λ a b, sq_dirty_since a.2 ≤ sq_dirty_since b.2.
#[export] Instance dirtied_before_dec : RelDecision dirtied_before.
Proof. intros a b. unfold dirtied_before. apply _. Defined.
Definition list_due_projects (limit : nat) (due_before : time) (db : GitDB) : list uuid :=
  take limit (stable_sort dirtied_before
    (map_to_list (filter (λ kv, sq_dirty_since kv.2 ≤ due_before) (sync_queue (gd_workspace db))))).*1.
Definition mark_sync_attempt (project : uuid) (attempted_at : time) : GitDB → GitDB :=
  change_workspace (λ w, w <| sync_queue := alter (λ row,
    row <| sq_last_attempt_at := Some attempted_at |> <| sq_attempt_count := sq_attempt_count row + 1 |>)
    project (sync_queue w) |>).
Definition record_sync_failure (project : uuid) (error_message : text) : GitDB → GitDB :=
  change_workspace (λ w, w <| sync_queue := alter (λ row, row <| sq_last_error := Some error_message |>) project (sync_queue w) |>).

(** ** state *)

Inductive MaterializedWorkspaceCompletion : Type := SyncCompleted | SyncWorkspaceChanged | SyncProjectNotFound.
Local Notation Block A := (Tx GitDB (result sqlx_error A)).

Definition complete_materialized_workspace_sync (s : schedule) (now : time) (project : uuid) (version : Z) :
    GitDB → result sqlx_error MaterializedWorkspaceCompletion * GitDB :=
  transact s Err
    (current ← exec s Err (reads (lock_workspace_version project));
     match current with
     | None => mret (Ok SyncProjectNotFound)
     | Some current =>
         if negb (current =? version) then mret (Ok SyncWorkspaceChanged) else
         _ ← exec s Err (writes (mark_repository_synced project now));
         _ ← exec s Err (writes (clear_pending_authors project));
         _ ← exec s Err (writes (clear_queue_item project));
         mret (Ok SyncCompleted)
     end).

Definition clear_sync_queue_if_repository_clean (s : schedule) (project : uuid) :
    GitDB → result sqlx_error unit * GitDB :=
  transact s Err
    (version ← exec s Err (reads (lock_workspace_version project));
     pending_sync ← exec s Err (reads (repository_pending_sync project));
     if bool_decide (version = None) || negb (bool_decide (pending_sync = Some true))
     then _ ← exec s Err (writes (clear_queue_item project)); mret (Ok ())
     else mret (Ok ())).

Definition record_receive_pack_sync (s : schedule) (now : time) (project : uuid) (version : Z)
    (pending_sync clear_authors : bool) : GitDB → result sqlx_error MaterializedWorkspaceCompletion * GitDB :=
  transact s Err
    (current ← exec s Err (reads (lock_workspace_version project));
     _ ← exec s Err (writes (update_sync_state project SyncClean false None (Some now)));
     match current with
     | None => mret (Ok SyncProjectNotFound)
     | Some current =>
         if negb (current =? version) then mret (Ok SyncWorkspaceChanged) else
         _ ← exec s Err (writes (set_repository_sync_state project pending_sync now));
         _ ← (if clear_authors then exec s Err (writes (clear_pending_authors project)) else mret ());
         _ ← (if pending_sync then mret () else exec s Err (writes (clear_queue_item project)));
         mret (Ok SyncCompleted)
     end).

Definition record_receive_pack_import_failure (s : schedule) (now : time) (project : uuid) :
    GitDB → result sqlx_error unit * GitDB :=
  transact s Err
    (_ ← exec s Err (writes (update_sync_state project SyncReceivePackImportFailed true None (Some now)));
     mret (Ok ())).

(** ** Programs *)

Local Notation GitProg := (Prog GitDB GitEvent).

Definition ensure_repository (project : uuid) : GitProg (result sqlx_error bool) :=
  _ ←? statement (λ now, within_workspace (insert_repository project now)) | id;
  statement (λ _, reads (λ db, bool_decide (is_Some (git_repositories (gd_workspace db) !! project)))).

(** A call on the repository of a project, which fails where there is none. *)
Definition on_repository {E A} (missing : E) (project : uuid)
    (call : schedule → time → repository → result E A * repository) : GitProg (result E A) :=
  transaction (λ s now db,
    match gd_directories db !! project with
    | None => (Err missing, db)
    | Some r =>
        let '(a, r) := call s now r in
        (a, db <| gd_directories := <[project := r]> (gd_directories db) |>)
    end).
Definition without_source {A} (x : result git2_error A * repository) : result unit A * repository :=
  (match x.1 with Ok a => Ok a | Err _ => Err () end, x.2).
Definition git_call {A} (project : uuid) (call : schedule → time → GitCall A) : GitProg (result unit A) :=
  on_repository () project (λ s now r, without_source (call s now r)).

Definition initialize_repository (project : uuid) : GitProg (result unit unit) :=
  transaction (λ s _ db,
    let '(a, r) := ensure_initialized s (gd_directories db !! project) in
    (a, db <| gd_directories := partial_alter (λ _, r) project (gd_directories db) |>)).

Section programs.
Context (storage : bool) (object_bytes : text → bytes).
(** The crates sha2 and hex, and how numbers and identifiers are written. *)
Context (sha256 : bytes → bytes) (hex_encode : bytes → text) (show_Z : Z → text).

(** The staged directory is written before the worktree is touched. *)
Definition write_worktree (available : text → bool) (c : ProjectContentSnapshot) (s : schedule) (r : repository) :
    result MaterializeWorkspaceError Z * repository :=
  match s 0%nat with
  | Served =>
      match stage_content storage object_bytes available c with
      | Err e => (Err e, r)
      | Ok staged =>
          let '(replaced, d) := replace_repo_working_tree (after 1 s) staged (working_tree r) in
          (match replaced with Ok _ => Ok (cs_workspace_version c) | Err _ => Err MaterializeFilesystem end,
           with_working_tree d r)
      end
  | _ => (Err MaterializeFilesystem, r)
  end.
Definition sync_project_documents_to_repo (project : uuid) : GitProg (result MaterializeWorkspaceError Z) :=
  snapshot ←? statement (λ _, reads (of_workspace (lock_project_content_snapshot project))) | MaterializePersistence;
  match snapshot with
  | None => mret (Err MaterializeProjectNotFound)
  | Some c =>
      available ← ask FetchObjects;
      on_repository MaterializeFilesystem project (λ s _, write_worktree available c s)
  end.

(** ** authors *)

Record RevisionAuthor : Type := MkRevisionAuthor { ra_user_id : uuid; ra_display_name : text; ra_email : text }.
(** access: [commit_identity] and [list_commit_identities]. *)
Definition commit_identity (user : uuid) (w : WorkspaceDB) : option RevisionAuthor :=
  u ← users (access w) !! user; Some (MkRevisionAuthor user (u_display_name u) (u_email u)).
Definition list_commit_identities (ids : list uuid) (w : WorkspaceDB) : gmap uuid RevisionAuthor :=
  list_to_map ((λ a, (ra_user_id a, a)) <$> omap (λ user, commit_identity user w) ids).
(** The identities are taken out of the map one after the other. *)
Fixpoint take_identities (ids : list uuid) (identities : gmap uuid RevisionAuthor) : list RevisionAuthor :=
  match ids with
  | [] => []
  | user :: ids =>
      match identities !! user with
      | Some author => author :: take_identities ids (delete user identities)
      | None => take_identities ids identities
      end
  end.

Inductive PendingRevisionAuthorsError : Type := AuthorsPersistence (source : sqlx_error) | AuthorsIdentity.
Definition pending_revision_authors (project : uuid) :
    GitProg (result PendingRevisionAuthorsError (list RevisionAuthor)) :=
  user_ids ←? statement (λ _, reads (of_workspace (pending_author_ids project))) | AuthorsPersistence;
  identities ←? statement (λ _, reads (of_workspace (list_commit_identities user_ids))) | λ _, AuthorsIdentity;
  mret (Ok (take_identities user_ids identities)).
Definition revision_author (user : uuid) : GitProg (result sqlx_error (option RevisionAuthor)) :=
  statement (λ _, reads (of_workspace (commit_identity user))).
Definition pending_revision_guest_names (project : uuid) : GitProg (result sqlx_error (list text)) :=
  statement (λ _, reads (of_workspace (pending_guest_names project))).

(** ** flush *)

(** The part of DistributionConfig that signs commits. *)
Record GitDistribution : Type := MkDistribution {
  di_product_name : text; di_fallback_owner_name : text; di_fallback_email_domain : text }.
Context (distribution : GitDistribution).
Let domain := di_fallback_email_domain distribution.
Let committer := service (di_product_name distribution) domain.

Inductive FlushPersistenceStage : Type := FlushRepositoryLookup | FlushPendingAuthors | FlushPendingGuestAuthors | FlushCompleteWorkspaceSync.
Inductive FlushPendingServerCommitError : Type :=
| FlushPersistence (stage : FlushPersistenceStage) (source : sqlx_error)
| FlushRepositoryInitialization
| FlushGit
| FlushMaterialization (source : MaterializeWorkspaceError)
| FlushIdentity.

Definition collaborator_identity (a : RevisionAuthor) : GitIdentity :=
  account (ra_display_name a) (ra_email a) (lit "Collaborator") (lit "collaborator@" ++ domain).
Definition guest_identity (name : text) : GitIdentity := guest sha256 hex_encode name domain.

Definition pending_commit_authors (project : uuid) (force_author : option uuid) :
    GitProg (result FlushPendingServerCommitError (list GitIdentity)) :=
  authors ←? pending_revision_authors project
    | λ failure, match failure with
                 | AuthorsPersistence source => FlushPersistence FlushPendingAuthors source
                 | AuthorsIdentity => FlushIdentity
                 end;
  guests ←? pending_revision_guest_names project | FlushPersistence FlushPendingGuestAuthors;
  let authors := (collaborator_identity <$> authors) ++ (guest_identity <$> guests) in
  match authors, force_author with
  | [], Some user =>
      author ←? revision_author user | λ _, FlushIdentity;
      mret (Ok (match author with Some a => [collaborator_identity a] | None => [] end))
  | _, _ => mret (Ok authors)
  end.

Definition clear_project_sync_queue_item (project : uuid) : GitProg unit :=
  _ ← transaction (λ s _, clear_sync_queue_if_repository_clean s project); mret ().
Definition complete_sync (project : uuid) (version : Z) : GitProg (result sqlx_error MaterializedWorkspaceCompletion) :=
  transaction (λ s now, complete_materialized_workspace_sync s now project version).

(** The message of an automatic commit. *)
Definition flush_message (authors : list GitIdentity) (workspace_version : option Z) (summary : option text) : text :=
  let trailers := (coauthor_trailer <$> authors)
    ++ match workspace_version with Some version => [lit "Workspace-Version: " ++ show_Z version] | None => [] end in
  let subject := match trim <$> summary with
                 | Some value => if text_eqb value [] then lit "Online updates" else value
                 | None => lit "Online updates"
                 end in
  revision_message subject trailers.

Definition flush_pending_server_commit (project : uuid) (force_author : option uuid)
    (workspace_version : option Z) (summary : option text) : GitProg (result FlushPendingServerCommitError unit) :=
  repository ←? statement (λ _, reads (load_repository project)) | FlushPersistence FlushRepositoryLookup;
  if negb (from_option gc_pending_sync false repository) then
    _ ← clear_project_sync_queue_item project; mret (Ok ())
  else
  _ ←? initialize_repository project | λ _, FlushRepositoryInitialization;
  _ ←? git_call project (λ s _, checkout_branch s) | λ _, FlushGit;
  version ←? sync_project_documents_to_repo project | FlushMaterialization;
  clean ←? git_call project (λ s _, worktree_is_clean s) | λ _, FlushGit;
  if clean : bool then
    _ ←? complete_sync project version | FlushPersistence FlushCompleteWorkspaceSync;
    mret (Ok ())
  else
  authors ←? pending_commit_authors project force_author | id;
  _ ←? git_call project (λ s now, commit_staged_if_changed s now
         (flush_message authors workspace_version summary) (default committer (head authors)) committer)
    | λ _, FlushGit;
  _ ←? complete_sync project version | FlushPersistence FlushCompleteWorkspaceSync;
  mret (Ok ()).

(** [spawn_git_flush_worker], once a project is due and its attempt recorded:
    with the lock of the project; how an error is written is left open. *)
Definition flush_due_project (describe : FlushPendingServerCommitError → text) (project : uuid) : GitProg unit :=
  flushed ← flush_pending_server_commit project None None None;
  match flushed with
  | Ok _ => mret ()
  | Err e => _ ← statement (λ _, writes (record_sync_failure project (describe e))); mret ()
  end.

(** ** revision_history: create_revision *)

Inductive CreateRevisionPersistenceStage : Type :=
| RevisionRepositoryLookup | RevisionPendingAuthors | RevisionPendingGuestAuthors | RevisionCompleteWorkspaceSync.
Inductive CreateRevisionError : Type :=
| InvalidSummary
| RevisionProjectNotFound
| RevisionPersistence (stage : CreateRevisionPersistenceStage) (source : sqlx_error)
| RevisionRepositoryInitialization
| RevisionGit
| RevisionMaterialization (source : MaterializeWorkspaceError)
| RevisionIdentity.

Record Revision : Type := MkRevision {
  rv_id : git_commit; rv_actor_user_id : option uuid; rv_summary : text; rv_created_at : Z;
  rv_authors : list RevisionAuthor }.

(** Those who signed already, their trailers and the authors of the revision. *)
Fixpoint sign_pending (seen : gset uuid) (pending : list RevisionAuthor) : list RevisionAuthor :=
  match pending with
  | [] => []
  | a :: pending =>
      if bool_decide (ra_user_id a ∈ seen) then sign_pending seen pending
      else a :: sign_pending ({[ra_user_id a]} ∪ seen) pending
  end.

Definition create_revision (actor project : uuid) (summary : text) : GitProg (result CreateRevisionError Revision) :=
  let summary := trim summary in
  if text_eqb summary [] then mret (Err InvalidSummary) else
  config ←? statement (λ _, reads (load_repository project)) | RevisionPersistence RevisionRepositoryLookup;
  match config with None => mret (Err RevisionProjectNotFound) | Some _ =>
  _ ←? initialize_repository project | λ _, RevisionRepositoryInitialization;
  _ ←? git_call project (λ s _, checkout_branch s) | λ _, RevisionGit;
  version ←? sync_project_documents_to_repo project
    | λ source, match source with MaterializeProjectNotFound => RevisionProjectNotFound | _ => RevisionMaterialization source end;
  let actor_fallback_email := lit "owner@" ++ domain in
  found ←? revision_author actor | λ _, RevisionIdentity;
  let actor_author := default (MkRevisionAuthor actor (di_fallback_owner_name distribution) actor_fallback_email) found in
  let actor_identity := account (ra_display_name actor_author) (ra_email actor_author)
    (di_fallback_owner_name distribution) actor_fallback_email in
  pending ←? pending_revision_authors project
    | λ failure, match failure with
                 | AuthorsPersistence source => RevisionPersistence RevisionPendingAuthors source
                 | AuthorsIdentity => RevisionIdentity
                 end;
  let signed := sign_pending ∅ pending in
  let acts := bool_decide (actor ∉ ra_user_id <$> signed) in
  guests ←? pending_revision_guest_names project | RevisionPersistence RevisionPendingGuestAuthors;
  let trailers := coauthor_trailer <$>
    (collaborator_identity <$> signed) ++ (if acts then [actor_identity] else []) ++ (guest_identity <$> guests) in
  let message := revision_message summary trailers in
  staged ←? git_call project (λ s now, commit_staged_if_changed s now message actor_identity committer) | λ _, RevisionGit;
  commit ←? match staged with
            | Some commit => mret (Ok commit)
            | None => git_call project (λ s now, commit_allow_empty s now message actor_identity committer)
            end | λ _, RevisionGit;
  completion ←? complete_sync project version | RevisionPersistence RevisionCompleteWorkspaceSync;
  match completion with
  | SyncProjectNotFound => mret (Err RevisionProjectNotFound)
  | _ =>
      _ ←? git_call project (λ s _, git_query (λ r, find_commit s r commit)) | λ _, RevisionGit;
      mret (Ok (MkRevision commit (Some actor) (default summary (commit_summary commit)) (commit_seconds commit)
        (signed ++ if acts then [actor_author] else [])))
  end end.
End programs.
End statements.
