(* ===== verification/GitSyncFacts.v ===== *)
(** * Versioning: what the programs of a project keep

    A project that is not pending is in its repository: the branch has the
    files of its content ([in_sync]).  The steps of flush_pending_server_commit
    and create_revision keep this, whatever the others do between them. *)
From S2P Require Import Prelude Store Text Paths AccessModel AccessSystem WorkspaceModel WorkspaceProjects.
From S2P Require Import Collaboration WorkspaceFrames WorkspaceSystem WorkspaceSteps WorkspaceTheorems Programs.
From S2P Require Import GitTracking GitRevisions GitMerge GitWorktree GitRepository GitSync.

Open Scope Z_scope.

Section facts.
Context `{Git2Laws} (storage : bool) (object_bytes : text → bytes).

Definition snapshot_of (p : uuid) (db : GitDB) : option ProjectContentSnapshot :=
  lock_project_content_snapshot p (gd_workspace db).
(** The files that are written for a content. *)
Definition written (c : ProjectContentSnapshot) (files : gmap text bytes) : Prop :=
  ∃ available d, stage_content storage object_bytes available c = Ok d ∧ dt_files d = files.
Definition holds_content (c : ProjectContentSnapshot) (r : repository) : Prop :=
  ∃ files, written c files ∧ holds_files r files.
Definition at_repository (p : uuid) (Φ : repository → Prop) (db : GitDB) : Prop :=
  ∃ r, gd_directories db !! p = Some r ∧ Φ r.
(** What is not pending is in the repository. *)
Definition in_sync (p : uuid) (db : GitDB) : Prop :=
  ∀ row, git_repositories (gd_workspace db) !! p = Some row → gr_pending_sync row = false →
  ∃ c, snapshot_of p db = Some c ∧ at_repository p (holds_content c) db.

(** ** The others, and the project's own programs *)

(** What a program may assume of what happens between its steps; [K] is any
    property of the content that what happens keeps. *)
Record others (K : ProjectContentSnapshot → Prop) (p : uuid) (db db' : GitDB) : Prop := MkOthers {
  ot_row : git_repositories (gd_workspace db') !! p = git_repositories (gd_workspace db) !! p
           ∨ pending p (gd_workspace db');
  ot_content : ∀ c, snapshot_of p db = Some c → ∃ c', snapshot_of p db' = Some c'
    ∧ (c' = c ∨ cs_workspace_version c < cs_workspace_version c' ∧ pending p (gd_workspace db'));
  ot_directory : gd_directories db' !! p = gd_directories db !! p;
  ot_known : (∀ c, snapshot_of p db = Some c → K c) → ∀ c, snapshot_of p db' = Some c → K c;
}.
Lemma others_known (K : ProjectContentSnapshot → Prop) p db db' :
  others (λ _, True) p db db' → (∀ c, snapshot_of p db' = Some c → K c) → others K p db db'.
Proof. intros [? ? ? _] HK. by split. Qed.
(** The tables that a program of versioning does not touch. *)
Record same_content (w w' : WorkspaceDB) : Prop := MkSameContent {
  sc_rows : project_rows w' = project_rows w; sc_documents : documents w' = documents w;
  sc_assets : assets w' = assets w; sc_directories : directories w' = directories w;
  sc_settings : settings w' = settings w; sc_updates : collab_updates w' = collab_updates w;
  sc_snapshots : collab_snapshots w' = collab_snapshots w; sc_next : next_update w' = next_update w;
}.
Record own (p : uuid) (db db' : GitDB) : Prop := MkOwn {
  ow_content : same_content (gd_workspace db) (gd_workspace db');
  ow_rows : ∀ q, q ≠ p → git_repositories (gd_workspace db') !! q = git_repositories (gd_workspace db) !! q;
  ow_directories : ∀ q, q ≠ p → gd_directories db' !! q = gd_directories db !! q;
}.

Lemma pending_kept K p db db' : others K p db db' → pending p (gd_workspace db) → pending p (gd_workspace db').
Proof. intros [[Hr|Hp] _ _ _]; [by apply pending_row|done]. Qed.
#[export] Instance others_preorder K p : PreOrder (others K p).
Proof.
  split.
  - intros db. split; [by left| |done|done]. intros c Hc. eauto.
  - intros db1 db2 db3 H12 H23. pose proof (pending_kept K p db2 db3 H23) as Hkeep.
    destruct H12 as [R12 C12 D12 K12], H23 as [R23 C23 D23 K23]. split; [| |congruence|auto].
    + destruct R23 as [E|]; [|by right]. destruct R12 as [E'|Hp]; [left; congruence|right; auto].
    + intros c1 Hc1. destruct (C12 c1 Hc1) as (c2 & Hc2 & H12). destruct (C23 c2 Hc2) as (c3 & Hc3 & H23).
      exists c3. split; [done|]. destruct H12 as [->|[Hlt Hp]]; [done|]. right.
      destruct H23 as [->|[Hlt' _]]; split; auto; lia.
Qed.
#[export] Instance own_preorder p : PreOrder (own p).
Proof.
  split; [by split; [split| |]|]. intros db1 db2 db3 [[] R12 D12] [[] R23 D23].
  split; [split; congruence|..]; intros q Hq; [rewrite R23, R12|rewrite D23, D12]; done.
Qed.

Lemma same_content_snapshot w w' p :
  same_content w w' → lock_project_content_snapshot p w' = lock_project_content_snapshot p w.
Proof. intros [Hr Hd Ha Hdir Hs _ _ _]. unfold lock_project_content_snapshot. by rewrite Hr, Hd, Ha, Hdir, Hs. Qed.
Lemma same_content_stream `{Yrs} w w' : same_content w w' → StreamInv w → StreamInv w'.
Proof.
  intros [Hr Hd _ _ _ Hu Hs Hn] [I1 I2 I3 I4].
  assert (Hok : ∀ c, row_ok w c → row_ok w' c) by (intros c; unfold row_ok; by rewrite Hr, Hd).
  split; rewrite ?Hu, ?Hs, ?Hn, ?Hd; [done|..].
  - intros i u Hi. destruct (I2 i u Hi). auto.
  - intros k r Hk. destruct (I3 k r Hk). auto.
  - done.
Qed.
Lemma own_others K p q db db' : q ≠ p → own p db db' → others K q db db'.
Proof.
  intros Hne [Hc Hr Hd]. assert (Hs : snapshot_of q db' = snapshot_of q db) by apply (same_content_snapshot _ _ _ Hc).
  split; [left; auto| |auto|by rewrite Hs]. intros c Hq. exists c. split; [by rewrite Hs|by left].
Qed.

Lemma in_sync_others K p db db' : others K p db db' → in_sync p db → in_sync p db'.
Proof.
  intros [Hrow Hc Hd _] HI row Hr Hf.
  assert (Hn : ¬ pending p (gd_workspace db')) by (intros (row' & Hr' & Hp'); congruence).
  destruct Hrow as [He|]; [|done]. rewrite He in Hr. destruct (HI row Hr Hf) as (c & Hs & r & Hr' & Hh).
  destruct (Hc c Hs) as (c' & Hs' & [->|[]]); [|done]. exists c. split; [done|]. exists r. by rewrite Hd.
Qed.

(** ** Assertions *)

(** [c] is the content, or the project has moved on and is pending. *)
Definition current (p : uuid) (c : ProjectContentSnapshot) (db : GitDB) : Prop :=
  ∃ c', snapshot_of p db = Some c'
    ∧ (c' = c ∨ cs_workspace_version c < cs_workspace_version c' ∧ pending p (gd_workspace db)).
#[export] Instance current_stable K p c : Stable (others K p) (current p c).
Proof.
  intros db db' HR (c1 & H1 & Hv). pose proof (pending_kept _ _ _ _ HR) as Hk. destruct HR as [_ HC _ _].
  destruct (HC c1 H1) as (c2 & H2 & Hv2). exists c2. split; [done|].
  destruct Hv as [->|[? ?]]; [done|]. right. destruct Hv2 as [->|[]]; split; auto; lia.
Qed.
#[export] Instance pending_stable K p : Stable (others K p) (λ db, pending p (gd_workspace db)).
Proof. intros db db' HR. by apply (pending_kept K). Qed.
#[export] Instance at_repository_stable K p Φ : Stable (others K p) (at_repository p Φ).
Proof. intros db db' [_ _ Hd _] (r & Hr & HΦ). exists r. by rewrite Hd. Qed.

(** [K] holds of the content. *)
Definition knows (K : ProjectContentSnapshot → Prop) (p : uuid) (db : GitDB) : Prop :=
  ∀ c, snapshot_of p db = Some c → K c.
#[export] Instance knows_stable K p : Stable (others K p) (knows K p).
Proof. by intros db db' [_ _ _ HK]. Qed.
(** The branch has a content of which [K] holds. *)
Definition served (K : ProjectContentSnapshot → Prop) (p : uuid) : GitDB → Prop :=
  at_repository p (λ r, ∃ c, K c ∧ holds_content c r).
#[export] Instance served_stable K K' p : Stable (others K p) (served K' p).
Proof. apply _. Qed.
Definition has_repository (p : uuid) (db : GitDB) : Prop := is_Some (git_repositories (gd_workspace db) !! p).
#[export] Instance has_repository_stable K p : Stable (others K p) (has_repository p).
Proof. intros db db' [[Hr|(row & Hr & _)] _ _ _] [r Hp]; unfold has_repository; rewrite Hr; by eexists. Qed.

(** What holds of the repository if there is one. *)
Definition repository_is (p : uuid) (Φ : repository → Prop) (db : GitDB) : Prop :=
  ∀ r, gd_directories db !! p = Some r → Φ r.
#[export] Instance repository_is_stable K p Φ : Stable (others K p) (repository_is p Φ).
Proof. intros db db' [_ _ Hd _] Hr r. rewrite Hd. apply Hr. Qed.
Lemma at_repository_is p Φ db : at_repository p Φ db → repository_is p Φ db.
Proof. intros (r & Hr & HΦ) r'. rewrite Hr. by intros [= <-]. Qed.
Lemma at_repository_mono p (Φ Ψ : repository → Prop) db : (∀ r, Φ r → Ψ r) → at_repository p Φ db → at_repository p Ψ db.
Proof. intros HΦ (r & Hr & Hh). exists r. auto. Qed.

Lemma holds_content_head c r r' : head_target r' = head_target r → holds_content c r → holds_content c r'.
Proof. intros He (files & Hw & Hf). exists files. split; [done|]. by eapply head_holds. Qed.

Definition with_directory (p : uuid) (r : repository) (db : GitDB) : GitDB :=
  db <| gd_directories := <[p := r]> (gd_directories db) |>.
Lemma with_directory_own p r db : own p db (with_directory p r db).
Proof. split; [done|done|]. intros q Hq. cbn. by rewrite lookup_insert_ne. Qed.
Lemma with_directory_at p (Φ : repository → Prop) r db : Φ r → at_repository p Φ (with_directory p r db).
Proof. intros HΦ. exists r. cbn. by rewrite lookup_insert_eq. Qed.
(** An invariant and a guarantee that the steps of these programs respect: the
    tables of versioning may change, the branch only to a content of the
    project of which [B] holds, and what completes is in the repository. *)
Class Flushing (B : ProjectContentSnapshot → Prop) (p : uuid) (G : relation GitDB) (I : GitDB → Prop) : Prop := {
  fl_own db db' : own p db db' → G db db';
  fl_quiet db db' : own p db db' → gd_directories db' = gd_directories db →
    git_repositories (gd_workspace db') !! p = git_repositories (gd_workspace db) !! p → I db → I db';
  fl_head db r : (∀ r0, gd_directories db !! p = Some r0 → ∃ r1, r = Some r1 ∧ head_target r1 = head_target r0) →
    I db → I (db <| gd_directories := partial_alter (λ _, r) p (gd_directories db) |>);
  fl_commit db c r : B c → current p c db → holds_content c r → I db → I (with_directory p r db);
  fl_complete db db' c : own p db db' → gd_directories db' = gd_directories db →
    snapshot_of p db = Some c → at_repository p (holds_content c) db → I db → I db';
}.
#[export] Instance in_sync_flushing B p : Flushing B p (own p) (in_sync p).
Proof.
  split.
  - done.
  - intros db db' [Hc _ _] Hd Hr HI row. rewrite Hr. intros Hrow Hf. destruct (HI row Hrow Hf) as (c & Hs & r & Hr' & Hh).
    exists c. unfold snapshot_of, at_repository in *. rewrite (same_content_snapshot _ _ _ Hc), Hd. eauto.
  - intros db r Hr HI row Hrow Hf. destruct (HI row Hrow Hf) as (c & Hs & r0 & Hr0 & Hc). exists c. split; [done|].
    destruct (Hr r0 Hr0) as (r1 & -> & Hh). exists r1. cbn. rewrite lookup_partial_alter_eq. split; [done|].
    by eapply holds_content_head.
  - intros db c r _ (c' & Hs & [->|[_ (row' & Hrow' & Hp)]]) Hh HI row Hrow Hf.
    + exists c. split; [done|]. by apply with_directory_at.
    + change (git_repositories (gd_workspace db) !! p = Some row) in Hrow. congruence.
  - intros db db' c [Hc _ _] Hd Hs (r & Hr & Hh) HI row _ _. exists c. unfold snapshot_of, at_repository in *.
    rewrite (same_content_snapshot _ _ _ Hc), Hd. eauto.
Qed.

Section triples.
Context (K B : ProjectContentSnapshot → Prop) (p : uuid) (G : relation GitDB) (I : GitDB → Prop) `{HF : !Flushing B p G I}.
Local Notation kept := (keeps (Ev := GitEvent) (others K p) G I).
Local Notation spec := (triple (Ev := GitEvent) (others K p) G I).

Local Notation spec_bind := (triple_bind (Ev := GitEvent) (others K p) G I).
Local Notation spec_ret := (triple_ret (Ev := GitEvent) (others K p) G I).
Local Notation spec_step := (triple_transaction (Ev := GitEvent) (others K p) G I).
Lemma spec_pure {A} (φ : Prop) P (prog : Prog GitDB GitEvent A) Q :
  (φ → spec P prog Q) → spec (λ db, φ ∧ P db) prog Q.
Proof. intros Hp db HI [Hφ HP]. by apply Hp. Qed.
Lemma kept_read {X} (f : GitDB → X) P : Stable (others K p) P → kept P (statement (λ _, reads f)) (λ _, True).
Proof using HF. intros HP. apply keeps_reads; [intros db _; by apply fl_own|done]. Qed.
(** A program that asks and reads keeps what it relies on. *)
Ltac read :=
  repeat first
    [ apply kept_read; [exact _]
    | apply work_ret; [exact _|done]
    | eapply keeps_try with (ψ := λ _, True) (φ := λ _, True); [exact _|exact _| |done|intros ? _]
    | case_match ].

Lemma pending_revision_authors_kept P : Stable (others K p) P → kept P (pending_revision_authors p) (λ _, True).
Proof. intros HP. unfold pending_revision_authors. read. Qed.
Lemma pending_commit_authors_kept sha hex d force P :
  Stable (others K p) P → kept P (pending_commit_authors sha hex d p force) (λ _, True).
Proof.
  intros HP. pose proof (pending_revision_authors_kept P HP) as Ha. unfold pending_commit_authors, pending_revision_guest_names, revision_author.
  eapply keeps_try with (ψ := λ _, True) (φ := λ _, True); [exact _|exact _|exact Ha|done|intros ? _]. read.
Qed.

Lemma clear_queue_kept P :
  Stable (others K p) P → (∀ db db', gd_directories db' = gd_directories db → P db → P db') →
  spec P (clear_project_sync_queue_item p) (λ _, P).
Proof.
  intros HP Hd. unfold clear_project_sync_queue_item. eapply (spec_bind _ _ _ (λ _, P)); [|intros ?; by apply spec_ret; [apply _|]].
  apply spec_step; [apply _|apply _|]. intros db s now HI Hp.
  assert (Hown : ∀ db, own p db db) by reflexivity.
  unfold clear_sync_queue_if_repository_clean. apply (transact_inv (λ db', I db' ∧ G db db' ∧ P db'));
    [split_and!; [done|by apply fl_own|done]|].
  do 2 (apply wp_bind, wp_reads; [done|]). destruct (_ || _); [|apply wp_ret; split_and!; [done|by apply fl_own|done]].
  apply wp_bind, wp_writes; [done|]. apply wp_ret.
  assert (Hq : own p db (clear_queue_item p db)) by by split.
  split_and!; [by eapply fl_quiet|by apply fl_own|by apply (Hd db)].
Qed.

Lemma initialize_spec P :
  Stable (others K p) P → (∀ db f, P db → P (db <| gd_directories := f |>)) →
  spec P (initialize_repository p) (λ _ db, P db).
Proof.
  intros HP Hd. unfold initialize_repository. apply spec_step; [done..|]. intros db s now HI Hp.
  destruct (ensure_initialized s (gd_directories db !! p)) as [a r] eqn:E. cbn [fst snd].
  split_and!; [|apply fl_own; split; [done|done|]|auto].
  - apply fl_head; [|done]. intros r0 Hr0. rewrite Hr0 in E. pose proof (initialized_head s r0) as Hi. rewrite E in Hi. cbn in Hi.
    destruct r as [r|]; [|done]. injection Hi as Hi. by exists r.
  - intros q Hq. cbn. by rewrite lookup_partial_alter_ne.
Qed.

(** A call that leaves the branch alone. *)
Lemma call_spec {E A} (missing : E) (call : schedule → time → repository → result E A * repository)
    (P : GitDB → Prop) (Φ : repository → Prop) (Ψ : A → repository → Prop) :
  Stable (others K p) P → (∀ db f, P db → P (db <| gd_directories := f |>)) →
  (∀ s now r, Φ r → head_target (call s now r).2 = head_target r
     ∧ match (call s now r).1 with Ok a => Ψ a (call s now r).2 | Err _ => True end) →
  spec (λ db, P db ∧ repository_is p Φ db) (on_repository missing p call)
    (λ x db, match x with Ok a => P db ∧ at_repository p (Ψ a) db | Err _ => P db end).
Proof.
  intros HP Hd Hc. unfold on_repository. apply spec_step; [apply _|intros [a|e]; apply _|].
  intros db s now HI [Hp Hr]. destruct (gd_directories db !! p) as [r|] eqn:Er; [|cbn; split_and!; [done|by apply fl_own|done]].
  destruct (Hc s now r (Hr r Er)) as [Hh Hx]. destruct (call s now r) as [x r'] eqn:Ec. cbn [fst snd] in *.
  split_and!; [apply (fl_head db (Some r')); [|done]; intros r0 Hr0; exists r'; split; [done|congruence]|apply fl_own, with_directory_own|].
  destruct x as [a|e]; [|by apply Hd]. split; [by apply Hd|by apply with_directory_at].
Qed.

(** A commit of a worktree that has the content. *)
Definition has_worktree (c : ProjectContentSnapshot) (r : repository) : Prop := written c (dt_files (working_tree r)).
Lemma commit_spec_current {A} c (call : schedule → time → GitCall A) :
  B c → (∀ s now r, committed r (call s now r)) →
  spec (λ db, current p c db ∧ repository_is p (has_worktree c) db) (git_call p call)
    (λ x db, match x with
             | Ok _ => current p c db ∧ at_repository p (λ r, has_worktree c r ∧ holds_content c r) db
             | Err _ => True end).
Proof.
  intros Hb Hc. unfold git_call, on_repository. apply spec_step; [apply _|intros [a|e]; apply _|].
  intros db s now HI [Hp Hr]. destruct (gd_directories db !! p) as [r|] eqn:Er; [|cbn; split_and!; [done|by apply fl_own|done]].
  specialize (Hc s now r). unfold without_source. destruct (call s now r) as [x r'] eqn:Ec. destruct Hc as [Hx Hw].
  cbn [fst snd] in *. pose proof (Hr r Er) as Hwt.
  assert (Hok : ∀ a, x = Ok a → has_worktree c r' ∧ holds_content c r').
  { intros a ->. split; [unfold has_worktree; by rewrite Hw|]. exists (dt_files (working_tree r)). split; [done|]. by apply tracked_holds. }
  split_and!; [|apply fl_own, with_directory_own|].
  - destruct x as [a|e]; [destruct (Hok a eq_refl) as [_ Hh]; by eapply fl_commit|].
    apply (fl_head db (Some r')); [|done]. intros r0 Hr0. exists r'. split; [done|congruence].
  - destruct x as [a|e]; [|done]. split; [done|]. by apply with_directory_at, (Hok a).
Qed.

Lemma complete_spec c :
  spec (λ db, current p c db ∧ at_repository p (holds_content c) db) (complete_sync p (cs_workspace_version c))
    (λ _, at_repository p (holds_content c)).
Proof.
  apply spec_step; [apply _|apply _|]. intros db s now HI [Hc Hh].
  assert (Hrefl : own p db db) by reflexivity.
  unfold complete_materialized_workspace_sync.
  apply (transact_inv (λ db', I db' ∧ G db db' ∧ at_repository p (holds_content c) db')); [split_and!; [done|by apply fl_own|done]|].
  apply wp_bind, wp_reads; [done|].
  destruct (lock_workspace_version p db) as [current|] eqn:Hv; [|apply wp_ret; split_and!; [done|by apply fl_own|done]].
  destruct (Z.eqb_spec current (cs_workspace_version c)) as [->|]; cbn [negb]; [|apply wp_ret; split_and!; [done|by apply fl_own|done]].
  assert (Hs : snapshot_of p db = Some c).
  { destruct Hc as (c' & Hs & [->|[Hlt _]]); [done|]. unfold snapshot_of, lock_project_content_snapshot in Hs.
    unfold lock_workspace_version in Hv. destruct (project_rows (gd_workspace db) !! p); [|done].
    cbn in Hs, Hv. injection Hs as <-. cbn in Hlt. injection Hv as Hv. lia. }
  do 3 (apply wp_bind, wp_writes; [done|]). apply wp_ret.
  set (db' := clear_queue_item p _).
  assert (Hown : own p db db' ∧ gd_directories db' = gd_directories db).
  { unfold db', mark_repository_synced, set_repository_sync_state.
    destruct (git_repositories (gd_workspace db) !! p); [|done]. split; [|done]. split; [done| |done].
    intros q Hq. cbn. by rewrite lookup_insert_ne. }
  destruct Hown as [Hown Hd]. split_and!; [by eapply fl_complete|by apply fl_own|].
  destruct Hh as (r & Hr & Hh). exists r. by rewrite Hd.
Qed.

(** ** The programs *)

Local Notation spec_try := (triple_try (Ev := GitEvent) (others K p) G I).
Local Notation top := (λ _ : GitDB, True).

Lemma write_worktree_head available c s r :
  head_target (write_worktree storage object_bytes available c s r).2 = head_target r
  ∧ match (write_worktree storage object_bytes available c s r).1 with
    | Ok v => v = cs_workspace_version c ∧ has_worktree c (write_worktree storage object_bytes available c s r).2
    | Err _ => True
    end.
Proof.
  unfold write_worktree. destruct (s 0%nat); [|done..].
  destruct (stage_content storage object_bytes available c) as [staged|e] eqn:Es; [|done].
  destruct (replace_repo_working_tree (after 1 s) staged (working_tree r)) as [x d] eqn:Er. cbn [fst snd].
  rewrite head_of_written. split; [done|]. destruct x as [[]|[]]; [|done]. split; [done|].
  unfold has_worktree. rewrite working_tree_written. exists available, staged. split; [done|].
  symmetry. by eapply replaced_files.
Qed.

Definition materialized (v : Z) (db : GitDB) : Prop :=
  ∃ c, B c ∧ v = cs_workspace_version c ∧ current p c db ∧ at_repository p (has_worktree c) db.
#[local] Instance materialized_stable v : Stable (others K p) (materialized v).
Proof. apply _. Qed.

Lemma sync_documents_spec P :
  Stable (others K p) P → (∀ db c, P db → snapshot_of p db = Some c → B c) →
  spec P (sync_project_documents_to_repo storage object_bytes p)
    (λ x db, match x with Ok v => materialized v db | Err _ => True end).
Proof.
  intros HP HB. unfold sync_project_documents_to_repo.
  eapply (spec_try _ _ _ _ (λ snapshot db, match snapshot with Some c => B c ∧ current p c db | None => True end) (λ _ _, True)).
  - apply triple_reads; [intros ? _; by apply fl_own|apply _|intros [c|]; apply _|apply _| |done].
    intros db _ Hp. unfold of_workspace. destruct (lock_project_content_snapshot p (gd_workspace db)) as [c|] eqn:Hs; [|done].
    split; [by apply (HB db)|]. exists c. split; [done|by left].
  - apply _.
  - done.
  - intros [c|]; [|by apply spec_ret].
    apply spec_pure. intros Hb. apply triple_ask_then; [apply _|apply _|]. intros available.
    eapply triple_conseq;
      [apply (call_spec _ (λ s _, write_worktree storage object_bytes available c s) (current p c) (λ _, True)
        (λ v r, v = cs_workspace_version c ∧ has_worktree c r)); [apply _|done|]
      | |].
    + intros s _ r _. apply write_worktree_head.
    + intros db _ Hc. split; [exact Hc|done].
    + intros [v|e] db _ Hx; [|done]. destruct Hx as (Hc & r & Hr & -> & Hw). exists c. split_and!; [done..|]. by exists r.
Qed.

(** Work that keeps [P], then the rest. *)
Lemma spec_kept_try {F F' X A} (fail : F → F') (prog : Prog GitDB GitEvent (result F X)) (k : X → Prog GitDB GitEvent (result F' A)) P Q :
  kept P prog (λ _, True) → Stable (others K p) P → (∀ e db, Q (Err (fail e)) db) → (∀ x, spec P (k x) Q) →
  spec P (try_bind fail prog k) Q.
Proof.
  intros Hp HP HQ Hk. eapply (spec_try _ _ _ _ (λ _, P) (λ _ _, True)); [|apply _|by intros|done].
  eapply triple_conseq; [exact Hp|done|]. by intros [x|e] db _ [_ ?].
Qed.
(** A call on the repository before the worktree is written. *)
Lemma spec_call_try {F X A} (fail : unit → F) (call : schedule → time → GitCall X) (k : X → Prog GitDB GitEvent (result F A)) P Q :
  (∀ s now r, head_target (call s now r).2 = head_target r) →
  Stable (others K p) P → (∀ db f, P db → P (db <| gd_directories := f |>)) →
  (∀ e db, Q (Err (fail e)) db) → (∀ x, spec P (k x) Q) →
  spec P (try_bind fail (git_call p call) k) Q.
Proof.
  intros Hc HP Hd HQ Hk. eapply (spec_try _ _ _ _ (λ _, P) (λ _ _, True)); [|apply _|by intros|done].
  eapply triple_conseq; [apply (call_spec () (λ s now r, without_source (call s now r)) P (λ _, True) (λ _ _, True)); [done..|]| |].
  - intros s now r _. unfold without_source. cbn [fst snd]. split; [apply Hc|]. by destruct (call s now r).1.
  - by intros db _ Hp.
  - by intros [x|e] db _; [intros [? _]|].
Qed.
Lemma complete_try {F A} (fail : sqlx_error → F) c (k : MaterializedWorkspaceCompletion → Prog GitDB GitEvent (result F A)) Φ Q :
  (∀ r, Φ r → holds_content c r) → (∀ e db, Q (Err (fail e)) db) → (∀ x, spec (at_repository p (holds_content c)) (k x) Q) →
  spec (λ db, current p c db ∧ at_repository p Φ db) (try_bind fail (complete_sync p (cs_workspace_version c)) k) Q.
Proof.
  intros HΦ HQ Hk. eapply (spec_try _ _ _ _ (λ _, at_repository p (holds_content c)) (λ _ _, True)); [|apply _|by intros|done].
  eapply triple_conseq; [apply (complete_spec c)| |by intros [] ???].
  intros db _ [Hc Ha]. split; [done|]. by eapply at_repository_mono.
Qed.
Lemma materialized_cases {A} v (prog : Prog GitDB GitEvent A) Q :
  (∀ c, v = cs_workspace_version c → B c →
     spec (λ db, current p c db ∧ at_repository p (has_worktree c) db) prog Q) → spec (materialized v) prog Q.
Proof. intros Hp db HI (c & Hb & Hv & Hc). by apply (Hp c Hv Hb). Qed.

(** A commit of the worktree that was written, and of its completion. *)
Lemma commit_try {F X A} (fail : unit → F) c (call : schedule → time → GitCall X) (k : X → Prog GitDB GitEvent (result F A)) Q :
  B c → (∀ s now r, committed r (call s now r)) → (∀ e db, Q (Err (fail e)) db) →
  (∀ x, spec (λ db, current p c db ∧ at_repository p (λ r, has_worktree c r ∧ holds_content c r) db) (k x) Q) →
  spec (λ db, current p c db ∧ at_repository p (has_worktree c) db) (try_bind fail (git_call p call) k) Q.
Proof.
  intros Hb Hc HQ Hk. eapply (spec_try _ _ _ _ (λ _ db, current p c db ∧ at_repository p (λ r, has_worktree c r ∧ holds_content c r) db) (λ _, top)); [|apply _|by intros|done].
  eapply triple_conseq; [by apply (commit_spec_current c)| |done].
  intros db _ [? ?]. split; [done|by apply at_repository_is].
Qed.

Ltac done_spec := apply spec_ret; [apply _|done].

(** [S] is what a successful flush from [P] comes to. *)
Lemma flush_triple sha hex show d force version summary (P S : GitDB → Prop) :
  Stable (others K p) P → Stable (others K p) S → (∀ db f, P db → P (db <| gd_directories := f |>)) →
  (∀ db db', gd_directories db' = gd_directories db → S db → S db') →
  (∀ db c, P db → snapshot_of p db = Some c → B c) →
  (∀ db, I db → P db → from_option gc_pending_sync false (load_repository p db) = false → S db) →
  (∀ db c, B c → at_repository p (holds_content c) db → S db) →
  spec P (flush_pending_server_commit storage object_bytes sha hex show d p force version summary)
    (λ x db, match x with Ok _ => S db | Err _ => True end).
Proof.
  intros HP HS Hd HSd HB HS0 HS1. unfold flush_pending_server_commit.
  eapply (spec_try _ _ _ _ (λ row db, if from_option gc_pending_sync false row then P db else S db) (λ _, top)).
  { apply triple_reads; [intros ? _; by apply fl_own|apply _|intros row; destruct (from_option _ _ row); apply _|apply _| |done].
    intros db HI Hp. destruct (from_option _ _ _) eqn:He; [done|by apply HS0]. }
  { apply _. } { done. }
  intros row. destruct (from_option gc_pending_sync false row); cbn [negb].
  2:{ eapply spec_bind; [by apply clear_queue_kept|intros []; by apply spec_ret]. }
  eapply (spec_try _ _ _ _ (λ _, P) (λ _, top)); [|apply _|done|intros _].
  { eapply triple_conseq; [by apply (initialize_spec P)|done|by intros []]. }
  apply spec_call_try; [intros; apply checked_out_head|done..|intros _].
  eapply (spec_try _ _ _ _ materialized (λ _, top)); [by apply sync_documents_spec|apply _|done|intros x].
  apply materialized_cases. intros c -> Hb.
  set (final := λ (x : result FlushPendingServerCommitError unit) (db : GitDB), match x with Ok _ => S db | Err _ => True end).
  assert (Hdone : ∀ fail, spec (λ db, current p c db ∧ at_repository p (λ r, has_worktree c r ∧ holds_content c r) db)
    (try_bind fail (complete_sync p (cs_workspace_version c)) (λ _, mret (Ok ()))) final).
  { intros fail. apply (complete_try _ c); [naive_solver|done|]. intros _. apply spec_ret; [apply _|].
    intros db _ Ha. by apply (HS1 _ c). }
  eapply (spec_try _ _ _ _ (λ (clean : bool) db, current p c db ∧ at_repository p (λ r, has_worktree c r ∧ (clean = true → holds_content c r)) db) (λ _, top));
    [|apply _|done|].
  { eapply triple_conseq; [apply (call_spec () _ (current p c) (has_worktree c)
      (λ clean r, has_worktree c r ∧ (clean = true → holds_content c r))); [apply _|done|]| |by intros [y|e] db _ Hx].
    - intros s now r Hw. unfold without_source, worktree_is_clean, git_query. cbn [fst snd]. split; [done|].
      destruct (statuses_empty s r) as [clean|] eqn:Hs; [|done]. split; [done|]. intros ->.
      exists (dt_files (working_tree r)). split; [done|]. apply tracked_holds. by eapply status_spec.
    - intros db _ [Hc Hw]. split; [done|by apply at_repository_is]. }
  intros [].
  { eapply triple_pre; [|apply Hdone]. intros db _ [? Ha]. split; [done|]. eapply at_repository_mono; [|exact Ha]. naive_solver. }
  apply spec_kept_try; [by apply pending_commit_authors_kept; apply _|apply _|done|]. intros authors.
  eapply (triple_pre (others K p) G I _ (λ db, current p c db ∧ at_repository p (has_worktree c) db)).
  { intros db _ [? Hw]. split; [done|]. eapply at_repository_mono; [|exact Hw]. naive_solver. }
  apply commit_try; [done|intros; apply commit_staged_committed|done|]. intros _. apply Hdone.
Qed.

Lemma flush_spec sha hex show d force version summary :
  (∀ c, B c) →
  spec top (flush_pending_server_commit storage object_bytes sha hex show d p force version summary) (λ _ _, True).
Proof.
  intros HB. eapply triple_conseq; [apply (flush_triple sha hex show d force version summary top top); try done; apply _|done|done].
Qed.

Lemma create_revision_spec sha hex d actor summary :
  (∀ c, B c) →
  spec top (create_revision storage object_bytes sha hex d actor p summary) (λ _ _, True).
Proof.
  intros HB. unfold create_revision. cbv zeta. destruct (text_eqb _ _); [done_spec|].
  apply spec_kept_try; [by apply kept_read|apply _|done|]. intros [config|]; [|done_spec].
  eapply (spec_try _ _ _ _ (λ _, top) (λ _, top)); [|apply _|done|intros _].
  { eapply triple_conseq; [apply (initialize_spec top); [apply _|done]|done|by intros []]. }
  apply spec_call_try; [intros; apply checked_out_head|apply _|done..|intros _].
  eapply (spec_try _ _ _ _ materialized (λ _, top)); [by apply sync_documents_spec; [apply _|]|apply _|done|intros v].
  apply materialized_cases. intros c -> Hb.
  do 3 (apply spec_kept_try; [by first [apply kept_read; apply _|apply pending_revision_authors_kept; apply _]|apply _|done|]; intros ?).
  apply commit_try; [done|intros; apply commit_staged_committed|done|]. intros staged.
  eapply (spec_try _ _ _ _ (λ _ db, current p c db ∧ at_repository p (holds_content c) db) (λ _, top)); [|apply _|done|intros commit].
  { destruct staged as [commit|].
    - apply spec_ret; [apply _|]. intros db _ [Hc Hr]. split; [done|]. eapply at_repository_mono; [|exact Hr]. naive_solver.
    - eapply triple_conseq; [apply (commit_spec_current c); [done|intros; apply commit_allow_empty_committed]| |].
      + intros db _ [? Hr]. split; [done|]. apply at_repository_is. eapply at_repository_mono; [|exact Hr]. naive_solver.
      + intros [y|e] db _ Hx; [|done]. destruct Hx as [? Hr]. split; [done|]. eapply at_repository_mono; [|exact Hr]. naive_solver. }
  apply (complete_try _ c); [done..|]. intros completion.
  eapply (triple_pre (others K p) G I _ top); [done|]. destruct completion; [..|done_spec];
    (apply spec_call_try; [done|apply _|done..|intros _; done_spec]).
Qed.
End triples.

(** Whatever else happens, a successful flush leaves the branch with a content
    that the project has had since it began: what holds of its content all the
    time holds of that one. *)
Lemma flush_serves K p sha hex show d force version summary :
  triple (others K p) (own p) (in_sync p) (λ db, knows K p db ∧ has_repository p db)
    (flush_pending_server_commit storage object_bytes sha hex show d p force version summary)
    (λ x db, match x with Ok _ => served K p db | Err _ => True end).
Proof.
  apply (flush_triple K K p _ _ sha hex show d force version summary); [apply _|apply _|done|..].
  - intros db db' Hd (r & Hr & Hh). exists r. by rewrite Hd.
  - intros db c [Hk _]. apply Hk.
  - intros db HI (Hk & [row Hr]) Hn. unfold load_repository in Hn. rewrite Hr in Hn.
    destruct (HI row Hr Hn) as (c & Hs & Ha). eapply at_repository_mono; [|exact Ha]. intros r Hh. exists c.
    split; [by apply Hk|done].
  - intros db c Hv Ha. eapply at_repository_mono; [|exact Ha]. eauto.
Qed.
End facts.
