(* ===== verification/GitSyncTheorems.v ===== *)
(** * Versioning: the system of flushes and revisions

    The operations of the workspace, the statements of versioning that run
    without the lock of their project, and the programs that hold it, as the
    steps of one system; a program may end anywhere.  Pushes, which import
    repository content, are left out. *)
From S2P Require Import Prelude Store Text Paths AccessModel AccessSystem WorkspaceModel WorkspaceProjects.
From S2P Require Import Collaboration WorkspaceFrames WorkspaceSystem WorkspaceSteps WorkspaceTheorems Programs.
From S2P Require Import GitTracking GitRevisions GitMerge GitWorktree GitRepository GitSync GitSyncFacts.

Open Scope Z_scope.

(** ** The system *)

(** The callers of [flush_pending_server_commit], the flush worker and
    [create_revision]; and the requests without the lock. *)
Inductive GitTask : Type :=
| FlushTask (force_author : option uuid) (workspace_version : option Z) (summary : option text)
| AutosaveTask
| RevisionTask (actor : uuid) (summary : text).
Inductive GitRequest : Type := MarkSyncAttempt (p : uuid) | InsertRepository (p : uuid) | MarkPending (p : uuid).

Definition run_request `{Git2} (s : schedule) (now : time) (request : GitRequest) (db : GitDB) : GitDB :=
  match request with
  | MarkSyncAttempt p => (autocommit s 0 (writes (mark_sync_attempt p now)) db).2
  | InsertRepository p => (autocommit s 0 (within_workspace (insert_repository p now)) db).2
  | MarkPending p => (autocommit s 0 (writes (mark_repository_pending p now)) db).2
  end.

(** [VersioningContext]: the project of a running program is locked.  A program
    ends with whether its caller is told a success. *)
Record GitWorld `{Git2} : Type := MkGitWorld { gw_db : GitDB; gw_tasks : gmap uuid (Prog GitDB GitEvent bool) }.
Arguments MkGitWorld {_} _ _.

Section system.
Context `{Yrs} `{Git2} (update_retention : Z).
Context (storage : bool) (object_bytes : text → bytes) (sha256 : bytes → bytes) (hex_encode : bytes → text)
  (show_Z : Z → text) (distribution : GitDistribution) (describe : FlushPendingServerCommitError → text).

Definition task_program (p : uuid) (task : GitTask) : Prog GitDB GitEvent bool :=
  match task with
  | FlushTask force_author version summary =>
      x ← flush_pending_server_commit storage object_bytes sha256 hex_encode show_Z distribution p force_author version summary;
      mret (is_ok x)
  | AutosaveTask =>
      _ ← flush_due_project storage object_bytes sha256 hex_encode show_Z distribution describe p; mret true
  | RevisionTask actor summary =>
      x ← create_revision storage object_bytes sha256 hex_encode distribution actor p summary; mret (is_ok x)
  end.

Definition acquire_project_lock (p : uuid) (task : GitTask) (w : GitWorld) : option GitWorld :=
  if bool_decide (gw_tasks w !! p = None)
  then Some (MkGitWorld (gw_db w) (<[p := task_program p task]> (gw_tasks w))) else None.

Inductive git_step : GitWorld → GitWorld → Prop :=
| git_workspace s now op w :
    op_ok op → (∀ p, ¬ imports_into p op) →
    git_step w (MkGitWorld ((gw_db w) <| gd_workspace := run_workspace update_retention s now op (gd_workspace (gw_db w)) |>) (gw_tasks w))
| git_request s now request w : git_step w (MkGitWorld (run_request s now request (gw_db w)) (gw_tasks w))
| git_acquire p task w w' : acquire_project_lock p task w = Some w' → git_step w w'
| git_run p prog w prog' db' :
    gw_tasks w !! p = Some prog → prog_step prog (gw_db w) prog' db' →
    git_step w (MkGitWorld db' (<[p := prog']> (gw_tasks w)))
| git_release p w : git_step w (MkGitWorld (gw_db w) (delete p (gw_tasks w))).

Definition git_start (w : GitWorld) : Prop :=
  blank (gd_workspace (gw_db w)) ∧ git_repositories (gd_workspace (gw_db w)) = ∅ ∧ gw_tasks w = ∅.
Definition git_reachable (w : GitWorld) : Prop := ∃ w0, git_start w0 ∧ rtc git_step w0 w.

(** A run of the system in which the program of a project keeps its lock, with
    the states it passes. *)
Inductive run_holding (p : uuid) : GitWorld → list GitWorld → GitWorld → Prop :=
| holding_here w : run_holding p w [w] w
| holding_next w w1 ws w' :
    git_step w w1 → is_Some (gw_tasks w1 !! p) → run_holding p w1 ws w' → run_holding p w (w :: ws) w'.
End system.

Section theorems.
Context `{YrsLaws} `{Git2Laws} (update_retention : Z).
Context (storage : bool) (object_bytes : text → bytes) (sha256 : bytes → bytes) (hex_encode : bytes → text)
  (show_Z : Z → text) (distribution : GitDistribution) (describe : FlushPendingServerCommitError → text).
Local Notation program := (task_program storage object_bytes sha256 hex_encode show_Z distribution describe).
Local Notation step := (git_step update_retention storage object_bytes sha256 hex_encode show_Z distribution describe).
Local Notation reachable := (git_reachable update_retention storage object_bytes sha256 hex_encode show_Z distribution describe).
Local Notation run_of := (run_holding update_retention storage object_bytes sha256 hex_encode show_Z distribution describe).
Local Notation synced := (in_sync storage object_bytes).
Local Notation anyone := (others (λ _ : ProjectContentSnapshot, True)).
#[local] Instance synced_flushing p : Flushing storage object_bytes (λ _, True) p (own p) (synced p) := in_sync_flushing _ _ _ _.
Local Notation running p prog := (safe (anyone p) (own p) (synced p) prog (λ _ _, True)).

Lemma task_program_safe p task db : synced p db → running p (program p task) db.
Proof.
  intros HI. assert (Ht : triple (anyone p) (own p) (synced p) (λ _, True) (program p task) (λ _ _, True)); [|by apply Ht].
  destruct task; cbn [task_program].
  - eapply (triple_bind (anyone p) (own p)); [apply (flush_spec storage object_bytes _ (λ _, True) p (own p) (synced p)); done|]. intros ?. by apply (triple_ret (anyone p) (own p)); [apply _|].
  - eapply (triple_bind (anyone p) (own p) _ _ _ _ (λ _ _, True)); [|intros ?; by apply (triple_ret (anyone p) (own p)); [apply _|]].
    unfold flush_due_project. eapply (triple_bind (anyone p) (own p)); [apply (flush_spec storage object_bytes _ (λ _, True) p (own p) (synced p)); done|].
    intros [?|e]; [by apply (triple_ret (anyone p) (own p)); [apply _|]|].
    eapply (triple_bind (anyone p) (own p) _ _ _ _ (λ _ _, True)); [|intros ?; by apply (triple_ret (anyone p) (own p)); [apply _|]].
    eapply triple_conseq; [apply (triple_writes (anyone p) (own p) (synced p) (λ db _, reflexivity db) (λ _, record_sync_failure p (describe e)) (λ _, True) (λ _, True) (λ _, True)); try apply _; try done|done|done].
  - eapply (triple_bind (anyone p) (own p)); [apply (create_revision_spec storage object_bytes _ (λ _, True) p (own p) (synced p)); done|]. intros ?. by apply (triple_ret (anyone p) (own p)); [apply _|].
Qed.

(** The steps of a program are steps of the others for the other projects. *)
Lemma workspace_others s now op db p :
  StreamInv (gd_workspace db) → op_ok op → (∀ p, ¬ imports_into p op) →
  anyone p db (db <| gd_workspace := run_workspace update_retention s now op (gd_workspace db) |>).
Proof.
  intros HI Hok Hop. pose proof (run_workspace_tracked update_retention s now op (gd_workspace db) p (Hop p)) as [_ Tr _].
  split; cbn; [by destruct Tr as [|[? _]]; [left|right]| |done|done].
  intros c Hs. unfold snapshot_of in *. cbn.
  destruct (run_workspace_step update_retention s now op (gd_workspace db) Hok HI) as [[q Hc] _ _].
  destruct (snapshot_step _ _ _ _ _ Hc Hs) as (c' & Hs' & [->|Hlt]); [by exists c; auto|].
  exists c'. split; [done|].
  assert (Hp : is_Some (project_rows (gd_workspace db) !! p)).
  { unfold lock_project_content_snapshot in Hs. destruct (project_rows (gd_workspace db) !! p); [done|discriminate Hs]. }
  destruct (run_workspace_marked update_retention s now op _ p HI Hok (Hop p) Hp) as [_ [[Hk _]|Hm]]; [left|by right].
  congruence.
Qed.
Lemma insert_repository_content q now w w' :
  insert_repository q now w = Ok ((), w') → same_content w w' ∧ ∀ p, git_repositories w' !! p = git_repositories w !! p ∨ pending p w'.
Proof.
  unfold insert_repository. case_bool_decide as Hq; [intros [= <-]; split; [done|by left]|].
  case_bool_decide; [done|]. intros [= <-]. split; [done|]. intros p. cbn.
  destruct (decide (p = q)) as [->|Hne]; [right|left; by rewrite lookup_insert_ne].
  exists (MkRepositoryRow true now). split; [apply lookup_insert_eq|done].
Qed.
Lemma mark_repository_pending_content q now db p :
  git_repositories (gd_workspace (mark_repository_pending q now db)) !! p = git_repositories (gd_workspace db) !! p
  ∨ pending p (gd_workspace (mark_repository_pending q now db)).
Proof.
  cbn. destruct (decide (p = q)) as [->|Hne]; [|left; by rewrite lookup_alter_ne].
  destruct (git_repositories (gd_workspace db) !! q) as [row|] eqn:E; [right|left; by rewrite lookup_alter_eq, E].
  exists (MkRepositoryRow true now). cbn. by rewrite lookup_alter_eq, E.
Qed.
Lemma request_content s now request db :
  let db' := run_request s now request db in
  same_content (gd_workspace db) (gd_workspace db') ∧ gd_directories db' = gd_directories db
  ∧ ∀ p, git_repositories (gd_workspace db') !! p = git_repositories (gd_workspace db) !! p ∨ pending p (gd_workspace db').
Proof.
  assert (Hself : same_content (gd_workspace db) (gd_workspace db) ∧ gd_directories db = gd_directories db
    ∧ ∀ p, git_repositories (gd_workspace db) !! p = git_repositories (gd_workspace db) !! p ∨ pending p (gd_workspace db))
    by (split_and!; [by split|done|by intros; left]).
  destruct request as [q|q|q]; cbn [run_request]; unfold autocommit, writes, within_workspace.
  - destruct (s 0%nat); [|done|]; (split_and!; [by split|done|by intros; left]).
  - destruct (insert_repository q now (gd_workspace db)) as [[[] w]|e] eqn:E; [|done].
    apply insert_repository_content in E as [Hc Hr]. by destruct (s 0%nat).
  - pose proof (mark_repository_pending_content q now db). destruct (s 0%nat); [|done|]; by split_and!.
Qed.
Lemma request_others s now request db p : anyone p db (run_request s now request db).
Proof.
  destruct (request_content s now request db) as (Hc & Hd & Hr). split; [apply Hr| |by rewrite Hd|done].
  intros c Hs. exists c. split; [|by left]. unfold snapshot_of in *. by rewrite (same_content_snapshot _ _ _ Hc).
Qed.

(** ** The invariant *)

Record GitInv (w : GitWorld) : Prop := MkGitInv {
  gi_streams : StreamInv (gd_workspace (gw_db w));
  gi_synced : ∀ p, synced p (gw_db w);
  gi_tasks : ∀ p prog, gw_tasks w !! p = Some prog → running p prog (gw_db w);
}.

Lemma others_inv w db' tasks :
  GitInv w → (∀ p, anyone p (gw_db w) db') → StreamInv (gd_workspace db') → tasks = gw_tasks w → GitInv (MkGitWorld db' tasks).
Proof.
  intros [_ Hs Ht] Ho HI ->. split; [done|..]; cbn.
  - intros p. eapply in_sync_others; [apply Ho|apply Hs].
  - intros p prog Hp. eapply safe_stable; [apply _|by apply Ho|by apply Ht].
Qed.
Lemma git_step_inv w w' : GitInv w → step w w' → GitInv w'.
Proof.
  intros Hw Hst. destruct Hst as [s now op w Hok Hop|s now request w|p task w w' Ha|p prog w prog' db' Hp Hst|p w].
  - eapply others_inv; [done|intros p; apply workspace_others; [apply Hw|done..]| |done].
    cbn. by destruct (run_workspace_step update_retention s now op _ Hok (gi_streams _ Hw)).
  - eapply others_inv; [done|intros p; apply request_others| |done].
    destruct (request_content s now request (gw_db w)) as [Hc _]. eapply same_content_stream; [exact Hc|apply Hw].
  - unfold acquire_project_lock in Ha. case_bool_decide; [|done]. injection Ha as <-. destruct Hw as [HI Hs Ht].
    split; cbn; [done..|]. intros q prog [[<- <-]|[_ Hq]]%lookup_insert_Some; [by apply task_program_safe|by apply Ht].
  - destruct Hw as [HI Hs Ht]. destruct (safe_step _ _ _ _ _ _ _ _ (Ht _ _ Hp) (Hs p) Hst) as (Hp' & Hs' & Hg).
    assert (Ho : ∀ q, q ≠ p → anyone q (gw_db w) db').
    { intros q Hq. destruct Hg as [->|Hg]; [reflexivity|by eapply own_others]. }
    split; cbn.
    + destruct Hg as [->|Hg]; [done|]. eapply same_content_stream; [apply Hg|done].
    + intros q. destruct (decide (q = p)) as [->|Hne]; [done|]. eapply in_sync_others; [by apply Ho|apply Hs].
    + intros q prog0 [[<- <-]|[Hne Hq]]%lookup_insert_Some; [done|]. eapply safe_stable; [apply _|by apply Ho|by apply Ht].
  - destruct Hw as [HI Hs Ht]. split; cbn; [done..|]. intros q prog [_ Hq]%lookup_delete_Some. by apply Ht.
Qed.

Lemma git_reachable_inv w : reachable w → GitInv w.
Proof.
  intros (w0 & (Hb & Hr & Ht) & Hs). cut (GitInv w0); [clear Hb Hr Ht|clear Hs].
  { induction Hs as [w|w w' w'' Hst _ IH]; [done|]. intros HI. apply IH. by eapply git_step_inv. }
  split; [|intros p row; by rewrite Hr, lookup_empty|intros p prog; by rewrite Ht, lookup_empty].
  by apply (reachable_inv update_retention), workspace_start.
Qed.

(** Operations of the workspace, and the steps of one program, in a row. *)
Lemma git_operations trace db tasks :
  Forall (λ sto : schedule * time * WorkspaceOp, op_ok sto.2 ∧ ∀ p, ¬ imports_into p sto.2) trace →
  rtc step (MkGitWorld db tasks) (MkGitWorld (db <| gd_workspace := run_workspace_trace update_retention trace (gd_workspace db) |>) tasks).
Proof.
  induction trace as [|[[s now] op] trace IH] in db |- *; intros Hok; [by destruct db|].
  apply Forall_cons in Hok as [[Ho Hi] Hok].
  specialize (IH (db <| gd_workspace := run_workspace update_retention s now op (gd_workspace db) |>) Hok).
  eapply rtc_l; [|exact IH].
  by apply (git_workspace _ _ _ _ _ _ _ _ s now op (MkGitWorld db tasks)).
Qed.
Lemma git_runs p prog db prog' db' tasks :
  runs_to (prog, db) (prog', db') → tasks !! p = Some prog →
  rtc step (MkGitWorld db tasks) (MkGitWorld db' (<[p := prog']> tasks)).
Proof.
  intros Hr. remember (prog, db) as x eqn:Ex. remember (prog', db') as z eqn:Ez.
  revert prog db tasks Ex. induction Hr as [x|x y z' Hxy _ IH]; intros prog db tasks -> Hp; subst.
  - injection Ez as -> ->. by rewrite insert_id.
  - destruct y as [prog1 db1]. eapply rtc_l; [by apply (git_run _ _ _ _ _ _ _ _ p prog)|]. cbn.
    rewrite <-(insert_insert_eq _ p prog' prog1). apply (IH eq_refl prog1 db1 _ eq_refl). apply lookup_insert_eq.
Qed.

Lemma holds_content_files c r :
  holds_content storage object_bytes c r → canonical_content c → holds_files r (content_files object_bytes c).
Proof.
  intros (files & (available & d & Hd & <-) & Hh) Hc.
  by destruct (staged_content storage object_bytes available c d Hc Hd) as (_ & <- & _).
Qed.

(** C38: whatever operations of the editors, flushes, manual revisions, autosaves
    and failures there were, and wherever a program was cut off, a project that
    is not marked as pending and whose paths are canonical is in its repository:
    the head has a file for every document and asset of its content, byte for
    byte, and no others; only the paths that a [.gitignore] or [.gitattributes]
    of the project is about are excepted, which git leaves out or rewrites
    ([plainly_tracked]).  The system has no imports of repository content: no
    pushes ([GitPush]) and no inbound synchronisation ([OImport], which
    [git_step] excludes); these write the same tables. *)
Theorem unmarked_content_is_committed (w : GitWorld) p row :
  reachable w → git_repositories (gd_workspace (gw_db w)) !! p = Some row → gr_pending_sync row = false →
  ∃ c r, lock_project_content_snapshot p (gd_workspace (gw_db w)) = Some c ∧ gd_directories (gw_db w) !! p = Some r
    ∧ (canonical_content c → holds_files r (content_files object_bytes c)).
Proof.
  intros Hw%git_reachable_inv Hrow Hp. destruct (gi_synced _ Hw p row Hrow Hp) as (c & Hs & r & Hr & files & Hf & Hh).
  exists c, r. split_and!; [done..|]. apply holds_content_files. by exists files.
Qed.

(** *** What a program that keeps its lock does *)

Lemma flush_task_serves K p force version summary db :
  synced p db → knows K p db → has_repository p db →
  safe (others K p) (own p) (synced p) (program p (FlushTask force version summary)) (λ ok db, ok = true → served storage object_bytes K p db) db.
Proof.
  intros HI Hk Hr.
  assert (Ht : triple (others K p) (own p) (synced p) (λ db, knows K p db ∧ has_repository p db)
    (program p (FlushTask force version summary)) (λ ok db, ok = true → served storage object_bytes K p db)).
  { eapply (triple_bind (others K p) (own p));
      [apply (flush_serves storage object_bytes K p sha256 hex_encode show_Z distribution force version summary)|].
    intros x. apply (triple_ret (others K p) (own p)); [destruct x; apply _|]. by destruct x. }
  by apply Ht.
Qed.

(** A step of the system is one of the program, or one of the others that leaves
    it as it is. *)
Lemma step_beside p prog w w' :
  GitInv w → step w w' → gw_tasks w !! p = Some prog → is_Some (gw_tasks w' !! p) →
  (gw_tasks w' !! p = Some prog ∧ anyone p (gw_db w) (gw_db w'))
  ∨ ∃ prog', gw_tasks w' !! p = Some prog' ∧ prog_step prog (gw_db w) prog' (gw_db w').
Proof.
  intros Hw Hst Hp Hp'. destruct Hst as [s now op w Hok Hop|s now request w|q task w w' Ha|q prog0 w prog' db' Hq Hst|q w];
    cbn in *.
  - left. split; [done|]. by apply workspace_others; [apply Hw|..].
  - left. split; [done|]. apply request_others.
  - left. unfold acquire_project_lock in Ha. case_bool_decide as Hn; [|done]. injection Ha as <-. cbn.
    split; [|reflexivity]. rewrite lookup_insert_ne; [done|]. intros ->. congruence.
  - destruct (decide (p = q)) as [<-|Hne].
    + right. exists prog'. rewrite lookup_insert_eq. split; [done|]. congruence.
    + left. rewrite lookup_insert_ne by done. split; [done|].
      destruct (safe_step _ _ _ _ _ _ _ _ (gi_tasks _ Hw _ _ Hq) (gi_synced _ Hw q) Hst) as (_ & _ & [->|Hg]);
        [reflexivity|]. by eapply own_others.
  - left. split; [|reflexivity]. destruct (decide (p = q)) as [<-|Hne]; [|by rewrite lookup_delete_ne].
    rewrite lookup_delete_eq in Hp'. by destruct Hp'.
Qed.

Lemma run_holding_head p w ws w' : run_of p w ws w' → w ∈ ws.
Proof. by destruct 1; left. Qed.

(** What a program may rely on is what holds of the content in every state the
    run passes. *)
Lemma run_holding_safe K p w ws w' prog Q :
  run_of p w ws w' → GitInv w → gw_tasks w !! p = Some prog →
  (∀ (wm : GitWorld) c, wm ∈ ws → snapshot_of p (gw_db wm) = Some c → K c) →
  safe (others K p) (own p) (synced p) prog Q (gw_db w) →
  ∃ prog', gw_tasks w' !! p = Some prog' ∧ safe (others K p) (own p) (synced p) prog' Q (gw_db w') ∧ GitInv w'.
Proof.
  intros Hrun. revert prog. induction Hrun as [w|w w1 ws w' Hst Hp1 Hrun IH]; intros prog Hw Hp HK Hsafe.
  - by exists prog.
  - assert (Hw1 : GitInv w1) by by eapply git_step_inv.
    assert (HK1 : ∀ (wm : GitWorld) c, wm ∈ ws → snapshot_of p (gw_db wm) = Some c → K c).
    { intros wm c Hm. apply HK. by right. }
    pose proof (run_holding_head _ _ _ _ Hrun) as Hin.
    destruct (step_beside p prog w w1) as [[Hp' Ho]|(prog' & Hp' & Hs)]; [done..| |].
    + apply (IH prog); [done..|]. eapply safe_stable; [apply _| |done]. apply others_known; [done|].
      intros c. by apply HK1.
    + destruct (safe_step _ _ _ _ _ _ _ _ Hsafe (gi_synced _ Hw p) Hs) as (? & _ & _). by apply (IH prog').
Qed.

Lemma run_holding_app p w ws w1 ws' w' : run_of p w ws w1 → run_of p w1 ws' w' → ∃ ws'', run_of p w ws'' w'.
Proof.
  intros Hr Hr'. induction Hr as [w|w w2 ws w3 Hst Hp _ IH]; [by exists ws'|].
  destruct (IH Hr') as [ws'' ?]. exists (w :: ws''). by apply holding_next with w2.
Qed.
(** The steps of the program of [p] in a row, and operations of the workspace in a row. *)
Lemma run_holding_steps p prog db prog' db' tasks :
  runs_to (prog, db) (prog', db') → tasks !! p = Some prog →
  ∃ ws, run_of p (MkGitWorld db tasks) ws (MkGitWorld db' (<[p := prog']> tasks)).
Proof.
  intros Hr. remember (prog, db) as x eqn:Ex. remember (prog', db') as z eqn:Ez.
  revert prog db tasks Ex. induction Hr as [x|x y z' Hxy _ IH]; intros prog db tasks -> Hp; subst.
  - injection Ez as -> ->. rewrite insert_id by done. eexists. apply holding_here.
  - destruct y as [prog1 db1].
    destruct (IH eq_refl prog1 db1 (<[p := prog1]> tasks) eq_refl (lookup_insert_eq _ _ _)) as [ws Hws].
    rewrite insert_insert_eq in Hws. exists (MkGitWorld db tasks :: ws). eapply holding_next; [| |exact Hws].
    + by apply (git_run _ _ _ _ _ _ _ _ p prog).
    + cbn. by rewrite lookup_insert_eq.
Qed.
Lemma run_holding_operations p trace db tasks :
  Forall (λ sto : schedule * time * WorkspaceOp, op_ok sto.2 ∧ ∀ p, ¬ imports_into p sto.2) trace →
  is_Some (tasks !! p) →
  ∃ ws, run_of p (MkGitWorld db tasks) ws
    (MkGitWorld (db <| gd_workspace := run_workspace_trace update_retention trace (gd_workspace db) |>) tasks).
Proof.
  intros Hok Hp. induction trace as [|[[s now] op] trace IH] in db, Hok |- *; [destruct db; eexists; apply holding_here|].
  apply Forall_cons in Hok as [[Ho Hi] Hok].
  destruct (IH (db <| gd_workspace := run_workspace update_retention s now op (gd_workspace db) |>) Hok) as [ws Hws].
  eexists. eapply holding_next; [by apply (git_workspace _ _ _ _ _ _ _ _ s now op (MkGitWorld db tasks))|done|exact Hws].
Qed.

End theorems.

(** ** A flush of the small project *)

Definition plain_distribution : GitDistribution := MkDistribution (lit "TOSS") (lit "Owner") (lit "toss.local").
Definition no_hash (b : bytes) : bytes := b.
Definition no_hex (b : bytes) : text := b.
Definition no_decimal (_ : Z) : text := [].
Definition no_description (_ : FlushPendingServerCommitError) : text := [].
Definition all_objects (_ : nat) (X : Type) (e : GitEvent X) : X :=
  match e in GitEvent X return X with
  | FetchObjects => always_available
  | NewIdentifiers => λ _, 90%N
  | PutObject _ _ _ => Ok ()
  | AuthenticateToken => Ok (Some alice)
  | RunHttpBackend _ => MkBackendAnswer id (BackendResponded 200)
  | CleanupUncommitted _ | ContentReplaced _ | RecordEvent _ => ()
  end.

(** Created, opened, edited and saved; then flushed. *)
Definition no_git : GitDB := MkGitDB (blank_workspace sample_db) ∅ ∅ ∅.
Definition creating : workspace_trace := [(healthy, 1, OCreateProject notes_graph); (healthy, 2, OBootstrap main_stream)].
Definition edited_git : GitDB :=
  no_git <| gd_workspace := run_workspace_trace retention (creating ++ rewriting) (gd_workspace no_git) |>.
Definition small_task : Prog GitDB GitEvent bool :=
  task_program false nothing_stored no_hash no_hex no_decimal plain_distribution no_description notes
    (FlushTask (Some alice) None None).
Definition flushed : Prog GitDB GitEvent bool * GitDB := run_steps all_objects healthy 5 0 40 small_task edited_git.
Definition flushed_world : GitWorld := MkGitWorld flushed.2 (<[notes := flushed.1]> (<[notes := small_task]> ∅)).

Example flushed_files :
  (small_head_files <$> gd_directories flushed.2 !! notes) = Some {[ lit "main.typ" := utf8 (lit "= Notes draft") ]}
  ∧ finished flushed.1 = true.
Proof. vm_compute. done. Qed.

Abbreviation small_reachable :=
  (git_reachable retention false nothing_stored no_hash no_hex no_decimal plain_distribution no_description).
Lemma edited_reachable : small_reachable (MkGitWorld edited_git ∅).
Proof.
  exists (MkGitWorld no_git ∅). split; [by split_and!|]. apply git_operations.
  repeat constructor; try (intros p []); vm_compute; reflexivity.
Qed.
Lemma flushed_reachable : small_reachable flushed_world.
Proof.
  destruct edited_reachable as (w0 & Hw0 & Hs). exists w0. split; [done|]. etrans; [exact Hs|].
  eapply rtc_l; [apply (git_acquire _ _ _ _ _ _ _ _ notes (FlushTask (Some alice) None None)); reflexivity|].
  apply (git_runs _ _ _ _ _ _ _ _ notes small_task); [|apply lookup_insert_eq].
  rewrite <-surjective_pairing. apply run_steps_reach.
Qed.

Lemma unmarked_content_is_committed_witness :
  ∃ c r, lock_project_content_snapshot notes (gd_workspace (gw_db flushed_world)) = Some c
    ∧ gd_directories (gw_db flushed_world) !! notes = Some r
    ∧ (canonical_content c → holds_files r (content_files nothing_stored c)).
Proof.
  eapply (unmarked_content_is_committed retention false nothing_stored no_hash no_hex no_decimal plain_distribution
    no_description flushed_world notes (MkRepositoryRow false 4)).
  - apply flushed_reachable.
  - vm_compute. reflexivity.
  - reflexivity.
Defined.

(** Another edit is saved when the flush has read that the project is pending;
    the flush goes on to its end. *)
Definition saving : workspace_trace := [(healthy, 6, edit Update (lit " online")); (healthy, 6, OReconcile main_stream)].
Definition flushing : Prog GitDB GitEvent bool * GitDB := run_steps all_objects healthy 5 0 1 small_task edited_git.
Definition saved_meanwhile : GitDB :=
  flushing.2 <| gd_workspace := run_workspace_trace retention saving (gd_workspace flushing.2) |>.
Definition flushed_later : Prog GitDB GitEvent bool * GitDB := run_steps all_objects healthy 7 0 40 flushing.1 saved_meanwhile.
Definition flush_world (prog : Prog GitDB GitEvent bool) (db : GitDB) : GitWorld := MkGitWorld db (<[notes := prog]> ∅).
Abbreviation small_holding :=
  (run_holding retention false nothing_stored no_hash no_hex no_decimal plain_distribution no_description notes).

Lemma steps_holding now n prog db :
  let r := run_steps all_objects healthy now 0 n prog db in
  ∃ ws, small_holding (flush_world prog db) ws (flush_world r.1 r.2).
Proof.
  intros r. destruct (run_holding_steps retention false nothing_stored no_hash no_hex no_decimal plain_distribution
    no_description notes prog db r.1 r.2 (<[notes := prog]> ∅)) as [ws Hws].
  - rewrite <-(surjective_pairing r). apply run_steps_reach.
  - apply lookup_insert_eq.
  - rewrite insert_insert_eq in Hws. by exists ws.
Qed.
Lemma saving_holding prog db :
  ∃ ws, small_holding (flush_world prog db) ws
    (flush_world prog (db <| gd_workspace := run_workspace_trace retention saving (gd_workspace db) |>)).
Proof.
  apply (run_holding_operations retention false nothing_stored no_hash no_hex no_decimal plain_distribution no_description
    notes saving db (<[notes := prog]> ∅)); [|by rewrite lookup_insert_eq].
  repeat constructor; try (intros p []); vm_compute; reflexivity.
Qed.
Lemma flushed_later_holding :
  ∃ ws, small_holding (flush_world small_task edited_git) ws (flush_world flushed_later.1 flushed_later.2).
Proof.
  destruct (steps_holding 5 1 small_task edited_git) as [ws1 H1].
  destruct (saving_holding flushing.1 flushing.2) as [ws2 H2], (steps_holding 7 40 flushing.1 saved_meanwhile) as [ws3 H3].
  destruct (run_holding_app _ _ _ _ _ _ _ _ _ _ _ _ _ _ H2 H3) as [ws4 H4].
  exact (run_holding_app _ _ _ _ _ _ _ _ _ _ _ _ _ _ H1 H4).
Qed.
Definition told_success (prog : Prog GitDB GitEvent bool) : bool := match prog with Done ok => ok | _ => false end.
Lemma told_success_done prog : told_success prog = true → prog = mret true.
Proof. by destruct prog as [[]|X q k|X e k]. Qed.
Lemma flushed_later_succeeds : gw_tasks (flush_world flushed_later.1 flushed_later.2) !! notes = Some (mret true).
Proof.
  assert (E : told_success flushed_later.1 = true) by (vm_compute; reflexivity).
  apply told_success_done in E. unfold flush_world. cbn [gw_tasks]. by rewrite lookup_insert_eq, E.
Qed.

