(* ===== verification/GitPush.v ===== *)
(** * Versioning: pushes

    versioning::http and http::receive_pack, and the import of a worktree of
    ::materialization: a push is received by [git http-backend], under the lock
    of the project, and then reconciled with the content of the project, or
    taken back.  Who may push is a matter of authorization; what the backend
    does to the repository, and how it ends, is an answer from the outside.  A
    push that is answered with a rejection is taken back.  These programs import
    content, which the system of [GitSyncTheorems] leaves out. *)
From S2P Require Import Prelude Store Text Paths AccessModel AccessSystem WorkspaceModel WorkspaceStatements WorkspaceProjects.
From S2P Require Import Authorization Collaboration WorkspaceFrames WorkspaceSystem WorkspaceSteps WorkspaceTheorems Programs RevisionTransfer.
From S2P Require Import GitTracking GitRevisions GitMerge GitWorktree GitRepository GitSync GitSyncFacts GitSyncTheorems.

Open Scope Z_scope.

(** ** materialization: importing a worktree *)

Inductive ImportWorktreeError : Type :=
| ImportEntryPoint
| ImportFiles (source : RepositoryFilesError)
| ImportStorage (path : text)
| ImportApply (source : RepositoryImportError).

Section push.
Context `{Git2} (storage : bool) (object_bytes : text → bytes).
Context (sha256 : bytes → bytes) (hex_encode : bytes → text) (show_Z : Z → text) (show_uuid : uuid → text).
Context (guess_content_type : text → text) (three_way_merge_text : text → text → text → text → option text).
Context (distribution : GitDistribution).
Local Notation GitProg := (Prog GitDB GitEvent).

(** The assets of a worktree are stored before the transaction. *)
Definition repository_asset (project id : uuid) (raw : RawRepoAsset) : WorkspaceAsset :=
  if storage
  then MkWorkspaceAsset id (rw_path raw) (lit "projects/" ++ show_uuid project ++ lit "/assets/" ++ show_uuid id)
         (rw_content_type raw) (rw_size_bytes raw) None
  else MkWorkspaceAsset id (rw_path raw) (lit "inline://" ++ show_uuid id) (rw_content_type raw) (rw_size_bytes raw)
         (Some (rw_bytes raw)).
Fixpoint store_assets (project : uuid) (ids : text → uuid) (raws : list RawRepoAsset) (assets : list WorkspaceAsset) :
    GitProg (result ImportWorktreeError (list WorkspaceAsset)) :=
  match raws with
  | [] => mret (Ok assets)
  | raw :: raws =>
      let asset := repository_asset project (ids (rw_path raw)) raw in
      stored ← (if storage then ask (PutObject (wa_object_key asset) (rw_content_type raw) (rw_bytes raw)) else mret (Ok ()));
      match stored with
      | Ok _ => store_assets project ids raws (assets ++ [asset])
      | Err _ =>
          _ ← ask (CleanupUncommitted [wa_object_key asset]);
          _ ← ask (CleanupUncommitted (wa_object_key <$> assets));
          mret (Err (ImportStorage (rw_path raw)))
      end
  end.

(** What [prepare_repo_import] makes of the worktree; where the worktree is
    [read], in one step, the walk over it may fail. *)
Definition prepare_repo_import (project : uuid) (read : GitDB → option DirectoryTree) :
    GitProg (result ImportWorktreeError ((text → uuid) * PreparedRepoImport * list WorkspaceAsset)) :=
  entry ←? statement (λ _, fetch_one (of_workspace (find_project_entry_point project))) | λ _, ImportEntryPoint;
  files ←? transaction (λ s _ db,
      (match s 0%nat, read db with
       | Served, Some d => read_repository guess_content_type (ep_type entry) (ep_entry_file_path entry) d
       | _, _ => Err RepositoryFilesUnreadable
       end, db)) | ImportFiles;
  ids ← ask NewIdentifiers;
  assets ←? store_assets project ids (pr_assets files) [] | id;
  mret (Ok (ids, files, assets)).

Definition import_content (project : uuid) (expected : option Z) (ids : text → uuid) (files : PreparedRepoImport)
    (assets : list WorkspaceAsset) (now : time) : ReplaceProjectContent :=
  MkReplace project expected ((λ d, MkWorkspaceDocument (ids d.1) d.1 d.2) <$> pr_documents files) assets
    (pr_directories files) (pr_entry_file_path files) None now.
(** The objects of an import that is not committed are removed, unless the
    commit itself failed. *)
Definition apply_import (c : time → ReplaceProjectContent) :
    GitProg (result RepositoryImportError Z * TxEnd (list text)) :=
  transaction (λ s now db,
    let '(applied, w) := apply_repo_import s now (c now) (gd_workspace db) in
    ((applied, transact_end s (apply_repo_import_transaction s now (c now)) (gd_workspace db)),
     db <| gd_workspace := w |>)).
Definition sync_repo_documents_to_project (project : uuid) (read : GitDB → option DirectoryTree) (expected : option Z) :
    GitProg (result ImportWorktreeError Z) :=
  prepared ←? prepare_repo_import project read | id;
  let '(ids, files, assets) := prepared in
  outcome ← apply_import (import_content project expected ids files assets);
  _ ← match outcome.2 with
      | NotCommitted => ask (CleanupUncommitted (wa_object_key <$> assets))
      | CommitFailed => mret ()
      | Committed _ => ask (ContentReplaced project)
      end;
  mret (match outcome.1 with Ok version => Ok version | Err e => Err (ImportApply e) end).

(** ** receive_pack *)

(** A refused push, and whether the project may have the pushed content; what
    is only logged is left out. *)
Record PushReject : Type := MkPushReject { pj_reason : text; pj_workspace_may_have_changed : bool }.
Definition before_workspace_change (reason : text) : PushReject := MkPushReject reason false.
Definition internal_reason : text := lit "server could not apply pushed content".
Definition internal_before_workspace_change : PushReject := MkPushReject internal_reason false.
Definition internal_after_workspace_change : PushReject := MkPushReject internal_reason true.
Definition MISSING_ENTRY_FILE_PUSH_MESSAGE : text := lit "repository must contain a supported project entry file".
Definition workspace_changed_message : text := lit "fetch first: workspace changed while the push was running".

Inductive ReceivePackCaptureError : Type := CaptureGit | CapturePersistence | CaptureProjectNotFound | CaptureAsset.
Inductive ReceivePackRecoveryPersistenceStage : Type := LoadWorkspaceSnapshot | LoadRepository | RecordSync.
Inductive ReceivePackRecoveryError : Type :=
| RecoveryGit
| RecoveryRestoreHead (source : RestoreRepositoryHeadError)
| RecoveryPersistence (stage : ReceivePackRecoveryPersistenceStage) (source : sqlx_error)
| RecoveryProjectNotFound
| RecoveryRepositoryNotFound
| RecoveryFilesystem
| RecoveryRepositoryImport (source : ImportWorktreeError)
| RecoveryFlush (source : FlushPendingServerCommitError)
| RecoveryWorkspaceMaterialization (source : MaterializeWorkspaceError).

(** The session keeps what [load_repository] said when the request began. *)
Record ReceivePackSession : Type := MkSession {
  rs_project : uuid; rs_actor : uuid; rs_pending_sync : bool;
  rs_head_before : option git_commit; rs_workspace_version : Z; rs_files : gmap text MergeFileValue }.

Definition head_of (project : uuid) : GitProg (result unit (option git_commit)) := git_call project (λ _ _, head_oid).
Definition capture (project actor : uuid) (config : GitRepositoryConfig) :
    GitProg (result ReceivePackCaptureError ReceivePackSession) :=
  head_before ←? head_of project | λ _, CaptureGit;
  snapshot ←? statement (λ _, reads (of_workspace (lock_project_content_snapshot project))) | λ _, CapturePersistence;
  match snapshot with
  | None => mret (Err CaptureProjectNotFound)
  | Some c =>
      available ← ask FetchObjects;
      mret (match workspace_snapshot_to_merge_map storage object_bytes available c with
            | None => Err CaptureAsset
            | Some files =>
                Ok (MkSession project actor (gc_pending_sync config) head_before (cs_workspace_version c) files)
            end)
  end.

Inductive DefaultRefUpdateRejection : Type := BranchDeletion | NonFastForward.
Definition message (r : DefaultRefUpdateRejection) : text :=
  match r with
  | BranchDeletion => lit "default branch deletion prohibited"
  | NonFastForward => lit "forced push prohibited"
  end.
Definition validate_default_ref_update (s : schedule) (r : repository) (head_before head_after : option git_commit) :
    result DefaultRefUpdateRejection unit :=
  match head_before, head_after with
  | Some _, None => Err BranchDeletion
  | Some old_head, Some new_head =>
      if match graph_descendant_of s r new_head old_head with Ok b => b | Err _ => false end
      then Ok () else Err NonFastForward
  | _, _ => Ok ()
  end.

(** [materialize_merge_map_to_dir] in a new directory. *)
Definition write_merge_map (files : gmap text MergeFileValue) : GitProg (result unit DirectoryTree) :=
  transaction (λ s _ db,
    (match s 0%nat with
     | Served => ok_or (materialize_merge_map_to_dir (map_to_list files) empty_directory) ()
     | _ => Err ()
     end, db)).

Inductive MergeOnlineError : Type := MergeConflict (paths : list text) | MergeInternal.
(** The states of two commits, which must be there. *)
Definition git_states (old_head new_head : git_commit) (s : schedule) (r : repository) :
    result unit (GitRevisionState * GitRevisionState) :=
  match find_commit s r old_head, find_commit (after 1 s) r new_head with
  | Ok _, Ok _ =>
      match load_git_state_from_commit guess_content_type (tree_blobs (commit_tree old_head)),
            load_git_state_from_commit guess_content_type (tree_blobs (commit_tree new_head)) with
      | Ok base, Ok pushed => Ok (base, pushed)
      | _, _ => Err ()
      end
  | _, _ => Err ()
  end.
Definition build_merged_workspace (session : ReceivePackSession) (head_after : option git_commit) :
    GitProg (result MergeOnlineError (gmap text MergeFileValue)) :=
  match rs_head_before session, head_after with
  | Some old_head, Some new_head =>
      states ←? on_repository () (rs_project session) (λ s _ r, (git_states old_head new_head s r, r)) | λ _, MergeInternal;
      mret (match merge_online_over_pushed three_way_merge_text (git_revision_state_to_merge_map states.1)
                    (git_revision_state_to_merge_map states.2) (rs_files session) with
            | Merged files => Ok files
            | MergeConflicts paths => Err (MergeConflict paths)
            end)
  | _, _ => mret (Err MergeInternal)
  end.

Definition conflict_reason (paths : list text) : text :=
  lit "fetch first: server has newer online updates that conflict with pushed commits: "
  ++ match take 8 paths with [] => [] | p :: ps => foldl (λ acc q, acc ++ lit ", " ++ q) p ps end.
Definition reject_import (internal : PushReject) (e : ImportWorktreeError) : PushReject :=
  match e with
  | ImportApply ImportWorkspaceChanged => before_workspace_change workspace_changed_message
  | ImportApply ImportMissingEntryFile | ImportFiles RepositoryMissingEntryFile =>
      before_workspace_change MISSING_ENTRY_FILE_PUSH_MESSAGE
  | _ => internal
  end.
Definition unapplied (e : ImportWorktreeError) : bool :=
  match e with
  | ImportApply ImportWorkspaceChanged | ImportApply ImportMissingEntryFile | ImportFiles RepositoryMissingEntryFile => true
  | _ => false
  end.
Definition record_sync (project : uuid) (version : Z) (pending_sync clear_authors : bool) :
    GitProg (result sqlx_error MaterializedWorkspaceCompletion) :=
  transaction (λ s now, record_receive_pack_sync s now project version pending_sync clear_authors).

Definition merge_online_delta (session : ReceivePackSession) (head_after : option git_commit) :
    GitProg (result PushReject unit) :=
  let project := rs_project session in
  merged ←? build_merged_workspace session head_after
    | λ e, match e with
           | MergeConflict paths => before_workspace_change (conflict_reason paths)
           | MergeInternal => internal_before_workspace_change
           end;
  directory ←? write_merge_map merged | λ _, internal_before_workspace_change;
  _ ←? sync_repo_documents_to_project project (λ _, Some directory) (Some (rs_workspace_version session))
    | reject_import internal_after_workspace_change;
  version ←? sync_project_documents_to_repo storage object_bytes project | λ _, internal_after_workspace_change;
  clean ← git_call project (λ s _, worktree_is_clean s);
  let is_clean := match clean with Ok b => b | Err _ => false end in
  _ ←? record_sync project version (negb is_clean) is_clean | λ _, internal_after_workspace_change;
  _ ← ask (RecordEvent "git.receive_pack.accepted.merged_online_delta");
  mret (Ok ()).

(** The worktree of the project. *)
Definition project_worktree (project : uuid) (db : GitDB) : option DirectoryTree :=
  working_tree <$> gd_directories db !! project.
Definition import_pushed_workspace (session : ReceivePackSession) : GitProg (result PushReject unit) :=
  let project := rs_project session in
  imported ← sync_repo_documents_to_project project (project_worktree project) (Some (rs_workspace_version session));
  match imported with
  | Err e =>
      if unapplied e then mret (Err (reject_import internal_after_workspace_change e)) else
      _ ← transaction (λ s now, record_receive_pack_import_failure s now project);
      _ ← ask (RecordEvent "git.receive_pack.import_failed");
      mret (Err internal_after_workspace_change)
  | Ok version =>
      _ ←? record_sync project version false true | λ _, internal_after_workspace_change;
      _ ← ask (RecordEvent "git.receive_pack.accepted");
      mret (Ok ())
  end.

Definition is_success (status : Z) : bool := (200 <=? status) && (status <? 300).
Definition reconcile (session : ReceivePackSession) (status : Z) : GitProg (result PushReject unit) :=
  let project := rs_project session in
  head_after ←? head_of project | λ _, internal_before_workspace_change;
  if bool_decide (head_after = rs_head_before session) then mret (Ok ()) else
  if negb (is_success status)
  then mret (Err (before_workspace_change (lit "Git backend rejected the updated branch"))) else
  _ ←? on_repository NonFastForward project (λ s _ r, (validate_default_ref_update s r (rs_head_before session) head_after, r))
    | λ rejection, before_workspace_change (message rejection);
  if rs_pending_sync session then merge_online_delta session head_after else import_pushed_workspace session.

Definition i64_saturating_succ (v : Z) : Z := Z.min i64_max (v + 1).
(** The snapshot of before the push, if the project seems to have the pushed
    content; it is preserved if it is at any other version. *)
Definition restore_workspace (session : ReceivePackSession) : GitProg (result ReceivePackRecoveryError unit) :=
  let project := rs_project session in
  snapshot ←? statement (λ _, reads (of_workspace (lock_project_content_snapshot project)))
    | RecoveryPersistence LoadWorkspaceSnapshot;
  match cs_workspace_version <$> snapshot with
  | None => mret (Err RecoveryProjectNotFound)
  | Some current =>
      if current =? i64_saturating_succ (rs_workspace_version session) then
        directory ←? write_merge_map (rs_files session) | λ _, RecoveryFilesystem;
        _ ←? sync_repo_documents_to_project project (λ _, Some directory) (Some current) | RecoveryRepositoryImport;
        mret (Ok ())
      else mret (Ok ())
  end.
(** When the branch is restored, and the content if need be. *)
Definition materialize_restored (session : ReceivePackSession) : GitProg (result ReceivePackRecoveryError unit) :=
  let project := rs_project session in
  config ←? statement (λ _, reads (load_repository project)) | RecoveryPersistence LoadRepository;
  match config with
  | None => mret (Err RecoveryRepositoryNotFound)
  | Some config =>
      if gc_pending_sync config then
        _ ←? flush_pending_server_commit storage object_bytes sha256 hex_encode show_Z distribution project
               (Some (rs_actor session)) None None | RecoveryFlush;
        mret (Ok ())
      else
        version ←? sync_project_documents_to_repo storage object_bytes project | RecoveryWorkspaceMaterialization;
        _ ←? record_sync project version false true | RecoveryPersistence RecordSync;
        mret (Ok ())
  end.
Definition restore_rejected_push (session : ReceivePackSession) (restore : bool) :
    GitProg (result ReceivePackRecoveryError unit) :=
  let project := rs_project session in
  _ ←? on_repository RestoreGit project (λ s _ r, restore_head s (rs_head_before session) r) | RecoveryRestoreHead;
  _ ←? (if restore then restore_workspace session else mret (Ok ())) | id;
  materialize_restored session.

Definition recover_backend_failure (session : ReceivePackSession) : GitProg (result ReceivePackRecoveryError unit) :=
  head_after ←? head_of (rs_project session) | λ _, RecoveryGit;
  if bool_decide (head_after = rs_head_before session) then mret (Ok ()) else restore_rejected_push session false.

(** The reason of a rejection that was recovered. *)
Definition finalize (session : ReceivePackSession) (status : Z) : GitProg (result ReceivePackRecoveryError (option text)) :=
  reconciled ← reconcile session status;
  match reconciled with
  | Ok _ => mret (Ok None)
  | Err rejection =>
      _ ←? restore_rejected_push session (pj_workspace_may_have_changed rejection) | id;
      mret (Ok (Some (pj_reason rejection)))
  end.

(** ** http *)

Inductive GitResponse : Type :=
| GitUnauthorized | GitForbidden | GitUnavailable | GitNotFound | GitInternalError | GitGatewayTimeout
| GitRejected (reason : text)
| GitServed (status : Z).

(** [rest] and [query] of the request: what of the protocol it asks for. *)
Definition advertises (service : text) (rest query : text) : bool :=
  ends_with (lit "info/refs") rest && contains_text (lit "service=" ++ service) query.
Definition can_push (rest : text) : bool := ends_with (lit "git-receive-pack") rest.
Definition is_push_flow (rest query : text) : bool := can_push rest || advertises (lit "git-receive-pack") rest query.
Definition is_pull_flow (rest query : text) : bool :=
  ends_with (lit "git-upload-pack") rest || advertises (lit "git-upload-pack") rest query.

Definition authorize_git (actor project : uuid) (need : AccessNeed) : GitProg (result ProjectAuthorizationError unit) :=
  transaction (λ s _ db, ((ensure_project_role_for_user s actor project need (access (gd_workspace db)) 0%nat).1.1, db)).

Definition backend_failure (e : BackendEnd) : option GitResponse :=
  match e with
  | BackendResponded _ => None
  | BackendTimedOut => Some GitGatewayTimeout
  | BackendInterrupted => Some GitUnavailable
  | _ => Some GitInternalError
  end.
Definition recover_failed_backend (session : option ReceivePackSession) : GitProg unit :=
  match session with
  | None => mret ()
  | Some session => _ ← recover_backend_failure session; mret ()
  end.

(** From the answer of the backend to the response. *)
Definition conclude_backend (session : option ReceivePackSession) (e : BackendEnd) : GitProg GitResponse :=
  match e with
  | BackendResponded status =>
      match session with
      | None => mret (GitServed status)
      | Some session =>
          rejection ← finalize session status;
          mret (match rejection with
                | Ok (Some reason) => GitRejected reason
                | Ok None => GitServed status
                | Err _ => GitInternalError
                end)
      end
  | _ => _ ← recover_failed_backend session; mret (default GitInternalError (backend_failure e))
  end.
(** With the lock of the project. *)
Definition serve_repository (actor project : uuid) (rest query : text) : GitProg GitResponse :=
  loaded ← statement (λ _, reads (load_repository project));
  match loaded with
  | Err _ => mret GitInternalError
  | Ok None => mret GitNotFound
  | Ok (Some config) =>
      initialized ← initialize_repository project;
      if match initialized with Ok _ => false | Err _ => true end then mret GitInternalError else
      checked_out ← git_call project (λ s _, checkout_branch s);
      if match checked_out with Ok _ => false | Err _ => true end then mret GitInternalError else
      captured ← (if can_push rest then
                    session ← capture project actor config;
                    mret (match session with Ok session => Ok (Some session) | Err _ => Err () end)
                  else mret (Ok None));
      match captured with
      | Err _ => mret GitInternalError
      | Ok session =>
          flushed ← (if is_pull_flow rest query && gc_pending_sync config
                     then flush_pending_server_commit storage object_bytes sha256 hex_encode show_Z distribution project
                            (Some actor) None None
                     else mret (Ok ()));
          match flushed with
          | Err _ => mret GitInternalError
          | Ok _ =>
              answer ← ask (RunHttpBackend project);
              _ ← on_repository () project (λ _ _ r, (Ok (), ba_effect answer r));
              conclude_backend session (ba_end answer)
          end
      end
  end.
Definition git_http_backend (project : uuid) (rest query : text) : GitProg GitResponse :=
  user ← ask AuthenticateToken;
  match user with
  | Err _ => mret GitInternalError
  | Ok None => mret GitUnauthorized
  | Ok (Some actor) =>
      allowed ← authorize_git actor project (if is_push_flow rest query then GitSync else Read);
      match allowed with
      | Err PermissionDenied => mret GitForbidden
      | Err _ => mret GitUnavailable
      | Ok _ => serve_repository actor project rest query
      end
  end.

(** * A refused push *)

Section refused.
Context `{!Git2Laws} (K : ProjectContentSnapshot → Prop) (session : ReceivePackSession).
Let p := rs_project session.
Local Notation anything := (λ _ _ : GitDB, True).

(** The branch is as before the push, or has a content of the project. *)
Definition taken_back : GitDB → Prop :=
  at_repository p (λ r, head_target r = rs_head_before session ∨ ∃ c, K c ∧ holds_content storage object_bytes c r).

#[local] Instance taken_back_flushing : Flushing storage object_bytes K p anything taken_back.
Proof.
  split.
  - done.
  - intros db db' _ Hd _ (r & Hr & Hh). exists r. by rewrite Hd.
  - intros db r Hr (r0 & Hr0 & Hh). destruct (Hr r0 Hr0) as (r1 & -> & He). exists r1. cbn. rewrite lookup_partial_alter_eq.
    split; [done|]. destruct Hh as [Hh|(c & Hk & Hh)]; [left; congruence|right]. exists c. split; [done|by eapply holds_content_head].
  - intros db c r Hk _ Hh _. apply with_directory_at. right. by exists c.
  - intros db db' c _ Hd _ _ (r & Hr & Hh). exists r. by rewrite Hd.
Qed.

Lemma record_sync_directories s now v a b db :
  gd_directories (record_receive_pack_sync s now p v a b db).2 = gd_directories db.
Proof.
  unfold record_receive_pack_sync. apply (transact_inv (λ db', gd_directories db' = gd_directories db)); [done|].
  assert (Hu : ∀ db0, gd_directories db0 = gd_directories db →
    gd_directories (update_sync_state p SyncClean false None (Some now) db0) = gd_directories db)
    by (intros db0 <-; unfold update_sync_state; by destruct (find_sync_state p db0)).
  assert (Hset : ∀ db0, gd_directories db0 = gd_directories db → gd_directories (set_repository_sync_state p a now db0) = gd_directories db)
    by (intros db0 <-; unfold set_repository_sync_state; by destruct (git_repositories (gd_workspace db0) !! p)).
  apply wp_bind, wp_reads; [done|]. apply wp_bind, wp_writes; [done|].
  destruct (lock_workspace_version p db) as [current|]; [|apply wp_ret; by apply Hu].
  destruct (negb _); [apply wp_ret; by apply Hu|].
  apply wp_bind, wp_writes; [done|]. apply wp_bind.
  destruct b; [apply wp_writes; [done|]|apply wp_ret]; apply wp_bind;
    (destruct a; [apply wp_ret|apply wp_writes; [done|]]); apply wp_ret; cbn; by apply Hset, Hu.
Qed.

(** *** The steps that leave the repositories alone *)

Local Notation anyone := (others (λ _, True) p).
Local Notation keeps_directories d0 prog :=
  (triple (Ev := GitEvent) anyone anything (λ db, gd_directories db !! p = d0) (λ _, True) prog (λ _ _, True)).
Lemma directories_transaction {X} d0 (q : schedule → time → GitDB → X * GitDB) :
  (∀ s now db, gd_directories (q s now db).2 = gd_directories db) → keeps_directories d0 (transaction q).
Proof.
  intros Hq. apply triple_transaction; [apply _|apply _|]. intros db s now Hd _. rewrite Hq. by split_and!.
Qed.
Lemma directories_try {E F A B} d0 (fail : E → F) (prog : GitProg (result E A)) (k : A → GitProg (result F B)) :
  keeps_directories d0 prog → (∀ a, keeps_directories d0 (k a)) → keeps_directories d0 (try_bind fail prog k).
Proof.
  intros Hp Hk. eapply (triple_try anyone anything _ _ _ _ _ (λ _ _, True) (λ _ _, True)); [|apply _|done|done].
  eapply triple_conseq; [exact Hp|done|]. by intros [].
Qed.
Lemma directories_bind {A B} d0 (prog : GitProg A) (k : A → GitProg B) :
  keeps_directories d0 prog → (∀ a, keeps_directories d0 (k a)) → keeps_directories d0 (prog ≫= k).
Proof. intros Hp Hk. by eapply (triple_bind anyone anything). Qed.
Lemma directories_ret {A} d0 (a : A) : keeps_directories d0 (mret a).
Proof. by apply triple_ret; [apply _|]. Qed.
Lemma directories_ask {X} d0 (e : GitEvent X) : keeps_directories d0 (ask e).
Proof. by apply triple_ask; [apply _|]. Qed.
Lemma directories_read {X} d0 (q : time → GitDB → result sqlx_error (X * GitDB)) :
  (∀ now db x db', q now db = Ok (x, db') → db' = db) → keeps_directories d0 (statement q).
Proof.
  intros Hq. apply (directories_transaction d0 (λ s now, autocommit s 0 (q now))). intros s now db. unfold autocommit.
  destruct (q now db) as [[x db']|e] eqn:E; [|done]. apply Hq in E as ->. by destruct (s 0%nat).
Qed.
Lemma store_assets_directories d0 q ids raws assets : keeps_directories d0 (store_assets q ids raws assets).
Proof.
  revert assets. induction raws as [|raw raws IH]; intros assets; cbn [store_assets]; [apply directories_ret|].
  apply directories_bind; [destruct storage; [apply directories_ask|apply directories_ret]|]. intros [?|e]; [apply IH|].
  do 2 (apply directories_bind; [apply directories_ask|intros ?]). apply directories_ret.
Qed.
Lemma write_merge_map_directories d0 files : keeps_directories d0 (write_merge_map files).
Proof. by apply directories_transaction. Qed.
Lemma import_directories d0 q read expected : keeps_directories d0 (sync_repo_documents_to_project q read expected).
Proof.
  unfold sync_repo_documents_to_project. apply directories_try.
  - unfold prepare_repo_import. apply directories_try.
    { apply directories_read. intros now db x db'. unfold fetch_one. destruct (of_workspace _ db); [|done]. by intros [= _ <-]. }
    intros entry. apply directories_try; [by apply directories_transaction|]. intros files.
    apply directories_bind; [apply directories_ask|]. intros ids.
    apply directories_try; [apply store_assets_directories|]. intros assets. apply directories_ret.
  - intros [[ids files] assets]. apply directories_bind.
    { apply directories_transaction. intros s now db. by destruct (apply_repo_import _ _ _ _). }
    intros [x e]. apply directories_bind; [|intros ?; apply directories_ret].
    destruct e; first [apply directories_ret|apply directories_ask].
Qed.
Lemma restore_workspace_directories d0 : keeps_directories d0 (restore_workspace session).
Proof.
  unfold restore_workspace. apply directories_try; [apply directories_read; by intros ? ? ? ? [= _ <-]|]. intros snapshot.
  destruct (cs_workspace_version <$> snapshot) as [current|]; [|apply directories_ret].
  destruct (_ =? _); [|apply directories_ret]. apply directories_try; [apply write_merge_map_directories|]. intros d.
  apply directories_try; [apply import_directories|]. intros ?. apply directories_ret.
Qed.

(** *** The end of a recovery *)

Local Notation known := (others K p).
Local Notation recovers prog Q := (triple (Ev := GitEvent) known anything taken_back (knows K p) prog Q).
Lemma record_sync_recovers v a b :
  triple (Ev := GitEvent) known anything taken_back (λ _, True) (record_sync p v a b) (λ _ _, True).
Proof.
  apply triple_transaction; [apply _|apply _|]. intros db s now (r & Hr & Hh) _. split_and!; [|done|done].
  exists r. split; [|done]. by rewrite record_sync_directories.
Qed.
Lemma materialize_recovers : recovers (materialize_restored session) (λ _ _, True).
Proof.
  unfold materialize_restored. cbv zeta. fold p.
  assert (Hret : ∀ A P (x : A), Stable known P → triple (Ev := GitEvent) known anything taken_back P (mret x) (λ _ _, True))
    by (intros A P x HP; by apply triple_ret).
  apply (spec_kept_try K p anything taken_back); [by apply (kept_read storage object_bytes K K p anything taken_back); apply _|apply _|done|].
  intros [config|]; [|apply Hret, _]. destruct (gc_pending_sync config).
  - eapply (triple_try known anything _ _ _ _ _ (λ _ _, True) (λ _ _, True)); [|apply _|done|intros ?; apply Hret, _].
    eapply triple_conseq; [apply (flush_triple storage object_bytes K K p anything taken_back sha256 hex_encode show_Z distribution
      (Some (rs_actor session)) None None (knows K p) (λ _, True)); try apply _; try done|done|by intros []].
    intros db c Hk. apply Hk.
  - eapply (triple_try known anything _ _ _ _ _ (λ _ _, True) (λ _ _, True)); [|apply _|done|].
    { eapply triple_conseq; [apply (sync_documents_spec storage object_bytes K K p anything taken_back (knows K p)); [apply _|]|done|by intros []].
      intros db c Hk. apply Hk. }
    intros v. eapply (triple_try known anything _ _ _ _ _ (λ _ _, True) (λ _ _, True)); [|apply _|done|intros ?; apply Hret, _].
    eapply triple_conseq; [apply record_sync_recovers|done|by intros []].
Qed.
End refused.

(** *** The runs of a recovery *)

Section recovered.
Context `{!Git2Laws}.
Local Notation anything := (λ _ _ : GitDB, True).
Implicit Types (session : ReceivePackSession) (db : GitDB).

(** The project has had the content in one of the states. *)
Definition content_in (p : uuid) (dbs : list GitDB) (c : ProjectContentSnapshot) : Prop :=
  ∃ db : GitDB, db ∈ dbs ∧ lock_project_content_snapshot p (gd_workspace db) = Some c.
Lemma taken_back_mono session (K K' : ProjectContentSnapshot → Prop) db :
  (∀ c, K c → K' c) → taken_back K session db → taken_back K' session db.
Proof. intros HK. apply at_repository_mono. intros r [?|(c & ? & ?)]; [by left|right]. exists c. auto. Qed.

Lemma restored_run session db dbs db' :
  run_among (others (λ _, True) (rs_project session))
    (on_repository RestoreGit (rs_project session) (λ s _ r, restore_head s (rs_head_before session) r)) db dbs (Done (Ok ())) db' →
  at_repository (rs_project session) (λ r, head_target r = rs_head_before session) db'.
Proof.
  intros Hr. refine (proj2 (run_among_result _ (others (λ _, True) (rs_project session)) anything (λ _, True) _ _
    (λ x db, x = Ok () → at_repository (rs_project session) (λ r, head_target r = rs_head_before session) db) _ _ _ Hr _ _ I _) eq_refl);
    [done|done|].
  apply safe_transaction. intros db1 s now _ _. split_and!; [done|done|]. intros db2 Ho _.
  destruct (gd_directories db1 !! rs_project session) as [r|] eqn:Er; [|done].
  pose proof (restored_head s (rs_head_before session) r) as Hh. destruct (restore_head _ _ _) as [x r'] eqn:Ex. cbn [fst snd] in *.
  intros ->. exists r'. rewrite (ot_directory _ _ _ _ Ho). cbn. rewrite lookup_insert_eq. auto.
Qed.

Lemma restoration_run session restore db dbs db' :
  run_among (others (λ _, True) (rs_project session)) (restore_rejected_push session restore) db dbs (Done (Ok ())) db' →
  taken_back (content_in (rs_project session) dbs) session db'.
Proof.
  set (p := rs_project session). set (K := content_in p dbs). unfold restore_rejected_push. cbv zeta. fold p.
  intros ([] & dbs1 & dbs2 & db1 & H1 & H2 & _ & Hs2)%run_among_try. apply restored_run in H1 as (r & Hr & Hh).
  apply run_among_try in H2 as ([] & dbs3 & dbs4 & db2 & H3 & H4 & _ & Hs4).
  assert (Hr2 : gd_directories db2 !! p = Some r).
  { destruct (run_among_result _ (others (λ _, True) p) anything (λ db, gd_directories db !! p = Some r) _ _ (λ _ _, True) _ _ _ H3) as [? _];
      [done|intros ? ? Ho <-; apply Ho|done| |done].
    destruct restore; [by apply (restore_workspace_directories session)|by apply (directories_ret session)]. }
  destruct (run_among_result _ (others K p) anything (taken_back K session) _ _ (λ _ _, True) _ _ _ H4) as [Hend _]; [..|done].
  - intros da dc Hin Ho. apply others_known; [done|]. intros c Hc. exists dc. split; [|done]. by apply Hs2, Hs4.
  - intros da dc Ho (r0 & Hr0 & Hh0). exists r0. split; [|done]. etrans; [apply Ho|exact Hr0].
  - exists r. split; [done|by left].
  - apply (materialize_recovers K session).
    + exists r. split; [done|by left].
    + intros c Hc. exists db2. split; [|done]. apply Hs2, Hs4. by eapply run_among_head.
Qed.

Lemma finalize_run session status reason db dbs db' :
  run_among (others (λ _, True) (rs_project session)) (finalize session status) db dbs (Done (Ok (Some reason))) db' →
  taken_back (content_in (rs_project session) dbs) session db'.
Proof.
  unfold finalize. intros ([[]|rejection] & dbs1 & dbs2 & db1 & _ & H2 & _ & Hs2)%run_among_bind.
  { by apply run_among_done in H2. }
  apply run_among_try in H2 as ([] & dbs3 & dbs4 & db2 & H3 & H4 & Hs3 & _). apply restoration_run in H3.
  destruct (run_among_result _ (others (λ _, True) (rs_project session)) anything
    (taken_back (content_in (rs_project session) dbs3) session) _ _ (λ _ _, True) _ _ _ H4) as [Hend _]; [done| |done|done|].
  - intros da dc Ho (r0 & Hr0 & Hh0). exists r0. split; [|done]. etrans; [apply Ho|exact Hr0].
  - eapply taken_back_mono; [|exact Hend]. intros c (dbm & Hin & Hc). exists dbm. split; [|done]. by apply Hs2, Hs3.
Qed.

(** C40: a push that is answered with a rejection is taken back: whatever the
    backend did to the repository, whatever happens to the tables between the
    steps (the operations of the workspace but imports, and the programs of
    other projects, as in [GitSyncTheorems]), and however far the push had come, the branch
    ends where it was when the push began, or with a content that the project
    had in a state of the run, as it was staged. *)
Theorem refused_pushes_are_taken_back session e reason db dbs db' :
  run_among (others (λ _, True) (rs_project session)) (conclude_backend (Some session) e) db dbs
    (Done (GitRejected reason)) db' →
  ∃ r, gd_directories db' !! rs_project session = Some r
    ∧ (head_target r = rs_head_before session
       ∨ ∃ dbm c, dbm ∈ dbs ∧ lock_project_content_snapshot (rs_project session) (gd_workspace dbm) = Some c
                  ∧ holds_content storage object_bytes c r).
Proof.
  intros Hrun. cut (taken_back (content_in (rs_project session) dbs) session db').
  { intros (r & Hr & [Hh|(c & (dbm & ? & ?) & ?)]); exists r; (split; [done|]); [by left|right; by exists dbm, c]. }
  unfold conclude_backend in Hrun. destruct e;
    try (apply run_among_bind in Hrun as (? & ? & ? & ? & _ & Hrun & _); by apply run_among_done in Hrun).
  apply run_among_bind in Hrun as (rejection & dbs1 & dbs2 & db1 & H1 & H2 & Hs1 & _).
  pose proof (run_among_done _ _ _ _ _ _ H2) as He. destruct rejection as [[why|]|]; try done.
  apply finalize_run in H1.
  destruct (run_among_result _ (others (λ _, True) (rs_project session)) anything
    (taken_back (content_in (rs_project session) dbs1) session) _ _ (λ _ _, True) _ _ _ H2) as [Hend _]; [done| |done|done|].
  - intros da dc Ho (r0 & Hr0 & Hh0). exists r0. split; [|done]. etrans; [apply Ho|exact Hr0].
  - eapply taken_back_mono; [|exact Hend]. intros c (dbm & Hin & Hc). exists dbm. split; [|done]. by apply Hs1.
Qed.
End recovered.
End push.

(** ** A push that is refused

    The repository of the flushed project receives a commit, the backend answers
    with a failure, and meanwhile the project is edited. *)

Definition pushed_files : gmap text bytes := {[ lit "main.typ" := utf8 (lit "= Pushed") ]}.
Definition push_effect (r : SmallRepository) : SmallRepository :=
  MkSmall (MkTree pushed_files ∅) (Some ((pushed_files, lit "pushed") :: default [] (sm_head r))) pushed_files.
Definition octet (_ : text) : text := lit "application/octet-stream".
Definition no_uuid (u : uuid) : text := [u].
Definition no_merge (_ _ _ _ : text) : option text := None.

Definition received : GitDB := flushed.2 <| gd_directories := alter push_effect notes (gd_directories flushed.2) |>.
Definition the_session : ReceivePackSession :=
  MkSession notes alice false (gd_directories flushed.2 !! notes ≫= head_target)
    (from_option cs_workspace_version 0 (lock_project_content_snapshot notes (gd_workspace flushed.2)))
    (default ∅ (c ← lock_project_content_snapshot notes (gd_workspace flushed.2);
                workspace_snapshot_to_merge_map false nothing_stored always_available c)).
Definition operate (now : time) (op : WorkspaceOp) (db : GitDB) : GitDB :=
  db <| gd_workspace := run_workspace retention healthy now op (gd_workspace db) |>.
Definition edited_meanwhile : GitDB := operate 6 (edit Update (lit " online")) received.
Definition saved_then : GitDB := operate 7 (OReconcile main_stream) edited_meanwhile.
Definition failing_backend : Prog GitDB GitEvent GitResponse :=
  conclude_backend false nothing_stored no_hash no_hex no_decimal no_uuid octet no_merge plain_distribution
    (Some the_session) (BackendResponded 500).
Definition refused : Prog GitDB GitEvent GitResponse * GitDB := run_steps all_objects healthy 8 0 60 failing_backend saved_then.
Definition response (prog : Prog GitDB GitEvent GitResponse) : option GitResponse :=
  match prog with Done r => Some r | _ => None end.
Example refused_head :
  response refused.1 = Some (GitRejected (lit "Git backend rejected the updated branch"))
  ∧ (small_head_files <$> gd_directories refused.2 !! notes) = Some {[ lit "main.typ" := utf8 (lit "= Notes draft online") ]}.
Proof. split; vm_compute; reflexivity. Qed.

Lemma response_done prog r : response prog = Some r → prog = Done r.
Proof. destruct prog; [|done..]. by intros [= ->]. Qed.
Lemma operate_others now op db :
  StreamInv (gd_workspace db) → op_ok op → (∀ p, ¬ imports_into p op) →
  others (λ _, True) notes db (operate now op db) ∧ StreamInv (gd_workspace (operate now op db)).
Proof.
  intros HI Hok Hop. split; [by apply workspace_others|].
  by destruct (run_workspace_step retention healthy now op (gd_workspace db) Hok HI).
Qed.
Lemma reachable_streams db tasks f :
  small_reachable (MkGitWorld db tasks) → StreamInv (gd_workspace (db <| gd_directories := f |>)).
Proof. intros Hr. exact (gi_streams _ _ _ (git_reachable_inv _ _ _ _ _ _ _ _ _ Hr)). Qed.
Lemma received_streams : StreamInv (gd_workspace received).
Proof. exact (reachable_streams flushed.2 _ (alter push_effect notes (gd_directories flushed.2)) flushed_reachable). Qed.
Lemma refused_run :
  ∃ dbs, run_among (others (λ _, True) notes) failing_backend received dbs
    (Done (GitRejected (lit "Git backend rejected the updated branch"))) refused.2.
Proof.
  destruct (operate_others 6 (edit Update (lit " online")) received received_streams) as [H1 I1]; [done|by intros ? []|].
  destruct (operate_others 7 (OReconcile main_stream) edited_meanwhile I1) as [H2 _]; [done|by intros ? []|].
  destruct (run_among_steps (others (λ _, True) notes) failing_backend refused.1 saved_then refused.2) as [dbs Hr].
  { rewrite <-(surjective_pairing refused). apply run_steps_reach. }
  rewrite (response_done _ _ (proj1 refused_head)) in Hr.
  eexists. eapply among_others; [exact H1|]. eapply among_others; [exact H2|exact Hr].
Qed.

Lemma refused_pushes_are_taken_back_witness :
  ∃ (dbs : list GitDB) r, gd_directories refused.2 !! notes = Some r
    ∧ (head_target r = rs_head_before the_session
       ∨ ∃ dbm c, dbm ∈ dbs ∧ lock_project_content_snapshot notes (gd_workspace dbm) = Some c
                  ∧ holds_content false nothing_stored c r).
Proof.
  destruct refused_run as [dbs Hr]. exists dbs.
  exact (refused_pushes_are_taken_back false nothing_stored no_hash no_hex no_decimal no_uuid octet no_merge
    plain_distribution the_session (BackendResponded 500) (lit "Git backend rejected the updated branch") received dbs refused.2 Hr).
Defined.

(** ** Edits that a push overtakes

    Three runs in which an online edit, saved and answered, is neither in the
    project nor pending afterwards. *)

Definition push_answers (i : nat) (X : Type) (e : GitEvent X) : X :=
  match e in GitEvent X return X with
  | RunHttpBackend _ => MkBackendAnswer push_effect (BackendResponded 200)
  | e => all_objects i _ e
  end.
Definition saved_edit (db : GitDB) : GitDB := operate 7 (OReconcile main_stream) (operate 6 (edit Update (lit " online")) db).
Definition main_text (db : GitDB) : option (option text) :=
  (λ c, cs_documents c !! lit "main.typ") <$> lock_project_content_snapshot notes (gd_workspace db).
Definition head_text (db : GitDB) : option (option text) :=
  (λ r, small_head_files r !! lit "main.typ") <$> gd_directories db !! notes.
Definition marked (db : GitDB) : option bool := repository_pending_sync notes db.
Definition then_to_end {A} (now : time) (r : Prog GitDB GitEvent A * GitDB) : Prog GitDB GitEvent A * GitDB :=
  run_steps push_answers healthy now 0 80 r.1 (saved_edit r.2).

(** The edit comes between [load_repository] and the snapshot of [capture]: the
    session holds the edit, but takes the project for one without. *)
Definition overtaken : Prog GitDB GitEvent GitResponse * GitDB :=
  then_to_end 8 (run_steps push_answers healthy 6 0 3
    (git_http_backend false nothing_stored no_hash no_hex no_decimal no_uuid octet no_merge plain_distribution
       notes (lit "git-receive-pack") []) flushed.2).
Example an_edit_before_the_capture_is_overwritten :
  response overtaken.1 = Some (GitServed 200) ∧ main_text overtaken.2 = Some (Some (lit "= Pushed"))
  ∧ head_text overtaken.2 = Some (Some (utf8 (lit "= Pushed"))) ∧ marked overtaken.2 = Some false.
Proof. split_and!; vm_compute; reflexivity. Qed.

(** The edit comes after the capture of a push whose import fails before it is
    applied: [restore_workspace] takes the version of the edit for that of the
    import, and puts back the content of before. *)
Definition restoring : Prog GitDB GitEvent (result ReceivePackRecoveryError unit) :=
  restore_rejected_push false nothing_stored no_hash no_hex no_decimal no_uuid octet plain_distribution the_session true.
Definition put_back : Prog GitDB GitEvent (result ReceivePackRecoveryError unit) * GitDB := then_to_end 8 (restoring, received).
Example an_edit_beside_a_failed_import_is_overwritten :
  finished put_back.1 = true ∧ main_text (saved_edit received) = Some (Some (lit "= Notes draft online"))
  ∧ main_text put_back.2 = Some (Some (lit "= Notes draft")).
Proof. split_and!; vm_compute; reflexivity. Qed.

(** The edit comes between the reading of the flag and the snapshot that is
    written to the worktree: it is recorded as synchronised, and not committed. *)
Definition unmarked : Prog GitDB GitEvent (result ReceivePackRecoveryError unit) * GitDB :=
  then_to_end 8 (run_steps push_answers healthy 6 0 2
    (restore_rejected_push false nothing_stored no_hash no_hex no_decimal no_uuid octet plain_distribution the_session false) received).
Example an_edit_beside_a_restoration_is_unmarked :
  finished unmarked.1 = true ∧ main_text unmarked.2 = Some (Some (lit "= Notes draft online"))
  ∧ head_text unmarked.2 = Some (Some (utf8 (lit "= Notes draft"))) ∧ marked unmarked.2 = Some false.
Proof. split_and!; vm_compute; reflexivity. Qed.
