(* ===== verification/ObjectCleanup.v ===== *)
(** * Object storage: staging, removal and the cleanup queue

    object_cleanup, object_storage and the staging around the transactions of
    workspace (import_assets, project_asset_upload, project_file_creation,
    project_copy) and versioning::materialization.  Objects are put before the
    transaction that refers to them and removed after the one that drops them;
    what may happen in between is a task that other tasks interleave with.
    The object store (S3) keeps a set of keys; a request may be refused, or
    served and its answer lost. *)
From S2P Require Import Prelude Store Text Paths ProcessingModel ProcessingAdmission.
From S2P Require Import AccessModel WorkspaceModel.
From S2P Require Import WorkspaceStatements WorkspaceFiles WorkspaceProjects.
From S2P Require Import Collaboration WorkspaceSystem.

Open Scope Z_scope.

(** ** object_storage *)

Definition put_object (v : verdict) (key : text) (objects : gset text) : bool * gset text :=
  match v with
  | Served => (true, {[key]} ∪ objects)
  | Refused => (false, objects)
  | Unacknowledged => (false, {[key]} ∪ objects)
  end.
Definition delete_object (v : verdict) (key : text) (objects : gset text) : bool * gset text :=
  match v with
  | Served => (true, objects ∖ {[key]})
  | Refused => (false, objects)
  | Unacknowledged => (false, objects ∖ {[key]})
  end.

(** ** object_cleanup: the queue *)

Definition DELETE_LOCK_TIMEOUT_MINUTES : Z := 15.

Definition retry_delay_seconds (attempt_count : Z) : Z :=
  let exponent := Z.max 0 (Z.min 8 attempt_count) in Z.min (5 * 2 ^ exponent) 900.

(** [enqueue_object_deletion], outside any transaction: the last error stays. *)
Definition requeued_deletion (now : time) (row : option DeletionRow) : DeletionRow :=
  match row with
  | None => MkDeletionRow now 0 None None now now
  | Some r => r <| dq_next_attempt_at := Z.min (dq_next_attempt_at r) now |>
                <| dq_locked_at := None |> <| dq_updated_at := now |>
  end.
Definition requeue_object_deletion (now : time) (key : text) (db : WorkspaceDB) : WorkspaceDB :=
  db <| deletion_queue := <[key := requeued_deletion now (deletion_queue db !! key)]> (deletion_queue db) |>.

Definition object_is_pinned (key : text) (processing : ProcessingModel.DB) : bool :=
  exists_row (λ k _, bool_decide (k.2 = key)) (pins processing).

Definition is_due (now : time) (processing : ProcessingModel.DB) (key : text) (r : DeletionRow) : bool :=
  (dq_next_attempt_at r <=? now)
  && match dq_locked_at r with
     | None => true
     | Some locked => locked <=? now - seconds (60 * DELETE_LOCK_TIMEOUT_MINUTES)
     end
  && negb (object_is_pinned key processing).

(** [claim_due_object]: the first due row by [next_attempt_at], [created_at]. *)
Definition due_object (now : time) (processing : ProcessingModel.DB) (db : WorkspaceDB) :
    option (text * DeletionRow) :=
  first_by (λ kr : text * DeletionRow, dq_next_attempt_at kr.2) (λ kr, dq_created_at kr.2)
    (select (is_due now processing) (deletion_queue db)).
Definition claimed_deletion (now : time) (r : DeletionRow) : DeletionRow :=
  r <| dq_locked_at := Some now |> <| dq_attempt_count := dq_attempt_count r + 1 |>
    <| dq_updated_at := now |>.
Definition claim_due_object (now : time) (processing : ProcessingModel.DB) (db : WorkspaceDB) :
    result sqlx_error (option (text * Z) * WorkspaceDB) :=
  match due_object now processing db with
  | Some (key, r) =>
      if i32_max <=? dq_attempt_count r then Err OutOfRange else
      let r := claimed_deletion now r in
      Ok (Some (key, dq_attempt_count r), db <| deletion_queue := <[key := r]> (deletion_queue db) |>)
  | None => Ok (None, db)
  end.

Definition deferred_deletion (now : time) (attempt_count : Z) (r : DeletionRow) : DeletionRow :=
  r <| dq_next_attempt_at := now + seconds (retry_delay_seconds attempt_count) |>
    <| dq_locked_at := None |> <| dq_last_error := Some (lit "object_store_delete_failed") |>
    <| dq_updated_at := now |>.
Definition defer_object_deletion (now : time) (key : text) (attempt_count : Z) (db : WorkspaceDB) :
    WorkspaceDB :=
  db <| deletion_queue := alter (deferred_deletion now attempt_count) key (deletion_queue db) |>.

(** [delete from object_deletion_queue where object_key = $1]. *)
Definition clear_object_deletion (key : text) (db : WorkspaceDB) : WorkspaceDB :=
  db <| deletion_queue := delete key (deletion_queue db) |>.

(** ** Operations with objects *)

(** The keys an operation has put before its transaction. *)
Definition op_keys (op : WorkspaceOp) : list text :=
  match op with
  | OCreateProject g => wa_object_key <$> g_assets g
  | OCreateFile _ path File _ _ _ object_key _ _ _ =>
      if is_document_text_path path then [] else [object_key]
  | OUploadAsset _ _ _ _ object_key _ _ _ _ => [object_key]
  | OImport c => wa_object_key <$> rc_assets c
  | _ => []
  end.

Section tasks.
Context `{Yrs} (update_retention : Z).

(** How the transaction of an operation with objects ended; a committed one
    goes on to remove the objects it returns.  Operations without objects have
    nothing to do after theirs, however it ended. *)
Definition run_stored (s : schedule) (now : time) (op : WorkspaceOp) (db : WorkspaceDB) :
    TxEnd (list text) :=
  match op with
  | OCreateProject g => transact_end s (create_project_transaction s g) db
  | OCreateFile project path kind content document asset object_key content_type storage actor =>
      transact_end s (create_project_file_transaction s now project path document
        (prepare_project_file kind (is_document_text_path path) content asset object_key content_type
           storage) actor) db
  | ODeleteFile project path actor =>
      transact_end s (delete_project_file_transaction s now project path actor) db
  | OUploadAsset id project path revision object_key content_type size inline_data actor =>
      transact_end s (upload_project_asset_transaction s now id project path revision object_key
        content_type size inline_data actor) db
  | ODeleteAsset project asset actor =>
      transact_end s (delete_project_asset_transaction s now project asset actor) db
  | OImport c => transact_end s (apply_repo_import_transaction s now c) db
  | _ => Committed []
  end.

(** ** Tasks *)

(** What a process still has to do, at the grain of one request. *)
Inductive Task : Type :=
| Staging (todo staged : list text) (op : WorkspaceOp)
| Cleaning (keys : list text)
| CleaningFailed (key : text) (keys : list text)
| Removing (keys : list text)
| RemovingUnpinned (key : text) (keys : list text)
| RemovingDeleted (key : text) (keys : list text)
| Sweeping
| SweepingClaimed (key : text) (attempt_count : Z)
| SweepingDeleted (key : text)
| SweepingFailed (key : text) (attempt_count : Z).

Record Site : Type := MkSite {
  st_workspace : WorkspaceDB; st_processing : ProcessingModel.DB; st_objects : gset text }.
#[export] Instance Site_eta : Eta Site := λ st, MkSite (st_workspace st) (st_processing st) (st_objects st).

(** One request of a task.  [Staging]: put the objects, then the transaction;
    a failed put, or a transaction that certainly did not commit, is cleaned
    up; after a commit whose answer was lost nothing is.  [Cleaning]:
    [cleanup_uncommitted_objects].  [Removing]: [delete_queued_objects_now].
    [Sweeping]: the cleanup worker. *)
Definition task_step (s : schedule) (now : time) (t : Task) (st : Site) : option Task * Site :=
  let db := st_workspace st in
  let with_db r := st <| st_workspace := r |> in
  match t with
  | Staging (key :: todo) staged op =>
      let '(stored, objects) := put_object (s 0%nat) key (st_objects st) in
      (Some (if stored : bool then Staging todo (staged ++ [key]) op else Cleaning (key :: staged)),
       st <| st_objects := objects |>)
  | Staging [] staged op =>
      (match run_stored s now op db with
       | NotCommitted => Some (Cleaning staged)
       | CommitFailed => None
       | Committed keys => Some (Removing (filter (λ key, is_external_key key = true) keys))
       end, with_db (run_workspace update_retention s now op db))
  | Cleaning [] => (None, st)
  | Cleaning (key :: keys) =>
      if starts_with (lit "inline://") key then (Some (Cleaning keys), st) else
      let '(deleted, objects) := delete_object (s 0%nat) key (st_objects st) in
      (Some (if deleted : bool then Cleaning keys else CleaningFailed key keys),
       st <| st_objects := objects |>)
  | CleaningFailed key keys =>
      (Some (Cleaning keys),
       with_db (autocommit s 0 (writes (requeue_object_deletion now key)) db).2)
  | Removing [] => (None, st)
  | Removing (key :: keys) =>
      (Some (match s 0%nat with
             | Served => if object_is_pinned key (st_processing st) then Removing keys
                         else RemovingUnpinned key keys
             | _ => Removing keys
             end), st)
  | RemovingUnpinned key keys =>
      let '(deleted, objects) := delete_object (s 0%nat) key (st_objects st) in
      (Some (if deleted : bool then RemovingDeleted key keys else Removing keys),
       st <| st_objects := objects |>)
  | RemovingDeleted key keys =>
      (Some (Removing keys), with_db (autocommit s 0 (writes (clear_object_deletion key)) db).2)
  | Sweeping =>
      let '(claimed, db) := autocommit s 0 (claim_due_object now (st_processing st)) db in
      (Some (match claimed with Ok (Some (key, n)) => SweepingClaimed key n | _ => Sweeping end),
       with_db db)
  | SweepingClaimed key n =>
      let '(deleted, objects) := delete_object (s 0%nat) key (st_objects st) in
      (Some (if deleted : bool then SweepingDeleted key else SweepingFailed key n),
       st <| st_objects := objects |>)
  | SweepingDeleted key =>
      (Some Sweeping, with_db (autocommit s 0 (writes (clear_object_deletion key)) db).2)
  | SweepingFailed key n =>
      (Some Sweeping, with_db (autocommit s 0 (writes (defer_object_deletion now key n)) db).2)
  end.

(** [capture_project_snapshot]: the assets of the snapshot are pinned for the
    job in the transaction that reads it. *)
Definition capture_project_snapshot (s : schedule) (now : time) (job project : uuid) (st : Site) : Site :=
  match lock_project_content_snapshot project (st_workspace st) with
  | Some snapshot =>
      st <| st_processing := (capture_pins s now job
              ((λ pa, ca_object_key pa.2) <$> map_to_list (cs_assets snapshot)) (st_processing st)).2 |>
  | None => st
  end.

(** ** The system *)

(** Running tasks interleave; [w_drawn] are the object keys drawn so far. *)
Record World : Type := MkWorld { w_site : Site; w_tasks : list Task; w_drawn : gset text }.

(** With an object store, no asset is stored inline. *)
Definition stored_op (op : WorkspaceOp) : Prop :=
  NoDup (op_keys op) ∧ Forall (λ key, is_external_key key = true) (op_keys op)
  ∧ match op with OCreateFile _ _ _ _ _ _ _ _ storage _ => storage = true | _ => True end.

Inductive world_step : World → World → Prop :=
| step_task s now l1 t l2 w :
    w_tasks w = l1 ++ t :: l2 →
    world_step w (MkWorld (task_step s now t (w_site w)).2
                    (l1 ++ option_list (task_step s now t (w_site w)).1 ++ l2) (w_drawn w))
| step_request op w :
    stored_op op → Forall (λ key, key ∉ w_drawn w) (op_keys op) →
    world_step w (MkWorld (w_site w) (Staging (op_keys op) [] op :: w_tasks w)
                    (list_to_set (op_keys op) ∪ w_drawn w))
| step_worker w : world_step w (MkWorld (w_site w) (Sweeping :: w_tasks w) (w_drawn w))
| step_crash l1 t l2 w :
    w_tasks w = l1 ++ t :: l2 → world_step w (MkWorld (w_site w) (l1 ++ l2) (w_drawn w))
| step_capture s now job project w :
    world_step w (MkWorld (capture_project_snapshot s now job project (w_site w)) (w_tasks w) (w_drawn w))
| step_processing processing w :
    (∀ job key, is_Some (pins processing !! (job, key)) →
                is_Some (pins (st_processing (w_site w)) !! (job, key))) →
    world_step w (MkWorld (MkSite (st_workspace (w_site w)) processing (st_objects (w_site w)))
                    (w_tasks w) (w_drawn w)).
End tasks.
