(* ===== verification/ObjectSteps.v ===== *)
(** * Object storage: what tasks do to keys, references and pins

    The object keys the assets refer to and the keys waiting for removal, and
    what each statement and block does to them. *)
From S2P Require Import Prelude Store Text Paths AccessModel AccessGrants WorkspaceModel WorkspaceStatements.
From S2P Require Import WorkspaceFiles WorkspaceProjects Collaboration WorkspaceFrames WorkspaceEffects.
From S2P Require Import WorkspaceSystem ObjectCleanup.

Open Scope Z_scope.

(** ** Blocks that keep a relation *)

Definition keeps {DB R A} (P : relation DB) (m : Tx DB R A) : Prop :=
  ∀ db n, wp m (λ _, True) (λ _ db' _, P db db') db n.

Section keeps.
Context {DB R : Type} (P : relation DB) `{!PreOrder P}.

Lemma keeps_ret {A} (a : A) : keeps P (mret a : Tx DB R A).
Proof. intros db n. apply wp_ret. reflexivity. Qed.
Lemma keeps_early {A} (r : R) : keeps P (early r : Tx DB R A).
Proof. intros db n. by apply wp_early. Qed.
Lemma keeps_exec {A} s fail (q : DB → result sqlx_error (A * DB)) :
  (∀ db a db', q db = Ok (a, db') → P db db') → keeps (R := R) P (exec s fail q).
Proof. intros Hq db n. apply wp_exec; [done|]. eauto. Qed.
Lemma keeps_bind {A B} (m : Tx DB R A) (k : A → Tx DB R B) :
  keeps P m → (∀ a, keeps P (k a)) → keeps P (m ≫= k).
Proof.
  intros Hm Hk db n. apply wp_bind. eapply wp_mono; [apply Hm|done|]. intros a db1 n1 H1.
  eapply wp_mono; [apply Hk|done|]. intros b db2 n2 H2. etrans; [exact H1|exact H2].
Qed.
Lemma keeps_for {A} (l : list A) (f : A → Tx DB R unit) :
  (∀ x, keeps P (f x)) → keeps P (tx_for l f).
Proof. intros Hf. induction l as [|x l IH]; simpl; [apply keeps_ret|]. by apply keeps_bind. Qed.

Lemma keeps_transact s fail (m : Tx DB R R) db : keeps P m → P db (transact s fail m db).2.
Proof. intros Hm. apply (transact_inv (P db)); [reflexivity|]. apply Hm. Qed.
End keeps.

(** ** Keys *)

Definition referenced (key : text) (db : WorkspaceDB) : Prop :=
  ∃ id a, assets db !! id = Some a ∧ a_object_key a = key.
Definition queued (key : text) (db : WorkspaceDB) : Prop := is_Some (deletion_queue db !! key).

(** The unique constraints of [project_assets]. *)
Record AssetInv (db : WorkspaceDB) : Prop := {
  ai_paths : ∀ i j a b, assets db !! i = Some a → assets db !! j = Some b →
    a_project a = a_project b → a_path a = a_path b → i = j;
  ai_keys : ∀ i j a b, assets db !! i = Some a → assets db !! j = Some b →
    a_object_key a = a_object_key b → i = j;
}.

Definition shelved (db db' : WorkspaceDB) : Prop :=
  assets db' = assets db ∧ deletion_queue db' = deletion_queue db.
#[export] Instance shelved_preorder : PreOrder shelved.
Proof. split; [by split|]. intros x y z [? ?] [? ?]. split; congruence. Qed.

(** The keys in [gone] are let go, those in [added] taken up. *)
Record asset_change (gone added : list text) (db db' : WorkspaceDB) : Prop := {
  ac_inv : AssetInv db → AssetInv db';
  ac_queue : deletion_queue db' = deletion_queue db;
  ac_refs : ∀ key, referenced key db' → referenced key db ∨ key ∈ added;
  ac_kept : ∀ key, referenced key db → referenced key db' ∨ key ∈ gone;
  ac_gone : AssetInv db → ∀ key, key ∈ gone → key ∉ added → ¬ referenced key db';
}.

Lemma shelved_change db db' : shelved db db' → asset_change [] [] db db'.
Proof.
  intros [Ha Hq]. split; [|done|..].
  - intros [Hp Hk]. split; rewrite Ha; [exact Hp|exact Hk].
  - unfold referenced. rewrite Ha. by left.
  - unfold referenced. rewrite Ha. by left.
  - intros _ key Hin. by apply elem_of_nil in Hin.
Qed.

Lemma change_trans g1 g2 a1 a2 db1 db2 db3 :
  asset_change g1 a1 db1 db2 → asset_change g2 a2 db2 db3 → asset_change (g1 ++ g2) (a1 ++ a2) db1 db3.
Proof.
  intros [I1 Q1 R1 K1 G1] [I2 Q2 R2 K2 G2]. split; [auto|congruence|..].
  - intros key Hk. rewrite elem_of_app. destruct (R2 key Hk) as [Hk'|]; [|by auto].
    destruct (R1 key Hk'); auto.
  - intros key Hk. rewrite elem_of_app. destruct (K1 key Hk) as [Hk'|]; [|by auto].
    destruct (K2 key Hk'); auto.
  - intros HI key Hg [Ha1 Ha2]%not_elem_of_app. apply elem_of_app in Hg as [Hg|Hg]; [|by apply G2; auto].
    intros Hr. destruct (R2 key Hr) as [Hr'|]; [|done]. by apply (G1 HI key).
Qed.

Lemma change_then_shelved g a db1 db2 db3 :
  asset_change g a db1 db2 → shelved db2 db3 → asset_change g a db1 db3.
Proof.
  intros Hc Hs. rewrite <-(app_nil_r g), <-(app_nil_r a).
  eapply change_trans; [exact Hc|by apply shelved_change].
Qed.

Lemma change_after_shelved g a db1 db2 db3 :
  shelved db1 db2 → asset_change g a db2 db3 → asset_change g a db1 db3.
Proof. intros Hs Hc. by eapply (change_trans [] g [] a); [apply shelved_change|]. Qed.

(** ** Statements on assets *)

Definition keys_where (P : uuid → Asset → bool) (db : WorkspaceDB) : list text :=
  (λ ka, a_object_key ka.2) <$> select P (assets db).

Lemma elem_of_keys_where P db key :
  key ∈ keys_where P db ↔ ∃ id a, assets db !! id = Some a ∧ P id a = true ∧ a_object_key a = key.
Proof.
  unfold keys_where. rewrite list_elem_of_fmap. split.
  - intros ([id a] & -> & [? ?]%elem_of_select). by exists id, a.
  - intros (id & a & Ha & HP & <-). exists (id, a). split; [done|]. by apply elem_of_select.
Qed.

Lemma keys_where_referenced P db key : key ∈ keys_where P db → referenced key db.
Proof. rewrite elem_of_keys_where. intros (id & a & ? & _ & ?). by exists id, a. Qed.

Lemma delete_assets_change P db :
  asset_change (keys_where P db) [] db (db <| assets := delete_rows P (assets db) |>).
Proof.
  split; [|done|..].
  - intros [Hp Hk]. split; cbn; intros i j a b [Ha _]%lookup_delete_rows_Some [Hb _]%lookup_delete_rows_Some;
      [by eapply Hp|by eapply Hk].
  - intros key (id & a & [Ha _]%lookup_delete_rows_Some & <-). left. by exists id, a.
  - intros key (id & a & Ha & <-). destruct (P id a) eqn:HP.
    + right. apply elem_of_keys_where. by exists id, a.
    + left. exists id, a. split; [|done]. by apply lookup_delete_rows_Some.
  - intros [_ Hk] key (id & a & Ha & HP & <-)%elem_of_keys_where _ (j & b & [Hb HPb]%lookup_delete_rows_Some & Hkey).
    assert (id = j) as -> by (by eapply Hk). congruence.
Qed.

Lemma target_asset_None project path db :
  head (select (asset_at project path) (assets db)) = None →
  ∀ k a, assets db !! k = Some a → ¬ (a_project a = project ∧ a_path a = path).
Proof.
  intros Hh k a Ha Hat. assert ((k, a) ∈ select (asset_at project path) (assets db)) as Hin.
  { apply elem_of_select. split; [done|]. by apply bool_decide_eq_true. }
  destruct (select _ _); [by apply elem_of_nil in Hin|done].
Qed.

Lemma target_asset_Some project path db k a :
  head (select (asset_at project path) (assets db)) = Some (k, a) →
  assets db !! k = Some a ∧ a_project a = project ∧ a_path a = path.
Proof. intros [? [??]%bool_decide_eq_true]%head_mem%elem_of_select. done. Qed.

(** With unique paths there is at most one key at a path. *)
Lemma object_key_at_path_spec project path db :
  AssetInv db → object_keys_at_path project path db = option_list (object_key_at_path project path db).
Proof.
  intros [Hp _]. unfold object_key_at_path, object_keys_at_path.
  pose proof (NoDup_select (asset_at project path) (assets db)) as Hnd.
  destruct (select _ (assets db)) as [|[i a] [|[j b] l]] eqn:Hs; [done|done|exfalso].
  assert ((i, a) ∈ select (asset_at project path) (assets db)) as Hi by (rewrite Hs; left).
  assert ((j, b) ∈ select (asset_at project path) (assets db)) as Hj by (rewrite Hs; right; left).
  apply elem_of_select in Hi as [Hi [??]%bool_decide_eq_true].
  apply elem_of_select in Hj as [Hj [??]%bool_decide_eq_true].
  assert (i = j) as -> by (eapply Hp; [done|done|congruence|congruence]). simplify_eq.
  rewrite fmap_cons in Hnd. apply NoDup_cons in Hnd as [Hnd _]. apply Hnd. left.
Qed.

Lemma upsert_asset_change id a db r db' :
  upsert_asset id a db = Ok (r, db') →
  asset_change (object_keys_at_path (a_project a) (a_path a) db) [a_object_key a] db db'.
Proof.
  unfold upsert_asset. destruct (_ || _); [done|]. cbv zeta.
  set (target := head _). set (key := match target with Some _ => _ | None => _ end).
  destruct (exists_row _ _) eqn:Hkeys; [done|]. case_bool_decide as Hid; [done|]. intros [= <- <-].
  rewrite exists_row_false in Hkeys.
  assert (∀ k b, assets db !! k = Some b → k ≠ key → a_object_key b ≠ a_object_key a) as Hfree.
  { intros k b Hb Hne Heq. specialize (Hkeys k b Hb). by apply bool_decide_eq_false in Hkeys as []. }
  assert (∀ k b, assets db !! k = Some b → k = key → a_project b = a_project a ∧ a_path b = a_path a) as Hat.
  { intros k b Hb ->. subst key. destruct target as [[old b0]|] eqn:Ht.
    - apply target_asset_Some in Ht as (? & ? & ?). by simplify_eq.
    - exfalso. apply Hid. by rewrite Hb. }
  assert (AssetInv db → ∀ k b, assets db !! k = Some b → a_project b = a_project a → a_path b = a_path a →
          k = key) as Hone.
  { intros [Hp _] k b Hb Hq Hpath. subst key. destruct target as [[old b0]|] eqn:Ht.
    - apply target_asset_Some in Ht as (Hb0 & ? & ?). eapply Hp; [done|done|congruence|congruence].
    - exfalso. by eapply target_asset_None. }
  split; [|done|..].
  - intros HI. split; cbn; intros i j b c.
    + rewrite !lookup_insert_Some. intros [[<- <-]|[Hi Hb]] [[<- <-]|[Hj Hc]] Hq Hpath; [done|..].
      * symmetry. by eapply Hone.
      * by eapply Hone.
      * by eapply (ai_paths _ HI).
    + rewrite !lookup_insert_Some. intros [[<- <-]|[Hi Hb]] [[<- <-]|[Hj Hc]] Hkey; [done|..].
      * by destruct (Hfree j c Hc).
      * by destruct (Hfree i b Hb).
      * by eapply (ai_keys _ HI).
  - intros k (i & b & Hb & <-). cbn in Hb. apply lookup_insert_Some in Hb as [[<- <-]|[_ Hb]].
    + right. by apply list_elem_of_singleton.
    + left. by exists i, b.
  - intros k (i & b & Hb & <-). destruct (decide (i = key)) as [Heq|Hne].
    + right. apply elem_of_keys_where. exists i, b. split_and!; [done| |done].
      apply bool_decide_eq_true. by apply (Hat i).
    + left. exists i, b. cbn. by rewrite lookup_insert_ne.
  - intros HI k Hk Hnew (i & b & Hb & <-). cbn in Hb. apply lookup_insert_Some in Hb as [[<- <-]|[Hne Hb]].
    + apply Hnew. by apply list_elem_of_singleton.
    + apply elem_of_keys_where in Hk as (j & c & Hc & [Hq Hpath]%bool_decide_eq_true & Hkey).
      assert (j = key) as -> by by eapply Hone. apply Hne. symmetry. by eapply (ai_keys _ HI).
Qed.

Lemma insert_new_asset_change project by' now a db db' :
  insert_new_asset project by' now a db = Ok ((), db') → asset_change [] [wa_object_key a] db db'.
Proof.
  unfold insert_new_asset. destruct (exists_row _ _) eqn:Hpath; [done|].
  destruct (upsert_asset _ _ _) as [[r db1]|] eqn:Hup; [|done]. intros [= <-].
  apply upsert_asset_change in Hup. cbn in Hup.
  assert (object_keys_at_path project (wa_path a) db = []) as Hnil.
  { unfold object_keys_at_path. unfold exists_row in Hpath. apply negb_false_iff, bool_decide_eq_true in Hpath.
    by rewrite Hpath. }
  by rewrite Hnil in Hup.
Qed.

Lemma rename_asset_change k a path db :
  assets db !! k = Some a →
  (∀ j b, assets db !! j = Some b → j ≠ k → ¬ (a_project b = a_project a ∧ a_path b = path)) →
  asset_change [] [] db (db <| assets := <[k := a <| a_path := path |>]> (assets db) |>).
Proof.
  intros Hk Hfree. split; [|done|..].
  - intros [Hp Hkeys]. split; cbn; intros i j b c;
      rewrite !lookup_insert_Some; intros [[<- <-]|[Hi Hb]] [[<- <-]|[Hj Hc]]; cbn.
    + done.
    + intros Hq Hpath. by destruct (Hfree j c Hc (not_eq_sym Hj)).
    + intros Hq Hpath. by destruct (Hfree i b Hb (not_eq_sym Hi)).
    + by apply Hp.
    + done.
    + intros Hkey. by apply (Hkeys _ _ a c).
    + intros Hkey. by apply (Hkeys _ _ b a).
    + by apply Hkeys.
  - intros key (i & b & Hb & <-). left. cbn in Hb. apply lookup_insert_Some in Hb as [[<- <-]|[_ Hb]];
      [by exists k, a|by exists i, b].
  - intros key (i & b & Hb & <-). left. destruct (decide (i = k)) as [->|Hne].
    + exists k, (a <| a_path := path |>). cbn. rewrite lookup_insert_eq. by simplify_eq.
    + exists i, b. cbn. by rewrite lookup_insert_ne.
  - intros _ key Hin. by apply elem_of_nil in Hin.
Qed.

(** A subtree moves with its keys. *)
Lemma move_assets_change project from to db n db' :
  move_assets project from to db = Ok (n, db') → asset_change [] [] db db'.
Proof.
  intros [_ Hu]%updates_rows_Ok.
  apply (update_each_ind _ (λ rows db1, NoDup rows.*1 ∧ asset_change [] [] db db1
    ∧ ∀ k a, (k, a) ∈ rows → assets db1 !! k = Some a ∧ a_project a = project)) in Hu.
  { by destruct Hu as (_ & ? & _). }
  - intros [k a] rest db1 db2 (Hnd & Hc & Hrows). unfold move_asset.
    destruct (exists_row _ _) eqn:Hfree; [done|]. intros [= <-]. rewrite exists_row_false in Hfree.
    rewrite fmap_cons in Hnd. apply NoDup_cons in Hnd as [Hnew Hnd]. destruct (Hrows k a) as [Hk Hq]; [left|].
    split_and!; [done| |].
    + eapply (change_trans [] [] [] []); [exact Hc|]. apply rename_asset_change; [done|].
      intros j b Hb Hne [Hqb Hpath]. specialize (Hfree j b Hb).
      apply andb_false_iff in Hfree as [Hf|Hf]; [by apply bool_decide_eq_false in Hf|].
      apply bool_decide_eq_false in Hf as []. split; [congruence|done].
    + intros k' a' Hin. cbn. rewrite lookup_insert_ne; [by apply Hrows; right|].
      intros <-. apply Hnew. apply list_elem_of_fmap. by exists (k, a').
  - split_and!; [apply NoDup_select|by apply shelved_change|].
    intros k a [Hk Ha]%elem_of_select. split; [done|]. apply andb_true_iff in Ha as [Ha _].
    by apply bool_decide_eq_true in Ha.
Qed.

(** ** Blocks that leave the assets and the queue alone *)

Lemma update_each_shelved {Row} (f : WorkspaceDB → Row → result sqlx_error WorkspaceDB) rows db n db' :
  (∀ db row db', f db row = Ok db' → shelved db db') →
  updates_rows f rows db = Ok (n, db') → shelved db db'.
Proof.
  intros Hf [_ Hu]%updates_rows_Ok. revert Hu. generalize (rows db) as l. intros l.
  induction l as [|row l IH] in db |- *; simpl; [by intros [= <-]|].
  destruct (f db row) as [db1|] eqn:Hrow; [|done]. simpl. intros Hu. etrans; [by eapply Hf|by apply IH].
Qed.

(** Statements on other tables: by their definition. *)
Create HintDb statements.
#[export] Hint Unfold insert_document upsert_by_path update_content affecting delete_by_id insert_directory
  ensure_settings update_settings update_entry_file_path update_latex_engine advance_workspace_version
  touch_repository insert_pending_author insert_external_author insert_project_row insert_settings
  insert_new_document insert_new_directory advance_generation initialize_project on_access
  insert_update upsert_snapshot reads writes fetch_one
  enqueue_sync insert_pending_guest insert_external_guest clear_project delete_collaboration
  delete_document_at_path delete_documents delete_project_documents delete_project_directories
  prune_updates clear_document_revision clear_superseded_document_revisions lock_document_updates
  lock_project_content delete_directories delete_documents_in update_projected_content move_directory move_document : statements.

Ltac shelved_statement :=
  let H := fresh in intros * H; cbv zeta in *; autounfold with statements in H; cbv zeta in H;
  repeat case_match; simplify_eq; by split.

Lemma move_directories_shelved project from to db n db' :
  move_directories project from to db = Ok (n, db') → shelved db db'.
Proof. apply update_each_shelved. shelved_statement. Qed.
Lemma move_documents_shelved project from to now db n db' :
  move_documents project from to now db = Ok (n, db') → shelved db db'.
Proof. apply update_each_shelved. shelved_statement. Qed.

Create HintDb quiet.
#[export] Hint Resolve move_directories_shelved move_documents_shelved : quiet.

(** Through a block, statement by statement. *)
Ltac quiet :=
  cbv zeta; repeat first
    [ apply keeps_ret; typeclasses eauto | apply keeps_early
    | apply keeps_for; [typeclasses eauto|intros ?]
    | apply keeps_exec; first [by eauto with quiet | shelved_statement]
    | solve [auto with quiet]
    | apply keeps_bind; [typeclasses eauto| |intros ?]
    | match goal with
      | |- keeps _ (match ?x with _ => _ end) => destruct x
      | |- keeps _ (let '_ := ?x in _) => destruct x
      end ].

Section blocks.
Context {R : Type} (s : schedule) (fail : sqlx_error → R) (now : time).

Lemma record_workspace_change_quiet project by' kind :
  keeps shelved (record_workspace_change s fail project by' kind now).
Proof. unfold record_workspace_change. quiet. Qed.
Lemma record_project_activity_quiet project actor guest :
  keeps shelved (record_project_activity s fail project actor guest now).
Proof. unfold record_project_activity. quiet. Qed.
#[local] Hint Resolve record_workspace_change_quiet record_project_activity_quiet : quiet.

Lemma mark_project_dirty_quiet project actor guest :
  keeps shelved (mark_project_dirty s fail project actor guest now).
Proof. unfold mark_project_dirty. quiet. Qed.
Lemma mark_dirty_quiet project actor : keeps shelved (mark_dirty s now fail project actor).
Proof. apply mark_project_dirty_quiet. Qed.
Lemma record_contribution_quiet project c : keeps shelved (record_contribution s fail project now c).
Proof. unfold record_contribution. quiet. Qed.
#[local] Hint Resolve record_contribution_quiet : quiet.
Lemma record_collaborative_document_activity_quiet project contributors :
  keeps shelved (record_collaborative_document_activity s fail project contributors now).
Proof. unfold record_collaborative_document_activity. quiet. Qed.
End blocks.
#[export] Hint Resolve mark_project_dirty_quiet mark_dirty_quiet
  record_collaborative_document_activity_quiet : quiet.

(** ** Operations without objects *)

Section operations.
Context `{Yrs} (s : schedule) (now : time) (update_retention : Z).

Lemma reconcile_quiet {R} (fail : sqlx_error → R) unmergeable c state seed :
  keeps shelved (reconcile_collaboration_document s now fail update_retention unmergeable c state seed).
Proof. unfold reconcile_collaboration_document, project_collaboration_document. quiet. Qed.
#[local] Hint Resolve reconcile_quiet : quiet.

(** An operation that stages no object and lets none go. *)
Definition plain (op : WorkspaceOp) : bool :=
  match op with
  | OCreateProject _ | OCreateFile _ _ _ _ _ _ _ _ _ _ | OMoveFile _ _ _ _ | ODeleteFile _ _ _
  | OUploadAsset _ _ _ _ _ _ _ _ _ | ODeleteAsset _ _ _ | OImport _ => false
  | _ => true
  end.

Lemma let_pair_snd {A B C} (p : A * B) (f : A → C) : (let '(a, b) := p in (f a, b)).2 = p.2.
Proof. by destruct p. Qed.

Lemma plain_shelved op db :
  plain op = true → shelved db (run_workspace update_retention s now op db).
Proof.
  destruct op; try done; intros _; simpl.
  all: unfold prepare_document_bootstrap; try (rewrite let_pair_snd);
    unfold create_document, upsert_document_by_path, update_document, delete_document,
      get_or_create_project_settings, change_project_setting, persist_update,
      bootstrap_transaction, reconcile_pending_document; cbv zeta;
    apply (keeps_transact shelved); quiet.
Qed.
End operations.

(** * Object storage: every operation on its objects

    A committed operation refers to no object but those it has put, and queues
    exactly the objects it lets go. *)
Record objects_step (fresh : list text) (db db' : WorkspaceDB) : Prop := MkObjectsStep {
  ob_inv : AssetInv db';
  ob_refs : ∀ key, referenced key db' → referenced key db ∨ key ∈ fresh;
  ob_released : ∀ key, is_external_key key = true → referenced key db →
    referenced key db' ∨ queued key db';
  ob_queue : ∀ key, queued key db' →
    queued key db ∨ (is_external_key key = true ∧ referenced key db ∧ ¬ referenced key db');
  ob_kept : ∀ key, queued key db → queued key db';
}.

(** The keys a committed operation returns are those it has let go. *)
Definition released (keys : list text) (db db' : WorkspaceDB) : Prop :=
  ∀ key, key ∈ keys → is_external_key key = true → referenced key db ∧ ¬ referenced key db'.

Definition stored_outcome (fresh : list text) (db : WorkspaceDB) (e : TxEnd (list text))
    (db' : WorkspaceDB) : Prop :=
  match e with
  | NotCommitted => db' = db
  | CommitFailed => db' = db ∨ objects_step fresh db db'
  | Committed keys => objects_step fresh db db' ∧ released keys db db'
  end.

Definition unused (fresh : list text) (db : WorkspaceDB) : Prop :=
  ∀ key, key ∈ fresh → ¬ referenced key db ∧ ¬ queued key db.

Definition enqueued (keys : list text) (db db' : WorkspaceDB) : Prop :=
  assets db' = assets db
  ∧ ∀ key, queued key db' ↔ queued key db ∨ (key ∈ keys ∧ is_external_key key = true).

Lemma enqueued_nil db : enqueued [] db db.
Proof. split; [done|]. intros key. split; [by left|]. by intros [?|[[]%elem_of_nil _]]. Qed.

Lemma enqueue_object_deletions_keys {R} s (fail : sqlx_error → R) now keys E db n :
  (∀ e, E (fail e)) →
  wp (enqueue_object_deletions s fail now keys) E (λ _ db' _, enqueued keys db db') db n.
Proof.
  intros HE. unfold enqueue_object_deletions. set (all := filter _ keys).
  assert (∀ key, key ∈ all ↔ key ∈ keys ∧ is_external_key key = true) as Hall.
  { intros key. unfold all. rewrite list_elem_of_filter. tauto. }
  eapply wp_mono; [apply (wp_for _ _ _ (λ l db', assets db' = assets db ∧
    ∀ key, queued key db' ∨ key ∈ l ↔ queued key db ∨ key ∈ all)); [by split|]|done|].
  - intros key l db1 n1 [Ha Hq]. apply wp_writes; [done|]. split; [done|]. intros key'.
    rewrite <-Hq, elem_of_cons. unfold queued, enqueue_object_deletion. cbn.
    destruct (decide (key = key')) as [->|Hne].
    + rewrite lookup_insert_eq. split; [tauto|]. intros _. left. by eexists.
    + rewrite lookup_insert_ne by done. split; [tauto|]. intros [?|[?|?]]; [tauto|congruence|tauto].
  - intros [] db' n' [Ha Hq]. split; [done|]. intros key. rewrite <-Hall, <-Hq. split; [by left|].
    intros [?|Hin]; [done|by apply elem_of_nil in Hin].
Qed.

Lemma objects_step_intro keys gone added db db1 db2 db3 :
  AssetInv db → asset_change gone added db db1 →
  (∀ key, is_external_key key = true → key ∈ keys ↔ key ∈ gone) →
  (∀ key, key ∈ gone → referenced key db) → unused added db →
  enqueued keys db1 db2 → shelved db2 db3 →
  objects_step added db db3 ∧ released keys db db3.
Proof.
  intros HI [I Q R K G] Hkeys Hgone Hfresh [Ha Hq] [Ha3 Hq3].
  assert (∀ key, referenced key db3 ↔ referenced key db1) as Href
    by (intros key; unfold referenced; by rewrite Ha3, Ha).
  assert (∀ key, queued key db3 ↔ queued key db ∨ (key ∈ keys ∧ is_external_key key = true)) as Hque.
  { intros key. unfold queued in Hq |- *. by rewrite Hq3, Hq, Q. }
  assert (∀ key, key ∈ keys → is_external_key key = true → referenced key db ∧ ¬ referenced key db3) as Hrel.
  { intros key Hk Hx. apply Hkeys in Hk; [|done]. rewrite Href. split; [by apply Hgone|].
    apply G; [done|done|]. intros Hadd. by destruct (Hfresh _ Hadd) as [[] _]; apply Hgone. }
  split; [|done]. split.
  - destruct (I HI) as [Hp Hk]. split; rewrite Ha3, Ha; [exact Hp|exact Hk].
  - intros key. rewrite Href. apply R.
  - intros key Hx [Hr|Hg]%K; [left; by apply Href|right]. apply Hque. right. split; [by apply Hkeys|done].
  - intros key [?|[Hk Hx]]%Hque; [by left|right]. split; [done|]. by apply Hrel.
  - intros key ?. apply Hque. by left.
Qed.

(** Nothing is let go, nothing taken up. *)
Lemma objects_step_shelved fresh db db' : AssetInv db → shelved db db' → objects_step fresh db db'.
Proof.
  intros [Hp Hk] [Ha Hq]. split; unfold referenced, queued; rewrite ?Ha, ?Hq; try (by auto); by split; rewrite Ha.
Qed.

Lemma released_nil db db' : released [] db db'.
Proof. by intros key ?%elem_of_nil. Qed.

(** ** The operations with objects *)

Section operations.
Context (s : schedule) (now : time).

Lemma stored_outcome_intro {A} fresh (fail : sqlx_error → A) (body : Tx WorkspaceDB A (A * list text)) db :
  wp body (λ _, True) (λ rx db' _, objects_step fresh db db' ∧ released rx.2 db db') db 1 →
  stored_outcome fresh db (transact_end s body db) (transact_then s fail body db).2.
Proof.
  intros Hb. apply (transact_end_spec s fail body (stored_outcome fresh db)); [done|].
  eapply wp_mono; [exact Hb|done|]. intros rx db' n [Ho Hr]. split_and!; [done|by left|by right].
Qed.

(** Opens the transaction of an operation; goes through a statement; the end
    of a transaction that has let keys go. *)
Ltac stored := apply stored_outcome_intro; cbv zeta.
Ltac statement :=
  lazymatch goal with
  | |- wp (mbind _ (exec _ _ (writes lock_project_content))) _ _ _ _ =>
      apply wp_bind, wp_writes; [done|]; unfold lock_project_content
  | |- wp (mbind _ (exec _ _ (reads _))) _ _ _ _ => apply wp_bind, wp_reads; [done|]
  | |- wp (mbind _ (exec _ _ (writes _))) _ _ _ _ => apply wp_bind, wp_writes; [done|]
  | |- wp (mbind _ (exec _ _ _)) _ _ _ _ =>
      let H := fresh "Hstmt" in apply wp_bind, wp_exec; [done|]; intros ? ? H; cbn beta in H
  end.
Ltac block lemma := apply wp_bind; eapply wp_mono; [apply lemma|done|]; intros ? ? ?.
Ltac letting_go :=
  apply wp_bind; eapply (wp_mono _ (λ _, True)); [by apply enqueue_object_deletions_keys|done|]; intros [] ? ? ?;
  block mark_dirty_quiet; intros ?; apply wp_ret.

Lemma upload_project_asset_objects id q path revision object_key content_type size inline_data actor db :
  AssetInv db → unused [object_key] db →
  stored_outcome [object_key] db
    (transact_end s (upload_project_asset_transaction s now id q path revision object_key content_type size
       inline_data actor) db)
    (upload_project_asset s now id q path revision object_key content_type size inline_data actor db).2.
Proof.
  intros HI Hfresh. stored. unfold upload_project_asset_transaction. do 3 statement.
  apply upsert_asset_change in Hstmt. cbn [a_project a_path a_object_key] in Hstmt.
  cbv zeta. letting_go. eapply objects_step_intro; [done|exact Hstmt| | |done|done|done].
  - intros key _. rewrite object_key_at_path_spec by done.
    destruct (object_key_at_path q path db) as [old|] eqn:Hold; simpl; [|done].
    destruct (text_eqb old object_key) eqn:Heq; [|done]. apply text_eqb_true in Heq as ->.
    exfalso. destruct (Hfresh object_key) as [[] _]; [by left|].
    apply (keys_where_referenced (asset_at q path)).
    change (keys_where _ db) with (object_keys_at_path q path db).
    rewrite object_key_at_path_spec, Hold by done. by left.
  - intros key Hk. by apply keys_where_referenced in Hk.
Qed.

(** A block that lets the keys of the assets selected by [P] go. *)
Lemma letting_go_of P keys db db1 db2 db3 :
  AssetInv db → asset_change (keys_where P db) [] db db1 →
  (∀ key, is_external_key key = true → key ∈ keys ↔ key ∈ keys_where P db) →
  enqueued keys db1 db2 → shelved db2 db3 →
  objects_step [] db db3 ∧ released keys db db3.
Proof.
  intros HI Hc Hkeys. eapply objects_step_intro; [done|exact Hc|done| |].
  - intros key. apply keys_where_referenced.
  - by intros key ?%elem_of_nil.
Qed.

Lemma delete_assets_after P db db1 :
  shelved db db1 → asset_change (keys_where P db) [] db (db1 <| assets := delete_rows P (assets db1) |>).
Proof.
  intros Hs. assert (keys_where P db = keys_where P db1) as ->.
  { unfold keys_where. by rewrite (proj1 Hs). }
  eapply change_after_shelved; [exact Hs|apply delete_assets_change].
Qed.

Lemma upsert_by_path_shelved id q path content now' db r db' :
  upsert_by_path id q path content now' db = Ok (r, db') → shelved db db'.
Proof. shelved_statement. Qed.

Lemma create_project_file_objects q path kind content document asset object_key content_type storage actor db :
  let op := OCreateFile q path kind content document asset object_key content_type storage actor in
  let prepared := prepare_project_file kind (is_document_text_path path) content asset object_key
                    content_type storage in
  AssetInv db → unused (op_keys op) db →
  stored_outcome (op_keys op) db
    (transact_end s (create_project_file_transaction s now q path document prepared actor) db)
    (create_project_file s now q path document prepared actor db).2.
Proof.
  intros op prepared HI Hfresh. stored. unfold create_project_file_transaction, op_keys, op in *. statement.
  unfold persist_project_file, prepared, prepare_project_file.
  destruct kind; [destruct (is_document_text_path path)|].
  - apply wp_bind. do 3 statement. apply wp_ret. letting_go. apply upsert_by_path_shelved in Hstmt.
    eapply (letting_go_of (asset_at q path)); [done|by apply delete_assets_after|done|done|done].
  - apply wp_bind. do 3 statement. apply wp_ret. letting_go.
    apply upsert_asset_change in Hstmt. cbn [a_project a_path a_object_key] in Hstmt.
    eapply objects_step_intro; [done|eapply change_then_shelved; [exact Hstmt|by split]|done| |done|done|done].
    intros key. apply keys_where_referenced.
  - apply wp_bind. statement. apply wp_ret.
    assert (shelved db db') as Hs by (revert Hstmt; shelved_statement).
    destruct a; [letting_go|apply wp_ret].
    + eapply (objects_step_intro [] [] []);
        [done|by apply shelved_change|done|by intros ? ?%elem_of_nil|done|done|done].
    + split; [by apply objects_step_shelved|apply released_nil].
Qed.

Lemma delete_project_file_objects q path actor db :
  AssetInv db →
  stored_outcome [] db (transact_end s (delete_project_file_transaction s now q path actor) db)
    (delete_project_file s now q path actor db).2.
Proof.
  intros HI. stored. unfold delete_project_file_transaction. do 2 statement.
  destruct (match find_project_entry_point q db with Some _ => _ | None => _ end); [by apply wp_early|].
  unfold delete_subtree. apply wp_bind. do 4 statement. apply wp_ret.
  injection Hstmt as <- <-. injection Hstmt0 as <- <-. injection Hstmt1 as <- <-.
  set (P := λ _ a, bool_decide (a_project a = q) && in_sql_subtree path (a_path a)).
  destruct (changed _) eqn:Hchanged.
  - letting_go. eapply (letting_go_of P); [done|by apply delete_assets_after|done|done|done].
  - apply wp_ret. unfold changed, assets_in in Hchanged. cbn [fc_assets assets] in Hchanged.
    rewrite !orb_false_iff, !Z.ltb_ge in Hchanged. destruct Hchanged as [_ Ha].
    change (Z.of_nat (length (select P (assets db))) ≤ 0) in Ha.
    assert (select P (assets db) = []) as Hnil by (apply length_zero_iff_nil; lia).
    unfold object_keys_in_subtree, assets_in. fold P. rewrite Hnil. split; [|apply released_nil].
    apply objects_step_shelved; [done|]. split; [|done]. cbn. by apply delete_rows_none.
Qed.

Lemma delete_project_asset_objects q asset actor db :
  AssetInv db →
  stored_outcome [] db (transact_end s (delete_project_asset_transaction s now q asset actor) db)
    (delete_project_asset s now q asset actor db).2.
Proof.
  intros HI. stored. unfold delete_project_asset_transaction. do 2 statement.
  destruct (find_asset q asset db) as [a|] eqn:Hf; simpl; [|by apply wp_early]. statement.
  destruct (_ =? 0); [by apply wp_early|]. injection Hstmt as <- <-. letting_go.
  eapply (letting_go_of (λ k a, bool_decide (k = asset ∧ a_project a = q)));
    [done|by apply delete_assets_after| |done|done].
  intros key _. cbn [snd]. rewrite elem_of_keys_where, list_elem_of_singleton. unfold find_asset in Hf.
  destruct (assets db !! asset) as [b|] eqn:Hb; [|done]. simpl in Hf. case_bool_decide as Hq; [|done].
  injection Hf as ->. split.
  - intros ->. exists asset, a. split_and!; [done|by apply bool_decide_eq_true|done].
  - intros (k & c & Hc & [-> _]%bool_decide_eq_true & <-). by simplify_eq.
Qed.

Lemma move_project_file_objects q from to actor db :
  AssetInv db → objects_step [] db (move_project_file s now q from to actor db).2.
Proof.
  intros HI. unfold move_project_file. cbv zeta.
  apply (transact_inv (objects_step [] db)); [by apply objects_step_shelved|]. do 2 statement.
  destruct (match moved_entry _ _ _ with Some _ => _ | None => _ end); [by apply wp_early|].
  unfold move_subtree. apply wp_bind. do 3 statement. apply wp_ret.
  apply move_directories_shelved in Hstmt. apply move_documents_shelved in Hstmt0.
  apply move_assets_change in Hstmt1. assert (asset_change [] [] db db'1) as Hc.
  { eapply change_after_shelved; [exact Hstmt|]. by eapply change_after_shelved. }
  assert (∀ db2, shelved db'1 db2 → objects_step [] db db2) as Hend.
  { intros db2 Hs. eapply (objects_step_intro [] [] []);
      [done|exact Hc|done|by intros ? ?%elem_of_nil|by intros ? ?%elem_of_nil|apply enqueued_nil|done]. }
  destruct (changed _); [|by apply wp_ret, Hend]. unfold ensure_settings, update_entry_file_path.
  lazymatch goal with |- wp ?m _ _ _ _ => assert (keeps shelved m) as Hq by quiet end.
  eapply wp_mono; [apply Hq|done|]. intros r db2 n2 Hs. by apply Hend.
Qed.

(** ** Replacements and new projects *)

Lemma insert_new_assets_change {R} (fail : sqlx_error → R) project by' now' l db n :
  wp (tx_for l (λ a, exec s fail (insert_new_asset project by' now' a))) (λ _, True)
     (λ _ db' _, ∃ added, asset_change [] added db db' ∧ (∀ key, key ∈ added → key ∈ wa_object_key <$> l)) db n.
Proof.
  eapply (wp_mono _ (λ _, True)); [apply (wp_for _ _ _ (λ rest db', ∃ inserted added, l = inserted ++ rest
    ∧ asset_change [] added db db' ∧ ∀ key, key ∈ added → key ∈ wa_object_key <$> inserted))|done|].
  - exists [], []. split_and!; [done|by apply shelved_change|by intros ? ?%elem_of_nil].
  - intros a rest db1 n1 (inserted & added & -> & Hc & Hin). apply wp_exec; [done|].
    intros [] db2 Hins. apply insert_new_asset_change in Hins.
    exists (inserted ++ [a]), (added ++ [wa_object_key a]). split_and!.
    + by rewrite <-app_assoc.
    + by eapply (change_trans [] []).
    + intros key. rewrite fmap_app, !elem_of_app. intros [?|?]; [left; auto|by right].
  - intros [] db' n' (inserted & added & Hl & Hc & Hin). rewrite app_nil_r in Hl. subst inserted. by exists added.
Qed.

Lemma insert_new_rows_quiet {R A} (fail : sqlx_error → R) (f : A → WorkspaceDB → result sqlx_error (unit * WorkspaceDB)) l :
  (∀ x db db', f x db = Ok ((), db') → shelved db db') → keeps shelved (tx_for l (λ x, exec s fail (f x))).
Proof.
  intros Hf. apply keeps_for; [typeclasses eauto|]. intros x. apply keeps_exec. intros db1 [] db2. apply Hf.
Qed.
Lemma insert_new_document_shelved project now' d db db' :
  insert_new_document project now' d db = Ok ((), db') → shelved db db'.
Proof. shelved_statement. Qed.
Lemma insert_new_directory_shelved project now' path db db' :
  insert_new_directory project now' path db = Ok ((), db') → shelved db db'.
Proof. shelved_statement. Qed.
#[local] Hint Resolve insert_new_document_shelved insert_new_directory_shelved : quiet.

Ltac quiet_loop :=
  apply wp_bind; eapply wp_mono; [apply insert_new_rows_quiet; eauto with quiet|done|]; intros [] ? ? ?.

Lemma replace_project_content_objects {R} (fail : sqlx_error → R) c db n :
  wp (replace_project_content s fail c) (λ _, True) (λ r db' _, match r with
    | Replaced content => ∃ gone added, asset_change gone added db db'
        ∧ (∀ key, key ∈ added → key ∈ wa_object_key <$> rc_assets c)
        ∧ (∀ key, is_external_key key = true → key ∈ rp_old_object_keys content ↔ key ∈ gone)
        ∧ (∀ key, key ∈ gone → referenced key db)
    | _ => True
    end) db n.
Proof.
  unfold replace_project_content. cbv zeta. set (q := rc_project c). statement.
  destruct (project_rows db !! q) as [p|]; [|by apply wp_ret].
  destruct (match rc_expected_workspace_version c with Some _ => _ | None => _ end); [by apply wp_ret|].
  destruct (negb _); [by apply wp_ret|]. statement.
  assert (shelved db db') as Hs by (revert Hstmt; shelved_statement). do 4 statement.
  set (P := λ (_ : uuid) a, bool_decide (a_project a = q)).
  assert (asset_change (keys_where P db) [] db
    (delete_project_directories q (delete_project_assets q (delete_project_documents q db')))) as Hc.
  { eapply change_then_shelved; [apply (delete_assets_after P); etrans; [exact Hs|by split]|by split]. }
  quiet_loop. apply wp_bind. eapply wp_mono; [apply insert_new_assets_change|done|].
  intros [] db2 n2 (added & Hc2 & Hadded). quiet_loop. do 2 statement. destruct a1 as [v e]. apply wp_ret.
  assert (shelved db'1 db'2) as H2 by (revert Hstmt0; shelved_statement).
  assert (shelved db'2 db'3) as H3 by (revert Hstmt1; shelved_statement).
  exists (keys_where P db ++ []), ([] ++ added). split_and!.
  - eapply change_trans; [by eapply change_then_shelved|]. eapply change_then_shelved; [exact Hc2|].
    etrans; [exact H0|]. by etrans.
  - done.
  - intros key Hx. rewrite app_nil_r. cbn [rp_old_object_keys]. unfold project_object_keys.
    rewrite list_elem_of_filter. unfold keys_where. rewrite (proj1 Hs). split; [by intros [_ ?]|].
    intros ?. split; [|done]. by apply andb_true_iff in Hx as [_ Hx].
  - intros key. rewrite app_nil_r. apply keys_where_referenced.
Qed.

Lemma apply_repo_import_objects c db :
  AssetInv db → unused (wa_object_key <$> rc_assets c) db →
  stored_outcome (wa_object_key <$> rc_assets c) db
    (transact_end s (apply_repo_import_transaction s now c) db) (apply_repo_import s now c db).2.
Proof.
  intros HI Hfresh. stored. unfold apply_repo_import_transaction. cbv zeta.
  apply wp_bind. eapply (wp_mono _ (λ _, True)); [apply replace_project_content_objects|done|].
  intros [content| | |] db1 n1; [|by intros _; apply wp_early..].
  intros (gone & added & Hc & Hadded & Hold & Hgone). statement.
  apply wp_bind. eapply (wp_mono _ (λ _, True)); [by apply enqueue_object_deletions_keys|done|].
  intros [] db2 n2 Hq. apply wp_ret.
  assert (objects_step added db db2 ∧ released (rp_old_object_keys content) db db2) as [[I Rf Rl Q K] Hrel].
  { eapply objects_step_intro; [done|eapply change_then_shelved; [exact Hc|by split]|exact Hold|exact Hgone|
      |exact Hq|done]. intros key Hk. by apply Hfresh, Hadded. }
  split; [|done]. split; [done| |done..]. intros key [?|?]%Rf; [by left|right; by apply Hadded].
Qed.

Lemma create_project_objects g db :
  AssetInv db → unused (wa_object_key <$> g_assets g) db →
  stored_outcome (wa_object_key <$> g_assets g) db
    (transact_end s (create_project_transaction s g) db) (create_project s g db).2.
Proof.
  intros HI Hfresh. stored. unfold create_project_transaction, provision_project, create_project_graph.
  apply wp_bind, wp_bind.
  assert (∀ db1 u db2, insert_project_row g db1 = Ok (u, db2) → shelved db1 db2) as Hrow by shelved_statement.
  statement. apply Hrow in Hstmt. statement.
  assert (shelved db' db'0) as Hs2 by (revert Hstmt0; shelved_statement).
  do 2 quiet_loop.
  eapply (wp_mono _ (λ _, True)); [apply insert_new_assets_change|done|].
  intros [] db3 n3 (added & Hc & Hadded). statement.
  assert (shelved db3 db'3) as Hs3.
  { revert Hstmt1. unfold on_access. destruct (upsert_role _ _ _ _ _) as [[r a']|]; [|done]. by intros [= <- <-]. }
  apply wp_exec; [done|]. intros [] db4 Hinit.
  assert (shelved db'3 db4) as Hs4 by (revert Hinit; shelved_statement).
  apply wp_bind. eapply wp_mono; [apply mark_project_dirty_quiet|done|]. intros [] db5 n5 Hs5. apply wp_ret.
  assert (objects_step added db db5 ∧ released [] db db5) as [[I Rf Rl Q K] Hrel].
  { eapply (objects_step_intro [] []); [done|eapply change_after_shelved; [|exact Hc]|done| | |apply enqueued_nil|].
    - etrans; [exact Hstmt|]. etrans; [exact Hs2|]. by etrans.
    - by intros key ?%elem_of_nil.
    - intros key Hk. by apply Hfresh, Hadded.
    - etrans; [exact Hs3|]. by etrans. }
  split; [|done]. split; [done| |done..]. intros key [?|?]%Rf; [by left|right; by apply Hadded].
Qed.
End operations.

(** ** All operations *)

Lemma run_stored_spec `{Yrs} update_retention s now op db :
  AssetInv db → stored_op op → unused (op_keys op) db →
  stored_outcome (op_keys op) db (run_stored s now op db) (run_workspace update_retention s now op db).
Proof.
  intros HI Hop Hfresh. destruct (plain op) eqn:Hplain.
  - pose proof (plain_shelved s now update_retention op db Hplain) as Hs.
    assert (run_stored s now op db = Committed []) as -> by by destruct op.
    split; [by apply objects_step_shelved|apply released_nil].
  - destruct op; try done; cbn [run_stored run_workspace].
    + by apply create_project_objects.
    + by apply create_project_file_objects.
    + split; [by apply move_project_file_objects|apply released_nil].
    + by apply delete_project_file_objects.
    + by apply upload_project_asset_objects.
    + by apply delete_project_asset_objects.
    + by apply apply_repo_import_objects.
Qed.
