(* ===== verification/ObjectTheorems.v ===== *)
(** * Object storage: theorems

    Whatever tasks run, fail, crash or interleave, an object that an asset
    refers to or a job has pinned stays in the store, and an object that was
    let go stays queued until it is gone. *)
From S2P Require Import Prelude Store Text Paths ProcessingModel ProcessingAdmission.
From S2P Require Import AccessModel WorkspaceModel WorkspaceStatements WorkspaceFiles.
From S2P Require Import WorkspaceProjects Collaboration WorkspaceSystem AccessSystem.
From S2P Require Import ProcessingTheorems ObjectCleanup ObjectSteps.

Open Scope Z_scope.

(** ** The keys a task deals with *)

Definition pinned (key : text) (processing : ProcessingModel.DB) : Prop :=
  ∃ job, is_Some (pins processing !! (job, key)).

(** Put, or to be put, for a transaction still to come. *)
Definition owned (t : Task) : list text :=
  match t with Staging todo staged _ => staged ++ todo | _ => [] end.
(** To be removed. *)
Definition doomed (t : Task) : list text :=
  match t with
  | Staging _ _ _ | Sweeping => []
  | Cleaning keys | Removing keys => keys
  | CleaningFailed key keys | RemovingUnpinned key keys | RemovingDeleted key keys => key :: keys
  | SweepingClaimed key _ | SweepingDeleted key | SweepingFailed key _ => [key]
  end.
(** To be removed without another look at the pins. *)
Definition marked (t : Task) : list text :=
  match t with
  | Cleaning keys | CleaningFailed _ keys => keys
  | RemovingUnpinned key _ | SweepingClaimed key _ => [key]
  | _ => []
  end.
(** Removed, with the row of the queue to be deleted. *)
Definition cleared (t : Task) : list text :=
  match t with RemovingDeleted key _ | SweepingDeleted key => [key] | _ => [] end.

Lemma marked_doomed t key : key ∈ marked t → key ∈ doomed t.
Proof. destruct t; simpl; rewrite ?elem_of_cons; auto; set_solver. Qed.
Lemma cleared_doomed t key : key ∈ cleared t → key ∈ doomed t.
Proof. destruct t; simpl; set_solver. Qed.

(** ** The invariant *)

Record SiteInv (st : Site) : Prop := {
  si_assets : AssetInv (st_workspace st);
  si_stored : ∀ key, is_external_key key = true →
    referenced key (st_workspace st) ∨ pinned key (st_processing st) → key ∈ st_objects st;
  si_queue : ∀ key, queued key (st_workspace st) →
    is_external_key key = true ∧ ¬ referenced key (st_workspace st);
}.

Definition staged_ok (st : Site) (t : Task) : Prop :=
  match t with
  | Staging todo staged op =>
      stored_op op ∧ op_keys op = staged ++ todo ∧ ∀ key, key ∈ staged → key ∈ st_objects st
  | _ => True
  end.

Record TaskInv (st : Site) (t : Task) : Prop := {
  ti_external : ∀ key, key ∈ owned t ∨ key ∈ doomed t → is_external_key key = true;
  ti_doomed : ∀ key, key ∈ doomed t → ¬ referenced key (st_workspace st);
  ti_marked : ∀ key, key ∈ marked t → ¬ pinned key (st_processing st);
  ti_cleared : ∀ key, key ∈ cleared t → key ∉ st_objects st;
  ti_owned : ∀ key, key ∈ owned t → ¬ referenced key (st_workspace st)
    ∧ ¬ queued key (st_workspace st) ∧ ¬ pinned key (st_processing st);
  ti_staging : staged_ok st t;
}.

Record WorldInv (w : World) : Prop := {
  wi_site : SiteInv (w_site w);
  wi_tasks : ∀ t, t ∈ w_tasks w → TaskInv (w_site w) t;
  wi_apart : NoDup (w_tasks w ≫= owned);
  wi_disjoint : ∀ t t' key, t ∈ w_tasks w → t' ∈ w_tasks w → key ∈ owned t → key ∉ doomed t';
  wi_drawn : ∀ key, is_external_key key = true →
    referenced key (st_workspace (w_site w)) ∨ queued key (st_workspace (w_site w))
    ∨ pinned key (st_processing (w_site w)) ∨ key ∈ st_objects (w_site w)
    ∨ (∃ t, t ∈ w_tasks w ∧ (key ∈ owned t ∨ key ∈ doomed t)) → key ∈ w_drawn w;
}.

(** ** What a step may change *)

(** The stepping task owns [mine], and may remove [gone]. *)
Record site_step (mine gone : list text) (st st' : Site) : Prop := {
  ss_referenced : ∀ key, referenced key (st_workspace st') →
    referenced key (st_workspace st) ∨ key ∈ mine;
  ss_pinned : ∀ key, is_external_key key = true → pinned key (st_processing st') →
    pinned key (st_processing st) ∨ referenced key (st_workspace st);
  ss_queued : ∀ key, queued key (st_workspace st') →
    queued key (st_workspace st) ∨ referenced key (st_workspace st) ∨ key ∈ gone;
  ss_put : ∀ key, key ∈ st_objects st' → key ∈ st_objects st ∨ key ∈ mine;
  ss_kept : ∀ key, key ∈ st_objects st → key ∈ st_objects st' ∨ key ∈ gone;
  ss_let_go : ∀ key, is_external_key key = true → referenced key (st_workspace st) →
    referenced key (st_workspace st') ∨ queued key (st_workspace st');
  ss_dequeued : ∀ key, queued key (st_workspace st) →
    queued key (st_workspace st') ∨ key ∉ st_objects st';
}.

(** Tasks apart from the stepping one are not disturbed. *)
Lemma task_undisturbed mine gone st st' t :
  site_step mine gone st st' → TaskInv st t →
  (∀ key, key ∈ owned t → key ∉ mine ∧ key ∉ gone) → (∀ key, key ∈ doomed t → key ∉ mine) →
  TaskInv st' t.
Proof.
  intros [Rf P Q Put Kept _ _] [Tx Td Tm Tc To Ts] Hown Hdoom. split.
  - exact Tx.
  - intros key Hk [Hr|Hm]%Rf; [by apply (Td key)|by apply (Hdoom key)].
  - intros key Hk [Hp|Hr]%P; [by apply (Tm key)| |by apply Tx; right; apply marked_doomed].
    by apply (Td key); [apply marked_doomed|].
  - intros key Hk [Ho|Hm]%Put; [by apply (Tc key)|]. by apply (Hdoom key); [apply cleared_doomed|].
  - intros key Hk. destruct (To key Hk) as (Hr & Hq & Hp). destruct (Hown key Hk) as [Hm Hg]. split_and!.
    + intros [?|?]%Rf; done.
    + intros [?|[?|?]]%Q; done.
    + intros [?|?]%P; [done..|]. apply Tx. by left.
  - destruct t as [todo staged op| | | | | | | | |]; try done. destruct Ts as (Hop & Hkeys & Hst).
    split_and!; [done..|]. intros key Hk. destruct (Kept key (Hst key Hk)) as [|Hg]; [done|].
    destruct (Hown key) as [_ []]; [|done]. simpl. apply elem_of_app. by left.
Qed.

(** ** Requests to the store *)

Lemma put_object_spec v key objects stored objects' :
  put_object v key objects = (stored, objects') →
  (∀ k, k ∈ objects' → k ∈ objects ∨ k = key) ∧ (∀ k, k ∈ objects → k ∈ objects')
  ∧ (stored = true → key ∈ objects').
Proof. destruct v; intros [= <- <-]; split_and!; set_solver. Qed.

Lemma delete_object_spec v key objects deleted objects' :
  delete_object v key objects = (deleted, objects') →
  (∀ k, k ∈ objects' → k ∈ objects) ∧ (∀ k, k ∈ objects → k ∈ objects' ∨ k = key)
  ∧ (deleted = true → key ∉ objects').
Proof.
  destruct v; intros [= <- <-]; split_and!; try set_solver; intros k Hk;
    destruct (decide (k = key)) as [->|]; set_solver.
Qed.

(** Only the store changes. *)
Lemma store_step mine gone st objects :
  (∀ key, key ∈ objects → key ∈ st_objects st ∨ key ∈ mine) →
  (∀ key, key ∈ st_objects st → key ∈ objects ∨ key ∈ gone) →
  site_step mine gone st (st <| st_objects := objects |>).
Proof. intros Hput Hkept. split; try (by auto); cbn; auto. Qed.

(** Only the tables change. *)
Lemma tables_step mine gone st db :
  (∀ key, referenced key db → referenced key (st_workspace st) ∨ key ∈ mine) →
  (∀ key, queued key db → queued key (st_workspace st) ∨ referenced key (st_workspace st) ∨ key ∈ gone) →
  (∀ key, is_external_key key = true → referenced key (st_workspace st) → referenced key db ∨ queued key db) →
  (∀ key, queued key (st_workspace st) → queued key db ∨ key ∉ st_objects st) →
  site_step mine gone st (st <| st_workspace := db |>).
Proof. intros Hr Hq Hl Hd. split; cbn; auto. Qed.

(** Only the queue changes, and no row but those of [gone] comes or goes. *)
Lemma queue_step mine gone st db :
  assets db = assets (st_workspace st) →
  (∀ key, queued key db → queued key (st_workspace st) ∨ key ∈ gone) →
  (∀ key, queued key (st_workspace st) → queued key db ∨ key ∉ st_objects st) →
  site_step mine gone st (st <| st_workspace := db |>).
Proof.
  intros Ha Hq Hd. assert (∀ key, referenced key db ↔ referenced key (st_workspace st)) as Hr
    by (intros key; unfold referenced; by rewrite Ha).
  apply tables_step; [intros key; rewrite Hr; by left| |intros key _; rewrite Hr; by left|done].
  intros key [?|?]%Hq; auto.
Qed.

(** ** One step of a task *)

Section tasks.
Context `{Yrs} (update_retention : Z) (s : schedule) (now : time).

Record step_ok (st : Site) (t : Task) (o : option Task) (st' : Site) : Prop := {
  so_step : site_step (owned t) (doomed t) st st';
  so_site : SiteInv st';
  so_task : ∀ t', o = Some t' → TaskInv st' t' ∧ (owned t' = owned t ∨ owned t' = [])
    ∧ ∀ key, key ∈ doomed t' → key ∈ doomed t ∨ key ∈ owned t
             ∨ referenced key (st_workspace st) ∨ queued key (st_workspace st);
}.

Lemma external_not_inline key : is_external_key key = true → starts_with (lit "inline://") key = false.
Proof. intros [_ Hk]%andb_true_iff. by apply negb_true_iff in Hk. Qed.

Definition waiting (t : Task) : bool := match t with Staging _ _ _ => true | _ => false end.
Lemma waiting_false t : waiting t = false → owned t = [] ∧ ∀ st, staged_ok st t.
Proof. by destruct t. Qed.

(** A request to the store that removes at most the object of [key]. *)
Lemma delete_step st t key deleted objects t' :
  SiteInv st → TaskInv st t → key ∈ marked t →
  delete_object (s 0%nat) key (st_objects st) = (deleted, objects) →
  waiting t' = false → (∀ k, k ∈ doomed t' → k ∈ doomed t) → (∀ k, k ∈ marked t' → k ∈ marked t) →
  (∀ k, k ∈ cleared t' → k = key ∧ deleted = true) →
  step_ok st t (Some t') (st <| st_objects := objects |>).
Proof.
  intros [Sa Ss Sq] [Tx Td Tm Tc To Ts] Hkey Hdel Hwait Hdoom Hmark Hclear.
  pose proof (waiting_false _ Hwait) as [Hown Hst].
  apply delete_object_spec in Hdel as (Hsub & Hkept & Hgone).
  pose proof (marked_doomed _ _ Hkey) as Hd. split.
  - apply store_step; [by auto|]. intros k Hk. destruct (Hkept k Hk) as [?| ->]; auto.
  - split; cbn; [done| |done]. intros k Hx Huse. destruct (Hkept k (Ss k Hx Huse)) as [?| ->]; [done|].
    exfalso. destruct Huse as [?|?]; [by apply (Td key)|by apply (Tm key)].
  - intros t0 [= <-]. split; [|auto]. split; cbn.
    + intros k [Hk|Hk]; [rewrite Hown in Hk; by apply elem_of_nil in Hk|]. apply Tx. auto.
    + intros k ?%Hdoom. by apply Td.
    + intros k ?%Hmark. by apply Tm.
    + intros k [-> Hs]%Hclear. by apply Hgone.
    + intros k Hk. rewrite Hown in Hk. by apply elem_of_nil in Hk.
    + apply Hst.
Qed.

(** A statement on the queue. *)
Lemma queue_task_step st t db t' :
  SiteInv st → TaskInv st t →
  assets db = assets (st_workspace st) →
  (∀ key, queued key db → queued key (st_workspace st) ∨ key ∈ doomed t) →
  (∀ key, queued key (st_workspace st) → queued key db ∨ key ∉ st_objects st) →
  waiting t' = false →
  (∀ k, k ∈ doomed t' → k ∈ doomed t ∨ queued k (st_workspace st)) →
  (∀ k, k ∈ marked t' → k ∈ marked t ∨ ¬ pinned k (st_processing st)) → cleared t' = [] →
  step_ok st t (Some t') (st <| st_workspace := db |>).
Proof.
  intros [Sa Ss Sq] [Tx Td Tm Tc To Ts] Ha Hq Hd Hwait Hdoom Hmark Hclear.
  pose proof (waiting_false _ Hwait) as [Hown Hst].
  assert (∀ key, referenced key db ↔ referenced key (st_workspace st)) as Hr
    by (intros key; unfold referenced; by rewrite Ha). split.
  - by apply queue_step.
  - split; cbn.
    + destruct Sa as [Hp Hk]. split; rewrite Ha; [exact Hp|exact Hk].
    + intros k Hx. rewrite Hr. by apply Ss.
    + intros k Hk. rewrite Hr. destruct (Hq k Hk) as [?|Hd']; [by apply Sq|].
      split; [apply Tx; by right|by apply Td].
  - intros t0 [= <-]. split; [|split; [by right|]].
    + split; cbn; try rewrite Hown; try rewrite Hclear.
      * intros k [?%elem_of_nil|[?|Hk]%Hdoom]; [done|apply Tx; by right|]. by apply (Sq k).
      * intros k [?|Hk]%Hdoom; rewrite Hr; [by apply Td|]. by apply (Sq k).
      * intros k [?|?]%Hmark; [by apply Tm|done].
      * by intros k ?%elem_of_nil.
      * by intros k ?%elem_of_nil.
      * apply Hst.
    + intros k [?|?]%Hdoom; auto.
Qed.

Lemma site_step_refl mine gone st : site_step mine gone st st.
Proof. split; auto. Qed.

(** A step that reads. *)
Lemma idle_step st t o :
  SiteInv st → TaskInv st t →
  (∀ t', o = Some t' → waiting t' = false ∧ (∀ k, k ∈ doomed t' → k ∈ doomed t)
     ∧ (∀ k, k ∈ marked t' → k ∈ marked t ∨ ¬ pinned k (st_processing st)) ∧ cleared t' = []) →
  step_ok st t o st.
Proof.
  intros HS [Tx Td Tm Tc To Ts] Ho. split; [apply site_step_refl|done|].
  intros t' Ht. destruct (Ho t' Ht) as (Hwait & Hdoom & Hmark & Hclear).
  destruct (waiting_false _ Hwait) as [Hown Hst]. split; [|auto].
  split; rewrite ?Hown, ?Hclear; try (by intros k ?%elem_of_nil); [..|apply Hst].
  - intros k [?%elem_of_nil|?%Hdoom]; [done|auto].
  - intros k ?%Hdoom. by apply Td.
  - intros k [?|?]%Hmark; [by apply Tm|done].
Qed.

(** An object is put for the transaction. *)
Lemma put_step st key todo staged op :
  let t := Staging (key :: todo) staged op in
  SiteInv st → TaskInv st t →
  step_ok st t (task_step update_retention s now t st).1 (task_step update_retention s now t st).2.
Proof.
  intros t [Sa Ss Sq] [Tx Td Tm Tc To (Hop & Hkeys & Hst)]. simpl.
  destruct (put_object (s 0%nat) key (st_objects st)) as [stored objects] eqn:Hput.
  apply put_object_spec in Hput as (Hsub & Hkept & Hdone).
  assert (key ∈ owned t) as Hkey by (apply elem_of_app; right; left).
  split.
  - apply store_step; [|by auto]. intros k [?| ->]%Hsub; auto.
  - split; cbn; [done| |done]. intros k Hx Huse. apply Hkept. by apply Ss.
  - cbn. intros t' [= <-]. destruct stored.
    + split; [split; cbn|].
      * intros k [Hk|Hk]; [|by apply elem_of_nil in Hk]. apply Tx. left. by rewrite <-app_assoc in Hk.
      * by intros k ?%elem_of_nil.
      * by intros k ?%elem_of_nil.
      * by intros k ?%elem_of_nil.
      * intros k Hk. apply To. by rewrite <-app_assoc in Hk.
      * split_and!; [done|by rewrite <-app_assoc|]. cbn.
        intros k [?| ->%list_elem_of_singleton]%elem_of_app; [by apply Hkept, Hst|by apply Hdone].
      * split; [left; cbn; by rewrite <-app_assoc|]. by intros k ?%elem_of_nil.
    + assert (∀ k, k ∈ key :: staged → k ∈ owned t) as Hsubset.
      { intros k [->|?]%elem_of_cons; [done|]. apply elem_of_app. by left. }
      split; [split; cbn|].
      * intros k [?%elem_of_nil|?%Hsubset]; [done|auto].
      * intros k ?%Hsubset. by apply To.
      * intros k ?%Hsubset. by apply To.
      * by intros k ?%elem_of_nil.
      * by intros k ?%elem_of_nil.
      * done.
      * split; [by right|]. intros k ?%Hsubset. auto.
Qed.

(** The transaction, after the last object. *)
Lemma commit_step st staged op :
  let t := Staging [] staged op in
  SiteInv st → TaskInv st t →
  step_ok st t (task_step update_retention s now t st).1 (task_step update_retention s now t st).2.
Proof.
  intros t [Sa Ss Sq] [Tx Td Tm Tc To (Hop & Hkeys & Hst)]. rewrite app_nil_r in Hkeys.
  cbn [task_step fst snd]. set (db := st_workspace st) in *. set (db' := run_workspace update_retention s now op db).
  assert (owned t = staged) as Hown by by apply app_nil_r.
  assert (stored_outcome staged db (run_stored s now op db) db') as Hout.
  { rewrite <-Hkeys. apply run_stored_spec; [done|done|]. rewrite Hkeys. intros key Hk.
    rewrite <-Hown in Hk. destruct (To key Hk) as (? & ? & _). done. }
  assert (objects_step staged db db') as [Ai Rf Rl Q K].
  { assert (objects_step staged db db) by by apply objects_step_shelved.
    unfold stored_outcome in Hout. destruct (run_stored _ _ _ _) as [| |keys].
    - by rewrite Hout.
    - destruct Hout as [->|?]; done.
    - apply Hout. }
  split.
  - apply tables_step; rewrite ?Hown; fold db; [exact Rf| |exact Rl|by left; apply K].
    intros key [?|(_ & ? & _)]%Q; auto.
  - split; cbn; [exact Ai| |].
    + intros key Hx [[Hr|Hk]%Rf|Hp]; [by apply Ss; auto|by apply Hst|by apply Ss; auto].
    + intros key [Hk|(Hx & _ & Hr)]%Q; [|done]. destruct (Sq key Hk) as [Hx Hr]. split; [done|].
      intros [?|Hin]%Rf; [done|]. rewrite <-Hown in Hin. by destruct (To key Hin) as (_ & [] & _).
  - intros t' Ht'. change (match run_stored s now op db with
      | NotCommitted => Some (Cleaning staged)
      | CommitFailed => None
      | Committed keys => Some (Removing (filter (λ key, is_external_key key = true) keys))
      end = Some t') in Ht'.
    change (task_step update_retention s now t st).2 with (st <| st_workspace := db' |>).
    unfold stored_outcome in Hout. destruct (run_stored _ _ _ _) as [| |keys]; [|done|].
    + injection Ht' as <-. rewrite Hout. split; [split; cbn|].
      * intros k [?%elem_of_nil|?]; [done|]. apply Tx. left. by rewrite Hown.
      * intros k Hk. rewrite <-Hown in Hk. by apply To.
      * intros k Hk. rewrite <-Hown in Hk. by apply To.
      * by intros k ?%elem_of_nil.
      * by intros k ?%elem_of_nil.
      * done.
      * split; [by right|]. intros k Hk. rewrite Hown. auto.
    + injection Ht' as <-. destruct Hout as [_ Hrel].
      assert (∀ k, k ∈ filter (λ key, is_external_key key = true) keys →
        is_external_key k = true ∧ referenced k db ∧ ¬ referenced k db') as Hin.
      { intros k [Hx Hk]%list_elem_of_filter. split; [done|]. by apply Hrel. }
      split; [split; cbn|].
      * intros k [?%elem_of_nil|Hk]; [done|]. by apply Hin.
      * intros k Hk. by apply Hin.
      * by intros k ?%elem_of_nil.
      * by intros k ?%elem_of_nil.
      * by intros k ?%elem_of_nil.
      * done.
      * split; [by right|]. intros k Hk. right. right. left. by apply Hin.
Qed.

Lemma autocommit_db {A} (q : WorkspaceDB → result sqlx_error (A * WorkspaceDB)) db :
  (autocommit s 0 q db).2 = db ∨ ∃ a, q db = Ok (a, (autocommit s 0 q db).2).
Proof.
  unfold autocommit. destruct (q db) as [[a db']|e]; [|by left].
  destruct (s 0%nat); simpl; [right; by exists a|by left|right; by exists a].
Qed.

Lemma object_is_pinned_true key processing : object_is_pinned key processing = true ↔ pinned key processing.
Proof.
  unfold object_is_pinned, pinned. rewrite exists_row_true. split.
  - intros ([job k] & v & Hk & ?%bool_decide_eq_true). simpl in *. subst. exists job. by exists v.
  - intros (job & v & Hk). exists (job, key), v. split; [done|]. by apply bool_decide_eq_true.
Qed.

Lemma object_is_pinned_false key processing :
  object_is_pinned key processing = false → ¬ pinned key processing.
Proof. intros Hf Hp%object_is_pinned_true. congruence. Qed.

(** A claimed row is in the queue, and its object is not pinned. *)
Lemma claim_due_object_spec processing db r db' :
  claim_due_object now processing db = Ok (r, db') →
  assets db' = assets db ∧ (∀ key, queued key db' ↔ queued key db)
  ∧ ∀ key n, r = Some (key, n) → queued key db ∧ ¬ pinned key processing.
Proof.
  unfold claim_due_object. destruct (due_object now processing db) as [[key row]|] eqn:Hdue.
  2:{ intros [= <- <-]. by split_and!. }
  destruct (_ <=? _); [done|]. intros [= <- <-].
  apply first_by_Some in Hdue as [[Hk Hd]%elem_of_select _].
  split_and!; [done| |].
  - intros k. unfold queued. cbn. destruct (decide (key = k)) as [->|Hne].
    + rewrite lookup_insert_eq, Hk. split; by eexists.
    + by rewrite lookup_insert_ne.
  - intros k n [= <- _]. split; [by eexists|]. apply object_is_pinned_false.
    unfold is_due in Hd. apply andb_true_iff in Hd as [_ Hd]. by apply negb_true_iff in Hd.
Qed.

Ltac deletes Hd deleted :=
  eapply delete_step; [done|done| |exact Hd|by destruct deleted|..];
  [by left|destruct deleted; simpl; intros k; rewrite ?elem_of_cons; tauto
  |destruct deleted; simpl; intros k; rewrite ?elem_of_cons, ?elem_of_nil; tauto
  |destruct deleted; simpl; intros k; rewrite ?list_elem_of_singleton, ?elem_of_nil; tauto].

(** A statement on one row of the queue, on the pool. *)
Lemma row_step st t key f t' :
  SiteInv st → TaskInv st t → key ∈ doomed t →
  (∀ db, assets (f db) = assets db ∧ (∀ k, k ≠ key → queued k (f db) ↔ queued k db)
         ∧ (queued key db → queued key (f db) ∨ key ∈ cleared t)) →
  waiting t' = false → (∀ k, k ∈ doomed t' → k ∈ doomed t) → (∀ k, k ∈ marked t' → k ∈ marked t) →
  cleared t' = [] →
  step_ok st t (Some t') (st <| st_workspace := (autocommit s 0 (writes f) (st_workspace st)).2 |>).
Proof.
  intros HS HT Hkey Hf Hwait Hdoom Hmark Hclear. apply queue_task_step; auto.
  - destruct (autocommit_db (writes f) (st_workspace st)) as [->|[? [= _ <-]]]; [done|apply Hf].
  - intros k Hk. destruct (autocommit_db (writes f) (st_workspace st)) as [Heq|[? [= _ Heq]]];
      rewrite ?Heq in Hk; [by left|]. rewrite <-Heq in Hk.
    destruct (decide (k = key)) as [->|Hne]; [by right|]. left. by apply Hf.
  - intros k Hk. destruct (autocommit_db (writes f) (st_workspace st)) as [->|[? [= _ <-]]]; [by left|].
    destruct (decide (k = key)) as [->|Hne]; [|left; by apply Hf].
    destruct (Hf (st_workspace st)) as (_ & _ & Hd). destruct (Hd Hk) as [?|Hc]; [by left|right].
    by apply (ti_cleared _ _ HT).
Qed.

Lemma inserted_row key r db :
  assets (db <| deletion_queue := <[key := r]> (deletion_queue db) |>) = assets db
  ∧ (∀ k, k ≠ key → queued k (db <| deletion_queue := <[key := r]> (deletion_queue db) |>) ↔ queued k db)
  ∧ queued key (db <| deletion_queue := <[key := r]> (deletion_queue db) |>).
Proof.
  split_and!; [done| |].
  - intros k Hne. unfold queued. cbn. by rewrite lookup_insert_ne.
  - unfold queued. cbn. rewrite lookup_insert_eq. by eexists.
Qed.

Lemma cleared_row key db :
  assets (clear_object_deletion key db) = assets db
  ∧ ∀ k, k ≠ key → queued k (clear_object_deletion key db) ↔ queued k db.
Proof. split; [done|]. intros k Hne. unfold queued. cbn. by rewrite lookup_delete_ne. Qed.

Lemma deferred_row key n db :
  assets (defer_object_deletion now key n db) = assets db
  ∧ ∀ k, queued k (defer_object_deletion now key n db) ↔ queued k db.
Proof.
  split; [done|]. intros k. unfold queued, defer_object_deletion. cbn.
  by rewrite lookup_alter_is_Some.
Qed.

Lemma task_step_ok st t :
  SiteInv st → TaskInv st t →
  step_ok st t (task_step update_retention s now t st).1 (task_step update_retention s now t st).2.
Proof.
  intros HS HT. destruct t as [[|key todo] staged op|[|key keys]|key keys|[|key keys]|key keys|key keys| |key n|key|key n].
  - by apply commit_step.
  - by apply put_step.
  - by apply idle_step.
  - simpl. rewrite external_not_inline by (apply (ti_external _ _ HT); right; left).
    destruct (delete_object _ _ _) as [deleted objects] eqn:Hd. simpl.
    deletes Hd deleted.
  - simpl. eapply (row_step _ _ key); [done|done|by left| |done|intros k; by right|done|done].
    intros db. destruct (inserted_row key (requeued_deletion now (deletion_queue db !! key)) db) as (? & ? & ?).
    split_and!; [done..|by left].
  - by apply idle_step.
  - apply idle_step; [done|done|]. simpl. intros t' [= <-].
    destruct (s 0%nat); [destruct (object_is_pinned key (st_processing st)) eqn:Hpin|..]; simpl;
      (split_and!; [done|..|done]); try (intros k ?; by right); try (by intros k ?%elem_of_nil); [done|].
    intros k ->%list_elem_of_singleton. right. by apply object_is_pinned_false.
  - simpl. destruct (delete_object _ _ _) as [deleted objects] eqn:Hd. simpl. deletes Hd deleted.
  - simpl. eapply (row_step _ _ key); [done|done|by left| |done|intros k; by right| |done];
      [|by intros k ?%elem_of_nil].
    intros db. destruct (cleared_row key db). split_and!; [done..|]. right. by left.
  - simpl. destruct (autocommit s 0 (claim_due_object now (st_processing st)) (st_workspace st)) as [r db'] eqn:Hc.
    assert (assets db' = assets (st_workspace st)
      ∧ (∀ k, queued k db' ↔ queued k (st_workspace st))
      ∧ ∀ key n, r = Ok (Some (key, n)) → queued key (st_workspace st) ∧ ¬ pinned key (st_processing st))
      as (Ha & Hq & Hclaim).
    { unfold autocommit in Hc. destruct (claim_due_object _ _ _) as [[c db1]|e] eqn:Hcl; [|by simplify_eq].
      apply claim_due_object_spec in Hcl as (Ha & Hq & Hcl).
      destruct (s 0%nat); simplify_eq; split_and!; try done. intros key n [= ->]. by eapply Hcl. }
    simpl. apply queue_task_step; [done|done|done|by intros k ?%Hq; left|by intros k ?%Hq; left|..];
      destruct r as [[[key n]|]|e]; simpl; try done; try (by intros k ?%elem_of_nil);
      destruct (Hclaim key n eq_refl); intros k ->%list_elem_of_singleton; by right.
  - simpl. destruct (delete_object _ _ _) as [deleted objects] eqn:Hd. simpl. deletes Hd deleted.
  - simpl. eapply (row_step _ _ key); [done|done|by left| |done|by intros k ?%elem_of_nil..|done].
    intros db. destruct (cleared_row key db). split_and!; [done..|]. right. by left.
  - simpl. eapply (row_step _ _ key); [done|done|by left| |done|by intros k ?%elem_of_nil..|done].
    intros db. destruct (deferred_row key n db) as [? Hd]. split_and!; [done|by intros k _; apply Hd|].
    intros ?. left. by apply Hd.
Qed.

End tasks.

(** ** Every step of the world *)

Section worlds.
Context `{Yrs} (update_retention : Z).

Lemma capture_pins_pinned s0 now0 job keys db key :
  pinned key (capture_pins s0 now0 job keys db).2 → pinned key db ∨ key ∈ keys.
Proof.
  unfold capture_pins.
  apply (transact_inv (λ db', pinned key db' → pinned key db ∨ key ∈ keys)); [by left|].
  unfold pin_project_assets. apply wp_bind. set (external := filter _ keys).
  assert (∀ k, k ∈ external → k ∈ keys) as Hsub by by intros k [_ ?]%list_elem_of_filter.
  eapply (wp_mono _ (λ _, True)); [apply (wp_for _ _ _ (λ l db', (∀ k, k ∈ l → k ∈ keys)
    ∧ (pinned key db' → pinned key db ∨ key ∈ keys)))|done|].
  - split; [exact Hsub|by left].
  - intros k l db1 n1 [Hl Hp]. apply wp_exec; [done|]. unfold insert_pin.
    destruct (jobs db1 !! job); [|done]. intros [] db2 [= <-]. split; [intros k' ?; apply Hl; by right|].
    destruct (pins db1 !! (job, k)); [done|]. intros (job' & v & Hk). cbn in Hk.
    apply lookup_insert_Some in Hk as [[[= _ <-] _]|[_ Hk]]; [right; apply Hl; by left|].
    apply Hp. exists job'. by exists v.
  - intros [] db2 n2 [_ Hp]. by apply wp_ret.
Qed.

(** A capture pins what the assets of the project refer to. *)
Lemma capture_pinned st job project key s0 now0 :
  pinned key (st_processing (capture_project_snapshot s0 now0 job project st)) →
  pinned key (st_processing st) ∨ referenced key (st_workspace st).
Proof.
  unfold capture_project_snapshot.
  destruct (lock_project_content_snapshot project (st_workspace st)) as [snapshot|] eqn:Hs; [|by left].
  cbn. intros [?|Hk]%capture_pins_pinned; [by left|right].
  apply list_elem_of_fmap in Hk as ([path a] & -> & Ha). apply elem_of_map_to_list in Ha.
  unfold lock_project_content_snapshot in Hs. destruct (project_rows _ !! project); [|done].
  simpl in Hs. injection Hs as <-. cbn in Ha. apply elem_of_list_to_map_2 in Ha.
  apply list_elem_of_fmap in Ha as ([id row] & [= -> ->] & Hin).
  unfold rows_of in Hin. apply elem_of_map_to_list, map_lookup_filter_Some in Hin as [Hin _].
  by exists id, row.
Qed.

Lemma capture_tables st job project s0 now0 :
  st_workspace (capture_project_snapshot s0 now0 job project st) = st_workspace st
  ∧ st_objects (capture_project_snapshot s0 now0 job project st) = st_objects st.
Proof. unfold capture_project_snapshot. by destruct (lock_project_content_snapshot _ _). Qed.

(** Only the pins change, and new ones are of objects in use. *)
Lemma pins_step st st' :
  SiteInv st → st_workspace st' = st_workspace st → st_objects st' = st_objects st →
  (∀ key, pinned key (st_processing st') → pinned key (st_processing st) ∨ referenced key (st_workspace st)) →
  site_step [] [] st st' ∧ SiteInv st'.
Proof.
  intros [Sa Ss Sq] Hw Ho Hp. split; split; rewrite ?Hw, ?Ho; auto.
  intros key Hx [?|[?|?]%Hp]; auto.
Qed.

(** ** Every step of the world *)

Lemma owned_or_doomed t : owned t = [] ∨ doomed t = [].
Proof. destruct t; auto. Qed.

(** The world after a step of one of its tasks [t], or of none. *)
Section world.
Context (w : World) (l1 l2 : list Task) (t : option Task).
Hypothesis (HW : WorldInv w) (Htasks : w_tasks w = l1 ++ option_list t ++ l2).
Let mine := option_list t ≫= owned.
Let gone := option_list t ≫= doomed.

Lemma stepping key : key ∈ mine ∨ key ∈ gone →
  ∃ t0, t = Some t0 ∧ t0 ∈ w_tasks w ∧ (key ∈ mine → key ∈ owned t0) ∧ (key ∈ gone → key ∈ doomed t0).
Proof.
  unfold mine, gone. destruct t as [t0|]; simpl; [|by intros [?%elem_of_nil|?%elem_of_nil]].
  intros _. exists t0. rewrite !app_nil_r. split_and!; [done| |done..]. rewrite Htasks. set_solver.
Qed.

Lemma other_task t1 : t1 ∈ l1 ++ l2 → t1 ∈ w_tasks w.
Proof. rewrite Htasks. set_solver. Qed.

(** The keys of the others are apart from those of the stepping task. *)
Lemma other_apart t1 key :
  t1 ∈ l1 ++ l2 → (key ∈ owned t1 → key ∉ mine ∧ key ∉ gone) ∧ (key ∈ doomed t1 → key ∉ mine).
Proof.
  intros Hin. split; [intros Hk; split|].
  - intros Hm. pose proof (wi_apart _ HW) as Hnd. rewrite Htasks in Hnd.
    rewrite !bind_app in Hnd. fold mine in Hnd.
    apply NoDup_app in Hnd as (_ & H12 & (_ & H23 & _)%NoDup_app).
    apply elem_of_app in Hin as [Hin|Hin].
    + apply (H12 key); [apply list_elem_of_bind; eauto|]. apply elem_of_app. by left.
    + apply (H23 key Hm). apply list_elem_of_bind. eauto.
  - intros Hg. destruct (stepping key) as (t0 & _ & Ht0 & _ & Hd); [by right|].
    by apply (wi_disjoint _ HW t1 t0 key (other_task _ Hin) Ht0 Hk), Hd.
  - intros Hk Hm. destruct (stepping key) as (t0 & _ & Ht0 & Ho & _); [by left|].
    by apply (wi_disjoint _ HW t0 t1 key Ht0 (other_task _ Hin)); [apply Ho|].
Qed.

Lemma world_inv_intro st' o :
  site_step mine gone (w_site w) st' → SiteInv st' →
  (∀ t', o = Some t' → TaskInv st' t' ∧ (owned t' = mine ∨ owned t' = [])
    ∧ ∀ key, key ∈ doomed t' → key ∈ gone ∨ key ∈ mine
             ∨ referenced key (st_workspace (w_site w)) ∨ queued key (st_workspace (w_site w))) →
  WorldInv (MkWorld st' (l1 ++ option_list o ++ l2) (w_drawn w)).
Proof.
  intros Hstep HS Hnew.
  assert (∀ t1, t1 ∈ l1 ++ option_list o ++ l2 → t1 ∈ l1 ++ l2 ∨ o = Some t1) as Hcases.
  { intros t1. destruct o as [t'|]; simpl; [|by left].
    rewrite !elem_of_app, elem_of_cons. intros [?|[->|?]]; auto. }
  split; cbn.
  - done.
  - intros t1 [Hin|Hnew1]%Hcases; [|by apply Hnew].
    eapply task_undisturbed; [exact Hstep|by apply (wi_tasks _ HW), other_task|..]; intros key Hk;
      by apply (other_apart t1).
  - pose proof (wi_apart _ HW) as Hnd. rewrite Htasks, !bind_app in Hnd. fold mine in Hnd.
    eapply sublist_NoDup; [exact Hnd|]. rewrite !bind_app. apply sublist_app; [done|].
    apply sublist_app; [|done]. destruct o as [t'|]; simpl; [|apply sublist_nil_l].
    rewrite app_nil_r. destruct (Hnew t' eq_refl) as (_ & [->| ->] & _); [done|apply sublist_nil_l].
  - intros t1 t2 key H1 H2 Ho Hd. apply Hcases in H1 as [H1|H1], H2 as [H2|H2].
    + by apply (wi_disjoint _ HW t1 t2 key (other_task _ H1) (other_task _ H2)).
    + destruct (Hnew t2 H2) as (_ & _ & Hd2). destruct (other_apart t1 key H1) as [Hap _].
      destruct (ti_owned _ _ (wi_tasks _ HW _ (other_task _ H1)) _ Ho) as (Hr & Hq & _).
      destruct (Hd2 key Hd) as [?|[?|[?|?]]]; [by destruct Hap..|done|done].
    + destruct (Hnew t1 H1) as (_ & [Heq|Heq] & _); rewrite Heq in Ho; [|by apply elem_of_nil in Ho].
      by destruct (other_apart t2 key H2) as [_ []].
    + assert (t1 = t2) as -> by congruence. destruct (owned_or_doomed t2) as [Hn|Hn].
      * rewrite Hn in Ho. by apply elem_of_nil in Ho.
      * rewrite Hn in Hd. by apply elem_of_nil in Hd.
  - pose proof (wi_drawn _ HW) as Hdrawn. intros key Hx.
    assert (key ∈ mine ∨ key ∈ gone → key ∈ w_drawn w) as Hown.
    { intros Hk. destruct (stepping key Hk) as (t0 & _ & Ht0 & Ho & Hd). apply Hdrawn; [done|].
      do 4 right. exists t0. split; [done|]. destruct Hk; auto. }
    destruct Hstep as [Rf P Q Put _ _ _].
    intros [[?|?]%Rf|[[?|[?|?]]%Q|[Hp|[[?|?]%Put|(t1 & [Hin|Hin]%Hcases & Hk)]]]]; auto 6.
    + apply P in Hp as [?|?]; auto.
    + apply Hdrawn; [done|]. do 4 right. exists t1. split; [by apply other_task|done].
    + destruct (Hnew t1 Hin) as (_ & Ho & Hd). destruct Hk as [Hk|Hk].
      * destruct Ho as [Heq|Heq]; rewrite Heq in Hk; [auto|by apply elem_of_nil in Hk].
      * destruct (Hd key Hk) as [?|[?|[?|?]]]; auto.
Qed.
End world.

(** Keys that were never drawn are those of a new request alone. *)
Lemma request_inv w op :
  WorldInv w → stored_op op → Forall (λ key, key ∉ w_drawn w) (op_keys op) →
  WorldInv (MkWorld (w_site w) (Staging (op_keys op) [] op :: w_tasks w)
              (list_to_set (op_keys op) ∪ w_drawn w)).
Proof.
  intros HW Hop Hfresh. rewrite Forall_forall in Hfresh. pose proof Hop as (Hnd & Hx & _).
  rewrite Forall_forall in Hx. pose proof (wi_drawn _ HW) as Hdrawn.
  assert (∀ key, key ∈ op_keys op → ¬ referenced key (st_workspace (w_site w))
    ∧ ¬ queued key (st_workspace (w_site w)) ∧ ¬ pinned key (st_processing (w_site w))) as Hnew.
  { intros key Hk. split_and!; intros ?; apply (Hfresh key Hk), Hdrawn; auto. }
  assert (∀ key t, key ∈ op_keys op → t ∈ w_tasks w → key ∉ owned t ∧ key ∉ doomed t) as Hapart.
  { intros key t Hk Ht. split; intros ?; apply (Hfresh key Hk), Hdrawn; eauto 8. }
  split; cbn [w_site w_tasks w_drawn].
  - apply HW.
  - intros t [->|Ht]%elem_of_cons; [|by apply (wi_tasks _ HW)]. split; simpl; try (by intros k ?%elem_of_nil).
    + intros k [?|?%elem_of_nil]; [by apply Hx|done].
    + done.
    + split_and!; [done|done|by intros k ?%elem_of_nil].
  - rewrite bind_cons. simpl. apply NoDup_app. split_and!; [done| |apply (wi_apart _ HW)].
    intros k Hk (t & Hkt & Ht)%list_elem_of_bind. by destruct (Hapart k t Hk Ht).
  - intros t1 t2 key [->|H1]%elem_of_cons [->|H2]%elem_of_cons Ho; simpl in *.
    + by intros ?%elem_of_nil.
    + by apply (Hapart key t2).
    + by intros ?%elem_of_nil.
    + by apply (wi_disjoint _ HW t1 t2).
  - intros key Hk Hcase. apply elem_of_union. destruct (decide (key ∈ op_keys op)) as [Hin|Hin].
    + left. by apply elem_of_list_to_set.
    + right. apply Hdrawn; [done|]. destruct Hcase as [?|[?|[?|[?|(t & [->|Ht]%elem_of_cons & Hkt)]]]]; auto.
      * simpl in Hkt. destruct Hkt as [?|?%elem_of_nil]; done.
      * do 4 right. by exists t.
Qed.

Lemma world_step_inv w w' : WorldInv w → world_step update_retention w w' → WorldInv w'.
Proof.
  intros HW Hstep. pose proof (wi_site _ HW) as HS.
  destruct Hstep as [s now l1 t l2 w Htasks|op w Hop Hfresh|w|l1 t l2 w Htasks|s now job project w|processing w Hp].
  - assert (TaskInv (w_site w) t) as HT by (apply (wi_tasks _ HW); rewrite Htasks; set_solver).
    destruct (task_step_ok update_retention s now _ _ HS HT) as [Hss HS' Ht].
    apply (world_inv_intro w l1 l2 (Some t) HW Htasks); simpl; rewrite ?app_nil_r; done.
  - by apply request_inv.
  - apply (world_inv_intro w [] (w_tasks w) None HW eq_refl _ (Some Sweeping)); [apply site_step_refl|done|].
    intros t' [= <-]. split_and!; [|by right|by intros k ?%elem_of_nil].
    split; simpl; try (by intros k ?%elem_of_nil); [|done]. by intros k [?%elem_of_nil|?%elem_of_nil].
  - apply (world_inv_intro w l1 l2 (Some t) HW Htasks _ None); [apply site_step_refl|done|done].
  - destruct (capture_tables (w_site w) job project s now).
    destruct (pins_step (w_site w) (capture_project_snapshot s now job project (w_site w)) HS) as [Hss HS'];
      [done|done|intros key; apply capture_pinned|].
    apply (world_inv_intro w [] (w_tasks w) None HW eq_refl _ None); [exact Hss|done|done].
  - destruct (pins_step (w_site w) (MkSite (st_workspace (w_site w)) processing (st_objects (w_site w))) HS)
      as [Hss HS']; [done|done| |].
    { intros key (job & Hk). left. exists job. by apply Hp. }
    apply (world_inv_intro w [] (w_tasks w) None HW eq_refl _ None); [exact Hss|done|done].
Qed.
End worlds.

(** ** Reachable worlds *)

Section theorems.
Context `{Yrs} (update_retention : Z).

(** No asset, nothing queued or pinned, no task; the keys of stray objects
    count as drawn. *)
Definition idle_world (w : World) : Prop :=
  assets (st_workspace (w_site w)) = ∅ ∧ deletion_queue (st_workspace (w_site w)) = ∅
  ∧ pins (st_processing (w_site w)) = ∅ ∧ w_tasks w = [] ∧ st_objects (w_site w) ⊆ w_drawn w.

Inductive world_reachable : World → Prop :=
| world_start w : idle_world w → world_reachable w
| world_next w w' : world_reachable w → world_step update_retention w w' → world_reachable w'.

Lemma world_reachable_inv w : world_reachable w → WorldInv w.
Proof.
  induction 1 as [w (Ha & Hq & Hp & Ht & Ho)|w w' _ IH Hstep]; [|by eapply world_step_inv].
  assert (∀ key, ¬ referenced key (st_workspace (w_site w))) as Hr
    by (intros key (i & a & Hk & _); by rewrite Ha, lookup_empty in Hk).
  assert (∀ key, ¬ queued key (st_workspace (w_site w))) as Hnq
    by (intros key; unfold queued; rewrite Hq, lookup_empty; by intros [? ?]).
  assert (∀ key, ¬ pinned key (st_processing (w_site w))) as Hnp
    by (intros key (j & v & Hk); by rewrite Hp, lookup_empty in Hk).
  split; rewrite ?Ht.
  - split; [|by intros key _ [?%Hr|?%Hnp]|by intros key ?%Hnq].
    split; rewrite Ha; intros *; by rewrite lookup_empty.
  - by intros t ?%elem_of_nil.
  - constructor.
  - by intros t t' key ?%elem_of_nil.
  - intros key _ [?%Hr|[?%Hnq|[?%Hnp|[?|(t & ?%elem_of_nil & _)]]]]; [done..|set_solver|done].
Qed.

(** C16: an object in use is never removed: however uploads, imports, copies,
    deletions, captures, the cleanup after failed requests and the cleanup
    worker interleave, and whatever the database or the store fails to do or to
    acknowledge, every object that an asset refers to or a processing job has
    pinned is in the store. *)
Theorem objects_in_use_stay_stored w key :
  world_reachable w → is_external_key key = true →
  referenced key (st_workspace (w_site w)) ∨ pinned key (st_processing (w_site w)) →
  key ∈ st_objects (w_site w).
Proof. intros HW%world_reachable_inv. apply (wi_site _ HW). Qed.

(** What a step does to keys that no running request owns. *)
Lemma world_step_keys w w' key :
  WorldInv w → world_step update_retention w w' → is_external_key key = true →
  key ∈ w_drawn w → (∀ t, t ∈ w_tasks w → key ∉ owned t) →
  key ∈ w_drawn w' ∧ (∀ t, t ∈ w_tasks w' → key ∉ owned t)
  ∧ ∃ mine gone, site_step mine gone (w_site w) (w_site w') ∧ key ∉ mine.
Proof.
  intros HW Hstep Hx Hd Hown. pose proof (wi_site _ HW) as HS.
  destruct Hstep as [s now l1 t l2 w Htasks|op w Hop Hfresh|w|l1 t l2 w Htasks|s now job project w|processing w Hp];
    cbn [w_site w_tasks w_drawn].
  - assert (t ∈ w_tasks w) as Hin by (rewrite Htasks; set_solver).
    destruct (task_step_ok update_retention s now _ _ HS (wi_tasks _ HW _ Hin)) as [Hss HS' Ht].
    split; [done|]. split; [|exists (owned t), (doomed t); auto].
    intros t1 H1. assert (t1 ∈ w_tasks w ∨ (task_step update_retention s now t (w_site w)).1 = Some t1) as [?|Hnew].
    { rewrite Htasks. destruct (task_step _ _ _ _ _).1 as [t'|]; simpl in H1; [|set_solver].
      rewrite !elem_of_app, !elem_of_cons in *. destruct H1 as [?|[->|?]]; auto. }
    { by apply Hown. }
    destruct (Ht t1 Hnew) as (_ & [->| ->] & _); [by apply Hown|by intros ?%elem_of_nil].
  - split; [set_solver|]. split; [|exists [], []; split; [apply site_step_refl|by intros ?%elem_of_nil]].
    intros t [->|Ht]%elem_of_cons; [|by apply Hown]. simpl. rewrite Forall_forall in Hfresh.
    intros Hk. by apply (Hfresh key).
  - split; [done|]. split; [|exists [], []; split; [apply site_step_refl|by intros ?%elem_of_nil]].
    intros t [->|Ht]%elem_of_cons; [by intros ?%elem_of_nil|by apply Hown].
  - split; [done|]. split; [|exists [], []; split; [apply site_step_refl|by intros ?%elem_of_nil]].
    intros t1 H1. apply Hown. rewrite Htasks. set_solver.
  - destruct (capture_tables (w_site w) job project s now).
    destruct (pins_step (w_site w) (capture_project_snapshot s now job project (w_site w)) HS) as [Hss _];
      [done|done|intros k; apply capture_pinned|].
    split_and!; [done|done|]. exists [], []. split; [done|by intros ?%elem_of_nil].
  - destruct (pins_step (w_site w) (MkSite (st_workspace (w_site w)) processing (st_objects (w_site w))) HS)
      as [Hss _]; [done|done| |].
    { intros k (job & Hk). left. exists job. by apply Hp. }
    split_and!; [done|done|]. exists [], []. split; [done|by intros ?%elem_of_nil].
Qed.

(** No garbage is forgotten: an object that some asset referred to is, at
    any later time, still referred to, or queued for removal, or gone from the
    store, whatever failed in between. *)
Theorem released_objects_stay_queued w w' key :
  world_reachable w → rtc (world_step update_retention) w w' → is_external_key key = true →
  referenced key (st_workspace (w_site w)) →
  referenced key (st_workspace (w_site w')) ∨ queued key (st_workspace (w_site w'))
  ∨ key ∉ st_objects (w_site w').
Proof.
  intros HW%world_reachable_inv Hsteps Hx Hr.
  assert (key ∈ w_drawn w) as Hd by (apply (wi_drawn _ HW); auto).
  assert (∀ t, t ∈ w_tasks w → key ∉ owned t) as Hown.
  { intros t Ht Hk. by destruct (ti_owned _ _ (wi_tasks _ HW _ Ht) _ Hk) as [[] _]. }
  assert (referenced key (st_workspace (w_site w)) ∨ queued key (st_workspace (w_site w))
          ∨ key ∉ st_objects (w_site w)) as Hk by auto. clear Hr.
  induction Hsteps as [w|w w1 w2 Hstep _ IH]; [done|].
  destruct (world_step_keys _ _ _ HW Hstep Hx Hd Hown) as (Hd1 & Hown1 & mine & gone & Hss & Hmine).
  apply IH; [by eapply world_step_inv|done|done|].
  destruct Hss as [_ _ _ Put _ Let Deq].
  destruct Hk as [Hk|[Hk|Hk]].
  - destruct (Let key Hx Hk); auto.
  - destruct (Deq key Hk); auto.
  - right. right. intros [?|?]%Put; done.
Qed.
End theorems.

(** ** The cleanup worker catches up *)

(** One round of a worker alone, on a database and a store that answer: claim,
    remove, delete the row. *)
Definition sweep_round `{Yrs} (update_retention : Z) (now : time) (st : Site) : Site :=
  match task_step update_retention healthy now Sweeping st with
  | (Some (SweepingClaimed key n as t), st) =>
      let '(t, st) := task_step update_retention healthy now t st in
      match t with
      | Some t => (task_step update_retention healthy now t st).2
      | None => st
      end
  | (_, st) => st
  end.
Fixpoint sweep_rounds `{Yrs} (update_retention : Z) (now : time) (rounds : nat) (st : Site) : Site :=
  match rounds with
  | O => st
  | S rounds => sweep_rounds update_retention now rounds (sweep_round update_retention now st)
  end.

(** Claims are counted in a 32-bit column. *)
Definition countable (db : WorkspaceDB) : Prop :=
  ∀ key r, deletion_queue db !! key = Some r → dq_attempt_count r < i32_max.

Definition due_rows (now : time) (st : Site) : gmap text DeletionRow :=
  filter (λ kr, is_due now (st_processing st) kr.1 kr.2 = true) (deletion_queue (st_workspace st)).

Section sweeping.
Context `{Yrs} (update_retention : Z) (now : time).

Lemma due_object_None st :
  due_object now (st_processing st) (st_workspace st) = None → due_rows now st = ∅.
Proof.
  intros Hn%first_by_None. apply map_eq. intros k. rewrite lookup_empty. apply eq_None_not_Some.
  intros [r [Hr Hd]%map_lookup_filter_Some].
  assert ((k, r) ∈ @nil (text * DeletionRow)) as []%elem_of_nil. rewrite <-Hn. by apply elem_of_select.
Qed.

Lemma due_object_Some st key r :
  due_object now (st_processing st) (st_workspace st) = Some (key, r) → due_rows now st !! key = Some r.
Proof. intros [[? ?]%elem_of_select _]%first_by_Some. by apply map_lookup_filter_Some. Qed.

(** A round removes the object that has been due longest, and its row. *)
Lemma sweep_round_spec st :
  countable (st_workspace st) →
  match due_object now (st_processing st) (st_workspace st) with
  | Some (key, _) =>
      sweep_round update_retention now st
      = MkSite (clear_object_deletion key (st_workspace st)) (st_processing st) (st_objects st ∖ {[key]})
  | None => sweep_round update_retention now st = st
  end.
Proof.
  intros Hc. unfold sweep_round. simpl. unfold autocommit, claim_due_object.
  destruct (due_object now (st_processing st) (st_workspace st)) as [[key r]|] eqn:Hdue; simpl.
  2:{ by destruct st. }
  apply due_object_Some, map_lookup_filter_Some in Hdue as [Hr _].
  specialize (Hc _ _ Hr). rewrite (proj2 (Z.leb_gt _ _)) by done. simpl.
  unfold clear_object_deletion. cbn. f_equal. destruct (st_workspace st). cbn. f_equal.
  by rewrite delete_insert_eq.
Qed.

Lemma due_rows_cleared key st :
  due_rows now (MkSite (clear_object_deletion key (st_workspace st)) (st_processing st)
                  (st_objects st ∖ {[key]})) = delete key (due_rows now st).
Proof. unfold due_rows. cbn. by rewrite map_filter_delete. Qed.

(** C17: the cleanup worker catches up: while the database and the store answer,
    as many rounds as there are due rows remove exactly the objects of these
    rows, and leave no row due. *)
Theorem sweeping_removes_the_due_objects st :
  countable (st_workspace st) →
  let st' := sweep_rounds update_retention now (size (due_rows now st)) st in
  due_rows now st' = ∅
  ∧ (∀ key, key ∈ st_objects st' ↔ key ∈ st_objects st ∧ due_rows now st !! key = None)
  ∧ (∀ key, queued key (st_workspace st') ↔ queued key (st_workspace st) ∧ due_rows now st !! key = None).
Proof.
  remember (size (due_rows now st)) as n eqn:Hn. intros Hc. cbv zeta.
  induction n as [|n IH] in st, Hn, Hc |- *; simpl.
  { symmetry in Hn. apply map_size_empty_inv in Hn. rewrite Hn. setoid_rewrite lookup_empty.
    split_and!; [done|tauto..]. }
  pose proof (sweep_round_spec st Hc) as Hround.
  destruct (due_object now (st_processing st) (st_workspace st)) as [[key r]|] eqn:Hdue.
  2:{ apply due_object_None in Hdue. by rewrite Hdue, map_size_empty in Hn. }
  apply due_object_Some in Hdue as Hr. rewrite Hround. clear Hround.
  set (st1 := MkSite _ _ _).
  assert (due_rows now st1 = delete key (due_rows now st)) as Hrows by apply due_rows_cleared.
  destruct (IH st1) as (Hnone & Hobjects & Hqueue).
  - rewrite Hrows, map_size_delete_Some by (by eexists). lia.
  - intros k r' Hk. cbn in Hk. apply lookup_delete_Some in Hk as [_ Hk]. by apply (Hc k).
  - split_and!; [done| |].
    + intros k. rewrite Hobjects, Hrows. cbn. destruct (decide (key = k)) as [->|Hne].
      * rewrite Hr. set_solver.
      * rewrite lookup_delete_ne by done. set_solver.
    + intros k. rewrite Hqueue, Hrows. unfold queued. cbn. destruct (decide (key = k)) as [->|Hne].
      * rewrite lookup_delete_eq, Hr. split; [by intros [[? ?] _]|by intros [_ ?]].
      * by rewrite !lookup_delete_ne.
Qed.
End sweeping.

(** ** A small run *)

Definition logo_key (n : N) : text := lit "projects/11/assets/" ++ [48 + n]%N.
Definition upload_logo (n : N) : WorkspaceOp :=
  OUploadAsset (80 + n)%N notes (lit "logo.png") (90 + n)%N (logo_key n) (lit "image/png") 1 None
    (MkActor (Some alice) None).

(** The task at a place of the list does its next request. *)
Definition run_task (sit : schedule * time * nat) (w : World) : World :=
  let '(s, now, i) := sit in
  match w_tasks w !! i with
  | Some t =>
      MkWorld (task_step retention s now t (w_site w)).2
        (take i (w_tasks w) ++ option_list (task_step retention s now t (w_site w)).1 ++ drop (S i) (w_tasks w))
        (w_drawn w)
  | None => w
  end.

Lemma run_task_steps sit w : rtc (world_step retention) w (run_task sit w).
Proof.
  destruct sit as [[s now] i]. unfold run_task. destruct (w_tasks w !! i) as [t|] eqn:Ht; [|done].
  apply rtc_once, step_task. symmetry. by apply take_drop_middle.
Qed.

Lemma run_tasks_steps sits w : rtc (world_step retention) w (fold_left (λ w sit, run_task sit w) sits w).
Proof. revert w. induction sits as [|sit sits IH]; intros w; [done|]. etrans; [apply run_task_steps|apply IH]. Qed.

Definition request (op : WorkspaceOp) (w : World) : World :=
  MkWorld (w_site w) (Staging (op_keys op) [] op :: w_tasks w) (list_to_set (op_keys op) ∪ w_drawn w).

Definition first_world : World := MkWorld (MkSite opened_workspace empty_db ∅) [] ∅.
(** The logo is uploaded twice; the store loses the answer to the removal of
    the first one, after the second upload was committed. *)
Definition lossy : schedule := λ _, Unacknowledged.
Definition first_upload : World :=
  fold_left (λ w sit, run_task sit w) [(healthy, 5, 0%nat); (healthy, 6, 0%nat); (healthy, 7, 0%nat)]
    (request (upload_logo 1) first_world).
Definition second_upload : World :=
  fold_left (λ w sit, run_task sit w)
    [(healthy, 8, 0%nat); (healthy, 9, 0%nat); (healthy, 10, 0%nat); (lossy, 11, 0%nat); (healthy, 12, 0%nat)]
    (request (upload_logo 2) first_upload).

Lemma request_steps op w :
  stored_op op → Forall (λ key, key ∉ w_drawn w) (op_keys op) →
  rtc (world_step retention) w (request op w).
Proof. intros. by apply rtc_once, step_request. Qed.

Lemma reachable_steps w w' :
  world_reachable retention w → rtc (world_step retention) w w' → world_reachable retention w'.
Proof. intros Hw Hs. revert Hw. induction Hs; [done|]. eauto using world_next. Qed.

Lemma logo_stored n : is_external_key (logo_key n) = true → stored_op (upload_logo n).
Proof. intros. split_and!; [apply NoDup_singleton|by apply Forall_singleton|done]. Qed.

Lemma first_upload_steps : rtc (world_step retention) first_world first_upload.
Proof.
  etrans; [|apply run_tasks_steps]. apply request_steps.
  - apply logo_stored. reflexivity.
  - apply Forall_singleton. apply not_elem_of_empty.
Qed.

Lemma second_upload_steps : rtc (world_step retention) first_upload second_upload.
Proof.
  etrans; [|apply run_tasks_steps]. apply request_steps.
  - apply logo_stored. reflexivity.
  - apply Forall_singleton. apply (bool_decide_unpack _). vm_compute. exact I.
Qed.

Lemma first_world_reachable : world_reachable retention first_world.
Proof. apply world_start. split_and!; reflexivity. Qed.

Definition stored_logos (w : World) : list bool :=
  (λ n, bool_decide (logo_key n ∈ st_objects (w_site w))) <$> [1; 2]%N.

Lemma objects_in_use_stay_stored_witness :
  referenced (logo_key 2) (st_workspace (w_site second_upload)) ∧ stored_logos second_upload = [false; true]
  ∧ logo_key 2 ∈ st_objects (w_site second_upload).
Proof.
  assert (referenced (logo_key 2) (st_workspace (w_site second_upload))) as Hr.
  { exists 81%N. eexists. split; [vm_compute; reflexivity|reflexivity]. }
  split_and!; [exact Hr|vm_compute; reflexivity|].
  apply (objects_in_use_stay_stored retention second_upload (logo_key 2)); [|reflexivity|left; exact Hr].
  eapply reachable_steps; [apply first_world_reachable|].
  etrans; [apply first_upload_steps|apply second_upload_steps].
Defined.

Lemma released_objects_stay_queued_witness :
  referenced (logo_key 1) (st_workspace (w_site first_upload))
  ∧ (referenced (logo_key 1) (st_workspace (w_site second_upload))
     ∨ queued (logo_key 1) (st_workspace (w_site second_upload))
     ∨ logo_key 1 ∉ st_objects (w_site second_upload)).
Proof.
  assert (referenced (logo_key 1) (st_workspace (w_site first_upload))) as Hr.
  { exists 81%N. eexists. split; [vm_compute; reflexivity|reflexivity]. }
  split; [exact Hr|].
  apply (released_objects_stay_queued retention first_upload second_upload (logo_key 1));
    [|apply second_upload_steps|reflexivity|exact Hr].
  eapply reachable_steps; [apply first_world_reachable|apply first_upload_steps].
Defined.

(** The row that the lost answer left is due later, and then swept. *)
Definition due_later : time := 1000000000.
Lemma sweeping_removes_the_due_objects_witness :
  size (due_rows due_later (w_site second_upload)) = 1%nat
  ∧ due_rows due_later (sweep_rounds retention due_later 1 (w_site second_upload)) = ∅.
Proof.
  split; [vm_compute; reflexivity|].
  apply (sweeping_removes_the_due_objects retention due_later (w_site second_upload)).
  intros key r Hr. revert key r Hr. change (map_Forall (λ _ r, dq_attempt_count r < i32_max)
    (deletion_queue (st_workspace (w_site second_upload)))).
  apply (bool_decide_unpack _). vm_compute. exact I.
Defined.
