(* ===== verification/Convergence.v ===== *)
(** * Collaboration: documents as sets of updates

    The updates of a CRDT commute and are idempotent, so a document depends on
    the set of updates applied to it, not on their order or number. *)
From S2P Require Import Prelude Store Text Paths AccessModel WorkspaceModel.
From S2P Require Import WorkspaceStatements Collaboration CollaborationSteps WorkspaceTheorems.

(** The documented laws of Yjs updates: they may be applied in any order and
    several times, and one that can be decoded applies to every document. *)
Class YrsConvergence `{YrsLaws} : Prop := {
  y_commute d u v : (y_apply d u ≫= λ d, y_apply d v) ≡ (y_apply d v ≫= λ d, y_apply d u);
  y_idempotent d u d' : y_apply d u = Some d' → y_apply d' u ≡ Some d';
  y_applies d u : is_Some (y_apply y_new u) → is_Some (y_apply d u);
}.

Section convergence.
Context `{YrsConvergence}.

(** The document has integrated the update. *)
Definition absorbs (d : ydoc) (u : bytes) : Prop := y_apply d u ≡ Some d.

#[export] Instance absorbs_proper : Proper ((≡) ==> (=) ==> iff) absorbs.
Proof.
  intros d d' Hd u ? <-. unfold absorbs. pose proof (y_apply_equiv d d' u Hd) as Hu.
  split; intros Ha; [by rewrite <-Hu, Ha, Hd|by rewrite Hu, Ha, Hd].
Qed.

Lemma y_bind_proper (o o' : option ydoc) u :
  o ≡ o' → (o ≫= λ d, y_apply d u) ≡ (o' ≫= λ d, y_apply d u).
Proof. intros [x y Hxy|]; simpl; [by apply y_apply_equiv|done]. Qed.

Lemma absorbs_applied d u d' : y_apply d u ≡ Some d' → absorbs d' u.
Proof.
  intros Hu. inversion Hu as [d1 ? He Hd|]. subst. rewrite <-He. unfold absorbs.
  eapply y_idempotent. symmetry. exact Hd.
Qed.

Lemma absorbs_later d u v d' : absorbs d u → y_apply d v ≡ Some d' → absorbs d' u.
Proof.
  intros Hu Hv. unfold absorbs in *. pose proof (y_commute d u v) as Hc.
  rewrite (y_bind_proper _ _ v Hu), (y_bind_proper _ _ u Hv) in Hc. simpl in Hc. by rewrite <-Hc, Hv.
Qed.

Lemma apply_all_absorbs L d d' u :
  apply_all d L ≡ Some d' → u ∈ L ∨ absorbs d u → absorbs d' u.
Proof.
  induction L as [|v L IH] in d |- *; intros Hd Hu.
  - destruct Hu as [Hu%elem_of_nil|Hu]; [done|]. unfold apply_all in Hd. simpl in Hd.
    inversion Hd as [? ? He|]. subst. by rewrite <-He.
  - rewrite apply_all_cons in Hd. destruct (y_apply d v) as [d1|] eqn:Hv; simpl in Hd; [|by inversion Hd].
    apply (IH d1 Hd). destruct Hu as [[->|Hu]%elem_of_cons|Hu]; [right|by left|right].
    + apply (absorbs_applied d v). by rewrite Hv.
    + eapply absorbs_later; [exact Hu|]. by rewrite Hv.
Qed.

Lemma apply_all_absorbed L d : (∀ u, u ∈ L → absorbs d u) → apply_all d L ≡ Some d.
Proof.
  induction L as [|v L IH]; intros HL; [done|]. rewrite apply_all_cons.
  pose proof (HL v ltac:(by left)) as Hv. unfold absorbs in Hv.
  inversion Hv as [d1 ? He Hd|]. subst. simpl. rewrite (apply_all_proper L d1 d He). apply IH.
  intros u Hu. apply HL. by right.
Qed.

Lemma apply_all_bind_commute L d u :
  (y_apply d u ≫= λ d, apply_all d L) ≡ (apply_all d L ≫= λ d, y_apply d u).
Proof.
  induction L as [|v L IH] in d |- *; [by unfold apply_all; simpl; destruct (y_apply d u)|].
  rewrite apply_all_cons. destruct (y_apply d v) as [d1|] eqn:Hv; simpl.
  - rewrite <-IH. pose proof (y_commute d u v) as Hc. rewrite Hv in Hc. simpl in Hc.
    destruct (y_apply d u) as [d2|]; simpl in *.
    + rewrite apply_all_cons. inversion Hc as [x y Hxy E1 E2|E1 E2]; simpl; [by apply apply_all_proper|done].
    + destruct (y_apply d1 u); [by inversion Hc|done].
  - pose proof (y_commute d u v) as Hc. rewrite Hv in Hc. simpl in Hc.
    destruct (y_apply d u) as [d2|]; simpl in *; [|done]. rewrite apply_all_cons.
    destruct (y_apply d2 v); [by inversion Hc|done].
Qed.

Lemma apply_all_commute L1 L2 d : apply_all d (L1 ++ L2) ≡ apply_all d (L2 ++ L1).
Proof.
  induction L1 as [|u L1 IH] in d |- *; [by rewrite (right_id_L [] (++))|].
  rewrite <-app_comm_cons, apply_all_cons, apply_all_app.
  trans (y_apply d u ≫= λ d, apply_all d (L2 ++ L1)).
  { destruct (y_apply d u); simpl; [apply IH|done]. }
  pose proof (apply_all_bind_commute L2 d u) as Hc.
  trans ((y_apply d u ≫= λ d, apply_all d L2) ≫= λ d, apply_all d L1).
  { destruct (y_apply d u); simpl; [by rewrite apply_all_app|done]. }
  rewrite (bind_apply_all_proper _ _ L1 Hc). destruct (apply_all d L2); simpl; [by rewrite apply_all_cons|done].
Qed.

(** Two lists with the same updates, up to those the document has integrated,
    make the same document. *)
Lemma same_updates_same_document L1 L2 d d1 :
  apply_all d L1 ≡ Some d1 →
  (∀ u, u ∈ L2 → u ∈ L1 ∨ absorbs d u) → (∀ u, u ∈ L1 → u ∈ L2 ∨ absorbs d u) →
  apply_all d L2 ≡ Some d1.
Proof.
  intros E1 E21 E12.
  assert (apply_all d (L1 ++ L2) ≡ Some d1) as Hboth.
  { rewrite apply_all_app, (bind_apply_all_proper _ _ L2 E1). simpl. apply apply_all_absorbed.
    intros u Hu. eapply apply_all_absorbs; [exact E1|]. by apply E21. }
  rewrite apply_all_commute, apply_all_app in Hboth.
  destruct (apply_all d L2) as [d2|] eqn:E2; simpl in Hboth; [|by inversion Hboth].
  rewrite <-Hboth. symmetry. apply apply_all_absorbed. intros u Hu.
  apply (apply_all_absorbs L2 d); [by rewrite E2|]. by apply E12.
Qed.
End convergence.
