(* ===== verification/RealtimeModel.v ===== *)
(** * Realtime: events, messages, channels

    The values of collaboration/rooms.rs and collaboration/websocket.rs: room
    events, the messages of the browser (protocol/realtime.rs), the frames sent
    to it, and who a connection was admitted as.  The broadcast channel of tokio
    is a parameter with the laws its documentation gives, as are the texts of
    identifiers and Base64. *)
From S2P Require Import Prelude Store Text Paths AccessModel Authorization.
From S2P Require Import WorkspaceModel Collaboration.
From stdpp Require Import pretty.

Open Scope Z_scope.

(** ** JSON: serde_json's [Value] *)

Inductive Value : Type :=
| Null
| Bool (b : bool)
| Number (n : Z)
| String (t : text)
| Object (fields : list (string * Value)).

(** [Value::get] with a key, [as_bool], [as_str]. *)
Fixpoint field (name : string) (fields : list (string * Value)) : option Value :=
  match fields with
  | [] => None
  | (k, v) :: fields => if bool_decide (k = name) then Some v else field name fields
  end.
Definition get (name : string) (v : Value) : option Value :=
  match v with Object fields => field name fields | _ => None end.
Definition as_bool (v : Value) : option bool := match v with Bool b => Some b | _ => None end.
Definition as_str (v : Value) : option text := match v with String t => Some t | _ => None end.
Definition opt_json {A} (f : A → Value) (o : option A) : Value := from_option f Null o.
Definition empty_object : Value := Object [].

(** ** rooms: events *)

Inductive RoomEventKind : Type :=
| YjsUpdate | YjsSync | YjsAck | PresenceJoin | PresenceLeave | PresenceMetadata | PresenceCursor
| BootstrapDone | WorkspaceChanged | DocumentChanged | ProjectReplaced | AccessRevised | ServerError.
#[export] Instance RoomEventKind_eq_dec : EqDecision RoomEventKind.
Proof. solve_decision. Defined.

Inductive RoomEventOrigin : Type :=
| System
| FromConnection (member_id : text) (connection_id : uuid).

Record RoomEvent : Type := MkRoomEvent {
  re_doc_id : text; re_origin : RoomEventOrigin; re_kind : RoomEventKind; re_payload : Value;
  re_at : time }.

Definition system_event (now : time) (doc_id : text) (kind : RoomEventKind) (payload : Value) : RoomEvent :=
  MkRoomEvent doc_id System kind payload now.
Definition connection_event (now : time) (doc_id member_id : text) (connection_id : uuid)
    (kind : RoomEventKind) (payload : Value) : RoomEvent :=
  MkRoomEvent doc_id (FromConnection member_id connection_id) kind payload now.

(** The payload of [workspace_changed]: a [RealtimeWorkspaceChangedPayload]. *)
Inductive RealtimeWorkspaceChangeScope : Type := ScopeDocument | ScopeTree | ScopeSettings | ScopeAssets.
Record RealtimeWorkspaceChangedPayload : Type := MkChangedPayload {
  cp_scope : RealtimeWorkspaceChangeScope; cp_path : option text; cp_document_id : option uuid;
  cp_collaboration_revision : option Z; cp_change_sequence : option Z }.
Definition changed_payload (change : WorkspaceChange) : RealtimeWorkspaceChangedPayload :=
  match change with
  | DocumentChange path document revision sequence =>
      MkChangedPayload ScopeDocument (Some path) (Some document) (Some revision) (Some sequence)
  | TreeChange path => MkChangedPayload ScopeTree path None None None
  | SettingsChange => MkChangedPayload ScopeSettings None None None None
  | AssetsChange path => MkChangedPayload ScopeAssets path None None None
  end.

(** ** Messages and frames *)

Record RealtimeMetadataPayload : Type := MkMetadata { rm_user_name : text; rm_can_write : bool }.
Record RealtimeCursorPayload : Type := MkCursor {
  rc_line : N; rc_column : N; rc_user_name : text; rc_can_write : bool }.
Inductive RealtimeClientMessage : Type :=
| MessageYjsUpdate (origin request_id payload : text)
| MessageYjsSync (origin request_id payload : text)
| MessagePresenceMetadata (origin : text) (payload : RealtimeMetadataPayload)
| MessagePresenceCursor (origin : text) (payload : RealtimeCursorPayload).

Record IncomingRoomEvent : Type := MkIncoming {
  ir_kind : RoomEventKind; ir_payload : Value; ir_persisted_kind : option PersistedUpdateKind;
  ir_request_id : option text }.

Definition client_message_event (message : RealtimeClientMessage) (can_write : bool) : IncomingRoomEvent :=
  match message with
  | MessageYjsUpdate _ request_id payload =>
      MkIncoming YjsUpdate (String payload) (Some Update) (Some request_id)
  | MessageYjsSync _ request_id payload =>
      MkIncoming YjsSync (String payload) (Some Sync) (Some request_id)
  | MessagePresenceMetadata _ p =>
      MkIncoming PresenceMetadata
        (Object [("user_name", String (rm_user_name p)); ("can_write", Bool can_write)]%string) None None
  | MessagePresenceCursor _ p =>
      MkIncoming PresenceCursor
        (Object [("line", Number (Z.of_N (rc_line p))); ("column", Number (Z.of_N (rc_column p)));
                 ("user_name", String (rc_user_name p)); ("can_write", Bool can_write)]%string) None None
  end.

(** [RealtimeServerEventKind::as_str]: the name of a kind in the protocol. *)
Definition as_protocol (kind : RoomEventKind) : string :=
  match kind with
  | YjsUpdate => "yjs.update" | YjsSync => "yjs.sync" | YjsAck => "yjs.ack"
  | PresenceJoin => "presence.join" | PresenceLeave => "presence.leave"
  | PresenceMetadata => "presence.meta" | PresenceCursor => "presence.cursor"
  | BootstrapDone => "bootstrap.done" | WorkspaceChanged => "workspace.changed"
  | DocumentChanged => "document.changed" | ProjectReplaced => "project.replaced"
  | AccessRevised => "access.changed" | ServerError => "server.error"
  end%string.

(** The kinds of the protocol are those of the rooms, one for one. *)
Record RealtimeServerEvent : Type := MkServerEvent {
  se_doc_id : text; se_user_id : text; se_connection_id : option uuid;
  se_is_current_connection : bool; se_kind : RoomEventKind; se_payload : Value; se_at : time }.

Definition room_event_to_protocol (event : RoomEvent) (recipient_connection_id : option uuid) :
    RealtimeServerEvent :=
  let '(user_id, connection_id) :=
    match re_origin event with
    | System => (lit "system", None)
    | FromConnection member_id connection_id => (member_id, Some connection_id)
    end in
  MkServerEvent (re_doc_id event) user_id connection_id
    (bool_decide (is_Some connection_id ∧ connection_id = recipient_connection_id))
    (re_kind event) (re_payload event) (re_at event).

Inductive CloseReason : Type := ServiceRestartClose | ProtocolIncompatibleClose.
Inductive Frame : Type :=
| TextFrame (event : RealtimeServerEvent)
| CloseFrame (reason : option CloseReason).

Definition as_server_error (message : string) : Value :=
  Object [("message", String (lit message)); ("resync_required", Bool true)]%string.
(** Of the forwarder: the event after which it closes the stream. *)
Definition closes_stream_kind (kind : RoomEventKind) (payload : Value) : bool :=
  bool_decide (kind = AccessRevised ∨ kind = DocumentChanged ∨ kind = ProjectReplaced)
  || (bool_decide (kind = ServerError)
      && bool_decide ((v ← get "resync_required" payload; as_bool v) = Some true)).
Definition closes_stream (event : RoomEvent) : bool :=
  closes_stream_kind (re_kind event) (re_payload event).

(** ** Parameters *)

(** Texts of identifiers ([Uuid::to_string]) and the standard Base64. *)
Class Texts : Type := {
  show_uuid : uuid → text;
  base64_encode : bytes → text;
  base64_decode : text → option bytes;
}.
Class TextLaws `{Texts} : Prop := base64_round_trip b : base64_decode (base64_encode b) = Some b.

(** [tokio::sync::broadcast]: a channel with its receivers, each named by a
    number.  [channel_recv] waits when it is [None]; a receiver that fell behind
    by more than the capacity is told how much it missed. *)
Inductive Received : Type := Delivered (event : RoomEvent) | Lagged (skipped : N).
Class Broadcast : Type := {
  channel : Type;
  channel_new : N → channel * nat;
  channel_send : RoomEvent → channel → channel;
  channel_subscribe : channel → channel * nat;
  channel_recv : nat → channel → option (Received * channel);
  channel_drop : nat → channel → channel;
  receiver_count : channel → nat;
}.

(** [unread c r] is what was sent since [r] subscribed and [r] has yet to be
    given; what was overwritten meanwhile is reported as a lag. *)
Class BroadcastLaws `{Broadcast} : Type := {
  receivers : channel → gset nat;
  unread : channel → nat → list RoomEvent;
  channel_new_law capacity c r :
    channel_new capacity = (c, r) → receivers c = {[r]} ∧ unread c r = [];
  channel_send_law e c :
    receivers (channel_send e c) = receivers c
    ∧ ∀ r, r ∈ receivers c → unread (channel_send e c) r = unread c r ++ [e];
  channel_subscribe_law c c' r :
    channel_subscribe c = (c', r) → r ∉ receivers c ∧ receivers c' = {[r]} ∪ receivers c
    ∧ unread c' r = [] ∧ ∀ r', r' ∈ receivers c → unread c' r' = unread c r';
  channel_recv_wait c r : r ∈ receivers c → channel_recv r c = None → unread c r = [];
  channel_recv_law c c' r x :
    r ∈ receivers c → channel_recv r c = Some (x, c') →
    receivers c' = receivers c ∧ (∀ r', r' ∈ receivers c → r' ≠ r → unread c' r' = unread c r')
    ∧ ∀ e, x = Delivered e → unread c r = e :: unread c' r;
  channel_drop_law c r :
    receivers (channel_drop r c) = receivers c ∖ {[r]}
    ∧ ∀ r', r' ∈ receivers c → r' ≠ r → unread (channel_drop r c) r' = unread c r';
  receiver_count_law c : receiver_count c = size (receivers c);
}.

(** ** websocket: who a connection speaks for *)

Inductive WsTarget : Type :=
| TargetProject
| TargetDocument (id : uuid) (collaboration_revision : Z).
Record WsAuth : Type := MkWsAuth {
  wa_project_id : uuid; wa_user_id : option uuid; wa_guest_session_id : option uuid;
  wa_guest_display_name : option text; wa_effective_id : uuid; wa_can_write : bool;
  wa_content_epoch : Z; wa_access_epoch : Z; wa_target : WsTarget; wa_auth_headers : HeaderMap }.
Record WsQuery : Type := MkWsQuery {
  wq_protocol_epoch : option text; wq_project_id : option text; wq_user_id : option text;
  wq_user_name : option text; wq_session_token : option text; wq_share_token : option text;
  wq_guest_session : option text; wq_collaboration_revision : option Z }.

(** The stream a document connection edits. *)
Definition document_of (auth : WsAuth) : option CollaborationDocument :=
  match wa_target auth with
  | TargetProject => None
  | TargetDocument id revision => Some (MkStream (wa_project_id auth) id revision (wa_content_epoch auth))
  end.

Section texts.
Context `{Texts}.

(** [serde_json::json!] of the payload of a workspace change. *)
Definition scope_name (scope : RealtimeWorkspaceChangeScope) : string :=
  match scope with
  | ScopeDocument => "document" | ScopeTree => "tree" | ScopeSettings => "settings" | ScopeAssets => "assets"
  end%string.
Definition changed_json (p : RealtimeWorkspaceChangedPayload) : Value :=
  Object [("scope", String (lit (scope_name (cp_scope p)))); ("path", opt_json String (cp_path p));
          ("document_id", opt_json (λ u, String (show_uuid u)) (cp_document_id p));
          ("collaboration_revision", opt_json Number (cp_collaboration_revision p));
          ("change_sequence", opt_json Number (cp_change_sequence p))]%string.

Definition yjs_payload_to_bytes (payload : Value) : option bytes := as_str payload ≫= base64_decode.
Definition bytes_to_json_payload (b : bytes) : Value := String (base64_encode b).

(** The room of a document: [format!("{document_id}:{collaboration_revision}")]. *)
Definition room_id (document : uuid) (collaboration_revision : Z) : text :=
  show_uuid document ++ lit ":" ++ lit (pretty collaboration_revision).
Definition PROJECT_CONTROL_ROOM : text := lit "__project_control__".

Abbreviation RoomKey := (uuid * text)%type.
Definition room_key (auth : WsAuth) : RoomKey :=
  (wa_project_id auth, match wa_target auth with
                       | TargetProject => PROJECT_CONTROL_ROOM
                       | TargetDocument id revision => room_id id revision
                       end).
(** [doc_id] of a document connection, [stream_id] of a project connection. *)
Definition stream_id (auth : WsAuth) : text :=
  match wa_target auth with
  | TargetProject => show_uuid (wa_project_id auth)
  | TargetDocument id revision => room_id id revision
  end.

(** ** Revalidation *)

Inductive RevalidationOutcome : Type :=
  RevalidatedCurrent | RevalidatedAccessChanged | RevalidatedProjectReplaced | RevalidationUnavailable.

(** The judgements of [revalidate_project] on its three reads. *)
Definition revalidate_principal (auth : WsAuth)
    (r : result ProjectAuthorizationError ProjectAccessPrincipal) : option RevalidationOutcome :=
  match r with
  | Ok p =>
      if bool_decide (pp_user_id p = wa_user_id auth)
         && bool_decide (pp_guest_session_id p = wa_guest_session_id auth)
         && bool_decide (pp_guest_display_name p = wa_guest_display_name auth)
         && Bool.eqb (pp_can_write p) (wa_can_write auth)
      then None else Some RevalidatedAccessChanged
  | Err (AuthenticationRequired | PermissionDenied) => Some RevalidatedAccessChanged
  | Err _ => Some RevalidationUnavailable
  end.
Definition revalidate_content_epoch (auth : WsAuth) (r : result sqlx_error (option Z)) :
    option RevalidationOutcome :=
  match r with
  | Ok (Some epoch) => if epoch =? wa_content_epoch auth then None else Some RevalidatedProjectReplaced
  | Ok None => Some RevalidatedProjectReplaced
  | Err _ => Some RevalidationUnavailable
  end.
Definition revalidate_access_epoch (auth : WsAuth) (r : result sqlx_error (option Z)) : RevalidationOutcome :=
  match r with
  | Ok (Some epoch) => if epoch =? wa_access_epoch auth then RevalidatedCurrent else RevalidatedAccessChanged
  | Ok None => RevalidatedAccessChanged
  | Err _ => RevalidationUnavailable
  end.

Definition revalidation_event (now : time) (stream : text) (outcome : RevalidationOutcome) : option RoomEvent :=
  match outcome with
  | RevalidatedCurrent => None
  | RevalidatedAccessChanged => Some (system_event now stream AccessRevised empty_object)
  | RevalidatedProjectReplaced => Some (system_event now stream ProjectReplaced empty_object)
  | RevalidationUnavailable =>
      Some (system_event now stream ServerError
              (as_server_error "Realtime authorization could not be revalidated"))
  end.

(** ** Bootstrap *)

(** The events [send_bootstrap_state] sends, in order. *)
Definition bootstrap_events (now : time) (doc_id : text) (state : BootstrapState) : list RoomEvent :=
  match bs_snapshot_payload state with
  | Some snapshot => [system_event now doc_id YjsSync (bytes_to_json_payload snapshot)]
  | None => []
  end
  ++ ((λ kp : PersistedUpdateKind * bytes,
        system_event now doc_id (match kp.1 with Update => YjsUpdate | Sync => YjsSync end)
          (bytes_to_json_payload kp.2)) <$> bs_updates state)
  ++ [system_event now doc_id BootstrapDone empty_object].
End texts.
