(* ===== verification/RealtimeRooms.v ===== *)
(** * Realtime: rooms, connections and the state they share

    collaboration/rooms.rs, connection_lifecycle.rs and the parts of
    collaboration/mod.rs the sockets use.  The world is the database, the map of
    rooms to broadcast channels, the open connections, each with the locals of
    its tasks, and the broadcasts still under way.  The locks of the map make its
    operations atomic; everything else happens between any two steps of a task. *)
From S2P Require Import Prelude Store Text Paths AccessModel Authorization.
From S2P Require Import WorkspaceModel Collaboration WorkspaceFrames RealtimeModel.

Open Scope Z_scope.

(** ** Connections *)

(** What a request for a socket has read so far ([authorize_ws_user]). *)
Inductive RequestStage : Type :=
| CheckingAccess
| ReadingContentEpoch (principal : ProjectAccessPrincipal)
| ReadingAccessEpoch (principal : ProjectAccessPrincipal) (content_epoch : Z)
| CheckingDocument (auth : WsAuth) (id : uuid) (collaboration_revision : Z)
| Answered (status : N).
Record Request : Type := MkRequest {
  rq_project_id : uuid; rq_headers : HeaderMap; rq_document : option (uuid * Z);
  rq_user_name : option text; rq_stage : RequestStage }.

(** The three reads of [revalidate_project]. *)
Inductive RevalidationStage : Type := RevalidateAccess | RevalidateContent | RevalidateEpoch.

Inductive SocketCommand : Type :=
| CommandEvent (event : RoomEvent)
| CommandServiceRestart.

(** What follows a command put in the outbox: an acknowledged update is
    announced and published, anything else ends the loop.  [update] is the place
    of the update in the log of accepted updates. *)
Inductive AfterQueueing : Type :=
| ThenPublish (change : option WorkspaceChange) (event : RoomEvent) (update : nat)
| ThenLeave.

(** Where [handle_socket] or [handle_project_socket] is. *)
Inductive Phase : Type :=
| Upgraded
| Subscribing (write_locked : bool)
| Revalidating (stage : RevalidationStage) (ticking : bool)
| Bootstrapping
| AnnouncingBootstrap (change : WorkspaceChange) (events : list RoomEvent)
| SendingBootstrap (events : list RoomEvent)
| Selecting
| AuthorizingUpdate (incoming : IncomingRoomEvent) (kind : PersistedUpdateKind) (request_id : text)
    (payload : bytes)
| PersistingUpdate (incoming : IncomingRoomEvent) (kind : PersistedUpdateKind) (request_id : text)
    (payload : bytes)
| Queueing (command : SocketCommand) (next : AfterQueueing)
| AnnouncingUpdate (change : WorkspaceChange) (event : RoomEvent) (update : nat)
| Publishing (event : RoomEvent) (update : option nat)
| Leaving (drain_close_event : bool)
| Finishing (drain_close_event : bool)
| Rejecting (event : RoomEvent)
| Dropping
| Removing (write_locked : bool)
| Ended.

Inductive Forwarder : Type := NotSpawned | Forwarding | Stopped.
#[export] Instance Forwarder_eq_dec : EqDecision Forwarder.
Proof. solve_decision. Defined.

(** [cn_bootstrapped]: how many updates had been accepted when the bootstrap
    was taken. *)
Record Connection : Type := MkConnection {
  cn_auth : WsAuth; cn_user_name : option text; cn_connection_id : uuid; cn_phase : Phase;
  cn_sender : nat; cn_receiver : option nat; cn_forwarder : Forwarder;
  cn_outbox : list SocketCommand; cn_frames : list Frame; cn_bootstrapped : option nat }.
#[export] Instance Connection_eta : Eta Connection := λ c,
  MkConnection (cn_auth c) (cn_user_name c) (cn_connection_id c) (cn_phase c) (cn_sender c)
    (cn_receiver c) (cn_forwarder c) (cn_outbox c) (cn_frames c) (cn_bootstrapped c).

(** A call of [broadcast_project] under way: the rooms it has still to send to,
    and the epoch of the project when it began. *)
Record Announcement : Type := MkAnnouncement {
  an_project_id : uuid; an_kind : RoomEventKind; an_payload : Value;
  an_rooms : list (text * nat); an_epoch : option Z }.
#[export] Instance Announcement_eta : Eta Announcement := λ a,
  MkAnnouncement (an_project_id a) (an_kind a) (an_payload a) (an_rooms a) (an_epoch a).

(** An update that was stored, with the connection's room. *)
Record AcceptedUpdate : Type := MkAccepted {
  au_stream : CollaborationDocument; au_room : uuid * text; au_payload : bytes }.

Section world.
Context `{Broadcast}.

(** [rt_accepted], [rt_owed], [rt_retired] and [rt_announced] are history: the
    updates stored so far, those of them not yet sent to their room, the streams
    that were found out of use after some step, and the completed broadcasts
    with the epoch at which each began. *)
Record Realtime : Type := MkRealtime {
  rt_db : WorkspaceDB;
  rt_rooms : gmap (uuid * text) nat;
  rt_channels : gmap nat channel;
  rt_next_channel : nat;
  rt_requests : gmap nat Request;
  rt_connections : gmap nat Connection;
  rt_announcements : gmap nat Announcement;
  rt_draining : bool;
  rt_active : Z;
  rt_accepted : list AcceptedUpdate;
  rt_owed : gset nat;
  rt_retired : list CollaborationDocument;
  rt_announced : list (RoomEventKind * uuid * Z);
}.
#[export] Instance Realtime_eta : Eta Realtime := λ w,
  MkRealtime (rt_db w) (rt_rooms w) (rt_channels w) (rt_next_channel w) (rt_requests w)
    (rt_connections w) (rt_announcements w) (rt_draining w) (rt_active w) (rt_accepted w) (rt_owed w)
    (rt_retired w) (rt_announced w).

Definition set_connection (i : nat) (cn : Connection) (w : Realtime) : Realtime :=
  w <| rt_connections := <[i := cn]> (rt_connections w) |>.

(** The streams the world speaks of, and a new state of the database. *)
Definition mentioned (w : Realtime) : list CollaborationDocument :=
  omap (λ ic, document_of (cn_auth ic.2)) (map_to_list (rt_connections w))
  ++ (au_stream <$> rt_accepted w).
Definition set_db (db : WorkspaceDB) (w : Realtime) : Realtime :=
  w <| rt_db := db |>
    <| rt_retired := rt_retired w ++ filter (λ c, live c db = false) (mentioned w) |>.

(** ** rooms *)

Definition CHANNEL_CAPACITY : N := 512%N.

(** [Sender::send]; that nobody listens is ignored. *)
Definition send_to (ch : nat) (event : RoomEvent) (w : Realtime) : Realtime :=
  w <| rt_channels := alter (channel_send event) ch (rt_channels w) |>.

(** [subscribe] under the read lock, and under the write lock when the room had
    no channel. *)
Definition subscribe_existing (key : uuid * text) (w : Realtime) : option (Realtime * nat * nat) :=
  ch ← rt_rooms w !! key;
  c ← rt_channels w !! ch;
  let '(c, r) := channel_subscribe c in
  Some (w <| rt_channels := <[ch := c]> (rt_channels w) |>, ch, r).
Definition subscribe_creating (key : uuid * text) (w : Realtime) : Realtime * nat * nat :=
  match subscribe_existing key w with
  | Some subscription => subscription
  | None =>
      let '(c, r) := channel_new CHANNEL_CAPACITY in
      let ch := rt_next_channel w in
      (w <| rt_channels := <[ch := c]> (rt_channels w) |> <| rt_rooms := <[key := ch]> (rt_rooms w) |>
         <| rt_next_channel := S ch |>, ch, r)
  end.

Definition has_no_receiver (ch : nat) (w : Realtime) : bool :=
  match rt_channels w !! ch with Some c => receiver_count c =? 0 | None => true end%nat.
(** [remove_if_idle], once it holds the write lock. *)
Definition remove_idle_room (key : uuid * text) (ch : nat) (w : Realtime) : Realtime :=
  if bool_decide (rt_rooms w !! key = Some ch) && has_no_receiver ch w
  then w <| rt_rooms := delete key (rt_rooms w) |>
  else w.

Definition drop_receiver (ch r : nat) (w : Realtime) : Realtime :=
  w <| rt_channels := alter (channel_drop r) ch (rt_channels w) |>.

(** The epoch a kind of broadcast announces. *)
Definition epoch_of (kind : RoomEventKind) (project : uuid) (db : WorkspaceDB) : option Z :=
  match kind with
  | AccessRevised => project_access_epoch project (access db)
  | ProjectReplaced => project_content_epoch project db
  | _ => None
  end.

(** [broadcast_project]: the rooms of the project, collected under the read
    lock; then one send at a time. *)
Definition broadcast_project (a : nat) (project : uuid) (kind : RoomEventKind) (payload : Value)
    (w : Realtime) : Realtime :=
  let rooms := (λ kc : uuid * text * nat, (kc.1.2, kc.2)) <$>
                 select (λ k _, bool_decide (k.1 = project)) (rt_rooms w) in
  w <| rt_announcements := <[a := MkAnnouncement project kind payload rooms
                                  (epoch_of kind project (rt_db w))]> (rt_announcements w) |>.
Definition broadcast_next (now : time) (a : nat) (w : Realtime) : option Realtime :=
  an ← rt_announcements w !! a;
  Some match an_rooms an with
       | (doc_id, ch) :: rooms =>
           send_to ch (system_event now doc_id (an_kind an) (an_payload an))
             (w <| rt_announcements := <[a := an <| an_rooms := rooms |>]> (rt_announcements w) |>)
       | [] =>
           w <| rt_announcements := delete a (rt_announcements w) |>
             <| rt_announced := match an_epoch an with
                                | Some epoch => (an_kind an, an_project_id an, epoch) :: rt_announced w
                                | None => rt_announced w
                                end |>
       end.

Definition access_changed (a : nat) (project : uuid) : Realtime → Realtime :=
  broadcast_project a project AccessRevised empty_object.
Definition invalidate_project (a : nat) (project : uuid) (content_epoch : Z) : Realtime → Realtime :=
  broadcast_project a project ProjectReplaced (Object [("content_epoch"%string, Number content_epoch)]).

(** [workspace_changed]: the channel is looked up and sent to in one step.  A
    room that is removed in between has no receiver. *)
Definition workspace_changed `{Texts} (now : time) (project : uuid) (change : WorkspaceChange)
    (w : Realtime) : Realtime :=
  match rt_rooms w !! (project, PROJECT_CONTROL_ROOM) with
  | Some ch => send_to ch (system_event now (show_uuid project) WorkspaceChanged
                             (changed_json (changed_payload change))) w
  | None => w
  end.

(** ** connection_lifecycle *)

Definition usize_max : Z := 2 ^ 64 - 1.
Definition track (w : Realtime) : Realtime :=
  w <| rt_active := Z.min usize_max (rt_active w + 1) |>.
(** [ConnectionActivity::drop]. *)
Definition untrack (w : Realtime) : Realtime := w <| rt_active := Z.max 0 (rt_active w - 1) |>.
Definition quiescent (w : Realtime) : bool := rt_active w =? 0.
End world.
