(* ===== verification/RealtimeSockets.v ===== *)
(** * Realtime: the tasks of a connection, and all tasks as one system

    collaboration/websocket.rs as state machines: the request for a socket,
    [handle_socket] and [handle_project_socket] from await to await, and the
    task that forwards room events.  Each step is one access to something
    shared: the database, the map of rooms, a channel, the outbox, the socket. *)
From S2P Require Import Prelude Store Text Paths AccessModel Authorization WorkspaceModel WorkspaceStatements.
From S2P Require Import WorkspaceProjects Collaboration WorkspaceFrames WorkspaceSystem WorkspaceTheorems.
From S2P Require Import RealtimeModel RealtimeRooms.

Open Scope Z_scope.

(** What the outside decides at a step: the server's behaviour, the clock,
    whether a frame and the close frame after it could be sent, what the main
    task's [select!] finds, and which ready branch the forwarder's takes. *)
Inductive SocketMessage : Type :=
| MessageText (message : option RealtimeClientMessage)
| MessageBinary
| MessageClose
| MessageOther.
Inductive Next : Type :=
| NextMessage (message : option SocketMessage)
| NextTick.
Record Input : Type := MkInput {
  in_schedule : schedule; in_now : time; in_sent : bool; in_closed : bool; in_next : Next; in_outbox_first : bool }.

Section sockets.
Context `{Yrs} `{Texts} `{Broadcast}.
Context (env : Environment) (header_value_ok : text → bool) (update_retention : Z).

(** ** Reads of the database *)

Definition read_db {A} (x : Input) (f : WorkspaceDB → A) (w : Realtime) : result sqlx_error A :=
  (autocommit (in_schedule x) 0 (reads f) (rt_db w)).1.

Definition authorize_on (x : Input) (headers : HeaderMap) (project : uuid) (need : AccessNeed) (w : Realtime) :
    result ProjectAuthorizationError ProjectAccessPrincipal * Realtime :=
  let '(r, db) := run_pool (ensure_project_access (in_schedule x) env (in_now x) headers project need)
                    (access (rt_db w)) in
  (r, set_db ((rt_db w) <| access := db |>) w).

(** ** Requests *)

(** [str::parse::<u32>]: digits after an optional plus sign. *)
Definition parse_digits (t : text) : option N :=
  foldl (λ acc c, acc ← acc;
           if (0x30 <=? c)%N && (c <=? 0x39)%N && (acc * 10 + (c - 0x30) <=? 4294967295)%N
           then Some (acc * 10 + (c - 0x30))%N else None) (Some 0%N) t.
Definition parse_u32 (t : text) : option N :=
  match t with
  | [] => None
  | c :: t' => if (c =? 0x2B)%N then match t' with [] => None | _ => parse_digits t' end else parse_digits t
  end.
Definition PROTOCOL_EPOCH : N := 1%N.
Definition protocol_epoch_matches (epoch : option text) : bool :=
  match epoch with
  | None => true
  | Some epoch => bool_decide (parse_u32 epoch = Some PROTOCOL_EPOCH)
  end.

(** [HeaderMap::insert] of a credential of the query. *)
Definition insert_header (name : string) (value : text) (headers : HeaderMap) : HeaderMap :=
  λ k, if text_eqb k (lit name) then Some value else headers k.
Definition insert_credential (name : string) (value : option text) (headers : HeaderMap) : option HeaderMap :=
  match value with
  | None => Some headers
  | Some value => if header_value_ok value then Some (insert_header name value headers) else None
  end.
Definition auth_headers (query : WsQuery) (headers : HeaderMap) : option HeaderMap :=
  headers ← insert_credential "x-user-id" (trim <$> wq_user_id query) headers;
  headers ← insert_credential "cookie"
              ((λ t, lit "typst_session=" ++ trim t) <$> wq_session_token query) headers;
  headers ← insert_credential "x-share-token" (trim <$> wq_share_token query) headers;
  insert_credential "x-guest-session" (trim <$> wq_guest_session query) headers.

Definition UNAUTHORIZED : N := 401%N.
Definition SERVICE_UNAVAILABLE : N := 503%N.
Definition BAD_REQUEST : N := 400%N.
Definition SWITCHING_PROTOCOLS : N := 101%N.
(** [authorization_error_response], of the errors of [ensure_project_access]. *)
Definition authorization_status (e : ProjectAuthorizationError) : N :=
  match e with
  | AuthenticationRequired | PermissionDenied => UNAUTHORIZED
  | _ => SERVICE_UNAVAILABLE
  end.

(** [ws_handler] and [project_ws_handler] up to the first query; an answer in
    the incompatible case closes the socket at once. *)
Definition begin_request (project : uuid) (query : WsQuery) (headers : HeaderMap) (document : option (uuid * Z)) :
    Request :=
  match auth_headers query headers with
  | Some headers => MkRequest project headers document (wq_user_name query) CheckingAccess
  | None => MkRequest project headers document (wq_user_name query) (Answered UNAUTHORIZED)
  end.
Definition ws_handler (doc_id : text) (query : WsQuery) (headers : HeaderMap) : Request :=
  let answer status := MkRequest 0%N headers None None (Answered status) in
  if negb (protocol_epoch_matches (wq_protocol_epoch query)) then answer SWITCHING_PROTOCOLS else
  match parse_uuid env doc_id with
  | None => answer BAD_REQUEST
  | Some document_id =>
      match wq_collaboration_revision query with
      | Some revision =>
          if revision <? 0 then answer BAD_REQUEST else
          match wq_project_id query ≫= parse_uuid env with
          | None => answer UNAUTHORIZED
          | Some project => begin_request project query headers (Some (document_id, revision))
          end
      | None => answer BAD_REQUEST
      end
  end.
Definition project_ws_handler (project : uuid) (query : WsQuery) (headers : HeaderMap) : Request :=
  if negb (protocol_epoch_matches (wq_protocol_epoch query))
  then MkRequest project headers None None (Answered SWITCHING_PROTOCOLS)
  else begin_request project query headers None.

(** The connection of an admitted request: its identifier is drawn in
    [handle_socket]. *)
Definition upgrade (i : nat) (connection_id : uuid) (auth : WsAuth) (user_name : option text) (w : Realtime) :
    Realtime :=
  track (set_connection i (MkConnection auth user_name connection_id Upgraded 0 None NotSpawned [] [] None) w).

Definition set_request (q : nat) (stage : RequestStage) (rq : Request) (w : Realtime) : Realtime :=
  w <| rt_requests := <[q := MkRequest (rq_project_id rq) (rq_headers rq) (rq_document rq) (rq_user_name rq)
                                stage]> (rt_requests w) |>.

(** [authorize_project_ws_user] and [authorize_ws_user], query by query. *)
Definition request_step (x : Input) (i : nat) (fresh_id connection_id : uuid) (q : nat) (rq : Request)
    (w : Realtime) : Realtime :=
  let go stage := set_request q stage rq w in
  let project := rq_project_id rq in
  match rq_stage rq with
  | CheckingAccess =>
      let '(r, w) := authorize_on x (rq_headers rq) project Read w in
      match r with
      | Ok principal => set_request q (ReadingContentEpoch principal) rq w
      | Err e => set_request q (Answered (authorization_status e)) rq w
      end
  | ReadingContentEpoch principal =>
      match read_db x (project_content_epoch project) w with
      | Ok (Some epoch) => go (ReadingAccessEpoch principal epoch)
      | Ok None => go (Answered UNAUTHORIZED)
      | Err _ => go (Answered SERVICE_UNAVAILABLE)
      end
  | ReadingAccessEpoch principal content_epoch =>
      match read_db x (λ db, project_access_epoch project (access db)) w with
      | Ok (Some epoch) =>
          let auth target := MkWsAuth project (pp_user_id principal) (pp_guest_session_id principal)
                        (pp_guest_display_name principal)
                        (default fresh_id (match pp_user_id principal with
                                           | Some user => Some user
                                           | None => pp_guest_session_id principal end))
                        (pp_can_write principal) content_epoch epoch target (rq_headers rq) in
          match rq_document rq with
          | Some (id, revision) => go (CheckingDocument (auth TargetProject) id revision)
          | None => upgrade i connection_id (auth TargetProject) None
                      (set_request q (Answered SWITCHING_PROTOCOLS) rq w)
          end
      | Ok None => go (Answered UNAUTHORIZED)
      | Err _ => go (Answered SERVICE_UNAVAILABLE)
      end
  | CheckingDocument auth id revision =>
      match read_db x (λ db, bool_decide (is_Some (find_by_identity project id revision db))) w with
      | Ok true =>
          let auth := MkWsAuth (wa_project_id auth) (wa_user_id auth) (wa_guest_session_id auth)
                        (wa_guest_display_name auth) (wa_effective_id auth) (wa_can_write auth)
                        (wa_content_epoch auth) (wa_access_epoch auth) (TargetDocument id revision)
                        (wa_auth_headers auth) in
          upgrade i connection_id auth (rq_user_name rq) (set_request q (Answered SWITCHING_PROTOCOLS) rq w)
      | Ok false => go (Answered UNAUTHORIZED)
      | Err _ => go (Answered SERVICE_UNAVAILABLE)
      end
  | Answered _ => w
  end.

(** ** Sending on the socket *)

Definition recipient (cn : Connection) : option uuid :=
  match wa_target (cn_auth cn) with TargetProject => None | TargetDocument _ _ => Some (cn_connection_id cn) end.
Definition push_frame (f : Frame) (cn : Connection) : Connection := cn <| cn_frames := cn_frames cn ++ [f] |>.
Definition event_frame (event : RoomEvent) (recipient_connection_id : option uuid) : Frame :=
  TextFrame (room_event_to_protocol event recipient_connection_id).
(** An event and the close frame after it ([send_terminal_event_and_close]). *)
Definition push_closing (x : Input) (event : RoomEvent) (recipient_connection_id : option uuid)
    (cn : Connection) : Connection :=
  let cn := if in_sent x then push_frame (event_frame event recipient_connection_id) cn else cn in
  if in_sent x && in_closed x then push_frame (CloseFrame None) cn else cn.
Definition goto (p : Phase) (cn : Connection) : Connection := cn <| cn_phase := p |>.

(** ** The loop *)

Definition acknowledgement (now : time) (doc_id request_id : text) (ack : PersistedUpdateAck) : RoomEvent :=
  system_event now doc_id YjsAck
    (Object [("request_id", String request_id); ("update_id", Number (ack_update_id ack));
             ("projected", Bool (ack_projected ack))]%string).

(** A text message of a document connection, up to its first query. *)
Definition text_message (cn : Connection) (now : time) (message : RealtimeClientMessage) : Phase :=
  let can_write := wa_can_write (cn_auth cn) in
  let incoming := client_message_event message can_write in
  let doc_id := stream_id (cn_auth cn) in
  if bool_decide (ir_kind incoming = PresenceCursor) && negb can_write then Selecting else
  match ir_persisted_kind incoming with
  | Some kind =>
      if negb can_write then Selecting else
      match ir_request_id incoming with
      | None => Selecting
      | Some request_id =>
          match yjs_payload_to_bytes (ir_payload incoming) with
          | None => Selecting
          | Some payload => AuthorizingUpdate incoming kind request_id payload
          end
      end
  | None =>
      Publishing (connection_event now doc_id (show_uuid (wa_effective_id (cn_auth cn)))
                    (cn_connection_id cn) (ir_kind incoming) (ir_payload incoming)) None
  end.

Definition is_document (cn : Connection) : bool :=
  match wa_target (cn_auth cn) with TargetProject => false | TargetDocument _ _ => true end.

(** The branches of the [select!] of the main loop: it is biased to draining. *)
Definition select_next (x : Input) (cn : Connection) (draining : bool) : Phase :=
  if draining then Queueing CommandServiceRestart ThenLeave else
  match in_next x with
  | NextTick => Revalidating RevalidateAccess true
  | NextMessage None | NextMessage (Some MessageClose) => Leaving false
  | NextMessage (Some (MessageText (Some message))) =>
      if is_document cn then text_message cn (in_now x) message else Selecting
  | NextMessage (Some _) => Selecting
  end.

(** What [persist_yjs_event] answers on failures, as the event that ends the
    connection. *)
Definition closing (now : time) (cn : Connection) (kind : RoomEventKind) (payload : Value) : Phase :=
  Queueing (CommandEvent (system_event now (stream_id (cn_auth cn)) kind payload)) ThenLeave.
Definition persist_failed (now : time) (cn : Connection) : Phase :=
  closing now cn ServerError (as_server_error "Failed to persist collaborative update").

Definition after_write_access (now : time) (cn : Connection) (incoming : IncomingRoomEvent)
    (kind : PersistedUpdateKind) (request_id : text) (payload : bytes)
    (r : result ProjectAuthorizationError ProjectAccessPrincipal) : Phase :=
  match r with
  | Ok _ => if validate_update payload then PersistingUpdate incoming kind request_id payload else Selecting
  | Err (AuthenticationRequired | PermissionDenied) => closing now cn AccessRevised empty_object
  | Err _ => persist_failed now cn
  end.

(** The update is stored; [k] is its place in the log of accepted updates. *)
Definition after_persist (now : time) (cn : Connection) (incoming : IncomingRoomEvent) (request_id : text)
    (k : nat) (r : result ReconcileError PersistUpdateOutcome) : Phase :=
  let doc_id := stream_id (cn_auth cn) in
  match r with
  | Ok (Accepted ack) =>
      Queueing (CommandEvent (acknowledgement now doc_id request_id ack))
        (ThenPublish (ack_workspace_change ack)
           (connection_event now doc_id (show_uuid (wa_effective_id (cn_auth cn))) (cn_connection_id cn)
              (ir_kind incoming) (ir_payload incoming)) k)
  | Ok PersistContentEpochChanged => closing now cn ProjectReplaced empty_object
  | Ok Collaboration.AccessChanged => closing now cn AccessRevised empty_object
  | Ok PersistDocumentChanged => closing now cn DocumentChanged empty_object
  | Err _ => persist_failed now cn
  end.

(** The log of accepted updates grows when the table of updates does. *)
Definition record_accepted (cn : Connection) (c : CollaborationDocument) (payload : bytes)
    (db db' : WorkspaceDB) (w : Realtime) : Realtime :=
  let w := set_db db' w in
  if next_update db' =? next_update db then w else
  w <| rt_accepted := rt_accepted w ++ [MkAccepted c (room_key (cn_auth cn)) payload] |>
    <| rt_owed := {[length (rt_accepted w)]} ∪ rt_owed w |>.

Definition persist_step (x : Input) (i : nat) (cn : Connection) (incoming : IncomingRoomEvent)
    (kind : PersistedUpdateKind) (request_id : text) (payload : bytes) (w : Realtime) : Realtime :=
  match document_of (cn_auth cn) with
  | None => set_connection i (goto (persist_failed (in_now x) cn) cn) w
  | Some c =>
      let auth := cn_auth cn in
      let '(r, db) := persist_update (in_schedule x) (in_now x) update_retention c (wa_user_id auth) kind payload
                        (wa_access_epoch auth) (wa_guest_display_name auth) (rt_db w) in
      let phase := after_persist (in_now x) cn incoming request_id (length (rt_accepted w)) r in
      set_connection i (goto phase cn) (record_accepted cn c payload (rt_db w) db w)
  end.

(** [socket_sender.send]: it waits while the outbox is full and fails when the
    forwarder is gone. *)
Definition SOCKET_EVENT_BUFFER : nat := 8.
Definition queueing_step (cn : Connection) (command : SocketCommand) (next : AfterQueueing) : option Connection :=
  if bool_decide (cn_forwarder cn = Stopped) then Some (goto (Leaving false) cn) else
  if (length (cn_outbox cn) <? SOCKET_EVENT_BUFFER)%nat then
    let cn := cn <| cn_outbox := cn_outbox cn ++ [command] |> in
    Some (goto match next with
               | ThenPublish (Some change) event k => AnnouncingUpdate change event k
               | ThenPublish None event k => Publishing event (Some k)
               | ThenLeave => Leaving true
               end cn)
  else None.

(** ** Opening *)

(** What follows a revalidation: of a new subscription, or of the timer. *)
Definition revalidated (now : time) (cn : Connection) (ticking : bool) (outcome : RevalidationOutcome) : Phase :=
  match revalidation_event now (stream_id (cn_auth cn)) outcome, ticking with
  | None, true => Selecting
  | Some event, true => Queueing (CommandEvent event) ThenLeave
  | None, false =>
      if is_document cn then Bootstrapping
      else SendingBootstrap [system_event now (stream_id (cn_auth cn)) BootstrapDone empty_object]
  | Some event, false => Rejecting event
  end.

Definition revalidation_step (x : Input) (i : nat) (cn : Connection) (stage : RevalidationStage)
    (ticking : bool) (w : Realtime) : Realtime :=
  let auth := cn_auth cn in
  let continue next w := set_connection i (goto (Revalidating next ticking) cn) w in
  let finish outcome w := set_connection i (goto (revalidated (in_now x) cn ticking outcome) cn) w in
  match stage with
  | RevalidateAccess =>
      let '(r, w) := authorize_on x (wa_auth_headers auth) (wa_project_id auth) Read w in
      match revalidate_principal auth r with
      | None => continue RevalidateContent w
      | Some outcome => finish outcome w
      end
  | RevalidateContent =>
      match revalidate_content_epoch auth (read_db x (project_content_epoch (wa_project_id auth)) w) with
      | None => continue RevalidateEpoch w
      | Some outcome => finish outcome w
      end
  | RevalidateEpoch =>
      finish (revalidate_access_epoch auth
                (read_db x (λ db, project_access_epoch (wa_project_id auth) (access db)) w)) w
  end.

Definition bootstrap_step (x : Input) (i : nat) (cn : Connection) (w : Realtime) : Realtime :=
  let doc_id := stream_id (cn_auth cn) in
  match document_of (cn_auth cn) with
  | None => set_connection i (goto Dropping cn) w
  | Some c =>
      let '(r, db) := bootstrap_transaction (in_schedule x) (in_now x) update_retention c (rt_db w) in
      set_connection i
        match r with
        | Ok (state, change) =>
            let events := bootstrap_events (in_now x) doc_id state in
            goto match change with
                 | Some change => AnnouncingBootstrap change events
                 | None => SendingBootstrap events
                 end (cn <| cn_bootstrapped := Some (length (rt_accepted w)) |>)
        | Err _ =>
            goto (Rejecting (system_event (in_now x) doc_id ServerError
                    (as_server_error "Failed to load collaborative document state"))) cn
        end (set_db db w)
  end.

(** A frame of the bootstrap; after the last one the connection joins its room
    and its forwarder is spawned. *)
Definition bootstrap_send_step (x : Input) (i : nat) (cn : Connection) (events : list RoomEvent) (w : Realtime) :
    Realtime :=
  match events with
  | event :: events =>
      if in_sent x
      then set_connection i (goto (SendingBootstrap events) (push_frame (event_frame event (recipient cn)) cn)) w
      else set_connection i (goto Dropping cn) w
  | [] =>
      let auth := cn_auth cn in
      let user_id := show_uuid (wa_effective_id auth) in
      let joined := connection_event (in_now x) (stream_id auth) user_id (cn_connection_id cn) PresenceJoin
                      (Object [("user_id", String user_id); ("user_name", opt_json String (cn_user_name cn));
                               ("auth_kind", String (lit "project-scoped"));
                               ("can_write", Bool (wa_can_write auth))]%string) in
      let w := set_connection i (goto Selecting (cn <| cn_forwarder := Forwarding |>)) w in
      if is_document cn then send_to (cn_sender cn) joined w else w
  end.

(** ** Leaving *)

(** The end of the forwarder drops the receiver it was given. *)
Definition stop_forwarder (i : nat) (cn : Connection) (w : Realtime) : Realtime :=
  let w' := match cn_receiver cn with Some r => drop_receiver (cn_sender cn) r w | None => w end in
  set_connection i (cn <| cn_forwarder := Stopped |> <| cn_receiver := None |>) w'.

(** [finish_event_forwarder]: wait for the forwarder, or abort it. *)
Definition finishing_step (i : nat) (cn : Connection) (drain_close_event : bool) (w : Realtime) : option Realtime :=
  if bool_decide (cn_forwarder cn = Stopped) then Some (set_connection i (goto (Removing false) cn) w)
  else if drain_close_event then None
  else Some (stop_forwarder i (goto (Removing false) cn) w).

(** The handler returns, and its [ConnectionActivity] is dropped. *)
Definition end_connection (i : nat) (cn : Connection) (w : Realtime) : Realtime :=
  untrack (set_connection i (goto Ended cn) w).

(** ** [handle_socket] and [handle_project_socket] *)

Definition main_step (x : Input) (i : nat) (cn : Connection) (w : Realtime) : option Realtime :=
  let go p := Some (set_connection i (goto p cn) w) in
  let auth := cn_auth cn in
  match cn_phase cn with
  | Upgraded =>
      if rt_draining w
      then Some (end_connection i (if in_sent x then push_frame (CloseFrame (Some ServiceRestartClose)) cn else cn) w)
      else go (Subscribing false)
  | Subscribing false =>
      match subscribe_existing (room_key auth) w with
      | Some (w, ch, r) =>
          Some (set_connection i (goto (Revalidating RevalidateAccess false)
                  (cn <| cn_sender := ch |> <| cn_receiver := Some r |>)) w)
      | None => go (Subscribing true)
      end
  | Subscribing true =>
      let '(w, ch, r) := subscribe_creating (room_key auth) w in
      Some (set_connection i (goto (Revalidating RevalidateAccess false)
              (cn <| cn_sender := ch |> <| cn_receiver := Some r |>)) w)
  | Revalidating stage ticking => Some (revalidation_step x i cn stage ticking w)
  | Bootstrapping => Some (bootstrap_step x i cn w)
  | AnnouncingBootstrap change events =>
      Some (workspace_changed (in_now x) (wa_project_id auth) change
              (set_connection i (goto (SendingBootstrap events) cn) w))
  | SendingBootstrap events => Some (bootstrap_send_step x i cn events w)
  | Selecting => go (select_next x cn (rt_draining w))
  | AuthorizingUpdate incoming kind request_id payload =>
      let '(r, w) := authorize_on x (wa_auth_headers auth) (wa_project_id auth) Write w in
      Some (set_connection i
              (goto (after_write_access (in_now x) cn incoming kind request_id payload r) cn) w)
  | PersistingUpdate incoming kind request_id payload =>
      Some (persist_step x i cn incoming kind request_id payload w)
  | Queueing command next => (λ cn, set_connection i cn w) <$> queueing_step cn command next
  | AnnouncingUpdate change event k =>
      Some (workspace_changed (in_now x) (wa_project_id auth) change
              (set_connection i (goto (Publishing event (Some k)) cn) w))
  | Publishing event update =>
      let w := w <| rt_owed := match update with Some k => rt_owed w ∖ {[k]} | None => rt_owed w end |> in
      Some (send_to (cn_sender cn) event (set_connection i (goto Selecting cn) w))
  | Leaving drain =>
      let w := set_connection i (goto (Finishing drain) cn) w in
      Some (if is_document cn
            then send_to (cn_sender cn)
                   (connection_event (in_now x) (stream_id auth) (show_uuid (wa_effective_id auth))
                      (cn_connection_id cn) PresenceLeave empty_object) w
            else w)
  | Finishing drain => finishing_step i cn drain w
  | Rejecting event =>
      Some (set_connection i (goto Dropping (push_closing x event None cn)) w)
  | Dropping => Some (stop_forwarder i (goto (Removing false) cn) w)
  | Removing false =>
      if has_no_receiver (cn_sender cn) w then go (Removing true) else Some (end_connection i cn w)
  | Removing true => Some (end_connection i cn (remove_idle_room (room_key auth) (cn_sender cn) w))
  | Ended => None
  end.

(** ** [forward_room_events]: one round of its loop *)

(** The event is sent, and the stream closed when the event says so. *)
Definition forward_event (x : Input) (i : nat) (cn : Connection) (event : RoomEvent) (w : Realtime) : Realtime :=
  if negb (in_sent x) then stop_forwarder i cn w
  else if closes_stream event then stop_forwarder i (push_closing x event (recipient cn) cn) w
  else set_connection i (push_frame (event_frame event (recipient cn)) cn) w.

Definition forward_step (x : Input) (i : nat) (cn : Connection) (w : Realtime) : option Realtime :=
  if negb (bool_decide (cn_forwarder cn = Forwarding)) then None else
  if in_outbox_first x then
    match cn_outbox cn with
    | [] => None
    | command :: outbox =>
        let cn := cn <| cn_outbox := outbox |> in
        Some match command with
             | CommandEvent event => forward_event x i cn event w
             | CommandServiceRestart =>
                 stop_forwarder i
                   (if in_sent x then push_frame (CloseFrame (Some ServiceRestartClose)) cn else cn) w
             end
    end
  else
    r ← cn_receiver cn;
    c ← rt_channels w !! cn_sender cn;
    '(received, c) ← channel_recv r c;
    let w := w <| rt_channels := <[cn_sender cn := c]> (rt_channels w) |> in
    Some match received with
         | Delivered event => forward_event x i cn event w
         | Lagged _ =>
             let event := system_event (in_now x) (stream_id (cn_auth cn)) ServerError
                            (as_server_error "Realtime stream fell behind; reconnect to resynchronize") in
             stop_forwarder i (push_closing x event None cn) w
         end.
End sockets.

(** * Realtime: the tasks as one system

    Requests, connections, forwarders and broadcasts, one step of one task at a
    time, while the other operations of the program change the database between
    any two of them. *)
Inductive Action : Type :=
| ARequestDocument (q : nat) (doc_id : text) (query : WsQuery) (headers : HeaderMap)
| ARequestProject (q : nat) (project : uuid) (query : WsQuery) (headers : HeaderMap)
| AAuthorize (x : Input) (q i : nat) (fresh_id connection_id : uuid)
| AMain (x : Input) (i : nat)
| AForward (x : Input) (i : nat)
| ADatabase (s : schedule) (now : time) (op : WorkspaceOp)
| AAccessChanged (a : nat) (project : uuid)
| AInvalidate (a : nat) (project : uuid) (content_epoch : Z)
| ABroadcast (now : time) (a : nat)
| AWorkspaceChanged (now : time) (project : uuid) (change : WorkspaceChange)
| ADrain.

(** The operations of the rest of the program: sockets alone store updates. *)
Definition elsewhere_op (op : WorkspaceOp) : bool :=
  match op with
  | OPersistUpdate _ _ _ _ _ _ => false
  | OCreateProject g => accepts_entry_file_path (g_type g) (g_entry_file_path g)
  | _ => true
  end.

Section system.
Context `{Yrs} `{Texts} `{Broadcast}.
Context (env : Environment) (header_value_ok : text → bool) (update_retention : Z).

(** Nothing happens where a task waits. *)
Definition unused {A} (k : nat) (t : gmap nat A) : bool := bool_decide (t !! k = None).
Definition realtime_step (action : Action) (w : Realtime) : option Realtime :=
  match action with
  | ARequestDocument q doc_id query headers =>
      if unused q (rt_requests w)
      then Some (w <| rt_requests := <[q := ws_handler env header_value_ok doc_id query headers]> (rt_requests w) |>)
      else None
  | ARequestProject q project query headers =>
      if unused q (rt_requests w)
      then Some (w <| rt_requests :=
                   <[q := project_ws_handler header_value_ok project query headers]> (rt_requests w) |>)
      else None
  | AAuthorize x q i fresh_id connection_id =>
      rq ← rt_requests w !! q;
      if unused i (rt_connections w) then Some (request_step env x i fresh_id connection_id q rq w) else None
  | AMain x i => cn ← rt_connections w !! i; main_step env update_retention x i cn w
  | AForward x i => cn ← rt_connections w !! i; forward_step x i cn w
  | ADatabase s now op =>
      if elsewhere_op op then Some (set_db (run_workspace update_retention s now op (rt_db w)) w) else None
  | AAccessChanged a project =>
      if unused a (rt_announcements w) then Some (access_changed a project w) else None
  | AInvalidate a project content_epoch =>
      if unused a (rt_announcements w) then Some (invalidate_project a project content_epoch w) else None
  | ABroadcast now a => broadcast_next now a w
  | AWorkspaceChanged now project change => Some (workspace_changed now project change w)
  | ADrain => Some (w <| rt_draining := true |>)
  end.

(** The process has started: no room, no connection. *)
Definition started (db : WorkspaceDB) : Realtime :=
  MkRealtime db ∅ ∅ 0 ∅ ∅ ∅ false 0 [] ∅ [] [].

Inductive realtime_reachable : Realtime → Prop :=
| realtime_start db : workspace_reachable update_retention db → realtime_reachable (started db)
| realtime_next action w w' :
    realtime_reachable w → realtime_step action w = Some w' → realtime_reachable w'.

(** A run; a step that has to wait is left out. *)
Definition run_realtime (actions : list Action) (w : Realtime) : Realtime :=
  foldl (λ w a, default w (realtime_step a w)) w actions.
Lemma run_realtime_reachable actions w : realtime_reachable w → realtime_reachable (run_realtime actions w).
Proof.
  induction actions as [|a actions IH] in w |- *; [done|]. simpl. intros Hw. apply IH.
  destruct (realtime_step a w) eqn:Hs; [by eapply realtime_next|done].
Qed.
End system.
