(* ===== verification/RealtimeInvariant.v ===== *)
(** * Realtime: the invariant of rooms, connections and streams

    Where a handler is decides what it owns; an attached receiver is on the
    channel its room is mapped to; what an editor has been sent, with what waits
    for it, makes the document of its stream, up to the updates still owed to
    the room; and a broadcast reaches every connection admitted before it. *)
From S2P Require Import Prelude Store Text Paths AccessModel Authorization AccessSystem AccessSteps.
From S2P Require Import WorkspaceModel Collaboration WorkspaceSystem WorkspaceFrames WorkspaceSteps CollaborationSteps.
From S2P Require Import WorkspaceTheorems Convergence RealtimeModel RealtimeRooms RealtimeSockets.

Open Scope Z_scope.

(** ** What the phases mean *)

Definition subscribed (p : Phase) : bool := match p with Upgraded | Subscribing _ => false | _ => true end.
(** The handler has a channel. *)
Definition keyed (p : Phase) : bool := match p with Upgraded | Subscribing _ | Ended => false | _ => true end.
(** Nothing has been sent yet. *)
Definition silent (p : Phase) : bool :=
  match p with Upgraded | Subscribing _ | Revalidating _ false | Bootstrapping => true | _ => false end.
(** The handler owns the receiver; no forwarder yet. *)
Definition opening (p : Phase) : bool :=
  match p with
  | Revalidating _ false | Bootstrapping | AnnouncingBootstrap _ _ | SendingBootstrap _ | Rejecting _ | Dropping => true
  | _ => false
  end.
Definition looping (p : Phase) : bool :=
  match p with
  | Revalidating _ true | Selecting | AuthorizingUpdate _ _ _ _ | PersistingUpdate _ _ _ _ | Queueing _ _
  | AnnouncingUpdate _ _ _ | Publishing _ _ | Leaving _ | Finishing _ => true
  | _ => false
  end.
Definition ending (p : Phase) : bool := match p with Removing _ | Ended => true | _ => false end.
(** The bootstrap frames still to be sent. *)
Definition pending (p : Phase) : list RoomEvent :=
  match p with AnnouncingBootstrap _ events | SendingBootstrap events => events | _ => [] end.
Definition sending (p : Phase) : bool :=
  match p with AnnouncingBootstrap _ _ | SendingBootstrap _ => true | _ => false end.
(** The subscription has been checked against the epoch a broadcast announces. *)
Definition checked (kind : RoomEventKind) (p : Phase) : bool :=
  match p with
  | Upgraded | Subscribing _ | Rejecting _ | Dropping | Removing _ | Ended
  | Revalidating RevalidateAccess false | Revalidating RevalidateContent false => false
  | Revalidating RevalidateEpoch false => bool_decide (kind = ProjectReplaced)
  | _ => true
  end.
Definition auth_epoch (kind : RoomEventKind) (auth : WsAuth) : Z :=
  match kind with AccessRevised => wa_access_epoch auth | _ => wa_content_epoch auth end.
(** An acknowledged update on its way to the room. *)
Definition published (p : Phase) : option nat :=
  match p with AnnouncingUpdate _ _ k | Publishing _ (Some k) => Some k | _ => None end.

Section payloads.
Context `{Texts}.

Definition is_yjs (kind : RoomEventKind) : bool := bool_decide (kind = YjsUpdate ∨ kind = YjsSync).
(** The update an event carries. *)
Definition carried (kind : RoomEventKind) (payload : Value) : option bytes :=
  if is_yjs kind then yjs_payload_to_bytes payload else None.
Definition event_payload (e : RoomEvent) : option bytes := carried (re_kind e) (re_payload e).
Definition frame_payload (f : Frame) : option bytes :=
  match f with TextFrame e => carried (se_kind e) (se_payload e) | CloseFrame _ => None end.
Lemma event_frame_payload e recipient : frame_payload (event_frame e recipient) = event_payload e.
Proof. unfold event_frame, room_event_to_protocol. by destruct (re_origin e). Qed.
End payloads.

(** A frame after which nothing may follow but the close frame. *)
Definition closing_frame (f : Frame) : bool :=
  match f with TextFrame e => closes_stream_kind (se_kind e) (se_payload e) | CloseFrame _ => true end.
Lemma event_frame_closing e recipient : closing_frame (event_frame e recipient) = closes_stream e.
Proof. unfold event_frame, room_event_to_protocol. by destruct (re_origin e). Qed.

Definition plain_frames (frames : list Frame) : Prop := Forall (λ f, closing_frame f = false) frames.
Definition well_ended (frames : list Frame) : Prop :=
  plain_frames frames
  ∨ ∃ before last, plain_frames before ∧
      (frames = before ++ [last] ∨ ∃ event reason, last = TextFrame event ∧ frames = before ++ [last; CloseFrame reason]).
(** More frames may follow. *)
Definition active (cn : Connection) : bool :=
  negb (bool_decide (cn_forwarder cn = Stopped))
  && match cn_phase cn with Dropping | Removing _ | Ended => false | _ => true end.

Section invariant.
Context {Y : Yrs} {YL : YrsLaws} {YC : YrsConvergence} {T : Texts} {TL : TextLaws}
  {B : Broadcast} {BL : BroadcastLaws}.
Context (update_retention : Z).

Abbreviation attached cn := (is_Some (cn_receiver cn)).

(** What waits in the channel for the connection. *)
Definition window (w : Realtime) (cn : Connection) : list RoomEvent :=
  match cn_receiver cn, rt_channels w !! cn_sender cn with
  | Some r, Some c => unread c r
  | _, _ => []
  end.

Record conn_room (w : Realtime) (cn : Connection) : Prop := MkConnRoom {
  cr_mapped : ∀ r, cn_receiver cn = Some r →
    rt_rooms w !! room_key (cn_auth cn) = Some (cn_sender cn)
    ∧ ∃ c, rt_channels w !! cn_sender cn = Some c ∧ r ∈ receivers c;
  cr_key : keyed (cn_phase cn) = true →
    (cn_sender cn < rt_next_channel w)%nat
    ∧ ∀ k, rt_rooms w !! k = Some (cn_sender cn) → k = room_key (cn_auth cn);
}.

Definition published_ok (w : Realtime) (cn : Connection) (event : RoomEvent) (k : nat) : Prop :=
  ∃ a, rt_accepted w !! k = Some a ∧ event_payload event = Some (au_payload a)
       ∧ au_room a = room_key (cn_auth cn).
Definition holds (w : Realtime) (cn : Connection) : Prop :=
  match cn_phase cn with
  | AuthorizingUpdate incoming _ _ payload =>
      carried (ir_kind incoming) (ir_payload incoming) = Some payload
  | PersistingUpdate incoming _ _ payload =>
      carried (ir_kind incoming) (ir_payload incoming) = Some payload ∧ validate_update payload = true
  | Queueing command next =>
      (∀ e, command = CommandEvent e → event_payload e = None)
      ∧ match next with ThenPublish _ event k => published_ok w cn event k | ThenLeave => True end
  | AnnouncingUpdate _ event k | Publishing event (Some k) => published_ok w cn event k
  | Publishing event None => event_payload event = None
  | _ => True
  end.

Record phase_ok (w : Realtime) (cn : Connection) : Prop := MkPhaseOk {
  po_unsubscribed : subscribed (cn_phase cn) = false →
    cn_forwarder cn = NotSpawned ∧ cn_receiver cn = None ∧ cn_bootstrapped cn = None;
  po_opening : opening (cn_phase cn) = true → cn_forwarder cn = NotSpawned ∧ attached cn;
  po_looping : looping (cn_phase cn) = true → cn_forwarder cn ≠ NotSpawned;
  po_ending : ending (cn_phase cn) = true → cn_forwarder cn ≠ Forwarding ∧ cn_receiver cn = None;
  po_forwarding : cn_forwarder cn = Forwarding → attached cn;
  po_stopped : cn_forwarder cn = Stopped → cn_receiver cn = None;
  po_booted : is_document cn = true → looping (cn_phase cn) || sending (cn_phase cn) = true →
    is_Some (cn_bootstrapped cn);
  po_outbox : ∀ e, CommandEvent e ∈ cn_outbox cn → event_payload e = None;
  po_pending : ∀ e, e ∈ pending (cn_phase cn) → closes_stream e = false;
  po_holds : holds w cn;
  po_silent : silent (cn_phase cn) = true → cn_frames cn = [];
  po_frames : well_ended (cn_frames cn) ∧ (active cn = true → plain_frames (cn_frames cn));
}.

(** An event of the kind waits for the connection. *)
Definition informed (kind : RoomEventKind) (events : list RoomEvent) : Prop :=
  ∃ e, e ∈ events ∧ re_kind e = kind.
Record told (w : Realtime) (cn : Connection) (kind : RoomEventKind) : Prop := MkTold {
  to_started : ∀ a an e, rt_announcements w !! a = Some an → an_kind an = kind →
    an_project_id an = wa_project_id (cn_auth cn) → an_epoch an = Some e → auth_epoch kind (cn_auth cn) < e →
    (∃ doc_id, (doc_id, cn_sender cn) ∈ an_rooms an) ∨ informed kind (window w cn);
  to_completed : ∀ e, (kind, wa_project_id (cn_auth cn), e) ∈ rt_announced w →
    auth_epoch kind (cn_auth cn) < e → informed kind (window w cn);
}.
Definition conn_told (w : Realtime) (cn : Connection) : Prop :=
  ∀ kind, kind = AccessRevised ∨ kind = ProjectReplaced → checked kind (cn_phase cn) = true → attached cn →
    told w cn kind.

Definition stream_ready (w : Realtime) (c : CollaborationDocument) : Prop :=
  live c (rt_db w) = true ∧ opened c (rt_db w) = true ∧ ∃ d, stream_doc c (rt_db w) ≡ Some d.
Definition conn_booted (w : Realtime) (cn : Connection) : Prop :=
  ∀ c b, document_of (cn_auth cn) = Some c → cn_bootstrapped cn = Some b →
    (b ≤ length (rt_accepted w))%nat ∧ (c ∉ rt_retired w → stream_ready w c).

(** Every update in the channel was stored for the room. *)
Definition stored_for (w : Realtime) (cn : Connection) (p : bytes) : Prop :=
  ∃ k a, rt_accepted w !! k = Some a ∧ au_room a = room_key (cn_auth cn) ∧ au_payload a = p.
Definition conn_window (w : Realtime) (cn : Connection) : Prop :=
  ∀ p, p ∈ omap event_payload (window w cn) → stored_for w cn p.

(** The updates accepted for the stream since the [b]-th of all. *)
Definition since (c : CollaborationDocument) (b : nat) (accepted : list AcceptedUpdate) : list bytes :=
  au_payload <$> filter (λ a, au_stream a = c) (drop b accepted).
Definition following (cn : Connection) : Prop := cn_forwarder cn = Forwarding ∨ sending (cn_phase cn) = true.

(** [m] is the document of the bootstrap, [rest] what was relayed after it. *)
Record sync (w : Realtime) (cn : Connection) (c : CollaborationDocument) (b : nat) (m : ydoc) (rest : list bytes) :
    Prop := MkSync {
  sy_frames : omap frame_payload (cn_frames cn) ++ omap event_payload (pending (cn_phase cn)) = y_encode m :: rest;
  sy_document : stream_doc c (rt_db w) ≡ apply_all m (since c b (rt_accepted w));
  sy_complete : ∀ k a, (b ≤ k)%nat → rt_accepted w !! k = Some a → au_stream a = c →
    k ∈ rt_owed w ∨ au_payload a ∈ rest ++ omap event_payload (window w cn);
  sy_base : ∀ k a, (k < b)%nat → rt_accepted w !! k = Some a → au_stream a = c → absorbs m (au_payload a);
  sy_sound : ∀ p, p ∈ rest → stored_for w cn p;
}.
Definition conn_synced (w : Realtime) (cn : Connection) : Prop :=
  ∀ c b, document_of (cn_auth cn) = Some c → cn_bootstrapped cn = Some b → c ∉ rt_retired w → following cn →
    ∃ m rest, sync w cn c b m rest.

Record conn_ok (w : Realtime) (cn : Connection) : Prop := MkConnOk {
  co_room : conn_room w cn;
  co_phase : phase_ok w cn;
  co_told : conn_told w cn;
  co_booted : conn_booted w cn;
  co_window : conn_window w cn;
  co_synced : conn_synced w cn;
}.

Definition epochs_announced (w : Realtime) (kind : RoomEventKind) (q : uuid) (e : Z) : Prop :=
  ∃ e', epoch_of kind q (rt_db w) = Some e' ∧ e ≤ e'.

(** The room of a stream. *)
Definition stream_room (c : CollaborationDocument) : uuid * text :=
  (cd_project c, room_id (cd_document c) (cd_collaboration_revision c)).
Lemma document_room auth c : document_of auth = Some c → room_key auth = stream_room c.
Proof. unfold document_of, room_key. destruct (wa_target auth); [done|]. by intros [= <-]. Qed.

Record Inv (w : Realtime) : Prop := MkInv {
  iv_db : workspace_reachable update_retention (rt_db w);
  iv_rooms : ∀ k ch, rt_rooms w !! k = Some ch → (ch < rt_next_channel w)%nat ∧ is_Some (rt_channels w !! ch);
  iv_distinct : ∀ k k' ch, rt_rooms w !! k = Some ch → rt_rooms w !! k' = Some ch → k = k';
  iv_channels : ∀ ch, is_Some (rt_channels w !! ch) → (ch < rt_next_channel w)%nat;
  iv_announcements : ∀ a an, rt_announcements w !! a = Some an →
    is_yjs (an_kind an) = false
    ∧ ∀ e, an_epoch an = Some e → epochs_announced w (an_kind an) (an_project_id an) e;
  iv_announced : ∀ kind q e, (kind, q, e) ∈ rt_announced w → epochs_announced w kind q e;
  iv_accepted_room : ∀ k a, rt_accepted w !! k = Some a → au_room a = stream_room (au_stream a);
  iv_accepted : ∀ k a, rt_accepted w !! k = Some a → au_stream a ∉ rt_retired w →
    stream_ready w (au_stream a)
    ∧ ∀ d, stream_doc (au_stream a) (rt_db w) ≡ Some d → absorbs d (au_payload a);
  iv_conns : ∀ i cn, rt_connections w !! i = Some cn → conn_ok w cn;
  iv_receivers : ∀ i j cn cn' r, i ≠ j → rt_connections w !! i = Some cn → rt_connections w !! j = Some cn' →
    cn_sender cn = cn_sender cn' → cn_receiver cn = Some r → cn_receiver cn' ≠ Some r;
  iv_publishers : ∀ i j cn cn' k b, rt_connections w !! i = Some cn → rt_connections w !! j = Some cn' →
    published (cn_phase cn) = Some k → attached cn' → room_key (cn_auth cn') = room_key (cn_auth cn) →
    cn_bootstrapped cn' = Some b → (b ≤ k)%nat → cn_sender cn' = cn_sender cn;
}.

(** ** Changes of a connection and its channel *)

(** Everything but connections and channels is as before. *)
Record same_context (w w' : Realtime) : Prop := MkSameContext {
  sc_db : rt_db w' = rt_db w; sc_rooms : rt_rooms w' = rt_rooms w;
  sc_next : rt_next_channel w' = rt_next_channel w;
  sc_announcements : rt_announcements w' = rt_announcements w;
  sc_accepted : rt_accepted w' = rt_accepted w; sc_owed : rt_owed w' = rt_owed w;
  sc_retired : rt_retired w' = rt_retired w; sc_announced : rt_announced w' = rt_announced w;
}.

(** The connection's view of its channel is as before. *)
Record same_view (w w' : Realtime) (cn : Connection) : Prop := MkSameView {
  sv_window : window w' cn = window w cn;
  sv_receiver : ∀ r c, cn_receiver cn = Some r → rt_channels w !! cn_sender cn = Some c → r ∈ receivers c →
    ∃ c', rt_channels w' !! cn_sender cn = Some c' ∧ r ∈ receivers c';
}.

Lemma conn_ok_view w w' cn : same_context w w' → same_view w w' cn → conn_ok w cn → conn_ok w' cn.
Proof.
  intros [Edb Er En Ean Eac Eo Eret Ed] [Ew Hrec] [Hroom Hph Htold Hboot Hwin Hsync].
  assert (∀ p, stored_for w cn p → stored_for w' cn p) as Hst.
  { intros p. unfold stored_for. by rewrite Eac. }
  split.
  - destruct Hroom as [Hm Hk]. split; rewrite Er, ?En; [|done]. intros r Hr.
    destruct (Hm r Hr) as (? & c & ? & ?). split; [done|]. by eapply Hrec.
  - destruct Hph as [? ? ? ? ? ? ? ? ? Hh ? ?]. split; try done. unfold holds, published_ok in *. by rewrite Eac.
  - intros kind Hkind Hc Ha. destruct (Htold kind Hkind Hc Ha). split; rewrite Ew, ?Ean, ?Ed; done.
  - intros c b Hc Hb. unfold stream_ready. rewrite Eac, Eret, Edb. by apply Hboot.
  - intros p. rewrite Ew. intros Hp. by apply Hst, Hwin.
  - intros c b Hc Hb. rewrite Eret. intros Hret Hf. destruct (Hsync c b Hc Hb Hret Hf) as (m & rest & [Hfr Hd Hcomp Hbase Hs]).
    exists m, rest. split; rewrite ?Edb, ?Eac, ?Eo, ?Ew; [done..|]. intros p Hp. by apply Hst, Hs.
Qed.

(** One connection and its receiver change. *)
Lemma inv_put i cn' w w' :
  Inv w → same_context w w' → rt_connections w' = rt_connections w →
  (∀ ch, is_Some (rt_channels w' !! ch) ↔ is_Some (rt_channels w !! ch)) →
  (∀ j cn, j ≠ i → rt_connections w !! j = Some cn → same_view w w' cn) →
  conn_ok w' cn' →
  (∀ j cn r, j ≠ i → rt_connections w !! j = Some cn → cn_sender cn = cn_sender cn' →
     cn_receiver cn = Some r → cn_receiver cn' ≠ Some r) →
  (∀ j cn k b, rt_connections w !! j = Some cn ∨ cn = cn' → published (cn_phase cn') = Some k →
     attached cn → room_key (cn_auth cn) = room_key (cn_auth cn') → cn_bootstrapped cn = Some b →
     (b ≤ k)%nat → cn_sender cn = cn_sender cn') →
  (∀ j cn k b, j ≠ i → rt_connections w !! j = Some cn → published (cn_phase cn) = Some k →
     attached cn' → room_key (cn_auth cn') = room_key (cn_auth cn) → cn_bootstrapped cn' = Some b →
     (b ≤ k)%nat → cn_sender cn' = cn_sender cn) →
  Inv (set_connection i cn' w').
Proof.
  intros [Hdb Hrooms Hdist Hch Han Hand Har Hacc Hconns Hrecs Hpub] Hsc Hcs Hdom Hviews Hok Hrec Hpub1 Hpub2.
  pose proof Hsc as [Edb Er En Ean Eac Eo Eret Ed].
  assert (∀ kind q e, epochs_announced w kind q e → epochs_announced w' kind q e) as Hea.
  { intros kind q e. unfold epochs_announced. by rewrite Edb. }
  split; cbn; rewrite ?Edb, ?Er, ?En, ?Ean, ?Eac, ?Eret, ?Ed, ?Hcs; try done.
  - intros k ch Hk. destruct (Hrooms k ch Hk). split; [done|]. by apply Hdom.
  - intros ch Hs. apply Hch. by apply Hdom.
  - intros a an Ha. destruct (Han a an Ha) as [? He]. split; [done|]. intros e Hane. by apply Hea, He.
  - intros kind q e Hin. by apply Hea, Hand.
  - intros k a Ha Hret. destruct (Hacc k a Ha Hret) as [Hr Habs]. split.
    + unfold stream_ready in *. cbn. by rewrite Edb.
    + intros d. by apply Habs.
  - intros j cn [[<- <-]|[Hne Hj]]%lookup_insert_Some.
    + apply (conn_ok_view w'); [by split|by split; eauto|done].
    + apply (conn_ok_view w); [by destruct Hsc| |by eapply Hconns].
      destruct (Hviews j cn (not_eq_sym Hne) Hj). by split.
  - intros j j' cn1 cn2 r Hne [[<- <-]|[Hj Hcn1]]%lookup_insert_Some [[<- <-]|[Hj' Hcn2]]%lookup_insert_Some Hs Hr1.
    + done.
    + intros Hr2. by apply (Hrec j' cn2 r (not_eq_sym Hj') Hcn2).
    + by apply (Hrec j cn1 r (not_eq_sym Hj) Hcn1).
    + by apply (Hrecs j j' cn1 cn2 r Hne).
  - intros j j' cn1 cn2 k b [[<- <-]|[Hj Hcn1]]%lookup_insert_Some [[<- <-]|[Hj' Hcn2]]%lookup_insert_Some Hp Ha Hk Hb Hle.
    + by apply (Hpub1 i cn' k b); [right|..].
    + by apply (Hpub1 j' cn2 k b); [left|..].
    + by apply (Hpub2 j cn1 k b).
    + by apply (Hpub j j' cn1 cn2 k b).
Qed.
End invariant.
