(* ===== verification/RealtimeMoves.v ===== *)
(** * Realtime: what the elementary changes keep

    The invariant across a change of phase, a new state of the database, a send,
    a subscription, a receipt, the end of a receiver, and the broadcasts. *)
From S2P Require Import Prelude Store Text Paths AccessModel Authorization AccessSystem AccessSteps.
From S2P Require Import WorkspaceModel Collaboration WorkspaceSystem WorkspaceFrames WorkspaceSteps CollaborationSteps.
From S2P Require Import WorkspaceTheorems Convergence RealtimeModel RealtimeRooms RealtimeSockets.
From S2P Require Import RealtimeInvariant.

Open Scope Z_scope.

(** A phase that needs nothing new of the connection. *)
Definition compatible (p p' : Phase) : bool :=
  let same f := Bool.eqb (f p : bool) (f p') in
  let only f := implb (f p') (f p : bool) in
  same subscribed && same opening && same looping && same ending && only sending && only keyed && only silent
  && only (checked AccessRevised) && only (checked ProjectReplaced)
  && only (λ p, negb match p with Dropping | Removing _ | Ended => true | _ => false end).

Section moves.
Context {Y : Yrs} {YL : YrsLaws} {YC : YrsConvergence} {T : Texts} {TL : TextLaws}
  {B : Broadcast} {BL : BroadcastLaws}.
Context (update_retention : Z).
Abbreviation Inv := (Inv update_retention).
Abbreviation attached cn := (is_Some (cn_receiver cn)).

(** ** Changes of one connection *)

Lemma same_context_refl (w : Realtime) : same_context w w.
Proof. by split. Qed.
Lemma same_view_refl (w : Realtime) cn : same_view w w cn.
Proof. split; eauto. Qed.

(** Attached connections of one room are on one channel. *)
Lemma attached_sender (w : Realtime) cn cn' :
  conn_room w cn → conn_room w cn' → attached cn → attached cn' →
  room_key (cn_auth cn) = room_key (cn_auth cn') → cn_sender cn = cn_sender cn'.
Proof.
  intros [Hm _] [Hm' _] [r Hr] [r' Hr'] Hk. destruct (Hm r Hr) as [H1 _], (Hm' r' Hr') as [H2 _].
  rewrite Hk, H2 in H1. congruence.
Qed.

Lemma inv_local i cn cn' w :
  Inv w → rt_connections w !! i = Some cn →
  cn_auth cn' = cn_auth cn → cn_sender cn' = cn_sender cn → cn_receiver cn' = cn_receiver cn →
  cn_bootstrapped cn' = cn_bootstrapped cn →
  (keyed (cn_phase cn') = true → keyed (cn_phase cn) = true) →
  phase_ok w cn' → conn_told w cn' → conn_synced w cn' →
  (∀ k, published (cn_phase cn') = Some k → published (cn_phase cn) = Some k ∨ attached cn) →
  Inv (set_connection i cn' w).
Proof.
  intros HI Hi Ea Es Er Eb Hsub Hph Htold Hsync Hpub. pose proof (iv_conns _ _ HI i cn Hi) as Hok.
  assert (window w cn' = window w cn) as Ew by (unfold window; by rewrite Er, Es).
  apply (inv_put update_retention i cn' w w); [done|by split|done|done|by intros; apply same_view_refl|..].
  - split; [|done|done| | |done].
    + destruct (co_room _ _ Hok) as [Hm Hk]. split; rewrite Ea, Es, ?Er; [done|]. auto.
    + intros c b. rewrite Ea, Eb. apply (co_booted _ _ Hok).
    + intros p. rewrite Ew. unfold stored_for. rewrite Ea. apply (co_window _ _ Hok).
  - intros j cnj r Hne Hj Hs Hr. rewrite Er. intros Hr'. rewrite Es in Hs.
    by apply (iv_receivers _ _ HI j i cnj cn r Hne Hj Hi Hs Hr).
  - intros j cnj k b Hj Hp Ha Hk Hb Hle. rewrite Ea in Hk. rewrite Es.
    assert (conn_room w cnj ∧ (published (cn_phase cn) = Some k → cn_sender cnj = cn_sender cn)) as [Hroom Hold].
    { destruct Hj as [Hj| ->].
      - split; [apply (iv_conns _ _ HI j cnj Hj)|]. intros Hp0. by apply (iv_publishers _ _ HI i j cn cnj k b).
      - split; [|by rewrite Es]. destruct (co_room _ _ Hok) as [Hm Hky]. split; rewrite Ea, Es, ?Er; auto. }
    destruct (Hpub k Hp) as [Hp0|Hat]; [by apply Hold|].
    by eapply attached_sender; [|apply Hok|..].
  - intros j cnj k b Hne Hj Hp Ha Hk Hb Hle. rewrite Es. rewrite Ea in Hk. rewrite Eb in Hb. rewrite Er in Ha.
    by apply (iv_publishers _ _ HI j i cnj cn k b).
Qed.

Lemma told_phase w cn cn' :
  conn_told w cn → cn_auth cn' = cn_auth cn → cn_sender cn' = cn_sender cn → cn_receiver cn' = cn_receiver cn →
  (∀ kind, kind = AccessRevised ∨ kind = ProjectReplaced →
     checked kind (cn_phase cn') = true → checked kind (cn_phase cn) = true) → conn_told w cn'.
Proof.
  intros Ht Ea Es Er Hc kind Hk Hch Hat. rewrite Er in Hat.
  destruct (Ht kind Hk (Hc kind Hk Hch) Hat) as [H1 H2].
  assert (window w cn' = window w cn) as Ew by (unfold window; by rewrite Er, Es).
  split; rewrite Ea, ?Es, ?Ew; done.
Qed.

Lemma synced_phase w cn cn' :
  conn_synced w cn → cn_auth cn' = cn_auth cn → cn_sender cn' = cn_sender cn → cn_receiver cn' = cn_receiver cn →
  cn_bootstrapped cn' = cn_bootstrapped cn → (following cn' → following cn) →
  omap frame_payload (cn_frames cn') ++ omap event_payload (pending (cn_phase cn'))
  = omap frame_payload (cn_frames cn) ++ omap event_payload (pending (cn_phase cn)) →
  conn_synced w cn'.
Proof.
  intros Hs Ea Es Er Eb Hf Hp c b Hc Hb Hret Hfol. rewrite Ea in Hc. rewrite Eb in Hb.
  destruct (Hs c b Hc Hb Hret (Hf Hfol)) as (m & rest & [H1 H2 H3 H4 H5]).
  assert (window w cn' = window w cn) as Ew by (unfold window; by rewrite Er, Es).
  exists m, rest. split; rewrite ?Hp, ?Ew; try done. unfold stored_for. by rewrite Ea.
Qed.

(** A change of phase. *)
Lemma phase_ok_goto w cn p p' :
  phase_ok w cn → cn_phase cn = p → compatible p p' = true → pending p' = pending p ∨ pending p' = [] →
  holds w (goto p' cn) → phase_ok w (goto p' cn).
Proof.
  intros [H1 H2 H3 H4 H5 H6 H7 H8 H9 _ H10 [Hw Hf]] <- Hc Hpe Hh. unfold compatible in Hc.
  rewrite !andb_true_iff, !eqb_true_iff in Hc. destruct Hc as (((((((((C1 & C2) & C3) & C4) & C5) & _) & C7) & _) & _) & C8).
  split; cbn; rewrite <-?C1, <-?C2, <-?C3, <-?C4; try done.
  - intros Hd Hl. apply H7; [done|]. apply orb_true_iff in Hl as [->|Hl]; [done|].
    rewrite Hl in C5. simpl in C5. by rewrite C5, orb_true_r.
  - intros e He. destruct Hpe as [Hpe|Hpe]; rewrite Hpe in He; [by apply H9|by apply elem_of_nil in He].
  - intros Hsl. apply H10. rewrite Hsl in C7. by simpl in C7.
  - split; [done|]. intros Ha. apply Hf. unfold active in *. cbn in Ha.
    destruct (bool_decide _); [done|]. simpl in *. destruct (cn_phase cn), p'; done.
Qed.

Lemma compatible_checked p p' :
  compatible p p' = true → ∀ kind, kind = AccessRevised ∨ kind = ProjectReplaced →
  checked kind p' = true → checked kind p = true.
Proof.
  unfold compatible. rewrite !andb_true_iff. intros (((_ & C6) & C7) & _) kind [->| ->] Hk;
    rewrite Hk in *; by destruct (checked _ p).
Qed.

Lemma inv_goto i cn p p' w :
  Inv w → rt_connections w !! i = Some cn → cn_phase cn = p → compatible p p' = true →
  pending p' = pending p ∨ pending p' = [] ∧ opening p = true ∧ sending p' = false → holds w (goto p' cn) →
  (∀ k, published p' = Some k → published p = Some k ∨ attached cn) →
  Inv (set_connection i (goto p' cn) w).
Proof.
  intros HI Hi Hp Hc Hpe Hh Hpub. destruct (iv_conns _ _ HI i cn Hi) as [Hroom Hph Htold _ _ Hsync].
  pose proof (compatible_checked _ _ Hc) as Hck. pose proof Hc as Hc'. unfold compatible in Hc'.
  rewrite !andb_true_iff, !eqb_true_iff in Hc'. destruct Hc' as (((((((((C1 & C2) & C3) & C4) & C5) & C6) & _) & _) & _) & _).
  apply (inv_local i cn); try done.
  - cbn. rewrite Hp. by destruct (keyed p').
  - eapply phase_ok_goto; [done|exact Hp|done|naive_solver|done].
  - eapply told_phase; [exact Htold|done..|]. cbn. rewrite Hp. apply Hck.
  - destruct Hpe as [Hpe|(_ & Ho & Hse)].
    + eapply synced_phase; [exact Hsync|done..| |].
      * unfold following. cbn. rewrite Hp. intros [?|Hs]; [by left|right]. by rewrite Hs in C5.
      * cbn. by rewrite Hp, Hpe.
    + intros c b _ _ _ [Hf|Hf]; cbn in Hf; [|congruence].
      rewrite <-Hp in Ho. destruct (po_opening _ _ Hph Ho). congruence.
  - cbn. by rewrite Hp.
Qed.

(** ** A new state of the database *)

(** What every operation but a stored update does to the database. *)
Record db_evolves (db db' : WorkspaceDB) : Prop := MkEvolves {
  de_reachable : workspace_reachable update_retention db';
  de_streams : ∀ c, live c db' = true → opened c db = true →
    stream_doc c db' ≡ stream_doc c db ∧ opened c db' = true;
  de_epochs : ∀ kind q e, epoch_of kind q db = Some e → ∃ e', epoch_of kind q db' = Some e' ∧ e ≤ e';
}.

Lemma elem_of_retired db' (w : Realtime) c :
  c ∉ rt_retired (set_db db' w) ↔ c ∉ rt_retired w ∧ (c ∈ mentioned w → live c db' = true).
Proof.
  unfold set_db. cbn. rewrite not_elem_of_app, list_elem_of_filter.
  split; (intros [? Hm]; split; [done|]).
  - intros Hin. apply not_false_iff_true. tauto.
  - intros [Hf Hin]. by rewrite Hm in Hf.
Qed.

Lemma mentioned_connection (w : Realtime) i cn c :
  rt_connections w !! i = Some cn → document_of (cn_auth cn) = Some c → c ∈ mentioned w.
Proof.
  intros Hi Hc. unfold mentioned. rewrite elem_of_app. left. apply list_elem_of_omap.
  exists (i, cn). split; [by apply elem_of_map_to_list|done].
Qed.
Lemma mentioned_accepted (w : Realtime) k a : rt_accepted w !! k = Some a → au_stream a ∈ mentioned w.
Proof.
  intros Ha. unfold mentioned. rewrite elem_of_app. right. apply list_elem_of_fmap. exists a.
  split; [done|by eapply list_elem_of_lookup_2].
Qed.

Lemma epochs_announced_later db' (w : Realtime) kind q e :
  (∀ kind q e, epoch_of kind q (rt_db w) = Some e → ∃ e', epoch_of kind q db' = Some e' ∧ e ≤ e') →
  epochs_announced w kind q e → epochs_announced (set_db db' w) kind q e.
Proof. intros Hde (e1 & He1 & ?). destruct (Hde _ _ _ He1) as (e2 & ? & ?). exists e2. split; [done|lia]. Qed.

Lemma inv_set_db db' w : Inv w → db_evolves (rt_db w) db' → Inv (set_db db' w).
Proof.
  intros HI [Hr Hst He].
  assert (∀ c, c ∈ mentioned w → c ∉ rt_retired (set_db db' w) → stream_ready w c →
    stream_doc c db' ≡ stream_doc c (rt_db w) ∧ stream_ready (set_db db' w) c) as Hready.
  { intros c Hin [_ Hl]%elem_of_retired (_ & Ho & d & Hd). destruct (Hst c (Hl Hin) Ho) as [Hdoc Ho'].
    split; [done|]. split_and!; [by apply Hl|done|]. exists d. unfold set_db. cbn. by rewrite Hdoc. }
  destruct HI as [Hdb Hrooms Hdist Hch Han Hand Har Hacc Hconns Hrecs Hpub]. split; try done.
  - intros a an Ha. destruct (Han a an Ha) as [? Hane]. split; [done|]. intros e Hanee.
    apply epochs_announced_later; [done|]. by apply Hane.
  - intros kind q e Hin. apply epochs_announced_later; [done|]. by apply Hand.
  - intros k a Ha Hret. pose proof (proj1 (elem_of_retired _ _ _) Hret) as [Hret0 _].
    destruct (Hacc k a Ha Hret0) as [Hrd Habs].
    destruct (Hready _ (mentioned_accepted _ _ _ Ha) Hret Hrd) as [Hdoc Hrd']. split; [done|].
    intros d Hd. apply Habs. by rewrite <-Hdoc.
  - intros i cn Hi. destruct (Hconns i cn Hi) as [Hroom Hph Htold Hboot Hwin Hsync].
    assert (conn_booted (set_db db' w) cn) as Hboot'.
    { intros c b Hc Hb. destruct (Hboot c b Hc Hb) as [Hle Hrd]. split; [done|]. intros Hret.
      apply Hready; [by eapply mentioned_connection|done|]. apply Hrd. by apply elem_of_retired in Hret as []. }
    split; [by destruct Hroom|by destruct Hph| |done|exact Hwin|].
    + intros kind Hk Hc Ha. destruct (Htold kind Hk Hc Ha). by split.
    + intros c b Hc Hb Hret Hf. pose proof (proj1 (elem_of_retired _ _ _) Hret) as [Hret0 _].
      destruct (Hsync c b Hc Hb Hret0 Hf) as (m & rest & [Hfr Hd Hcomp Hbase Hs]). exists m, rest. split; [done| |done..].
      destruct (Hboot c b Hc Hb) as [_ Hrd].
      destruct (Hready c (mentioned_connection _ _ _ _ Hi Hc) Hret (Hrd Hret0)) as [Hdoc _].
      change (rt_db (set_db db' w)) with db'. by rewrite Hdoc.
Qed.

(** ** A stored update *)

Lemma published_ok_mono (w w' : Realtime) cn ev k :
  (∀ k a, rt_accepted w !! k = Some a → rt_accepted w' !! k = Some a) →
  published_ok w cn ev k → published_ok w' cn ev k.
Proof. intros Hm (a & Ha & ?). exists a. split; [by apply Hm|done]. Qed.
Lemma holds_mono (w w' : Realtime) cn :
  (∀ k a, rt_accepted w !! k = Some a → rt_accepted w' !! k = Some a) → holds w cn → holds w' cn.
Proof.
  intros Hm. unfold holds. destruct (cn_phase cn); try done.
  - intros [? Hn]. split; [done|]. destruct next; [by eapply published_ok_mono|done].
  - by apply published_ok_mono.
  - destruct update; [by apply published_ok_mono|done].
Qed.

Record db_stored (c : CollaborationDocument) (payload : bytes) (db db' : WorkspaceDB) : Prop := MkDbStored {
  ds_reachable : workspace_reachable update_retention db';
  ds_others : ∀ c', c' ≠ c → live c' db' = true → opened c' db = true →
    stream_doc c' db' ≡ stream_doc c' db ∧ opened c' db' = true;
  ds_stream : opened c db' = true ∧ stream_doc c db' ≡ (stream_doc c db ≫= λ d, y_apply d payload);
  ds_epochs : ∀ kind q e, epoch_of kind q db = Some e → ∃ e', epoch_of kind q db' = Some e' ∧ e ≤ e';
}.

Lemma since_snoc c b accepted a :
  (b ≤ length accepted)%nat →
  since c b (accepted ++ [a])
  = since c b accepted ++ (if decide (au_stream a = c) then [au_payload a] else []).
Proof.
  intros Hb. unfold since. rewrite drop_app_le by done. rewrite filter_app, fmap_app. f_equal.
  rewrite filter_cons, filter_nil. by case_decide.
Qed.

Lemma inv_stored i cn c payload w db' n :
  Inv w → rt_connections w !! i = Some cn → document_of (cn_auth cn) = Some c →
  is_Some (cn_bootstrapped cn) → validate_update payload = true →
  db_stored c payload (rt_db w) db' → n = length (rt_accepted w) →
  Inv ((set_db db' w)
       <| rt_accepted := rt_accepted w ++ [MkAccepted c (room_key (cn_auth cn)) payload] |>
       <| rt_owed := {[n]} ∪ rt_owed w |>).
Proof.
  intros HI Hi Hc [b0 Hb0] Hval [Hr Hst [Hop Hdoc] He] ->. set (w' := _ <| rt_owed := _ |>).
  set (a0 := MkAccepted _ _ _) in *.
  assert (∀ k a, rt_accepted w !! k = Some a → rt_accepted w' !! k = Some a) as Hmono.
  { intros k a Ha. unfold w'. cbn. by apply lookup_app_l_Some. }
  assert (∀ c', c' ∈ mentioned w → c' ∉ rt_retired w' → c' ∉ rt_retired w ∧ live c' db' = true) as Hret.
  { intros c' Hin Hn. pose proof (proj1 (elem_of_retired db' w c') Hn) as [? Hl]. auto. }
  assert (c ∈ mentioned w) as Hmc by by eapply mentioned_connection.
  assert (∀ c' d, c' ∈ mentioned w → c' ∉ rt_retired w' → stream_ready w c' → stream_doc c' (rt_db w) ≡ Some d →
    stream_ready w' c' ∧ ∃ d', stream_doc c' db' ≡ Some d' ∧ (if decide (c = c') then y_apply d payload ≡ Some d' else d' = d))
    as Hready.
  { intros c' d Hin Hn (_ & Ho & _) Hd. destruct (Hret c' Hin Hn) as [_ Hl].
    destruct (decide (c = c')) as [<-|Hne].
    - destruct (y_applies d payload) as [d1 Hd1].
      { unfold validate_update in Hval. by apply bool_decide_eq_true in Hval. }
      assert (stream_doc c db' ≡ Some d1) as Hd'.
      { rewrite Hdoc, (y_bind_proper _ _ payload Hd). simpl. by rewrite Hd1. }
      split; [|exists d1; split; [done|by rewrite Hd1]]. split_and!; [done|done|by exists d1].
    - destruct (Hst c' (not_eq_sym Hne) Hl Ho) as [Hd' Ho'].
      assert (stream_doc c' db' ≡ Some d) as Hd2 by by rewrite Hd'.
      split; [|by exists d]. split_and!; [done|done|by exists d]. }
  pose proof HI as [Hdb Hrooms Hdist Hch Han Hand Har Hacc Hconns Hrecs Hpub]. split; try done.
  - intros x an Ha. destruct (Han x an Ha) as [? Hane]. split; [done|]. intros e Hanee.
    apply (epochs_announced_later db' w); [done|]. by apply Hane.
  - intros kind q e Hin. apply (epochs_announced_later db' w); [done|]. by apply Hand.
  - intros k a Ha. unfold w' in Ha. cbn in Ha. apply lookup_app_Some in Ha as [Ha|[_ Ha]]; [by eapply Har|].
    apply list_lookup_singleton_Some in Ha as [_ <-]. by apply document_room.
  - intros k a Ha Hn. unfold w' in Ha. cbn in Ha. apply lookup_app_Some in Ha as [Ha|[_ Ha]].
    + pose proof (mentioned_accepted w _ _ Ha) as Hin. destruct (Hret _ Hin Hn) as [Hn0 _].
      destruct (Hacc k a Ha Hn0) as [Hrd Habs]. pose proof Hrd as (_ & _ & d & Hd).
      destruct (Hready _ d Hin Hn Hrd Hd) as (Hrd' & d' & Hd' & Hor). split; [done|].
      intros d2 Hd2. change (rt_db w') with db' in Hd2. rewrite Hd' in Hd2. inversion Hd2 as [? ? Heq|]. subst.
      rewrite <-Heq. case_decide; [|subst d'; by apply Habs].
      eapply absorbs_later; [by apply Habs|done].
    + apply list_lookup_singleton_Some in Ha as [_ <-]. cbn [au_stream au_payload] in *.
      change (au_stream a0) with c in *. destruct (Hret c Hmc Hn) as [Hn0 _].
      destruct (proj2 (co_booted _ _ (Hconns i cn Hi) c b0 Hc Hb0) Hn0) as (? & ? & d & Hd).
      destruct (Hready c d Hmc Hn) as (Hrd' & d' & Hd' & Hor); [by split_and!; eauto|done|].
      rewrite decide_True in Hor by done. split; [done|]. intros d2 Hd2. change (rt_db w') with db' in Hd2.
      rewrite Hd' in Hd2. inversion Hd2 as [? ? Heq|]. subst. rewrite <-Heq. by eapply absorbs_applied.
  - intros j cnj Hj. destruct (Hconns j cnj Hj) as [Hroom Hph Htold Hboot Hwin Hsync].
    assert (∀ p, stored_for w cnj p → stored_for w' cnj p) as Hsf.
    { intros p (k & a & Ha & ?). exists k, a. split; [by apply Hmono|done]. }
    split.
    + by destruct Hroom.
    + destruct Hph as [? ? ? ? ? ? ? ? ? Hh ? ?]. split; try done. by eapply holds_mono.
    + intros kind Hk Hck Ha. destruct (Htold kind Hk Hck Ha). by split.
    + intros c' b Hc' Hb. destruct (Hboot c' b Hc' Hb) as [Hle Hrd].
      split; [unfold w'; cbn; rewrite length_app; lia|]. intros Hn.
      pose proof (mentioned_connection w _ _ _ Hj Hc') as Hin. destruct (Hret c' Hin Hn) as [Hn0 _].
      pose proof (Hrd Hn0) as Hrd0. pose proof Hrd0 as (_ & _ & d & Hd). by apply (Hready c' d).
    + intros p Hp. apply Hsf, Hwin, Hp.
    + intros c' b Hc' Hb Hn Hf. pose proof (mentioned_connection w _ _ _ Hj Hc') as Hin.
      destruct (Hret c' Hin Hn) as [Hn0 _]. destruct (Hboot c' b Hc' Hb) as [Hle Hrd].
      pose proof (Hrd Hn0) as Hrd0. pose proof Hrd0 as (_ & _ & d & Hd).
      destruct (Hready c' d Hin Hn Hrd0 Hd) as (_ & d' & Hd' & Hor).
      destruct (Hsync c' b Hc' Hb Hn0 Hf) as (m & rest & [Hfr Hsd Hcomp Hbase Hs]). exists m, rest. split; [done| | | |].
      * unfold w' at 2. cbn [rt_accepted]. change (rt_db w') with db'.
        change (rt_accepted ((set_db db' w) <| rt_accepted := rt_accepted w ++ [a0] |> <| rt_owed := {[length (rt_accepted w)]} ∪ rt_owed w |>))
          with (rt_accepted w ++ [a0]).
        rewrite since_snoc by done. cbn [a0 au_stream au_payload]. rewrite apply_all_app, Hd'.
        rewrite Hsd in Hd. rewrite (bind_apply_all_proper _ _ _ Hd). simpl. case_decide as Hcc.
        -- unfold apply_all. simpl. by rewrite <-Hor.
        -- subst d'. done.
      * intros k a Hbk Ha Hs0. unfold w' in Ha. cbn in Ha. apply lookup_app_Some in Ha as [Ha|[Hk Ha]].
        -- destruct (Hcomp k a Hbk Ha Hs0) as [?|?]; [left|by right]. unfold w'. cbn. apply elem_of_union. by right.
        -- left. unfold w'. cbn. apply list_lookup_singleton_Some in Ha as [Hk0 _].
           assert (k = length (rt_accepted w)) as -> by lia. apply elem_of_union. left. by apply elem_of_singleton.
      * intros k a Hk Ha. unfold w' in Ha. cbn in Ha. rewrite lookup_app_l in Ha by lia. by apply (Hbase k).
      * intros p Hp. by apply Hsf, Hs.
Qed.

(** ** A send *)

Lemma following_attached w cn : phase_ok w cn → following cn → attached cn.
Proof.
  intros Hph [Hf|Hs]; [by apply (po_forwarding _ _ Hph)|]. apply (po_opening _ _ Hph). by destruct (cn_phase cn).
Qed.

Lemma window_unattached (w w' : Realtime) cn : cn_receiver cn = None → window w' cn = window w cn.
Proof. intros Hr. unfold window. by rewrite Hr. Qed.

(** What a send may carry: nothing, or an accepted update that is then no longer
    owed to its room. *)
Definition sendable (w : Realtime) (ch : nat) (ev : RoomEvent) (u : option nat) : Prop :=
  match u with
  | None => event_payload ev = None
  | Some k => ∃ a, rt_accepted w !! k = Some a ∧ event_payload ev = Some (au_payload a)
      ∧ (∀ i cn, rt_connections w !! i = Some cn → attached cn → cn_sender cn = ch →
           au_room a = room_key (cn_auth cn))
      ∧ (∀ i cn b, rt_connections w !! i = Some cn → attached cn → document_of (cn_auth cn) = Some (au_stream a) →
           cn_bootstrapped cn = Some b → (b ≤ k)%nat → cn_sender cn = ch)
  end.
Definition paid (u : option nat) (w : Realtime) : Realtime :=
  w <| rt_owed := match u with Some k => rt_owed w ∖ {[k]} | None => rt_owed w end |>.

Lemma window_send ch ev u (w : Realtime) cn :
  conn_room w cn → attached cn →
  window (send_to ch ev (paid u w)) cn = window w cn ++ (if decide (cn_sender cn = ch) then [ev] else []).
Proof.
  intros [Hm _] [r Hr]. destruct (Hm r Hr) as (_ & c & Hc & Hin). unfold window, send_to. cbn. rewrite Hr, Hc.
  case_decide as Hs.
  - subst ch. rewrite lookup_alter_eq, Hc. simpl. by apply channel_send_law.
  - by rewrite lookup_alter_ne, Hc, (right_id_L [] (++)) by done.
Qed.

Lemma inv_send ch ev u w : Inv w → sendable w ch ev u → Inv (send_to ch ev (paid u w)).
Proof.
  intros HI Hs. pose proof HI as [Hdb Hrooms Hdist Hch Han Hand Har Hacc Hconns Hrecs Hpub].
  assert (∀ ch', is_Some (rt_channels (send_to ch ev (paid u w)) !! ch') ↔ is_Some (rt_channels w !! ch')) as Hdom.
  { intros ch'. unfold send_to, paid. cbn. apply lookup_alter_is_Some. }
  split; try done.
  - intros k ch' Hk. destruct (Hrooms k ch' Hk). split; [done|]. by apply Hdom.
  - intros ch' Hc. apply Hch, Hdom, Hc.
  - intros i cn Hi. destruct (Hconns i cn Hi) as [Hroom Hph Htold Hboot Hwin Hsync].
    set (w' := send_to ch ev (paid u w)).
    assert (∀ e, e ∈ window w cn → e ∈ window w' cn) as Hgrow.
    { intros e He. destruct (cn_receiver cn) as [r|] eqn:Hr; [|by rewrite (window_unattached w) by done].
      unfold w'. rewrite (window_send ch ev u w) by (done || by exists r). apply elem_of_app. by left. }
    assert (∀ k, informed k (window w cn) → informed k (window w' cn)) as Hinf.
    { intros k (e & ? & ?). exists e. auto. }
    split.
    + destruct Hroom as [Hm Hk]. split; [|done]. intros r Hr. destruct (Hm r Hr) as (? & c & Hc & Hin).
      split; [done|]. unfold w', send_to. cbn. destruct (decide (cn_sender cn = ch)) as [<-|Hne].
      * rewrite lookup_alter_eq, Hc. exists (channel_send ev c). split; [done|].
        by rewrite (proj1 (channel_send_law ev c)).
      * rewrite lookup_alter_ne by done. by exists c.
    + by destruct Hph.
    + intros k Hk Hc Ha. destruct (Htold k Hk Hc Ha) as [Hst Hcp]. split.
      * intros a an e ? ? ? ? ?. destruct (Hst a an e) as [?|?]; auto.
      * intros e ? ?. apply Hinf. by eapply Hcp.
    + done.
    + intros p Hp. destruct (cn_receiver cn) as [r|] eqn:Hr;
        [|rewrite (window_unattached w) in Hp by done; by apply Hwin].
      unfold w' in Hp. rewrite (window_send ch ev u w) in Hp by (done || by exists r).
      rewrite omap_app, elem_of_app in Hp. destruct Hp as [Hp|Hp]; [by apply Hwin|].
      case_decide as Hsd; [|by apply elem_of_nil in Hp]. simpl in Hp.
      destruct u as [k|]; simpl in Hs; [|by rewrite Hs in Hp; apply elem_of_nil in Hp].
      destruct Hs as (a & Ha & He & Hkey & _). rewrite He in Hp. apply list_elem_of_singleton in Hp as ->.
      exists k, a. split_and!; [done|by eapply Hkey|done].
    + intros c b Hc Hb Hret Hf. destruct (Hsync c b Hc Hb Hret Hf) as (m & rest & [Hfr Hd Hcomp Hbase Hsn]).
      pose proof (following_attached _ _ Hph Hf) as Hat.
      exists m, rest. split; [done|done| |done|done]. intros k a Hk Ha Hst.
      destruct (Hcomp k a Hk Ha Hst) as [Ho|Hin].
      2:{ right. apply elem_of_app in Hin as [Hin|Hin]; apply elem_of_app; [by left|right].
          apply list_elem_of_omap in Hin as (e & He & Hp). apply list_elem_of_omap. exists e. auto. }
      destruct u as [k0|]; [|by left]. destruct (decide (k = k0)) as [->|Hne].
      2:{ left. unfold w', send_to, paid. cbn. apply elem_of_difference. split; [done|]. by rewrite elem_of_singleton. }
      right. simpl in Hs. destruct Hs as (a' & Ha' & He & _ & Hto). assert (a' = a) as -> by (unfold send_to, paid in Ha; cbn in Ha; congruence).
      apply elem_of_app. right. unfold w'. rewrite (window_send ch ev (Some k0) w) by done.
      rewrite decide_True by (apply (Hto i cn b); try done; by rewrite Hst).
      rewrite omap_app. apply elem_of_app. right. simpl. rewrite He. left.
Qed.

(** ** Broadcasts *)

(** The announcements change in a way that leaves every connection told. *)
Lemma inv_announcements ans announced w :
  Inv w →
  (∀ a an, ans !! a = Some an → is_yjs (an_kind an) = false
     ∧ ∀ e, an_epoch an = Some e → epochs_announced w (an_kind an) (an_project_id an) e) →
  (∀ kind q e, (kind, q, e) ∈ announced → epochs_announced w kind q e) →
  (∀ i cn kind, rt_connections w !! i = Some cn → conn_room w cn → attached cn → told w cn kind →
     told (w <| rt_announcements := ans |> <| rt_announced := announced |>) cn kind) →
  Inv (w <| rt_announcements := ans |> <| rt_announced := announced |>).
Proof.
  intros [Hdb Hrooms Hdist Hch Han Hand Har Hacc Hconns Hrecs Hpub] Hans Hannd Htold. split; try done.
  intros i cn Hi. destruct (Hconns i cn Hi) as [Hroom Hph Hto Hboot Hwin Hsync].
  split; [by destruct Hroom|by destruct Hph| |exact Hboot|exact Hwin|].
  - intros kind Hk Hc Ha. apply (Htold i); auto.
  - intros c b Hc Hb Hret Hf. destruct (Hsync c b Hc Hb Hret Hf) as (m & rest & []). by exists m, rest.
Qed.

Lemma inv_broadcast a project kind payload w :
  Inv w → is_yjs kind = false → Inv (broadcast_project a project kind payload w).
Proof.
  intros HI Hk. unfold broadcast_project. cbv zeta. set (rooms := _ <$> _).
  set (an0 := MkAnnouncement project kind payload rooms _).
  apply (inv_announcements (<[a := an0]> (rt_announcements w)) (rt_announced w)); [done| |apply HI|].
  - intros a' an [[<- <-]|[_ Ha]]%lookup_insert_Some; [|by apply (iv_announcements _ _ HI a')].
    split; [done|]. cbn. intros e He. exists e. split; [done|lia].
  - intros i cn k Hi [Hm _] [r Hr] [Hst Hcp]. split; [|exact Hcp].
    intros a' an e Hd. cbn in Hd. apply lookup_insert_Some in Hd as [[<- <-]|[_ Ha]]; cbn; [|by apply (Hst a')].
    intros -> Hq _ _. left. destruct (Hm r Hr) as [Hroom _]. exists (room_key (cn_auth cn)).2.
    unfold rooms. apply list_elem_of_fmap. exists (room_key (cn_auth cn), cn_sender cn). split; [done|].
    apply elem_of_select. split; [done|]. by apply bool_decide_eq_true.
Qed.

Lemma inv_broadcast_next now a w w' : Inv w → broadcast_next now a w = Some w' → Inv w'.
Proof.
  intros HI Hn. unfold broadcast_next in Hn. destruct (rt_announcements w !! a) as [an|] eqn:Ha; [|done].
  simpl in Hn. injection Hn as <-. destruct (iv_announcements _ _ HI a an Ha) as [Hyjs Hane].
  destruct (an_rooms an) as [|[doc_id ch] rooms] eqn:Hrooms.
  - set (ans := delete a (rt_announcements w)). set (announced := match an_epoch an with Some _ => _ | None => _ end).
    apply (inv_announcements ans announced w); [done|..].
    + intros a' an' Hd. unfold ans in Hd. apply lookup_delete_Some in Hd as [_ Ha'].
      by apply (iv_announcements _ _ HI a').
    + intros kind q e. unfold announced. destruct (an_epoch an) as [e0|] eqn:He0; [|apply HI].
      intros [Heq|Hin]%elem_of_cons; [|by apply HI]. simplify_eq. by apply Hane.
    + intros i cn kind Hi Hroom Hat [Hst Hcp]. split.
      * intros a' an' e Hd. cbn in Hd. unfold ans in Hd. apply lookup_delete_Some in Hd as [_ Ha'].
        by apply (Hst a').
      * intros e Hin Hlt. cbn in Hin. unfold announced in Hin.
        destruct (an_epoch an) as [e0|] eqn:He0; [|by eapply Hcp].
        apply elem_of_cons in Hin as [Heq|Hin]; [|by eapply Hcp]. simplify_eq.
        destruct (Hst a an e0 Ha eq_refl) as [[d Hd]|Hi0]; try done.
        rewrite Hrooms in Hd. by apply elem_of_nil in Hd.
  - set (ev := system_event now doc_id (an_kind an) (an_payload an)).
    assert (Inv (send_to ch ev w)) as HI'.
    { apply (inv_send ch ev None); [done|]. simpl. unfold event_payload, carried. cbn. by rewrite Hyjs. }
    set (ans := <[a := an <| an_rooms := rooms |>]> (rt_announcements w)).
    apply (inv_announcements ans (rt_announced w) _ HI').
    + intros a' an' Hd. unfold ans in Hd. apply lookup_insert_Some in Hd as [[<- <-]|[_ Ha']]; [by split|].
      by apply (iv_announcements _ _ HI' a').
    + apply HI'.
    + intros i cn kind Hi [Hm _] [r Hr] [Hst Hcp]. split; [|exact Hcp].
      intros a' an' e Hd. cbn in Hd. unfold ans in Hd.
      apply lookup_insert_Some in Hd as [[<- <-]|[_ Ha']]; cbn; [|by apply (Hst a')].
      intros Hk Hq He Hlt. destruct (Hst a an e Ha Hk Hq He Hlt) as [[d Hd]|Hi0]; [|by right].
      rewrite Hrooms in Hd. apply elem_of_cons in Hd as [Heq|Hd]; [|left; by exists d].
      right. simplify_eq. exists ev. split; [|done].
      destruct (iv_conns _ _ HI i cn Hi) as [Hroom0 _ _ _ _ _].
      change (ev ∈ window (send_to (cn_sender cn) ev (paid None w)) cn).
      rewrite (window_send (cn_sender cn) ev None w cn) by (done || by exists r).
      rewrite decide_True by done. apply elem_of_app. right. left.
Qed.

(** ** Subscriptions *)

(** A new receiver on the channel of a room. *)
Definition subscribed_at (w w' : Realtime) (key : uuid * text) (ch r : nat) : Prop :=
  Inv w' ∧ rt_connections w' = rt_connections w ∧ rt_accepted w' = rt_accepted w
  ∧ rt_rooms w' !! key = Some ch
  ∧ (∃ c, rt_channels w' !! ch = Some c ∧ r ∈ receivers c ∧ unread c r = [])
  ∧ ∀ j cn r', rt_connections w !! j = Some cn → cn_sender cn = ch → cn_receiver cn = Some r' → r' ≠ r.

Lemma inv_channels_rooms rooms channels next w :
  Inv w → (rt_next_channel w ≤ next)%nat →
  (∀ k ch, rooms !! k = Some ch → (ch < next)%nat ∧ is_Some (channels !! ch)) →
  (∀ k k' ch, rooms !! k = Some ch → rooms !! k' = Some ch → k = k') →
  (∀ ch, is_Some (channels !! ch) → (ch < next)%nat) →
  (∀ i cn, rt_connections w !! i = Some cn → attached cn → rooms !! room_key (cn_auth cn) = rt_rooms w !! room_key (cn_auth cn)) →
  (∀ k ch, rooms !! k = Some ch → rt_rooms w !! k = Some ch ∨ (rt_next_channel w ≤ ch)%nat) →
  (∀ i cn, rt_connections w !! i = Some cn →
     same_view w (w <| rt_channels := channels |> <| rt_rooms := rooms |> <| rt_next_channel := next |>) cn) →
  Inv (w <| rt_channels := channels |> <| rt_rooms := rooms |> <| rt_next_channel := next |>).
Proof.
  intros [Hdb Hrooms Hdist Hch Han Hand Har Hacc Hconns Hrecs Hpub] Hle H1 H2 H3 Hkeep Hnew Hviews. split; try done.
  intros i cn Hi. destruct (Hconns i cn Hi) as [Hroom Hph Htold Hboot Hwin Hsync].
  destruct (Hviews i cn Hi) as [Ew Hrec]. set (w' := _ <| rt_next_channel := next |>) in *.
  split; [|by destruct Hph| |exact Hboot| |].
  - destruct Hroom as [Hm Hk]. split.
    + intros r Hr. destruct (Hm r Hr) as (Hmap & c & Hc & Hin).
      split; [cbn; by rewrite (Hkeep i cn Hi) by by exists r|by eapply Hrec].
    + intros Hs. destruct (Hk Hs) as [Hlt Hkey]. split; [cbn; lia|]. intros k Hk'. cbn in Hk'.
      destruct (Hnew k _ Hk') as [Hold|Hge]; [by apply Hkey|lia].
  - intros kind Hk Hc Ha. destruct (Htold kind Hk Hc Ha). by split; rewrite Ew.
  - intros p. rewrite Ew. apply Hwin.
  - intros c b Hc Hb Hret Hf. destruct (Hsync c b Hc Hb Hret Hf) as (m & rest & []). exists m, rest.
    by split; rewrite ?Ew.
Qed.

Lemma subscribe_existing_inv key w w' ch r :
  Inv w → subscribe_existing key w = Some (w', ch, r) → subscribed_at w w' key ch r.
Proof.
  intros HI Hsub. unfold subscribe_existing in Hsub.
  destruct (rt_rooms w !! key) as [ch0|] eqn:Hroom; [|done]. simpl in Hsub.
  destruct (rt_channels w !! ch0) as [c|] eqn:Hc; [|done]. simpl in Hsub.
  destruct (channel_subscribe c) as [c' r0] eqn:Hs. injection Hsub as <- <- <-.
  destruct (channel_subscribe_law c c' r0 Hs) as (Hfresh & Hrs & Hu & Hother).
  assert (∀ ch, is_Some (<[ch0:=c']> (rt_channels w) !! ch) ↔ is_Some (rt_channels w !! ch)) as Hdom.
  { intros ch. destruct (decide (ch = ch0)) as [->|]; [rewrite lookup_insert_eq, Hc; by split; eexists|].
    by rewrite lookup_insert_ne. }
  split_and!; [|done|done|done|..].
  - apply (inv_channels_rooms (rt_rooms w) (<[ch0:=c']> (rt_channels w)) (rt_next_channel w) w HI).
    + lia.
    + intros k ch Hk. destruct (iv_rooms _ _ HI k ch Hk). split; [done|by apply Hdom].
    + apply HI.
    + intros ch Hs0. apply HI. by apply Hdom.
    + done.
    + auto.
    + intros i cn Hi. destruct (iv_conns _ _ HI i cn Hi) as [[Hm _] _ _ _ _ _].
      split; cbn; (destruct (decide (cn_sender cn = ch0)) as [He|]; [|try by rewrite lookup_insert_ne by done]).
      * unfold window. cbn. destruct (cn_receiver cn) as [r|] eqn:Hr; [|done].
        destruct (Hm r eq_refl) as (_ & c1 & Hc1 & Hin). rewrite He in *. rewrite lookup_insert_eq, Hc1.
        rewrite Hc in Hc1. injection Hc1 as <-. by apply Hother.
      * unfold window. cbn. by rewrite lookup_insert_ne.
      * intros r c1 Hr Hc1 Hin. rewrite He in *. rewrite Hc in Hc1. injection Hc1 as <-.
        exists c'. rewrite lookup_insert_eq. split; [done|]. rewrite Hrs. set_solver.
      * rewrite lookup_insert_ne by done. eauto.
  - cbn. exists c'. rewrite lookup_insert_eq. split_and!; [done| |done]. rewrite Hrs. set_solver.
  - intros j cn r' Hj He Hr ->. destruct (co_room _ _ (iv_conns _ _ HI j cn Hj)) as [Hm _].
    destruct (Hm r0 Hr) as (_ & c1 & Hc1 & Hin). rewrite He, Hc in Hc1. by injection Hc1 as <-.
Qed.

Lemma subscribe_creating_inv key w w' ch r :
  Inv w → subscribe_creating key w = (w', ch, r) → subscribed_at w w' key ch r.
Proof.
  intros HI Hsub. unfold subscribe_creating in Hsub.
  destruct (subscribe_existing key w) as [[[w1 ch1] r1]|] eqn:He.
  { injection Hsub as <- <- <-. by apply subscribe_existing_inv. }
  assert (rt_rooms w !! key = None) as Hnone.
  { unfold subscribe_existing in He. destruct (rt_rooms w !! key) as [ch0|] eqn:Hroom; [|done].
    destruct (iv_rooms _ _ HI _ _ Hroom) as [_ [c Hc]]. simpl in He. rewrite Hc in He. simpl in He.
    by destruct (channel_subscribe c). }
  destruct (channel_new CHANNEL_CAPACITY) as [c r0] eqn:Hn. injection Hsub as <- <- <-.
  destruct (channel_new_law _ _ _ Hn) as [Hrs Hu]. set (n := rt_next_channel w) in *.
  assert (rt_channels w !! n = None) as Hfree.
  { apply eq_None_not_Some. intros Hs. apply HI in Hs. lia. }
  assert (∀ ch, is_Some (rt_channels w !! ch) → ch ≠ n) as Hold by (intros ch Hs ->; by rewrite Hfree in Hs; destruct Hs).
  split_and!; [|done|done|by cbn; rewrite lookup_insert_eq|..].
  - apply (inv_channels_rooms (<[key:=n]> (rt_rooms w)) (<[n:=c]> (rt_channels w)) (S n) w HI).
    + lia.
    + intros k ch [[_ <-]|[_ Hk]]%lookup_insert_Some; [by rewrite lookup_insert_eq; split; [lia|eexists]|].
      destruct (iv_rooms _ _ HI k ch Hk) as [? Hs]. split; [lia|]. rewrite lookup_insert_ne; [done|].
      intros <-. by apply (Hold n).
    + intros k k' ch [[<- <-]|[Hne Hk]]%lookup_insert_Some [[<- Hch]|[Hne' Hk']]%lookup_insert_Some; try done.
      * destruct (iv_rooms _ _ HI k' _ Hk'). lia.
      * subst. destruct (iv_rooms _ _ HI k _ Hk). lia.
      * by apply (iv_distinct _ _ HI k k' ch).
    + intros ch Hs. destruct (decide (ch = n)) as [->|Hne]; [lia|]. rewrite lookup_insert_ne in Hs by done.
      apply HI in Hs. lia.
    + intros i cn Hi [r Hr]. destruct (co_room _ _ (iv_conns _ _ HI i cn Hi)) as [Hm _].
      destruct (Hm r Hr) as [Hmap _]. rewrite lookup_insert_ne; [done|]. intros ->. by rewrite Hnone in Hmap.
    + intros k ch [[_ <-]|[_ Hk]]%lookup_insert_Some; [by right|by left].
    + intros i cn Hi. destruct (co_room _ _ (iv_conns _ _ HI i cn Hi)) as [Hm _]. split.
      * unfold window. cbn. destruct (cn_receiver cn) as [r|] eqn:Hr; [|done].
        destruct (Hm r eq_refl) as (_ & c1 & Hc1 & _). rewrite lookup_insert_ne; [done|].
        intros Heq. by apply (Hold (cn_sender cn)); [eexists|].
      * intros r c1 Hr Hc1 Hin. cbn. exists c1. split; [|done]. rewrite lookup_insert_ne; [done|].
        intros Heq. by apply (Hold (cn_sender cn)); [eexists|].
  - cbn. exists c. rewrite lookup_insert_eq, Hrs. split_and!; [done|set_solver|done].
  - intros j cn r' Hj Hs Hr. destruct (co_room _ _ (iv_conns _ _ HI j cn Hj)) as [Hm _].
    destruct (Hm r' Hr) as (_ & c1 & Hc1 & _). rewrite Hs in Hc1. by rewrite Hfree in Hc1.
Qed.
End moves.
