(* ===== verification/RealtimeDatabase.v ===== *)
(** * Realtime: what the sockets do to the database, and what only grows

    No operation lowers the content epoch of a project, and only a stored
    update draws from the sequence of updates. *)
From S2P Require Import Prelude Store Text Paths AccessModel Authorization AccessSystem AccessSteps AuthorizationTheorems.
From S2P Require Import WorkspaceModel WorkspaceStatements WorkspaceFiles WorkspaceProjects.
From S2P Require Import Collaboration WorkspaceFrames WorkspaceEffects WorkspaceSteps WorkspaceSystem.
From S2P Require Import CollaborationSteps CollaborationReconcile WorkspaceTheorems ObjectSteps Convergence.
From S2P Require Import RealtimeModel RealtimeRooms RealtimeSockets RealtimeInvariant RealtimeMoves.

Open Scope Z_scope.

Definition epochs_grow (db db' : WorkspaceDB) : Prop :=
  ∀ q e, project_content_epoch q db = Some e → ∃ e', project_content_epoch q db' = Some e' ∧ e ≤ e'.
Record ageing (db db' : WorkspaceDB) : Prop := MkAgeing {
  ag_epochs : epochs_grow db db'; ag_next : next_update db' = next_update db }.

#[export] Instance epochs_grow_preorder : PreOrder epochs_grow.
Proof.
  split; [intros db q e He; exists e; split; [done|lia]|].
  intros x y z H1 H2 q e He. destruct (H1 q e He) as (e1 & He1 & ?), (H2 q e1 He1) as (e2 & ? & ?).
  exists e2. split; [done|lia].
Qed.
#[export] Instance ageing_preorder : PreOrder ageing.
Proof. split; [by split|]. intros x y z [E1 N1] [E2 N2]. split; [by etrans|congruence]. Qed.

Lemma same_rows_grow db db' : project_rows db' = project_rows db → epochs_grow db db'.
Proof. intros Hr q e. unfold project_content_epoch. rewrite Hr. intros He. exists e. split; [done|lia]. Qed.
Lemma same_rows_ageing db db' :
  project_rows db' = project_rows db → next_update db' = next_update db → ageing db db'.
Proof. intros Hr Hn. split; [by apply same_rows_grow|done]. Qed.

(** A row that is new, or rewritten with an epoch no smaller. *)
Lemma put_row_ageing q p db db' :
  project_rows db' = <[q := p]> (project_rows db) → next_update db' = next_update db →
  (∀ p0, project_rows db !! q = Some p0 → p_content_epoch p0 ≤ p_content_epoch p) → ageing db db'.
Proof.
  intros Hr Hn Hp. split; [|done]. intros k e. unfold project_content_epoch. rewrite Hr.
  intros (p0 & Hp0 & ->)%fmap_Some. destruct (decide (k = q)) as [->|Hne].
  - rewrite lookup_insert_eq. exists (p_content_epoch p). split; [done|]. by apply Hp.
  - rewrite lookup_insert_ne, Hp0 by done. exists (p_content_epoch p0). split; [done|lia].
Qed.

Lemma advance_workspace_version_ageing q db u db' :
  advance_workspace_version q db = Ok (u, db') → ageing db db'.
Proof.
  unfold advance_workspace_version. destruct (project_rows db !! q) as [p|] eqn:Hp; [|by intros [= <- <-]].
  case_match; [done|]. intros [= <- <-]. eapply (put_row_ageing q); [done|done|].
  intros p0 Hp0. simplify_eq. cbn. lia.
Qed.
Lemma advance_generation_ageing q db v db' : advance_generation q db = Ok (v, db') → ageing db db'.
Proof.
  unfold advance_generation. destruct (project_rows db !! q) as [p|] eqn:Hp; [|done].
  case_match; [done|]. intros [= <- <-]. eapply (put_row_ageing q); [done|done|].
  intros p0 Hp0. simplify_eq. cbn. lia.
Qed.
Lemma on_access_ageing {A} (q : AccessDB → result sqlx_error (A * AccessDB)) db a db' :
  on_access q db = Ok (a, db') → ageing db db'.
Proof. unfold on_access. repeat case_match; [|done]. intros [= <- <-]. by apply same_rows_ageing. Qed.
Lemma insert_project_row_ageing g db u db' : insert_project_row g db = Ok (u, db') → ageing db db'.
Proof.
  unfold insert_project_row. case_match; [done|]. case_bool_decide as Hnew; [done|].
  intros Ho. eapply on_access_ageing in Ho. refine (transitivity _ Ho).
  eapply (put_row_ageing (g_project g)); [done|done|]. intros p0 Hp0. destruct Hnew. by exists p0.
Qed.

Ltac ageing_statement :=
  let H := fresh in intros * H; cbv zeta in *; autounfold with statements in H; cbv zeta in H;
  repeat case_match; simplify_eq; by apply same_rows_ageing.

Lemma update_each_ageing {Row} (f : WorkspaceDB → Row → result sqlx_error WorkspaceDB) rows db n db' :
  (∀ db row db', f db row = Ok db' → ageing db db') →
  updates_rows f rows db = Ok (n, db') → ageing db db'.
Proof.
  intros Hf [_ Hu]%updates_rows_Ok. revert Hu. generalize (rows db) as l. intros l.
  induction l as [|row l IH] in db |- *; simpl; [by intros [= <-]|].
  destruct (f db row) as [db1|] eqn:Hrow; [|done]. simpl. intros Hu. etrans; [by eapply Hf|by apply IH].
Qed.
Lemma move_directories_ageing project from to db n db' :
  move_directories project from to db = Ok (n, db') → ageing db db'.
Proof. apply update_each_ageing. ageing_statement. Qed.
Lemma move_documents_ageing project from to now db n db' :
  move_documents project from to now db = Ok (n, db') → ageing db db'.
Proof. apply update_each_ageing. ageing_statement. Qed.
Lemma move_assets_ageing project from to db n db' :
  move_assets project from to db = Ok (n, db') → ageing db db'.
Proof. apply update_each_ageing. unfold move_asset. ageing_statement. Qed.

Create HintDb ageing.
#[export] Hint Resolve move_directories_ageing move_documents_ageing move_assets_ageing
  advance_workspace_version_ageing advance_generation_ageing insert_project_row_ageing
  on_access_ageing : ageing.
#[export] Hint Unfold enqueue_object_deletion upsert_asset insert_new_asset delete_assets_at_path
  delete_asset_by_id delete_assets_in delete_project_assets update_each : statements.

(** Through a block, statement by statement. *)
Ltac ages :=
  cbv zeta; repeat first
    [ apply keeps_ret; typeclasses eauto | apply keeps_early
    | apply keeps_for; [typeclasses eauto|intros ?]
    | apply keeps_exec; first [by eauto with ageing | ageing_statement]
    | solve [auto with ageing]
    | apply keeps_bind; [typeclasses eauto| |intros ?]
    | match goal with
      | |- keeps _ (match ?x with _ => _ end) => destruct x
      | |- keeps _ (let '_ := ?x in _) => destruct x
      end ].

Section blocks.
Context {R : Type} (s : schedule) (fail : sqlx_error → R) (now : time).

Lemma record_workspace_change_ageing project by' kind :
  keeps ageing (record_workspace_change s fail project by' kind now).
Proof. unfold record_workspace_change. ages. Qed.
Lemma record_project_activity_ageing project actor guest :
  keeps ageing (record_project_activity s fail project actor guest now).
Proof. unfold record_project_activity. ages. Qed.
Lemma enqueue_object_deletions_ageing keys : keeps ageing (enqueue_object_deletions s fail now keys).
Proof. unfold enqueue_object_deletions. ages. Qed.
#[local] Hint Resolve record_workspace_change_ageing record_project_activity_ageing : ageing.

Lemma mark_project_dirty_ageing project actor guest :
  keeps ageing (mark_project_dirty s fail project actor guest now).
Proof. unfold mark_project_dirty. ages. Qed.
Lemma mark_dirty_ageing project actor : keeps ageing (mark_dirty s now fail project actor).
Proof. apply mark_project_dirty_ageing. Qed.
Lemma record_contribution_ageing project c : keeps ageing (record_contribution s fail project now c).
Proof. unfold record_contribution. ages. Qed.
#[local] Hint Resolve record_contribution_ageing : ageing.
Lemma record_collaborative_document_activity_ageing project contributors :
  keeps ageing (record_collaborative_document_activity s fail project contributors now).
Proof. unfold record_collaborative_document_activity. ages. Qed.

Lemma replace_project_content_ageing c : keeps ageing (replace_project_content s fail c).
Proof. unfold replace_project_content. ages. Qed.
Lemma provision_project_ageing g : keeps ageing (WorkspaceProjects.provision_project s fail g).
Proof. unfold WorkspaceProjects.provision_project, create_project_graph. ages. Qed.
Lemma persist_project_file_ageing project path document uploaded_by prepared :
  keeps ageing (persist_project_file s now fail project path document uploaded_by prepared).
Proof. unfold persist_project_file. ages. Qed.
Lemma move_subtree_ageing project from to : keeps ageing (move_subtree s now fail project from to).
Proof. unfold move_subtree. ages. Qed.
Lemma delete_subtree_ageing project path : keeps ageing (delete_subtree s fail project path).
Proof. unfold delete_subtree. ages. Qed.
End blocks.
#[export] Hint Resolve mark_project_dirty_ageing mark_dirty_ageing enqueue_object_deletions_ageing
  record_collaborative_document_activity_ageing replace_project_content_ageing provision_project_ageing
  persist_project_file_ageing move_subtree_ageing delete_subtree_ageing : ageing.

Section operations.
Context `{Yrs} (s : schedule) (now : time) (update_retention : Z).

Lemma reconcile_ageing {R} (fail : sqlx_error → R) unmergeable c state seed :
  keeps ageing (reconcile_collaboration_document s now fail update_retention unmergeable c state seed).
Proof. unfold reconcile_collaboration_document, project_collaboration_document. ages. Qed.
#[local] Hint Resolve reconcile_ageing : ageing.

Lemma transact_then_ageing {R A} (fail : sqlx_error → R) (m : Tx WorkspaceDB R (R * A)) db :
  keeps ageing m → ageing db (transact_then s fail m db).2.
Proof. intros Hm. unfold transact_then. apply keeps_transact; [apply _|]. apply keeps_bind; [apply _|done|].
  intros a. apply keeps_ret, _. Qed.

Lemma run_workspace_ageing op db :
  (∀ c user kind payload epoch name, op ≠ OPersistUpdate c user kind payload epoch name) →
  ageing db (run_workspace update_retention s now op db).
Proof.
  intros Hop. destruct op; simpl; try by destruct (Hop c user kind payload access_epoch guest_display_name).
  all: try by apply same_rows_ageing.
  all: unfold prepare_document_bootstrap; try (rewrite let_pair_snd);
    unfold create_project, create_document, upsert_document_by_path, update_document, delete_document,
      create_project_file, move_project_file, delete_project_file, upload_project_asset,
      delete_project_asset, get_or_create_project_settings, change_project_setting, apply_repo_import,
      create_project_transaction, create_project_file_transaction, delete_project_file_transaction,
      upload_project_asset_transaction, delete_project_asset_transaction, apply_repo_import_transaction,
      bootstrap_transaction, reconcile_pending_document; cbv zeta;
    first [apply (keeps_transact ageing)|apply transact_then_ageing]; ages.
Qed.

Lemma insert_update_grows w db id db' : insert_update now w db = Ok (id, db') → epochs_grow db db'.
Proof. unfold insert_update. cbv zeta. repeat case_match; try done. intros [= <- <-]. by apply same_rows_grow. Qed.

Lemma persist_update_ageing c user kind payload epoch name db :
  epochs_grow db (persist_update s now update_retention c user kind payload epoch name db).2.
Proof.
  unfold persist_update. cbv zeta. apply (transact_inv (epochs_grow db)); [done|].
  apply wp_bind, wp_reads; [done|]. destruct (lock_project_content_epoch _ _ _); try by apply wp_early.
  apply wp_bind, wp_reads; [done|]. destruct (lock_project_access_epoch _ _ _); try by apply wp_early.
  apply wp_bind, wp_writes; [done|]. unfold lock_document_updates.
  apply wp_bind, wp_reads; [done|]. destruct (Collaboration.is_document c db); simpl; [|by apply wp_early].
  apply wp_bind, wp_exec; [done|]. intros id db1 He1%insert_update_grows.
  assert (∀ (m : Tx WorkspaceDB (result ReconcileError PersistUpdateOutcome)
                   (result ReconcileError PersistUpdateOutcome)) n, keeps ageing m →
    wp m (λ _, True) (λ _ db' _, epochs_grow db db') db1 n) as Hrest.
  { intros m n Hm. eapply wp_mono; [apply Hm|done|]. intros r db2 n2 [He2 _]. by etrans. }
  apply Hrest. destruct kind; ages.
Qed.
End operations.

(** * Realtime: what the sockets do to the database

    Authorization touches guest sessions, a bootstrap opens and compacts a
    stream, an update is stored or not; everything else is an operation of the
    rest of the program. *)
Section database.
Context {Y : Yrs} {YL : YrsLaws}.
Context (update_retention : Z).
Abbreviation reachable := (workspace_reachable update_retention).
Abbreviation evolves := (db_evolves update_retention).

(** Epochs only grow, whatever the operation. *)
Lemma epochs_later (db db' : WorkspaceDB) q :
  content_step q db db' → reachable db → epochs_grow db db' →
  ∀ kind p e, epoch_of kind p db = Some e → ∃ e', epoch_of kind p db' = Some e' ∧ e ≤ e'.
Proof.
  intros Hc Hr Hg kind p e He. destruct kind; try done; [by apply Hg|].
  destruct (os_access _ _ _ Hc) as [trace Ht]. simpl in *. rewrite Ht.
  destruct (reachable_inv update_retention _ Hr) as (_ & _ & HA).
  by apply (run_trace_step trace (access db) HA).
Qed.

Lemma evolves_refl db : reachable db → evolves db db.
Proof. intros Hr. split; [done|done|]. intros kind q e He. exists e. split; [done|lia]. Qed.

(** An operation that stores no update. *)
Lemma run_workspace_evolves s now op db :
  reachable db → elsewhere_op op = true → evolves db (run_workspace update_retention s now op db).
Proof.
  intros Hr Hop. assert (op_ok op) as Hok by by destruct op.
  destruct (reachable_inv update_retention _ Hr) as (HI & _).
  destruct (run_workspace_step update_retention s now op db Hok HI) as [[q Hc] _ Hs].
  assert (∀ c user kind payload epoch name, op ≠ OPersistUpdate c user kind payload epoch name) as Hno
    by by intros * ->.
  split; [by apply workspace_next| |].
  - intros c Hl Ho. destruct (Hs c Hl) as [Hd Ho' _|* ->|* _ Hn]; [auto|done|congruence].
  - eapply epochs_later; [exact Hc|done|]. by apply run_workspace_ageing.
Qed.

Lemma authorized_evolves s env now headers project need db r a :
  reachable db → run_pool (ensure_project_access s env now headers project need) (access db) = (r, a) →
  evolves db (db <| access := a |>).
Proof.
  intros Hr Hrun. destruct (ensure_project_access_decides _ _ _ _ _ _ _ _ _ Hrun) as (_ & _ & [->|[g ->]]).
  - destruct db. by apply evolves_refl.
  - by apply (run_workspace_evolves healthy now (OAccess (OTouch g)) db).
Qed.

Lemma bootstrap_evolves s now c db r db' :
  reachable db → bootstrap_transaction s now update_retention c db = (r, db') → evolves db db'.
Proof.
  intros Hr Hrun. pose proof (run_workspace_evolves s now (OBootstrap c) db Hr eq_refl) as He.
  simpl in He. unfold prepare_document_bootstrap in He. by rewrite Hrun in He.
Qed.

(** The update is stored exactly when the sequence has moved on. *)
Lemma persist_stores s now c user kind payload epoch name db r db' :
  reachable db → persist_update s now update_retention c user kind payload epoch name db = (r, db') →
  (next_update db' = next_update db ∧ db' = db ∧ ∀ ack, r ≠ Ok (Accepted ack))
  ∨ (next_update db' ≠ next_update db ∧ db_stored update_retention c payload db db'
     ∧ ∀ o, r = Ok o → ∃ ack, o = Accepted ack).
Proof.
  intros Hr Hrun. destruct (reachable_inv update_retention _ Hr) as (HI & _).
  destruct (persist_update_spec _ _ _ _ _ _ _ _ _ _ _ _ HI Hrun) as [[-> Hno]|[Hst Hok]]; [by left|].
  pose proof (workspace_next update_retention s now (OPersistUpdate c user kind payload epoch name) db Hr I) as Hr'.
  simpl in Hr'. rewrite Hrun in Hr'. simpl in Hr'.
  right. pose proof (us_next _ _ _ _ _ _ Hst). split; [lia|]. split; [|done].
  destruct Hst as [[_ Hc Ho] _ _ Hd _ Hop _ _]. split; [done| |done|].
  - intros c' Hne Hl Hop'. destruct (same_stream_doc _ _ _ (Ho c' Hne Hl)) as [Hd' Ho'].
    by rewrite Hd', Ho'.
  - eapply epochs_later; [exact Hc|done|].
    pose proof (persist_update_ageing s now update_retention c user kind payload epoch name db) as Hg.
    by rewrite Hrun in Hg.
Qed.
End database.
