(* ===== verification/RealtimePhases.v ===== *)
(** * Realtime: the forwarder and the opening of a connection keep the invariant

    The ends of a receiver, receipts, new connections; then the phases of the
    handlers, the forwarder, requests and broadcasts. *)
From S2P Require Import Prelude Store Text Paths AccessModel Authorization AccessSystem AccessSteps WorkspaceModel.
From S2P Require Import WorkspaceProjects Collaboration WorkspaceFrames WorkspaceSteps WorkspaceSystem.
From S2P Require Import CollaborationSteps CollaborationReconcile WorkspaceTheorems Convergence RealtimeModel.
From S2P Require Import RealtimeRooms RealtimeSockets RealtimeInvariant RealtimeMoves RealtimeDatabase.

Open Scope Z_scope.

Section steps.
Context {Y : Yrs} {YL : YrsLaws} {YC : YrsConvergence} {T : Texts} {TL : TextLaws}
  {B : Broadcast} {BL : BroadcastLaws}.
Context (update_retention : Z).
Abbreviation Inv := (Inv update_retention).
Abbreviation attached cn := (is_Some (cn_receiver cn)).

(** ** What the others see of a change of channels *)

Record quiet_for_others (i : nat) (w w' : Realtime) : Prop := MkQuiet {
  qo_context : same_context w w';
  qo_connections : rt_connections w' = rt_connections w;
  qo_channels : ∀ ch, is_Some (rt_channels w' !! ch) ↔ is_Some (rt_channels w !! ch);
  qo_views : ∀ j cn, j ≠ i → rt_connections w !! j = Some cn → same_view w w' cn;
}.
Lemma quiet_for_others_refl i w : quiet_for_others i w w.
Proof. split; [by split|done|done|]. intros. apply same_view_refl. Qed.

(** The channel of [i] changes for the receiver of [i] only. *)
Lemma quiet_channel i cn r c c' w :
  Inv w → rt_connections w !! i = Some cn → cn_receiver cn = Some r → rt_channels w !! cn_sender cn = Some c →
  (∀ r', r' ≠ r → r' ∈ receivers c → r' ∈ receivers c' ∧ unread c' r' = unread c r') →
  quiet_for_others i w (w <| rt_channels := <[cn_sender cn := c']> (rt_channels w) |>).
Proof.
  intros HI Hi Hr Hc Hkeep. split; [by split|done| |].
  - intros ch. cbn. destruct (decide (ch = cn_sender cn)) as [->|].
    + rewrite lookup_insert_eq, Hc. by split; eexists.
    + by rewrite lookup_insert_ne.
  - intros j cnj Hne Hj. destruct (co_room _ _ (iv_conns _ _ HI j cnj Hj)) as [Hm _].
    destruct (decide (cn_sender cnj = cn_sender cn)) as [He|He].
    2:{ split; [unfold window; cbn; by rewrite lookup_insert_ne by done|].
        intros r' c0 Hr' Hc0 Hin. cbn. rewrite lookup_insert_ne by done. by exists c0. }
    assert (∀ r', cn_receiver cnj = Some r' → r' ∈ receivers c ∧ r' ≠ r) as Hother.
    { intros r' Hr'. destruct (Hm r' Hr') as (_ & c0 & Hc0 & Hin). rewrite He, Hc in Hc0. injection Hc0 as <-.
      split; [done|]. intros ->. by apply (iv_receivers _ _ HI j i cnj cn r Hne Hj Hi He Hr'). }
    split.
    + unfold window. cbn. rewrite He, lookup_insert_eq, Hc. destruct (cn_receiver cnj) as [r'|]; [|done].
      destruct (Hother r' eq_refl) as [Hin Hne']. by apply Hkeep.
    + intros r' c0 Hr' _ _. cbn. rewrite He, lookup_insert_eq. exists c'. split; [done|].
      destruct (Hother r' Hr') as [Hin Hne']. by apply Hkeep.
Qed.

Lemma drop_receiver_quiet i cn w :
  Inv w → rt_connections w !! i = Some cn →
  quiet_for_others i w (match cn_receiver cn with Some r => drop_receiver (cn_sender cn) r w | None => w end).
Proof.
  intros HI Hi. destruct (cn_receiver cn) as [r|] eqn:Hr; [|apply quiet_for_others_refl].
  destruct (co_room _ _ (iv_conns _ _ HI i cn Hi)) as [Hm _]. destruct (Hm r Hr) as (_ & c & Hc & Hin).
  unfold drop_receiver.
  assert (alter (channel_drop r) (cn_sender cn) (rt_channels w)
          = <[cn_sender cn := channel_drop r c]> (rt_channels w)) as ->.
  { apply map_eq. intros ch. destruct (decide (ch = cn_sender cn)) as [->|].
    - by rewrite lookup_alter_eq, Hc, lookup_insert_eq.
    - by rewrite lookup_alter_ne, lookup_insert_ne by done. }
  eapply quiet_channel; [done|done|done|done|]. intros r' Hne Hr'.
  destruct (channel_drop_law c r) as [Hrs Hu]. rewrite Hrs. split; [set_solver|auto].
Qed.

(** ** The end of a receiver *)

(** A connection that lets its receiver go, whatever happens to its channel. *)
Lemma inv_detach i cn cn' w w' :
  Inv w → rt_connections w !! i = Some cn → quiet_for_others i w w' →
  cn_auth cn' = cn_auth cn → cn_sender cn' = cn_sender cn → cn_receiver cn' = None →
  cn_bootstrapped cn' = cn_bootstrapped cn →
  (keyed (cn_phase cn') = true → keyed (cn_phase cn) = true) →
  (published (cn_phase cn') = published (cn_phase cn)) →
  ¬ following cn' → phase_ok w cn' → Inv (set_connection i cn' w').
Proof.
  intros HI Hi [Hsc Hcs Hdom Hviews] Ea Es Er Eb Hsub Hpub Hf Hph.
  pose proof (iv_conns _ _ HI i cn Hi) as Hok. pose proof Hsc as [Edb Erm En Ean Eac Eo Eret Ed].
  apply (inv_put update_retention i cn' w w'); [done..| | | |].
  - split.
    + destruct (co_room _ _ Hok) as [_ Hk]. split; [by rewrite Er|]. rewrite Es, En, Erm, Ea. auto.
    + destruct Hph as [? ? ? ? ? ? ? ? ? Hh ? ?]. split; try done.
      apply (holds_mono w); [by intros; rewrite Eac|done].
    + intros kind _ _ [r Hr]. by rewrite Er in Hr.
    + intros c b. rewrite Ea, Eb, Eac, Eret. unfold stream_ready. rewrite Edb. apply (co_booted _ _ Hok).
    + intros p Hp. unfold window in Hp. rewrite Er in Hp. by apply elem_of_nil in Hp.
    + by intros c b _ _ _ ?.
  - intros j cnj r _ _ _ _. by rewrite Er.
  - intros j cnj k b Hj Hp Ha Hk Hb Hle. rewrite Ea in Hk. rewrite Es. rewrite Hpub in Hp.
    destruct Hj as [Hj| ->]; [by apply (iv_publishers _ _ HI i j cn cnj k b)|].
    destruct Ha as [r Ha]. by rewrite Er in Ha.
  - intros j cnj k b _ _ _ [r Ha]. by rewrite Er in Ha.
Qed.

(** The forwarder of [cn] ends; [cn0] is the connection with what it still did. *)
Definition stopped (cn : Connection) : Connection := cn <| cn_forwarder := Stopped |> <| cn_receiver := None |>.

Lemma inv_stop i cn cn0 w w' :
  Inv w → rt_connections w !! i = Some cn → quiet_for_others i w w' →
  cn_auth cn0 = cn_auth cn → cn_sender cn0 = cn_sender cn → cn_bootstrapped cn0 = cn_bootstrapped cn →
  keyed (cn_phase cn) = true → published (cn_phase cn0) = published (cn_phase cn) →
  sending (cn_phase cn0) = false → phase_ok w (stopped cn0) → Inv (set_connection i (stopped cn0) w').
Proof.
  intros HI Hi Hq Ea Es Eb Hsub Hpub Hse Hph. apply (inv_detach i cn (stopped cn0) w w'); try done.
  unfold following. cbn. rewrite Hse. by intros [?|?].
Qed.

(** The forwarder's world when it ends: the channel as it left it, without its
    receiver. *)
Lemma quiet_received i cn r c c' x w :
  Inv w → rt_connections w !! i = Some cn → cn_receiver cn = Some r → rt_channels w !! cn_sender cn = Some c →
  channel_recv r c = Some (x, c') →
  quiet_for_others i w (w <| rt_channels := <[cn_sender cn := c']> (rt_channels w) |>)
  ∧ quiet_for_others i w (drop_receiver (cn_sender cn) r
      (w <| rt_channels := <[cn_sender cn := c']> (rt_channels w) |>)).
Proof.
  intros HI Hi Hr Hc Hx. destruct (co_room _ _ (iv_conns _ _ HI i cn Hi)) as [Hm _].
  destruct (Hm r Hr) as (_ & c0 & Hc0 & Hin). rewrite Hc in Hc0. injection Hc0 as <-.
  destruct (channel_recv_law _ _ _ _ Hin Hx) as (Hrs & Hu & _). split.
  - eapply quiet_channel; [done|done|done|done|]. intros r' Hne Hr'. rewrite Hrs. auto.
  - unfold drop_receiver. cbn.
    change (quiet_for_others i w (w <| rt_channels := alter (channel_drop r) (cn_sender cn)
                                        (<[cn_sender cn := c']> (rt_channels w)) |>)).
    assert (alter (channel_drop r) (cn_sender cn) (<[cn_sender cn := c']> (rt_channels w))
            = <[cn_sender cn := channel_drop r c']> (rt_channels w)) as ->.
    { apply map_eq. intros ch. destruct (decide (ch = cn_sender cn)) as [->|].
      - by rewrite lookup_alter_eq, !lookup_insert_eq.
      - by rewrite lookup_alter_ne, !lookup_insert_ne by done. }
    eapply quiet_channel; [done|done|done|done|]. intros r' Hne Hr'.
    destruct (channel_drop_law c' r) as [Hds Hdu]. rewrite Hds, Hrs. split; [set_solver|].
    rewrite Hdu by (rewrite ?Hrs; done). auto.
Qed.

(** ** Frames *)

Lemma plain_snoc frames f : plain_frames frames → closing_frame f = false → plain_frames (frames ++ [f]).
Proof. intros Hp Hf. apply Forall_app. split; [done|]. by repeat constructor. Qed.
Lemma well_ended_plain frames : plain_frames frames → well_ended frames.
Proof. by left. Qed.
Lemma well_ended_snoc frames f : plain_frames frames → well_ended (frames ++ [f]).
Proof. intros Hp. right. exists frames, f. split; [done|by left]. Qed.
Lemma well_ended_closing x e recipient cn :
  plain_frames (cn_frames cn) → well_ended (cn_frames (push_closing x e recipient cn)).
Proof.
  intros Hp. unfold push_closing. destruct (in_sent x); simpl; [|by apply well_ended_plain].
  destruct (in_closed x); cbn; [|by apply well_ended_snoc]. right. exists (cn_frames cn), (event_frame e recipient).
  split; [done|]. right. exists (room_event_to_protocol e recipient), None. by rewrite <-(assoc_L (++)).
Qed.
Lemma plain_middle before f after : plain_frames (before ++ f :: after) → closing_frame f = false.
Proof. intros [_ [Hf _]%Forall_cons]%Forall_app. done. Qed.
Lemma plain_before before f after b last tail :
  before ++ f :: after = b ++ last :: tail → plain_frames b → closing_frame f = true →
  (before = b ∧ f = last ∧ after = tail) ∨ ∃ before', tail = before' ++ f :: after ∧ before = b ++ last :: before'.
Proof.
  intros Heq Hp Hf. apply app_eq_inv in Heq as [(l & -> & Hl)|(l & Hb & Hl)].
  - destruct l as [|x l]; simplify_eq/=.
    + left. by rewrite (right_id_L [] (++)).
    + right. by exists l.
  - destruct l as [|x l]; simplify_eq/=.
    + left. by rewrite (right_id_L [] (++)).
    + apply plain_middle in Hp. congruence.
Qed.
Lemma well_ended_split before f after :
  well_ended (before ++ f :: after) → closing_frame f = true →
  match f with
  | TextFrame _ => plain_frames before ∧ (after = [] ∨ ∃ reason, after = [CloseFrame reason])
  | CloseFrame _ => after = []
  end.
Proof.
  intros [Hp|(b & last & Hp & [Heq|(e & reason & -> & Heq)])] Hf.
  - apply plain_middle in Hp. congruence.
  - destruct (plain_before _ _ _ _ _ _ Heq Hp Hf) as [(-> & -> & ->)|(b' & Hb & _)]; [|by destruct b'].
    destruct last; auto.
  - destruct (plain_before _ _ _ _ _ _ Heq Hp Hf) as [(-> & -> & ->)|(b' & Hb & _)]; [eauto|].
    destruct b' as [|? [|??]]; simplify_eq/=. done.
Qed.

Lemma forwarding_active cn w : phase_ok w cn → cn_forwarder cn = Forwarding → active cn = true.
Proof.
  intros Hph Hf. unfold active. rewrite Hf. simpl.
  destruct (cn_phase cn) eqn:Hp; try done; exfalso.
  - pose proof (po_opening _ _ Hph) as Ho. rewrite Hp in Ho. destruct (Ho eq_refl). congruence.
  - pose proof (po_ending _ _ Hph) as Ho. rewrite Hp in Ho. by destruct (Ho eq_refl).
  - pose proof (po_ending _ _ Hph) as Ho. rewrite Hp in Ho. by destruct (Ho eq_refl).
Qed.
Lemma forwarding_plain cn w :
  phase_ok w cn → cn_forwarder cn = Forwarding → plain_frames (cn_frames cn).
Proof. intros Hph Hf. apply (po_frames _ _ Hph). by eapply forwarding_active. Qed.
Lemma forwarding_phase cn w :
  phase_ok w cn → cn_forwarder cn = Forwarding →
  subscribed (cn_phase cn) = true ∧ opening (cn_phase cn) = false ∧ sending (cn_phase cn) = false
  ∧ pending (cn_phase cn) = [] ∧ keyed (cn_phase cn) = true ∧ silent (cn_phase cn) = false.
Proof.
  intros Hph Hf. destruct (subscribed (cn_phase cn)) eqn:Hs.
  2:{ destruct (po_unsubscribed _ _ Hph Hs). congruence. }
  destruct (opening (cn_phase cn)) eqn:Ho; [destruct (po_opening _ _ Hph Ho); congruence|].
  pose proof (po_ending _ _ Hph) as He. destruct (cn_phase cn) as [| |? []| | | | | | | | | | | | | | |];
    try done; by destruct (He eq_refl).
Qed.

Lemma forwarding_looping cn w : phase_ok w cn → cn_forwarder cn = Forwarding → looping (cn_phase cn) = true.
Proof.
  intros Hph Hf. destruct (forwarding_phase _ _ Hph Hf) as (Hs & Ho & _). pose proof (po_ending _ _ Hph) as He.
  destruct (cn_phase cn) as [| |? []| | | | | | | | | | | | | | |]; try done; by destruct (He eq_refl).
Qed.

Lemma stopped_ok w cn cn0 :
  phase_ok w cn → subscribed (cn_phase cn0) = true → opening (cn_phase cn0) = false →
  cn_auth cn0 = cn_auth cn → cn_bootstrapped cn0 = cn_bootstrapped cn →
  (looping (cn_phase cn0) = true → looping (cn_phase cn) = true) →
  (∀ e, CommandEvent e ∈ cn_outbox cn0 → CommandEvent e ∈ cn_outbox cn) →
  holds w cn0 → well_ended (cn_frames cn0) → phase_ok w (stopped cn0).
Proof.
  intros Hph Hs Ho Ea Eb Hl Hout Hh Hw.
  assert (sending (cn_phase cn0) = false ∧ pending (cn_phase cn0) = [] ∧ silent (cn_phase cn0) = false)
    as (Hse & Hpe & Hsi) by by destruct (cn_phase cn0) as [| |? []| | | | | | | | | | | | | | |].
  split; cbn; rewrite ?Hs, ?Ho, ?Hse, ?Hpe, ?Hsi; try done.
  - unfold is_document. cbn. rewrite Ea, Eb, orb_false_r. intros Hd Hl0.
    apply (po_booted _ _ Hph Hd). by rewrite Hl.
  - intros e He. by apply (po_outbox _ _ Hph), Hout.
  - intros e He. by apply elem_of_nil in He.
Qed.

(** ** The forwarder *)

Lemma forward_event_inv x i cn cn1 e w w1 :
  Inv w → rt_connections w !! i = Some cn → cn_forwarder cn = Forwarding →
  quiet_for_others i w (match cn_receiver cn with Some r => drop_receiver (cn_sender cn) r w1 | None => w1 end) →
  cn_auth cn1 = cn_auth cn → cn_sender cn1 = cn_sender cn → cn_receiver cn1 = cn_receiver cn →
  cn_phase cn1 = cn_phase cn → cn_bootstrapped cn1 = cn_bootstrapped cn → cn_frames cn1 = cn_frames cn →
  (∀ e, CommandEvent e ∈ cn_outbox cn1 → CommandEvent e ∈ cn_outbox cn) →
  (closes_stream e = false → Inv (set_connection i (push_frame (event_frame e (recipient cn1)) cn1) w1)) →
  Inv (forward_event x i cn1 e w1).
Proof.
  intros HI Hi Hf Hq Ea Es Er Ep Eb Efr Hout Hgo. pose proof (co_phase _ _ (iv_conns _ _ HI i cn Hi)) as Hph.
  destruct (forwarding_phase _ _ Hph Hf) as (Hsub & Hop & Hse & Hpe & Hky & Hnsi).
  assert (∀ cn0, cn_auth cn0 = cn_auth cn1 → cn_sender cn0 = cn_sender cn1 → cn_receiver cn0 = cn_receiver cn1 →
    cn_phase cn0 = cn_phase cn1 → cn_bootstrapped cn0 = cn_bootstrapped cn1 → cn_outbox cn0 = cn_outbox cn1 →
    well_ended (cn_frames cn0) → Inv (stop_forwarder i cn0 w1)) as Hstop.
  { intros cn0 Ea0 Es0 Er0 Ep0 Eb0 Eo0 Hw. unfold stop_forwarder. rewrite Er0, Es0, Er, Es.
    apply (inv_stop i cn cn0 w); try done; try congruence.
    apply (stopped_ok w cn); rewrite ?Ep0, ?Ep, ?Eo0; try done; try congruence.
    - pose proof (po_holds _ _ Hph) as Hh. unfold holds in *. rewrite Ep0, Ep. unfold published_ok in *.
      by rewrite Ea0, Ea. }
  unfold forward_event. destruct (in_sent x) eqn:Hsent; simpl.
  2:{ apply Hstop; try done. rewrite Efr. apply (po_frames _ _ Hph). }
  destruct (closes_stream e) eqn:Hc; [|by apply Hgo].
  assert (plain_frames (cn_frames cn1)) as Hpl by (rewrite Efr; by eapply forwarding_plain).
  apply Hstop; try (unfold push_closing; by destruct (in_sent x), (in_closed x)).
  by apply well_ended_closing.
Qed.

Lemma omap_event_frame e recipient :
  omap frame_payload [event_frame e recipient] = option_list (event_payload e).
Proof. destruct e as [? [] ? ? ?]; unfold event_payload; cbn; by destruct (carried _ _). Qed.

(** A relayed event moves from the channel to the socket. *)
Lemma inv_receive i cn r c c' e w :
  Inv w → rt_connections w !! i = Some cn → cn_forwarder cn = Forwarding → cn_receiver cn = Some r →
  rt_channels w !! cn_sender cn = Some c → channel_recv r c = Some (Delivered e, c') → closes_stream e = false →
  Inv (set_connection i (push_frame (event_frame e (recipient cn)) cn)
         (w <| rt_channels := <[cn_sender cn := c']> (rt_channels w) |>)).
Proof.
  intros HI Hi Hf Hr Hc Hx Hcl. destruct (quiet_received i cn r c c' _ w HI Hi Hr Hc Hx) as [[Hsc Hcs Hdom Hviews] _].
  pose proof (iv_conns _ _ HI i cn Hi) as Hok. destruct Hok as [Hroom Hph Htold Hboot Hwin Hsync].
  destruct (cr_mapped _ _ Hroom r Hr) as (Hmap & c0 & Hc0 & Hin). rewrite Hc in Hc0. injection Hc0 as <-.
  destruct (channel_recv_law _ _ _ _ Hin Hx) as (Hrs & _ & He). specialize (He e eq_refl).
  destruct (forwarding_phase _ _ Hph Hf) as (Hsub & Hop & Hse & Hpe & Hky & Hnsi).
  set (w1 := w <| rt_channels := _ |>) in *. set (cn' := push_frame _ cn).
  assert (window w cn = e :: window w1 cn') as Ew.
  { unfold window, w1, cn'. cbn. rewrite Hr, Hc, lookup_insert_eq. done. }
  apply (inv_put update_retention i cn' w w1); [done..| | | |].
  - split.
    + split; [|apply Hroom]. intros r' Hr'. cbn in Hr'. rewrite Hr in Hr'. injection Hr' as <-.
      split; [done|]. exists c'. cbn. rewrite lookup_insert_eq. split; [done|]. by rewrite Hrs.
    + destruct Hph as [? ? ? ? ? ? ? ? ? Hh Hsi [Hw Hpl]]. split; try done;
        [by change (cn_phase cn') with (cn_phase cn); rewrite Hnsi|].
      assert (plain_frames (cn_frames cn')) as Hpl'; [|split; [by apply well_ended_plain|done]].
      apply plain_snoc; [|by rewrite event_frame_closing]. apply Hpl. by eapply forwarding_active.
    + intros kind Hk Hck Ha. destruct (Htold kind Hk Hck Ha) as [Hst Hcp].
      assert (informed kind (window w cn) → informed kind (window w1 cn')) as Hinf.
      { intros (e0 & Hin0 & He0). rewrite Ew in Hin0. apply elem_of_cons in Hin0 as [->|?]; [|by exists e0].
        exfalso. unfold closes_stream, closes_stream_kind in Hcl. apply orb_false_iff in Hcl as [Hcl _].
        apply bool_decide_eq_false in Hcl. apply Hcl. rewrite He0. destruct Hk; auto. }
      split.
      * intros a an e0 Ha0 Hk0 Hq0 He0 Hlt. destruct (Hst a an e0 Ha0 Hk0 Hq0 He0 Hlt); auto.
      * intros e0 Hin0 Hlt. apply Hinf. by apply (Hcp e0).
    + done.
    + intros p Hp. apply Hwin. rewrite Ew. simpl. destruct (event_payload e); [by right|done].
    + intros c0 b Hc0 Hb Hret _. destruct (Hsync c0 b Hc0 Hb Hret (or_introl Hf)) as (m & rest & [Hfr Hd Hcomp Hbase Hsn]).
      rewrite Hpe in Hfr. change (omap event_payload []) with (@nil bytes) in Hfr. rewrite (right_id_L [] (++)) in Hfr.
      exists m, (rest ++ option_list (event_payload e)). split.
      * change (cn_frames cn') with (cn_frames cn ++ [event_frame e (recipient cn)]).
        change (cn_phase cn') with (cn_phase cn). rewrite Hpe. change (omap event_payload []) with (@nil bytes).
        rewrite (right_id_L [] (++)), omap_app, Hfr. simpl app. do 2 f_equal.
        apply omap_event_frame.
      * done.
      * intros k a Hk Ha Hst. destruct (Hcomp k a Hk Ha Hst) as [?|Hin0]; [by left|right].
        rewrite Ew in Hin0. rewrite <-(assoc_L (++)). simpl in Hin0. by destruct (event_payload e).
      * done.
      * intros p [Hp|Hp]%elem_of_app; [by apply Hsn|]. apply Hwin. rewrite Ew. simpl.
        destruct (event_payload e); [|by apply elem_of_nil in Hp]. apply list_elem_of_singleton in Hp as ->. left.
  - intros j cnj r' Hne Hj Hs Hr'. apply (iv_receivers _ _ HI j i cnj cn r' Hne Hj Hi Hs Hr').
  - intros j cnj k b Hj Hp Ha Hk Hb Hle. destruct Hj as [Hj| ->]; [by apply (iv_publishers _ _ HI i j cn cnj k b)|done].
  - intros j cnj k b Hne Hj Hp Ha Hk Hb Hle. by apply (iv_publishers _ _ HI j i cnj cn k b).
Qed.

(** The forwarder ends after what it still sent. *)
Lemma forwarder_stops i cn cn0 w w1 :
  Inv w → rt_connections w !! i = Some cn → cn_forwarder cn = Forwarding →
  quiet_for_others i w (match cn_receiver cn with Some r => drop_receiver (cn_sender cn) r w1 | None => w1 end) →
  cn_auth cn0 = cn_auth cn → cn_sender cn0 = cn_sender cn → cn_receiver cn0 = cn_receiver cn →
  cn_phase cn0 = cn_phase cn → cn_bootstrapped cn0 = cn_bootstrapped cn →
  (∀ e, CommandEvent e ∈ cn_outbox cn0 → CommandEvent e ∈ cn_outbox cn) →
  well_ended (cn_frames cn0) → Inv (stop_forwarder i cn0 w1).
Proof.
  intros HI Hi Hf Hq Ea Es Er Ep Eb Hout Hw. pose proof (co_phase _ _ (iv_conns _ _ HI i cn Hi)) as Hph.
  destruct (forwarding_phase _ _ Hph Hf) as (Hsub & Hop & Hse & Hpe & Hky & Hnsi).
  unfold stop_forwarder. rewrite Er, Es. apply (inv_stop i cn cn0 w); try done; try congruence.
  apply (stopped_ok w cn); rewrite ?Ep; try done.
  pose proof (po_holds _ _ Hph) as Hh. unfold holds, published_ok in *. by rewrite Ep, Ea.
Qed.

Lemma forward_step_inv x i cn w w' :
  Inv w → rt_connections w !! i = Some cn → forward_step x i cn w = Some w' → Inv w'.
Proof.
  intros HI Hi Hs. unfold forward_step in Hs. case_bool_decide as Hf; [|done]. simpl in Hs.
  pose proof (iv_conns _ _ HI i cn Hi) as [Hroom Hph Htold Hboot Hwin Hsync].
  destruct (forwarding_phase _ _ Hph Hf) as (Hsub & Hop & Hse & Hpe & Hky & Hnsi).
  pose proof (forwarding_plain _ _ Hph Hf) as Hplain.
  destruct (in_outbox_first x).
  - destruct (cn_outbox cn) as [|command outbox] eqn:Ho; [done|].
    set (cn1 := cn <| cn_outbox := outbox |>) in *.
    assert (∀ e, CommandEvent e ∈ cn_outbox cn1 → CommandEvent e ∈ cn_outbox cn) as Hsub1.
    { intros e He. rewrite Ho. by right. }
    destruct command as [e|]; injection Hs as <-.
    + apply (forward_event_inv x i cn cn1 e w w); try done; [by apply drop_receiver_quiet|]. intros Hcl.
      assert (event_payload e = None) as Hnone by (apply (po_outbox _ _ Hph); rewrite Ho; left).
      set (cn' := push_frame _ cn1). apply (inv_local update_retention i cn cn'); try done.
      * destruct Hph as [? ? ? ? ? ? ? Hob ? Hh Hsi [Hw Hpl]]. split; try done;
          [by intros e' He; apply Hob, Hsub1|by change (cn_phase cn') with (cn_phase cn); rewrite Hnsi|].
        assert (plain_frames (cn_frames cn')) as Hpl'; [|split; [by apply well_ended_plain|done]].
        apply plain_snoc; [done|by rewrite event_frame_closing].
      * by eapply told_phase.
      * eapply synced_phase; [exact Hsync|done..|].
        change (cn_frames cn') with (cn_frames cn ++ [event_frame e (recipient cn)]).
        rewrite omap_app, omap_event_frame, Hnone. simpl option_list. by rewrite (right_id_L [] (++)).
      * by left.
    + apply (forwarder_stops i cn _ w w); try done; try (by destruct (in_sent x)); [by apply drop_receiver_quiet|].
      destruct (in_sent x); [by apply well_ended_snoc|by apply well_ended_plain].
  - destruct (cn_receiver cn) as [r|] eqn:Hr; [|done]. simpl in Hs.
    destruct (rt_channels w !! cn_sender cn) as [c|] eqn:Hc; [|done]. simpl in Hs.
    destruct (channel_recv r c) as [[received c']|] eqn:Hx; [|done]. simpl in Hs. injection Hs as <-.
    destruct (quiet_received i cn r c c' _ w HI Hi Hr Hc Hx) as [_ Hq]. destruct received as [e|skipped].
    + apply (forward_event_inv x i cn cn e w); try done; [by rewrite Hr|].
      intros Hcl. by apply (inv_receive i cn r c c' e w).
    + apply (forwarder_stops i cn _ w); try done; [by rewrite Hr|..]; try (unfold push_closing; by destruct (in_sent x), (in_closed x)).
      by apply well_ended_closing.
Qed.

(** ** Rooms, requests, connections *)

Lemma remove_idle_room_inv key ch w : Inv w → Inv (remove_idle_room key ch w).
Proof.
  intros HI. unfold remove_idle_room. case_bool_decide as Hk; [|done]. simpl.
  destruct (has_no_receiver ch w) eqn:Hn; [|done].
  apply (inv_channels_rooms update_retention (delete key (rt_rooms w)) (rt_channels w) (rt_next_channel w) w HI).
  - lia.
  - intros k ch' [_ Hk']%lookup_delete_Some. by apply (iv_rooms _ _ HI k).
  - intros k k' ch' [_ H1]%lookup_delete_Some [_ H2]%lookup_delete_Some. by apply (iv_distinct _ _ HI k k' ch').
  - apply HI.
  - intros j cn Hj [r Hr]. rewrite lookup_delete_ne; [done|]. intros ->.
    destruct (co_room _ _ (iv_conns _ _ HI j cn Hj)) as [Hm _]. destruct (Hm r Hr) as (Hmap & c & Hc & Hin).
    rewrite Hk in Hmap. injection Hmap as ->. unfold has_no_receiver in Hn. rewrite Hc in Hn.
    apply Nat.eqb_eq in Hn. rewrite receiver_count_law in Hn. apply size_empty_inv in Hn. set_solver.
  - intros k ch' [_ Hk']%lookup_delete_Some. by left.
  - intros. by split; eauto.
Qed.

(** What does not matter: requests, draining, the count of connections. *)
Lemma inv_irrelevant requests draining count w :
  Inv w → Inv (w <| rt_requests := requests |> <| rt_draining := draining |> <| rt_active := count |>).
Proof.
  intros [? ? ? ? ? ? ? ? Hconns ? ?]. split; try done. intros i cn Hi.
  destruct (Hconns i cn Hi) as [[] [] Ht ? ? Hs]. split; try done.
  - intros kind Hk Hc Ha. by destruct (Ht kind Hk Hc Ha).
  - intros c b Hc Hb Hret Hf. destruct (Hs c b Hc Hb Hret Hf) as (m & rest & []). by exists m, rest.
Qed.
End steps.

(** * Realtime: the handlers and the system

    Each phase of a socket handler keeps the invariant, and so does every step
    of the system. *)
Section phases.
Context {Y : Yrs} {YL : YrsLaws} {YC : YrsConvergence} {T : Texts} {TL : TextLaws}
  {B : Broadcast} {BL : BroadcastLaws}.
Context (env : Environment) (header_value_ok : text → bool) (update_retention : Z).
Abbreviation Inv := (Inv update_retention).
Abbreviation attached cn := (is_Some (cn_receiver cn)).

(** ** Shared steps *)

Lemma authorize_inv x headers project need w r w1 :
  Inv w → authorize_on env x headers project need w = (r, w1) →
  Inv w1 ∧ rt_connections w1 = rt_connections w ∧ rt_accepted w1 = rt_accepted w.
Proof.
  intros HI. unfold authorize_on. destruct (run_pool _ _) as [r0 a] eqn:Hrun. intros [= <- <-].
  split; [|done]. apply inv_set_db; [done|]. eapply authorized_evolves; [apply HI|exact Hrun].
Qed.

Lemma workspace_changed_inv now project change w :
  Inv w → Inv (workspace_changed now project change w)
  ∧ rt_connections (workspace_changed now project change w) = rt_connections w.
Proof.
  intros HI. unfold workspace_changed. destruct (rt_rooms w !! _) as [ch|]; [|done]. split; [|done].
  by apply (inv_send update_retention ch _ None).
Qed.

(** A connection that is over. *)
Lemma inv_over i cn cn' w :
  Inv w → rt_connections w !! i = Some cn →
  cn_auth cn' = cn_auth cn → cn_sender cn' = cn_sender cn → cn_receiver cn = None → cn_receiver cn' = None →
  cn_forwarder cn ≠ Forwarding → cn_forwarder cn' = cn_forwarder cn → cn_outbox cn' = cn_outbox cn →
  cn_bootstrapped cn' = cn_bootstrapped cn → ending (cn_phase cn') = true →
  (keyed (cn_phase cn') = true → keyed (cn_phase cn) = true) → well_ended (cn_frames cn') →
  Inv (set_connection i cn' w).
Proof.
  intros HI Hi Ea Es Er0 Er Hf Ef Eo Eb Hen Hk Hw.
  pose proof (co_phase _ _ (iv_conns _ _ HI i cn Hi)) as Hph.
  assert (subscribed (cn_phase cn') = true ∧ opening (cn_phase cn') = false ∧ looping (cn_phase cn') = false
    ∧ sending (cn_phase cn') = false ∧ pending (cn_phase cn') = [] ∧ silent (cn_phase cn') = false
    ∧ published (cn_phase cn') = None) as (P1 & P2 & P3 & P4 & P5 & P6 & P7) by by destruct (cn_phase cn').
  apply (inv_local update_retention i cn); try done; try congruence.
  - split; rewrite ?P1, ?P2, ?P3, ?P4, ?P5, ?P6, ?Er, ?Ef, ?Eo; try done.
    + apply Hph.
    + intros e He. by apply elem_of_nil in He.
    + unfold holds. by destruct (cn_phase cn').
    + split; [done|]. unfold active. destruct (cn_phase cn'); try done; by rewrite andb_false_r.
  - intros kind _ _ [r Hr]. congruence.
  - intros c b _ _ _ [Hfo|Hse]; congruence.
Qed.

Lemma end_connection_inv i cn cn0 w :
  Inv w → rt_connections w !! i = Some cn →
  cn_auth cn0 = cn_auth cn → cn_sender cn0 = cn_sender cn → cn_receiver cn = None → cn_receiver cn0 = None →
  cn_forwarder cn ≠ Forwarding → cn_forwarder cn0 = cn_forwarder cn → cn_outbox cn0 = cn_outbox cn →
  cn_bootstrapped cn0 = cn_bootstrapped cn → well_ended (cn_frames cn0) → Inv (end_connection i cn0 w).
Proof.
  intros. unfold end_connection, untrack.
  apply (inv_irrelevant update_retention (rt_requests w) (rt_draining w) _ (set_connection i (goto Ended cn0) w)).
  by apply (inv_over i cn).
Qed.

(** ** Subscribing *)

Lemma inv_attach i cn w w' ch r :
  Inv w → rt_connections w !! i = Some cn → subscribed (cn_phase cn) = false →
  subscribed_at update_retention w w' (room_key (cn_auth cn)) ch r →
  Inv (set_connection i (goto (Revalidating RevalidateAccess false)
         (cn <| cn_sender := ch |> <| cn_receiver := Some r |>)) w').
Proof.
  intros HI Hi Hsub (HI' & Hcs & Hac & Hroom & (c & Hc & Hin & Hu) & Hfresh).
  pose proof (iv_conns _ _ HI i cn Hi) as [_ Hph _ Hboot _ _].
  destruct (po_unsubscribed _ _ Hph Hsub) as (Hf & Hr & Hb).
  set (cn' := goto _ _). assert (window w' cn' = []) as Ew by (unfold window; cbn; by rewrite Hc).
  apply (inv_put update_retention i cn' w' w'); [done|by split|done|done|by intros; apply same_view_refl|..].
  - split.
    + split; cbn.
      * intros r' [= <-]. split; [done|]. by exists c.
      * intros _. split; [by apply (iv_rooms _ _ HI' (room_key (cn_auth cn)))|].
        intros k Hk. by apply (iv_distinct _ _ HI' k _ ch).
    + destruct Hph as [? ? ? ? ? ? ? ? ? ? Hsi [? Hpl]]. split; cbn; rewrite ?Hf; try done.
      * intros e He. by apply elem_of_nil in He.
      * intros _. apply Hsi. by destruct (cn_phase cn).
      * split; [done|]. intros _. apply Hpl. unfold active. rewrite Hf. by destruct (cn_phase cn).
    + intros kind [->| ->] Hck _; done.
    + intros c0 b _ Hb'. cbn in Hb'. congruence.
    + intros p Hp. rewrite Ew in Hp. by apply elem_of_nil in Hp.
    + intros c0 b _ Hb'. cbn in Hb'. congruence.
  - intros j cnj r' Hne Hj Hs Hr' Heq. cbn in Hs, Heq. injection Heq as <-. rewrite Hcs in Hj.
    by apply (Hfresh j cnj r).
  - done.
  - intros j cnj k b _ _ _ _ _ Hb'. cbn in Hb'. congruence.
Qed.

(** ** Revalidation *)

(** The epoch a broadcast would announce is the one the connection was
    admitted under: nothing newer has been announced. *)
Lemma told_fresh w cn kind :
  Inv w → epoch_of kind (wa_project_id (cn_auth cn)) (rt_db w) = Some (auth_epoch kind (cn_auth cn)) → told w cn kind.
Proof.
  intros HI He. split.
  - intros a an e Ha Hk Hq Hane Hlt. destruct (iv_announcements _ _ HI a an Ha) as [_ Hann].
    destruct (Hann e Hane) as (e' & He' & Hle). rewrite Hk, Hq in He'. rewrite He in He'. simplify_eq. lia.
  - intros e Hin Hlt. destruct (iv_announced _ _ HI _ _ _ Hin) as (e' & He' & Hle).
    rewrite He in He'. simplify_eq. lia.
Qed.

Lemma read_db_Ok {A} x (f : WorkspaceDB → A) (w : Realtime) a : read_db x f w = Ok a → a = f (rt_db w).
Proof.
  unfold read_db, autocommit, reads. destruct (in_schedule x 0%nat); simpl; intros; by simplify_eq.
Qed.

(** A change of phase of an opening connection, newly checked for some kinds. *)
Lemma inv_opened i cn p p' w :
  Inv w → rt_connections w !! i = Some cn → cn_phase cn = p →
  opening p = true → opening p' = true → silent p = true → sending p' = false ∨ is_document cn = false →
  pending p' = [] ∨ is_document cn = false ∧ (∀ e, e ∈ pending p' → closes_stream e = false ∧ event_payload e = None) →
  (∀ k, published p' ≠ Some k) →
  (∀ kind, kind = AccessRevised ∨ kind = ProjectReplaced → checked kind p' = true →
     checked kind p = true ∨ epoch_of kind (wa_project_id (cn_auth cn)) (rt_db w) = Some (auth_epoch kind (cn_auth cn))) →
  Inv (set_connection i (goto p' cn) w).
Proof.
  intros HI Hi Hp Ho Ho' Hsi Hse Hpe Hpub Hck. pose proof (iv_conns _ _ HI i cn Hi) as [Hroom Hph Htold Hboot Hwin Hsync].
  rewrite <-Hp in Ho, Hsi. destruct (po_opening _ _ Hph Ho) as [Hf Hat]. pose proof (po_silent _ _ Hph Hsi) as Hfr.
  assert (document_of (cn_auth cn) = None ∨ sending p' = false) as Hdoc.
  { destruct Hse as [?|Hd]; [by right|left]. unfold is_document, document_of in *. by destruct (wa_target _). }
  apply (inv_local update_retention i cn); try done; cbn.
  - intros _. by destruct (cn_phase cn).
  - assert (subscribed p' = true ∧ looping p' = false ∧ ending p' = false) as (Q1 & Q2 & Q3)
      by by destruct p' as [| |? []| | | | | | | | | | | | | | |].
    split; cbn; rewrite ?Q1, ?Q2, ?Q3; try done; try apply Hph.
    + intros Hd Hs. simpl in Hs. destruct Hse as [Hse|Hse]; [congruence|]. unfold is_document in *. cbn in Hd. congruence.
    + intros e He. destruct Hpe as [Hpe|[_ Hpe]]; [rewrite Hpe in He; by apply elem_of_nil in He|by apply Hpe].
    + unfold holds. by destruct p'.
    + split; [apply Hph|]. intros _. rewrite Hfr. constructor.
  - intros kind Hk Hc Ha. destruct (Hck kind Hk Hc) as [Hold|Hnew].
    + destruct (Htold kind Hk ltac:(by rewrite Hp) Ha). by split.
    + by apply told_fresh.
  - intros c b Hc _ _ [Hfo|Hs]; cbn in *; [congruence|]. destruct Hdoc; congruence.
  - intros k Hk. by destruct (Hpub k).
Qed.

Lemma revalidation_event_quiet now stream outcome e :
  revalidation_event now stream outcome = Some e → event_payload e = None.
Proof. by destruct outcome; intros [= <-]. Qed.

(** The end of a revalidation at any of its stages. *)
Lemma revalidated_inv now i cn stage ticking outcome w :
  Inv w → rt_connections w !! i = Some cn → cn_phase cn = Revalidating stage ticking →
  (outcome = RevalidatedCurrent → ticking = false → stage = RevalidateEpoch
    ∧ epoch_of AccessRevised (wa_project_id (cn_auth cn)) (rt_db w) = Some (auth_epoch AccessRevised (cn_auth cn))) →
  Inv (set_connection i (goto (revalidated now cn ticking outcome) cn) w).
Proof.
  intros HI Hi Hp Hcur. unfold revalidated. destruct (revalidation_event _ _ outcome) as [e|] eqn:He.
  - pose proof (revalidation_event_quiet _ _ _ _ He) as Hq. destruct ticking.
    + eapply inv_goto; [done|done|exact Hp|by destruct stage|by left| |done]. split; [by intros e' [= <-]|done].
    + eapply inv_goto; [done|done|exact Hp| |by left|done|done]. by destruct stage.
  - assert (outcome = RevalidatedCurrent) as -> by by destruct outcome. destruct ticking.
    + eapply inv_goto; [done|done|exact Hp|by destruct stage|by left|done|done].
    + destruct (Hcur eq_refl eq_refl) as [-> Hep].
      eapply (inv_opened i cn _ _ w HI Hi Hp); try done; try (by destruct (is_document cn)).
      * destruct (is_document cn) eqn:Hd; [by left|by right].
      * destruct (is_document cn) eqn:Hd; [by left|right]. split; [done|].
        by intros e ->%list_elem_of_singleton.
      * intros kind [->| ->] _; [by right|by left].
Qed.

Lemma revalidation_step_inv x i cn stage ticking w :
  Inv w → rt_connections w !! i = Some cn → cn_phase cn = Revalidating stage ticking →
  Inv (revalidation_step env x i cn stage ticking w).
Proof.
  intros HI Hi Hp. unfold revalidation_step. cbv zeta. destruct stage.
  - destruct (authorize_on _ _ _ _ _ _) as [r w1] eqn:Ha. destruct (authorize_inv _ _ _ _ _ _ _ HI Ha) as (HI1 & Hcs & _).
    rewrite <-Hcs in Hi. destruct (revalidate_principal (cn_auth cn) r) as [outcome|] eqn:Ho.
    + eapply revalidated_inv; [done|done|exact Hp|]. intros ->. unfold revalidate_principal in Ho.
      repeat case_match; simplify_eq.
    + eapply inv_goto; [done|done|exact Hp|by destruct ticking|by left|done|done].
  - destruct (revalidate_content_epoch _ _) as [outcome|] eqn:Ho.
    + eapply revalidated_inv; [done|done|exact Hp|]. intros ->. unfold revalidate_content_epoch in Ho.
      repeat case_match; simplify_eq.
    + destruct ticking; [eapply inv_goto; [done|done|exact Hp|done|by left|done|done]|].
      eapply (inv_opened i cn _ _ w HI Hi Hp); try done; try by left.
      intros kind [->| ->] Hc; [done|right]. unfold revalidate_content_epoch in Ho.
      destruct (read_db _ _ _) as [[epoch|]|] eqn:Hr; try done. apply read_db_Ok in Hr.
      destruct (Z.eqb_spec epoch (wa_content_epoch (cn_auth cn))); [|done]. subst. by simpl; rewrite <-Hr.
  - eapply revalidated_inv; [done|done|exact Hp|]. intros Ho _. split; [done|].
    unfold revalidate_access_epoch in Ho. destruct (read_db _ _ _) as [[epoch|]|] eqn:Hr; try done.
    apply read_db_Ok in Hr. destruct (Z.eqb_spec epoch (wa_access_epoch (cn_auth cn))); [|done]. subst. by simpl; rewrite <-Hr.
Qed.

(** ** Bootstrap *)

Lemma published_held w cn k : phase_ok w cn → published (cn_phase cn) = Some k → ∃ event, published_ok w cn event k.
Proof.
  intros Hph Hp. pose proof (po_holds _ _ Hph) as Hh. unfold holds in Hh.
  destruct (cn_phase cn); try done; simpl in Hp; [|destruct update; [|done]]; simplify_eq; eauto.
Qed.

Lemma bootstrap_events_payload now doc_id state m :
  bs_updates state = [] → bs_snapshot_payload state = Some (y_encode m) →
  omap event_payload (bootstrap_events now doc_id state) = [y_encode m]
  ∧ ∀ e, e ∈ bootstrap_events now doc_id state → closes_stream e = false.
Proof.
  intros Hu Hs. unfold bootstrap_events. rewrite Hu, Hs. simpl. split.
  - unfold event_payload, carried, is_yjs. cbn. by rewrite base64_round_trip.
  - intros e [->|[->|[]%elem_of_nil]%elem_of_cons]%elem_of_cons; done.
Qed.

(** The connection has read the state of its stream. *)
Lemma inv_booted i cn c m p' w :
  Inv w → rt_connections w !! i = Some cn → cn_phase cn = Bootstrapping → document_of (cn_auth cn) = Some c →
  sending p' = true → omap event_payload (pending p') = [y_encode m] →
  (∀ e, e ∈ pending p' → closes_stream e = false) → stream_ready w c → stream_doc c (rt_db w) ≡ Some m →
  Inv (set_connection i (goto p' (cn <| cn_bootstrapped := Some (length (rt_accepted w)) |>)) w).
Proof.
  intros HI Hi Hp Hc Hse Hpe Hcl Hready Hm.
  pose proof (iv_conns _ _ HI i cn Hi) as [Hroom Hph Htold Hboot Hwin Hsync].
  destruct (po_opening _ _ Hph) as [Hf Hat]; [by rewrite Hp|].
  pose proof (po_silent _ _ Hph) as Hfr. rewrite Hp in Hfr. specialize (Hfr eq_refl).
  set (cn' := goto _ _).
  assert (subscribed p' = true ∧ opening p' = true ∧ looping p' = false ∧ ending p' = false ∧ silent p' = false
    ∧ published p' = None ∧ keyed p' = true) as (P1 & P2 & P3 & P4 & P5 & P6 & P7) by by destruct p'.
  apply (inv_put update_retention i cn' w w); [done|by split|done|done|by intros; apply same_view_refl|..].
  - split.
    + destruct Hroom as [Hr Hk]. split; [done|]. intros _. apply Hk. by rewrite Hp.
    + split; cbn; rewrite ?P1, ?P2, ?P3, ?P4, ?P5; try done; try apply Hph.
      * unfold holds. cbn. by destruct p'.
      * split; [apply Hph|]. intros _. rewrite Hfr. constructor.
    + eapply told_phase; [exact Htold|done..|]. intros kind [->| ->]; by rewrite Hp.
    + intros c0 b Hc0 [= <-]. split; [done|]. intros _. cbn in Hc0. by simplify_eq.
    + intros q Hq. by apply Hwin.
    + intros c0 b Hc0 [= <-] Hret _. cbn in Hc0. simplify_eq. exists m, []. split; cbn.
      * by rewrite Hfr, Hpe.
      * unfold since. by rewrite drop_all.
      * intros k a Hk Ha. apply lookup_lt_Some in Ha. lia.
      * intros k a _ Ha <-. by apply (iv_accepted _ _ HI k a Ha).
      * intros q Hq. by apply elem_of_nil in Hq.
  - intros j cnj r Hne Hj Hs Hr Hr'. by apply (iv_receivers _ _ HI j i cnj cn r).
  - intros j cnj k b _ Hpub. cbn in Hpub. congruence.
  - intros j cnj k b _ Hj Hpub _ _ [= <-] Hle.
    destruct (published_held _ _ _ (co_phase _ _ (iv_conns _ _ HI j cnj Hj)) Hpub) as (ev & a & Ha & _).
    apply lookup_lt_Some in Ha. lia.
Qed.

Lemma bootstrap_step_inv x i cn w :
  Inv w → rt_connections w !! i = Some cn → cn_phase cn = Bootstrapping →
  Inv (bootstrap_step update_retention x i cn w).
Proof.
  intros HI Hi Hp. unfold bootstrap_step. cbv zeta. destruct (document_of (cn_auth cn)) as [c|] eqn:Hc.
  2:{ eapply inv_goto; [done|done|exact Hp|done|by left|done|done]. }
  destruct (bootstrap_transaction _ _ _ _ _) as [r db] eqn:Hb.
  assert (Inv (set_db db w)) as HI1 by (apply inv_set_db; [done|]; eapply bootstrap_evolves; [apply HI|exact Hb]).
  destruct r as [[state change]|e].
  - destruct (reachable_inv update_retention _ (iv_db _ _ HI)) as (HS & _).
    destruct (bootstrap_transaction_spec _ _ _ _ _ _ _ HS Hb) as (_ & _ & _ & Hok).
    destruct (Hok state change eq_refl) as (_ & Hl & Ho & Hu & m & Hs & Hm).
    destruct (bootstrap_events_payload (in_now x) (stream_id (cn_auth cn)) state m Hu Hs) as [Hpay Hcl].
    apply (inv_booted i cn c m _ (set_db db w)); try done; [by destruct change..|]. split_and!; [done|done|by exists m].
  - eapply inv_goto; [done|exact Hi|exact Hp|done|by left|done|done].
Qed.
End phases.
