(* ===== verification/RealtimeHandlers.v ===== *)
(** * Realtime: every step of the system keeps the invariant

    The phases of a document's editing: frames of the bootstrap, messages,
    updates, the end of a connection; then requests, and the whole system. *)
From S2P Require Import Prelude Store Text Paths AccessModel Authorization AccessSystem AccessSteps.
From S2P Require Import WorkspaceModel WorkspaceProjects Collaboration WorkspaceSystem WorkspaceFrames WorkspaceSteps.
From S2P Require Import CollaborationSteps CollaborationReconcile WorkspaceTheorems RealtimeDatabase Convergence RealtimeModel.
From S2P Require Import RealtimeRooms RealtimeSockets RealtimeInvariant RealtimeMoves RealtimePhases.

Open Scope Z_scope.

Section handlers.
Context {Y : Yrs} {YL : YrsLaws} {YC : YrsConvergence} {T : Texts} {TL : TextLaws}
  {B : Broadcast} {BL : BroadcastLaws}.
Context (env : Environment) (header_value_ok : text → bool) (update_retention : Z).
Abbreviation Inv := (Inv update_retention).
Abbreviation attached cn := (is_Some (cn_receiver cn)).

(** An event that carries no update. *)
Lemma quiet_send_inv ch event w : Inv w → event_payload event = None → Inv (send_to ch event w).
Proof. intros HI He. by apply (inv_send update_retention ch event None w). Qed.

(** ** The bootstrap on the socket *)

Lemma opening_active cn w : phase_ok w cn → opening (cn_phase cn) = true → cn_phase cn ≠ Dropping → active cn = true.
Proof.
  intros Hph Ho Hd. destruct (po_opening _ _ Hph Ho) as [Hf _]. unfold active. rewrite Hf. simpl.
  by destruct (cn_phase cn).
Qed.

Lemma bootstrap_frame_inv i cn e events recipient w :
  Inv w → rt_connections w !! i = Some cn → cn_phase cn = SendingBootstrap (e :: events) →
  Inv (set_connection i (goto (SendingBootstrap events) (push_frame (event_frame e recipient) cn)) w).
Proof.
  intros HI Hi Hp. pose proof (iv_conns _ _ HI i cn Hi) as [Hroom Hph Htold Hboot Hwin Hsync].
  assert (plain_frames (cn_frames cn ++ [event_frame e recipient])) as Hplain.
  { apply plain_snoc.
    - apply (po_frames _ _ Hph). eapply opening_active; [exact Hph|..]; by rewrite Hp.
    - rewrite event_frame_closing. apply (po_pending _ _ Hph). rewrite Hp. by left. }
  apply (inv_local update_retention i cn); try done; cbn.
  - by rewrite Hp.
  - pose proof (po_opening _ _ Hph) as Ho. pose proof (po_booted _ _ Hph) as Hb. rewrite Hp in Ho, Hb.
    split; cbn; try done; try apply Hph.
    + intros e' He. apply (po_pending _ _ Hph). rewrite Hp. by right.
    + split; [by apply well_ended_plain|done].
  - eapply told_phase; [exact Htold|done..|]. intros kind [->| ->]; by rewrite Hp.
  - eapply synced_phase; [exact Hsync|done..| |].
    + intros _. right. by rewrite Hp.
    + cbn. rewrite Hp, omap_app, omap_event_frame, <-(assoc_L (++)). f_equal. cbn.
      by destruct (event_payload e).
Qed.

Lemma spawn_forwarder_inv i cn w :
  Inv w → rt_connections w !! i = Some cn → cn_phase cn = SendingBootstrap [] →
  Inv (set_connection i (goto Selecting (cn <| cn_forwarder := Forwarding |>)) w).
Proof.
  intros HI Hi Hp. pose proof (iv_conns _ _ HI i cn Hi) as [Hroom Hph Htold Hboot Hwin Hsync].
  pose proof (po_opening _ _ Hph) as Ho. pose proof (po_booted _ _ Hph) as Hb. rewrite Hp in Ho, Hb.
  apply (inv_local update_retention i cn); try done; cbn.
  - by rewrite Hp.
  - split; cbn; try done; try apply Hph.
    + intros _. by apply Ho.
    + intros e He. by apply elem_of_nil in He.
    + split; [apply Hph|]. intros _. apply (po_frames _ _ Hph). eapply opening_active; [exact Hph|..]; by rewrite Hp.
  - eapply told_phase; [exact Htold|done..|]. intros kind [->| ->]; by rewrite Hp.
  - eapply synced_phase; [exact Hsync|done..| |].
    + intros _. right. by rewrite Hp.
    + cbn. by rewrite Hp.
Qed.

Lemma bootstrap_send_step_inv x i cn events w :
  Inv w → rt_connections w !! i = Some cn → cn_phase cn = SendingBootstrap events →
  Inv (bootstrap_send_step x i cn events w).
Proof.
  intros HI Hi Hp. unfold bootstrap_send_step. destruct events as [|e events].
  - cbv zeta. pose proof (spawn_forwarder_inv i cn w HI Hi Hp) as HI1.
    destruct (is_document cn); [|done]. by apply quiet_send_inv.
  - destruct (in_sent x); [by apply bootstrap_frame_inv|].
    eapply inv_goto; [done|done|exact Hp|done|by right|done|done].
Qed.

(** ** Messages *)

Lemma text_message_holds cn now message :
  pending (text_message cn now message) = [] ∧ compatible Selecting (text_message cn now message) = true
  ∧ published (text_message cn now message) = None
  ∧ ∀ w : Realtime, holds w (goto (text_message cn now message) cn).
Proof.
  unfold text_message. cbv zeta.
  destruct (bool_decide _ && _); [done|].
  destruct message; simpl; try done; destruct (wa_can_write (cn_auth cn)); simpl; try done;
    (destruct (base64_decode payload) as [b|] eqn:Hb; unfold yjs_payload_to_bytes; simpl; rewrite Hb; [|done]);
    (split_and!; [done|done|done|]); intros w; unfold holds; cbn; unfold carried, is_yjs; cbn;
    unfold yjs_payload_to_bytes; simpl; done.
Qed.

Lemma selecting_inv x i cn w :
  Inv w → rt_connections w !! i = Some cn → cn_phase cn = Selecting →
  Inv (set_connection i (goto (select_next x cn (rt_draining w)) cn) w).
Proof.
  intros HI Hi Hp. unfold select_next. destruct (rt_draining w).
  { eapply inv_goto; [done|done|exact Hp|done|by left|by split|done]. }
  destruct (in_next x) as [[[[message|]| | |]|]|];
    try (eapply inv_goto; [done|done|exact Hp|done|by left|done|done]).
  destruct (is_document cn); [|eapply inv_goto; [done|done|exact Hp|done|by left|done|done]].
  destruct (text_message_holds cn (in_now x) message) as (H1 & H2 & H3 & H4).
  eapply inv_goto; [done|done|exact Hp|done|by left|by apply H4|]. by rewrite H3.
Qed.

Lemma authorizing_inv x i cn incoming kind request_id payload w r w1 :
  Inv w → rt_connections w !! i = Some cn → cn_phase cn = AuthorizingUpdate incoming kind request_id payload →
  authorize_on env x (wa_auth_headers (cn_auth cn)) (wa_project_id (cn_auth cn)) Write w = (r, w1) →
  Inv (set_connection i (goto (after_write_access (in_now x) cn incoming kind request_id payload r) cn) w1).
Proof.
  intros HI Hi Hp Ha. destruct (authorize_inv env update_retention _ _ _ _ _ _ _ HI Ha) as (HI1 & Hcs & _).
  pose proof (po_holds _ _ (co_phase _ _ (iv_conns _ _ HI i cn Hi))) as Hh. unfold holds in Hh. rewrite Hp in Hh.
  rewrite <-Hcs in Hi.
  assert (∀ kind v, is_yjs kind = false → Inv (set_connection i (goto (closing (in_now x) cn kind v) cn) w1)) as Hclose.
  { intros k v Hk. eapply inv_goto; [done|done|exact Hp|done|by left| |done].
    split; [|done]. intros e [= <-]. unfold event_payload, carried. cbn. by rewrite Hk. }
  unfold after_write_access. destruct r as [p|e].
  - destruct (validate_update payload) eqn:Hv.
    + eapply inv_goto; [done|done|exact Hp|done|by left|by split|done].
    + eapply inv_goto; [done|done|exact Hp|done|by left|done|done].
  - destruct e; by apply Hclose.
Qed.

(** ** Updates *)

Lemma record_accepted_same cn c payload db db' w :
  next_update db' = next_update db → record_accepted cn c payload db db' w = set_db db' w.
Proof. intros He. unfold record_accepted. cbv zeta. by rewrite He, Z.eqb_refl. Qed.

Lemma persist_step_inv x i cn incoming kind request_id payload w :
  Inv w → rt_connections w !! i = Some cn → cn_phase cn = PersistingUpdate incoming kind request_id payload →
  Inv (persist_step update_retention x i cn incoming kind request_id payload w).
Proof.
  intros HI Hi Hp. pose proof (iv_conns _ _ HI i cn Hi) as [Hroom Hph Htold Hboot Hwin Hsync].
  pose proof (po_holds _ _ Hph) as Hh. unfold holds in Hh. rewrite Hp in Hh. destruct Hh as [Hcar Hval].
  assert (∀ w1 kind v, is_yjs kind = false → Inv w1 → rt_connections w1 !! i = Some cn →
    Inv (set_connection i (goto (closing (in_now x) cn kind v) cn) w1)) as Hclose.
  { intros w1 k v Hk HI1 Hi1. eapply inv_goto; [done|done|exact Hp|done|by left| |done].
    split; [|done]. intros e [= <-]. unfold event_payload, carried. cbn. by rewrite Hk. }
  unfold persist_step. destruct (document_of (cn_auth cn)) as [c|] eqn:Hc; [|by apply Hclose]. cbv zeta.
  destruct (persist_update _ _ _ _ _ _ _ _ _ _) as [r db] eqn:Hrun.
  destruct (persist_stores update_retention _ _ _ _ _ _ _ _ _ _ _ (iv_db _ _ HI) Hrun)
    as [(Hn & -> & Hno)|(Hn & Hst & Hok)].
  - rewrite (record_accepted_same _ _ _ _ _ _ eq_refl).
    assert (Inv (set_db (rt_db w) w)) as HI1 by (apply inv_set_db; [done|]; apply evolves_refl, HI).
    unfold after_persist. destruct r as [[ack| | |]|e]; try (by apply (Hclose (set_db (rt_db w) w))).
    by destruct (Hno ack).
  - unfold record_accepted. cbv zeta. destruct (Z.eqb_spec (next_update db) (next_update (rt_db w))); [done|].
    assert (is_Some (cn_bootstrapped cn)) as Hbs.
    { apply (po_booted _ _ Hph); [|by rewrite Hp]. unfold is_document, document_of in *. by destruct (wa_target _). }
    pose proof (inv_stored update_retention i cn c payload w db _ HI Hi Hc Hbs Hval Hst eq_refl) as HI1.
    set (w1 := _ <| rt_owed := _ |>) in HI1 |- *. change (rt_connections w !! i) with (rt_connections w1 !! i) in Hi.
    unfold after_persist. destruct r as [o|e]; [|by apply Hclose].
    destruct (Hok o eq_refl) as [ack ->]. eapply inv_goto; [done|exact Hi|exact Hp|done|by left| |done].
    split; [by intros e [= <-]|]. exists (MkAccepted c (room_key (cn_auth cn)) payload). split_and!; [|done|done].
    unfold w1. cbn. apply list_lookup_middle. done.
Qed.

Lemma queueing_inv i cn command next cn' w :
  Inv w → rt_connections w !! i = Some cn → cn_phase cn = Queueing command next →
  queueing_step cn command next = Some cn' → Inv (set_connection i cn' w).
Proof.
  intros HI Hi Hp Hs. pose proof (iv_conns _ _ HI i cn Hi) as [Hroom Hph Htold Hboot Hwin Hsync].
  pose proof (po_holds _ _ Hph) as Hh. unfold holds in Hh. rewrite Hp in Hh. destruct Hh as [Hcmd Hnext].
  unfold queueing_step in Hs. case_bool_decide as Hf.
  { injection Hs as <-. eapply inv_goto; [done|done|exact Hp|done|by left|done|done]. }
  destruct (_ <? _)%nat; [|done]. injection Hs as <-. set (p' := match next with ThenPublish _ _ _ => _ | _ => _ end).
  assert (compatible (Queueing command next) p' = true ∧ pending p' = [] ∧ sending p' = false) as (Hcomp & Hpe & Hse).
  { unfold p'. by destruct next as [[?|] ? ?|]. }
  apply (inv_local update_retention i cn); try done; cbn.
  - by rewrite Hp.
  - pose proof (phase_ok_goto w cn _ p' Hph Hp Hcomp ltac:(by right)) as Hgo.
    assert (holds w (goto p' cn)) as Hh by (unfold holds; cbn; by destruct next as [[?|] ? ?|]).
    destruct (Hgo Hh) as [? ? ? ? ? ? ? Hout ? ? ? ?]. split; try done.
    cbn. intros e [He|He%list_elem_of_singleton]%elem_of_app; [by apply (po_outbox _ _ Hph)|by apply Hcmd].
  - eapply told_phase; [exact Htold|done..|]. rewrite Hp. by apply compatible_checked.
  - eapply synced_phase; [exact Hsync|done..| |].
    + unfold following. cbn. rewrite Hse. intros [?|?]; [by left|done].
    + cbn. by rewrite Hp, Hpe.
  - intros k _. right. pose proof (po_looping _ _ Hph) as Hl. rewrite Hp in Hl. specialize (Hl eq_refl).
    apply (po_forwarding _ _ Hph). by destruct (cn_forwarder cn).
Qed.

Lemma publishing_inv i cn event update w :
  Inv w → rt_connections w !! i = Some cn → cn_phase cn = Publishing event update →
  Inv (send_to (cn_sender cn) event (set_connection i (goto Selecting cn) (paid update w))).
Proof.
  intros HI Hi Hp. change (set_connection i (goto Selecting cn) (paid update w))
    with (paid update (set_connection i (goto Selecting cn) w)).
  pose proof (iv_conns _ _ HI i cn Hi) as [Hroom Hph Htold Hboot Hwin Hsync].
  pose proof (po_holds _ _ Hph) as Hh. unfold holds in Hh. rewrite Hp in Hh.
  apply inv_send; [eapply inv_goto; [done|done|exact Hp|done|by left|done|done]|].
  destruct update as [k|]; [|done]. destruct Hh as (a & Ha & He & Hk). exists a. split_and!; [done|done|..].
  - intros j cnj Hj0 [r Hr] Hs. cbn in Hj0. apply lookup_insert_Some in Hj0 as [[<- <-]|[Hne Hj]]; [done|].
    destruct (cr_mapped _ _ (co_room _ _ (iv_conns _ _ HI j cnj Hj)) r Hr) as [Hmap _].
    rewrite Hk. symmetry. destruct (cr_key _ _ Hroom) as [_ Hkey]; [by rewrite Hp|]. apply Hkey. by rewrite <-Hs.
  - intros j cnj b Hj0 Hat Hdoc Hb Hle. cbn in Hj0. apply lookup_insert_Some in Hj0 as [[<- <-]|[Hne Hj]]; [done|].
    apply (iv_publishers _ _ HI i j cn cnj k b); try done; [by rewrite Hp|].
    rewrite (document_room _ _ Hdoc), <-(iv_accepted_room _ _ HI k a Ha). done.
Qed.

(** ** Leaving *)

Lemma stop_inv i cn w :
  Inv w → rt_connections w !! i = Some cn → keyed (cn_phase cn) = true → published (cn_phase cn) = None →
  Inv (stop_forwarder i (goto (Removing false) cn) w).
Proof.
  intros HI Hi Hk Hpub. pose proof (co_phase _ _ (iv_conns _ _ HI i cn Hi)) as Hph. unfold stop_forwarder.
  apply (inv_stop update_retention i cn (goto (Removing false) cn) w); try done.
  - exact (drop_receiver_quiet update_retention i cn w HI Hi).
  - apply (stopped_ok w cn); try done. apply Hph.
Qed.

Lemma rejecting_inv x i cn event w :
  Inv w → rt_connections w !! i = Some cn → cn_phase cn = Rejecting event →
  Inv (set_connection i (goto Dropping (push_closing x event None cn)) w).
Proof.
  intros HI Hi Hp. pose proof (iv_conns _ _ HI i cn Hi) as [Hroom Hph Htold Hboot Hwin Hsync].
  set (cn' := goto Dropping _).
  assert (∃ frames, cn' = goto Dropping (cn <| cn_frames := frames |>) ∧ well_ended frames) as (frames & Hcn & Hwe).
  { exists (cn_frames (push_closing x event None cn)). split.
    - unfold cn', push_closing. destruct (in_sent x), (in_closed x); cbn; try done; by destruct cn.
    - apply well_ended_closing, (po_frames _ _ Hph). eapply opening_active; [exact Hph|..]; by rewrite Hp. }
  rewrite Hcn. pose proof (po_opening _ _ Hph) as Ho. rewrite Hp in Ho. destruct (Ho eq_refl) as [Hf Hat].
  apply (inv_local update_retention i cn); try done; cbn.
  - by rewrite Hp.
  - split; cbn; try done; try apply Hph.
    + intros e He. by apply elem_of_nil in He.
    + split; [done|]. unfold active. cbn. by rewrite andb_false_r.
  - intros c b _ _ _ [Hfo|Hse]; cbn in *; congruence.
Qed.

Lemma main_step_inv x i cn w w' :
  Inv w → rt_connections w !! i = Some cn → main_step env update_retention x i cn w = Some w' → Inv w'.
Proof.
  intros HI Hi Hs. unfold main_step in Hs. pose proof (co_phase _ _ (iv_conns _ _ HI i cn Hi)) as Hph.
  destruct (cn_phase cn) as [|[]|stage ticking| |change events|events| |incoming kind request_id payload
    |incoming kind request_id payload|command next|change event k|event update|drain|drain|event| |[]|] eqn:Hp; cbv zeta in Hs.
  - destruct (po_unsubscribed _ _ Hph) as (Hf & Hr & _); [by rewrite Hp|].
    pose proof (po_silent _ _ Hph) as Hfr. rewrite Hp in Hfr. specialize (Hfr eq_refl).
    destruct (rt_draining w); injection Hs as <-.
    + apply (end_connection_inv update_retention i cn); try done; try congruence; destruct (in_sent x); cbn; try done;
        rewrite Hfr; [by apply well_ended_snoc; constructor|by apply well_ended_plain; constructor].
    + eapply inv_goto; [done|done|exact Hp|done|by left|done|done].
  - destruct (subscribe_creating _ _) as [[w1 ch] r] eqn:Hsub. injection Hs as <-.
    eapply inv_attach; [done|done|by rewrite Hp|]. by apply subscribe_creating_inv.
  - destruct (subscribe_existing _ _) as [[[w1 ch] r]|] eqn:Hsub; injection Hs as <-.
    + eapply inv_attach; [done|done|by rewrite Hp|]. by apply subscribe_existing_inv.
    + eapply inv_goto; [done|done|exact Hp|done|by left|done|done].
  - injection Hs as <-. by apply revalidation_step_inv.
  - injection Hs as <-. by apply bootstrap_step_inv.
  - injection Hs as <-. apply workspace_changed_inv. eapply inv_goto; [done|done|exact Hp|done|by left|done|done].
  - injection Hs as <-. by apply bootstrap_send_step_inv.
  - injection Hs as <-. by apply selecting_inv.
  - destruct (authorize_on _ _ _ _ _ _) as [r w1] eqn:Ha. injection Hs as <-. by eapply authorizing_inv.
  - injection Hs as <-. by apply persist_step_inv.
  - apply fmap_Some in Hs as (cn' & Hq & ->). by eapply queueing_inv.
  - injection Hs as <-. apply workspace_changed_inv. pose proof (po_holds _ _ Hph) as Hh. unfold holds in Hh.
    rewrite Hp in Hh. eapply inv_goto; [done|done|exact Hp|done|by left|done|]. intros k0 [= <-]. by left.
  - injection Hs as <-. by apply publishing_inv.
  - injection Hs as <-. assert (Inv (set_connection i (goto (Finishing drain) cn) w)) as HI1.
    { eapply inv_goto; [done|done|exact Hp|done|by left|done|done]. }
    destruct (is_document cn); [|done]. by apply quiet_send_inv.
  - unfold finishing_step in Hs. case_bool_decide as Hf.
    + injection Hs as <-. pose proof (po_stopped _ _ Hph Hf). apply (inv_over update_retention i cn); try done; [congruence|by rewrite Hp|apply Hph].
    + destruct drain; [done|]. injection Hs as <-. apply stop_inv; try done; by rewrite Hp.
  - injection Hs as <-. by apply rejecting_inv.
  - injection Hs as <-. apply stop_inv; try done; by rewrite Hp.
  - injection Hs as <-. destruct (po_ending _ _ Hph) as [Hf Hr]; [by rewrite Hp|].
    apply (end_connection_inv update_retention i cn); try done; [by apply remove_idle_room_inv| |apply Hph].
    unfold remove_idle_room. by case_match.
  - destruct (po_ending _ _ Hph) as [Hf Hr]; [by rewrite Hp|]. destruct (has_no_receiver _ _); injection Hs as <-.
    + eapply inv_goto; [done|done|exact Hp|done|by left|done|done].
    + apply (end_connection_inv update_retention i cn); try done. apply Hph.
  - done.
Qed.

(** ** Requests *)

Lemma set_request_inv q stage rq w : Inv w → Inv (set_request q stage rq w).
Proof. apply (inv_irrelevant update_retention _ (rt_draining w) (rt_active w)). Qed.

Lemma upgrade_inv i connection_id auth user_name w :
  Inv w → rt_connections w !! i = None → Inv (upgrade i connection_id auth user_name w).
Proof.
  intros HI Hi. unfold upgrade, track.
  apply (inv_irrelevant update_retention (rt_requests w) (rt_draining w) _ (set_connection i _ w)).
  apply (inv_put update_retention i _ w w); [done|by split|done|done|by intros; apply same_view_refl|..]; try done.
  split; try done.
  - split; try done.
    + intros e He. by apply elem_of_nil in He.
    + intros e He. by apply elem_of_nil in He.
    + split; [apply well_ended_plain|]; constructor.
  - intros p Hp. by apply elem_of_nil in Hp.
Qed.

Lemma request_step_inv x i fresh_id connection_id q rq w :
  Inv w → rt_connections w !! i = None → Inv (request_step env x i fresh_id connection_id q rq w).
Proof.
  intros HI Hi. unfold request_step. cbv zeta.
  assert (∀ auth name, Inv (upgrade i connection_id auth name (set_request q (Answered SWITCHING_PROTOCOLS) rq w))) as Hup.
  { intros auth name. apply upgrade_inv; [by apply set_request_inv|done]. }
  destruct (rq_stage rq) as [|p|p e|auth id revision|status].
  - destruct (authorize_on _ _ _ _ _ _) as [r w1] eqn:Ha.
    destruct (authorize_inv env update_retention _ _ _ _ _ _ _ HI Ha) as (HI1 & _).
    destruct r; by apply set_request_inv.
  - destruct (read_db _ _ _) as [[|]|]; by apply set_request_inv.
  - destruct (read_db _ _ _) as [[|]|]; [|by apply set_request_inv..].
    destruct (rq_document rq) as [[id revision]|]; [by apply set_request_inv|apply Hup].
  - destruct (read_db _ _ _) as [[|]|]; [apply Hup|by apply set_request_inv..].
  - done.
Qed.

(** ** The system *)

Lemma realtime_step_inv action w w' :
  Inv w → realtime_step env header_value_ok update_retention action w = Some w' → Inv w'.
Proof.
  intros HI Hs. destruct action; simpl in Hs.
  - destruct (unused _ _); [|done]. injection Hs as <-.
    by apply (inv_irrelevant update_retention _ (rt_draining w) (rt_active w)).
  - destruct (unused _ _); [|done]. injection Hs as <-.
    by apply (inv_irrelevant update_retention _ (rt_draining w) (rt_active w)).
  - destruct (rt_requests w !! q); [|done]. simpl in Hs. unfold unused in Hs. case_bool_decide; [|done].
    injection Hs as <-. by apply request_step_inv.
  - destruct (rt_connections w !! i) eqn:Hi; [|done]. by eapply main_step_inv.
  - destruct (rt_connections w !! i) eqn:Hi; [|done]. by eapply forward_step_inv.
  - destruct (elsewhere_op op) eqn:Hop; [|done]. injection Hs as <-. apply inv_set_db; [done|].
    apply run_workspace_evolves; [apply HI|done].
  - destruct (unused _ _); [|done]. injection Hs as <-. by apply inv_broadcast.
  - destruct (unused _ _); [|done]. injection Hs as <-. by apply inv_broadcast.
  - by eapply inv_broadcast_next.
  - injection Hs as <-. by apply workspace_changed_inv.
  - injection Hs as <-. by apply (inv_irrelevant update_retention (rt_requests w) true (rt_active w)).
Qed.

Lemma realtime_Inv w : realtime_reachable env header_value_ok update_retention w → Inv w.
Proof.
  induction 1 as [db Hdb|action w w' _ IH Hs]; [|by eapply realtime_step_inv].
  split; [done|intros *; cbn; rewrite ?lookup_empty, ?lookup_nil, ?elem_of_nil; try done..].
Qed.
End handlers.
