(* ===== verification/RealtimeTheorems.v ===== *)
(** * Realtime: theorems, with two editors of a small project

    A concrete CRDT (a document is the set of texts entered into it), channels
    as queues, and runs in which two windows of alice edit the same document:
    the worlds the theorems are instantiated at. *)
From S2P Require Import Prelude Store Text Paths AccessModel Authorization AccessSystem WorkspaceModel.
From S2P Require Import WorkspaceProjects Collaboration WorkspaceFrames WorkspaceSystem CollaborationSteps.
From S2P Require Import WorkspaceTheorems Convergence RealtimeModel RealtimeRooms RealtimeSockets.
From S2P Require Import RealtimeInvariant RealtimeMoves RealtimePhases RealtimeHandlers.
From stdpp Require Import pretty.

Open Scope Z_scope.

(** ** The CRDT *)

(** A word is its characters plus one, ended by zero. *)
Definition encode_word (t : text) : bytes := (N.succ <$> t) ++ [0%N].
Fixpoint decode_words (word : text) (b : bytes) : option (list text) :=
  match b with
  | [] => match word with [] => Some [] | _ => None end
  | c :: b =>
      if (c =? 0)%N then words ← decode_words [] b; Some (word :: words)
      else decode_words (word ++ [N.pred c]) b
  end.

Lemma decode_encode_word t word b :
  decode_words word (encode_word t ++ b) = (words ← decode_words [] b; Some ((word ++ t) :: words)).
Proof.
  induction t as [|c t IH] in word |- *; [by simpl; rewrite (right_id_L [] (++))|].
  unfold encode_word in *. simpl. replace (N.succ c =? 0)%N with false by (symmetry; apply N.eqb_neq; lia).
  rewrite N.pred_succ, IH, <-(assoc_L (++)). done.
Qed.
Lemma decode_encode_words words : decode_words [] (words ≫= encode_word) = Some words.
Proof. induction words as [|t words IH]; [done|]. cbn [mbind list_bind]. by rewrite decode_encode_word, IH. Qed.

#[export] Instance set_yrs : Yrs := {|
  ydoc := gset text; y_new := ∅;
  y_apply := λ d u, words ← decode_words [] u; Some (list_to_set words ∪ d);
  y_encode := λ d, elements d ≫= encode_word;
  y_text := λ d, mjoin (elements d); y_seed := λ t, {[t]} |}.

#[export] Instance set_yrs_laws : YrsLaws (H := set_yrs).
Proof.
  refine {| y_equiv := (=) |}.
  - intros d d' u Hd. destruct Hd. by destruct (y_apply d u); constructor.
  - intros d d' Hd. by destruct Hd.
  - intros d. exists d. split; [|done]. simpl. rewrite decode_encode_words. simpl.
    rewrite list_to_set_elements_L. by rewrite (right_id_L ∅ (∪)).
  - intros t. simpl. rewrite elements_singleton. simpl. apply (right_id_L [] (++)).
Defined.

#[export] Instance set_yrs_convergence : YrsConvergence (H := set_yrs).
Proof.
  split.
  - intros d u v. simpl. destruct (decode_words [] u), (decode_words [] v); simpl; constructor.
    apply leibniz_equiv. set_solver.
  - intros d u d'. simpl. destruct (decode_words [] u); simpl; intros [= <-]. constructor.
    apply leibniz_equiv. set_solver.
  - intros d u. simpl. by destruct (decode_words [] u); simpl; intros [].
Qed.

(** ** Channels as queues *)

#[export] Instance queues : Broadcast := {|
  channel := gmap nat (list RoomEvent);
  channel_new := λ _, ({[0%nat := []]}, 0%nat);
  channel_send := λ e c, (λ q, q ++ [e]) <$> c;
  channel_subscribe := λ c, let r := fresh (dom c) in (<[r := []]> c, r);
  channel_recv := λ r c, match c !! r with Some (e :: q) => Some (Delivered e, <[r := q]> c) | _ => None end;
  channel_drop := λ r c, delete r c;
  receiver_count := λ c, size c |}.

#[export] Instance queues_laws : BroadcastLaws (H := queues).
Proof.
  refine {| receivers := λ c : @channel queues, dom (D := gset nat) (c : gmap nat (list RoomEvent));
            unread := λ c r, default [] ((c : gmap nat (list RoomEvent)) !! r) |}; simpl.
  - intros _ c r [= <- <-]. split; [apply dom_singleton_L|]. by rewrite lookup_singleton_eq.
  - intros e c. split; [apply dom_fmap_L|]. intros r [q Hq]%elem_of_dom. rewrite lookup_fmap, Hq. done.
  - intros c c' r [= <- <-]. set (r := fresh _). pose proof (is_fresh (dom (D := gset nat) c)) as Hf.
    fold r in Hf. split_and!; [done|apply dom_insert_L|by rewrite lookup_insert_eq|].
    intros r' Hr'. rewrite lookup_insert_ne; [done|]. intros <-. by apply Hf.
  - intros c r [q Hq]%elem_of_dom Hn. rewrite Hq in *. by destruct q.
  - intros c c' r x [q Hq]%elem_of_dom Hx. rewrite Hq in *. destruct q as [|e q]; [done|]. injection Hx as <- <-.
    split_and!.
    + rewrite dom_insert_L. apply elem_of_dom_2 in Hq. set_solver.
    + intros r' _ Hne. by rewrite lookup_insert_ne.
    + intros e' [= <-]. by rewrite lookup_insert_eq.
  - intros c r. split; [apply dom_delete_L|]. intros r' _ Hne. by rewrite lookup_delete_ne.
  - intros c. by rewrite size_dom.
Defined.

#[export] Instance plain_texts : Texts := {|
  show_uuid := λ u, lit (pretty u); base64_encode := λ b, b; base64_decode := Some |}.
#[export] Instance plain_texts_laws : TextLaws.
Proof. done. Qed.

(** ** Runs *)

Definition header_environment : Environment := MkEnvironment (Some (lit "1")) parse_u32 (λ b, b).
Definition accept_all : text → bool := λ _, true.
Definition input : Input := MkInput healthy 5 true true NextTick false.
Definition typing (word : string) : Input :=
  MkInput healthy 5 true true
    (NextMessage (Some (MessageText (Some (MessageYjsUpdate [] (lit "r1") (y_encode (y_seed (lit word)))))))) false.

Definition alice_query : WsQuery :=
  MkWsQuery None (Some (lit "11")) (Some (lit "1")) None None None None (Some 0).
(** Alice opens a window on the document: connection [i]. *)
Definition opens (i : nat) : list Action :=
  ARequestDocument i (lit "50") alice_query (λ _, None)
  :: replicate 4 (AAuthorize input i i 90%N (N.of_nat (91 + i))).
Definition mains (i n : nat) : list Action := replicate n (AMain input i).
Definition forwards (i n : nat) : list Action := replicate n (AForward input i).

Definition created_project : WorkspaceDB :=
  run_workspace retention healthy 1 (OCreateProject notes_graph) (blank_workspace sample_db).
Definition run := run_realtime header_environment accept_all retention.
(** Two windows are open and wait for something to happen. *)
Definition two_windows : Realtime := run (opens 0 ++ mains 0 10 ++ opens 1 ++ mains 1 9) (started created_project).
(** One of them types, and the other is told. *)
Definition edited : Realtime :=
  run (AMain (typing "draft") 0 :: mains 0 4 ++ forwards 1 2) two_windows.
(** The socket of the window that types fails before its update is acknowledged. *)
Definition cut_off : Realtime :=
  run (AForward (MkInput healthy 5 false false NextTick false) 0 :: AMain (typing "draft") 0 :: mains 0 8 ++ forwards 1 4)
    two_windows.
(** A share of the project is withdrawn while both windows are open. *)
Definition withdrawn_meanwhile : Realtime :=
  run [ADatabase healthy 6 (OAccess (OUpsertOrganization notes lab PermissionWrite bob));
       ADatabase healthy 6 (OAccess (ODeleteOrganization notes lab)); AAccessChanged 0 notes;
       ABroadcast 6 0; ABroadcast 6 0] two_windows.
(** The process drains, and the sockets end. *)
Definition drained : Realtime :=
  run (ADrain :: mains 0 2 ++ forwards 0 3 ++ [AForward (MkInput healthy 5 true true NextTick true) 0] ++ mains 0 5
       ++ mains 1 2 ++ [AForward (MkInput healthy 5 true true NextTick true) 1] ++ mains 1 5) two_windows.

Lemma run_reachable actions :
  realtime_reachable header_environment accept_all retention (run actions (started created_project)).
Proof.
  apply run_realtime_reachable, realtime_start, workspace_next; [by apply workspace_start|]. vm_compute. done.
Qed.
Lemma two_windows_reachable : realtime_reachable header_environment accept_all retention two_windows.
Proof. apply run_reachable. Qed.
Lemma later_reachable actions : realtime_reachable header_environment accept_all retention (run actions two_windows).
Proof. apply run_realtime_reachable, two_windows_reachable. Qed.

(** * Realtime: the count of open sockets

    connection_lifecycle.rs: every socket holds a [ConnectionActivity] from its
    upgrade to the end of its handler, so the shutdown that waits for the count
    to reach zero waits for all of them. *)
Section drain.
Context {Y : Yrs} {T : Texts} {B : Broadcast}.
Context (env : Environment) (header_value_ok : text → bool) (update_retention : Z).

Definition over (cn : Connection) : bool := match cn_phase cn with Ended => true | _ => false end.
Definition open_sockets (w : Realtime) : gmap nat Connection :=
  filter (λ ic, over ic.2 = false) (rt_connections w).
Definition counted (w : Realtime) : Prop :=
  Z.of_nat (size (rt_connections w)) ≤ usize_max → rt_active w = Z.of_nat (size (open_sockets w)).

(** What a step of the tasks of connection [i] does to the count. *)
Inductive moved (i : nat) (w w' : Realtime) : Prop :=
| moved_on cn' :
    rt_connections w' = <[i := cn']> (rt_connections w) → over cn' = false → rt_active w' = rt_active w → moved i w w'
| moved_out cn' :
    rt_connections w' = <[i := cn']> (rt_connections w) → over cn' = true →
    rt_active w' = Z.max 0 (rt_active w - 1) → moved i w w'.

Lemma moved_counted i cn w w' :
  rt_connections w !! i = Some cn → over cn = false → moved i w w' → counted w → counted w'.
Proof.
  intros Hi Ho Hm Hc. unfold counted, open_sockets in *.
  assert (∀ cn', size (<[i:=cn']> (rt_connections w)) = size (rt_connections w)) as Hsize.
  { intros cn'. by rewrite map_size_insert, Hi. }
  assert (filter (λ ic : nat * Connection, over ic.2 = false) (rt_connections w) !! i = Some cn) as Hin.
  { by apply map_lookup_filter_Some. }
  destruct Hm as [cn' -> Ho' ->|cn' -> Ho' ->]; rewrite Hsize; intros Hle; rewrite (Hc Hle).
  - rewrite map_filter_insert_True by done. by rewrite map_size_insert, Hin.
  - rewrite map_filter_insert_False by (simpl; congruence). rewrite map_filter_delete, map_size_delete, Hin.
    assert (size (filter (λ ic : nat * Connection, over ic.2 = false) (rt_connections w)) ≠ 0%nat).
    { intros He%map_size_empty_inv. by rewrite He in Hin. }
    simpl. lia.
Qed.

Lemma same_counted w w' :
  rt_connections w' = rt_connections w → rt_active w' = rt_active w → counted w → counted w'.
Proof. unfold counted, open_sockets. by intros -> ->. Qed.

Lemma send_to_same ch e (w : Realtime) :
  rt_connections (send_to ch e w) = rt_connections w ∧ rt_active (send_to ch e w) = rt_active w.
Proof. done. Qed.
Lemma workspace_changed_same now p c (w : Realtime) :
  rt_connections (workspace_changed now p c w) = rt_connections w
  ∧ rt_active (workspace_changed now p c w) = rt_active w.
Proof. unfold workspace_changed. by case_match. Qed.
Lemma authorize_same x headers p need (w : Realtime) :
  rt_connections (authorize_on env x headers p need w).2 = rt_connections w
  ∧ rt_active (authorize_on env x headers p need w).2 = rt_active w.
Proof. unfold authorize_on. by destruct (run_pool _ _). Qed.
Lemma record_accepted_moved cn c payload db db' (w : Realtime) :
  rt_connections (record_accepted cn c payload db db' w) = rt_connections w
  ∧ rt_active (record_accepted cn c payload db db' w) = rt_active w.
Proof. unfold record_accepted. cbv zeta. by case_match. Qed.
Lemma subscribe_existing_same key (w w' : Realtime) ch r :
  subscribe_existing key w = Some (w', ch, r) → rt_connections w' = rt_connections w ∧ rt_active w' = rt_active w.
Proof.
  unfold subscribe_existing. destruct (rt_rooms w !! key) as [c|]; [|done]. simpl.
  destruct (rt_channels w !! c) as [ch0|]; [|done]. simpl. destruct (channel_subscribe ch0). by intros [= <- _ _].
Qed.
Lemma subscribe_creating_same key (w w' : Realtime) ch r :
  subscribe_creating key w = (w', ch, r) → rt_connections w' = rt_connections w ∧ rt_active w' = rt_active w.
Proof.
  unfold subscribe_creating. destruct (subscribe_existing key w) as [[[w1 ch1] r1]|] eqn:He.
  - intros [= -> _ _]. by eapply subscribe_existing_same.
  - destruct (channel_new _). by intros [= <- _ _].
Qed.

Lemma moved_set i cn' (w w0 : Realtime) :
  rt_connections w0 = rt_connections w ∧ rt_active w0 = rt_active w → over cn' = false → moved i w (set_connection i cn' w0).
Proof. intros [Hc Ha] Ho. apply (moved_on i w _ cn'); [|done|done]. unfold set_connection. cbn. by rewrite Hc. Qed.
Lemma moved_end i cn' (w w0 : Realtime) :
  rt_connections w0 = rt_connections w ∧ rt_active w0 = rt_active w → moved i w (end_connection i cn' w0).
Proof.
  intros [Hc Ha]. apply (moved_out i w _ (goto Ended cn')); [|done|].
  - unfold end_connection, set_connection, untrack. cbn. by rewrite Hc.
  - unfold end_connection, set_connection, untrack. cbn. by rewrite Ha.
Qed.
Lemma moved_same i (w w1 w2 : Realtime) :
  rt_connections w2 = rt_connections w1 ∧ rt_active w2 = rt_active w1 → moved i w w1 → moved i w w2.
Proof.
  intros [Hc Ha] [cn' H1 H2 H3|cn' H1 H2 H3]; [apply (moved_on i w w2 cn')|apply (moved_out i w w2 cn')]; congruence.
Qed.
Lemma moved_stop i cn' (w w0 : Realtime) :
  rt_connections w0 = rt_connections w ∧ rt_active w0 = rt_active w → over cn' = false →
  moved i w (stop_forwarder i cn' w0).
Proof. intros Hs Ho. unfold stop_forwarder. apply moved_set; [by case_match|by destruct cn']. Qed.

Lemma revalidation_moved x i cn stage ticking w : moved i w (revalidation_step env x i cn stage ticking w).
Proof.
  assert (∀ outcome, over (goto (revalidated (in_now x) cn ticking outcome) cn) = false) as Hrev.
  { intros outcome. unfold revalidated, over. cbn. destruct (revalidation_event _ _ _), ticking; try done.
    by destruct (is_document cn). }
  unfold revalidation_step. cbv zeta. destruct stage.
  - pose proof (authorize_same x (wa_auth_headers (cn_auth cn)) (wa_project_id (cn_auth cn)) Read w) as Ha.
    destruct (authorize_on _ _ _ _ _ _) as [r w1]. simpl in Ha. destruct (revalidate_principal _ _); by apply moved_set.
  - destruct (revalidate_content_epoch _ _); by apply moved_set.
  - by apply moved_set.
Qed.

Lemma select_next_open x cn draining : over (goto (select_next x cn draining) cn) = false.
Proof.
  unfold select_next, over. cbn. destruct draining; [done|]. destruct (in_next x) as [[[[message|]| | |]|]|]; try done.
  destruct (is_document cn); [|done]. unfold text_message. cbv zeta. by repeat case_match.
Qed.

Lemma main_step_moved x i cn w w' :
  main_step env update_retention x i cn w = Some w' → over cn = false ∧ moved i w w'.
Proof.
  intros Hs. unfold main_step in Hs. split; [unfold over; by destruct (cn_phase cn)|].
  destruct (cn_phase cn) as [|[]|stage ticking| |change events|events| |incoming kind request_id payload
    |incoming kind request_id payload|command next|change event k|event update|drain|drain|event| |[]|] eqn:Hp; cbv zeta in Hs.
  - destruct (rt_draining w); injection Hs as <-; [by apply moved_end|by apply moved_set].
  - destruct (subscribe_creating _ _) as [[w1 ch] r] eqn:Hsub. injection Hs as <-.
    apply moved_set; [by eapply subscribe_creating_same|done].
  - destruct (subscribe_existing _ _) as [[[w1 ch] r]|] eqn:Hsub; injection Hs as <-; [|by apply moved_set].
    apply moved_set; [by eapply subscribe_existing_same|done].
  - injection Hs as <-. apply revalidation_moved.
  - injection Hs as <-. unfold bootstrap_step. cbv zeta. destruct (document_of _); [|by apply moved_set].
    destruct (bootstrap_transaction _ _ _ _ _) as [[[state [|]]|] db]; by apply moved_set.
  - injection Hs as <-. eapply moved_same; [apply workspace_changed_same|by apply moved_set].
  - injection Hs as <-. unfold bootstrap_send_step. destruct events as [|e events]; cbv zeta.
    + destruct (is_document cn); [eapply moved_same; [apply send_to_same|]|]; by apply moved_set.
    + destruct (in_sent x); by apply moved_set.
  - injection Hs as <-. by apply moved_set, select_next_open.
  - pose proof (authorize_same x (wa_auth_headers (cn_auth cn)) (wa_project_id (cn_auth cn)) Write w) as Ha.
    destruct (authorize_on _ _ _ _ _ _) as [r w1]. simpl in Ha. injection Hs as <-. apply moved_set; [done|].
    unfold after_write_access, over. cbn. by repeat case_match.
  - injection Hs as <-. unfold persist_step. cbv zeta. destruct (document_of _); [|by apply moved_set].
    destruct (persist_update _ _ _ _ _ _ _ _ _ _) as [r db]. apply moved_set; [apply record_accepted_moved|].
    unfold after_persist, over. cbn. by repeat case_match.
  - apply fmap_Some in Hs as (cn' & Hq & ->). apply moved_set; [done|]. unfold queueing_step in Hq.
    case_bool_decide; [by simplify_eq|]. case_match; [|done]. injection Hq as <-. unfold over. cbn. by repeat case_match.
  - injection Hs as <-. eapply moved_same; [apply workspace_changed_same|by apply moved_set].
  - injection Hs as <-. eapply moved_same; [apply send_to_same|by apply moved_set].
  - injection Hs as <-. destruct (is_document cn); [eapply moved_same; [apply send_to_same|]|]; by apply moved_set.
  - unfold finishing_step in Hs. case_bool_decide; [injection Hs as <-; by apply moved_set|].
    destruct drain; [done|]. injection Hs as <-. by apply moved_stop.
  - injection Hs as <-. by apply moved_set.
  - injection Hs as <-. by apply moved_stop.
  - injection Hs as <-. apply moved_end. unfold remove_idle_room. by case_match.
  - destruct (has_no_receiver _ _); injection Hs as <-; [by apply moved_set|by apply moved_end].
  - done.
Qed.

Lemma push_closing_over x e recipient cn : over (push_closing x e recipient cn) = over cn.
Proof. unfold push_closing. by destruct (in_sent x), (in_closed x). Qed.

(** The forwarder leaves the handler where it is. *)
Lemma forward_event_moved x i cn e (w w0 : Realtime) :
  rt_connections w0 = rt_connections w ∧ rt_active w0 = rt_active w → over cn = false →
  moved i w (forward_event x i cn e w0).
Proof.
  intros Hs Ho. unfold forward_event. destruct (in_sent x); simpl; [|by apply moved_stop].
  destruct (closes_stream e); [apply moved_stop; [done|by rewrite push_closing_over]|by apply moved_set].
Qed.
Lemma forward_step_moved x i cn w w' : over cn = false → forward_step x i cn w = Some w' → moved i w w'.
Proof.
  intros Ho Hs. unfold forward_step in Hs. case_bool_decide; [|done]. simpl in Hs. destruct (in_outbox_first x).
  - destruct (cn_outbox cn) as [|command outbox]; [done|]. injection Hs as <-.
    destruct command; [by apply forward_event_moved|]. apply moved_stop; [done|]. by destruct (in_sent x).
  - destruct (cn_receiver cn) as [r|]; [|done]. simpl in Hs. destruct (rt_channels w !! _) as [c|]; [|done].
    simpl in Hs. destruct (channel_recv r c) as [[received c']|]; [|done]. simpl in Hs. injection Hs as <-.
    destruct received; [by apply forward_event_moved|]. apply moved_stop; [done|]. by rewrite push_closing_over.
Qed.
End drain.

(** * Realtime: the properties

    Editors converge, a connection admitted before a change of access is told,
    nothing follows a closing event, connections of a room share its channel,
    and the count of open sockets. *)
Section theorems.
Context {Y : Yrs} {YL : YrsLaws} {YC : YrsConvergence} {T : Texts} {TL : TextLaws}
  {B : Broadcast} {BL : BroadcastLaws}.
Context (env : Environment) (header_value_ok : text → bool) (update_retention : Z).
Abbreviation reachable := (realtime_reachable env header_value_ok update_retention).
Abbreviation Inv := (Inv update_retention).

(** What an editor has been sent, with what waits for it. *)
Definition received (w : Realtime) (cn : Connection) : list bytes :=
  omap frame_payload (cn_frames cn) ++ omap event_payload (window w cn).
(** The updates of the room are those of the stream, and all were published. *)
Definition published_all (w : Realtime) (c : CollaborationDocument) : Prop :=
  (∀ k a, rt_accepted w !! k = Some a → au_room a = stream_room c → au_stream a = c)
  ∧ ∀ k a, rt_accepted w !! k = Some a → au_stream a = c → k ∉ rt_owed w.

Lemma synced_converges w cn c b m rest d :
  sync w cn c b m rest → document_of (cn_auth cn) = Some c → pending (cn_phase cn) = [] →
  stream_doc c (rt_db w) ≡ Some d → conn_window w cn → published_all w c →
  apply_all y_new (received w cn) ≡ Some d.
Proof.
  intros [Hfr Hd Hcomp Hbase Hs] Hc Hpe Hdoc Hwin [Hroom Howed]. unfold received.
  rewrite Hpe in Hfr. simpl in Hfr. rewrite (right_id_L [] (++)) in Hfr. rewrite Hfr.
  rewrite <-app_comm_cons, apply_all_cons. destruct (y_encode_new m) as (m' & -> & Hm). simpl.
  rewrite (apply_all_proper _ m' m Hm). rewrite Hdoc in Hd.
  apply (same_updates_same_document (since c b (rt_accepted w))); [by symmetry| |].
  - intros u Hu. assert (stored_for w cn u) as (k & a & Ha & Hr & <-).
    { apply elem_of_app in Hu as [Hu|Hu]; [by apply Hs|by apply Hwin]. }
    rewrite (document_room _ _ Hc) in Hr. pose proof (Hroom k a Ha Hr) as Hst.
    destruct (decide (k < b)%nat) as [Hlt|Hge]; [right; by eapply Hbase|left].
    unfold since. apply list_elem_of_fmap. exists a. split; [done|]. apply list_elem_of_filter. split; [done|].
    apply list_elem_of_lookup. exists (k - b)%nat. rewrite lookup_drop. by replace (b + (k - b))%nat with k by lia.
  - intros u Hu. left. unfold since in Hu. apply list_elem_of_fmap in Hu as (a & -> & Ha).
    apply list_elem_of_filter in Ha as [Hst Ha]. apply list_elem_of_lookup in Ha as [k Ha]. rewrite lookup_drop in Ha.
    destruct (Hcomp (b + k)%nat a) as [Ho|Hin]; [lia|done|done| |done]. by destruct (Howed _ _ Ha Hst).
Qed.

(** C12: an editor whose forwarder runs, with everything it was sent and
    everything that waits for it applied to an empty document, has the document
    of its stream, whenever each update stored for the stream has been published:
    whatever the other tasks did, in whatever order the updates came. *)
Theorem editors_converge w i cn c :
  reachable w → rt_connections w !! i = Some cn → document_of (cn_auth cn) = Some c →
  cn_forwarder cn = Forwarding → c ∉ rt_retired w → published_all w c →
  stream_doc c (rt_db w) ≢ None ∧ apply_all y_new (received w cn) ≡ stream_doc c (rt_db w).
Proof.
  intros Hr Hi Hc Hf Hret Hpub. pose proof (realtime_Inv _ _ _ _ Hr) as HI.
  destruct (iv_conns _ _ HI i cn Hi) as [_ Hph _ Hboot Hwin Hsync].
  destruct (forwarding_phase _ _ Hph Hf) as (_ & _ & Hse & Hpe & _).
  assert (is_Some (cn_bootstrapped cn)) as [b Hb].
  { apply (po_booted _ _ Hph); [unfold is_document, document_of in *; by destruct (wa_target _)|].
    by rewrite (forwarding_looping _ _ Hph Hf). }
  destruct (Hboot c b Hc Hb) as [_ Hready]. destruct (Hready Hret) as (_ & _ & d & Hd).
  destruct (Hsync c b Hc Hb Hret) as (m & rest & Hs); [by left|]. rewrite Hd.
  split; [by inversion 1|]. by eapply synced_converges.
Qed.

(** A change that the connection was admitted before has been broadcast to its end. *)
Definition outdated (w : Realtime) (cn : Connection) (kind : RoomEventKind) : Prop :=
  ∃ epoch, (kind, wa_project_id (cn_auth cn), epoch) ∈ rt_announced w ∧ auth_epoch kind (cn_auth cn) < epoch.
(** What may precede and follow a frame that closes the stream. *)
Definition closes_between (before : list Frame) (f : Frame) (after : list Frame) : Prop :=
  match f with
  | TextFrame _ => plain_frames before ∧ (after = [] ∨ ∃ reason, after = [CloseFrame reason])
  | CloseFrame _ => after = []
  end.
Definition all_over (w : Realtime) : Prop := ∀ i cn, rt_connections w !! i = Some cn → cn_phase cn = Ended.
(** Both read the room of the first. *)
Definition read_one_room (cn cn' : Connection) : Prop :=
  is_Some (cn_receiver cn) ∧ is_Some (cn_receiver cn') ∧ room_key (cn_auth cn) = room_key (cn_auth cn').

(** C13: once a change of access or a replacement of the content has been
    broadcast, every connection that was admitted before it and still reads its
    room finds an event that closes its stream among those that wait for it. *)
Theorem outdated_connections_are_told w i cn kind :
  reachable w → rt_connections w !! i = Some cn → cn_forwarder cn = Forwarding →
  kind = AccessRevised ∨ kind = ProjectReplaced → outdated w cn kind →
  ∃ event, event ∈ window w cn ∧ re_kind event = kind ∧ closes_stream event = true.
Proof.
  intros Hr Hi Hf Hkind (epoch & Hin & Hlt). destruct (iv_conns _ _ (realtime_Inv _ _ _ _ Hr) i cn Hi) as [_ Hph Htold _ _ _].
  destruct (Htold kind Hkind) as [_ Hto]; [|by apply (po_forwarding _ _ Hph)|].
  - pose proof (forwarding_looping _ _ Hph Hf) as Hl. destruct (cn_phase cn) as [| |[] []| | | | | | | | | | | | | | |]; by destruct Hkind as [->| ->].
  - destruct (Hto epoch Hin Hlt) as (e & He & Hk). exists e. split_and!; [done|done|].
    unfold closes_stream, closes_stream_kind. by destruct Hkind as [->| ->]; rewrite Hk.
Qed.

(** C15: whatever a socket is sent, an event that closes the stream is the last
    one: nothing but the close frame follows it, and after a close frame
    nothing does. *)
Theorem nothing_follows_a_close w i cn before f after :
  reachable w → rt_connections w !! i = Some cn → cn_frames cn = before ++ f :: after →
  closing_frame f = true → closes_between before f after.
Proof.
  intros Hr Hi Hfr Hcl. destruct (po_frames _ _ (co_phase _ _ (iv_conns _ _ (realtime_Inv _ _ _ _ Hr) i cn Hi))) as [Hw _].
  rewrite Hfr in Hw. by apply well_ended_split.
Qed.

(** ** The count of open sockets *)

Lemma upgrade_counted i connection_id auth name w :
  rt_connections w !! i = None → counted w → counted (upgrade i connection_id auth name w).
Proof.
  intros Hi Hc. unfold counted, open_sockets, upgrade, track, set_connection in *. cbn.
  rewrite map_size_insert, Hi. intros Hle. rewrite Hc by lia. rewrite map_filter_insert_True by done.
  rewrite map_size_insert. destruct (filter _ _ !! i) as [cn|] eqn:He.
  - apply map_lookup_filter_Some in He as [He _]. congruence.
  - pose proof (map_size_filter (λ ic : nat * Connection, over ic.2 = false) (rt_connections w)). lia.
Qed.

Lemma request_step_counted x i fresh_id connection_id q rq w :
  rt_connections w !! i = None → counted w → counted (request_step env x i fresh_id connection_id q rq w).
Proof.
  intros Hi Hc. unfold request_step. cbv zeta.
  assert (∀ stage w1, rt_connections w1 = rt_connections w ∧ rt_active w1 = rt_active w →
    counted (set_request q stage rq w1)) as Hset by (intros stage w1 [? ?]; by apply (same_counted w)).
  destruct (rq_stage rq) as [|p|p e|auth id revision|status].
  - pose proof (authorize_same env x (rq_headers rq) (rq_project_id rq) Read w) as Ha.
    destruct (authorize_on _ _ _ _ _ _) as [r w1]. simpl in Ha. destruct r; by apply Hset.
  - destruct (read_db _ _ _) as [[|]|]; by apply Hset.
  - destruct (read_db _ _ _) as [[|]|]; [|by apply Hset..].
    destruct (rq_document rq) as [[id revision]|]; [by apply Hset|]. apply upgrade_counted; [done|by apply Hset].
  - destruct (read_db _ _ _) as [[|]|]; [|by apply Hset..]. apply upgrade_counted; [done|by apply Hset].
  - done.
Qed.

Lemma realtime_step_counted action w w' :
  Inv w → counted w → realtime_step env header_value_ok update_retention action w = Some w' → counted w'.
Proof.
  intros HI Hc Hs. destruct action; simpl in Hs;
    try (destruct (unused _ _); [|done]; injection Hs as <-; by apply (same_counted w)).
  - destruct (rt_requests w !! q); [|done]. simpl in Hs. unfold unused in Hs. case_bool_decide; [|done].
    injection Hs as <-. by apply request_step_counted.
  - destruct (rt_connections w !! i) as [cn|] eqn:Hi; [|done]. destruct (main_step_moved _ _ _ _ _ _ _ Hs) as [Ho Hm].
    by apply (moved_counted i cn w).
  - destruct (rt_connections w !! i) as [cn|] eqn:Hi; [|done].
    assert (cn_forwarder cn = Forwarding) as Hf by (simpl in Hs; unfold forward_step in Hs; by case_bool_decide).
    pose proof (forwarding_looping _ _ (co_phase _ _ (iv_conns _ _ HI i cn Hi)) Hf) as Hl.
    assert (over cn = false) as Ho by (unfold over; by destruct (cn_phase cn)).
    apply (moved_counted i cn w); [done|done| |done]. by eapply forward_step_moved.
  - destruct (elsewhere_op op); [|done]. injection Hs as <-. by apply (same_counted w).
  - unfold broadcast_next in Hs. destruct (rt_announcements w !! a) as [an|]; [|done]. simpl in Hs.
    injection Hs as <-. apply (same_counted w); [..|done]; by destruct (an_rooms an) as [|[??]?].
  - injection Hs as <-. destruct (workspace_changed_same now project change w). by apply (same_counted w).
  - injection Hs as <-. by apply (same_counted w).
Qed.

Lemma reachable_counted w : reachable w → counted w.
Proof. induction 1 as [db Hdb|action w w' Hr IH Hs]; [done|]. eapply realtime_step_counted; [by eapply realtime_Inv|done|exact Hs]. Qed.

(** The count a shutdown waits for is the number of sockets whose handler
    has not returned, so once it is quiescent every socket is over. *)
Theorem quiescence_is_the_end_of_every_socket w :
  reachable w → Z.of_nat (size (rt_connections w)) ≤ usize_max →
  rt_active w = Z.of_nat (size (open_sockets w))
  ∧ (quiescent w = true ↔ all_over w).
Proof.
  intros Hr Hle. pose proof (reachable_counted w Hr Hle) as Hc. split; [done|].
  unfold quiescent. rewrite Hc, Z.eqb_eq. split.
  - intros He i cn Hi. destruct (over cn) eqn:Ho; [unfold over in Ho; by destruct (cn_phase cn)|].
    assert (open_sockets w = ∅) as Hem by (apply map_size_empty_inv; lia).
    assert (open_sockets w !! i = Some cn) as Hin by by apply map_lookup_filter_Some. by rewrite Hem in Hin.
  - intros Hall. assert (open_sockets w = ∅) as ->; [|done]. apply map_empty. intros i. apply map_lookup_filter_None.
    right. intros cn Hi. unfold over. simpl. by rewrite (Hall i cn Hi).
Qed.

(** C14: connections that read one room read the channel it is mapped to, each
    with a receiver of its own: whatever is sent to the room reaches them all. *)
Theorem readers_share_the_mapped_channel w i j cn cn' event :
  reachable w → i ≠ j → rt_connections w !! i = Some cn → rt_connections w !! j = Some cn' →
  read_one_room cn cn' →
  rt_rooms w !! room_key (cn_auth cn) = Some (cn_sender cn) ∧ cn_sender cn' = cn_sender cn
  ∧ cn_receiver cn' ≠ cn_receiver cn
  ∧ window (send_to (cn_sender cn) event w) cn' = window w cn' ++ [event].
Proof.
  intros Hr Hne Hi Hj (Hat & Hat' & Hk). pose proof (realtime_Inv _ _ _ _ Hr) as HI.
  pose proof (co_room _ _ (iv_conns _ _ HI i cn Hi)) as Hroom. pose proof (co_room _ _ (iv_conns _ _ HI j cn' Hj)) as Hroom'.
  pose proof (attached_sender w cn cn' Hroom Hroom' Hat Hat' Hk) as Hs.
  split_and!; [|done| |].
  - destruct Hat as [r Hr0]. by apply (cr_mapped _ _ Hroom r).
  - destruct Hat as [r Hr0]. rewrite Hr0. by apply (iv_receivers _ _ HI i j cn cn' r).
  - change (window (send_to (cn_sender cn) event (paid None w)) cn' = window w cn' ++ [event]).
    rewrite (window_send (cn_sender cn) event None w cn' Hroom' Hat'). by rewrite decide_True.
Qed.
End theorems.

(** ** The properties at two windows of a document *)

Lemma published_one w c payload :
  rt_accepted w = [MkAccepted c (stream_room c) payload] → rt_owed w = ∅ → published_all w c.
Proof.
  intros He Ho. split; intros k a; rewrite He; intros [_ <-]%list_lookup_singleton_Some; [done|].
  intros _. rewrite Ho. apply not_elem_of_empty.
Qed.

Definition editor (w : Realtime) (i : nat) : Connection :=
  default (MkConnection (MkWsAuth 0 None None None 0 false 0 0 TargetProject (λ _, None)) None 0 Ended 0 None Stopped [] [] None)
    (rt_connections w !! i).
Lemma editor_lookup (w : Realtime) i :
  bool_decide (is_Some (rt_connections w !! i)) = true → rt_connections w !! i = Some (editor w i).
Proof. intros [cn Hi]%bool_decide_eq_true. unfold editor. by rewrite Hi. Qed.
Lemma not_retired (w : Realtime) c : bool_decide (c ∈ rt_retired w) = false → c ∉ rt_retired w.
Proof. apply bool_decide_eq_false. Qed.

Lemma editors_converge_witness :
  stream_doc main_stream (rt_db edited) ≢ None
  ∧ apply_all y_new (received edited (editor edited 1)) ≡ stream_doc main_stream (rt_db edited).
Proof.
  apply (editors_converge header_environment accept_all retention edited 1).
  - exact (later_reachable _).
  - apply editor_lookup. vm_compute. reflexivity.
  - vm_compute. reflexivity.
  - vm_compute. reflexivity.
  - apply not_retired. vm_compute. reflexivity.
  - apply (published_one edited main_stream (y_encode (y_seed (lit "draft")))); vm_compute; reflexivity.
Defined.

(** Both windows have the word. *)
Example both_have_the_word :
  (λ cn, (λ d, bool_decide (lit "draft" ∈ d)) <$> apply_all y_new (received edited cn))
    <$> [editor edited 0; editor edited 1] = [Some true; Some true].
Proof. vm_compute. reflexivity. Qed.

Lemma outdated_connections_are_told_witness :
  ∃ event, event ∈ window withdrawn_meanwhile (editor withdrawn_meanwhile 0) ∧ re_kind event = AccessRevised
    ∧ closes_stream event = true.
Proof.
  apply (outdated_connections_are_told header_environment accept_all retention withdrawn_meanwhile 0).
  - exact (later_reachable _).
  - apply editor_lookup. vm_compute. reflexivity.
  - vm_compute. reflexivity.
  - by left.
  - exists 2. split; [apply (bool_decide_unpack _); vm_compute; exact I|vm_compute; reflexivity].
Defined.

Lemma nothing_follows_a_close_witness :
  ∃ before f after, cn_frames (editor drained 0) = before ++ f :: after
    ∧ closes_between before f after.
Proof.
  exists (take 4 (cn_frames (editor drained 0))), (CloseFrame (Some ServiceRestartClose)), []. split.
  - vm_compute. reflexivity.
  - apply (nothing_follows_a_close header_environment accept_all retention drained 0 (editor drained 0)
             (take 4 (cn_frames (editor drained 0))) (CloseFrame (Some ServiceRestartClose)) []).
    + exact (later_reachable _).
    + apply editor_lookup. vm_compute. reflexivity.
    + vm_compute. reflexivity.
    + reflexivity.
Defined.

Lemma quiescence_is_the_end_of_every_socket_witness :
  rt_active drained = Z.of_nat (size (open_sockets drained))
  ∧ (quiescent drained = true ↔ all_over drained).
Proof.
  apply (quiescence_is_the_end_of_every_socket header_environment accept_all retention).
  - exact (later_reachable _).
  - apply Z.leb_le. vm_compute. reflexivity.
Defined.

Lemma readers_share_the_mapped_channel_witness :
  rt_rooms two_windows !! room_key (cn_auth (editor two_windows 0)) = Some (cn_sender (editor two_windows 0))
  ∧ cn_sender (editor two_windows 1) = cn_sender (editor two_windows 0)
  ∧ cn_receiver (editor two_windows 1) ≠ cn_receiver (editor two_windows 0)
  ∧ window (send_to (cn_sender (editor two_windows 0)) (system_event 9 [] BootstrapDone empty_object) two_windows)
      (editor two_windows 1)
    = window two_windows (editor two_windows 1) ++ [system_event 9 [] BootstrapDone empty_object].
Proof.
  apply (readers_share_the_mapped_channel header_environment accept_all retention two_windows 0 1).
  - exact two_windows_reachable.
  - discriminate.
  - apply editor_lookup. vm_compute. reflexivity.
  - apply editor_lookup. vm_compute. reflexivity.
  - split_and!; [apply (bool_decide_unpack _); vm_compute; exact I..|vm_compute; reflexivity].
Defined.

(** ** An update that is never published *)

(** When the author's socket fails between the update and its
    acknowledgement, the update is stored but its handler leaves without
    publishing it: here the author's connection is over, another editor has
    received all there is, and lacks the word that the stored document has. *)
Example unacknowledged_updates_are_not_published :
  realtime_reachable header_environment accept_all retention cut_off
  ∧ cn_phase (editor cut_off 0) = Ended ∧ cn_forwarder (editor cut_off 1) = Forwarding
  ∧ rt_announcements cut_off = ∅ ∧ window cut_off (editor cut_off 1) = []
  ∧ (λ d : gset text, bool_decide (lit "draft" ∈ d)) <$> stream_doc main_stream (rt_db cut_off) = Some true
  ∧ (λ d : gset text, bool_decide (lit "draft" ∈ d)) <$> apply_all y_new (received cut_off (editor cut_off 1)) = Some false.
Proof. split_and!; [exact (later_reachable _)|vm_compute; reflexivity..]. Qed.
