(* ===== verification/ExternalStatements.v ===== *)
(** * External repositories: data, tables, statements and links

    external_repositories: the failure codes and states, and the tables
    [external_git_oauth_grants], [external_git_project_links],
    [external_git_checkpoint_queue] and [external_git_inbound_jobs] of
    migrations/202607120001_baseline.sql.  The pending authors are with the
    other bookkeeping of a content change in the workspace tables, which this
    database contains; [external_links] there is the set of linked projects. *)
From S2P Require Import Prelude Store Text Paths AccessModel WorkspaceModel.

Open Scope Z_scope.

(** ** failure_code, git_command *)

Inductive ExternalGitFailureCode : Type :=
| CheckpointBranchMoved | GitAuthorizationRequired | GitPermissionDenied | GitProviderUnavailable
| GitCommandTimeout | GitPushVerificationFailed | GitCheckpointFailed | GitCommandFailed
| GitRepositoryNotFound | GitFetchFailed | RepositoryContentUnreadable
| RepositorySymlinksNotSupported | RepositorySubmodulesNotSupported
| RepositorySpecialFilesNotSupported | RepositoryFileLimitExceeded
| RepositoryFileSizeLimitExceeded | RepositoryTotalSizeLimitExceeded | RepositoryPathInvalid
| RepositoryLfsObjectMissing | RepositoryTextEncodingInvalid | RepositoryMissingEntryFile
| RepositoryIsEmpty | RepositoryRevisionInvalid | RepositoryImportStateFailed
| RepositoryAssetStoreFailed | RepositoryApplyFailed | RepositoryRevisionFailed
| CodeProjectNotFound | ExternalGitLinkMissing.
#[export] Instance ExternalGitFailureCode_eq_dec : EqDecision ExternalGitFailureCode.
Proof. solve_decision. Defined.

Inductive ExternalGitCommandFailureKind : Type := ReauthRequired | Forbidden | Conflict | Retryable.

(** ** State enumerations *)

Inductive ExternalGitGrantStatus : Type := GrantActive | GrantReauthRequired | GrantRevoked.
Inductive ExternalGitLinkStatus : Type :=
| LinkLinking | LinkActive | LinkReauthRequired | LinkConflict | LinkError.
Inductive ExternalGitCheckpointState : Type :=
| CheckpointPending | CheckpointProcessing | CheckpointRetryWait | CheckpointPaused.
Inductive ExternalGitCheckpointPhase : Type :=
| CheckpointQueued | CheckpointSnapshot | CheckpointCommitLocal | CheckpointPushGit.
Inductive ExternalGitInboundOperation : Type := ImportOperation | SyncOperation.
Inductive ExternalGitJobState : Type :=
| JobPending | JobProcessing | JobRetryWait | JobPaused | JobFailed | JobSucceeded.
Inductive ExternalGitInboundPhase : Type :=
| PhaseQueued | PhaseFetch | PhaseLfs | PhaseValidate | PhaseAssets | PhaseApply | PhaseRevision
| PhaseComplete.
#[export] Instance ExternalGitGrantStatus_eq_dec : EqDecision ExternalGitGrantStatus.
Proof. solve_decision. Defined.
#[export] Instance ExternalGitLinkStatus_eq_dec : EqDecision ExternalGitLinkStatus.
Proof. solve_decision. Defined.
#[export] Instance ExternalGitCheckpointState_eq_dec : EqDecision ExternalGitCheckpointState.
Proof. solve_decision. Defined.
#[export] Instance ExternalGitInboundOperation_eq_dec : EqDecision ExternalGitInboundOperation.
Proof. solve_decision. Defined.
#[export] Instance ExternalGitJobState_eq_dec : EqDecision ExternalGitJobState.
Proof. solve_decision. Defined.
#[export] Instance ExternalGitInboundPhase_eq_dec : EqDecision ExternalGitInboundPhase.
Proof. solve_decision. Defined.

(** ** Rows *)

(** Keyed by user and provider instance. *)
Record GrantRow : Type := MkGrantRow {
  og_account_id : text; og_username : text; og_encrypted_access_token : bytes;
  og_encrypted_refresh_token : option bytes; og_refresh_redirect_uri : text;
  og_scopes : list text; og_expires_at : option time; og_status : ExternalGitGrantStatus;
  og_last_error : option text; og_created_at : time; og_updated_at : time }.

(** Keyed by project. *)
Record LinkRow : Type := MkLinkRow {
  lk_provider : text; lk_repository_id : text; lk_full_path : text; lk_web_url : text;
  lk_clone_url : text; lk_default_branch : text; lk_checkpoint_branch : text;
  lk_status : ExternalGitLinkStatus; lk_synced_workspace_version : Z;
  lk_last_remote_sha : option text; lk_last_error : option ExternalGitFailureCode;
  lk_linked_by : uuid; lk_created_at : time; lk_updated_at : time;
  lk_last_import_branch : option text; lk_last_import_sha : option text;
  lk_last_import_at : option time; lk_last_import_error : option ExternalGitFailureCode }.
Record CheckpointRow : Type := MkCheckpointRow {
  cq_target_workspace_version : Z; cq_captured_workspace_version : option Z;
  cq_checkpoint_sha : option text; cq_captured_at : option time; cq_next_attempt_at : time;
  cq_state : ExternalGitCheckpointState; cq_phase : ExternalGitCheckpointPhase;
  cq_attempt_count : Z; cq_last_attempt_at : option time; cq_locked_at : option time;
  cq_last_error : option ExternalGitFailureCode; cq_created_at : time; cq_updated_at : time }.

(** Keyed by their own identifier. *)
Record InboundJobRow : Type := MkInboundJobRow {
  ij_project : uuid; ij_provider : text; ij_operation : ExternalGitInboundOperation;
  ij_source_branch : text; ij_requested_by : uuid; ij_state : ExternalGitJobState;
  ij_phase : ExternalGitInboundPhase; ij_attempt_count : Z; ij_next_attempt_at : time;
  ij_last_attempt_at : option time; ij_locked_at : option time; ij_remote_sha : option text;
  ij_last_error : option ExternalGitFailureCode; ij_created_at : time; ij_updated_at : time;
  ij_completed_at : option time; ij_applied_workspace_version : option Z }.

#[export] Instance GrantRow_eta : Eta GrantRow := λ g,
  MkGrantRow (og_account_id g) (og_username g) (og_encrypted_access_token g)
    (og_encrypted_refresh_token g) (og_refresh_redirect_uri g) (og_scopes g) (og_expires_at g)
    (og_status g) (og_last_error g) (og_created_at g) (og_updated_at g).
#[export] Instance LinkRow_eta : Eta LinkRow := λ l,
  MkLinkRow (lk_provider l) (lk_repository_id l) (lk_full_path l) (lk_web_url l) (lk_clone_url l)
    (lk_default_branch l) (lk_checkpoint_branch l) (lk_status l) (lk_synced_workspace_version l)
    (lk_last_remote_sha l) (lk_last_error l) (lk_linked_by l) (lk_created_at l) (lk_updated_at l)
    (lk_last_import_branch l) (lk_last_import_sha l) (lk_last_import_at l) (lk_last_import_error l).
#[export] Instance CheckpointRow_eta : Eta CheckpointRow := λ q,
  MkCheckpointRow (cq_target_workspace_version q) (cq_captured_workspace_version q)
    (cq_checkpoint_sha q) (cq_captured_at q) (cq_next_attempt_at q) (cq_state q) (cq_phase q)
    (cq_attempt_count q) (cq_last_attempt_at q) (cq_locked_at q) (cq_last_error q)
    (cq_created_at q) (cq_updated_at q).
#[export] Instance InboundJobRow_eta : Eta InboundJobRow := λ j,
  MkInboundJobRow (ij_project j) (ij_provider j) (ij_operation j) (ij_source_branch j)
    (ij_requested_by j) (ij_state j) (ij_phase j) (ij_attempt_count j) (ij_next_attempt_at j)
    (ij_last_attempt_at j) (ij_locked_at j) (ij_remote_sha j) (ij_last_error j) (ij_created_at j)
    (ij_updated_at j) (ij_completed_at j) (ij_applied_workspace_version j).

(** ** The database *)

Record ExternalDB : Type := MkExternalDB {
  workspace : WorkspaceDB;
  grants : gmap (uuid * text) GrantRow;
  links : gmap uuid LinkRow;
  checkpoints : gmap uuid CheckpointRow;
  inbound_jobs : gmap uuid InboundJobRow;
}.
#[export] Instance ExternalDB_eta : Eta ExternalDB := λ db,
  MkExternalDB (workspace db) (grants db) (links db) (checkpoints db) (inbound_jobs db).

(** A statement or block of the workspace component on its tables. *)
Definition on_workspace {A} (q : WorkspaceDB → result sqlx_error (A * WorkspaceDB)) (db : ExternalDB) :
    result sqlx_error (A * ExternalDB) :=
  match q (workspace db) with
  | Ok (a, w) => Ok (a, db <| workspace := w |>)
  | Err e => Err e
  end.
Definition in_workspace {R A} (m : Tx WorkspaceDB R A) : Tx ExternalDB R A := λ db n,
  match m (workspace db) n with
  | inl r => inl r
  | inr (a, w, n') => inr (a, db <| workspace := w |>, n')
  end.

(** The links and, with them, the set of linked projects. *)
Definition with_links (l : gmap uuid LinkRow) (db : ExternalDB) : ExternalDB :=
  db <| links := l |> <| workspace := (workspace db) <| external_links := dom l |> |>.

(** [projects.workspace_version]: [lock_workspace_version] takes the row's lock
    and reads what [project_workspace_version] reads. *)
Definition project_workspace_version (project : uuid) (db : ExternalDB) : option Z :=
  p_workspace_version <$> project_rows (workspace db) !! project.

(** * External repositories: the statements on links and queues

    linking/persistence.rs, checkpoint/persistence.rs and
    inbound/persistence.rs. *)
(** ** linking *)

Record NewRepositoryLink : Type := MkNewLink {
  nl_project : uuid; nl_provider : text; nl_repository_id : text; nl_full_path : text;
  nl_web_url : text; nl_clone_url : text; nl_default_branch : text; nl_checkpoint_branch : text;
  nl_actor : uuid; nl_now : time }.

Definition fresh_link (r : NewRepositoryLink) : LinkRow :=
  MkLinkRow (nl_provider r) (nl_repository_id r) (nl_full_path r) (nl_web_url r) (nl_clone_url r)
    (nl_default_branch r) (nl_checkpoint_branch r) LinkLinking 0 None None (nl_actor r) (nl_now r)
    (nl_now r) None None None None.

(** The unique index on provider and repository, and the foreign keys to the
    project and to the connector's grant. *)
Definition repository_taken (project : uuid) (provider repository : text) (db : ExternalDB) : bool :=
  exists_row (λ q l, negb (bool_decide (q = project)) && text_eqb (lk_provider l) provider
                     && text_eqb (lk_repository_id l) repository) (links db).
Definition link_references (r : NewRepositoryLink) (db : ExternalDB) : bool :=
  bool_decide (is_Some (project_rows (workspace db) !! nl_project r))
  && bool_decide (is_Some (grants db !! (nl_actor r, nl_provider r))).

Definition insert_repository_link (r : NewRepositoryLink) (db : ExternalDB) :
    result sqlx_error (unit * ExternalDB) :=
  if bool_decide (is_Some (links db !! nl_project r)) then Err KeyViolation else
  if repository_taken (nl_project r) (nl_provider r) (nl_repository_id r) db then Err UniqueViolation else
  if negb (link_references r db) then Err ForeignKeyViolation else
  Ok ((), with_links (<[nl_project r := fresh_link r]> (links db)) db).

Definition relinked (r : NewRepositoryLink) (l : LinkRow) : LinkRow :=
  l <| lk_full_path := nl_full_path r |> <| lk_web_url := nl_web_url r |>
    <| lk_clone_url := nl_clone_url r |> <| lk_default_branch := nl_default_branch r |>
    <| lk_checkpoint_branch := nl_checkpoint_branch r |> <| lk_status := LinkLinking |>
    <| lk_last_error := None |> <| lk_linked_by := nl_actor r |> <| lk_updated_at := nl_now r |>.
(** The value tells whether a row was written; an existing link to another
    repository is not. *)
Definition upsert_repository_link (r : NewRepositoryLink) (db : ExternalDB) :
    result sqlx_error (bool * ExternalDB) :=
  match links db !! nl_project r with
  | None =>
      match insert_repository_link r db with
      | Ok (_, db) => Ok (true, db)
      | Err e => Err e
      end
  | Some l =>
      if negb (text_eqb (lk_provider l) (nl_provider r)
               && text_eqb (lk_repository_id l) (nl_repository_id r)) then Ok (false, db) else
      if negb (link_references r db) then Err ForeignKeyViolation else
      Ok (true, with_links (<[nl_project r := relinked r l]> (links db)) db)
  end.

(** Deletes the link with the rows that refer to it. *)
Definition delete_repository_link (project : uuid) (db : ExternalDB) : option LinkRow * ExternalDB :=
  match links db !! project with
  | None => (None, db)
  | Some l =>
      let db := with_links (delete project (links db)) db in
      let w := workspace db in
      (Some l,
       db <| workspace := w
               <| external_authors := delete_rows (λ k _, bool_decide (k.1 = project)) (external_authors w) |>
               <| external_guests := delete_rows (λ k _, bool_decide (k.1 = project)) (external_guests w) |> |>
          <| checkpoints := delete project (checkpoints db) |>
          <| inbound_jobs := delete_rows (λ _ j, bool_decide (ij_project j = project)) (inbound_jobs db) |>)
  end.

Definition update_link (project : uuid) (f : LinkRow → LinkRow) (db : ExternalDB) : ExternalDB :=
  with_links (alter f project (links db)) db.

Definition linked_with (user : uuid) (provider : text) (l : LinkRow) : bool :=
  bool_decide (lk_linked_by l = user) && text_eqb (lk_provider l) provider.
Definition link_of (project : uuid) (user : uuid) (provider : text) (db : ExternalDB) : bool :=
  match links db !! project with Some l => linked_with user provider l | None => false end.

Definition reauthorized_link (now : time) (l : LinkRow) : LinkRow :=
  l <| lk_status := if 0 <? lk_synced_workspace_version l then LinkActive else LinkLinking |>
    <| lk_last_error := None |> <| lk_updated_at := now |>.
Definition resume_reauthorized_links (user : uuid) (provider : text) (now : time) (db : ExternalDB) :
    ExternalDB :=
  with_links (update_rows (λ _ l, linked_with user provider l
                                  && bool_decide (lk_status l = LinkReauthRequired))
                (λ _, reauthorized_link now) (links db)) db.

(** ** checkpoint *)

Record ClaimedCheckpoint : Type := MkClaimedCheckpoint { cc_project : uuid; cc_attempt_count : Z }.
Record CheckpointTarget : Type := MkCheckpointTarget {
  ct_synced_workspace_version : option Z; ct_last_remote_sha : option text;
  ct_inbound_active : bool; ct_queued_version : option Z }.
Record CheckpointLink : Type := MkCheckpointLink {
  cl_linked_by : uuid; cl_clone_url : text; cl_checkpoint_branch : text;
  cl_last_remote_sha : option text; cl_captured_workspace_version : option Z;
  cl_checkpoint_sha : option text; cl_captured_at : option time }.

Definition with_checkpoints (f : gmap uuid CheckpointRow → gmap uuid CheckpointRow) (db : ExternalDB) :
    ExternalDB := db <| checkpoints := f (checkpoints db) |>.

Definition checkpoint_operation_exists (project : uuid) (db : ExternalDB) : bool :=
  bool_decide (is_Some (checkpoints db !! project)).

Definition paused_for_authorization_checkpoint (q : CheckpointRow) : bool :=
  bool_decide (cq_state q = CheckpointPaused ∧ cq_last_error q = Some GitAuthorizationRequired).
Definition resumed_checkpoint (phase : ExternalGitCheckpointPhase) (now : time) (q : CheckpointRow) :
    CheckpointRow :=
  q <| cq_state := CheckpointPending |> <| cq_phase := phase |> <| cq_next_attempt_at := now |>
    <| cq_locked_at := None |> <| cq_last_error := None |> <| cq_updated_at := now |>.
Definition resume_reauthorized_checkpoints (user : uuid) (provider : text) (now : time) (db : ExternalDB) :
    ExternalDB :=
  with_checkpoints (update_rows
    (λ project q, link_of project user provider db && paused_for_authorization_checkpoint q)
    (λ _, resumed_checkpoint CheckpointQueued now)) db.

Definition checkpoint_due (provider : text) (now stale_before : time) (db : ExternalDB)
    (project : uuid) (q : CheckpointRow) : bool :=
  match links db !! project with
  | Some l =>
      text_eqb (lk_provider l) provider
      && match cq_state q with
         | CheckpointPending | CheckpointRetryWait => cq_next_attempt_at q <=? now
         | CheckpointProcessing =>
             match cq_locked_at q with Some locked => locked <=? stale_before | None => false end
         | CheckpointPaused => false
         end
  | None => false
  end.
Definition claimed_checkpoint (now : time) (q : CheckpointRow) : CheckpointRow :=
  q <| cq_state := CheckpointProcessing |> <| cq_phase := CheckpointSnapshot |>
    <| cq_attempt_count := cq_attempt_count q + 1 |> <| cq_last_attempt_at := Some now |>
    <| cq_locked_at := Some now |> <| cq_updated_at := now |>.
Definition claim_due (provider : text) (stale_before now : time) (db : ExternalDB) :
    result sqlx_error (option ClaimedCheckpoint * ExternalDB) :=
  match first_by (λ kq : uuid * CheckpointRow, cq_next_attempt_at kq.2) (λ kq, cq_created_at kq.2)
          (select (checkpoint_due provider now stale_before db) (checkpoints db)) with
  | Some (project, q) =>
      if i32_max <=? cq_attempt_count q then Err OutOfRange else
      let q := claimed_checkpoint now q in
      Ok (Some (MkClaimedCheckpoint project (cq_attempt_count q)),
          with_checkpoints (insert project q) db)
  | None => Ok (None, db)
  end.

Definition job_active (j : InboundJobRow) : bool :=
  match ij_state j with
  | JobPending | JobProcessing | JobRetryWait | JobPaused => true
  | JobFailed | JobSucceeded => false
  end.
Definition active_job_exists (project : uuid) (db : ExternalDB) : bool :=
  exists_row (λ _ j, bool_decide (ij_project j = project) && job_active j) (inbound_jobs db).

Definition target_for_update (project : uuid) (db : ExternalDB) : option CheckpointTarget :=
  (λ l, MkCheckpointTarget (Some (lk_synced_workspace_version l)) (lk_last_remote_sha l)
          (active_job_exists project db)
          (cq_target_workspace_version <$> checkpoints db !! project)) <$> links db !! project.

Definition requeued_checkpoint (now : time) (q : CheckpointRow) : CheckpointRow :=
  resumed_checkpoint (match cq_checkpoint_sha q with None => CheckpointQueued | Some _ => CheckpointPushGit end)
    now q.
Definition resume_queue (project : uuid) (now : time) : ExternalDB → ExternalDB :=
  with_checkpoints (alter (requeued_checkpoint now) project).
Definition clear_link_error (project : uuid) (now : time) : ExternalDB → ExternalDB :=
  update_link project (λ l, l <| lk_last_error := None |> <| lk_updated_at := now |>).

Definition insert_queue (project : uuid) (target : Z) (now : time) (db : ExternalDB) : option Z * ExternalDB :=
  if bool_decide (links db !! project = None) then (None, db) else
  let q := match checkpoints db !! project with
           | None => MkCheckpointRow target None None None now CheckpointPending CheckpointQueued 0
                       None None None now now
           | Some q => q <| cq_state := CheckpointPending |> <| cq_next_attempt_at := now |>
                         <| cq_locked_at := None |> <| cq_last_error := None |> <| cq_updated_at := now |>
           end in
  (Some (cq_target_workspace_version q), with_checkpoints (insert project q) db).

Definition checkpoint_link (project : uuid) (db : ExternalDB) : option CheckpointLink :=
  l ← links db !! project;
  q ← checkpoints db !! project;
  Some (MkCheckpointLink (lk_linked_by l) (lk_clone_url l) (lk_checkpoint_branch l)
    (lk_last_remote_sha l) (cq_captured_workspace_version q) (cq_checkpoint_sha q) (cq_captured_at q)).

Definition coauthor_ids (project connector : uuid) (captured_at : time) (db : ExternalDB) : list uuid :=
  take 100 ((λ kt, kt.1.2) <$> order_by (λ kt : (uuid * uuid) * time, kt.2)
    (select (λ k touched, bool_decide (k.1 = project) && negb (bool_decide (k.2 = connector))
                          && (touched <=? captured_at)) (external_authors (workspace db)))).
Definition guest_coauthors (project : uuid) (captured_at : time) (db : ExternalDB) : list text :=
  take 100 ((λ kt, kt.1.2) <$> order_by (λ kt : (uuid * text) * time, kt.2)
    (select (λ k touched, bool_decide (k.1 = project) && (touched <=? captured_at))
       (external_guests (workspace db)))).

Definition update_queue_phase (project : uuid) (phase : ExternalGitCheckpointPhase) (now : time) :
    ExternalDB → ExternalDB :=
  with_checkpoints (alter (λ q, q <| cq_phase := phase |> <| cq_updated_at := now |>) project).
Definition captured_checkpoint (version : Z) (sha : text) (captured_at : time) (q : CheckpointRow) :
    CheckpointRow :=
  q <| cq_phase := CheckpointPushGit |> <| cq_captured_workspace_version := Some version |>
    <| cq_checkpoint_sha := Some sha |> <| cq_captured_at := Some captured_at |>
    <| cq_updated_at := captured_at |>.
Definition capture_checkpoint (project : uuid) (version : Z) (sha : text) (captured_at : time) :
    ExternalDB → ExternalDB :=
  with_checkpoints (alter (captured_checkpoint version sha captured_at) project).

(** The updates of [complete_checkpoint]. *)
Definition synced_link (version : Z) (sha : text) (now : time) (l : LinkRow) : LinkRow :=
  l <| lk_status := LinkActive |>
    <| lk_synced_workspace_version := Z.max (lk_synced_workspace_version l) version |>
    <| lk_last_remote_sha := Some sha |> <| lk_last_error := None |> <| lk_updated_at := now |>.
Definition delete_credited_authors (project : uuid) (captured_at : time) (db : ExternalDB) : ExternalDB :=
  let w := workspace db in
  db <| workspace := w <| external_authors :=
    delete_rows (λ k touched, bool_decide (k.1 = project) && (touched <=? captured_at)) (external_authors w) |> |>.
Definition delete_credited_guests (project : uuid) (captured_at : time) (db : ExternalDB) : ExternalDB :=
  let w := workspace db in
  db <| workspace := w <| external_guests :=
    delete_rows (λ k touched, bool_decide (k.1 = project) && (touched <=? captured_at)) (external_guests w) |> |>.
Definition delete_checkpoint (project : uuid) : ExternalDB → ExternalDB := with_checkpoints (delete project).

(** The updates of [fail_checkpoint]. *)
Definition failed_checkpoint (state : ExternalGitCheckpointState) (next_attempt_at : time)
    (code : ExternalGitFailureCode) (now : time) (q : CheckpointRow) : CheckpointRow :=
  q <| cq_state := state |> <| cq_phase := CheckpointQueued |> <| cq_next_attempt_at := next_attempt_at |>
    <| cq_locked_at := None |> <| cq_last_error := Some code |> <| cq_updated_at := now |>.
Definition failed_link (status : ExternalGitLinkStatus) (code : ExternalGitFailureCode) (now : time)
    (l : LinkRow) : LinkRow :=
  l <| lk_status := status |> <| lk_last_error := Some code |> <| lk_updated_at := now |>.

(** ** inbound *)

Record ClaimedInboundJob : Type := MkClaimedJob {
  cj_id : uuid; cj_project : uuid; cj_attempt_count : Z; cj_phase : ExternalGitInboundPhase;
  cj_remote_sha : option text; cj_applied_workspace_version : option Z }.
Record AppliedInboundJob : Type := MkApplied { aj_remote_sha : text; aj_workspace_version : Z }.
Definition applied_state (c : ClaimedInboundJob) : option AppliedInboundJob :=
  match cj_phase c with
  | PhaseRevision =>
      sha ← cj_remote_sha c; version ← cj_applied_workspace_version c; Some (MkApplied sha version)
  | _ => None
  end.
Record InboundJobLink : Type := MkJobLink {
  jl_id : uuid; jl_project : uuid; jl_operation : ExternalGitInboundOperation;
  jl_source_branch : text; jl_requested_by : uuid; jl_linked_by : uuid; jl_clone_url : text;
  jl_full_path : text }.
Record InsertInboundJobRecord : Type := MkInsertJob {
  ins_job : uuid; ins_project : uuid; ins_provider : text; ins_operation : ExternalGitInboundOperation;
  ins_source_branch : text; ins_requested_by : uuid; ins_now : time }.

Definition with_jobs (f : gmap uuid InboundJobRow → gmap uuid InboundJobRow) (db : ExternalDB) : ExternalDB :=
  db <| inbound_jobs := f (inbound_jobs db) |>.

Definition resumed_job (now : time) (j : InboundJobRow) : InboundJobRow :=
  j <| ij_state := JobPending |> <| ij_phase := PhaseQueued |> <| ij_next_attempt_at := now |>
    <| ij_locked_at := None |> <| ij_last_error := None |> <| ij_updated_at := now |>.
Definition resume_reauthorized_jobs (user : uuid) (provider : text) (now : time) (db : ExternalDB) :
    ExternalDB :=
  with_jobs (update_rows (λ _ j, link_of (ij_project j) user provider db
      && bool_decide (ij_state j = JobPaused ∧ ij_last_error j = Some GitAuthorizationRequired))
    (λ _, resumed_job now)) db.

(** The partial unique index admits one active job per project; the foreign
    keys are to the link of the project with that provider, and to the user. *)
Definition insert_inbound_job (r : InsertInboundJobRecord) (db : ExternalDB) :
    result sqlx_error (unit * ExternalDB) :=
  if bool_decide (is_Some (inbound_jobs db !! ins_job r)) then Err KeyViolation else
  if active_job_exists (ins_project r) db then Err UniqueViolation else
  if negb match links db !! ins_project r with
          | Some l => text_eqb (lk_provider l) (ins_provider r)
          | None => false
          end
     || negb (known_user (Some (ins_requested_by r)) (workspace db)) then Err ForeignKeyViolation else
  Ok ((), with_jobs (insert (ins_job r)
    (MkInboundJobRow (ins_project r) (ins_provider r) (ins_operation r) (ins_source_branch r)
       (ins_requested_by r) JobPending PhaseQueued 0 (ins_now r) None None None None (ins_now r)
       (ins_now r) None None)) db).

Definition clear_last_import_error (project : uuid) (now : time) : ExternalDB → ExternalDB :=
  update_link project (λ l, l <| lk_last_import_error := None |> <| lk_updated_at := now |>).
Definition record_link_import (project : uuid) (branch sha : text) (now : time) : ExternalDB → ExternalDB :=
  update_link project (λ l, l <| lk_last_import_branch := Some branch |> <| lk_last_import_sha := Some sha |>
    <| lk_last_import_at := Some now |> <| lk_last_import_error := None |> <| lk_updated_at := now |>).
Definition update_link_import_error (project : uuid) (code : ExternalGitFailureCode) (now : time) :
    ExternalDB → ExternalDB :=
  update_link project (λ l, l <| lk_last_import_error := Some code |> <| lk_updated_at := now |>).

Definition inbound_job (id : uuid) (db : ExternalDB) : option InboundJobRow := inbound_jobs db !! id.
(** [order by created_at desc limit 1]. *)
Definition latest_inbound_job (project : uuid) (db : ExternalDB) : option (uuid * InboundJobRow) :=
  head (order_by (λ kj : uuid * InboundJobRow, - ij_created_at kj.2)
    (select (λ _ j, bool_decide (ij_project j = project)) (inbound_jobs db))).

Definition job_due (provider : text) (now stale_before : time) (_ : uuid) (j : InboundJobRow) : bool :=
  text_eqb (ij_provider j) provider
  && match ij_state j with
     | JobPending | JobRetryWait => ij_next_attempt_at j <=? now
     | JobProcessing =>
         match ij_locked_at j with Some locked => locked <=? stale_before | None => false end
     | JobPaused | JobFailed | JobSucceeded => false
     end.
(** The phase, and with it the applied revision, of a claim. *)
Definition resumable (j : InboundJobRow) : bool :=
  bool_decide (ij_phase j = PhaseRevision ∧ is_Some (ij_remote_sha j)
               ∧ is_Some (ij_applied_workspace_version j)).
Definition claimed_job (now : time) (j : InboundJobRow) : InboundJobRow :=
  let kept := resumable j in
  j <| ij_state := JobProcessing |> <| ij_phase := if kept then PhaseRevision else PhaseFetch |>
    <| ij_remote_sha := if kept then ij_remote_sha j else None |>
    <| ij_applied_workspace_version := if kept then ij_applied_workspace_version j else None |>
    <| ij_attempt_count := ij_attempt_count j + 1 |> <| ij_last_attempt_at := Some now |>
    <| ij_locked_at := Some now |> <| ij_updated_at := now |>.
Definition due_job (provider : text) (stale_before now : time) (db : ExternalDB) :
    option (uuid * InboundJobRow) :=
  first_by (λ kj : uuid * InboundJobRow, ij_next_attempt_at kj.2) (λ kj, ij_created_at kj.2)
    (select (job_due provider now stale_before) (inbound_jobs db)).
Definition claim_due_job (provider : text) (stale_before now : time) (db : ExternalDB) :
    result sqlx_error (option ClaimedInboundJob * ExternalDB) :=
  match due_job provider stale_before now db with
  | Some (id, j) =>
      if i32_max <=? ij_attempt_count j then Err OutOfRange else
      let j := claimed_job now j in
      Ok (Some (MkClaimedJob id (ij_project j) (ij_attempt_count j) (ij_phase j) (ij_remote_sha j)
                  (ij_applied_workspace_version j)), with_jobs (insert id j) db)
  | None => Ok (None, db)
  end.

(** An update of one job in a given state; the value tells whether it was. *)
Definition update_job (id : uuid) (P : InboundJobRow → bool) (f : InboundJobRow → InboundJobRow)
    (db : ExternalDB) : bool * ExternalDB :=
  match inbound_jobs db !! id with
  | Some j => if P j then (true, with_jobs (insert id (f j)) db) else (false, db)
  | None => (false, db)
  end.
Definition processing_job (j : InboundJobRow) : bool := bool_decide (ij_state j = JobProcessing).

Definition applied_job (sha : text) (version : Z) (now : time) (j : InboundJobRow) : InboundJobRow :=
  j <| ij_phase := PhaseRevision |> <| ij_remote_sha := Some sha |>
    <| ij_applied_workspace_version := Some version |> <| ij_locked_at := Some now |>
    <| ij_updated_at := now |>.
Definition mark_job_applied (id : uuid) (sha : text) (version : Z) (now : time) (db : ExternalDB) :
    result sqlx_error (unit * ExternalDB) :=
  match update_job id processing_job (applied_job sha version now) db with
  | (true, db) => Ok ((), db)
  | (false, _) => Err RowNotFound
  end.

Definition inbound_job_link (id : uuid) (db : ExternalDB) : option InboundJobLink :=
  j ← inbound_jobs db !! id;
  l ← links db !! ij_project j;
  Some (MkJobLink id (ij_project j) (ij_operation j) (ij_source_branch j) (ij_requested_by j)
          (lk_linked_by l) (lk_clone_url l) (lk_full_path l)).

Definition job_in_phase (phase : ExternalGitInboundPhase) (now : time) (j : InboundJobRow) : InboundJobRow :=
  j <| ij_phase := phase |> <| ij_locked_at := Some now |> <| ij_updated_at := now |>.
Definition update_job_phase (id : uuid) (phase : ExternalGitInboundPhase) (now : time) (db : ExternalDB) :
    ExternalDB := (update_job id processing_job (job_in_phase phase now) db).2.

Definition completed_job (now : time) (j : InboundJobRow) : InboundJobRow :=
  j <| ij_state := JobSucceeded |> <| ij_phase := PhaseComplete |> <| ij_last_error := None |>
    <| ij_locked_at := None |> <| ij_updated_at := now |> <| ij_completed_at := Some now |>.
Definition complete_job_row (id : uuid) (now : time) : ExternalDB → bool * ExternalDB :=
  update_job id (λ j, processing_job j && resumable j) (completed_job now).

Definition failed_job (state : ExternalGitJobState) (phase : ExternalGitInboundPhase)
    (next_attempt_at : time) (code : ExternalGitFailureCode) (now : time) (j : InboundJobRow) :
    InboundJobRow :=
  let kept := bool_decide (phase = PhaseRevision) in
  j <| ij_state := state |> <| ij_phase := phase |> <| ij_next_attempt_at := next_attempt_at |>
    <| ij_remote_sha := if kept then ij_remote_sha j else None |>
    <| ij_applied_workspace_version := if kept then ij_applied_workspace_version j else None |>
    <| ij_locked_at := None |> <| ij_last_error := Some code |> <| ij_updated_at := now |>
    <| ij_completed_at := if bool_decide (state = JobFailed) then Some now else None |>.
(** The check constraint: a job in the revision phase knows what was applied. *)
Definition revision_known (j : InboundJobRow) : bool :=
  negb (bool_decide (ij_phase j = PhaseRevision)) || resumable j.
Definition fail_job (id : uuid) (state : ExternalGitJobState) (phase : ExternalGitInboundPhase)
    (next_attempt_at : time) (code : ExternalGitFailureCode) (now : time) (db : ExternalDB) :
    result sqlx_error (bool * ExternalDB) :=
  let f := failed_job state phase next_attempt_at code now in
  match inbound_jobs db !! id with
  | Some j => if processing_job j && negb (revision_known (f j)) then Err CheckViolation
              else Ok (update_job id processing_job f db)
  | None => Ok (false, db)
  end.

(** * External repositories: links, status and reauthorization

    linking.rs, and reauthorization.rs, which takes up the work that was
    paused until a user authorizes the provider again. *)
(** ** Linking *)

(** What a provider tells about a repository. *)
Record RemoteRepositoryDetails : Type := MkRemoteRepository {
  rr_id : text; rr_full_path : text; rr_web_url : text; rr_default_branch : option text;
  rr_clone_url : text }.

Inductive PersistRepositoryLinkError : Type :=
| LinkNotConfigured
| InvalidProviderResponse
| RepositoryConflict
| LinkPersistence (source : sqlx_error).

Definition chosen_default_branch (details : RemoteRepositoryDetails) : text :=
  match trim <$> rr_default_branch details with
  | Some branch => if text_eqb branch [] then lit "main" else branch
  | None => lit "main"
  end.

(** [provider_id] is none where the provider is not configured, [valid] is the
    provider's verdict on its own answer; [checkpoint_branch] is the branch
    that the configured prefix gives the project. *)
Definition persist_external_git_repository_link (s : schedule) (now : time) (provider_id : option text)
    (valid : bool) (checkpoint_branch : text) (project actor : uuid) (details : RemoteRepositoryDetails)
    (db : ExternalDB) : result PersistRepositoryLinkError unit * ExternalDB :=
  match provider_id with
  | None => (Err LinkNotConfigured, db)
  | Some provider_id =>
      if negb valid then (Err InvalidProviderResponse, db) else
      match autocommit s 0 (upsert_repository_link
              (MkNewLink project provider_id (rr_id details) (rr_full_path details) (rr_web_url details)
                 (rr_clone_url details) (chosen_default_branch details) checkpoint_branch actor now)) db with
      | (Ok true, db) => (Ok (), db)
      | (Ok false, db) | (Err UniqueViolation, db) => (Err RepositoryConflict, db)
      | (Err e, db) => (Err (LinkPersistence e), db)
      end
  end.

Inductive UnlinkRepositoryError : Type :=
| UnlinkProjectNotFound
| ActiveOperation
| UnlinkPersistence (source : sqlx_error).

Definition unlink_repository_link (s : schedule) (project : uuid) :
    ExternalDB → result UnlinkRepositoryError (option LinkRow) * ExternalDB :=
  let fail e := Err (UnlinkPersistence e) in
  transact s fail (
    version ← exec s fail (reads (project_workspace_version project));
    match version with
    | None => early (Err UnlinkProjectNotFound)
    | Some _ =>
        checkpoint_active ← exec s fail (reads (checkpoint_operation_exists project));
        inbound_active ← exec s fail (reads (active_job_exists project));
        if checkpoint_active || inbound_active then early (Err ActiveOperation) else
        deleted ← exec s fail (λ db, Ok (delete_repository_link project db));
        mret (Ok deleted)
    end).

(** ** Status *)

Inductive ExternalGitProjectState : Type :=
| StateUnlinked | StateLinking | StateActive | StateReauthRequired | StateConflict | StateError
| StateSyncing | StateRetryWait | StatePending | StateDirty.

Definition state_of_link (status : ExternalGitLinkStatus) : ExternalGitProjectState :=
  match status with
  | LinkLinking => StateLinking
  | LinkActive => StateActive
  | LinkReauthRequired => StateReauthRequired
  | LinkConflict => StateConflict
  | LinkError => StateError
  end.

Record ProjectStatusRecord : Type := MkStatus {
  ps_repository_id : option text; ps_synced_workspace_version : Z;
  ps_link_status : option ExternalGitLinkStatus; ps_last_remote_sha : option text;
  ps_grant_status : option ExternalGitGrantStatus; ps_queue_state : option ExternalGitCheckpointState;
  ps_next_attempt_at : option time }.

(** The left joins of [project_status]; columns that are passed on unchanged
    are left out. *)
Definition project_status (project : uuid) (db : ExternalDB) : option ProjectStatusRecord :=
  (λ l, MkStatus (Some (lk_repository_id l)) (lk_synced_workspace_version l) (Some (lk_status l))
          (lk_last_remote_sha l) (og_status <$> grants db !! (lk_linked_by l, lk_provider l))
          (cq_state <$> checkpoints db !! project) (cq_next_attempt_at <$> checkpoints db !! project))
  <$> links db !! project.
Definition unlinked_status : ProjectStatusRecord := MkStatus None 0 None None None None None.

Definition derive_project_state (st : ProjectStatusRecord) (linked : bool) (workspace_version : Z) :
    ExternalGitProjectState :=
  if negb linked then StateUnlinked else
  match ps_grant_status st with
  | Some GrantActive =>
      match ps_queue_state st with
      | Some CheckpointProcessing => StateSyncing
      | Some CheckpointRetryWait => StateRetryWait
      | Some CheckpointPending => StatePending
      | _ =>
          match ps_link_status st with
          | Some LinkConflict => StateConflict
          | Some LinkReauthRequired => StateReauthRequired
          | status =>
              if bool_decide (ps_last_remote_sha st = None)
                 || (ps_synced_workspace_version st <? workspace_version)
              then StateDirty
              else match status with Some status => state_of_link status | None => StateError end
          end
      end
  | _ => StateReauthRequired
  end.

(** [external_git_project_status]: none where the project is not found. *)
Definition external_git_project_status (project : uuid) (db : ExternalDB) :
    option (ExternalGitProjectState * option time) :=
  (λ version,
     let st := default unlinked_status (project_status project db) in
     (derive_project_state st (bool_decide (is_Some (ps_repository_id st))) version,
      match ps_queue_state st with Some CheckpointRetryWait => ps_next_attempt_at st | _ => None end))
  <$> project_workspace_version project db.

(** ** Reauthorization *)

Definition resume_work {R} (s : schedule) (fail : sqlx_error → R) (user : uuid) (provider : text)
    (now : time) : Tx ExternalDB R unit :=
  _ ← exec s fail (writes (resume_reauthorized_links user provider now));
  _ ← exec s fail (writes (resume_reauthorized_checkpoints user provider now));
  exec s fail (writes (resume_reauthorized_jobs user provider now)).
