(* ===== verification/ExternalImport.v ===== *)
(** * External repositories: the content of a checkout, and the questions to the outside

    inbound/import.rs: a checked out repository is walked, every file's path
    and size checked, and its files divided into documents and assets. *)
From S2P Require Import Prelude Store Text Paths AccessModel WorkspaceModel WorkspaceProjects Programs.
From S2P Require Import ExternalStatements.

Open Scope Z_scope.

(** ** What the file system shows

    A name is the text of its bytes, or none where they are not UTF-8; any
    access may fail. *)
Inductive TreeEntry : Type :=
| EntryUnreadable
| EntrySymlink (name : option text)
| EntrySpecial (name : option text)
| EntryFile (name : option text) (content : option bytes)
| EntryDirectory (name : option text) (entries : option (list TreeEntry)).

Inductive ExternalGitImportFailure : Type :=
| ImportFilesystem
| SymlinkNotSupported
| SubmoduleNotSupported
| SpecialFileNotSupported
| FileLimitExceeded
| FileSizeLimitExceeded
| TotalSizeLimitExceeded
| ImportInvalidPath
| LfsObjectMissing
| ImportEmpty
| TextEncodingInvalid
| MissingEntryFile.
Definition import_failure_code (f : ExternalGitImportFailure) : ExternalGitFailureCode :=
  match f with
  | ImportFilesystem => RepositoryContentUnreadable
  | SymlinkNotSupported => RepositorySymlinksNotSupported
  | SubmoduleNotSupported => RepositorySubmodulesNotSupported
  | SpecialFileNotSupported => RepositorySpecialFilesNotSupported
  | FileLimitExceeded => RepositoryFileLimitExceeded
  | FileSizeLimitExceeded => RepositoryFileSizeLimitExceeded
  | TotalSizeLimitExceeded => RepositoryTotalSizeLimitExceeded
  | ImportInvalidPath => RepositoryPathInvalid
  | LfsObjectMissing => RepositoryLfsObjectMissing
  | ImportEmpty => RepositoryIsEmpty
  | TextEncodingInvalid => RepositoryTextEncodingInvalid
  | MissingEntryFile => RepositoryMissingEntryFile
  end.

Record ImportLimits : Type := MkLimits { max_files : nat; max_file_bytes : Z; max_total_bytes : Z }.
Definition default_import_limits : ImportLimits := MkLimits 4096 (64 * 1024 * 1024) (512 * 1024 * 1024).

Record CollectedFile : Type := MkCollected { cf_path : text; cf_content : bytes }.

Definition lfs_pointer_prefix : bytes := lit "version https://git-lfs.github.com/spec/v1" ++ [10%N].

Abbreviation collected := (result ExternalGitImportFailure (list CollectedFile * Z)).

(** ** collect_files *)

(** The path of an entry relative to the root; none where a name is not UTF-8. *)
Definition entry_path (parent : option text) (name : option text) : option text :=
  match parent, name with
  | Some [], Some name => Some name
  | Some parent, Some name => Some (parent ++ slash :: name)
  | _, _ => None
  end.

Section collect.
Context (limits : ImportLimits).

(** [path] is the entry's path, if it is text. *)
Definition collect_file (path : option text) (content : option bytes) (files : list CollectedFile)
    (total_bytes : Z) : collected :=
  if (max_files limits <=? length files)%nat then Err FileLimitExceeded else
  match content with
  | None => Err ImportFilesystem
  | Some content =>
      let size := Z.of_nat (length content) in
      if max_file_bytes limits <? size then Err FileSizeLimitExceeded else
      if u64_max <? total_bytes + size then Err TotalSizeLimitExceeded else
      let total_bytes := total_bytes + size in
      if max_total_bytes limits <? total_bytes then Err TotalSizeLimitExceeded else
      match path with
      | None => Err ImportInvalidPath
      | Some relative =>
          match sanitize_project_path relative with
          | Err _ => Err ImportInvalidPath
          | Ok clean_path =>
              if negb (text_eqb clean_path relative) then Err ImportInvalidPath else
              if text_eqb clean_path (lit ".gitmodules") || ends_with (lit "/.gitmodules") clean_path
              then Err SubmoduleNotSupported else
              if starts_with lfs_pointer_prefix (take 64 content) then Err LfsObjectMissing else
              Ok (files ++ [MkCollected clean_path content], total_bytes)
          end
      end
  end.

Fixpoint collect_entry (root : bool) (parent : option text) (e : TreeEntry)
    (files : list CollectedFile) (total_bytes : Z) : collected :=
  match e with
  | EntryUnreadable => Err ImportFilesystem
  | EntrySymlink _ => Err SymlinkNotSupported
  | EntrySpecial _ => Err SpecialFileNotSupported
  | EntryFile name content => collect_file (entry_path parent name) content files total_bytes
  | EntryDirectory name entries =>
      if bool_decide (name = Some (lit ".git")) then
        if root then Ok (files, total_bytes) else Err SubmoduleNotSupported
      else match entries with
           | None => Err ImportFilesystem
           | Some entries =>
               (fix walk (l : list TreeEntry) files total_bytes {struct l} : collected :=
                  match l with
                  | [] => Ok (files, total_bytes)
                  | e :: l => match collect_entry false (entry_path parent name) e files total_bytes with
                              | Ok (files, total_bytes) => walk l files total_bytes
                              | Err f => Err f
                              end
                  end) entries files total_bytes
           end
  end.

Fixpoint collect_entries (root : bool) (parent : option text) (l : list TreeEntry)
    (files : list CollectedFile) (total_bytes : Z) : collected :=
  match l with
  | [] => Ok (files, total_bytes)
  | e :: l => match collect_entry root parent e files total_bytes with
              | Ok (files, total_bytes) => collect_entries root parent l files total_bytes
              | Err f => Err f
              end
  end.
End collect.

(** ** prepare_external_git_import *)

Record ImportedExternalGitDocument : Type := MkImportedDocument { id_path : text; id_source : bytes }.
Record ImportedExternalGitAsset : Type := MkImportedAsset {
  ia_path : text; ia_source : bytes; ia_content_type : text; ia_size_bytes : Z }.
Record PreparedExternalGitImport : Type := MkPrepared {
  pi_documents : list ImportedExternalGitDocument; pi_directories : list text;
  pi_assets : list ImportedExternalGitAsset; pi_entry_file_path : text; pi_remote_sha : text }.

Definition collected_le : relation CollectedFile := λ a b, text_le (cf_path a) (cf_path b).
#[export] Instance collected_le_dec : RelDecision collected_le.
Proof. intros a b. unfold collected_le. apply _. Defined.

Record Division : Type := MkDivision {
  dv_documents : list ImportedExternalGitDocument; dv_assets : list ImportedExternalGitAsset;
  dv_directories : gset text }.

(** [guess_content_type] is the mime_guess crate's. *)
Definition divide_file (guess_content_type : text → text) (file : CollectedFile) (d : Division) :
    result ExternalGitImportFailure Division :=
  let path := cf_path file in
  let directories := collect_parent_directories path (dv_directories d) in
  if is_document_text_path path then
    match from_utf8 (cf_content file) with
    | None => Err TextEncodingInvalid
    | Some _ => Ok (MkDivision (dv_documents d ++ [MkImportedDocument path (cf_content file)])
                      (dv_assets d) directories)
    end
  else
    let size := Z.of_nat (length (cf_content file)) in
    if i64_max <? size then Err FileSizeLimitExceeded else
    Ok (MkDivision (dv_documents d)
          (dv_assets d ++ [MkImportedAsset path (cf_content file) (guess_content_type path) size])
          directories).
Fixpoint divide_files (guess_content_type : text → text) (files : list CollectedFile) (d : Division) :
    result ExternalGitImportFailure Division :=
  match files with
  | [] => Ok d
  | file :: files => match divide_file guess_content_type file d with
                     | Ok d => divide_files guess_content_type files d
                     | Err f => Err f
                     end
  end.

Definition prepare_external_git_import (guess_content_type : text → text) (limits : ImportLimits)
    (checkout : list TreeEntry) (type : ProjectType) (current_entry : text) (remote_sha : text) :
    result ExternalGitImportFailure PreparedExternalGitImport :=
  match collect_entries limits true (Some []) checkout [] 0 with
  | Err f => Err f
  | Ok ([], _) => Err ImportEmpty
  | Ok (files, _) =>
      match divide_files guess_content_type (stable_sort collected_le files) (MkDivision [] [] ∅) with
      | Err f => Err f
      | Ok d =>
          match choose_entry_file_path type current_entry (id_path <$> dv_documents d) with
          | None => Err MissingEntryFile
          | Some entry =>
              Ok (MkPrepared (dv_documents d) (sort_text (elements (dv_directories d))) (dv_assets d)
                    entry remote_sha)
          end
      end
  end.

(** * External repositories: Git commands and their failures

    command.rs and git_command.rs: what a Git command that fails means for the
    work that ran it.  The commands themselves run outside ([RunCommand] of
    the programs); an [ExternalGitEvent] is a question a worker asks the outside. *)
Inductive ExternalGitCommandError : Type :=
| CommandAuthorizationRequired
| CommandPermissionDenied
| CommandRepositoryNotFound
| CommandBranchMoved
| CommandSetup
| CommandSpawn
| CommandExecution
| CommandInterrupted
| CommandTimeout (timeout_seconds : Z)
| CommandRemoteRejected (exit_status : option Z).
Inductive ProviderAccessTokenError : Type :=
| TokenNotConfigured
| TokenNotConnected
| TokenReauthorizationRequired
| TokenPersistence
| TokenCipher
| TokenRefreshUnavailable
| TokenInvalidRefreshResponse
| TokenConcurrentRefreshUnavailable.
Inductive ExternalGitCommandFailure : Type :=
| CredentialFailure (source : ProviderAccessTokenError)
| CommandFailure (source : ExternalGitCommandError).

Definition command_kind (e : ExternalGitCommandError) : ExternalGitCommandFailureKind :=
  match e with
  | CommandAuthorizationRequired => ReauthRequired
  | CommandPermissionDenied | CommandRepositoryNotFound => Forbidden
  | CommandBranchMoved => Conflict
  | _ => Retryable
  end.
Definition command_code (e : ExternalGitCommandError) : ExternalGitFailureCode :=
  match e with
  | CommandAuthorizationRequired => GitAuthorizationRequired
  | CommandPermissionDenied => GitPermissionDenied
  | CommandRepositoryNotFound => GitRepositoryNotFound
  | CommandBranchMoved => CheckpointBranchMoved
  | CommandSetup | CommandSpawn | CommandExecution | CommandInterrupted => GitCommandFailed
  | CommandTimeout _ => GitCommandTimeout
  | CommandRemoteRejected _ => GitProviderUnavailable
  end.
Definition failure_kind (f : ExternalGitCommandFailure) : ExternalGitCommandFailureKind :=
  match f with
  | CredentialFailure (TokenNotConnected | TokenReauthorizationRequired) => ReauthRequired
  | CredentialFailure _ => Retryable
  | CommandFailure e => command_kind e
  end.
Definition failure_code (f : ExternalGitCommandFailure) : ExternalGitFailureCode :=
  match f with
  | CredentialFailure (TokenNotConnected | TokenReauthorizationRequired) => GitAuthorizationRequired
  | CredentialFailure _ => GitProviderUnavailable
  | CommandFailure e => command_code e
  end.

Definition contains_any (patterns : list string) (t : text) : bool :=
  existsb (λ pattern, contains_text (lit pattern) t) patterns.

Definition classify_git_failure (stderr : text) (exit_status : option Z) : ExternalGitCommandError :=
  let lower := to_ascii_lowercase stderr in
  if contains_any ["non-fast-forward"; "fetch first"; "failed to push some refs"]%string lower
  then CommandBranchMoved else
  if contains_any ["authentication failed"; "http basic: access denied"; "could not read username"]%string
       lower then CommandAuthorizationRequired else
  if contains_any ["repository not found"; "requested url returned error: 404"]%string lower
  then CommandRepositoryNotFound else
  if contains_any ["403"; "forbidden"; "not allowed to push"]%string lower
  then CommandPermissionDenied else CommandRemoteRejected exit_status.

Definition is_ascii_hexdigit (c : N) : bool :=
  in_range 48 57 c || in_range 97 102 c || in_range 65 70 c.

(** ** What the workers ask *)

(** The Git processes, the components that are not modelled here (with what
    they do to the workspace tables in between), the file system and the
    object store. *)
Inductive ExternalGitEvent : Type → Type :=
| RunCommand (user : uuid) (repository_path : text) (args : list text) :
    ExternalGitEvent (result ExternalGitCommandFailure text)
| FlushProjectCollaboration (project : uuid) : ExternalGitEvent (result unit unit)
| FlushPendingServerCommit (project actor : uuid) (version : option Z) (summary : option text) :
    ExternalGitEvent (result unit unit)
| FindCommitIdentity (user : uuid) : ExternalGitEvent (result unit (option (text * text)))
| ListCommitIdentities (users : list uuid) : ExternalGitEvent (result unit (list (uuid * (text * text))))
| EnsureRepository (project : uuid) : ExternalGitEvent (result unit (option text))
| MarkRepositoryPending (project : uuid) : ExternalGitEvent (result unit unit)
| CreateCheckpointCommit (repository branch : text) (parent : option text) (message : text)
    (connector : text * text) : ExternalGitEvent (result unit text)
| MakeCheckout : ExternalGitEvent (result unit text)
| ScanCheckout (repository : text) : ExternalGitEvent (list TreeEntry)
| NewUuid : ExternalGitEvent uuid
| NewDocumentIds : ExternalGitEvent (text → uuid)
| PutObject (key content_type : text) (content : bytes) : ExternalGitEvent (result unit unit)
| ReadText (path : text) : ExternalGitEvent (result unit text)
| ReadBytes (path : text) : ExternalGitEvent (result unit bytes)
| CleanupObjects (keys : list text) : ExternalGitEvent unit
| DeleteQueuedObjects (keys : list text) : ExternalGitEvent unit
| InvalidateProject (project : uuid) (epoch : Z) : ExternalGitEvent unit
| RecordEvent (user : uuid) (kind : string) (job : uuid) : ExternalGitEvent unit.

(** The programs of the workers. *)
Abbreviation WorkerProg := (Prog ExternalDB ExternalGitEvent).
Definition command {X} (e : ExternalGitEvent X) : WorkerProg X := ask e.
Definition query {X} (q : time → ExternalDB → result sqlx_error (X * ExternalDB)) :
    WorkerProg (result sqlx_error X) := statement q.
Definition commit {X} (q : schedule → time → ExternalDB → X * ExternalDB) : WorkerProg X := transaction q.
