(* ===== verification/ExternalCheckpoints.v ===== *)
(** * External repositories: outbound checkpoints

    checkpoint/enqueue.rs, lifecycle.rs and worker.rs: a checkpoint of the
    workspace is committed locally, captured in the queue, pushed to its branch
    of the linked repository, and completed.  The worker is a program
    ([Programs]) over the queue's statements and the events of
    [ExternalCommands]; a claim that outlives its ten minutes is claimed again. *)
From S2P Require Import Prelude Store Text Programs Paths AccessModel WorkspaceModel.
From S2P Require Import ExternalStatements ExternalImport.

Open Scope Z_scope.

(** ** enqueue *)

Inductive EnqueueCheckpointResult : Type :=
| NotLinked
| InboundActive
| UpToDate (version : Z)
| QueuedCheckpoint (version : Z).

Definition enqueue_checkpoint (s : schedule) (now : time) (project : uuid) :
    ExternalDB → result sqlx_error EnqueueCheckpointResult * ExternalDB :=
  transact s Err (
    version ← exec s Err (reads (project_workspace_version project));
    match version with
    | None => mret (Ok NotLinked)
    | Some version =>
        target ← exec s Err (reads (target_for_update project));
        match target with
        | None => mret (Ok NotLinked)
        | Some target =>
            if ct_inbound_active target then mret (Ok InboundActive) else
            match ct_synced_workspace_version target, ct_queued_version target with
            | None, _ => mret (Ok NotLinked)
            | Some _, Some queued =>
                _ ← exec s Err (writes (resume_queue project now));
                _ ← exec s Err (writes (clear_link_error project now));
                mret (Ok (QueuedCheckpoint queued))
            | Some synced, None =>
                if bool_decide (is_Some (ct_last_remote_sha target)) && (version <=? synced)
                then mret (Ok (UpToDate version)) else
                queued ← exec s Err (λ db, Ok (insert_queue project version now db));
                mret (Ok (match queued with Some v => QueuedCheckpoint v | None => NotLinked end))
            end
        end
    end).

(** ** lifecycle *)

Definition retry_delay_seconds (attempt_count : Z) : Z :=
  if attempt_count <=? 1 then 10 else
  if attempt_count =? 2 then 60 else
  if attempt_count =? 3 then 300 else
  if attempt_count =? 4 then 1800 else 3600.

Definition transition (kind : ExternalGitCommandFailureKind) (attempt_count : Z) (now : time) :
    ExternalGitCheckpointState * ExternalGitLinkStatus * time :=
  match kind with
  | ReauthRequired => (CheckpointPaused, LinkReauthRequired, now)
  | Forbidden => (CheckpointPaused, LinkError, now)
  | Conflict => (CheckpointPaused, LinkConflict, now)
  | Retryable => (CheckpointRetryWait, LinkError, now + seconds (retry_delay_seconds attempt_count))
  end.

Definition complete_checkpoint (s : schedule) (now : time) (project : uuid) (version : Z) (sha : text) :
    ExternalDB → result sqlx_error unit * ExternalDB :=
  transact s Err (
    _ ← exec s Err (writes (update_link project (synced_link version sha now)));
    queue ← exec s Err (reads (λ db, checkpoints db !! project));
    match queue with
    | None => mret (Ok ())
    | Some q =>
        _ ← match cq_captured_at q with
            | Some captured_at =>
                _ ← exec s Err (writes (delete_credited_authors project captured_at));
                exec s Err (writes (delete_credited_guests project captured_at))
            | None => mret ()
            end;
        _ ← exec s Err (writes (delete_checkpoint project));
        mret (Ok ())
    end).

Definition fail_checkpoint (s : schedule) (now : time) (claimed : ClaimedCheckpoint)
    (kind : ExternalGitCommandFailureKind) (code : ExternalGitFailureCode) :
    ExternalDB → result sqlx_error unit * ExternalDB :=
  let '(state, status, next_attempt_at) := transition kind (cc_attempt_count claimed) now in
  let project := cc_project claimed in
  transact s Err (
    _ ← exec s Err (writes (update_link project (failed_link status code now)));
    _ ← exec s Err (writes (with_checkpoints
          (alter (failed_checkpoint state next_attempt_at code now) project)));
    mret (Ok ())).

(** ** worker *)

Inductive CheckpointError : Type :=
| LinkMissing
| ProjectMissing
| LocalRepositoryMissing
| ConnectorIdentityMissing
| CheckpointPersistence
| CheckpointIdentity
| WorkspaceFlush
| CollaborationProjection
| CheckpointGit
| ProviderCommand (source : ExternalGitCommandFailure)
| BranchMoved
| PushVerificationFailed.

Definition checkpoint_error_kind (e : CheckpointError) : ExternalGitCommandFailureKind :=
  match e with
  | ProviderCommand source => failure_kind source
  | BranchMoved => Conflict
  | _ => Retryable
  end.
Definition checkpoint_error_code (e : CheckpointError) : ExternalGitFailureCode :=
  match e with
  | ProviderCommand source => failure_code source
  | BranchMoved => CheckpointBranchMoved
  | PushVerificationFailed => GitPushVerificationFailed
  | LinkMissing => ExternalGitLinkMissing
  | _ => GitCheckpointFailed
  end.

(** The first word of the first line that has one. *)
Definition parse_ls_remote (output : text) : option text :=
  word ← head (split_whitespace output);
  if (length word =? 40)%nat && forallb is_ascii_hexdigit word then Some (to_ascii_lowercase word) else None.

Definition ls_remote_args (link : CheckpointLink) : list text :=
  [lit "ls-remote"; lit "--refs"; cl_clone_url link; lit "refs/heads/" ++ cl_checkpoint_branch link].

(** [external_git_command_timeout_seconds] bounds the processes; the timeout is
    one of the failures a command may have. *)
Definition remote_checkpoint_sha (link : CheckpointLink) (repository : text) :
    WorkerProg (result ExternalGitCommandFailure (option text)) :=
  output ← command (RunCommand (cl_linked_by link) repository (ls_remote_args link));
  mret (match output with Ok output => Ok (parse_ls_remote output) | Err e => Err e end).

Definition base_matches (expected actual : option text) : bool :=
  match expected, actual with
  | None, None => true
  | Some expected, Some actual => eq_ignore_ascii_case expected actual
  | _, _ => false
  end.

Definition push_args (link : CheckpointLink) (sha : text) : list text :=
  [lit "push"; lit "--porcelain"; lit "-o"; lit "ci.skip"; cl_clone_url link;
   sha ++ lit ":refs/heads/" ++ cl_checkpoint_branch link].

Definition push_checkpoint_ref (link : CheckpointLink) (repository sha : text) :
    WorkerProg (result CheckpointError unit) :=
  remote_sha ←? remote_checkpoint_sha link repository | ProviderCommand;
  if bool_decide (remote_sha = Some sha) then mret (Ok ()) else
  if negb (base_matches (cl_last_remote_sha link) remote_sha) then mret (Err BranchMoved) else
  _ ←? command (RunCommand (cl_linked_by link) repository (push_args link sha)) | ProviderCommand;
  verified ←? remote_checkpoint_sha link repository | ProviderCommand;
  if bool_decide (verified = Some sha) then mret (Ok ()) else mret (Err PushVerificationFailed).

(** The trailers of the commit message: the identities that are found of the
    users, in the order they touched the project, then the guests. *)
Definition coauthors (ids : list uuid) (found : list (uuid * (text * text))) : list (text * text) :=
  omap (λ user, snd <$> list_find (λ row, row.1 = user) found ≫= λ p, Some p.2) ids.

Record CheckpointContext : Type := MkContext {
  cx_link : CheckpointLink; cx_repository : text; cx_workspace_version : Z; cx_connector : text * text }.

Definition load_checkpoint_context (project : uuid) : WorkerProg (result CheckpointError CheckpointContext) :=
  let persistence := λ _ : sqlx_error, CheckpointPersistence in
  link ←? query (λ _, reads (checkpoint_link project)) | persistence;
  match link with
  | None => mret (Err LinkMissing)
  | Some link =>
      version ←? query (λ _, reads (project_workspace_version project)) | persistence;
      match version with
      | None => mret (Err ProjectMissing)
      | Some version =>
          connector ←? command (FindCommitIdentity (cl_linked_by link)) | λ _, CheckpointIdentity;
          match connector with
          | None => mret (Err ConnectorIdentityMissing)
          | Some connector =>
              repository ←? command (EnsureRepository project) | λ _, CheckpointPersistence;
              match repository with
              | None => mret (Err LocalRepositoryMissing)
              | Some repository => mret (Ok (MkContext link repository version connector))
              end
          end
      end
  end.

Definition push_captured_checkpoint (project : uuid) (link : CheckpointLink) (repository : text)
    (version : Z) (sha : text) : WorkerProg (result CheckpointError (Z * text)) :=
  _ ←? query (λ now, writes (update_queue_phase project CheckpointPushGit now)) | λ _, CheckpointPersistence;
  _ ←? push_checkpoint_ref link repository sha | id;
  mret (Ok (version, sha)).

(** [message] builds the commit message from the version, the coauthors and
    the guests. *)
Definition create_and_push_checkpoint (message : Z → list (text * text) → list text → text)
    (project : uuid) (context : CheckpointContext) : WorkerProg (result CheckpointError (Z * text)) :=
  let persistence := λ _ : sqlx_error, CheckpointPersistence in
  let link := cx_link context in
  let version := cx_workspace_version context in
  captured_at ← commit (λ _ now db, (now, db));
  _ ←? command (MarkRepositoryPending project) | λ _, CheckpointPersistence;
  _ ←? query (λ now, writes (update_queue_phase project CheckpointCommitLocal now)) | persistence;
  _ ←? command (FlushPendingServerCommit project (cl_linked_by link) None None) | λ _, WorkspaceFlush;
  users ←? query (λ _, reads (coauthor_ids project (cl_linked_by link) captured_at)) | persistence;
  guests ←? query (λ _, reads (guest_coauthors project captured_at)) | persistence;
  identities ←? command (ListCommitIdentities users) | λ _, CheckpointIdentity;
  sha ←? command (CreateCheckpointCommit (cx_repository context) (cl_checkpoint_branch link)
                (cl_last_remote_sha link) (message version (coauthors users identities) guests)
                (cx_connector context)) | λ _, CheckpointGit;
  _ ←? query (λ _, writes (capture_checkpoint project version sha captured_at)) | persistence;
  _ ←? push_checkpoint_ref link (cx_repository context) sha | id;
  mret (Ok (version, sha)).

Definition process_checkpoint (message : Z → list (text * text) → list text → text) (project : uuid) :
    WorkerProg (result CheckpointError (Z * text)) :=
  _ ←? command (FlushProjectCollaboration project) | λ _, CollaborationProjection;
  context ←? load_checkpoint_context project | id;
  let link := cx_link context in
  match cl_captured_workspace_version link, cl_checkpoint_sha link with
  | Some version, Some sha => push_captured_checkpoint project link (cx_repository context) version sha
  | _, _ => create_and_push_checkpoint message project context
  end.

(** What the worker does with a claim. *)
Definition run_checkpoint (message : Z → list (text * text) → list text → text)
    (claimed : ClaimedCheckpoint) : WorkerProg unit :=
  outcome ← process_checkpoint message (cc_project claimed);
  match outcome with
  | Ok (version, sha) =>
      _ ← commit (λ s now, complete_checkpoint s now (cc_project claimed) version sha); mret ()
  | Err e =>
      _ ← commit (λ s now, fail_checkpoint s now claimed (checkpoint_error_kind e)
                                  (checkpoint_error_code e)); mret ()
  end.
