(* ===== verification/ExternalInbound.v ===== *)
(** * External repositories: inbound jobs and their worker

    inbound/branch.rs, job_lifecycle.rs, job_queries.rs, content.rs,
    sync_enqueue.rs and import_creation.rs: a job to import or synchronise a
    repository is queued, claimed, applied in one transaction and completed in
    another; what a failure makes of it. *)
From S2P Require Import Prelude Store Text Paths AccessModel WorkspaceModel WorkspaceStatements WorkspaceProjects.
From S2P Require Import Collaboration Programs ExternalStatements ExternalImport.

Open Scope Z_scope.

(** ** branch *)

Definition MAX_SOURCE_BRANCH_BYTES : Z := 255.

(** [name_is_valid] is git2's verdict on branch names. *)
Definition parse_source_branch (name_is_valid : text → bool) (raw : text) : option text :=
  let value := trim raw in
  if text_eqb value [] || (MAX_SOURCE_BRANCH_BYTES <? Z.of_nat (length (utf8 value)))
     || starts_with (lit "-") value || negb (name_is_valid value)
  then None else Some value.

(** ** job_lifecycle *)

Inductive InboundFailurePolicy : Type :=
| PreserveProcessingLease
| PauseForReauthorization
| RetryFrom (phase : ExternalGitInboundPhase)
| FailAt (phase : ExternalGitInboundPhase).
Record InboundFailure : Type := MkInboundFailure {
  if_policy : InboundFailurePolicy; if_error_code : ExternalGitFailureCode }.
Record RecordedTransition : Type := MkTransition {
  tr_state : ExternalGitJobState; tr_retry_phase : ExternalGitInboundPhase; tr_next_attempt_at : time }.

Definition from_command (kind : ExternalGitCommandFailureKind) (code : ExternalGitFailureCode) :
    InboundFailure :=
  MkInboundFailure match kind with
                   | ReauthRequired => PauseForReauthorization
                   | Retryable => RetryFrom PhaseQueued
                   | Forbidden | Conflict => FailAt PhaseQueued
                   end code.
Definition retryable : ExternalGitFailureCode → InboundFailure := MkInboundFailure (RetryFrom PhaseQueued).
Definition terminal : ExternalGitFailureCode → InboundFailure := MkInboundFailure (FailAt PhaseQueued).
Definition retryable_from_revision : ExternalGitFailureCode → InboundFailure :=
  MkInboundFailure (RetryFrom PhaseRevision).
Definition ambiguous_apply : InboundFailure := MkInboundFailure PreserveProcessingLease RepositoryApplyFailed.

Definition retry_delay_seconds (attempt_count : Z) : Z :=
  if attempt_count <=? 1 then 10 else
  if attempt_count =? 2 then 60 else
  if attempt_count =? 3 then 300 else
  if attempt_count =? 4 then 1800 else 3600.

(** None preserves the lease of the claim. *)
Definition failure_transition (f : InboundFailure) (attempt_count : Z) (now : time) :
    option RecordedTransition :=
  match if_policy f with
  | PreserveProcessingLease => None
  | PauseForReauthorization => Some (MkTransition JobPaused PhaseQueued now)
  | RetryFrom phase =>
      Some (MkTransition JobRetryWait phase (now + seconds (retry_delay_seconds attempt_count)))
  | FailAt phase => Some (MkTransition JobFailed phase now)
  end.

Inductive CompleteInboundJobError : Type := NotProcessing | CompletePersistence (source : sqlx_error).

Definition complete_job (s : schedule) (now : time) (job project : uuid) :
    ExternalDB → result CompleteInboundJobError unit * ExternalDB :=
  let fail e := Err (CompletePersistence e) in
  transact s fail (
    completed ← exec s fail (λ db, Ok (complete_job_row job now db));
    if negb completed then early (Err NotProcessing) else
    _ ← exec s fail (writes (clear_last_import_error project now));
    mret (Ok ())).

Inductive InboundFailurePersistence : Type := Recorded | ProcessingLeasePreserved.

Definition record_failure (s : schedule) (now : time) (claimed : ClaimedInboundJob) (f : InboundFailure)
    (db : ExternalDB) : result sqlx_error InboundFailurePersistence * ExternalDB :=
  match failure_transition f (cj_attempt_count claimed) now with
  | None => (Ok ProcessingLeasePreserved, db)
  | Some t =>
      transact s Err (
        updated ← exec s Err (fail_job (cj_id claimed) (tr_state t) (tr_retry_phase t)
                                (tr_next_attempt_at t) (if_error_code f) now);
        if negb updated then mret (Ok Recorded) else
        _ ← exec s Err (writes (update_link_import_error (cj_project claimed) (if_error_code f) now));
        mret (Ok Recorded)) db
  end.

(** job_queries: a job shows a next retry only while it waits for one. *)
Definition job_next_retry_at (j : InboundJobRow) : option time :=
  match ij_state j with JobRetryWait => Some (ij_next_attempt_at j) | _ => None end.

(** ** content *)

Record ApplyExternalGitInboundCommand : Type := MkApplyCommand {
  ac_job : uuid; ac_project : uuid; ac_actor : uuid; ac_operation : ExternalGitInboundOperation;
  ac_source_branch : text; ac_remote_sha : text; ac_entry_file_path : text;
  ac_documents : list WorkspaceDocument; ac_directories : list text; ac_assets : list WorkspaceAsset }.

Inductive ApplyExternalGitInboundError : Type :=
| ApplyProjectNotFound
| ApplyWorkspaceChanged
| ApplyInvalidEntryFile
| ApplyWorkspaceFlush
| ApplyPersistence (source : sqlx_error)
| CommitAmbiguous (source : sqlx_error).
Abbreviation applied_result := (result ApplyExternalGitInboundError ReplacedProjectContent).

Definition replacement (c : ApplyExternalGitInboundCommand) (now : time) : ReplaceProjectContent :=
  MkReplace (ac_project c) None (ac_documents c) (ac_assets c) (ac_directories c)
    (ac_entry_file_path c) (Some (ac_actor c)) now.

(** [apply_external_git_inbound_content], from its transaction on. *)
Definition apply_inbound_transaction (s : schedule) (now : time) (c : ApplyExternalGitInboundCommand) :
    Tx ExternalDB applied_result applied_result :=
  let fail e := Err (ApplyPersistence e) in
  applied ← in_workspace (replace_project_content s fail (replacement c now));
  match applied with
  | Replaced applied =>
      _ ← exec s fail (on_workspace (writes (clear_project (ac_project c))));
      _ ← in_workspace (record_workspace_change s fail (ac_project c) (ByUser (ac_actor c)) Replacement now);
      _ ← in_workspace (record_project_activity s fail (ac_project c) (Some (ac_actor c)) None now);
      _ ← exec s fail (writes (record_link_import (ac_project c) (ac_source_branch c) (ac_remote_sha c) now));
      _ ← exec s fail (mark_job_applied (ac_job c) (ac_remote_sha c) (rp_workspace_version applied) now);
      _ ← in_workspace (enqueue_object_deletions s fail now (rp_old_object_keys applied));
      mret (Ok applied)
  | ReplaceNotFound => early (Err ApplyProjectNotFound)
  | WorkspaceVersionChanged => early (Err ApplyWorkspaceChanged)
  | InvalidEntryFile => early (Err ApplyInvalidEntryFile)
  end.
Definition apply_inbound_content (s : schedule) (now : time) (c : ApplyExternalGitInboundCommand) :
    ExternalDB → applied_result * ExternalDB :=
  transact_with (λ e, Err (ApplyPersistence e)) (λ e, Err (CommitAmbiguous e)) s
    (apply_inbound_transaction s now c).

(** ** sync_enqueue *)

Inductive EnqueueSyncError : Type :=
| SyncProjectNotFound
| OutboundCheckpointActive
| InboundJobActive
| SyncPersistence (source : sqlx_error).

Record EnqueueInboundSync : Type := MkEnqueueSync {
  es_project : uuid; es_actor : uuid; es_provider : text; es_source_branch : text }.

(** [job] is the identifier drawn for it. *)
Definition enqueue_sync (s : schedule) (now : time) (job : uuid) (c : EnqueueInboundSync) :
    ExternalDB → result EnqueueSyncError unit * ExternalDB :=
  let fail e := Err (SyncPersistence e) in
  transact s fail (
    version ← exec s fail (reads (project_workspace_version (es_project c)));
    if bool_decide (version = None) then early (Err SyncProjectNotFound) else
    checkpoint ← exec s fail (reads (checkpoint_operation_exists (es_project c)));
    if checkpoint : bool then early (Err OutboundCheckpointActive) else
    _ ← exec s (λ e, Err match e with UniqueViolation => InboundJobActive | e => SyncPersistence e end)
          (insert_inbound_job (MkInsertJob job (es_project c) (es_provider c) SyncOperation
             (es_source_branch c) (es_actor c) now));
    _ ← exec s fail (writes (clear_last_import_error (es_project c) now));
    mret (Ok ())).

(** ** import_creation *)

Inductive CreateImportError : Type :=
| ImportRepositoryConflict
| CreateImportPersistence (source : sqlx_error).

Record CreateImportProject : Type := MkCreateImport {
  ci_actor : uuid; ci_type : ProjectType; ci_latex_engine : LatexEngine; ci_provider : text;
  ci_repository_id : text; ci_full_path : text; ci_web_url : text; ci_clone_url : text;
  ci_default_branch : text; ci_source_branch : text }.

(** [CreateProjectGraph::empty]. *)
Definition empty_graph (project owner : uuid) (type : ProjectType) (engine : LatexEngine) (now : time) :
    CreateProjectGraph :=
  MkGraph project owner type (default_entry_file_path type)
    (match type with Latex => Some engine | Typst => None end) [] [] [] now.

(** [checkpoint_branch] is the branch the configured prefix gives the project. *)
Definition create_import_project (s : schedule) (now : time) (project job : uuid)
    (checkpoint_branch : text) (c : CreateImportProject) :
    ExternalDB → result CreateImportError unit * ExternalDB :=
  let fail e := Err (CreateImportPersistence e) in
  transact s fail (
    _ ← in_workspace (provision_project s fail
          (empty_graph project (ci_actor c) (ci_type c) (ci_latex_engine c) now));
    _ ← exec s (λ e, Err match e with
                         | UniqueViolation => ImportRepositoryConflict
                         | e => CreateImportPersistence e
                         end)
          (insert_repository_link (MkNewLink project (ci_provider c) (ci_repository_id c) (ci_full_path c)
             (ci_web_url c) (ci_clone_url c) (ci_default_branch c) checkpoint_branch (ci_actor c) now));
    _ ← exec s fail (insert_inbound_job (MkInsertJob job project (ci_provider c) ImportOperation
          (ci_source_branch c) (ci_actor c) now));
    mret (Ok ())).

(** * External repositories: the inbound worker

    inbound/worker.rs: a claimed job clones the branch, validates the checkout,
    stages its assets, applies the content and finalizes; a claim whose content
    was already applied only finalizes.  The project's Git lock, which keeps
    the server's own Git operations out, is not modelled. *)
Inductive InboundJobError : Type :=
| JobLinkMissing
| EntryPointNotFound
| EntryPointPersistence
| JobPersistence
| JobCheckout
| JobProvider (source : ExternalGitCommandFailure)
| InvalidRemoteRevision
| JobImport (source : ExternalGitImportFailure)
| ContentRead
| AssetStorage
| JobApply (source : ApplyExternalGitInboundError)
| JobRevision
| JobCompletion.

Definition inbound_failure (e : InboundJobError) : InboundFailure :=
  match e with
  | JobProvider source => from_command (failure_kind source) (failure_code source)
  | JobLinkMissing => terminal ExternalGitLinkMissing
  | EntryPointNotFound => terminal CodeProjectNotFound
  | EntryPointPersistence => retryable RepositoryImportStateFailed
  | JobCheckout => retryable GitFetchFailed
  | InvalidRemoteRevision => retryable RepositoryRevisionInvalid
  | JobImport source => terminal (import_failure_code source)
  | ContentRead => terminal RepositoryContentUnreadable
  | AssetStorage => retryable RepositoryAssetStoreFailed
  | JobApply ApplyProjectNotFound => terminal CodeProjectNotFound
  | JobApply ApplyInvalidEntryFile => terminal RepositoryMissingEntryFile
  | JobApply (CommitAmbiguous _) => ambiguous_apply
  | JobApply _ => retryable RepositoryApplyFailed
  | JobRevision => retryable_from_revision RepositoryRevisionFailed
  | JobCompletion => retryable_from_revision RepositoryImportStateFailed
  | JobPersistence => retryable RepositoryImportStateFailed
  end.
Definition staged_assets_may_be_referenced (e : InboundJobError) : bool :=
  match e with JobApply (CommitAmbiguous _) => true | _ => false end.

Record StagedInboundAsset : Type := MkStagedAsset {
  sa_id : uuid; sa_path : text; sa_object_key : text; sa_content_type : text; sa_size_bytes : Z;
  sa_inline_source_path : option text }.

Definition clone_args (link : InboundJobLink) (repository : text) : list text :=
  [lit "clone"; lit "--no-tags"; lit "--single-branch"; lit "--branch"; jl_source_branch link;
   lit "--filter=blob:none"; lit "--"; jl_clone_url link; repository].
Definition valid_remote_sha (sha : text) : bool :=
  ((length sha =? 40)%nat || (length sha =? 64)%nat) && forallb is_ascii_hexdigit sha.
Definition source_path (repository path : text) : text := repository ++ slash :: path.

Definition enter_phase (job : uuid) (phase : ExternalGitInboundPhase) :
    WorkerProg (result sqlx_error unit) :=
  query (λ now, writes (update_job_phase job phase now)).
Definition cleanup_staged_assets (staged : list StagedInboundAsset) : WorkerProg unit :=
  command (CleanupObjects (sa_object_key <$> staged)).

Section worker.
(** How identifiers are written, the mime_guess crate, and whether objects are
    stored outside the database. *)
Context (uuid_text : uuid → text) (guess_content_type : text → text) (storage : bool).

(** With the checkout, where the files of the import are. *)
Definition prepare_inbound_state (link : InboundJobLink) (entry_point : ProjectEntryPoint) :
    WorkerProg (result InboundJobError (text * PreparedExternalGitImport)) :=
  let persistence := λ _ : sqlx_error, JobPersistence in
  let run := λ directory args, command (RunCommand (jl_linked_by link) directory args) in
  checkout ←? command MakeCheckout | λ _, JobCheckout;
  let repository := source_path checkout (lit "repository") in
  _ ←? run checkout (clone_args link repository) | JobProvider;
  _ ←? enter_phase (jl_id link) PhaseLfs | persistence;
  _ ←? run repository [lit "lfs"; lit "pull"] | JobProvider;
  output ←? run repository [lit "rev-parse"; lit "HEAD"] | JobProvider;
  let remote_sha := to_ascii_lowercase (trim output) in
  if negb (valid_remote_sha remote_sha) then mret (Err InvalidRemoteRevision) else
  _ ←? enter_phase (jl_id link) PhaseValidate | persistence;
  entries ← command (ScanCheckout repository);
  mret match prepare_external_git_import guess_content_type default_import_limits entries
               (ep_type entry_point) (ep_entry_file_path entry_point) remote_sha with
       | Ok prepared => Ok (repository, prepared)
       | Err f => Err (JobImport f)
       end.

(** Where an asset is stored, and the path its inline data is read from. *)
Definition store_asset (project : uuid) (repository : text) (id : uuid) (asset : ImportedExternalGitAsset)
    (staged : list StagedInboundAsset) : WorkerProg (result InboundJobError (text * option text)) :=
  let source := source_path repository (ia_path asset) in
  if negb storage then mret (Ok (lit "inline://" ++ uuid_text id, Some source)) else
  content ← command (ReadBytes source);
  match content with
  | Err _ => _ ← cleanup_staged_assets staged; mret (Err ContentRead)
  | Ok content =>
      let object_key := lit "projects/" ++ uuid_text project ++ lit "/assets/" ++ uuid_text id in
      stored ← command (PutObject object_key (ia_content_type asset) content);
      match stored with
      | Err _ =>
          _ ← command (CleanupObjects [object_key]);
          _ ← cleanup_staged_assets staged;
          mret (Err AssetStorage)
      | Ok _ => mret (Ok (object_key, None))
      end
  end.

Fixpoint stage_assets (job project : uuid) (repository : text) (assets : list ImportedExternalGitAsset)
    (staged : list StagedInboundAsset) : WorkerProg (result InboundJobError (list StagedInboundAsset)) :=
  match assets with
  | [] => mret (Ok staged)
  | asset :: assets =>
      id ← command NewUuid;
      stored ← store_asset project repository id asset staged;
      match stored with
      | Err e => mret (Err e)
      | Ok (object_key, inline_source) =>
          let staged := staged ++ [MkStagedAsset id (ia_path asset) object_key (ia_content_type asset)
                                     (ia_size_bytes asset) inline_source] in
          entered ← enter_phase job PhaseAssets;
          match entered with
          | Err _ => _ ← cleanup_staged_assets staged; mret (Err JobPersistence)
          | Ok _ => stage_assets job project repository assets staged
          end
      end
  end.

Fixpoint read_documents (repository : text) (id_of : text → uuid)
    (documents : list ImportedExternalGitDocument) : WorkerProg (result InboundJobError (list WorkspaceDocument)) :=
  match documents with
  | [] => mret (Ok [])
  | d :: documents =>
      content ←? command (ReadText (source_path repository (id_path d))) | λ _, ContentRead;
      rest ←? read_documents repository id_of documents | id;
      mret (Ok (MkWorkspaceDocument (id_of (id_path d)) (id_path d) content :: rest))
  end.
Fixpoint read_assets (staged : list StagedInboundAsset) :
    WorkerProg (result InboundJobError (list WorkspaceAsset)) :=
  match staged with
  | [] => mret (Ok [])
  | a :: staged =>
      data ←? match sa_inline_source_path a with
              | Some path => content ←? command (ReadBytes path) | λ _, ContentRead; mret (Ok (Some content))
              | None => mret (Ok None)
              end | id;
      rest ←? read_assets staged | id;
      mret (Ok (MkWorkspaceAsset (sa_id a) (sa_path a) (sa_object_key a) (sa_content_type a)
                  (sa_size_bytes a) data :: rest))
  end.

Definition apply_external_git_inbound_content (c : ApplyExternalGitInboundCommand) :
    WorkerProg applied_result :=
  _ ←? match ac_operation c with
       | SyncOperation => command (FlushPendingServerCommit (ac_project c) (ac_actor c) None None)
       | ImportOperation => mret (Ok ())
       end | λ _, ApplyWorkspaceFlush;
  commit (λ s now, apply_inbound_content s now c).

Definition apply_inbound_state (link : InboundJobLink) (repository : text)
    (prepared : PreparedExternalGitImport) (staged : list StagedInboundAsset) :
    WorkerProg (result InboundJobError ReplacedProjectContent) :=
  id_of ← command NewDocumentIds;
  documents ←? read_documents repository id_of (pi_documents prepared) | id;
  assets ←? read_assets staged | id;
  applied ←? apply_external_git_inbound_content
    (MkApplyCommand (jl_id link) (jl_project link) (jl_requested_by link) (jl_operation link)
       (jl_source_branch link) (pi_remote_sha prepared) (pi_entry_file_path prepared) documents
       (pi_directories prepared) assets) | JobApply;
  mret (Ok applied).

Definition finalize_inbound_job (link : InboundJobLink) (applied : AppliedInboundJob) :
    WorkerProg (result InboundJobError unit) :=
  _ ←? command (FlushPendingServerCommit (jl_project link) (jl_requested_by link)
         (Some (aj_workspace_version applied))
         (Some (lit "Import external Git branch " ++ jl_source_branch link))) | λ _, JobRevision;
  _ ←? commit (λ s now, complete_job s now (jl_id link) (jl_project link)) | λ _, JobCompletion;
  _ ← command (RecordEvent (jl_requested_by link) "external_git.inbound_sync.complete" (jl_id link));
  mret (Ok ()).

Definition import_and_apply (link : InboundJobLink) (entry_point : ProjectEntryPoint) :
    WorkerProg (result InboundJobError text) :=
  let persistence := λ _ : sqlx_error, JobPersistence in
  prepared ←? prepare_inbound_state link entry_point | id;
  let '(repository, prepared) := prepared in
  _ ←? enter_phase (jl_id link) PhaseAssets | persistence;
  staged ←? stage_assets (jl_id link) (jl_project link) repository (pi_assets prepared) [] | id;
  _ ←? enter_phase (jl_id link) PhaseApply | persistence;
  applied ← apply_inbound_state link repository prepared staged;
  match applied with
  | Err e =>
      _ ← (if staged_assets_may_be_referenced e then mret () else cleanup_staged_assets staged);
      mret (Err e)
  | Ok applied =>
      _ ← command (DeleteQueuedObjects (rp_old_object_keys applied));
      _ ← command (InvalidateProject (jl_project link) (rp_content_epoch applied));
      _ ←? finalize_inbound_job link
             (MkApplied (pi_remote_sha prepared) (rp_workspace_version applied)) | id;
      mret (Ok (pi_remote_sha prepared))
  end.

Definition process_inbound_job (claimed : ClaimedInboundJob) : WorkerProg (result InboundJobError text) :=
  link ←? query (λ _, reads (inbound_job_link (cj_id claimed))) | λ _, JobPersistence;
  match link with
  | None => mret (Err JobLinkMissing)
  | Some link =>
      match applied_state claimed with
      | Some applied =>
          _ ←? finalize_inbound_job link applied | id;
          mret (Ok (aj_remote_sha applied))
      | None =>
          entry_point ←? query (λ _, reads (λ db, find_project_entry_point (jl_project link) (workspace db))) | λ _, EntryPointPersistence;
          match entry_point with
          | None => mret (Err EntryPointNotFound)
          | Some entry_point => import_and_apply link entry_point
          end
      end
  end.

(** What the worker does with a claim. *)
Definition run_inbound (claimed : ClaimedInboundJob) : WorkerProg unit :=
  outcome ← process_inbound_job claimed;
  match outcome with
  | Ok _ => mret ()
  | Err e => _ ← commit (λ s now, record_failure s now claimed (inbound_failure e)); mret ()
  end.
End worker.
