(* ===== verification/ExternalInvariant.v ===== *)
(** * External repositories: the invariant and the life cycle of a job

    The stages of an inbound job and the edges between them, the invariant of
    the tables, and how each kind of change of one table keeps it. *)
From S2P Require Import Prelude Store Text Paths AccessModel AccessGrants AccessSystem AccessSteps.
From S2P Require Import AuthorizationTheorems WorkspaceModel WorkspaceStatements WorkspaceProjects Collaboration.
From S2P Require Import WorkspaceSystem WorkspaceFrames WorkspaceSteps WorkspaceTheorems.
From S2P Require Import ExternalStatements.

Open Scope Z_scope.

(** ** The stages of an inbound job *)

Inductive JobStage : Type :=
| Waiting
| Running
| AppliedRunning (sha : text) (version : Z)
| AppliedWaiting (sha : text) (version : Z)
| Suspended
| Rejected
| Finished (sha : text) (version : Z).

(** The columns that belong together; other combinations are no job. *)
Definition job_stage (j : InboundJobRow) : option JobStage :=
  match ij_state j, ij_phase j, ij_remote_sha j, ij_applied_workspace_version j, ij_locked_at j,
        ij_completed_at j with
  | JobPending, PhaseQueued, None, None, None, None => Some Waiting
  | JobRetryWait, PhaseQueued, None, None, None, None => Some Waiting
  | JobRetryWait, PhaseRevision, Some sha, Some v, None, None => Some (AppliedWaiting sha v)
  | JobPaused, PhaseQueued, None, None, None, None => Some Suspended
  | JobFailed, PhaseQueued, None, None, None, Some _ => Some Rejected
  | JobSucceeded, PhaseComplete, Some sha, Some v, None, Some _ => Some (Finished sha v)
  | JobProcessing, (PhaseFetch | PhaseLfs | PhaseValidate | PhaseAssets | PhaseApply), None, None,
      Some _, None => Some Running
  | JobProcessing, PhaseRevision, Some sha, Some v, Some _, None => Some (AppliedRunning sha v)
  | _, _, _, _, _, _ => None
  end.

(** What was imported, at which version of the workspace. *)
Definition stage_applied (s : JobStage) : option (text * Z) :=
  match s with
  | AppliedRunning sha v | AppliedWaiting sha v | Finished sha v => Some (sha, v)
  | _ => None
  end.
Definition stage_active (s : JobStage) : bool :=
  match s with Rejected | Finished _ _ => false | _ => true end.
Definition stage_running (s : JobStage) : bool :=
  match s with Running | AppliedRunning _ _ => true | _ => false end.

(** Who moves a job: the worker that claims it, the program of its claim, and
    the user who authorizes the provider again. *)
Inductive claim_edge : JobStage → JobStage → Prop :=
| edge_claim : claim_edge Waiting Running
| edge_reclaim : claim_edge Running Running
| edge_claim_applied sha v : claim_edge (AppliedWaiting sha v) (AppliedRunning sha v)
| edge_reclaim_applied sha v : claim_edge (AppliedRunning sha v) (AppliedRunning sha v).
Inductive program_edge : JobStage → JobStage → Prop :=
| edge_work : program_edge Running Running
| edge_apply sha v : program_edge Running (AppliedRunning sha v)
| edge_retry : program_edge Running Waiting
| edge_suspend : program_edge Running Suspended
| edge_reject : program_edge Running Rejected
| edge_forget sha v : program_edge (AppliedRunning sha v) Waiting
| edge_retry_applied sha v : program_edge (AppliedRunning sha v) (AppliedWaiting sha v)
| edge_finish sha v : program_edge (AppliedRunning sha v) (Finished sha v).
Inductive user_edge : JobStage → JobStage → Prop :=
| edge_reauthorize : user_edge Suspended Waiting.
Definition stage_edge (s s' : JobStage) : Prop := claim_edge s s' ∨ program_edge s s' ∨ user_edge s s'.

Definition same_request (j j' : InboundJobRow) : Prop :=
  ij_project j' = ij_project j ∧ ij_provider j' = ij_provider j ∧ ij_operation j' = ij_operation j
  ∧ ij_source_branch j' = ij_source_branch j ∧ ij_requested_by j' = ij_requested_by j
  ∧ ij_created_at j' = ij_created_at j.

(** One job before and after a step: it enters waiting, leaves when nothing is
    left to do for it, and in between follows the edges. *)
Inductive row_change (edge : JobStage → JobStage → Prop) :
    option InboundJobRow → option InboundJobRow → Prop :=
| row_same o : row_change edge o o
| row_new j : job_stage j = Some Waiting → row_change edge None (Some j)
| row_gone j : job_active j = false → row_change edge (Some j) None
| row_edge j j' s s' :
    same_request j j' → job_stage j = Some s → job_stage j' = Some s' → edge s s' →
    row_change edge (Some j) (Some j').

Lemma row_change_mono (edge edge' : JobStage → JobStage → Prop) o o' :
  (∀ s s', edge s s' → edge' s s') → row_change edge o o' → row_change edge' o o'.
Proof. intros Hm [|?|?|?]; [apply row_same|by apply row_new|by apply row_gone|]. eapply row_edge; eauto. Qed.

(** ** Facts about stages *)

Ltac stage_cases j :=
  let phase := fresh "phase" in let locked := fresh "locked" in let sha := fresh "sha" in
  let completed := fresh "completed" in let version := fresh "version" in
  destruct j as [? ? ? ? ? [] phase ? ? ? locked sha ? ? ? completed version];
  destruct phase; try done; destruct sha; try done; destruct version; try done;
  destruct locked; try done; destruct completed; try done.

Lemma job_stage_active j s : job_stage j = Some s → job_active j = stage_active s.
Proof. stage_cases j; by intros [= <-]. Qed.
Lemma job_stage_processing j s : job_stage j = Some s → processing_job j = stage_running s.
Proof. stage_cases j; by intros [= <-]. Qed.
Lemma job_stage_resumable j s :
  job_stage j = Some s → processing_job j = true →
  if resumable j then ∃ sha v, s = AppliedRunning sha v ∧ ij_remote_sha j = Some sha
                                ∧ ij_applied_workspace_version j = Some v
  else s = Running.
Proof.
  unfold resumable. stage_cases j; intros [= <-] Hp; try done; case_bool_decide as Hd; cbn in *; naive_solver.
Qed.

Lemma claimed_job_stage now j s :
  job_stage j = Some s → stage_running s = true ∨ s = Waiting ∨ (∃ sha v, s = AppliedWaiting sha v) →
  ∃ s', job_stage (claimed_job now j) = Some s' ∧ claim_edge s s'.
Proof.
  unfold claimed_job, resumable. intros Hs Hr. stage_cases j; injection Hs as <-; cbn in *;
    try (case_bool_decide; [naive_solver|]; eexists; split; [done|]; constructor);
    try (rewrite bool_decide_true by eauto; eexists; split; [done|]; constructor);
    naive_solver.
Qed.

Lemma applied_job_stage sha v now j :
  job_stage j = Some Running → job_stage (applied_job sha v now j) = Some (AppliedRunning sha v).
Proof. by stage_cases j. Qed.

Definition working_phase (phase : ExternalGitInboundPhase) : bool :=
  match phase with PhaseQueued | PhaseRevision | PhaseComplete => false | _ => true end.
Lemma job_in_phase_stage phase now j :
  working_phase phase = true → job_stage j = Some Running →
  job_stage (job_in_phase phase now j) = Some Running.
Proof. intros Hp. stage_cases j; destruct phase; done. Qed.

Lemma completed_job_stage now j sha v :
  job_stage j = Some (AppliedRunning sha v) → job_stage (completed_job now j) = Some (Finished sha v).
Proof. stage_cases j. by intros [= <- <-]. Qed.

Lemma resumed_job_stage now j :
  job_stage j = Some Suspended → job_stage (resumed_job now j) = Some Waiting.
Proof. by stage_cases j. Qed.

Lemma paused_job_stage j s : job_stage j = Some s → ij_state j = JobPaused → s = Suspended.
Proof. stage_cases j; by intros [= <-]. Qed.

(** What a failure makes of a running job. *)
Lemma failed_job_stage state phase at' code now j s :
  job_stage j = Some s → stage_running s = true →
  (phase = PhaseQueued ∧ s = Running ∧ (state = JobRetryWait ∨ state = JobPaused ∨ state = JobFailed))
  ∨ (state = JobRetryWait ∧ is_Some (stage_applied s) ∧ (phase = PhaseQueued ∨ phase = PhaseRevision)) →
  ∃ s', job_stage (failed_job state phase at' code now j) = Some s' ∧ program_edge s s'
        ∧ stage_running s' = false.
Proof.
  unfold failed_job. intros Hs Hr [(-> & -> & Hst)|(-> & Happ & Hph)].
  - destruct Hst as [->|[->| ->]]; stage_cases j; eexists; (split; [done|split; [constructor|done]]).
  - destruct Hph as [->| ->]; stage_cases j; injection Hs as <-; try by destruct Happ.
    + eexists. split; [done|]. by split; [constructor|].
    + eexists. split; [done|]. by split; [constructor|].
Qed.

Lemma edge_applied s s' sha v :
  stage_edge s s' → stage_applied s = Some (sha, v) →
  stage_applied s' = Some (sha, v) ∨ s = AppliedRunning sha v ∧ s' = Waiting.
Proof. intros [[]|[[]|[]]]; simpl; try done; intros [= <- <-]; auto. Qed.
Lemma edge_active s s' : stage_edge s s' → stage_active s = true.
Proof. by intros [[]|[[]|[]]]. Qed.

(** ** The invariant *)

(** Projects stay and their workspace versions never go back. *)
Definition versions_grow (db db' : WorkspaceDB) : Prop :=
  ∀ q p, project_rows db !! q = Some p →
  ∃ p', project_rows db' !! q = Some p' ∧ p_workspace_version p ≤ p_workspace_version p'.
#[export] Instance versions_grow_preorder : PreOrder versions_grow.
Proof.
  split.
  - intros db q p Hp. exists p. split; [done|lia].
  - intros db1 db2 db3 H1 H2 q p Hp. destruct (H1 _ _ Hp) as (p2 & Hp2 & ?).
    destruct (H2 _ _ Hp2) as (p3 & ? & ?). exists p3. split; [done|lia].
Qed.

(** The workspace has reached a version. *)
Definition version_reached (q : uuid) (v : Z) (db : WorkspaceDB) : Prop :=
  ∃ p, project_rows db !! q = Some p ∧ v ≤ p_workspace_version p.
Lemma version_reached_grow q v db db' :
  versions_grow db db' → version_reached q v db → version_reached q v db'.
Proof. intros Hg (p & Hp & Hv). destruct (Hg _ _ Hp) as (p' & ? & ?). exists p'. split; [done|lia]. Qed.

(** A link belongs to a project and a connected provider account, and what was
    pushed is a version the workspace has reached. *)
Record link_ok (q : uuid) (l : LinkRow) (db : ExternalDB) : Prop := MkLinkOk {
  lo_project : is_Some (project_rows (workspace db) !! q);
  lo_grant : is_Some (grants db !! (lk_linked_by l, lk_provider l));
  lo_synced : lk_synced_workspace_version l = 0
              ∨ version_reached q (lk_synced_workspace_version l) (workspace db);
}.
(** A checkpoint belongs to a link; what it captured is complete. *)
Record checkpoint_ok (q : uuid) (c : CheckpointRow) (db : ExternalDB) : Prop := MkCheckpointOk {
  co_link : is_Some (links db !! q);
  co_target : version_reached q (cq_target_workspace_version c) (workspace db);
  co_captured : match cq_captured_workspace_version c, cq_checkpoint_sha c, cq_captured_at c with
                | Some v, Some _, Some _ => version_reached q v (workspace db)
                | None, None, None => True
                | _, _, _ => False
                end;
  co_lock : is_Some (cq_locked_at c) ↔ cq_state c = CheckpointProcessing;
  co_attempts : 0 ≤ cq_attempt_count c ≤ i32_max;
}.
(** A job belongs to a link of its provider and is in one of the stages. *)
Record job_ok (j : InboundJobRow) (db : ExternalDB) : Prop := MkJobOk {
  jo_link : ∃ l, links db !! ij_project j = Some l ∧ lk_provider l = ij_provider j;
  jo_stage : is_Some (job_stage j);
  jo_applied : ∀ v, ij_applied_workspace_version j = Some v →
    version_reached (ij_project j) v (workspace db);
  jo_attempts : 0 ≤ ij_attempt_count j ≤ i32_max;
}.

Section invariant.
Context `{YrsLaws}.

(** The invariants of the workspace component. *)
Record WorkspaceInv (db : WorkspaceDB) : Prop := MkWorkspaceInv {
  wi_streams : StreamInv db; wi_entries : entries_accepted db; wi_access : AccessInv (access db) }.

Record ExternalInv (db : ExternalDB) : Prop := MkExternalInv {
  xi_workspace : WorkspaceInv (workspace db);
  xi_links : ∀ q l, links db !! q = Some l → link_ok q l db;
  (** a repository is linked to one project *)
  xi_repositories : ∀ q1 q2 l1 l2, links db !! q1 = Some l1 → links db !! q2 = Some l2 →
    lk_provider l1 = lk_provider l2 → lk_repository_id l1 = lk_repository_id l2 → q1 = q2;
  xi_checkpoints : ∀ q c, checkpoints db !! q = Some c → checkpoint_ok q c db;
  xi_jobs : ∀ id j, inbound_jobs db !! id = Some j → job_ok j db;
  (** a project has one active job *)
  xi_active : ∀ i1 i2 j1 j2, inbound_jobs db !! i1 = Some j1 → inbound_jobs db !! i2 = Some j2 →
    ij_project j1 = ij_project j2 → job_active j1 = true → job_active j2 = true → i1 = i2;
  (** and no checkpoint at the same time *)
  xi_exclusive : ∀ id j, inbound_jobs db !! id = Some j → job_active j = true →
    checkpoints db !! ij_project j = None;
}.

(** *** The workspace *)

Lemma workspace_inv_step q db db' :
  op_step q db db' → WorkspaceInv db → WorkspaceInv db' ∧ versions_grow db db'.
Proof.
  intros [[He Hr _ Hacc [trace Ht]] Hk] [HS HE HA]. split; [split|].
  - by apply Hk.
  - by eapply entries_accepted_step.
  - rewrite Ht. by apply run_trace_step.
  - intros q' p Hp. destruct (decide (q' = q)) as [->|Hne].
    + destruct (Hr _ Hp) as (p' & ? & _ & Hv). exists p'. split; [done|].
      destruct Hv as [?|(_ & _ & _ & -> & _)]; lia.
    + exists p. rewrite (el_rows _ _ _ He) by done. split; [done|lia].
Qed.

Lemma run_workspace_inv update_retention s now op db :
  op_ok op → WorkspaceInv db →
  WorkspaceInv (run_workspace update_retention s now op db)
  ∧ versions_grow db (run_workspace update_retention s now op db).
Proof.
  intros Hok [HS HE HA].
  destruct (run_workspace_step update_retention s now op db Hok HS) as [[q [He Hr _ Hacc [trace Ht]]] HS' _].
  split; [split|].
  - done.
  - by eapply entries_accepted_step.
  - rewrite Ht. by apply run_trace_step.
  - intros q' p Hp. destruct (decide (q' = q)) as [->|Hne].
    + destruct (Hr _ Hp) as (p' & ? & _ & Hv). exists p'. split; [done|].
      destruct Hv as [?|(_ & _ & _ & -> & _)]; lia.
    + exists p. rewrite (el_rows _ _ _ He) by done. split; [done|lia].
Qed.

Lemma workspace_inv_calm q db db' :
  calm q db db' → rows_same db db' → WorkspaceInv db → WorkspaceInv db' ∧ versions_grow db db'.
Proof.
  intros Hc Hrows [HS HE HA]. split; [split|].
  - by apply (gentle_kept _ _ (neutral_gentle _ _ (calm_neutral _ _ _ Hc))).
  - intros p e. unfold find_project_entry_point. rewrite Hrows, (ca_settings _ _ _ Hc). apply HE.
  - by rewrite (ca_access _ _ _ Hc).
  - intros p row Hp. exists row. rewrite Hrows. split; [done|lia].
Qed.

Implicit Types (db : ExternalDB).

(** What is known of the links, checkpoints and jobs survives the growth of the
    versions and changes of the links that keep providers. *)
Lemma checkpoint_ok_mono q c db db' :
  versions_grow (workspace db) (workspace db') → (is_Some (links db !! q) → is_Some (links db' !! q)) →
  checkpoint_ok q c db → checkpoint_ok q c db'.
Proof.
  intros Hg Hl [H1 H2 H3 H4 H5]. split; [auto|by eapply version_reached_grow| |done..].
  destruct (cq_captured_workspace_version c), (cq_checkpoint_sha c), (cq_captured_at c); try done.
  by eapply version_reached_grow.
Qed.
Lemma job_ok_mono j db db' :
  versions_grow (workspace db) (workspace db') →
  (∀ l, links db !! ij_project j = Some l → ∃ l', links db' !! ij_project j = Some l' ∧ lk_provider l' = lk_provider l) →
  job_ok j db → job_ok j db'.
Proof.
  intros Hg Hl [(l & Hj & Hp) H2 H3 H4]. split; [|done| |done].
  - destruct (Hl _ Hj) as (l' & ? & ?). exists l'. split; [done|congruence].
  - intros v Hv. eapply version_reached_grow; eauto.
Qed.
Lemma link_ok_mono q l db db' :
  versions_grow (workspace db) (workspace db') →
  is_Some (grants db' !! (lk_linked_by l, lk_provider l)) →
  link_ok q l db → link_ok q l db'.
Proof.
  intros Hg Hgr [[p Hp] H2 H3]. split; [|done|].
  - destruct (Hg _ _ Hp) as (p' & ? & _). by exists p'.
  - destruct H3; [by left|right]. by eapply version_reached_grow.
Qed.

Lemma inv_other_tables db db' :
  ExternalInv db → WorkspaceInv (workspace db') → versions_grow (workspace db) (workspace db') →
  links db' = links db → checkpoints db' = checkpoints db → inbound_jobs db' = inbound_jobs db →
  (∀ q l, links db !! q = Some l → is_Some (grants db' !! (lk_linked_by l, lk_provider l))) →
  ExternalInv db'.
Proof.
  intros [H1 H2 H3 H4 H5 H6 H7] Hw Hg El Ec Ej Hgr. split; rewrite ?El, ?Ec, ?Ej; try done.
  - intros q l Hl. eapply link_ok_mono; eauto.
  - intros q c Hc. eapply checkpoint_ok_mono; [exact Hg|by rewrite El|by apply H4].
  - intros id j Hj. eapply job_ok_mono; [exact Hg| |by eapply H5]. rewrite El. eauto.
Qed.

(** *** The links *)

Lemma inv_with_links L db :
  ExternalInv db →
  (∀ q l, L !! q = Some l → link_ok q l (with_links L db)) →
  (∀ q1 q2 l1 l2, L !! q1 = Some l1 → L !! q2 = Some l2 →
     lk_provider l1 = lk_provider l2 → lk_repository_id l1 = lk_repository_id l2 → q1 = q2) →
  (∀ q l, links db !! q = Some l → ∃ l', L !! q = Some l' ∧ lk_provider l' = lk_provider l) →
  ExternalInv (with_links L db).
Proof.
  intros [[HS HE HA] H2 H3 H4 H5 H6 H7] Hok Hrep Hkeep.
  assert (calm 0%N (workspace db) (workspace (with_links L db))) as Hc by by apply calm_queue.
  destruct (workspace_inv_calm _ _ _ Hc eq_refl (MkWorkspaceInv _ HS HE HA)) as [Hw Hg].
  split; [done|done|done| | |done|done].
  - intros q c Hcq. eapply checkpoint_ok_mono; [exact Hg| |by apply H4].
    intros [l Hl]. destruct (Hkeep _ _ Hl) as (l' & ? & _). by exists l'.
  - intros id j Hj. eapply job_ok_mono; [exact Hg|apply Hkeep|by eapply H5].
Qed.

(** An update of a link that keeps what identifies it. *)
Definition link_kept (l l' : LinkRow) : Prop :=
  lk_provider l' = lk_provider l ∧ lk_repository_id l' = lk_repository_id l.

Lemma inv_update_links (P : uuid → LinkRow → bool) f db :
  ExternalInv db →
  (∀ q l, links db !! q = Some l → P q l = true → link_kept l (f q l) ∧ link_ok q (f q l) db) →
  ExternalInv (with_links (update_rows P f (links db)) db).
Proof.
  intros HI Hf. apply inv_with_links; [done|..].
  - intros q l (l0 & Hl0 & ->)%lookup_update_rows_Some. destruct (P q l0) eqn:HP.
    + destruct (Hf _ _ Hl0 HP) as [_ []]. by split.
    + destruct (xi_links _ HI _ _ Hl0). by split.
  - intros q1 q2 l1 l2 (l3 & H3 & ->)%lookup_update_rows_Some (l4 & H4 & ->)%lookup_update_rows_Some Hp Hr.
    apply (xi_repositories _ HI _ _ _ _ H3 H4);
      destruct (P q1 l3) eqn:HP1, (P q2 l4) eqn:HP2;
      repeat match goal with
      | HL : links db !! _ = Some ?l, HP : P _ ?l = true |- _ =>
          destruct (Hf _ _ HL HP) as [[? ?] _]; clear HP
      end; congruence.
  - intros q l Hl. rewrite lookup_update_rows, Hl. simpl. eexists. split; [done|].
    destruct (P q l) eqn:HP; [|done]. by apply (Hf _ _ Hl HP).
Qed.

Lemma inv_update_link q f db :
  ExternalInv db →
  (∀ l, links db !! q = Some l → link_kept l (f l) ∧ link_ok q (f l) db) →
  ExternalInv (update_link q f db).
Proof.
  intros HI Hf. unfold update_link.
  replace (alter f q (links db)) with (update_rows (λ k _, bool_decide (k = q)) (λ _, f) (links db)).
  { apply inv_update_links; [done|]. intros q' l Hl ->%bool_decide_eq_true. auto. }
  apply map_eq. intros k. rewrite lookup_update_rows, lookup_alter.
  destruct (decide (k = q)) as [->|Hne].
  - rewrite decide_True by done. destruct (links db !! q); simpl; [|done]. by rewrite bool_decide_true.
  - rewrite decide_False by done. destruct (links db !! k); simpl; [|done]. by rewrite bool_decide_false.
Qed.

(** *** The checkpoints *)

Lemma inv_with_checkpoints C db :
  ExternalInv db →
  (∀ q c, C !! q = Some c → checkpoint_ok q c db) →
  (∀ q, is_Some (C !! q) → is_Some (checkpoints db !! q) ∨ active_job_exists q db = false) →
  ExternalInv (with_checkpoints (λ _, C) db).
Proof.
  intros [H1 H2 H3 H4 H5 H6 H7] Hok Hnew. split; try done.
  - intros q l Hl. by destruct (H2 _ _ Hl).
  - intros q c Hc. by destruct (Hok _ _ Hc).
  - intros id j Hj. by destruct (H5 _ _ Hj).
  - intros id j Hj Ha. cbn. destruct (C !! ij_project j) as [c|] eqn:Hc; [|done]. exfalso.
    destruct (Hnew (ij_project j) ltac:(by rewrite Hc)) as [[c' Hc']|Hno].
    + rewrite (H7 _ _ Hj Ha) in Hc'. done.
    + unfold active_job_exists in Hno. rewrite exists_row_false in Hno.
      specialize (Hno _ _ Hj). cbn in Hno. rewrite bool_decide_true in Hno by done. simpl in Hno. congruence.
Qed.

Lemma inv_update_checkpoints (P : uuid → CheckpointRow → bool) f db :
  ExternalInv db →
  (∀ q c, checkpoints db !! q = Some c → P q c = true → checkpoint_ok q (f q c) db) →
  ExternalInv (with_checkpoints (update_rows P f) db).
Proof.
  intros HI Hf. change (with_checkpoints (update_rows P f) db)
    with (with_checkpoints (λ _, update_rows P f (checkpoints db)) db).
  apply inv_with_checkpoints; [done|..].
  - intros q c (c0 & Hc0 & ->)%lookup_update_rows_Some. destruct (P q c0) eqn:HP; [auto|].
    by apply (xi_checkpoints _ HI).
  - intros q [c (c0 & Hc0 & _)%lookup_update_rows_Some]. left. by exists c0.
Qed.

Lemma inv_alter_checkpoint q f db :
  ExternalInv db → (∀ c, checkpoints db !! q = Some c → checkpoint_ok q (f c) db) →
  ExternalInv (with_checkpoints (alter f q) db).
Proof.
  intros HI Hf. change (with_checkpoints (alter f q) db)
    with (with_checkpoints (λ _, alter f q (checkpoints db)) db).
  apply inv_with_checkpoints; [done|..].
  - intros q' c. rewrite lookup_alter. case_decide as Heq; [subst q'|by apply (xi_checkpoints _ HI)].
    destruct (checkpoints db !! q) as [c0|] eqn:Hc0; [|done]. intros [= <-]. auto.
  - intros q' [c Hc]. left. revert Hc. rewrite lookup_alter. case_decide; [|by exists c]. subst.
    destruct (checkpoints db !! q'); [|done]. eauto.
Qed.

(** *** The jobs *)

Lemma inv_with_jobs J db :
  ExternalInv db →
  (∀ id j, J !! id = Some j → job_ok j db) →
  (∀ i1 i2 j1 j2, J !! i1 = Some j1 → J !! i2 = Some j2 → ij_project j1 = ij_project j2 →
     job_active j1 = true → job_active j2 = true → i1 = i2) →
  (∀ id j, J !! id = Some j → job_active j = true → checkpoints db !! ij_project j = None) →
  ExternalInv (with_jobs (λ _, J) db).
Proof.
  intros [H1 H2 H3 H4 H5 H6 H7] Hok Hact Hex. split; try done.
  - intros q l Hl. by destruct (H2 _ _ Hl).
  - intros q c Hc. by destruct (H4 _ _ Hc).
  - intros id j Hj. by destruct (Hok _ _ Hj).
Qed.

(** A job that moves on keeps its place. *)
Lemma inv_update_jobs (P : uuid → InboundJobRow → bool) f db :
  ExternalInv db →
  (∀ id j, inbound_jobs db !! id = Some j → P id j = true →
     ij_project (f id j) = ij_project j ∧ job_ok (f id j) db
     ∧ (job_active (f id j) = true → job_active j = true)) →
  ExternalInv (with_jobs (update_rows P f) db).
Proof.
  intros HI Hf. change (with_jobs (update_rows P f) db)
    with (with_jobs (λ _, update_rows P f (inbound_jobs db)) db).
  set (g := λ id j, if P id j then f id j else j).
  assert (∀ id j, inbound_jobs db !! id = Some j →
            ij_project (g id j) = ij_project j ∧ job_ok (g id j) db
            ∧ (job_active (g id j) = true → job_active j = true)) as Hg.
  { intros id j Hj. unfold g. destruct (P id j) eqn:HP; [by apply Hf|]. split_and!; [done| |done].
    by eapply (xi_jobs _ HI). }
  apply inv_with_jobs; [done|..].
  - intros id j (j0 & Hj0 & ->)%lookup_update_rows_Some. by apply (Hg id).
  - intros i1 i2 j1 j2 (k1 & H1 & ->)%lookup_update_rows_Some (k2 & H2 & ->)%lookup_update_rows_Some Hp Ha1 Ha2.
    destruct (Hg _ _ H1) as (E1 & _ & A1), (Hg _ _ H2) as (E2 & _ & A2). unfold g in *.
    apply (xi_active _ HI i1 i2 _ _ H1 H2); [congruence|auto..].
  - intros id j (j0 & Hj0 & ->)%lookup_update_rows_Some Ha.
    destruct (Hg _ _ Hj0) as (E1 & _ & A1). unfold g in *. rewrite E1. apply (xi_exclusive _ HI _ _ Hj0). auto.
Qed.

Lemma inv_insert_job id j j' db :
  ExternalInv db → inbound_jobs db !! id = Some j →
  ij_project j' = ij_project j → job_ok j' db → (job_active j' = true → job_active j = true) →
  ExternalInv (with_jobs (insert id j') db).
Proof.
  intros HI Hj Hp Hok Ha.
  change (with_jobs (insert id j') db) with (with_jobs (λ _, <[id := j']> (inbound_jobs db)) db).
  replace (<[id := j']> (inbound_jobs db))
    with (update_rows (λ k _, bool_decide (k = id)) (λ _ _, j') (inbound_jobs db)).
  { apply (inv_update_jobs (λ k _, bool_decide (k = id)) (λ _ _, j')); [done|].
    intros id' j0 Hj0 ->%bool_decide_eq_true. assert (j0 = j) as -> by congruence. by split_and!. }
  apply map_eq. intros k. rewrite lookup_update_rows, lookup_insert.
  destruct (decide (id = k)) as [<-|Hne].
  - rewrite Hj. simpl. by rewrite bool_decide_true.
  - destruct (inbound_jobs db !! k); simpl; [|done]. by rewrite bool_decide_false.
Qed.
End invariant.
