(* ===== verification/ExternalSystem.v ===== *)
(** * External repositories: the system, and a linked project

    Requests, workers and the other components as the steps of one system.  A
    worker is the program of its claim; the steps of several programs
    interleave, and a crash ends one anywhere.  One server process runs, and in
    it one inbound worker per provider, which takes up its claims one after the
    other ([spawn_external_git_inbound_worker]): it claims when no program of an
    earlier claim of its provider runs ([provider_idle]), while the workers of
    the other providers go on.  Nothing else keeps a job from being claimed
    again when its lease of fifteen minutes is over.  Checkpoints need no such
    order.  The identifier of a new job is a fresh UUID: no running program has
    claimed it ([fresh_job]). *)
From S2P Require Import Prelude Store Text Paths AccessModel AccessSystem WorkspaceModel WorkspaceProjects.
From S2P Require Import Collaboration WorkspaceSystem Programs ExternalStatements.
From S2P Require Import ExternalImport ExternalCheckpoints ExternalInbound.

Open Scope Z_scope.

(** ** Requests *)

Inductive ExternalOp : Type :=
| XWorkspace (op : WorkspaceOp)
| XLink (provider_id : option text) (valid : bool) (checkpoint_branch : text) (project actor : uuid)
    (details : RemoteRepositoryDetails)
| XUnlink (project : uuid)
| XReauthorize (user : uuid) (provider : text)
| XEnqueueCheckpoint (project : uuid)
| XEnqueueSync (job : uuid) (c : EnqueueInboundSync)
| XCreateImport (project job : uuid) (checkpoint_branch : text) (c : CreateImportProject).

Definition STALE_CHECKPOINT_MINUTES : Z := 10.
Definition STALE_INBOUND_MINUTES : Z := 15.
Definition stale_before (now : time) (minutes : Z) : time := now - seconds (60 * minutes).

(** ** Tasks *)

(** A running claim, with the provider of the worker and the inbound job it has
    claimed. *)
Record ExternalTask : Type := MkExternalTask { xt_claim : option (text * uuid); xt_program : WorkerProg unit }.
Definition xt_job (t : ExternalTask) : option uuid := snd <$> xt_claim t.
Record ExternalWorld : Type := MkExternalWorld { xw_db : ExternalDB; xw_tasks : list ExternalTask }.

Definition claimed_task {A} (task : A → ExternalTask) (r : result sqlx_error (option A)) :
    list ExternalTask :=
  match r with Ok (Some claimed) => [task claimed] | _ => [] end.

(** The tables of versioning and of the cleanup queue, and the grants of the
    users, change as their components like; the grant of a link stays. *)
Record background (db db' : ExternalDB) : Prop := MkBackground {
  bg_links : links db' = links db;
  bg_checkpoints : checkpoints db' = checkpoints db;
  bg_jobs : inbound_jobs db' = inbound_jobs db;
  bg_grants : ∀ q l, links db !! q = Some l → is_Some (grants db' !! (lk_linked_by l, lk_provider l));
  bg_access : access (workspace db') = access (workspace db);
  bg_rows : project_rows (workspace db') = project_rows (workspace db);
  bg_settings : settings (workspace db') = settings (workspace db);
  bg_documents : documents (workspace db') = documents (workspace db);
  bg_assets : assets (workspace db') = assets (workspace db);
  bg_directories : directories (workspace db') = directories (workspace db);
  bg_updates : collab_updates (workspace db') = collab_updates (workspace db);
  bg_snapshots : collab_snapshots (workspace db') = collab_snapshots (workspace db);
  bg_next : next_update (workspace db') = next_update (workspace db);
}.

Section system.
Context `{Yrs} (update_retention : Z).
(** What the workers are given: how identifiers are written, the mime_guess
    crate, whether objects are stored outside the database, and how the message
    of a checkpoint is written. *)
Context (uuid_text : uuid → text) (guess_content_type : text → text) (storage : bool)
  (message : Z → list (text * text) → list text → text).

Definition run_external (s : schedule) (now : time) (op : ExternalOp) (db : ExternalDB) : ExternalDB :=
  match op with
  | XWorkspace op => db <| workspace := run_workspace update_retention s now op (workspace db) |>
  | XLink provider_id valid checkpoint_branch project actor details =>
      (persist_external_git_repository_link s now provider_id valid checkpoint_branch project actor
         details db).2
  | XUnlink project => (unlink_repository_link s project db).2
  | XReauthorize user provider =>
      (transact s Err (_ ← resume_work s Err user provider now; mret (Ok () : result sqlx_error unit)) db).2
  | XEnqueueCheckpoint project => (enqueue_checkpoint s now project db).2
  | XEnqueueSync job c => (enqueue_sync s now job c db).2
  | XCreateImport project job checkpoint_branch c =>
      (create_import_project s now project job checkpoint_branch c db).2
  end.

Definition inbound_task (provider : text) (claimed : ClaimedInboundJob) : ExternalTask :=
  MkExternalTask (Some (provider, cj_id claimed)) (run_inbound uuid_text guess_content_type storage claimed).
Definition checkpoint_task (claimed : ClaimedCheckpoint) : ExternalTask :=
  MkExternalTask None (run_checkpoint message claimed).

(** The claims of the two workers. *)
Definition claim_inbound (s : schedule) (now : time) (provider : text) (db : ExternalDB) :
    list ExternalTask * ExternalDB :=
  let '(claimed, db) := autocommit s 0 (claim_due_job provider (stale_before now STALE_INBOUND_MINUTES) now) db in
  (claimed_task (inbound_task provider) claimed, db).
Definition claim_checkpoint (s : schedule) (now : time) (provider : text) (db : ExternalDB) :
    list ExternalTask * ExternalDB :=
  let '(claimed, db) := autocommit s 0 (claim_due provider (stale_before now STALE_CHECKPOINT_MINUTES) now) db in
  (claimed_task checkpoint_task claimed, db).

(** The worker of the provider has come to the end of its last claim. *)
Definition provider_idle (provider : text) (w : ExternalWorld) : Prop :=
  ∀ t, t ∈ xw_tasks w → fst <$> xt_claim t ≠ Some provider.

(** The job a request makes, under an identifier no running program has. *)
Definition new_job (op : ExternalOp) : option uuid :=
  match op with
  | XEnqueueSync job _ | XCreateImport _ job _ _ => Some job
  | _ => None
  end.
Definition fresh_job (op : ExternalOp) (w : ExternalWorld) : Prop :=
  ∀ t id, t ∈ xw_tasks w → xt_job t = Some id → new_job op ≠ Some id.

Definition external_op_ok (op : ExternalOp) : Prop :=
  match op with
  | XWorkspace (OCreateProject g) => accepts_entry_file_path (g_type g) (g_entry_file_path g) = true
  | _ => True
  end.

Inductive external_step : ExternalWorld → ExternalWorld → Prop :=
| step_external s now op w :
    external_op_ok op → fresh_job op w → external_step w (MkExternalWorld (run_external s now op (xw_db w)) (xw_tasks w))
| step_program l1 t l2 w p' db' :
    xw_tasks w = l1 ++ t :: l2 → prog_step (xt_program t) (xw_db w) p' db' →
    external_step w (MkExternalWorld db' (l1 ++ MkExternalTask (xt_claim t) p' :: l2))
| step_end l1 t l2 w :
    xw_tasks w = l1 ++ t :: l2 → external_step w (MkExternalWorld (xw_db w) (l1 ++ l2))
| step_claim_inbound s now provider w :
    provider_idle provider w →
    external_step w (MkExternalWorld (claim_inbound s now provider (xw_db w)).2
      ((claim_inbound s now provider (xw_db w)).1 ++ xw_tasks w))
| step_claim_checkpoint s now provider w :
    external_step w (MkExternalWorld (claim_checkpoint s now provider (xw_db w)).2
      ((claim_checkpoint s now provider (xw_db w)).1 ++ xw_tasks w))
| step_background w db' :
    background (xw_db w) db' → external_step w (MkExternalWorld db' (xw_tasks w)).
End system.

(** * External repositories: an import

    Alice, who has connected her account of a provider, imports a repository
    with one document and one asset: the tables, the answers of the outside and
    the states of the worker the theorems are instantiated at. *)
Definition gitlab : text := lit "gitlab".
Definition paper : uuid := 12%N.
Definition import_job : uuid := 70%N.
Definition imported_sha : text := repeat 97%N 40.

Definition connected : GrantRow :=
  MkGrantRow (lit "7") (lit "alice") [] None (lit "https://toss/callback") [lit "api"] None GrantActive None 0 0.
Definition connected_db : ExternalDB :=
  MkExternalDB (blank_workspace sample_db) {[ (alice, gitlab) := connected ]} ∅ ∅ ∅.

Definition paper_import : CreateImportProject :=
  MkCreateImport alice Typst Xetex gitlab (lit "41") (lit "alice/paper") (lit "https://gitlab/alice/paper")
    (lit "https://gitlab/alice/paper.git") (lit "main") (lit "main").
Definition create_paper : ExternalOp := XCreateImport paper import_job (lit "toss/12") paper_import.

(** The checkout, and a provider that answers; the branch of the checkpoints is
    there from its tenth answer on. *)
Definition checkout : list TreeEntry :=
  [EntryDirectory (Some (lit ".git")) None;
   EntryFile (Some (lit "main.typ")) (Some (lit "= Paper"));
   EntryDirectory (Some (lit "figures"))
     (Some [EntryFile (Some (lit "plot.png")) (Some (lit "png"))])].
Definition command_answer (i : nat) (args : list text) : result ExternalGitCommandFailure text :=
  match args with
  | first :: _ =>
      if text_eqb first (lit "rev-parse") then Ok (imported_sha ++ [10%N]) else
      if text_eqb first (lit "ls-remote") && (9 <=? i)%nat
      then Ok (imported_sha ++ lit " refs/heads/toss/12") else Ok []
  | [] => Ok []
  end.
Definition answers (i : nat) (X : Type) (e : ExternalGitEvent X) : X :=
  match e in ExternalGitEvent X return X with
  | RunCommand _ _ args => command_answer i args
  | FlushProjectCollaboration _ => Ok ()
  | FlushPendingServerCommit _ _ _ _ => Ok ()
  | FindCommitIdentity _ => Ok (Some (lit "alice", lit "alice@example.com"))
  | ListCommitIdentities _ => Ok []
  | EnsureRepository _ => Ok (Some (lit "/git/12"))
  | MarkRepositoryPending _ => Ok ()
  | CreateCheckpointCommit _ _ _ _ _ => Ok imported_sha
  | MakeCheckout => Ok (lit "/checkout")
  | ScanCheckout _ => checkout
  | NewUuid => 90%N
  | NewDocumentIds => λ _, 91%N
  | PutObject _ _ _ => Ok ()
  | ReadText _ => Ok (lit "= Paper")
  | ReadBytes _ => Ok (lit "png")
  | CleanupObjects _ => ()
  | DeleteQueuedObjects _ => ()
  | InvalidateProject _ _ => ()
  | RecordEvent _ _ _ => ()
  end.

Definition write_uuid (id : uuid) : text := [id].
Definition octet_stream (_ : text) : text := lit "application/octet-stream".
Definition checkpoint_message (_ : Z) (_ : list (text * text)) (_ : list text) : text := lit "Checkpoint".

(** Created, claimed, and with the worker after a number of its steps. *)
Definition paper_db : ExternalDB := run_external retention healthy 5 create_paper connected_db.
Definition claimed_paper : list ExternalTask * ExternalDB :=
  claim_inbound write_uuid octet_stream false healthy 6 gitlab paper_db.
Definition the_claim : ClaimedInboundJob := MkClaimedJob import_job paper 1 PhaseFetch None None.
Definition worker : WorkerProg unit := run_inbound write_uuid octet_stream false the_claim.
Definition worker_after (n : nat) : WorkerProg unit * ExternalDB :=
  run_steps answers healthy 7 0 n worker claimed_paper.2.
Definition paper_at (n : nat) : ExternalWorld :=
  MkExternalWorld (worker_after n).2 [MkExternalTask (Some (gitlab, import_job)) (worker_after n).1].

(** A checkpoint of the imported project. *)
Definition imported_db : ExternalDB := (worker_after 40).2.
Definition queued_db : ExternalDB := run_external retention healthy 8 (XEnqueueCheckpoint paper) imported_db.
Definition checkpoint : WorkerProg (result CheckpointError (Z * text)) := process_checkpoint checkpoint_message paper.
