(* ===== verification/ExternalSteps.v ===== *)
(** * External repositories: the operations keep the invariant

    What every request, claim and transaction of a worker does to the tables:
    it keeps the invariant, the workspace versions grow, and the jobs follow
    the edges of the one who moves them. *)
From S2P Require Import Prelude Store Text Programs Paths AccessModel WorkspaceModel.
From S2P Require Import WorkspaceStatements WorkspaceProjects Collaboration.
From S2P Require Import WorkspaceSystem WorkspaceFrames WorkspaceSteps WorkspaceImports.
From S2P Require Import WorkspaceTheorems ExternalStatements ExternalImport.
From S2P Require Import ExternalCheckpoints ExternalInbound ExternalSystem ExternalInvariant.

Open Scope Z_scope.

(** A block on the workspace tables. *)
Lemma in_workspace_wp {R A} (m : Tx WorkspaceDB R A) E Q (db : ExternalDB) n :
  wp m E (λ a w n', Q a (db <| workspace := w |>) n') (workspace db) n → wp (in_workspace m) E Q db n.
Proof. unfold wp, in_workspace. by destruct (m (workspace db) n) as [r|[[a w] n']]. Qed.

Section steps.
Context `{YrsLaws}.
Implicit Types (db : ExternalDB).

(** From a state where the invariant holds; the jobs that enter are [new]. *)
Record moves (new : uuid → Prop) (edge : uuid → JobStage → JobStage → Prop) (db db' : ExternalDB) :
    Prop := MkMoves {
  mv_inv : ExternalInv db';
  mv_versions : versions_grow (workspace db) (workspace db');
  mv_jobs : ∀ id, row_change (edge id) (inbound_jobs db !! id) (inbound_jobs db' !! id);
  mv_new : ∀ id, inbound_jobs db !! id = None → is_Some (inbound_jobs db' !! id) → new id;
}.
(** No job moves. *)
Record quiet (db db' : ExternalDB) : Prop := MkQuiet {
  qu_inv : ExternalInv db';
  qu_versions : versions_grow (workspace db) (workspace db');
  qu_jobs : inbound_jobs db' = inbound_jobs db;
}.

Lemma still_quiet db : ExternalInv db → quiet db db.
Proof. by split. Qed.
Lemma quiet_then_quiet db1 db2 db3 : quiet db1 db2 → quiet db2 db3 → quiet db1 db3.
Proof. intros [] []. split; [done|by etrans|congruence]. Qed.
Lemma quiet_moves new edge db db' : quiet db db' → moves new edge db db'.
Proof.
  intros [? ? Hj]. split; [done..| |].
  - intros id. rewrite Hj. apply row_same.
  - intros id Hid [j Hj']. congruence.
Qed.
Lemma quiet_then_moves new edge db1 db2 db3 : quiet db1 db2 → moves new edge db2 db3 → moves new edge db1 db3.
Proof. intros [? ? Hj] [? ? Hm Hn]. split; [done|by etrans|..]; intros id; rewrite <-Hj; [apply Hm|apply Hn]. Qed.
Lemma moves_then_quiet new edge db1 db2 db3 : moves new edge db1 db2 → quiet db2 db3 → moves new edge db1 db3.
Proof. intros [? ? Hm Hn] [? ? Hj]. split; [done|by etrans|..]; intros id; rewrite Hj; [apply Hm|apply Hn]. Qed.
Lemma moves_mono new new' (edge edge' : uuid → JobStage → JobStage → Prop) db db' :
  (∀ id, new id → new' id) → (∀ id s s', edge id s s' → edge' id s s') →
  moves new edge db db' → moves new' edge' db db'.
Proof.
  intros Hn He [? ? Hm Hnew]. split; [done..| |].
  - intros id. eapply row_change_mono; [|apply Hm]. apply He.
  - intros id Hid Hj. by apply Hn, Hnew.
Qed.

(** *** Links *)

Lemma quiet_links L db :
  ExternalInv (with_links L db) → quiet db (with_links L db).
Proof. intros HI. split; [done| |done]. intros q p Hp. exists p. split; [done|lia]. Qed.

(** Updates of the columns no invariant speaks of. *)
Lemma quiet_update_link q f db :
  ExternalInv db →
  (∀ l, link_kept l (f l) ∧ lk_linked_by (f l) = lk_linked_by l
        ∧ lk_synced_workspace_version (f l) = lk_synced_workspace_version l) →
  quiet db (update_link q f db).
Proof.
  intros HI Hf. apply quiet_links. apply inv_update_link; [done|]. intros l Hl.
  destruct (Hf l) as ([Hp Hr] & Hb & Hs). split; [done|]. destruct (xi_links _ HI _ _ Hl) as [H1 H2 H3].
  split; [done|by rewrite Hb, Hp|by rewrite Hs].
Qed.

Lemma quiet_with_checkpoints f db :
  ExternalInv (with_checkpoints f db) → quiet db (with_checkpoints f db).
Proof. intros HI. split; [done| |done]. intros q p Hp. exists p. split; [done|lia]. Qed.

Lemma quiet_alter_checkpoint q f db :
  ExternalInv db → (∀ c, checkpoint_ok q c db → checkpoint_ok q (f c) db) →
  quiet db (with_checkpoints (alter f q) db).
Proof.
  intros HI Hf. apply quiet_with_checkpoints, inv_alter_checkpoint; [done|].
  intros c Hc. by apply Hf, (xi_checkpoints _ HI).
Qed.

Lemma linked_project q l db : ExternalInv db → links db !! q = Some l → is_Some (project_rows (workspace db) !! q).
Proof. intros HI Hl. apply (xi_links _ HI _ _ Hl). Qed.

Lemma repository_taken_false q provider repository db :
  repository_taken q provider repository db = false →
  ∀ q' l, q' ≠ q → links db !! q' = Some l →
  ¬ (lk_provider l = provider ∧ lk_repository_id l = repository).
Proof.
  unfold repository_taken. rewrite exists_row_false. intros Ht q' l Hne Hl [<- <-].
  specialize (Ht _ _ Hl). cbn in Ht. rewrite bool_decide_false in Ht by done.
  by rewrite !(proj2 (text_eqb_true _ _)) in Ht.
Qed.

(** A link is inserted, or one to the same repository takes its place. *)
Lemma inv_put_link q l db :
  ExternalInv db → link_ok q l db →
  (∀ q' l', q' ≠ q → links db !! q' = Some l' →
     ¬ (lk_provider l' = lk_provider l ∧ lk_repository_id l' = lk_repository_id l)) →
  (∀ l0, links db !! q = Some l0 → lk_provider l0 = lk_provider l) →
  ExternalInv (with_links (<[q := l]> (links db)) db).
Proof.
  intros HI Hok Hrep Hprov. apply inv_with_links; [done|..].
  - intros q' l' [[<- <-]|[Hne Hl]]%lookup_insert_Some; [by destruct Hok|].
    by destruct (xi_links _ HI _ _ Hl).
  - intros q1 q2 l1 l2 [[<- <-]|[Hne1 H1]]%lookup_insert_Some [[<- <-]|[Hne2 H2]]%lookup_insert_Some Hp Hr.
    + done.
    + by destruct (Hrep _ _ (not_eq_sym Hne2) H2).
    + by destruct (Hrep _ _ (not_eq_sym Hne1) H1).
    + by eapply (xi_repositories _ HI).
  - intros q' l' Hl'. rewrite lookup_insert. case_decide; [|by exists l']. subst. exists l.
    split; [done|]. symmetry. auto.
Qed.

Lemma link_references_ok r db :
  link_references r db = true →
  is_Some (project_rows (workspace db) !! nl_project r)
  ∧ is_Some (grants db !! (nl_actor r, nl_provider r)).
Proof. unfold link_references. by rewrite andb_true_iff, !bool_decide_eq_true. Qed.

Lemma insert_repository_link_quiet r db db' :
  ExternalInv db → insert_repository_link r db = Ok ((), db') →
  quiet db db' ∧ checkpoints db' = checkpoints db ∧ links db' = <[nl_project r := fresh_link r]> (links db).
Proof.
  intros HI. unfold insert_repository_link. case_bool_decide as Hno; [done|].
  destruct (repository_taken _ _ _ _) eqn:Ht; [done|].
  destruct (link_references r db) eqn:Hr; simpl; [|done]. intros [= <-].
  apply link_references_ok in Hr as [Hp Hg]. split; [|done]. apply quiet_links, inv_put_link; [done|..].
  - split; [done..|by left].
  - by apply repository_taken_false.
  - intros l0 Hl0. by destruct Hno.
Qed.

Lemma upsert_repository_link_quiet r b db db' :
  ExternalInv db → upsert_repository_link r db = Ok (b, db') → quiet db db'.
Proof.
  intros HI. unfold upsert_repository_link. destruct (links db !! nl_project r) as [l|] eqn:Hl.
  - destruct (_ && _) eqn:Hsame; simpl; [|intros [= _ <-]; by apply still_quiet].
    apply andb_true_iff in Hsame as [Hp%text_eqb_true Hid%text_eqb_true].
    destruct (link_references r db) eqn:Hr; simpl; [|done]. intros [= _ <-].
    apply link_references_ok in Hr as [Hpr Hg].
    destruct (xi_links _ HI _ _ Hl) as [_ _ Hs].
    apply quiet_links, inv_put_link; [done|..].
    + split; [done|by rewrite <-Hp in Hg|done].
    + intros q' l' Hne Hl' [E1 E2]. destruct Hne. by eapply (xi_repositories _ HI).
    + intros l0 Hl0. cbn. congruence.
  - destruct (insert_repository_link r db) as [[[] db1]|] eqn:Hi; [|done]. intros [= _ <-].
    by apply insert_repository_link_quiet in Hi as [? _].
Qed.

Lemma persist_link_quiet s now provider_id valid branch project actor details db :
  ExternalInv db →
  quiet db (persist_external_git_repository_link s now provider_id valid branch project actor details db).2.
Proof.
  intros HI. unfold persist_external_git_repository_link. destruct provider_id as [provider|]; [|by apply still_quiet].
  destruct valid; simpl; [|by apply still_quiet].
  set (q := upsert_repository_link _).
  pose proof (autocommit_inv (λ db', quiet db db') s 0 q db (still_quiet _ HI)) as Hq.
  destruct (autocommit s 0 q db) as [r db'] eqn:Ha. simpl in Hq.
  assert (quiet db db') as Hdb by (apply Hq; intros ? ? ?; by eapply upsert_repository_link_quiet).
  destruct r as [[]|[]]; done.
Qed.

(** Unlinking takes the rows of the project along; none of its jobs is active. *)
Lemma delete_repository_link_moves new edge q db :
  ExternalInv db → active_job_exists q db = false → moves new edge db (delete_repository_link q db).2.
Proof.
  intros HI Hact. unfold delete_repository_link. destruct (links db !! q) as [l|] eqn:Hl;
    [|by apply quiet_moves, still_quiet].
  unfold active_job_exists in Hact. rewrite exists_row_false in Hact. simpl.
  set (db' := _ <| inbound_jobs := _ |>).
  assert (∀ id j, inbound_jobs db' !! id = Some j ↔ inbound_jobs db !! id = Some j ∧ ij_project j ≠ q) as Hjobs.
  { intros id j. unfold db'. cbn. rewrite lookup_delete_rows_Some, bool_decide_eq_false. done. }
  assert (versions_grow (workspace db) (workspace db')) as Hg.
  { intros p row Hp. exists row. split; [done|lia]. }
  split; [|done| |].
  - destruct HI as [[HS HE HA] H2 H3 H4 H5 H6 H7].
    assert (links db' = delete q (links db)) as El by done.
    assert (checkpoints db' = delete q (checkpoints db)) as Ec by done.
    split; rewrite ?El, ?Ec.
    + assert (calm 0%N (workspace db) (workspace db')) as Hc by by apply calm_queue.
      by apply (workspace_inv_calm _ _ _ Hc).
    + intros q' l' [Hne Hl']%lookup_delete_Some. eapply (link_ok_mono _ _ db); [done| |auto].
      by apply (lo_grant _ _ _ (H2 _ _ Hl')).
    + intros q1 q2 l1 l2 [_ ?]%lookup_delete_Some [_ ?]%lookup_delete_Some. by apply H3.
    + intros q' c [Hne Hc]%lookup_delete_Some. eapply (checkpoint_ok_mono _ _ db); [done| |auto].
      rewrite El. by rewrite lookup_delete_ne.
    + intros id j [Hj Hne]%Hjobs. eapply (job_ok_mono _ db); [done| |eauto]. intros l' Hl'.
      exists l'. split; [|done]. rewrite El. by rewrite lookup_delete_ne.
    + intros i1 i2 j1 j2 [? _]%Hjobs [? _]%Hjobs. by apply H6.
    + intros id j [Hj Hne]%Hjobs Ha. rewrite lookup_delete_ne by done. eauto.
  - intros id. destruct (inbound_jobs db !! id) as [j|] eqn:Hj.
    + destruct (decide (ij_project j = q)) as [Hq|Hq].
      * replace (inbound_jobs db' !! id) with (@None InboundJobRow).
        { apply row_gone. specialize (Hact _ _ Hj). cbn in Hact. by rewrite bool_decide_true in Hact. }
        symmetry. destruct (inbound_jobs db' !! id) as [j'|] eqn:Hj'; [|done].
        apply Hjobs in Hj' as [Hj' Hne]. congruence.
      * rewrite (proj2 (Hjobs id j) (conj Hj Hq)). apply row_same.
    + replace (inbound_jobs db' !! id) with (@None InboundJobRow); [apply row_same|].
      symmetry. destruct (inbound_jobs db' !! id) as [j'|] eqn:Hj'; [|done].
      apply Hjobs in Hj' as [Hj' _]. congruence.
  - intros id Hid [j [Hj _]%Hjobs]. congruence.
Qed.

Lemma unlink_moves new edge s q db :
  ExternalInv db → moves new edge db (unlink_repository_link s q db).2.
Proof.
  intros HI. unfold unlink_repository_link. cbv zeta.
  apply (transact_inv (λ db', moves new edge db db')); [by apply quiet_moves, still_quiet|].
  apply wp_bind, wp_reads; [done|]. destruct (project_workspace_version q db) as [v|]; [|by apply wp_early].
  apply wp_bind, wp_reads; [done|]. apply wp_bind, wp_reads; [done|].
  destruct (_ || _) eqn:Hno; [by apply wp_early|]. apply orb_false_iff in Hno as [_ Hno].
  apply wp_bind, wp_exec; [done|]. intros row db' [= E].
  apply wp_ret. rewrite (surjective_pairing (delete_repository_link q db)) in E. injection E as _ <-.
  by apply delete_repository_link_moves.
Qed.

(** *** The queue of checkpoints *)

Lemma resumed_checkpoint_ok phase now q c db :
  checkpoint_ok q c db → checkpoint_ok q (resumed_checkpoint phase now c) db.
Proof. intros [H1 H2 H3 H4 H5]. split; cbn; try done. Qed.

Lemma insert_queue_quiet q v now db :
  ExternalInv db → active_job_exists q db = false → version_reached q v (workspace db) →
  quiet db (insert_queue q v now db).2.
Proof.
  intros HI Hact Hv. unfold insert_queue. case_bool_decide as Hl; [by apply still_quiet|]. cbn [snd].
  set (c := match checkpoints db !! q with None => _ | Some _ => _ end).
  assert (checkpoint_ok q c db) as Hok.
  { unfold c. destruct (checkpoints db !! q) as [c0|] eqn:Hc0.
    - destruct (xi_checkpoints _ HI _ _ Hc0). split; cbn; done.
    - split; cbn; try done. by apply not_eq_None_Some. }
  apply quiet_with_checkpoints.
  change (with_checkpoints (insert q c) db) with (with_checkpoints (λ _, <[q := c]> (checkpoints db)) db).
  apply inv_with_checkpoints; [done|..].
  - intros q' c' [[<- <-]|[_ Hc']]%lookup_insert_Some; [done|by apply (xi_checkpoints _ HI)].
  - intros q' [c' [[<- _]|[_ Hc']]%lookup_insert_Some]; [by right|left; by exists c'].
Qed.

Lemma enqueue_checkpoint_quiet s now q db :
  ExternalInv db → quiet db (enqueue_checkpoint s now q db).2.
Proof.
  intros HI. unfold enqueue_checkpoint.
  apply (transact_inv (λ db', quiet db db')); [by apply still_quiet|].
  apply wp_bind, wp_reads; [done|].
  destruct (project_workspace_version q db) as [v|] eqn:Hv; [|apply wp_ret; by apply still_quiet].
  apply wp_bind, wp_reads; [done|].
  destruct (target_for_update q db) as [target|] eqn:Ht; [|apply wp_ret; by apply still_quiet].
  destruct (ct_inbound_active target) eqn:Hina; [apply wp_ret; by apply still_quiet|].
  unfold target_for_update in Ht. apply fmap_Some in Ht as (l & Hl & ->). cbn [ct_synced_workspace_version ct_queued_version] in *.
  destruct (cq_target_workspace_version <$> checkpoints db !! q) as [queued|].
  - apply wp_bind, wp_writes; [done|]. apply wp_bind, wp_writes; [done|]. apply wp_ret.
    assert (quiet db (resume_queue q now db)) as Hq1.
    { apply quiet_alter_checkpoint; [done|]. intros c. apply resumed_checkpoint_ok. }
    eapply quiet_then_quiet; [exact Hq1|]. apply quiet_update_link; [apply Hq1|done].
  - destruct (_ && _); [apply wp_ret; by apply still_quiet|].
    apply wp_bind, wp_exec; [done|]. intros r db' [= E]. apply wp_ret.
    rewrite (surjective_pairing (insert_queue q v now db)) in E. injection E as _ <-.
    apply insert_queue_quiet; [done..|]. unfold project_workspace_version in Hv.
    apply fmap_Some in Hv as (p & Hp & ->). exists p. split; [done|lia].
Qed.

Lemma claim_due_quiet s provider stale now db :
  ExternalInv db → quiet db (autocommit s 0 (claim_due provider stale now) db).2.
Proof.
  intros HI. apply (autocommit_inv (λ db', quiet db db')); [by apply still_quiet|].
  intros r db'. unfold claim_due. destruct (first_by _ _ _) as [[q c]|] eqn:Hf; [|intros [= _ <-]; by apply still_quiet].
  destruct (i32_max <=? cq_attempt_count c) eqn:Hmax; [done|]. intros [= _ <-].
  apply first_by_Some in Hf as [[Hc _]%elem_of_select _].
  apply quiet_with_checkpoints.
  change (with_checkpoints (insert q (claimed_checkpoint now c)) db)
    with (with_checkpoints (λ _, <[q := claimed_checkpoint now c]> (checkpoints db)) db).
  apply inv_with_checkpoints; [done|..].
  - intros q' c' [[<- <-]|[_ Hc']]%lookup_insert_Some; [|by apply (xi_checkpoints _ HI)].
    destruct (xi_checkpoints _ HI _ _ Hc) as [H1 H2 H3 H4 H5]. split; cbn; try done. lia.
  - intros q' [c' [[<- _]|[_ Hc']]%lookup_insert_Some]; left; [by exists c|by exists c'].
Qed.
End steps.
