(* ===== verification/ExternalJobs.v ===== *)
(** * External repositories: how jobs move

    The statements and transactions on inbound jobs, as moves of the stages:
    queueing, claiming, the worker's phases, the application of the content,
    completion and failure; and the transactions of a checkpoint, which move no
    job. *)
From S2P Require Import Prelude Store Text Programs Paths AccessModel WorkspaceModel.
From S2P Require Import WorkspaceStatements WorkspaceProjects Collaboration.
From S2P Require Import WorkspaceSystem WorkspaceFrames WorkspaceSteps WorkspaceImports.
From S2P Require Import WorkspaceTheorems ExternalStatements ExternalImport.
From S2P Require Import ExternalCheckpoints ExternalInbound ExternalSystem ExternalInvariant ExternalSteps.

Open Scope Z_scope.

(** ** The content *)

(** Nothing a reader of a project sees has changed. *)
Record untouched (db db' : WorkspaceDB) : Prop := MkUntouched {
  un_access : access db' = access db;
  un_rows : project_rows db' = project_rows db;
  un_settings : settings db' = settings db;
  un_documents : documents db' = documents db;
  un_assets : assets db' = assets db;
  un_directories : directories db' = directories db;
  un_updates : collab_updates db' = collab_updates db;
  un_snapshots : collab_snapshots db' = collab_snapshots db;
}.
#[export] Instance untouched_preorder : PreOrder untouched.
Proof. split; [by split|]. intros ??? [] []. split; congruence. Qed.

(** The content of the job's project has been replaced: the job goes from
    running to applied, and the new version is the one it keeps. *)
Record imported (id : uuid) (db db' : ExternalDB) : Prop := MkImported {
  im_job : ∃ j j' sha v l p p',
    inbound_jobs db !! id = Some j ∧ job_stage j = Some Running
    ∧ inbound_jobs db' !! id = Some j' ∧ job_stage j' = Some (AppliedRunning sha v)
    ∧ links db' !! ij_project j = Some l ∧ lk_last_import_sha l = Some sha
    ∧ lk_last_import_branch l = Some (ij_source_branch j)
    ∧ project_rows (workspace db) !! ij_project j = Some p
    ∧ project_rows (workspace db') !! ij_project j = Some p'
    ∧ p_workspace_version p' = v ∧ v = p_workspace_version p + 1
    ∧ p_content_epoch p' = p_content_epoch p + 1;
}.

(** Some job goes from running to applied. *)
Definition newly_applied (db db' : ExternalDB) : Prop :=
  ∃ id j j' sha v, inbound_jobs db !! id = Some j ∧ job_stage j = Some Running
    ∧ inbound_jobs db' !! id = Some j' ∧ job_stage j' = Some (AppliedRunning sha v).

Lemma not_newly_applied (db db' : ExternalDB) : inbound_jobs db' = inbound_jobs db → ¬ newly_applied db db'.
Proof. intros E (id & j & j' & sha & v & Hj & Hs & Hj' & Hs'). rewrite E in Hj'. congruence. Qed.
Lemma not_newly_applied_insert id j s (db db' : ExternalDB) :
  inbound_jobs db' = <[id := j]> (inbound_jobs db) → job_stage j = Some s →
  (∀ sha v, s ≠ AppliedRunning sha v) → ¬ newly_applied db db'.
Proof.
  intros E Hj Hs (id' & j1 & j2 & sha & v & H1 & Hs1 & H2 & Hs2). rewrite E in H2.
  apply lookup_insert_Some in H2 as [[-> ->]|[_ H2]]; [|congruence].
  apply (Hs sha v). congruence.
Qed.

Section jobs.
Context `{YrsLaws}.
Implicit Types (db : ExternalDB).

(** What a program that has claimed [o] does, and what the others leave it. *)
Definition own (o : option uuid) (id : uuid) (s s' : JobStage) : Prop := o = Some id ∧ program_edge s s'.
Record guarantee (o : option uuid) (db db' : ExternalDB) : Prop := MkGuarantee {
  gu_moves : moves (λ _, False) (own o) db db';
  gu_content : untouched (workspace db) (workspace db') ∨ ∃ id, o = Some id ∧ imported id db db';
  gu_applied : newly_applied db db' → ∃ id, o = Some id ∧ imported id db db';
}.
(** The job of a program, while it is running. *)
Definition running_row (id : uuid) (db : ExternalDB) : option InboundJobRow :=
  j ← inbound_jobs db !! id; if processing_job j then Some j else None.
Definition rely (o : option uuid) (db db' : ExternalDB) : Prop :=
  versions_grow (workspace db) (workspace db')
  ∧ ∀ id, o = Some id → running_row id db' = running_row id db.
#[export] Instance rely_preorder o : PreOrder (rely o).
Proof.
  split; [by split|]. intros db1 db2 db3 [G1 J1] [G2 J2]. split; [by etrans|].
  intros id Ho. by rewrite J2, J1.
Qed.

Lemma running_row_Some id j db :
  running_row id db = Some j ↔ inbound_jobs db !! id = Some j ∧ processing_job j = true.
Proof.
  unfold running_row. rewrite bind_Some. split.
  - intros (j' & Hj & Hr). destruct (processing_job j') eqn:Hp; [|done]. by injection Hr as <-.
  - intros [Hj Hp]. exists j. by rewrite Hp.
Qed.
Lemma running_row_None id j db :
  inbound_jobs db !! id = Some j → processing_job j = false → running_row id db = None.
Proof. unfold running_row. intros -> Hp. simpl. by rewrite Hp. Qed.

Lemma row_gone_running j : job_active j = false → processing_job j = false.
Proof. unfold job_active, processing_job. rewrite bool_decide_eq_false. by destruct (ij_state j). Qed.

(** The moves of the others: none starts or ends where a job is running. *)
Lemma moves_rely new edge o db db' :
  moves new edge db db' →
  (∀ id s s', o = Some id → edge id s s' → stage_running s = false ∧ stage_running s' = false) →
  rely o db db'.
Proof.
  intros [_ Hg Hm _] Hno. split; [done|]. intros id Ho. specialize (Hm id). unfold running_row.
  inversion Hm as [|j Hs|j Ha|j j' s1 s2 _ H1 H2 He]; simpl; [done|..].
  - by rewrite (job_stage_processing _ _ Hs).
  - by rewrite (row_gone_running _ Ha).
  - destruct (Hno _ _ _ Ho He) as [E1 E2].
    by rewrite (job_stage_processing _ _ H1), (job_stage_processing _ _ H2), E1, E2.
Qed.

(** ** One job moves *)

Lemma move_job new (edge : uuid → JobStage → JobStage → Prop) id j j' s s' db :
  ExternalInv db → inbound_jobs db !! id = Some j → same_request j j' →
  job_stage j = Some s → job_stage j' = Some s' → stage_edge s s' → edge id s s' →
  (∀ v, ij_applied_workspace_version j' = Some v → version_reached (ij_project j) v (workspace db)) →
  0 ≤ ij_attempt_count j' ≤ i32_max →
  moves new edge db (with_jobs (insert id j') db).
Proof.
  intros HI Hj Hreq Hs Hs' Hse He Hv Hat. pose proof Hreq as (Ep & Epr & _).
  destruct (xi_jobs _ HI _ _ Hj) as [Hl _ _ _]. split.
  - apply (inv_insert_job id j); [done..| |].
    + split; [by rewrite Ep, Epr|by exists s'|by rewrite Ep|done].
    + intros _. rewrite (job_stage_active _ _ Hs). by eapply edge_active.
  - intros q p Hp. exists p. split; [done|lia].
  - intros id'. cbn. destruct (decide (id' = id)) as [->|Hne].
    + rewrite lookup_insert_eq, Hj. by eapply row_edge.
    + rewrite lookup_insert_ne by done. apply row_same.
  - intros id' Hid [j1 Hj1]. cbn in Hj1. apply lookup_insert_Some in Hj1 as [[<- _]|[_ Hj1]]; congruence.
Qed.

(** The columns a change of state does not set. *)
Lemma kept_version j j' db :
  job_ok j db →
  (ij_applied_workspace_version j' = ij_applied_workspace_version j ∨ ij_applied_workspace_version j' = None) →
  ∀ v, ij_applied_workspace_version j' = Some v → version_reached (ij_project j) v (workspace db).
Proof. intros [_ _ Ha _] [-> | ->] v Hv; [by apply Ha|done]. Qed.

(** *** Claiming *)

Lemma due_job_spec provider stale now db id j :
  due_job provider stale now db = Some (id, j) →
  inbound_jobs db !! id = Some j ∧ job_due provider now stale id j = true.
Proof. by intros [[? ?]%elem_of_select _]%first_by_Some. Qed.

Lemma due_stage provider stale now db id j s :
  due_job provider stale now db = Some (id, j) → job_stage j = Some s →
  stage_running s = true ∨ s = Waiting ∨ (∃ sha v, s = AppliedWaiting sha v).
Proof.
  intros [_ Hd]%due_job_spec Hs. unfold job_due in Hd. apply andb_true_iff in Hd as [_ Hd].
  stage_cases j; injection Hs as <-; try done; eauto.
Qed.

Lemma claim_due_job_moves new s provider stale now db :
  ExternalInv db →
  moves new (λ id s s', (∃ j, due_job provider stale now db = Some (id, j)) ∧ claim_edge s s') db
    (autocommit s 0 (claim_due_job provider stale now) db).2.
Proof.
  intros HI. apply (autocommit_inv (λ db', moves new _ db db')); [by apply quiet_moves, still_quiet|].
  intros r db'. unfold claim_due_job. destruct (due_job _ _ _ _) as [[id j]|] eqn:Hd;
    [|intros [= _ <-]; by apply quiet_moves, still_quiet].
  destruct (i32_max <=? ij_attempt_count j) eqn:Hmax; [done|]. intros [= _ <-].
  pose proof (due_job_spec _ _ _ _ _ _ Hd) as [Hj _].
  pose proof (xi_jobs _ HI _ _ Hj) as Hok. pose proof Hok as [_ [st Hs] _ Hat].
  destruct (claimed_job_stage now j st Hs (due_stage _ _ _ _ _ _ _ Hd Hs)) as (st' & Hs' & He).
  eapply move_job; [done..|by left|by eauto| |].
  - apply kept_version; [done|]. unfold claimed_job. cbn. destruct (resumable j); [by left|by right].
  - cbn. lia.
Qed.

(** What the claim says of the job. *)
Definition claim_holds (claimed : ClaimedInboundJob) (db : ExternalDB) : Prop :=
  ∃ j, inbound_jobs db !! cj_id claimed = Some j ∧ cj_project claimed = ij_project j
       ∧ match applied_state claimed with
         | Some a => job_stage j = Some (AppliedRunning (aj_remote_sha a) (aj_workspace_version a))
         | None => job_stage j = Some Running
         end.

Lemma claim_of_job id j s :
  job_stage j = Some s → stage_running s = true →
  match applied_state (MkClaimedJob id (ij_project j) (ij_attempt_count j) (ij_phase j)
                         (ij_remote_sha j) (ij_applied_workspace_version j)) with
  | Some a => job_stage j = Some (AppliedRunning (aj_remote_sha a) (aj_workspace_version a))
  | None => job_stage j = Some Running
  end.
Proof. intros Hs Hr. by stage_cases j; injection Hs as <-. Qed.

Lemma claim_due_job_claim s provider stale now db claimed db' :
  ExternalInv db → autocommit s 0 (claim_due_job provider stale now) db = (Ok (Some claimed), db') →
  (∃ j, due_job provider stale now db = Some (cj_id claimed, j)) ∧ claim_holds claimed db'.
Proof.
  intros HI. unfold autocommit, claim_due_job. destruct (due_job _ _ _ _) as [[id j]|] eqn:Hd;
    [|by destruct (s 0%nat)].
  destruct (i32_max <=? ij_attempt_count j) eqn:Hmax; [done|]. destruct (s 0%nat); [|done..]. intros [= <- <-].
  split; [by exists j|]. pose proof (due_job_spec _ _ _ _ _ _ Hd) as [Hj _].
  destruct (xi_jobs _ HI _ _ Hj) as [_ [st Hs] _ _].
  destruct (claimed_job_stage now j st Hs (due_stage _ _ _ _ _ _ _ Hd Hs)) as (st' & Hs' & He).
  exists (claimed_job now j). split; [by cbn; rewrite lookup_insert_eq|]. split; [done|].
  apply (claim_of_job id (claimed_job now j) st'); [done|by destruct He].
Qed.

(** The row a claim leaves is the due one, with its provider. *)
Lemma claimed_job_row s provider stale now db claimed db' :
  autocommit s 0 (claim_due_job provider stale now) db = (Ok (Some claimed), db') →
  ∃ j, due_job provider stale now db = Some (cj_id claimed, j)
       ∧ inbound_jobs db' !! cj_id claimed = Some (claimed_job now j).
Proof.
  unfold autocommit, claim_due_job. destruct (due_job _ _ _ _) as [[id j]|]; [|by destruct (s 0%nat)].
  destruct (i32_max <=? ij_attempt_count j); [done|]. destruct (s 0%nat); [|done..]. intros [= <- <-].
  exists j. split; [done|]. cbn. by rewrite lookup_insert_eq.
Qed.

(** *** The worker's statements *)

(** The job of a program is running at a stage; [link] tells what it asks for. *)
Definition job_for (link : InboundJobLink) (s : JobStage) (db : ExternalDB) : Prop :=
  ∃ j, running_row (jl_id link) db = Some j ∧ job_stage j = Some s
       ∧ ij_project j = jl_project link ∧ ij_source_branch j = jl_source_branch link.

Lemma job_for_rely link s db db' :
  rely (Some (jl_id link)) db db' → job_for link s db → job_for link s db'.
Proof. intros [_ Hj] (j & Hid & Hs). exists j. by rewrite Hj. Qed.

Lemma guarantee_refl o db : ExternalInv db → guarantee o db db.
Proof.
  intros HI. split; [by apply quiet_moves, still_quiet|by left|]. by intros ?%not_newly_applied.
Qed.

Lemma guarantee_insert id j s db db' :
  moves (λ _, False) (own (Some id)) db db' → untouched (workspace db) (workspace db') →
  inbound_jobs db' = <[id := j]> (inbound_jobs db) → job_stage j = Some s →
  (∀ sha v, s ≠ AppliedRunning sha v) → guarantee (Some id) db db'.
Proof.
  intros Hm Hu Hjobs Hj Hs. split; [done|by left|]. intros Hn.
  by apply (not_newly_applied_insert id j s) in Hn.
Qed.

(** A running job moves along an edge of its program. *)
Lemma program_move id j j' s s' db :
  ExternalInv db → running_row id db = Some j → same_request j j' →
  job_stage j = Some s → job_stage j' = Some s' → program_edge s s' →
  (∀ v, ij_applied_workspace_version j' = Some v → version_reached (ij_project j) v (workspace db)) →
  ij_attempt_count j' = ij_attempt_count j →
  moves (λ _, False) (own (Some id)) db (with_jobs (insert id j') db).
Proof.
  intros HI [Hj _]%running_row_Some Hreq Hs Hs' He Hv Hat.
  eapply move_job; [done..|by right; left|done|done|]. rewrite Hat. by apply (jo_attempts _ _ (xi_jobs _ HI _ _ Hj)).
Qed.

Lemma update_job_phase_guarantee link phase now db :
  ExternalInv db → job_for link Running db → working_phase phase = true →
  guarantee (Some (jl_id link)) db (update_job_phase (jl_id link) phase now db)
  ∧ job_for link Running (update_job_phase (jl_id link) phase now db).
Proof.
  intros HI (j & Hj & Hs & Hp & Hb) Hph. pose proof (job_in_phase_stage phase now j Hph Hs) as Hs'.
  pose proof Hj as [Hid Hrun]%running_row_Some. unfold update_job_phase, update_job. rewrite Hid, Hrun. cbn [snd].
  split.
  - eapply guarantee_insert; [|done|done|exact Hs'|done].
    eapply program_move; [done..|constructor| |done].
    apply kept_version; [by eapply (xi_jobs _ HI)|by left].
  - exists (job_in_phase phase now j). split; [|done]. apply running_row_Some. cbn.
    by rewrite lookup_insert_eq, (job_stage_processing _ _ Hs').
Qed.

(** *** Queueing *)

Lemma active_job_exists_false q db :
  active_job_exists q db = false →
  ∀ id j, inbound_jobs db !! id = Some j → ij_project j = q → job_active j = false.
Proof.
  unfold active_job_exists. rewrite exists_row_false. intros Ha id j Hj <-. specialize (Ha _ _ Hj). cbn in Ha.
  by rewrite bool_decide_true in Ha.
Qed.

Lemma insert_inbound_job_moves (new : uuid → Prop) edge r db db' :
  ExternalInv db → checkpoints db !! ins_project r = None →
  new (ins_job r) → insert_inbound_job r db = Ok ((), db') → moves new edge db db'.
Proof.
  intros HI Hc Hnew. unfold insert_inbound_job. case_bool_decide as Hfree; [done|].
  destruct (active_job_exists _ _) eqn:Hact; [done|].
  destruct (links db !! ins_project r) as [l|] eqn:Hl; [|done].
  destruct (_ || _) eqn:Hfk; [done|]. apply orb_false_iff in Hfk as [Hp%negb_false_iff _]. intros [= <-].
  apply text_eqb_true in Hp. pose proof (active_job_exists_false _ _ Hact) as Hno.
  match goal with |- context [insert (ins_job r) ?row] => set (j := row) end.
  assert (inbound_jobs db !! ins_job r = None) as Hnone by by apply eq_None_not_Some.
  split.
  - change (with_jobs (insert (ins_job r) j) db) with (with_jobs (λ _, <[ins_job r := j]> (inbound_jobs db)) db).
    apply inv_with_jobs; [done|..].
    + intros id j' [[<- <-]|[_ Hj']]%lookup_insert_Some; [|by eapply (xi_jobs _ HI)].
      split; [by exists l|by eexists|done|unfold i32_max; cbn; lia].
    + intros i1 i2 j1 j2 [[<- <-]|[N1 H1]]%lookup_insert_Some [[<- <-]|[N2 H2]]%lookup_insert_Some Hpr A1 A2.
      * done.
      * by rewrite (Hno _ _ H2 (eq_sym Hpr)) in A2.
      * by rewrite (Hno _ _ H1 Hpr) in A1.
      * by eapply (xi_active _ HI).
    + intros id j' [[<- <-]|[_ Hj']]%lookup_insert_Some Ha; [done|by eapply (xi_exclusive _ HI)].
  - intros q p Hq. exists p. split; [done|lia].
  - intros id. cbn. destruct (decide (id = ins_job r)) as [->|Hne].
    + rewrite lookup_insert_eq, Hnone. by apply row_new.
    + rewrite lookup_insert_ne by done. apply row_same.
  - intros id Hid [j1 Hj1]. cbn in Hj1. apply lookup_insert_Some in Hj1 as [[<- _]|[_ Hj1]]; [done|congruence].
Qed.

Lemma enqueue_sync_moves (new : uuid → Prop) edge s now job c db :
  ExternalInv db → new job → moves new edge db (ExternalInbound.enqueue_sync s now job c db).2.
Proof.
  intros HI Hnew. unfold ExternalInbound.enqueue_sync. cbv zeta.
  apply (transact_inv (λ db', moves new edge db db')); [by apply quiet_moves, still_quiet|].
  apply wp_bind, wp_reads; [done|]. case_bool_decide; [by apply wp_early|].
  apply wp_bind, wp_reads; [done|]. destruct (checkpoint_operation_exists _ _) eqn:Hc; [by apply wp_early|].
  unfold checkpoint_operation_exists in Hc. apply bool_decide_eq_false, eq_None_not_Some in Hc.
  apply wp_bind, wp_exec; [done|]. intros [] db1 Hins.
  apply (insert_inbound_job_moves new edge) in Hins; [|done..].
  apply wp_bind, wp_writes; [done|]. apply wp_ret. eapply moves_then_quiet; [exact Hins|].
  by apply quiet_update_link; [apply Hins|].
Qed.

Lemma create_import_moves (new : uuid → Prop) edge s now project job branch c db :
  ExternalInv db → new job → moves new edge db (create_import_project s now project job branch c db).2.
Proof.
  intros HI Hnew. unfold create_import_project. cbv zeta.
  apply (transact_inv (λ db', moves new edge db db')); [by apply quiet_moves, still_quiet|].
  apply wp_bind, in_workspace_wp.
  eapply (wp_mono _ (λ _, True)); [apply provision_project_wp; [|done]|done|]; [by destruct (ci_type c)|].
  intros [] w n Hstep.
  destruct (workspace_inv_step _ _ _ (Hstep w (reflexivity _)) (xi_workspace _ HI)) as [Hw Hg].
  set (db1 := db <| workspace := w |>).
  assert (quiet db db1) as Hq1.
  { split; [|done|done]. apply (inv_other_tables db); try done.
    intros q l Hl. apply (lo_grant _ _ _ (xi_links _ HI _ _ Hl)). }
  apply wp_bind, wp_exec; [done|]. intros [] db2 Hlink.
  assert (links db1 !! project = None) as Hnone.
  { destruct (links db1 !! project) as [l|] eqn:Hl; [|done]. unfold insert_repository_link in Hlink.
    cbn [nl_project] in Hlink. rewrite Hl in Hlink. by rewrite bool_decide_true in Hlink. }
  apply insert_repository_link_quiet in Hlink as (Hq2 & Ec & _); [|apply Hq1].
  apply wp_bind, wp_exec; [done|]. intros [] db3 Hins.
  apply (insert_inbound_job_moves new edge) in Hins; [|apply Hq2| |done].
  - apply wp_ret. eapply quiet_then_moves; [exact Hq1|]. by eapply quiet_then_moves.
  - cbn [ins_project]. rewrite Ec. destruct (checkpoints db1 !! project) as [k|] eqn:Hk; [|done].
    destruct (co_link _ _ _ (xi_checkpoints _ (qu_inv _ _ Hq1) _ _ Hk)) as [l Hl]. congruence.
Qed.

(** *** Reauthorization *)

Lemma resume_links_quiet user provider now db :
  ExternalInv db → quiet db (resume_reauthorized_links user provider now db).
Proof.
  intros HI. unfold resume_reauthorized_links. apply quiet_links, inv_update_links; [done|].
  intros q l Hl _. split; [done|]. destruct (xi_links _ HI _ _ Hl). by split.
Qed.
Lemma resume_checkpoints_quiet user provider now db :
  ExternalInv db → quiet db (resume_reauthorized_checkpoints user provider now db).
Proof.
  intros HI. apply quiet_with_checkpoints, inv_update_checkpoints; [done|].
  intros q c Hc _. by apply resumed_checkpoint_ok, (xi_checkpoints _ HI).
Qed.
Lemma resume_jobs_moves new user provider now db :
  ExternalInv db → moves new (λ _, user_edge) db (resume_reauthorized_jobs user provider now db).
Proof.
  intros HI. unfold resume_reauthorized_jobs. set (P := λ _ j, _ && _).
  assert (∀ id j, inbound_jobs db !! id = Some j → P id j = true →
            job_stage j = Some Suspended ∧ job_stage (resumed_job now j) = Some Waiting) as Hst.
  { intros id j Hj [_ [Hp _]%bool_decide_eq_true]%andb_true_iff.
    destruct (jo_stage _ _ (xi_jobs _ HI _ _ Hj)) as [s Hs].
    pose proof (paused_job_stage _ _ Hs Hp) as ->. split; [done|]. by apply resumed_job_stage. }
  split.
  - apply inv_update_jobs; [done|]. intros id j Hj HP. destruct (Hst _ _ Hj HP) as [Hs Hs'].
    destruct (xi_jobs _ HI _ _ Hj) as [H1 H2 H3 H4]. split; [done|]. split; [by split|].
    intros _. by rewrite (job_stage_active _ _ Hs).
  - intros q p Hp. exists p. split; [done|lia].
  - intros id. cbn. rewrite lookup_update_rows. destruct (inbound_jobs db !! id) as [j|] eqn:Hj; simpl; [|apply row_same].
    destruct (P id j) eqn:HP; [|apply row_same]. destruct (Hst _ _ Hj HP) as [Hs Hs'].
    by eapply row_edge; [|exact Hs|exact Hs'|constructor].
  - intros id Hid [j Hj]. cbn in Hj. apply lookup_update_rows_Some in Hj as (j0 & Hj0 & _). congruence.
Qed.

Lemma resume_work_moves new s user provider now db :
  ExternalInv db →
  moves new (λ _, user_edge) db
    (transact s Err (_ ← resume_work s Err user provider now; mret (Ok () : result sqlx_error unit)) db).2.
Proof.
  intros HI. apply (transact_inv (λ db', moves new _ db db')); [by apply quiet_moves, still_quiet|].
  unfold resume_work. apply wp_bind, wp_bind, wp_writes; [done|]. apply wp_bind, wp_writes; [done|].
  apply wp_writes; [done|]. apply wp_ret.
  pose proof (resume_links_quiet user provider now db HI) as Q1.
  pose proof (resume_checkpoints_quiet user provider now _ (qu_inv _ _ Q1)) as Q2.
  eapply quiet_then_moves; [exact Q1|]. eapply quiet_then_moves; [exact Q2|].
  apply resume_jobs_moves, Q2.
Qed.

(** ** Requests *)

Lemma run_external_moves update_retention s now op db :
  external_op_ok op → ExternalInv db →
  moves (λ id, new_job op = Some id) (λ _, user_edge) db (run_external update_retention s now op db).
Proof.
  intros Hok HI. destruct op as [op|provider valid branch q actor details|q|user provider|q|job c|q job branch c]; simpl.
  - apply quiet_moves. destruct (run_workspace_inv update_retention s now op (workspace db)) as [Hw Hg];
      [by destruct op|apply HI|].
    split; [|done|done]. apply (inv_other_tables db); try done.
    intros q l Hl. apply (lo_grant _ _ _ (xi_links _ HI _ _ Hl)).
  - by apply quiet_moves, persist_link_quiet.
  - by apply unlink_moves.
  - by apply resume_work_moves.
  - by apply quiet_moves, enqueue_checkpoint_quiet.
  - by apply enqueue_sync_moves.
  - by apply create_import_moves.
Qed.
End jobs.
