(* ===== verification/ExternalApply.v ===== *)
(** * External repositories: what the transactions of a program do

    The application of an import, the completion and the failure of an inbound
    job, and the transactions of a checkpoint, as guarantees of the program
    that runs them. *)
From S2P Require Import Prelude Store Text Programs Paths AccessModel WorkspaceModel.
From S2P Require Import WorkspaceStatements WorkspaceProjects Collaboration.
From S2P Require Import WorkspaceSystem WorkspaceFrames WorkspaceSteps WorkspaceImports.
From S2P Require Import WorkspaceTheorems ExternalStatements ExternalImport.
From S2P Require Import ExternalCheckpoints ExternalInbound ExternalSystem ExternalInvariant ExternalSteps ExternalJobs.

Open Scope Z_scope.

Section apply.
Context `{YrsLaws}.
Implicit Types (db : ExternalDB).

(** ** The application of an import *)

(** The tables after the transaction, assembled from its statements. *)
Record import_tables (link : InboundJobLink) (c : ApplyExternalGitInboundCommand) (now : time)
    (applied : ReplacedProjectContent) (j : InboundJobRow) (db db' : ExternalDB) : Prop := MkImportTables {
  it_step : op_step (ac_project c) (workspace db) (workspace db');
  it_rows : ∃ p p', project_rows (workspace db) !! ac_project c = Some p
    ∧ project_rows (workspace db') !! ac_project c = Some p'
    ∧ p_workspace_version p' = p_workspace_version p + 1 ∧ p_content_epoch p' = p_content_epoch p + 1
    ∧ p_workspace_version p' = rp_workspace_version applied;
  it_grants : grants db' = grants db;
  it_links : links db' = alter (λ l, l <| lk_last_import_branch := Some (ac_source_branch c) |>
      <| lk_last_import_sha := Some (ac_remote_sha c) |> <| lk_last_import_at := Some now |>
      <| lk_last_import_error := None |> <| lk_updated_at := now |>) (ac_project c) (links db);
  it_checkpoints : checkpoints db' = checkpoints db;
  it_jobs : inbound_jobs db'
    = <[ac_job c := applied_job (ac_remote_sha c) (rp_workspace_version applied) now j]> (inbound_jobs db);
}.

Lemma import_tables_guarantee link c now applied j db db' :
  ExternalInv db → running_row (jl_id link) db = Some j → job_stage j = Some Running →
  ij_project j = jl_project link → ij_source_branch j = jl_source_branch link →
  ac_job c = jl_id link → ac_project c = jl_project link → ac_source_branch c = jl_source_branch link →
  import_tables link c now applied j db db' →
  guarantee (Some (jl_id link)) db db'
  ∧ job_for link (AppliedRunning (ac_remote_sha c) (rp_workspace_version applied)) db'.
Proof.
  intros HI Hj Hs Hpj Hbj Ej Ep Eb [Hstep (p & p' & Hp & Hp' & Hv & He & Hva) Eg El Ec Ejobs].
  pose proof (applied_job_stage (ac_remote_sha c) (rp_workspace_version applied) now j Hs) as Hs'.
  set (j' := applied_job _ _ now j) in *. pose proof Hj as [Hid _]%running_row_Some.
  destruct (workspace_inv_step _ _ _ Hstep (xi_workspace _ HI)) as [Hw Hg].
  set (dbA := db <| workspace := workspace db' |>).
  assert (quiet db dbA) as HqA.
  { split; [|done|done]. apply (inv_other_tables db); try done.
    intros q l Hl. apply (lo_grant _ _ _ (xi_links _ HI _ _ Hl)). }
  set (dbB := record_link_import (ac_project c) (ac_source_branch c) (ac_remote_sha c) now dbA).
  assert (quiet dbA dbB) as HqB by by apply quiet_update_link; [apply HqA|].
  set (dbC := with_jobs (insert (jl_id link) j') dbB).
  assert (moves (λ _, False) (own (Some (jl_id link))) dbB dbC) as HmC.
  { eapply program_move; [apply HqB|exact Hj|done|exact Hs|exact Hs'|constructor| |done].
    intros v [= <-]. exists p'. rewrite Hpj, <-Ep. split; [done|lia]. }
  assert (quiet dbC db') as HqC.
  { split.
    - apply (inv_other_tables dbC); try done.
      + apply HmC.
      + intros q row Hrow. exists row. split; [done|lia].
      + by rewrite Ejobs, Ej.
      + intros q l Hl. rewrite Eg. apply (lo_grant _ _ _ (xi_links _ (mv_inv _ _ _ _ HmC) _ _ Hl)).
    - intros q row Hrow. exists row. split; [done|lia].
    - by rewrite Ejobs, Ej. }
  assert (inbound_jobs db' !! jl_id link = Some j') as Hj' by by rewrite Ejobs, Ej, lookup_insert_eq.
  assert (imported (jl_id link) db db') as Him.
  { destruct (jo_link _ _ (xi_jobs _ HI _ _ Hid)) as (l & Hl & _).
    rewrite Hpj, <-Ep in Hl. split. exists j, j', (ac_remote_sha c), (rp_workspace_version applied).
    eexists _, p, p'. rewrite Hpj, <-Ep, El, lookup_alter_eq, Hl. split_and!; try done.
    + by rewrite Hbj, <-Eb.
    + lia. }
  split; [split|].
  - eapply quiet_then_moves; [exact HqA|]. eapply quiet_then_moves; [exact HqB|].
    by eapply moves_then_quiet.
  - right. by exists (jl_id link).
  - intros _. by exists (jl_id link).
  - exists j'. split; [|done]. apply running_row_Some. by rewrite (job_stage_processing _ _ Hs').
Qed.

(** The transaction writes these tables or does not commit. *)
Lemma apply_inbound_transaction_wp link s now c j db n :
  running_row (jl_id link) db = Some j → ac_job c = jl_id link →
  wp (apply_inbound_transaction s now c)
     (λ r, match r with Ok _ | Err (CommitAmbiguous _) => False | Err _ => True end)
     (λ r db' _, ∃ applied, r = Ok applied ∧ import_tables link c now applied j db db') db n.
Proof.
  intros Hj Ej. unfold apply_inbound_transaction. cbv zeta. set (q := ac_project c).
  match goal with |- wp _ ?E0 _ _ _ => set (E := E0) end.
  apply wp_bind, in_workspace_wp.
  eapply (wp_mono _ E); [by apply replace_project_content_wp|done|]. intros r w1 n1 Hr.
  destruct r as [applied| | |]; [|by apply wp_early..]. destruct Hr as [Hrep Hgen].
  apply wp_bind, wp_exec; [done|]. intros [] db1 [= <-].
  apply wp_bind, in_workspace_wp.
  eapply (wp_mono _ E); [by apply (record_workspace_change_wp _ _ _ _ _ _ q)|done|]. intros [] w2 n2 [Hc2 Hr2].
  apply wp_bind, in_workspace_wp.
  eapply (wp_mono _ E); [by apply (record_project_activity_wp _ _ _ _ _ _ q)|done|]. intros [] w3 n3 [Hc3 Hr3].
  apply wp_bind, wp_writes; [done|]. apply wp_bind, wp_exec; [done|]. intros [] db4 Hmark.
  unfold mark_job_applied, update_job in Hmark. rewrite Ej in Hmark.
  apply running_row_Some in Hj as [Hj Hproc]. cbn in Hmark. rewrite Hj, Hproc in Hmark. injection Hmark as <-.
  apply wp_bind, in_workspace_wp.
  eapply (wp_mono _ E); [by apply (enqueue_object_deletions_wp _ _ _ _ q)|done|]. intros [] w5 n5 [Hc5 Hr5].
  apply wp_ret. exists applied. split; [done|]. cbn in Hc2, Hr2, Hc3, Hr3, Hc5, Hr5.
  assert (calm q (clear_project q w1) w5) as Hc.
  { etrans; [exact Hc2|]. etrans; [exact Hc3|]. etrans; [|exact Hc5]. by apply calm_queue. }
  assert (rows_same (clear_project q w1) w5) as Hrows.
  { unfold rows_same in *. rewrite Hr5. cbn. by rewrite Hr3, Hr2. }
  split; try done; [exact (replaced_step (replacement c now) (workspace db) w1 w5 Hrep Hc Hrows)| |by rewrite Ej].
  destruct Hrep as [_ (p & p' & Hp & Hp' & _ & Hv & He & _) _]. exists p, p'. cbn in *.
  destruct Hgen as (p0 & Hp0 & Hv0 & _). cbn in Hp0. rewrite Hrows. cbn. split_and!; try done.
  fold q in Hp', Hp0. congruence.
Qed.

Lemma apply_inbound_content_guarantee link s now c db :
  ExternalInv db → job_for link Running db →
  ac_job c = jl_id link → ac_project c = jl_project link → ac_source_branch c = jl_source_branch link →
  guarantee (Some (jl_id link)) db (apply_inbound_content s now c db).2
  ∧ match (apply_inbound_content s now c db).1 with
    | Ok applied => job_for link (AppliedRunning (ac_remote_sha c) (rp_workspace_version applied))
                      (apply_inbound_content s now c db).2
    | Err (CommitAmbiguous _) => True
    | Err _ => job_for link Running (apply_inbound_content s now c db).2
    end.
Proof.
  intros HI (j & Hj & Hs & Hp & Hb) Ej Ep Eb.
  assert (job_for link Running db) as Hjob by by exists j.
  pose proof (guarantee_refl (Some (jl_id link)) _ HI) as Hrefl.
  apply (transact_with_wp _ _ s _ (λ r db', guarantee (Some (jl_id link)) db db'
    ∧ match r with
      | Ok applied => job_for link (AppliedRunning (ac_remote_sha c) (rp_workspace_version applied)) db'
      | Err (CommitAmbiguous _) => True
      | Err _ => job_for link Running db'
      end)); [done|].
  eapply wp_mono; [by apply (apply_inbound_transaction_wp link)|by intros [|[]]|].
  intros r db' n (applied & -> & Htab).
  by destruct (import_tables_guarantee link c now applied j db db') as [Hg Hj'].
Qed.

(** ** The end of a job *)

Lemma complete_job_guarantee link s now sha v db :
  ExternalInv db → job_for link (AppliedRunning sha v) db →
  guarantee (Some (jl_id link)) db (complete_job s now (jl_id link) (jl_project link) db).2
  ∧ (running_row (jl_id link) (complete_job s now (jl_id link) (jl_project link) db).2 = None
     ∨ job_for link (AppliedRunning sha v) (complete_job s now (jl_id link) (jl_project link) db).2).
Proof.
  intros HI (j & Hj & Hs & Hp & Hb). unfold complete_job. cbv zeta.
  assert (job_for link (AppliedRunning sha v) db) as Hjob by by exists j.
  pose proof (guarantee_refl (Some (jl_id link)) _ HI) as Hrefl.
  apply (transact_inv (λ db', guarantee (Some (jl_id link)) db db'
    ∧ (running_row (jl_id link) db' = None ∨ job_for link (AppliedRunning sha v) db'))); [auto|].
  apply wp_bind, wp_exec; [done|]. intros completed db1 [= E].
  pose proof Hj as [Hid Hrun]%running_row_Some.
  assert (resumable j = true) as Hres.
  { pose proof (job_stage_resumable _ _ Hs Hrun) as Hr. by destruct (resumable j). }
  unfold complete_job_row, update_job in E. rewrite Hid, Hrun, Hres in E. injection E as <- <-.
  pose proof (completed_job_stage now _ _ _ Hs) as Hs'. set (j' := completed_job now j) in *.
  apply wp_bind, wp_writes; [done|]. apply wp_ret.
  assert (moves (λ _, False) (own (Some (jl_id link))) db (with_jobs (insert (jl_id link) j') db)) as Hm.
  { eapply program_move; [done..|constructor| |done].
    apply kept_version; [by eapply (xi_jobs _ HI)|by left]. }
  assert (quiet (with_jobs (insert (jl_id link) j') db)
            (clear_last_import_error (jl_project link) now (with_jobs (insert (jl_id link) j') db))) as Hq
    by by apply quiet_update_link; [apply Hm|].
  split; [by eapply guarantee_insert; [by eapply moves_then_quiet|done|done|exact Hs'|done]|]. left.
  eapply running_row_None; [by cbn; rewrite lookup_insert_eq|by rewrite (job_stage_processing _ _ Hs')].
Qed.

(** What a failure may find: the stages its policy is for. *)
Definition failure_fits (f : InboundFailure) (o : option InboundJobRow) : Prop :=
  ∀ j, o = Some j →
  match if_policy f with
  | PreserveProcessingLease => True
  | PauseForReauthorization | FailAt PhaseQueued => job_stage j = Some Running
  | RetryFrom PhaseQueued => is_Some (job_stage j)
  | RetryFrom PhaseRevision => ∃ sha v, job_stage j = Some (AppliedRunning sha v)
  | _ => False
  end.

Lemma record_failure_guarantee s now claimed f db :
  ExternalInv db → failure_fits f (running_row (cj_id claimed) db) →
  guarantee (Some (cj_id claimed)) db (record_failure s now claimed f db).2.
Proof.
  intros HI Hfit. pose proof (guarantee_refl (Some (cj_id claimed)) _ HI) as Hrefl. unfold record_failure.
  destruct (failure_transition f _ now) as [t|] eqn:Ht; [|done].
  apply (transact_inv (λ db', guarantee _ db db')); [done|].
  apply wp_bind, wp_exec; [done|]. intros updated db1 Hfail.
  assert (moves (λ _, False) (own (Some (cj_id claimed))) db db1 ∧ untouched (workspace db) (workspace db1)
          ∧ ¬ newly_applied db db1) as (Hm & Hu & Hno).
  { assert (moves (λ _, False) (own (Some (cj_id claimed))) db db ∧ untouched (workspace db) (workspace db)
            ∧ ¬ newly_applied db db) as Hsame.
    { split_and!; [by apply quiet_moves, still_quiet|done|by apply not_newly_applied]. }
    unfold fail_job in Hfail. set (j' := failed_job _ _ _ _ _) in Hfail.
    destruct (inbound_jobs db !! cj_id claimed) as [j|] eqn:Hid; [|by injection Hfail as _ <-].
    destruct (_ && _) eqn:Hchk; [done|]. injection Hfail as Hfail. unfold update_job in Hfail.
    rewrite Hid in Hfail. destruct (processing_job j) eqn:Hrun; [|by injection Hfail as _ <-].
    injection Hfail as _ <-. assert (running_row (cj_id claimed) db = Some j) as Hj by by apply running_row_Some.
    specialize (Hfit j Hj). destruct (jo_stage _ _ (xi_jobs _ HI _ _ Hid)) as [st Hs].
    rewrite (job_stage_processing _ _ Hs) in Hrun.
    assert (∃ st', job_stage (j' j) = Some st' ∧ program_edge st st' ∧ stage_running st' = false)
      as (st' & Hs' & He & Hend).
    { apply failed_job_stage; [done..|]. unfold failure_transition in Ht.
      destruct (if_policy f) as [| |[]|[]]; try done; injection Ht as <-; cbn.
      - left. split_and!; [done|congruence|auto].
      - destruct Hfit as [st0 Hst0]. destruct st; try done; [by left; auto|right; eauto].
      - destruct Hfit as (sha & v & Hst). assert (st = AppliedRunning sha v) as -> by congruence. right. eauto.
      - left. split_and!; [done|congruence|auto]. }
    split; [|split; [done|]].
    - eapply program_move; [done..| |done].
      apply kept_version; [by eapply (xi_jobs _ HI)|]. unfold j', failed_job. cbn.
      case_bool_decide; [by left|by right].
    - eapply not_newly_applied_insert; [done|exact Hs'|]. intros sha v ->. done. }
  assert (∀ db2, quiet db1 db2 → untouched (workspace db1) (workspace db2) →
            guarantee (Some (cj_id claimed)) db db2) as Hend.
  { intros db2 Hq Hu2. split; [by eapply moves_then_quiet|left; by etrans|]. intros Hn. destruct Hno.
    destruct Hn as (id & j & j2 & sha & v & ?). exists id, j, j2, sha, v. by rewrite <-(qu_jobs _ _ Hq). }
  destruct updated; simpl; [|apply wp_ret, Hend; [apply still_quiet, Hm|done]].
  apply wp_bind, wp_writes; [done|]. apply wp_ret, Hend; [|done]. by apply quiet_update_link; [apply Hm|].
Qed.
End apply.
