(* ===== verification/ExternalWorkers.v ===== *)
(** * External repositories: the programs of the workers are safe

    The inbound worker, from the claim of a job to the record of its end, and
    the checkpoint worker: whatever the others do in between, each step keeps
    the invariant and moves only the program's own job, along its edges. *)
From S2P Require Import Prelude Store Text Programs Paths AccessModel WorkspaceModel.
From S2P Require Import WorkspaceStatements WorkspaceProjects Collaboration.
From S2P Require Import WorkspaceSystem WorkspaceFrames WorkspaceSteps WorkspaceImports.
From S2P Require Import WorkspaceTheorems ExternalStatements ExternalImport.
From S2P Require Import ExternalCheckpoints ExternalInbound ExternalSystem ExternalInvariant ExternalSteps ExternalJobs ExternalApply.

Open Scope Z_scope.

Section workers.
Context `{YrsLaws}.
Implicit Types (db : ExternalDB).

Abbreviation owned o := (triple (rely o) (guarantee o) ExternalInv).
Abbreviation lasting o := (Stable (rely o)).
Abbreviation owned_ret o := (triple_ret (rely o) (guarantee o) ExternalInv).
Abbreviation owned_bind o := (triple_bind (rely o) (guarantee o) ExternalInv).
Abbreviation owned_ask o := (triple_ask (rely o) (guarantee o) ExternalInv).
Abbreviation owned_ask_then o := (triple_ask_then (rely o) (guarantee o) ExternalInv).
Abbreviation owned_transaction o := (triple_transaction (rely o) (guarantee o) ExternalInv).
Abbreviation owned_reads o := (triple_reads (rely o) (guarantee o) ExternalInv (guarantee_refl o)).
Abbreviation owned_writes o := (triple_writes (rely o) (guarantee o) ExternalInv).
Abbreviation owned_conseq o := (triple_conseq (rely o) (guarantee o) ExternalInv).

(** ** The inbound worker *)

Section job.
Context (link : InboundJobLink).
Let me := Some (jl_id link).

#[local] Instance job_for_stable s : lasting me (job_for link s).
Proof. intros db db' HR. by apply job_for_rely. Qed.
#[local] Instance running_stable (φ : option InboundJobRow → Prop) :
  lasting me (λ db, φ (running_row (jl_id link) db)).
Proof. intros db db' [_ HR] Hφ. by rewrite HR. Qed.
#[local] Instance unlisted_stable : lasting me (λ db, running_row (jl_id link) db = None).
Proof. apply (running_stable (λ o, o = None)). Qed.

(** Work that leaves the job running; [ψ] tells what it returns. *)
Abbreviation P := (job_for link Running).
Abbreviation works := (keeps (rely me) (guarantee me) ExternalInv P).
Abbreviation keep_ret := (work_ret (rely me) (guarantee me) ExternalInv _ P _ (job_for_stable Running)).
Abbreviation keep_ask := (keeps_ask (rely me) (guarantee me) ExternalInv _ P (job_for_stable Running)).
Abbreviation keep_bind := (work_bind (rely me) (guarantee me) ExternalInv).
Abbreviation keep_try := (keeps_try (rely me) (guarantee me) ExternalInv _ _ _ P _ _ (job_for_stable Running)).

(** The failures of work done before the content is applied. *)
Definition early_error (e : InboundJobError) : bool :=
  match e with JobRevision | JobCompletion => false | _ => negb (staged_assets_may_be_referenced e) end.
Definition early_result {A} (r : result InboundJobError A) : Prop :=
  match r with Ok _ => True | Err e => early_error e = true end.
Abbreviation anything := (λ _, True).

Lemma works_phase phase : working_phase phase = true → works (enter_phase (jl_id link) phase) anything.
Proof.
  intros Hph. apply (owned_transaction me); [apply _..|]. intros db s now HI HP.
  destruct (update_job_phase_guarantee link phase now db HI HP Hph) as [Hg HP'].
  unfold autocommit, writes. destruct (s 0%nat); simpl;
    (split; [|split; [|done]]); try done; try apply Hg; by apply guarantee_refl.
Qed.

Ltac work :=
  repeat first
    [ progress cbv zeta
    | by apply keep_ret
    | apply keep_ask
    | by apply works_phase
    | eapply keep_try; [by apply works_phase|done|intros ? _]
    | eapply keep_try; [apply keep_ask|done|intros ? _]
    | eapply keep_bind; [apply keep_ask|intros ? _]
    | eapply keep_bind; [by apply works_phase|intros ? _]
    | match goal with
      | |- keeps _ _ _ _ (match ?x with _ => _ end) _ => destruct x
      end ].

Section program.
Context (uuid_text : uuid → text) (guess_content_type : text → text) (storage : bool).

Lemma prepare_inbound_state_works entry_point :
  works (prepare_inbound_state guess_content_type link entry_point) early_result.
Proof. unfold prepare_inbound_state. work. apply keep_ret. by destruct (prepare_external_git_import _ _ _ _ _ _). Qed.

Lemma cleanup_works staged : works (cleanup_staged_assets staged) anything.
Proof. unfold cleanup_staged_assets. work. Qed.

Lemma store_asset_works project repository id asset staged :
  works (store_asset uuid_text storage project repository id asset staged) early_result.
Proof. unfold store_asset, cleanup_staged_assets. work. Qed.

Lemma stage_assets_works project repository assets staged :
  works (stage_assets uuid_text storage (jl_id link) project repository assets staged) early_result.
Proof.
  induction assets as [|asset assets IH] in staged |- *; cbn [stage_assets]; [by apply keep_ret|].
  eapply keep_bind; [apply keep_ask|]. intros id _.
  eapply keep_bind; [apply store_asset_works|]. intros [[key source]|e] He; [|by apply keep_ret].
  eapply keep_bind; [by apply works_phase|]. intros [[]|e] _; [apply IH|].
  eapply keep_bind; [apply cleanup_works|]. intros. by apply keep_ret.
Qed.

Lemma read_documents_works repository id_of documents :
  works (read_documents repository id_of documents) early_result.
Proof.
  induction documents as [|d documents IH]; cbn [read_documents]; [by apply keep_ret|]. work.
  eapply keep_try; [apply IH|done|]. intros ? _. by apply keep_ret.
Qed.
Lemma read_assets_works staged : works (read_assets staged) early_result.
Proof.
  induction staged as [|a staged IH]; cbn [read_assets]; [by apply keep_ret|].
  eapply (keeps_try (rely me) (guarantee me) ExternalInv _ _ _ P early_result); [apply _|destruct (sa_inline_source_path a); work|done|intros data _].
  eapply keep_try; [apply IH|done|intros rest _]. by apply keep_ret.
Qed.

(** *** The application *)

(** What is left where the application ended. *)
Definition apply_post (sha : text) (r : applied_result) (db : ExternalDB) : Prop :=
  match r with
  | Ok applied => job_for link (AppliedRunning sha (rp_workspace_version applied)) db
  | Err (CommitAmbiguous _) => True
  | Err _ => P db
  end.
#[local] Instance apply_post_stable sha r : lasting me (apply_post sha r).
Proof. intros db db' HR. destruct r as [applied|[]]; simpl; try done; by apply job_for_rely. Qed.

Lemma apply_content_triple c :
  ac_job c = jl_id link → ac_project c = jl_project link → ac_source_branch c = jl_source_branch link →
  owned me P (apply_external_git_inbound_content c) (apply_post (ac_remote_sha c)).
Proof.
  intros Ej Ep Eb. unfold apply_external_git_inbound_content. eapply (owned_bind me).
  - eapply (keeps_triple _ _ _ _ P anything). destruct (ac_operation c); work.
  - intros [[]|e].
    + apply (owned_transaction me); [apply _..|]. intros db s now HI HP.
      destruct (apply_inbound_content_guarantee link s now c db HI HP Ej Ep Eb) as [Hg Hr].
      split; [apply Hg|done].
    + by apply (owned_ret me); [apply _|].
Qed.

(** What the record of a failure finds. *)
Abbreviation fits e := (λ db, failure_fits (inbound_failure e) (running_row (jl_id link) db)).

Lemma early_fits e db : early_error e = true → P db → fits e db.
Proof.
  intros He (j & Hj & Hs & _) j' Hj'. assert (j' = j) as -> by congruence.
  assert (is_Some (job_stage j)) by by eexists.
  destruct e as [| | | | |source| |source| | |[]| |]; simpl; try done. by destruct (failure_kind source).
Qed.

(** The rest of a program whose work may fail early. *)
Lemma triple_try_early {A B} (p : WorkerProg (result InboundJobError A))
    (k : A → WorkerProg (result InboundJobError B)) Q :
  works p early_result → (∀ a, owned me P (k a) Q) →
  (∀ e db, fits e db → Q (Err e) db) → owned me P (try_bind id p k) Q.
Proof.
  intros Hp Hk HQ. eapply (owned_bind me); [exact Hp|]. intros [a|e].
  - eapply (owned_conseq me); [apply Hk|by intros ? _ []|done].
  - apply (owned_ret me); [apply _|]. intros db _ [He HP]. by apply HQ, early_fits.
Qed.

Lemma apply_inbound_state_triple repository prepared staged :
  owned me P (apply_inbound_state link repository prepared staged) (λ r db,
    match r with
    | Ok applied => job_for link (AppliedRunning (pi_remote_sha prepared) (rp_workspace_version applied)) db
    | Err e => fits e db
    end).
Proof.
  unfold apply_inbound_state. eapply (owned_bind me).
  { eapply keeps_triple, keep_ask. }
  intros id_of. cbn beta. apply triple_try_early; [apply read_documents_works| |done]. intros documents.
  apply triple_try_early; [apply read_assets_works| |done]. intros assets.
  eapply (owned_bind me); [by apply apply_content_triple|]. intros [applied|e]; simpl.
  - by apply (owned_ret me); [apply _|].
  - apply (owned_ret me _ _ _ (apply_post_stable (pi_remote_sha prepared) (Err e))).
    intros db _ HP. destruct e; try by apply early_fits. by intros j Hj.
Qed.

(** *** The end *)

Lemma finalize_triple sha v :
  owned me (job_for link (AppliedRunning sha v)) (finalize_inbound_job link (MkApplied sha v)) (λ r db,
    match r with Ok _ => True | Err e => fits e db end).
Proof.
  assert (∀ e db, e = JobRevision ∨ e = JobCompletion →
    running_row (jl_id link) db = None ∨ job_for link (AppliedRunning sha v) db → fits e db) as Hfits.
  { intros e db He [Hn|(j & Hj & Hs & _)] j' Hj'; [congruence|]. assert (j' = j) as -> by congruence.
    destruct He as [->| ->]; simpl; eauto. }
  unfold finalize_inbound_job. eapply (owned_bind me).
  { apply (owned_ask me); [apply _|]. by intros x db _ HP; exact HP. }
  intros [[]|e]; [|apply (owned_ret me); [apply _|]; auto].
  eapply (owned_bind me).
  { eapply (owned_transaction me _ _ (λ _ db, running_row (jl_id link) db = None
             ∨ job_for link (AppliedRunning sha v) db)); [apply _|intros _; apply _|].
    intros db s now HI HP. destruct (complete_job_guarantee link s now sha v db HI HP) as [Hg Hr].
    split; [apply Hg|done]. }
  intros [[]|e]; [|apply (owned_ret me); [apply _|]; auto].
  eapply (owned_bind me); [by apply (owned_ask me _ _ (λ _ _, True)); [apply _|]|].
  intros []. by apply (owned_ret me); [apply _|].
Qed.

Abbreviation outcome_fits := (λ r db, match r with Ok _ => True | Err e => fits e db end).

Lemma triple_phase_early {B} phase (k : unit → WorkerProg (result InboundJobError B)) :
  working_phase phase = true → (∀ a, owned me P (k a) outcome_fits) →
  owned me P (try_bind (λ _ : sqlx_error, JobPersistence) (enter_phase (jl_id link) phase) k) outcome_fits.
Proof.
  intros Hph Hk. eapply (owned_bind me); [by apply works_phase|]. intros [a|e].
  - eapply (owned_conseq me); [apply Hk|by intros ? _ []|done].
  - apply (owned_ret me); [apply _|]. intros db _ [_ HP]. by apply early_fits.
Qed.

Lemma import_and_apply_triple entry_point :
  owned me P (import_and_apply uuid_text guess_content_type storage link entry_point) outcome_fits.
Proof.
  unfold import_and_apply. cbv zeta.
  apply triple_try_early; [apply prepare_inbound_state_works| |done]. intros [repository prepared].
  apply triple_phase_early; [done|]. intros _.
  apply triple_try_early; [apply stage_assets_works| |done]. intros staged.
  apply triple_phase_early; [done|]. intros _.
  eapply (owned_bind me); [apply apply_inbound_state_triple|]. intros [applied|e]; cbv beta iota.
  - apply (owned_ask_then me); [apply _|intros _]. apply (owned_ask_then me); [apply _|intros _].
    eapply (owned_bind me); [apply finalize_triple|]. intros [[]|e].
    + by apply (owned_ret me); [apply _|].
    + by apply (owned_ret me); [apply _|].
  - eapply (owned_bind me _ _ _ (λ _, fits e)).
    + destruct (staged_assets_may_be_referenced e); [by apply (owned_ret me); [apply _|]|].
      by apply (owned_ask me); [apply _|].
    + intros _. by apply (owned_ret me); [apply _|].
Qed.
End program.
End job.

(** *** From the claim *)

Section claim.
Context (claimed : ClaimedInboundJob).
Let me := Some (cj_id claimed).

(** The stage at which the job was claimed. *)
Definition claimed_stage : JobStage :=
  match applied_state claimed with
  | Some a => AppliedRunning (aj_remote_sha a) (aj_workspace_version a)
  | None => Running
  end.
Definition claim_held (db : ExternalDB) : Prop :=
  ∃ j, running_row (cj_id claimed) db = Some j ∧ job_stage j = Some claimed_stage.

#[local] Instance of_claim_stable (φ : option InboundJobRow → Prop) :
  lasting me (λ db, φ (running_row (cj_id claimed) db)).
Proof. intros db db' [_ HR] Hφ. by rewrite HR. Qed.
#[local] Instance claim_held_stable : lasting me claim_held.
Proof. apply (of_claim_stable (λ o, ∃ j, o = Some j ∧ job_stage j = Some claimed_stage)). Qed.

Lemma claim_holds_held db : claim_holds claimed db → claim_held db.
Proof.
  intros (j & Hj & _ & Hs). exists j. unfold claimed_stage.
  assert (job_stage j = Some claimed_stage) as Hst by (unfold claimed_stage; by destruct (applied_state claimed)).
  split; [|by rewrite Hst]. apply running_row_Some. split; [done|].
  rewrite (job_stage_processing _ _ Hst). unfold claimed_stage. by destruct (applied_state claimed).
Qed.

Abbreviation fits_claim e := (λ db, failure_fits (inbound_failure e) (running_row (cj_id claimed) db)).

(** The failures of reads, which are retried from the queue. *)
Lemma held_fits e db :
  claim_held db → if_policy (inbound_failure e) = RetryFrom PhaseQueued → fits_claim e db.
Proof. intros (j & Hj & Hs) Hp j' Hj'. assert (j' = j) as -> by congruence. rewrite Hp. by eexists. Qed.

(** The link of a held claim is read, and is that of its job. *)
Lemma inbound_job_link_held db :
  ExternalInv db → claim_held db →
  ∃ link, inbound_job_link (cj_id claimed) db = Some link ∧ jl_id link = cj_id claimed
          ∧ job_for link claimed_stage db.
Proof.
  intros HI (j & Hj & Hs). pose proof Hj as [Hid _]%running_row_Some.
  destruct (jo_link _ _ (xi_jobs _ HI _ _ Hid)) as (l & Hl & _).
  eexists. split; [unfold inbound_job_link; rewrite Hid; simpl; rewrite Hl; reflexivity|].
  split; [done|]. by exists j.
Qed.

Lemma job_for_lasting link s : jl_id link = cj_id claimed → lasting me (job_for link s).
Proof. intros E. unfold me. rewrite <-E. apply job_for_stable. Qed.

Context (uuid_text : uuid → text) (guess_content_type : text → text) (storage : bool).

Lemma process_inbound_job_triple :
  owned me claim_held (process_inbound_job uuid_text guess_content_type storage claimed) (λ r db,
    match r with Ok _ => True | Err e => fits_claim e db end).
Proof.
  unfold process_inbound_job.
  set (found := λ (o : option InboundJobLink) db, ∃ link, o = Some link ∧ jl_id link = cj_id claimed
                  ∧ job_for link claimed_stage db).
  eapply (owned_bind me).
  { apply (owned_reads me _ _ found (λ _, claim_held)); [apply _| |intros _; apply _| |done].
    - intros o db db' HR (link & -> & E & Hl). exists link. split_and!; [done..|].
      by eapply (job_for_lasting link).
    - intros db HI Hc. by apply inbound_job_link_held. }
  intros [o|e]; [|apply (owned_ret me); [apply _|]; intros db _ Hc; by apply held_fits].
  destruct o as [link|]; [|by intros db HI (? & ? & _)].
  destruct (decide (jl_id link = cj_id claimed)) as [E|Hne]; [|by intros db HI (? & [= <-] & ? & _)].
  apply (owned_conseq me _ (job_for link claimed_stage) _
    (λ r db, match r with Ok _ => True | Err e => failure_fits (inbound_failure e) (running_row (jl_id link) db) end));
    [|by intros db _ (? & [= <-] & _ & ?)|intros [] db _; by rewrite ?E].
  unfold me. rewrite <-E. unfold claimed_stage.
  destruct (applied_state claimed) as [[sha v]|]; cbn [aj_remote_sha aj_workspace_version].
  - eapply (owned_bind (Some (jl_id link))); [apply finalize_triple|]. intros [[]|e];
      (apply (owned_ret (Some (jl_id link))); [|done]); [apply _|apply running_stable].
  - eapply (owned_bind (Some (jl_id link))).
    { apply (owned_reads (Some (jl_id link)) _ _ (λ _, job_for link Running) (λ _, job_for link Running));
        try done; intros; apply job_for_stable. }
    intros [[entry_point|]|e].
    + apply import_and_apply_triple.
    + apply (owned_ret (Some (jl_id link))); [apply job_for_stable|]. intros db _ HP. by apply early_fits.
    + apply (owned_ret (Some (jl_id link))); [apply job_for_stable|]. intros db _ HP. by apply early_fits.
Qed.

Lemma run_inbound_triple :
  owned me claim_held (run_inbound uuid_text guess_content_type storage claimed) (λ _ _, True).
Proof.
  unfold run_inbound. eapply (owned_bind me); [apply process_inbound_job_triple|].
  intros [sha|e]; [by apply (owned_ret me); [apply _|]|].
  eapply (owned_bind me _ _ _ (λ _ _, True)); [|intros; by apply (owned_ret me); [apply _|]].
  apply (owned_transaction me); [apply _..|]. intros db s now HI Hf.
  pose proof (record_failure_guarantee s now claimed _ db HI Hf) as Hg. by split; [apply Hg|].
Qed.
End claim.

(** ** The checkpoint worker *)

Section checkpoint.
Context (project : uuid).

(** The version of the workspace a checkpoint is of. *)
Abbreviation reached v := (λ db, version_reached project v (workspace db)).
#[local] Instance reached_stable v : lasting None (reached v).
Proof. intros db db' [HR _]. by apply version_reached_grow. Qed.

Lemma quiet_guarantee db db' :
  quiet db db' → untouched (workspace db) (workspace db') → guarantee None db db'.
Proof.
  intros Hq Hu. split; [by apply quiet_moves|by left|]. by intros ?%(not_newly_applied _ _ (qu_jobs _ _ Hq)).
Qed.

Lemma complete_checkpoint_guarantee s now v sha db :
  ExternalInv db → reached v db →
  guarantee None db (complete_checkpoint s now project v sha db).2.
Proof.
  intros HI Hv. unfold complete_checkpoint.
  apply (transact_inv (λ db', guarantee None db db')); [by apply guarantee_refl|].
  apply wp_bind, wp_writes; [done|].
  set (db1 := update_link project _ db).
  assert (quiet db db1) as Hq1.
  { apply quiet_links, inv_update_link; [done|]. intros l Hl. split; [done|].
    destruct (xi_links _ HI _ _ Hl) as [H1 H2 H3]. split; [done..|]. cbn.
    destruct (Z.max_spec (lk_synced_workspace_version l) v) as [[_ ->]|[_ ->]]; [by right|done]. }
  assert (untouched (workspace db) (workspace db1)) as Hu1 by done.
  apply wp_bind, wp_reads; [done|].
  destruct (checkpoints db1 !! project) as [q|] eqn:Hc; [|apply wp_ret; by apply quiet_guarantee].
  assert (∀ db2, quiet db1 db2 → untouched (workspace db1) (workspace db2) →
            guarantee None db (delete_checkpoint project db2)) as Hend.
  { intros db2 Hq2 Hu2. apply quiet_guarantee; [|by etrans].
    eapply quiet_then_quiet; [exact Hq1|]. eapply quiet_then_quiet; [exact Hq2|].
    apply quiet_with_checkpoints.
    change (with_checkpoints (delete project) db2) with (with_checkpoints (λ _, delete project (checkpoints db2)) db2).
    apply inv_with_checkpoints; [apply Hq2|..].
    - intros q' c [_ ?]%lookup_delete_Some. by apply (xi_checkpoints _ (qu_inv _ _ Hq2)).
    - intros q' [c [_ ?]%lookup_delete_Some]. left. by exists c. }
  destruct (cq_captured_at q) as [captured_at|].
  - apply wp_bind, wp_bind, wp_writes; [done|]. apply wp_writes; [done|].
    apply wp_bind, wp_writes; [done|]. apply wp_ret, Hend; [|done].
    assert (∀ db2, untouched (workspace db1) (workspace db2) → next_update (workspace db2) = next_update (workspace db1) →
      links db2 = links db1 → checkpoints db2 = checkpoints db1 → inbound_jobs db2 = inbound_jobs db1 →
      grants db2 = grants db1 → quiet db1 db2) as Hq.
    { intros db2 [] En El Ec Ej Eg.
      destruct (workspace_inv_calm 0%N (workspace db1) (workspace db2)) as [Hw Hg]; [by apply calm_queue|done|apply Hq1|].
      split; [|done|done]. apply (inv_other_tables db1); try done; [apply Hq1|].
      intros q' l Hl. rewrite Eg. apply (lo_grant _ _ _ (xi_links _ (qu_inv _ _ Hq1) _ _ Hl)). }
    by apply Hq.
  - apply wp_bind, wp_ret, wp_bind, wp_writes; [done|]. apply wp_ret, Hend; [|done].
    apply still_quiet, Hq1.
Qed.

Lemma fail_checkpoint_guarantee s now claimed kind code db :
  ExternalInv db → guarantee None db (fail_checkpoint s now claimed kind code db).2.
Proof.
  intros HI. unfold fail_checkpoint. destruct (transition _ _ _) as [[state status] next] eqn:Ht.
  apply (transact_inv (λ db', guarantee None db db')); [by apply guarantee_refl|].
  apply wp_bind, wp_writes; [done|]. apply wp_bind, wp_writes; [done|]. apply wp_ret.
  apply quiet_guarantee; [|done].
  assert (quiet db (update_link (cc_project claimed) (failed_link status code now) db)) as Hq by by apply quiet_update_link.
  eapply quiet_then_quiet; [exact Hq|]. apply quiet_alter_checkpoint; [apply Hq|].
  intros c []. split; cbn; try done. split; [by intros []|]. unfold transition in Ht. by destruct kind; injection Ht as <- _ _.
Qed.

(** Statements on the queue. *)
Lemma queue_guarantee (f : CheckpointRow → CheckpointRow) db :
  ExternalInv db → (∀ c, checkpoint_ok project c db → checkpoint_ok project (f c) db) →
  guarantee None db (with_checkpoints (alter f project) db).
Proof. intros HI Hf. by apply quiet_guarantee; [apply quiet_alter_checkpoint|]. Qed.

Definition captured_reached (link : CheckpointLink) (db : ExternalDB) : Prop :=
  match cl_captured_workspace_version link with Some v => reached v db | None => True end.
#[local] Instance captured_stable link : lasting None (captured_reached link).
Proof. unfold captured_reached. destruct (cl_captured_workspace_version link); apply _. Qed.

Lemma checkpoint_link_captured link db :
  ExternalInv db → checkpoint_link project db = Some link → captured_reached link db.
Proof.
  intros HI. unfold checkpoint_link. rewrite bind_Some. intros (l & Hl & Hc). apply bind_Some in Hc as (q & Hq & [= <-]).
  pose proof (co_captured _ _ _ (xi_checkpoints _ HI _ _ Hq)) as Hcap. unfold captured_reached. cbn.
  by destruct (cq_captured_workspace_version q), (cq_checkpoint_sha q), (cq_captured_at q).
Qed.

Abbreviation keeping M := (keeps (rely None) (guarantee None) ExternalInv M).
Lemma queue_phase_keeps phase M :
  lasting None M → (∀ db db', guarantee None db db' → M db → M db') →
  keeping M (query (λ now, writes (update_queue_phase project phase now))) (λ _, True).
Proof.
  intros HM Hstay. apply (owned_transaction None); [done|apply _|]. intros db s now HI HP.
  assert (guarantee None db (update_queue_phase project phase now db)) as Hg.
  { apply queue_guarantee; [done|]. by intros c []. }
  unfold autocommit, writes. destruct (s 0%nat); simpl;
    (split; [|split; [|split; [done|]]]); try done; try apply Hg; try by eapply Hstay.
  all: by apply guarantee_refl.
Qed.
Lemma reached_stays v db db' : guarantee None db db' → reached v db → reached v db'.
Proof. intros [[_ Hg _] _]. by apply version_reached_grow. Qed.

Abbreviation stay_ret := (work_ret (rely None) (guarantee None) ExternalInv).
Abbreviation stay_ask := (keeps_ask (rely None) (guarantee None) ExternalInv).
Abbreviation stay_bind := (work_bind (rely None) (guarantee None) ExternalInv).
Abbreviation stay_try M := (keeps_try (rely None) (guarantee None) ExternalInv _ _ _ M (λ _, True)).

Lemma remote_checkpoint_sha_keeps link repository M :
  lasting None M → keeping M (remote_checkpoint_sha link repository) (λ _, True).
Proof.
  intros HM. eapply stay_bind; [by apply stay_ask|]. intros output _. by apply stay_ret.
Qed.

Lemma push_checkpoint_ref_keeps link repository sha M :
  lasting None M → keeping M (push_checkpoint_ref link repository sha) (λ _, True).
Proof.
  intros HM. unfold push_checkpoint_ref.
  apply (stay_try M); [done|by apply remote_checkpoint_sha_keeps|done|intros remote _].
  case_bool_decide; [by apply stay_ret|]. destruct (negb _); [by apply stay_ret|].
  apply (stay_try M); [done|by apply stay_ask|done|intros output _].
  apply (stay_try M); [done|by apply remote_checkpoint_sha_keeps|done|intros verified _].
  case_bool_decide; by apply stay_ret.
Qed.

(** What a checkpoint came to: the version that was pushed is one the
    workspace has reached. *)
Abbreviation checkpoint_post := (λ (r : result CheckpointError (Z * text)) db,
  match r with Ok (v, _) => reached v db | Err _ => True end).

Lemma push_captured_checkpoint_triple link repository v sha :
  owned None (reached v) (push_captured_checkpoint project link repository v sha) checkpoint_post.
Proof.
  unfold push_captured_checkpoint. eapply (owned_bind None).
  { apply queue_phase_keeps; [apply _|apply reached_stays]. }
  intros [[]|e]; [|by apply (owned_ret None); [apply _|]].
  eapply (owned_bind None).
  { eapply (owned_conseq None); [apply (push_checkpoint_ref_keeps _ _ _ (reached v)); apply _|by intros ? ? [_ ?]|done]. }
  intros [[]|e]; by apply (owned_ret None); [apply _|intros ? _ []].
Qed.

Lemma load_checkpoint_context_triple :
  owned None (λ _, True) (load_checkpoint_context project) (λ r db,
    match r with
    | Ok context => captured_reached (cx_link context) db ∧ reached (cx_workspace_version context) db
    | Err _ => True
    end).
Proof.
  unfold load_checkpoint_context. cbv zeta. eapply (owned_bind None).
  { apply (owned_reads None _ _ (λ o db, match o with Some link => captured_reached link db | None => True end)
             (λ _ _, True)); [apply _|by intros []; apply _|apply _| |done].
    intros db HI _. destruct (checkpoint_link project db) eqn:Hl; [by apply checkpoint_link_captured|done]. }
  intros [[link|]|e]; [|by apply (owned_ret None); [apply _|]..].
  eapply (owned_bind None).
  { apply (owned_reads None _ _ (λ o db, captured_reached link db ∧ match o with Some v => reached v db | None => True end)
             (λ _ _, True)); [apply _|by intros []; apply _|apply _| |done].
    intros db _ Hc. split; [done|]. destruct (project_workspace_version project db) as [v|] eqn:Hv; [|done].
    unfold project_workspace_version in Hv. apply fmap_Some in Hv as (p & Hp & ->). exists p. split; [done|lia]. }
  intros [[v|]|e]; [|by apply (owned_ret None); [apply _|]..].
  apply (owned_ask_then None); [apply _|]. intros [[connector|]|e]; [|by apply (owned_ret None); [apply _|]..].
  apply (owned_ask_then None); [apply _|]. intros [[repository|]|e]; by apply (owned_ret None); [apply _|].
Qed.

Context (message : Z → list (text * text) → list text → text).

Lemma create_and_push_triple context :
  owned None (reached (cx_workspace_version context)) (create_and_push_checkpoint message project context)
    checkpoint_post.
Proof.
  unfold create_and_push_checkpoint. cbv zeta. set (v := cx_workspace_version context).
  eapply (owned_bind None _ _ _ (λ _, reached v)).
  { apply (owned_transaction None); [apply _..|]. intros db s now HI Hv. simpl.
    split; [done|]. split; [by apply guarantee_refl|done]. }
  intros captured_at. apply (owned_ask_then None); [apply _|]. intros [[]|e]; [|by apply (owned_ret None); [apply _|]].
  eapply (owned_bind None); [apply queue_phase_keeps; [apply _|apply (reached_stays v)]|].
  intros [[]|e]; [|by apply (owned_ret None); [apply _|]].
  apply (triple_pre _ _ _ _ (reached v)); [by intros ? _ []|].
  apply (owned_ask_then None); [apply _|]. intros [[]|e]; [|by apply (owned_ret None); [apply _|]].
  eapply (owned_bind None); [apply (keeps_reads _ _ _ (guarantee_refl None) _ (reached v)), _|].
  intros [users|e]; [|by apply (owned_ret None); [apply _|]].
  apply (triple_pre _ _ _ _ (reached v)); [by intros ? _ []|].
  eapply (owned_bind None); [apply (keeps_reads _ _ _ (guarantee_refl None) _ (reached v)), _|].
  intros [guests|e]; [|by apply (owned_ret None); [apply _|]].
  apply (triple_pre _ _ _ _ (reached v)); [by intros ? _ []|].
  apply (owned_ask_then None); [apply _|]. intros [identities|e]; [|by apply (owned_ret None); [apply _|]].
  apply (owned_ask_then None); [apply _|]. intros [sha|e]; [|by apply (owned_ret None); [apply _|]].
  eapply (owned_bind None _ _ _ (λ _, reached v)).
  { apply (owned_transaction None); [apply _..|]. intros db s now HI Hv.
    assert (guarantee None db (capture_checkpoint project v sha captured_at db)) as Hg.
    { apply queue_guarantee; [done|]. by intros c []. }
    unfold autocommit, writes. destruct (s 0%nat); simpl; (split; [|split]); try done; try apply Hg.
    all: by apply guarantee_refl. }
  intros [[]|e]; [|by apply (owned_ret None); [apply _|]].
  eapply (owned_bind None); [apply (push_checkpoint_ref_keeps _ _ _ (reached v)), _|].
  intros [[]|e]; by apply (owned_ret None); [apply _|intros ? _ []].
Qed.

Lemma process_checkpoint_triple :
  owned None (λ _, True) (process_checkpoint message project) checkpoint_post.
Proof.
  unfold process_checkpoint. apply (owned_ask_then None); [apply _|]. intros [[]|e]; [|by apply (owned_ret None); [apply _|]].
  eapply (owned_bind None); [apply load_checkpoint_context_triple|].
  intros [context|e]; [|by apply (owned_ret None); [apply _|]]. cbv zeta.
  destruct (cl_captured_workspace_version (cx_link context)) as [v|] eqn:Hv;
    [destruct (cl_checkpoint_sha (cx_link context)) as [sha|]|].
  - eapply (owned_conseq None); [apply push_captured_checkpoint_triple| |done].
    intros db _ [Hc _]. unfold captured_reached in Hc. by rewrite Hv in Hc.
  - eapply (owned_conseq None); [apply create_and_push_triple|by intros ? _ []|done].
  - eapply (owned_conseq None); [apply create_and_push_triple|by intros ? _ []|done].
Qed.
End checkpoint.

Lemma run_checkpoint_triple message claimed :
  owned None (λ _, True) (run_checkpoint message claimed) (λ _ _, True).
Proof.
  unfold run_checkpoint. eapply (owned_bind None); [apply process_checkpoint_triple|].
  intros [[v sha]|e].
  - eapply (owned_bind None _ _ _ (λ _ _, True)); [|intros; by apply (owned_ret None); [apply _|]].
    apply (owned_transaction None); [apply reached_stable|apply _|]. intros db s now HI Hv.
    pose proof (complete_checkpoint_guarantee (cc_project claimed) s now v sha db HI Hv) as Hg.
    by split; [apply Hg|].
  - eapply (owned_bind None _ _ _ (λ _ _, True)); [|intros; by apply (owned_ret None); [apply _|]].
    apply (owned_transaction None); [apply _..|]. intros db s now HI _.
    pose proof (fail_checkpoint_guarantee s now claimed (checkpoint_error_kind e) (checkpoint_error_code e) db HI) as Hg.
    by split; [apply Hg|].
Qed.
End workers.
