(* ===== verification/ExternalImportFacts.v ===== *)
(** * External repositories: what an import may contain

    An accepted checkout is divided completely into documents and assets with
    distinct canonical paths, within the limits, with an entry document. *)
From S2P Require Import Prelude Store Text Paths PathFacts AccessModel WorkspaceModel.
From S2P Require Import ExternalStatements ExternalImport ExternalSystem.

Open Scope Z_scope.

(** ** Checkouts *)

Definition entry_name (e : TreeEntry) : option text :=
  match e with
  | EntryUnreadable => None
  | EntrySymlink name | EntrySpecial name | EntryFile name _ | EntryDirectory name _ => name
  end.

(** What every file system keeps: the names in a directory differ, none is empty
    and none has a slash. *)
Inductive fs_entries : list TreeEntry → Prop :=
| fs_directory l :
    NoDup (omap entry_name l) → (∀ name, name ∈ omap entry_name l → name ≠ [] ∧ slash ∉ name) →
    (∀ name es, EntryDirectory name (Some es) ∈ l → fs_entries es) → fs_entries l.

(** The files in the order the file system shows them. *)
Fixpoint tree_files (root : bool) (parent : option text) (e : TreeEntry) : list CollectedFile :=
  match e with
  | EntryFile name (Some content) =>
      match entry_path parent name with Some path => [MkCollected path content] | None => [] end
  | EntryDirectory name (Some entries) =>
      if root && bool_decide (name = Some (lit ".git")) then []
      else concat (map (tree_files false (entry_path parent name)) entries)
  | _ => []
  end.
Definition checkout_files (checkout : list TreeEntry) : list CollectedFile :=
  concat (map (tree_files true (Some [])) checkout).

(** ** The walk *)

Section tree_induction.
Context (P : TreeEntry → Prop) (Q : list TreeEntry → Prop).
Context (Punreadable : P EntryUnreadable) (Psymlink : ∀ name, P (EntrySymlink name))
  (Pspecial : ∀ name, P (EntrySpecial name)) (Pfile : ∀ name content, P (EntryFile name content))
  (Pclosed : ∀ name, P (EntryDirectory name None))
  (Pdirectory : ∀ name entries, Q entries → P (EntryDirectory name (Some entries)))
  (Qnil : Q []) (Qcons : ∀ e l, P e → Q l → Q (e :: l)).
Fixpoint tree_entry_ind (e : TreeEntry) : P e :=
  match e with
  | EntryUnreadable => Punreadable
  | EntrySymlink name => Psymlink name
  | EntrySpecial name => Pspecial name
  | EntryFile name content => Pfile name content
  | EntryDirectory name None => Pclosed name
  | EntryDirectory name (Some entries) => Pdirectory name entries
      ((fix all (l : list TreeEntry) : Q l :=
          match l with [] => Qnil | e :: l => Qcons e l (tree_entry_ind e) (all l) end) entries)
  end.
End tree_induction.

Lemma collect_directory limits root parent name entries files total :
  collect_entry limits root parent (EntryDirectory name (Some entries)) files total
  = if bool_decide (name = Some (lit ".git")) then
      if root then Ok (files, total) else Err SubmoduleNotSupported
    else collect_entries limits false (entry_path parent name) entries files total.
Proof.
  simpl. case_bool_decide; [done|]. generalize files, total.
  induction entries as [|e l IH]; intros fs t; simpl; [done|].
  by destruct (collect_entry _ _ _ _ _ _) as [[fs' t']|].
Qed.

(** Every file that is collected is acceptable. *)
Record collectable (limits : ImportLimits) (f : CollectedFile) : Prop := MkCollectable {
  cl_path : canonical_path (cf_path f);
  cl_size : Z.of_nat (length (cf_content f)) ≤ max_file_bytes limits;
  cl_modules : cf_path f ≠ lit ".gitmodules" ∧ ends_with (lit "/.gitmodules") (cf_path f) = false;
  cl_pointer : starts_with lfs_pointer_prefix (take 64 (cf_content f)) = false;
}.
Definition files_size (l : list CollectedFile) : Z :=
  foldr (λ f n, Z.of_nat (length (cf_content f)) + n) 0 l.

Lemma files_size_app l k : files_size (l ++ k) = files_size l + files_size k.
Proof. induction l as [|f l IH]; simpl; [done|]. rewrite IH. lia. Qed.

(** What the walk has collected, when it ends. *)
Record collects (limits : ImportLimits) (new files : list CollectedFile) (total : Z)
    (files' : list CollectedFile) (total' : Z) : Prop := MkCollects {
  co_files : files' = files ++ new;
  co_total : total' = total + files_size new;
  co_each : Forall (collectable limits) new;
  co_count : (length files ≤ max_files limits → length files' ≤ max_files limits)%nat;
  co_bound : total ≤ max_total_bytes limits → total' ≤ max_total_bytes limits;
}.

Lemma collects_nil limits files total : collects limits [] files total files total.
Proof. split; try done; [by rewrite (right_id_L [] (++))|simpl; lia]. Qed.
Lemma collects_app limits new1 new2 files total files1 total1 files2 total2 :
  collects limits new1 files total files1 total1 → collects limits new2 files1 total1 files2 total2 →
  collects limits (new1 ++ new2) files total files2 total2.
Proof.
  intros [-> -> ? ? ?] [-> -> ? ? ?]. split; auto.
  - by rewrite (assoc_L (++)).
  - rewrite files_size_app. lia.
  - by apply Forall_app.
Qed.

Lemma collect_file_spec limits parent name content files total files' total' :
  collect_file limits (entry_path parent name) content files total = Ok (files', total') →
  collects limits (tree_files false parent (EntryFile name content)) files total files' total'.
Proof.
  unfold collect_file. destruct (_ <=? _)%nat eqn:Hn; [done|]. apply Nat.leb_gt in Hn.
  destruct content as [content|]; [|done]. cbn [tree_files].
  destruct (max_file_bytes limits <? _) eqn:Hsize; [done|]. destruct (u64_max <? _) eqn:Hu; [done|].
  destruct (max_total_bytes limits <? _) eqn:Ht; [done|]. destruct (entry_path parent name) as [path|]; [|done].
  destruct (sanitize_project_path path) as [clean|] eqn:Hs; [|done].
  destruct (text_eqb clean path) eqn:Heq; [|done]. apply text_eqb_true in Heq as ->. simpl.
  destruct (_ || _) eqn:Hm; [done|]. apply orb_false_iff in Hm as [Hm1%text_eqb_false Hm2].
  destruct (starts_with _ _) eqn:Hlfs; [done|]. intros [= <- <-]. split; [done|simpl; lia| | |simpl; lia].
  - constructor; [|done]. split; cbn; [by apply sanitize_sound in Hs|lia|done|done].
  - rewrite length_app. simpl. lia.
Qed.

Lemma collect_entry_spec limits e :
  ∀ root parent files total files' total',
    collect_entry limits root parent e files total = Ok (files', total') →
    collects limits (tree_files root parent e) files total files' total'.
Proof.
  apply (tree_entry_ind (λ e, ∀ root parent files total files' total',
    collect_entry limits root parent e files total = Ok (files', total') →
    collects limits (tree_files root parent e) files total files' total') (λ l, ∀ root parent files total files' total',
    collect_entries limits root parent l files total = Ok (files', total') →
    collects limits (concat (map (tree_files root parent) l)) files total files' total')); clear e; try done.
  - intros name content root parent files total files' total'. apply collect_file_spec.
  - intros name root parent files total files' total'. simpl. case_bool_decide; [|done].
    destruct root; [|done]. intros [= <- <-]. apply collects_nil.
  - intros name entries IH root parent files total files' total'. rewrite collect_directory. cbn [tree_files].
    case_bool_decide; [destruct root; [|done]; intros [= <- <-]; apply collects_nil|].
    rewrite andb_false_r. apply IH.
  - intros root parent files total files' total' [= <- <-]. apply collects_nil.
  - intros e l He Hl root parent files total files' total'. simpl.
    destruct (collect_entry _ _ _ _ _ _) as [[fs t]|] eqn:E1; [|done]. intros E2.
    eapply collects_app; [by apply He|by apply Hl].
Qed.

Lemma collect_entries_spec limits l root parent files total files' total' :
  collect_entries limits root parent l files total = Ok (files', total') →
  collects limits (concat (map (tree_files root parent) l)) files total files' total'.
Proof.
  induction l as [|e l IH] in files, total |- *; simpl; [intros [= <- <-]; apply collects_nil|].
  destruct (collect_entry _ _ _ _ _ _) as [[fs t]|] eqn:E1; [|done]. intros E2.
  eapply collects_app; [by apply collect_entry_spec|by apply IH].
Qed.

(** ** The paths of a checkout *)

Definition child (parent name : text) : text :=
  match parent with [] => name | _ => parent ++ slash :: name end.
(** A path at an entry of a directory or below it. *)
Definition under (parent name p : text) : Prop :=
  ∃ t, p = child parent name ++ t ∧ (t = [] ∨ ∃ r, t = slash :: r).
(** Different, and neither inside the other. *)
Definition apart (p q : text) : Prop :=
  p ≠ q ∧ (∀ r, q ≠ p ++ slash :: r) ∧ (∀ r, p ≠ q ++ slash :: r).
Definition all_apart (l : list text) : Prop :=
  NoDup l ∧ ∀ p q r, p ∈ l → q ∈ l → q ≠ p ++ slash :: r.

Lemma entry_path_child parent name : entry_path (Some parent) (Some name) = Some (child parent name).
Proof. by destruct parent. Qed.

Lemma all_apart_app l k :
  all_apart l → all_apart k → (∀ p q, p ∈ l → q ∈ k → apart p q) → all_apart (l ++ k).
Proof.
  intros [Nl Al] [Nk Ak] Hlk. split.
  - apply NoDup_app. split_and!; [done| |done]. intros p Hl Hk. by destruct (Hlk p p Hl Hk).
  - intros p q r [Hp|Hp]%elem_of_app [Hq|Hq]%elem_of_app; [by apply Al| | |by apply Ak].
    + by apply (Hlk p q Hp Hq).
    + by apply (Hlk q p Hq Hp).
Qed.

Lemma segment_inj n1 n2 t1 t2 :
  slash ∉ n1 → slash ∉ n2 → (t1 = [] ∨ ∃ r, t1 = slash :: r) → (t2 = [] ∨ ∃ r, t2 = slash :: r) →
  n1 ++ t1 = n2 ++ t2 → n1 = n2.
Proof.
  intros H1 H2 T1 T2. induction n1 as [|a n1 IH] in n2, H1, H2 |- *; destruct n2 as [|b n2]; simpl; [done|..].
  - intros E. destruct T1 as [->|[r ->]]; [done|]. injection E as <- _. by destruct H2; left.
  - intros E. destruct T2 as [->|[r ->]]; [done|]. injection E as -> _. by destruct H1; left.
  - intros [= -> E]. f_equal. apply IH; [..|done]; set_solver.
Qed.

Lemma under_inj parent n1 n2 p : slash ∉ n1 → slash ∉ n2 → under parent n1 p → under parent n2 p → n1 = n2.
Proof.
  intros H1 H2 (t1 & -> & T1) (t2 & E & T2). revert E. unfold child.
  destruct parent as [|c parent]; [by apply segment_inj|].
  rewrite <-!(assoc_L (++)). intros [= E]. apply (inj (app parent)) in E. injection E as E. revert E.
  by apply segment_inj.
Qed.

Lemma under_inside parent name p r : under parent name p → under parent name (p ++ slash :: r).
Proof.
  intros (t & -> & Ht). exists (t ++ slash :: r). rewrite (assoc_L (++)). split; [done|right].
  destruct Ht as [->|[r' ->]]; [by exists r|by eexists].
Qed.

Lemma under_apart parent n1 n2 p q :
  slash ∉ n1 → slash ∉ n2 → n1 ≠ n2 → under parent n1 p → under parent n2 q → apart p q.
Proof.
  intros H1 H2 Hne Hp Hq. split_and!.
  - intros ->. eauto using under_inj.
  - intros r ->. apply Hne. eapply under_inj; [..|exact Hq]; [done..|by apply under_inside].
  - intros r ->. apply Hne. eapply under_inj; [..|apply under_inside, Hq]; done.
Qed.

Lemma tree_files_None e : ∀ root, tree_files root None e = [].
Proof.
  apply (tree_entry_ind (λ e, ∀ root, tree_files root None e = [])
           (λ l, ∀ root, concat (map (tree_files root None) l) = [])); try done; clear e.
  - by intros name [content|] root.
  - intros name entries IH root. cbn [tree_files]. destruct (_ && _); [done|]. apply IH.
  - intros e l He Hl root. simpl. by rewrite He, Hl.
Qed.

Lemma all_files_None entries root : concat (map (tree_files root None) entries) = [].
Proof. induction entries as [|e l IH]; simpl; [done|]. by rewrite tree_files_None, IH. Qed.
Lemma unnamed_files root parent e : entry_name e = None → tree_files root (Some parent) e = [].
Proof.
  destruct e as [|?|?|name [content|]|name [entries|]]; try done; intros [= ->]; cbn [tree_files].
  - by destruct parent.
  - replace (entry_path (Some parent) None) with (@None text) by by destruct parent.
    rewrite all_files_None. by destruct (_ && _).
Qed.

Lemma tree_files_under e : ∀ root parent name,
  entry_name e = Some name → child parent name ≠ [] →
  Forall (λ f, under parent name (cf_path f)) (tree_files root (Some parent) e).
Proof.
  apply (tree_entry_ind
    (λ e, ∀ root parent name, entry_name e = Some name → child parent name ≠ [] →
       Forall (λ f, under parent name (cf_path f)) (tree_files root (Some parent) e))
    (λ l, ∀ root parent, parent ≠ [] → Forall (λ f, ∃ r, cf_path f = parent ++ slash :: r)
       (concat (map (tree_files root (Some parent)) l)))); try (intros; by constructor); clear e.
  - intros name [content|] root parent ? [= ->] Hne; cbn [tree_files]; [|done].
    rewrite entry_path_child. constructor; [|done]. exists []. by rewrite (right_id_L [] (++)); auto.
  - intros name entries IH root parent ? [= ->] Hne. cbn [tree_files]. destruct (_ && _); [done|].
    rewrite entry_path_child. eapply Forall_impl; [by apply IH|]. intros f [r ->]. exists (slash :: r). eauto.
  - intros e l He Hl root parent Hne. simpl. apply Forall_app. split; [|by apply Hl].
    destruct (entry_name e) as [name|] eqn:Hn.
    + assert (child parent name = parent ++ slash :: name) as Ec by by destruct parent.
      eapply Forall_impl; [apply He; [done|]|].
      * rewrite Ec. by destruct parent.
      * intros f (t & -> & _). rewrite Ec. exists (name ++ t). by rewrite <-(assoc_L (++)).
    + by rewrite unnamed_files.
Qed.

Lemma tree_files_apart l :
  fs_entries l → ∀ root parent, all_apart (cf_path <$> concat (map (tree_files root (Some parent)) l)).
Proof.
  induction 1 as [l Hnd Hok _ IH]. intros root parent.
  assert (∀ e, e ∈ l → all_apart (cf_path <$> tree_files root (Some parent) e)) as Heach.
  { assert (all_apart []) as Hnil by (split; [constructor|by intros ??? ?%elem_of_nil]).
    intros e He. destruct (entry_name e) as [name|] eqn:Hn; [|by rewrite unnamed_files].
    destruct e as [|?|?|? [content|]|? [entries|]]; cbn [entry_name tree_files] in *; simplify_eq; try done.
    - rewrite entry_path_child. split; [apply NoDup_singleton|].
      intros p q r ->%list_elem_of_singleton ->%list_elem_of_singleton E.
      apply (f_equal length) in E. rewrite length_app in E. simpl in E. lia.
    - destruct (_ && _); [done|]. rewrite entry_path_child. by eapply IH. }
  clear IH. induction l as [|e l IHl]; [split; [constructor|by intros ??? ?%elem_of_nil]|]. simpl.
  rewrite fmap_app. apply all_apart_app; [apply Heach; by left|..].
  { apply IHl; [|..|by intros e' He'; apply Heach; right].
    - simpl in Hnd. destruct (entry_name e); [by apply NoDup_cons in Hnd as [_ ?]|done].
    - intros name Hname. apply Hok. simpl. destruct (entry_name e); [by right|done]. }
  intros p q (f & -> & Hf)%list_elem_of_fmap (g & -> & Hg)%list_elem_of_fmap.
  apply list_elem_of_In, in_concat in Hg as (k & Hk%list_elem_of_In & Hg%list_elem_of_In). apply list_elem_of_fmap in Hk as (e' & -> & He').
  destruct (entry_name e) as [n1|] eqn:H1; [|by rewrite unnamed_files in Hf; [apply elem_of_nil in Hf|]].
  destruct (entry_name e') as [n2|] eqn:H2; [|by rewrite unnamed_files in Hg; [apply elem_of_nil in Hg|]].
  assert (n2 ∈ omap entry_name l) as Hin2 by (apply list_elem_of_omap; by exists e').
  simpl in Hnd, Hok. rewrite H1 in Hnd, Hok. apply NoDup_cons in Hnd as [Hn1 _].
  destruct (Hok n1) as [E1 ?]; [by left|]. destruct (Hok n2) as [E2 ?]; [by right|].
  assert (∀ n, n ≠ [] → child parent n ≠ []) as Hchild by by destruct parent.
  eapply (under_apart parent n1 n2); [done|done|..].
  - intros ->. by destruct Hn1.
  - pose proof (tree_files_under e root parent n1 H1 (Hchild n1 E1)) as Hu. by rewrite Forall_forall in Hu; apply Hu.
  - pose proof (tree_files_under e' root parent n2 H2 (Hchild n2 E2)) as Hu. by rewrite Forall_forall in Hu; apply Hu.
Qed.

(** ** The division *)

Definition document_file (d : ImportedExternalGitDocument) : CollectedFile := MkCollected (id_path d) (id_source d).
Definition asset_file (a : ImportedExternalGitAsset) : CollectedFile := MkCollected (ia_path a) (ia_source a).

Section division.
Context (guess_content_type : text → text).

(** A document is valid text at a path of a text file, an asset is at another
    path and has the size of its content. *)
Definition document_ok (d : ImportedExternalGitDocument) : Prop :=
  is_document_text_path (id_path d) = true ∧ is_Some (from_utf8 (id_source d)).
Definition asset_ok (a : ImportedExternalGitAsset) : Prop :=
  is_document_text_path (ia_path a) = false ∧ ia_content_type a = guess_content_type (ia_path a)
  ∧ ia_size_bytes a = Z.of_nat (length (ia_source a)) ∧ ia_size_bytes a ≤ i64_max.

(** The division of the files, as far as it has come. *)
Record divided (files : list CollectedFile) (d : Division) : Prop := MkDivided {
  di_files : (document_file <$> dv_documents d) ++ (asset_file <$> dv_assets d) ≡ₚ files;
  di_documents : Forall document_ok (dv_documents d);
  di_assets : Forall asset_ok (dv_assets d);
  di_directories : ∀ x, x ∈ dv_directories d ↔ ∃ f, f ∈ files ∧ proper_ancestor x (cf_path f);
  di_paths : (id_path <$> dv_documents d) `sublist_of` (cf_path <$> files)
             ∧ (ia_path <$> dv_assets d) `sublist_of` (cf_path <$> files);
}.

Lemma divide_file_spec files f d d' :
  canonical_path (cf_path f) → divided files d → divide_file guess_content_type f d = Ok d' →
  divided (files ++ [f]) d'.
Proof.
  intros Hc [Hf Hd Ha Hdir [S1 S2]]. unfold divide_file.
  assert (∀ x, x ∈ collect_parent_directories (cf_path f) (dv_directories d)
            ↔ ∃ g, g ∈ files ++ [f] ∧ proper_ancestor x (cf_path g)) as Hx.
  { intros x. rewrite collect_parent_directories_spec, Hdir by done. split.
    - intros [(g & Hg & ?)|?]; [exists g|exists f]; split; try done; apply elem_of_app; [by left|right; by left].
    - intros (g & [Hg| ->%list_elem_of_singleton]%elem_of_app & ?); [left; by exists g|by right]. }
  destruct (is_document_text_path (cf_path f)) eqn:Ht.
  - destruct (from_utf8 (cf_content f)) eqn:Hu; [|done]. intros [= <-]. split; cbn; try done.
    + rewrite fmap_app, <-Hf. simpl. rewrite <-!(assoc_L (++)). f_equiv. rewrite (comm (++)). by destruct f.
    + apply Forall_app. split; [done|]. constructor; [|done]. split; [done|]. cbn. by rewrite Hu.
    + rewrite !fmap_app. split; [by apply sublist_app|by apply sublist_inserts_r].
  - destruct (_ <? _) eqn:Hmax; [done|]. intros [= <-]. split; cbn; try done.
    + rewrite fmap_app, (assoc_L (++)), Hf. by destruct f.
    + apply Forall_app. split; [done|]. constructor; [|done]. split_and!; try done. cbn. lia.
    + rewrite !fmap_app. split; [by apply sublist_inserts_r|by apply sublist_app].
Qed.

Lemma divide_files_spec files prior d d' :
  Forall (λ f, canonical_path (cf_path f)) files → divided prior d →
  divide_files guess_content_type files d = Ok d' → divided (prior ++ files) d'.
Proof.
  induction files as [|f files IH] in prior, d |- *; simpl; intros Hc Hd.
  - intros [= <-]. by rewrite (right_id_L [] (++)).
  - apply Forall_cons in Hc as [Hf Hc]. destruct (divide_file _ f d) as [d1|] eqn:E1; [|done]. intros E2.
    rewrite (cons_middle f). rewrite (assoc_L (++)). eapply IH; [done| |done]. by eapply divide_file_spec.
Qed.

(** ** The import *)

(** What the content replacement and the workspace rely on. *)
Record well_formed_import (limits : ImportLimits) (type : ProjectType) (checkout : list TreeEntry)
    (p : PreparedExternalGitImport) : Prop := MkWellFormedImport {
  (** every file of the checkout, once, with its content *)
  wf_files : (document_file <$> pi_documents p) ++ (asset_file <$> pi_assets p) ≡ₚ checkout_files checkout;
  wf_paths : all_apart (cf_path <$> checkout_files checkout);
  wf_each : Forall (collectable limits) (checkout_files checkout);
  wf_documents : Forall document_ok (pi_documents p);
  wf_assets : Forall asset_ok (pi_assets p);
  (** the directories that are needed, sorted like the files *)
  wf_directories : ∀ x, x ∈ pi_directories p ↔
    ∃ f, f ∈ checkout_files checkout ∧ proper_ancestor x (cf_path f);
  wf_sorted : StronglySorted text_le (id_path <$> pi_documents p)
              ∧ StronglySorted text_le (ia_path <$> pi_assets p)
              ∧ StronglySorted text_le (pi_directories p) ∧ NoDup (pi_directories p);
  wf_entry : acceptable_document type (id_path <$> pi_documents p) (pi_entry_file_path p);
  wf_count : (0 < length (checkout_files checkout) ≤ max_files limits)%nat;
  wf_size : 0 ≤ max_total_bytes limits → files_size (checkout_files checkout) ≤ max_total_bytes limits;
}.

#[local] Instance collected_le_total : Total collected_le.
Proof. intros a b. apply text_le_total. Qed.
#[local] Instance collected_le_trans : Transitive collected_le.
Proof. intros a b c. apply text_le_trans. Qed.

Lemma StronglySorted_sublist {A} (R : relation A) l k :
  l `sublist_of` k → StronglySorted R k → StronglySorted R l.
Proof.
  induction 1 as [|x l k Hl IH|x l k Hl IH]; [done|..]; intros [Hall Hk]%StronglySorted_cons; [|by apply IH].
  apply StronglySorted_cons. split; [|by apply IH].
  rewrite Forall_forall in Hall |- *. eauto using elem_of_sublist.
Qed.

(** C22: a checkout that is accepted for import, in any file system: every file in
    it becomes exactly one document or asset with its content; the paths are
    canonical, distinct and never also a directory; documents are text and the
    entry file is one the project type compiles; the directories are the needed
    ones; and the number of files and their sizes are within the limits. *)
Theorem accepted_imports_are_well_formed limits checkout type current sha p :
  fs_entries checkout →
  prepare_external_git_import guess_content_type limits checkout type current sha = Ok p →
  well_formed_import limits type checkout p ∧ pi_remote_sha p = sha.
Proof.
  intros Hfs. unfold prepare_external_git_import.
  destruct (collect_entries _ _ _ _ _ _) as [[files total]|] eqn:Hcol; [|done].
  apply collect_entries_spec in Hcol as [Hfiles Htotal Heach Hcount Hbound].
  simpl in Hfiles, Htotal, Hcount. fold (checkout_files checkout) in Hfiles, Heach, Htotal.
  pose proof (tree_files_apart checkout Hfs true []) as Hapart. fold (checkout_files checkout) in Hapart.
  rewrite <-Hfiles in *. intros Hp.
  assert (files ≠ [] ∧ match divide_files guess_content_type (stable_sort collected_le files) (MkDivision [] [] ∅) with
    | Err f => False
    | Ok d => match choose_entry_file_path type current (id_path <$> dv_documents d) with
              | None => False
              | Some entry => p = MkPrepared (dv_documents d) (sort_text (elements (dv_directories d)))
                                    (dv_assets d) entry sha
              end
    end) as [Hne Hp'].
  { destruct files as [|f files]; [done|]. split; [done|].
    destruct (divide_files _ _ _) as [d|]; [|done]. destruct (choose_entry_file_path _ _ _); [|done]. by injection Hp as <-. }
  clear Hp. destruct (divide_files _ _ _) as [d|] eqn:Hdiv; [|done].
  pose proof (entry_file_is_an_acceptable_document type current (id_path <$> dv_documents d)) as Hentry.
  destruct (choose_entry_file_path _ _ _) as [entry|]; [|done]. subst p. destruct Hentry as [Hentry _].
  assert (Forall (λ f, canonical_path (cf_path f)) files) as Hcan by by eapply Forall_impl; [exact Heach|intros f []].
  apply (divide_files_spec _ []) in Hdiv as [Hperm Hdocs Hassets Hdirs [S1 S2]].
  2: { by rewrite stable_sort_Permutation. }
  2: { split; cbn; [done|constructor|constructor| |split; constructor]. intros y. split; [set_solver|].
       intros (f & Hf & _). by apply elem_of_nil in Hf. }
  simpl in Hperm, S1, S2. assert (∀ x, x ∈ dv_directories d ↔ ∃ f, f ∈ files ∧ proper_ancestor x (cf_path f)) as Hd.
  { intros x. rewrite Hdirs. simpl. by setoid_rewrite elem_of_stable_sort. }
  assert (StronglySorted text_le (cf_path <$> stable_sort collected_le files)) as Hsorted.
  { apply (StronglySorted_fmap cf_path collected_le text_le); [done|]. apply StronglySorted_stable_sort; apply _. }
  split; [|done]. split; rewrite <-?Hfiles; cbn; try done.
  - by rewrite Hperm, stable_sort_Permutation.
  - intros x. by rewrite elem_of_sort_text, elem_of_elements.
  - split_and!; [by eapply StronglySorted_sublist..| |].
    + apply StronglySorted_stable_sort; apply _.
    + unfold sort_text. rewrite stable_sort_Permutation. apply NoDup_elements.
  - split; [destruct files; [done|simpl; lia]|apply Hcount; lia].
  - lia.
Qed.
End division.

Lemma checkout_is_a_tree : fs_entries checkout.
Proof.
  constructor.
  - apply (bool_decide_unpack _). vm_compute. exact I.
  - intros name Hname. repeat (apply elem_of_cons in Hname as [->|Hname]; [split; [done|by apply (bool_decide_unpack _)]|]).
    by apply elem_of_nil in Hname.
  - intros name es Hes. repeat (apply elem_of_cons in Hes as [Hes|Hes]; [simplify_eq|]); [|by apply elem_of_nil in Hes].
    constructor; [apply (bool_decide_unpack _); vm_compute; exact I|..].
    + intros n ->%list_elem_of_singleton. split; [done|by apply (bool_decide_unpack _)].
    + intros n es' Hin%list_elem_of_singleton. done.
Qed.

Lemma accepted_imports_are_well_formed_witness :
  ∃ p, length (pi_documents p) = 1%nat ∧ length (pi_assets p) = 1%nat
    ∧ well_formed_import octet_stream default_import_limits Typst checkout p ∧ pi_remote_sha p = imported_sha.
Proof.
  eexists. split; [|split; [|apply (accepted_imports_are_well_formed octet_stream default_import_limits checkout Typst
    (lit "main.typ") imported_sha); [apply checkout_is_a_tree|vm_compute; reflexivity]]]; reflexivity.
Defined.
