(* ===== verification/ExternalPushes.v ===== *)
(** * External repositories: pushes

    The Git commands of the checkpoint worker, in every run whatever the
    database and the provider answer: a push goes only onto the revision the
    link remembers, and a checkpoint counts as done only after the provider has
    shown its revision on the branch. *)
From S2P Require Import Prelude Store Text Programs Paths AccessModel WorkspaceModel.
From S2P Require Import ExternalStatements ExternalImport ExternalCheckpoints ExternalSystem.

Open Scope Z_scope.

(** A Git command that was run, and its outcome. *)
Record GitCommand : Type := MkGitCommand {
  gc_user : uuid; gc_repository : text; gc_args : list text;
  gc_answer : result ExternalGitCommandFailure text }.
Definition commands_of (X : Type) (e : ExternalGitEvent X) : X → list GitCommand :=
  match e in ExternalGitEvent X return X → list GitCommand with
  | RunCommand user repository args => λ answer, [MkGitCommand user repository args answer]
  | _ => λ _, []
  end.

(** The command has shown the revision of the branch. *)
Definition shows (link : CheckpointLink) (repository : text) (remote : option text) (c : GitCommand) : Prop :=
  ∃ output, c = MkGitCommand (cl_linked_by link) repository (ls_remote_args link) (Ok output)
            ∧ parse_ls_remote output = remote.
Definition pushes (link : CheckpointLink) (repository sha : text) (c : GitCommand) : Prop :=
  gc_user c = cl_linked_by link ∧ gc_repository c = repository ∧ gc_args c = push_args link sha.

(** The commands of one push, and how it ends. *)
Inductive push_run (link : CheckpointLink) (repository sha : text) :
    list GitCommand → result CheckpointError unit → Prop :=
| push_failed_read e :
    push_run link repository sha [MkGitCommand (cl_linked_by link) repository (ls_remote_args link) (Err e)]
      (Err (ProviderCommand e))
| push_there c : shows link repository (Some sha) c → push_run link repository sha [c] (Ok ())
| push_moved c remote :
    shows link repository remote c → base_matches (cl_last_remote_sha link) remote = false →
    push_run link repository sha [c] (Err BranchMoved)
| push_done c1 c2 cs r remote :
    shows link repository remote c1 → base_matches (cl_last_remote_sha link) remote = true →
    pushes link repository sha c2 → (length cs ≤ 1)%nat → Forall (λ c, gc_args c = ls_remote_args link) cs →
    (r = Ok () → ∃ c3, cs = [c3] ∧ shows link repository (Some sha) c3) →
    push_run link repository sha (c1 :: c2 :: cs) r.

Section pushes.
Context (message : Z → list (text * text) → list text → text) (project : uuid).
(** What is known of the link of the project whenever the database is asked. *)
Context (known : CheckpointLink → Prop).
Definition known_link (db : ExternalDB) : Prop := ∀ link, checkpoint_link project db = Some link → known link.
Abbreviation runs := (traced commands_of known_link).
Abbreviation runs_nothing := (unseen commands_of known_link).

Lemma remote_runs link repository os r :
  runs (remote_checkpoint_sha link repository) os r →
  ∃ answer, os = [MkGitCommand (cl_linked_by link) repository (ls_remote_args link) answer]
    ∧ match answer with Ok output => r = Ok (parse_ls_remote output) | Err e => r = Err e end.
Proof.
  intros (os1 & os2 & answer & -> & (x & os' & -> & -> & ->) & [-> ->])%traced_bind.
  exists x. by destruct x.
Qed.

Lemma push_checkpoint_ref_runs link repository sha os r :
  runs (push_checkpoint_ref link repository sha) os r → push_run link repository sha os r.
Proof.
  intros [(e & (answer & -> & He)%remote_runs & ->)|(os1 & os2 & remote & -> & (answer & -> & He)%remote_runs & Hk)]%traced_try;
    destruct answer as [output|e']; simplify_eq; simpl; [by constructor|].
  assert (shows link repository (parse_ls_remote output)
            (MkGitCommand (cl_linked_by link) repository (ls_remote_args link) (Ok output))) as Hshow by by eexists.
  case_bool_decide as Hthere.
  { destruct Hk as [-> ->]. constructor. by rewrite Hthere in Hshow. }
  destruct (base_matches _ _) eqn:Hbase; simpl in Hk; [|destruct Hk as [-> ->]; by econstructor].
  destruct Hk as (pushed & os' & -> & Hk). destruct pushed as [out|e].
  2: { destruct Hk as [-> ->]. eapply push_done; [exact Hshow|done|by split_and!|simpl; lia|done|done]. }
  apply traced_try in Hk as [(e & (answer & -> & Ha)%remote_runs & ->)|
    (os5 & os6 & verified & -> & (answer & -> & Ha)%remote_runs & Hk)].
  - eapply push_done; [exact Hshow|done|by split_and!|simpl; lia|by constructor|done].
  - destruct answer as [output2|e]; simplify_eq. case_bool_decide as Hv; destruct Hk as [-> ->].
    + eapply push_done; [exact Hshow|done|by split_and!|simpl; lia|by constructor|]. intros _.
      eexists. split; [done|]. by exists output2.
    + eapply push_done; [exact Hshow|done|by split_and!|simpl; lia|by constructor|done].
Qed.

(** What the worker does before is not a Git command. *)
Lemma unseen_query {X} (q : time → ExternalDB → result sqlx_error (X * ExternalDB)) : runs_nothing (query q).
Proof. apply unseen_transaction. Qed.
Lemma unseen_commit {X} (q : schedule → time → ExternalDB → X * ExternalDB) : runs_nothing (commit q).
Proof. apply unseen_transaction. Qed.

(** The outcome of a checkpoint is that of its one push, or a failure before. *)
Definition pushed_as (os : list GitCommand) (r : result CheckpointError (Z * text)) : Prop :=
  (os = [] ∧ ∃ e, r = Err e)
  ∨ ∃ link repository sha r', known link ∧ push_run link repository sha os r'
      ∧ ∀ v sha', r = Ok (v, sha') → sha' = sha ∧ r' = Ok ().

Lemma unseen_then {E A} (fail : E → CheckpointError) (p : WorkerProg (result E A))
    (k : A → WorkerProg (result CheckpointError (Z * text))) os r :
  runs_nothing p → (∀ a os r, runs (k a) os r → pushed_as os r) →
  runs (try_bind fail p k) os r → pushed_as os r.
Proof.
  intros Hp Hk [[-> [e ->]]|(a & _ & H)]%unseen_try; [left; eauto|by eapply Hk|done].
Qed.

Lemma push_then link repository v sha os r :
  known link →
  runs (_ ←? push_checkpoint_ref link repository sha | id; mret (Ok (v, sha))) os r → pushed_as os r.
Proof.
  intros Hl [(e & Hr%push_checkpoint_ref_runs & ->)|(os1 & os2 & [] & -> & Hr%push_checkpoint_ref_runs & [-> ->])]%traced_try;
    right; rewrite ?(right_id_L [] (++)); exists link, repository, sha; eexists; (split_and!; [done..|]); [done|].
  by intros v' sha' [= _ <-].
Qed.

(** The context is loaded with the link the database has. *)
Lemma load_context_known os r :
  runs (load_checkpoint_context project) os r →
  os = [] ∧ ∀ context, r = Ok context → known (cx_link context).
Proof.
  unfold load_checkpoint_context. intros [[-> [e ->]]|(o & Hread & Hk)]%unseen_try; [done| |apply unseen_query].
  destruct Hread as (s & now & db & Hf & _ & Hread). destruct o as [link|]; [|by destruct Hk as [-> ->]].
  assert (known link) as Hl.
  { apply Hf. unfold autocommit, reads in Hread. by destruct (s 0%nat); simplify_eq/=. }
  apply unseen_try in Hk as [[-> [e ->]]|([v|] & _ & Hk)]; [done| |by destruct Hk as [-> ->]|apply unseen_query].
  apply unseen_try in Hk as [[-> [e ->]]|([connector|] & _ & Hk)]; [done| |by destruct Hk as [-> ->]|by apply unseen_ask].
  apply unseen_try in Hk as [[-> [e ->]]|([repository|] & _ & Hk)]; [done|..|by apply unseen_ask];
    destruct Hk as [-> ->]; (split; [done|]); by intros ? [= <-].
Qed.

Lemma process_checkpoint_runs os r :
  runs (process_checkpoint message project) os r → pushed_as os r.
Proof.
  unfold process_checkpoint. apply unseen_then; [by apply unseen_ask|]. intros _ os1 r1.
  intros [(e & [-> _]%load_context_known & ->)|(os2 & os3 & context & -> & [-> Hl]%load_context_known & Hk)]%traced_try;
    [left; eauto|]. specialize (Hl _ eq_refl). revert Hk. cbv zeta.
  rewrite (left_id_L [] (++)). generalize os3 as os2. intros os2.
  assert (∀ os r, runs (create_and_push_checkpoint message project context) os r → pushed_as os r) as Hnew.
  { intros os4 r4. unfold create_and_push_checkpoint. cbv zeta.
    intros (os5 & os6 & captured_at & -> & ->%unseen_commit & Hk)%traced_bind. revert Hk.
    rewrite (left_id_L [] (++)).
    repeat (apply unseen_then; [by first [apply unseen_ask|apply unseen_query]|intros ? ? ?]).
    by apply push_then. }
  destruct (cl_captured_workspace_version _) as [v|]; [|apply Hnew].
  destruct (cl_checkpoint_sha _) as [sha|]; [|apply Hnew].
  unfold push_captured_checkpoint. apply unseen_then; [apply unseen_query|]. intros _ os4 r4. by apply push_then.
Qed.

(** C21: in every run of a checkpoint, with any failures and any answers of the
    provider: it counts as done only when its last command has shown its revision
    on the branch, and a push is only ever run right after a command that has
    shown the branch where the link of the project remembers it. *)
Theorem pushes_are_verified os r :
  runs (process_checkpoint message project) os r →
  (∀ v sha, r = Ok (v, sha) →
     ∃ link repository cs c, known link ∧ os = cs ++ [c] ∧ shows link repository (Some sha) c)
  ∧ ∀ cs c cs', os = cs ++ c :: cs' → head (gc_args c) = Some (lit "push") →
      ∃ link repository sha remote b, known link ∧ cs = [b] ∧ shows link repository remote b
        ∧ base_matches (cl_last_remote_sha link) remote = true ∧ pushes link repository sha c.
Proof.
  intros [(-> & e & ->)|(link & repository & sha & r' & Hl & Hrun & Hok)]%process_checkpoint_runs.
  { split; [done|]. intros [|] ? ? ?; done. }
  split.
  - intros v sha' ->. destruct (Hok _ _ eq_refl) as [-> ->]. exists link, repository.
    inversion Hrun as [|c Hs|c remote Hs Hb|c1 c2 cs r remote Hs Hb Hp Hlen Hall Hend]; subst.
    + by exists [], c.
    + destruct (Hend eq_refl) as (c3 & -> & ?). by exists [c1; c2], c3.
  - intros cs c cs' E Hpush. exists link, repository, sha.
    assert (gc_args c ≠ ls_remote_args link) as Hno by by intros Hc; rewrite Hc in Hpush.
    inversion Hrun as [e|c0 (o & -> & _)|c0 remote (o & -> & _) Hb|c1 c2 cs0 r0 remote Hs Hb Hp Hlen Hall Hend]; subst;
      destruct cs as [|b [|b' cs]]; simplify_eq/=.
    + by destruct Hs as (o & -> & _).
    + by exists remote, b.
    + apply Forall_app in Hall as [_ [? _]%Forall_cons]. done.
Qed.
End pushes.

(** The commands of the checkpoint of the sample: one that shows no branch yet,
    the push, and one that shows its revision. *)
Definition sample_commands : list GitCommand := observed commands_of answers healthy 9 0 checkpoint queued_db.

Lemma pushes_are_verified_witness :
  length sample_commands = 3%nat
  ∧ ((∀ v sha, @Ok CheckpointError _ (1, imported_sha) = Ok (v, sha) →
       ∃ link repository cs c, True ∧ sample_commands = cs ++ [c] ∧ shows link repository (Some sha) c)
     ∧ ∀ cs c cs', sample_commands = cs ++ c :: cs' → head (gc_args c) = Some (lit "push") →
         ∃ link repository sha remote b, True ∧ cs = [b] ∧ shows link repository remote b
           ∧ base_matches (cl_last_remote_sha link) remote = true ∧ pushes link repository sha c).
Proof.
  split; [vm_compute; reflexivity|].
  apply (pushes_are_verified checkpoint_message paper (λ _, True)).
  assert ((run_prog answers healthy 9 0 checkpoint queued_db).1 = Ok (1, imported_sha)) as E by (vm_compute; reflexivity).
  rewrite <-E. exact (observed_traced commands_of (known_link paper (λ _, True)) answers healthy 9 0 checkpoint queued_db (λ _ _ _, I)).
Defined.
