(* ===== verification/ExternalTheorems.v ===== *)
(** * External repositories: what holds of every run

    Every state that requests, workers, crashes and the other components reach
    satisfies the invariant; the jobs follow their life cycle; and content is
    replaced in the step that marks a job applied, by the program that claimed
    it. *)
From S2P Require Import Prelude Store Text Programs Paths AccessModel AccessSystem AccessSteps.
From S2P Require Import WorkspaceModel WorkspaceProjects Collaboration WorkspaceSystem WorkspaceFrames.
From S2P Require Import WorkspaceSteps WorkspaceTheorems.
From S2P Require Import ExternalStatements ExternalImport ExternalCheckpoints.
From S2P Require Import ExternalInbound ExternalSystem ExternalInvariant ExternalSteps.
From S2P Require Import ExternalJobs ExternalApply ExternalWorkers.

Open Scope Z_scope.

Section theorems.
Context `{YrsLaws} (update_retention : Z).
Context (uuid_text : uuid → text) (guess_content_type : text → text) (storage : bool)
  (message : Z → list (text * text) → list text → text).
Abbreviation step := (external_step update_retention uuid_text guess_content_type storage message).

(** ** Reachable worlds *)

(** Nothing is linked, nothing is running. *)
Definition external_start (w : ExternalWorld) : Prop :=
  blank (workspace (xw_db w)) ∧ links (xw_db w) = ∅ ∧ checkpoints (xw_db w) = ∅
  ∧ inbound_jobs (xw_db w) = ∅ ∧ xw_tasks w = [].

Inductive external_reachable : ExternalWorld → Prop :=
| external_begin w : external_start w → external_reachable w
| external_next w w' : external_reachable w → step w w' → external_reachable w'.

Definition claim_provider (t : ExternalTask) (db : ExternalDB) : Prop :=
  ∀ provider id j, xt_claim t = Some (provider, id) → inbound_jobs db !! id = Some j → ij_provider j = provider.

Definition task_safe (t : ExternalTask) : ExternalDB → Prop :=
  safe (rely (xt_job t)) (guarantee (xt_job t)) ExternalInv (xt_program t) (λ _ _, True).

(** The invariant of the tables and of the running claims: the job of each, while
    it is there, is one of the provider whose worker has claimed it; no two have
    the same job; and each does what it may, whatever the others do. *)
Record world_ok (w : ExternalWorld) : Prop := MkWorldOk {
  wo_inv : ExternalInv (xw_db w);
  wo_providers : Forall (λ t, claim_provider t (xw_db w)) (xw_tasks w);
  wo_claims : NoDup (omap xt_job (xw_tasks w));
  wo_tasks : Forall (λ t, task_safe t (xw_db w)) (xw_tasks w);
}.

(** What a step does. *)
Record step_ok (w w' : ExternalWorld) : Prop := MkStepOk {
  so_world : world_ok w';
  so_moves : moves (λ _, True) (λ _, stage_edge) (xw_db w) (xw_db w');
  so_applied : newly_applied (xw_db w) (xw_db w') → ∃ id, imported id (xw_db w) (xw_db w');
}.

Lemma task_safe_rely t db db' : rely (xt_job t) db db' → task_safe t db → task_safe t db'.
Proof. apply safe_stable, _. Qed.

(** A job keeps its provider, and none enters under the identifier of a claim. *)
Lemma claim_provider_moves new edge t db db' :
  moves new edge db db' → (∀ id, xt_job t = Some id → ¬ new id) → claim_provider t db → claim_provider t db'.
Proof.
  intros [_ _ Hm Hn] Hfresh Ht provider id j' Hc Hj'. specialize (Hm id). specialize (Hn id).
  destruct (inbound_jobs db !! id) as [j|] eqn:Hj.
  - specialize (Ht _ _ _ Hc Hj). rewrite Hj' in Hm.
    inversion Hm as [| | |? ? ? ? (_ & Ep & _)]; simplify_eq; congruence.
  - destruct (Hfresh id); [unfold xt_job; by rewrite Hc|]. apply Hn; [done|]. by exists j'.
Qed.

(** The worker of an idle provider claims a job no running program has. *)
Lemma idle_worker_claims_anew provider stale now w id j t :
  provider_idle provider w → Forall (λ t, claim_provider t (xw_db w)) (xw_tasks w) →
  due_job provider stale now (xw_db w) = Some (id, j) → t ∈ xw_tasks w → xt_job t ≠ Some id.
Proof.
  intros Hidle Hprov [Hj Hdue]%due_job_spec Hin Ho. unfold xt_job in Ho.
  destruct (xt_claim t) as [[q id']|] eqn:Hc; [|done]. injection Ho as ->.
  rewrite Forall_forall in Hprov. specialize (Hprov _ Hin _ _ _ Hc Hj).
  unfold job_due in Hdue. apply andb_true_iff in Hdue as [Hp%text_eqb_true _].
  apply (Hidle _ Hin). rewrite Hc. simpl. congruence.
Qed.

Lemma moves_not_applied new edge db db' :
  (∀ id sha v, ¬ edge id Running (AppliedRunning sha v)) → moves new edge db db' → ¬ newly_applied db db'.
Proof.
  intros Hno [_ _ Hm _] (id & j & j' & sha & v & Hj & Hs & Hj' & Hs'). specialize (Hm id).
  rewrite Hj, Hj' in Hm. inversion Hm; simplify_eq. eapply Hno. by simplify_option_eq.
Qed.

(** A step of the tables in which no running task's job moves. *)
Lemma others_step new edge w db' tasks :
  world_ok w → moves new edge (xw_db w) db' →
  (∀ t id s s', t ∈ tasks → xt_job t = Some id → edge id s s' →
     stage_running s = false ∧ stage_running s' = false) →
  (∀ t, t ∈ tasks → t ∈ xw_tasks w) →
  Forall (λ t, task_safe t db') tasks.
Proof.
  intros [_ _ _ Ht] Hm Hno Hsub. apply Forall_forall. intros t Hin. rewrite Forall_forall in Ht.
  eapply task_safe_rely; [|by apply Ht, Hsub].
  eapply moves_rely; [exact Hm|]. intros id s s' Ho. by eapply Hno.
Qed.

Lemma providers_step (new : uuid → Prop) edge w db' tasks :
  world_ok w → moves new edge (xw_db w) db' →
  (∀ t id, t ∈ xw_tasks w → xt_job t = Some id → ¬ new id) → (∀ t, t ∈ tasks → t ∈ xw_tasks w) →
  Forall (λ t, claim_provider t db') tasks.
Proof.
  intros [_ Hp _ _] Hm Hnew Hsub. apply Forall_forall. intros t Hin. rewrite Forall_forall in Hp.
  eapply claim_provider_moves; [exact Hm| |by apply Hp, Hsub]. intros id. by apply Hnew, Hsub.
Qed.

Lemma moves_stages new edge db db' :
  (∀ id s s', edge id s s' → stage_edge s s') → moves new edge db db' → moves (λ _, True) (λ _, stage_edge) db db'.
Proof. intros He. by apply moves_mono. Qed.

Lemma step_of_moves (new : uuid → Prop) edge w db' :
  world_ok w → moves new edge (xw_db w) db' →
  (∀ t id, t ∈ xw_tasks w → xt_job t = Some id → ¬ new id) →
  (∀ id s s', edge id s s' → user_edge s s') →
  step_ok w (MkExternalWorld db' (xw_tasks w)).
Proof.
  intros Hw Hm Hnew Hu. split; cbn.
  - split; cbn; [apply Hm|by eapply providers_step|apply Hw|]. eapply others_step; [done|exact Hm| |done].
    intros t id s s' _ _ He. by destruct (Hu _ _ _ He).
  - eapply moves_stages; [|exact Hm]. intros id s s' He. right. right. eauto.
  - intros []%(moves_not_applied new edge); [|exact Hm]. intros id sha v He%Hu. inversion He.
Qed.

Lemma background_quiet db db' : background db db' → ExternalInv db → quiet db db'.
Proof.
  intros [] HI.
  destruct (workspace_inv_calm 0%N (workspace db) (workspace db')) as [Hw Hg]; [by apply calm_queue|done|apply HI|].
  split; [|done|done]. by apply (inv_other_tables db).
Qed.

(** A claim starts a task for a job no running task has. *)
Lemma claim_inbound_step s now provider w :
  provider_idle provider w → world_ok w →
  step_ok w (MkExternalWorld (claim_inbound uuid_text guess_content_type storage s now provider (xw_db w)).2
    ((claim_inbound uuid_text guess_content_type storage s now provider (xw_db w)).1 ++ xw_tasks w)).
Proof.
  intros Hidle Hw. unfold claim_inbound. set (stale := stale_before now STALE_INBOUND_MINUTES).
  assert (∀ id j t, due_job provider stale now (xw_db w) = Some (id, j) → t ∈ xw_tasks w → xt_job t ≠ Some id)
    as Hl by (intros id j t; by apply idle_worker_claims_anew; [|apply Hw]).
  pose proof (claim_due_job_moves (λ _, False) s provider stale now _ (wo_inv _ Hw)) as Hm.
  pose proof (claim_due_job_claim s provider stale now (xw_db w)) as Hclaim.
  destruct (autocommit _ _ _ _) as [r db'] eqn:Ha. cbn [fst snd] in *.
  assert (moves (λ _, True) (λ _, stage_edge) (xw_db w) db') as Hedges.
  { eapply moves_stages; [|exact Hm]. intros ? ? ? [_ ?]. by left. }
  assert (Forall (λ t, claim_provider t db') (xw_tasks w)) as Hprov.
  { eapply providers_step; [done|exact Hm| |done]. by intros ? ? ? ? []. }
  assert (Forall (λ t, task_safe t db') (xw_tasks w)) as Htasks.
  { eapply others_step; [done|exact Hm| |done].
    intros t id s1 s2 Hin Ho [[j Hd] _]. by destruct (Hl _ _ _ Hd Hin). }
  split; cbn; [|done|].
  - split; cbn; [apply Hm| | |].
    + destruct r as [[claimed|]|e]; simpl; [|done..]. constructor; [|done].
      destruct (Hclaim claimed db' (wo_inv _ Hw) eq_refl) as [[j0 Hd] (j & Hj & _)].
      intros q id j' [= <- <-] Hj'. assert (j' = j) as -> by congruence.
      destruct (claimed_job_row _ _ _ _ _ _ _ Ha) as (j1 & Hd1 & Hj1).
      apply due_job_spec in Hd1 as [_ Hd1]. unfold job_due in Hd1.
      apply andb_true_iff in Hd1 as [Hp%text_eqb_true _].
      rewrite Hj1 in Hj'. injection Hj' as <-. done.
    + destruct r as [[claimed|]|e]; simpl; [|apply Hw..]. apply NoDup_cons. split; [|apply Hw].
      destruct (Hclaim claimed db' (wo_inv _ Hw) eq_refl) as [[j Hd] _].
      intros (t & Hin & Ho)%list_elem_of_omap. by destruct (Hl _ _ _ Hd Hin).
    + destruct r as [[claimed|]|e]; simpl; [|done..]. constructor; [|done].
      destruct (Hclaim claimed db' (wo_inv _ Hw) eq_refl) as [_ Hheld].
      apply run_inbound_triple; [apply Hm|by apply claim_holds_held].
  - intros Hn. exfalso. revert Hn. eapply moves_not_applied; [|exact Hm]. intros id sha v [_ He]. inversion He.
Qed.

Lemma claim_checkpoint_step s now provider w :
  world_ok w →
  step_ok w (MkExternalWorld (claim_checkpoint message s now provider (xw_db w)).2
    ((claim_checkpoint message s now provider (xw_db w)).1 ++ xw_tasks w)).
Proof.
  intros Hw. unfold claim_checkpoint. set (stale := stale_before now STALE_CHECKPOINT_MINUTES).
  pose proof (claim_due_quiet s provider stale now _ (wo_inv _ Hw)) as Hq.
  destruct (autocommit _ _ _ _) as [r db'] eqn:Ha. cbn [fst snd] in *.
  destruct (step_of_moves (λ _, False) (λ _ _ _, False) w db' Hw (quiet_moves _ _ _ _ Hq)
              ltac:(by intros ? ? ? ? []) ltac:(done)) as [[Hi Hpr Hc Ht] Hm Hn].
  cbn in *. split; cbn; [|done|done]. destruct r as [[claimed|]|e]; simpl; [|by split..].
  split; cbn; [done|by constructor|done|]. constructor; [|done]. by apply run_checkpoint_triple.
Qed.

Lemma program_guarantee w l1 t l2 p' db' :
  world_ok w → xw_tasks w = l1 ++ t :: l2 → prog_step (xt_program t) (xw_db w) p' db' →
  task_safe (MkExternalTask (xt_claim t) p') db' ∧ guarantee (xt_job t) (xw_db w) db'.
Proof.
  intros [HI _ _ Hts] El Hp. rewrite El in Hts. pose proof Hts as (_ & [Ht _]%Forall_cons)%Forall_app.
  destruct (safe_step _ _ _ _ _ _ _ _ Ht HI Hp) as (Hp' & _ & [->|Hg]); [|done].
  by split; [|apply guarantee_refl].
Qed.

(** A step of a program is a step its claim allows. *)
Lemma program_step l1 t l2 w p' db' :
  xw_tasks w = l1 ++ t :: l2 → prog_step (xt_program t) (xw_db w) p' db' → world_ok w →
  step_ok w (MkExternalWorld db' (l1 ++ MkExternalTask (xt_claim t) p' :: l2)).
Proof.
  intros El Hp Hw. destruct (program_guarantee w l1 t l2 p' db') as [Hp' [Hm _ Hap]]; [done..|].
  pose proof Hw as [_ _ Hnd _]. rewrite El in Hnd.
  assert (∀ t', t' ∈ l1 ++ l2 → ∀ id, xt_job t' = Some id → xt_job t ≠ Some id) as Hothers.
  { intros t' Hin id E' E. rewrite omap_app in Hnd. simpl in Hnd. rewrite E in Hnd.
    apply NoDup_app in Hnd as (_ & Hd & [Hd2 _]%NoDup_cons).
    apply elem_of_app in Hin as [Hin|Hin].
    - apply (Hd id); [|by left]. apply list_elem_of_omap. by exists t'.
    - apply Hd2, list_elem_of_omap. by exists t'. }
  assert (Forall (λ t, task_safe t db') (l1 ++ l2)) as Hrest.
  { eapply others_step; [done|exact Hm| |].
    - intros t' id s s' Hin Ho [E _]. by destruct (Hothers _ Hin _ Ho).
    - intros t' Hin. rewrite El. apply elem_of_app in Hin as [?|?]; apply elem_of_app; [by left|right; by right]. }
  assert (Forall (λ t', claim_provider t' db') (xw_tasks w)) as Hprov.
  { eapply providers_step; [done|exact Hm| |done]. by intros ? ? ? ? []. }
  split; cbn.
  - split; cbn; [apply Hm| |by rewrite !omap_app in *|].
    + rewrite El in Hprov. apply Forall_app in Hprov as [? [Ht ?]%Forall_cons].
      apply Forall_app. split; [done|]. by constructor.
    + apply Forall_app in Hrest as [??]. apply Forall_app. split; [done|]. by constructor.
  - eapply moves_stages; [|exact Hm]. intros ? ? ? [_ ?]. right. by left.
  - intros Hn. destruct (Hap Hn) as (id & _ & ?). by exists id.
Qed.

Lemma external_step_ok w w' : world_ok w → step w w' → step_ok w w'.
Proof.
  intros Hw Hs. revert Hw. destruct Hs as [s now op w0 Hok Hfresh|l1 t l2 w0 p' db' El Hp|l1 t l2 w0 El|s now provider w0 Hl
    |s now provider w0|w0 db' Hb]; intros Hw.
  - eapply step_of_moves; [done|by apply run_external_moves, Hw| |done]. intros t id Hin Ho. by apply (Hfresh t).
  - by eapply program_step.
  - destruct Hw as [HI Hpr Hnd Ht]. rewrite El in Hpr, Ht, Hnd. apply Forall_app in Ht as [? [_ ?]%Forall_cons].
    apply Forall_app in Hpr as [? [_ ?]%Forall_cons].
    split; cbn; [split; cbn; [done|by apply Forall_app| |]|by apply quiet_moves, still_quiet|by intros ?%not_newly_applied].
    + rewrite omap_app in Hnd |- *. simpl in Hnd. destruct (xt_job t); [|exact Hnd].
      eapply sublist_NoDup; [exact Hnd|]. apply sublist_app; [done|]. by apply sublist_cons.
    + by apply Forall_app.
  - by apply claim_inbound_step.
  - by apply claim_checkpoint_step.
  - eapply (step_of_moves (λ _, False) (λ _ _ _, False)); [done| |by intros ? ? ? ? []|done]. by apply quiet_moves, background_quiet, Hw.
Qed.

Lemma external_start_ok w : external_start w → world_ok w.
Proof.
  intros (Hb & El & Ec & Ej & Et). split; rewrite ?Et; [|by constructor..].
  destruct (reachable_inv 0 (workspace (xw_db w)) (workspace_start _ _ Hb)) as (? & ? & ?).
  split; rewrite ?El, ?Ec, ?Ej; try (intros *; by rewrite lookup_empty). by split.
Qed.

Lemma external_reachable_ok w : external_reachable w → world_ok w.
Proof. induction 1 as [|w w' _ IH Hs]; [by apply external_start_ok|]. by apply (external_step_ok w). Qed.

Lemma runs_reachable job db p db' p' :
  external_reachable (MkExternalWorld db [MkExternalTask job p]) → runs_to (p, db) (p', db') →
  external_reachable (MkExternalWorld db' [MkExternalTask job p']).
Proof.
  intros Hr. remember (p, db) as a eqn:Ea. remember (p', db') as b eqn:Eb. intros Hs.
  induction Hs as [|? [p1 db1] ? Hstep _ IH] in p, db, Ea, Hr, Eb |- *.
  - by simplify_eq.
  - subst. eapply IH; [|done..]. eapply external_next; [exact Hr|].
    by apply (step_program _ _ _ _ _ [] (MkExternalTask job p) []).
Qed.

(** A job that is requeued forgets what was applied. *)
Lemma requeueing_forgets now claimed code j db :
  inbound_jobs db !! cj_id claimed = Some j → processing_job j = true → is_Some (job_stage j) →
  ∃ j', inbound_jobs (record_failure healthy now claimed (retryable code) db).2 !! cj_id claimed = Some j'
    ∧ job_stage j' = Some Waiting
    ∧ untouched (workspace db) (workspace (record_failure healthy now claimed (retryable code) db).2).
Proof.
  intros Hj Hp [st Hs]. unfold record_failure. cbv [retryable failure_transition if_policy if_error_code].
  set (at' := now + _). set (f := failed_job JobRetryWait PhaseQueued at' code now).
  apply (transact_healthy _ _ (λ _ db', ∃ j', inbound_jobs db' !! cj_id claimed = Some j'
    ∧ job_stage j' = Some Waiting ∧ untouched (workspace db) (workspace db'))).
  assert (job_stage (f j) = Some Waiting) as Hf by (clear -Hp Hs; by stage_cases j).
  assert (fail_job (cj_id claimed) JobRetryWait PhaseQueued at' code now db
          = Ok (true, with_jobs (insert (cj_id claimed) (f j)) db)) as Hfail.
  { unfold fail_job, update_job. rewrite Hj, Hp. done. }
  apply wp_bind. unfold wp at 1, exec. simpl. rewrite Hfail. simpl.
  exists (f j). cbn. by rewrite lookup_insert_eq.
Qed.

(** The next claim of the job knows nothing as applied. *)
Definition imports_anew (j : InboundJobRow) : Prop :=
  ∀ id now, let j' := claimed_job now j in
  applied_state (MkClaimedJob id (ij_project j') (ij_attempt_count j') (ij_phase j') (ij_remote_sha j')
    (ij_applied_workspace_version j')) = None.

(** ** The properties *)

(** C18: whatever requests, workers, crashes and failing servers do, in any order:
    the tables stay consistent (a link belongs to a project and a grant, a
    repository is linked to one project, a checkpoint captures all or nothing,
    the columns of a job belong together, a project has at most one active job
    and none while a checkpoint is queued), and no two running claims have the
    same job.  The last holds because one server process runs, whose inbound
    worker of a provider takes up its claims one after the other, because a job
    stays with its provider, and because new jobs have fresh identifiers; the
    lease of a job may be over while its program still runs. *)
Theorem external_tables_stay_consistent w :
  external_reachable w → ExternalInv (xw_db w) ∧ NoDup (omap xt_job (xw_tasks w)).
Proof. by intros [HI _ Hnd _]%external_reachable_ok. Qed.

(** C19: an inbound job follows its life cycle in every step of the system: it
    enters waiting, a claim starts it, its program applies the content, finishes,
    retries, suspends or rejects it, authorization takes a suspended one up, and
    it disappears only when nothing is left to do for it. *)
Theorem inbound_jobs_follow_their_life_cycle w w' id :
  external_reachable w → step w w' →
  row_change stage_edge (inbound_jobs (xw_db w) !! id) (inbound_jobs (xw_db w') !! id)
  ∧ versions_grow (workspace (xw_db w)) (workspace (xw_db w')).
Proof. intros Hw Hs. destruct (so_moves _ _ (external_step_ok w w' (external_reachable_ok w Hw) Hs)). by split. Qed.

(** C20: the step that marks a job applied is the step that replaces the content
    of its project: the workspace version and the content epoch grow by one, the
    job keeps that version and the link the imported revision; and in no other
    step does a worker touch what a reader of a project sees. *)
Theorem content_changes_with_its_job w w' :
  external_reachable w → step w w' →
  (newly_applied (xw_db w) (xw_db w') → ∃ id, imported id (xw_db w) (xw_db w'))
  ∧ ∀ l1 t l2 p' db', xw_tasks w = l1 ++ t :: l2 → prog_step (xt_program t) (xw_db w) p' db' →
      untouched (workspace (xw_db w)) (workspace db')
      ∨ ∃ id, xt_job t = Some id ∧ imported id (xw_db w) db'.
Proof.
  intros Hw%external_reachable_ok Hs. split; [by apply external_step_ok|].
  intros l1 t l2 p' db' El Hp. by eapply program_guarantee.
Qed.

(** When the worker cannot read the link of a job whose content is already
    applied, the job goes back to the queue without what was applied, and the
    next claim imports the repository again, over later edits of the project. *)
Theorem failed_reload_forgets_the_import claimed a db :
  ExternalInv db → claim_holds claimed db → applied_state claimed = Some a →
  ∃ p' db' j, runs_to (run_inbound uuid_text guess_content_type storage claimed, db) (p', db')
    ∧ inbound_jobs db' !! cj_id claimed = Some j ∧ job_stage j = Some Waiting
    ∧ untouched (workspace db) (workspace db')
    ∧ imports_anew j.
Proof.
  intros HI (j & Hj & _ & Hs) Ha. rewrite Ha in Hs.
  pose proof (job_stage_processing _ _ Hs) as Hp. simpl in Hp.
  destruct (requeueing_forgets 0 claimed RepositoryImportStateFailed j db) as (j' & Hj' & Hst & Hu); [done..|].
  set (failure := retryable RepositoryImportStateFailed) in *.
  exists (mret ()), (record_failure healthy 0 claimed failure db).2, j'. split.
  { apply (rtc_l _ _ (commit (λ s now, record_failure s now claimed failure) ≫= λ _, mret (), db)).
    - by exists (λ _, Refused), 0.
    - apply rtc_once. by exists healthy, 0. }
  split_and!; [exact Hj'|done|done|]. intros id now. clear -Hst. by stage_cases j'.
Qed.
End theorems.

(** ** The properties at the import of the sample *)

Abbreviation sample_reachable := (external_reachable retention write_uuid octet_stream false checkpoint_message).
Abbreviation sample_step := (external_step retention write_uuid octet_stream false checkpoint_message).

Lemma claim_reachable now db :
  sample_reachable (MkExternalWorld db []) →
  sample_reachable (MkExternalWorld (claim_inbound write_uuid octet_stream false healthy now gitlab db).2
                      (claim_inbound write_uuid octet_stream false healthy now gitlab db).1).
Proof.
  intros Hr. rewrite <-(app_nil_r (claim_inbound _ _ _ _ _ _ _).1). eapply external_next; [exact Hr|].
  apply (step_claim_inbound _ _ _ _ _ healthy now gitlab (MkExternalWorld db [])).
  by intros t ?%elem_of_nil.
Qed.
Lemma request_reachable now op db :
  sample_reachable (MkExternalWorld db []) → external_op_ok op →
  sample_reachable (MkExternalWorld (run_external retention healthy now op db) []).
Proof.
  intros Hr Hop. eapply external_next; [exact Hr|].
  apply (step_external _ _ _ _ _ healthy now op (MkExternalWorld db [])); [done|].
  by intros t id ?%elem_of_nil.
Qed.
Lemma paper_claimed_reachable : sample_reachable (MkExternalWorld claimed_paper.2 claimed_paper.1).
Proof. apply claim_reachable, request_reachable; [by apply external_begin|done]. Qed.
Lemma paper_claimed : claimed_paper.1 = [MkExternalTask (Some (gitlab, import_job)) worker].
Proof.
  assert ((autocommit healthy 0 (claim_due_job gitlab (stale_before 6 STALE_INBOUND_MINUTES) 6) paper_db).1
          = Ok (Some the_claim)) as E by (vm_compute; reflexivity).
  revert E. unfold claimed_paper, claim_inbound. by destruct (autocommit _ _ _ paper_db) as [r db]; simpl; intros ->.
Qed.
Lemma paper_at_reachable n : sample_reachable (paper_at n).
Proof.
  pose proof paper_claimed_reachable as Hr. rewrite paper_claimed in Hr.
  eapply runs_reachable; [exact Hr|]. rewrite <-surjective_pairing. apply run_steps_reach.
Qed.

(** The seventeenth step applies the content. *)
Lemma paper_steps n : finished (worker_after n).1 = false → sample_step (paper_at n) (paper_at (S n)).
Proof.
  intros Hf. apply (step_program _ _ _ _ _ [] (MkExternalTask (Some (gitlab, import_job)) (worker_after n).1) []); [done|].
  by apply run_steps_S.
Qed.

Lemma external_tables_stay_consistent_witness :
  ExternalInv (xw_db (paper_at 17)) ∧ NoDup (omap xt_job (xw_tasks (paper_at 17))).
Proof.
  apply (external_tables_stay_consistent retention write_uuid octet_stream false checkpoint_message).
  apply paper_at_reachable.
Defined.

Lemma inbound_jobs_follow_their_life_cycle_witness :
  row_change stage_edge (inbound_jobs (xw_db (paper_at 16)) !! import_job)
    (inbound_jobs (xw_db (paper_at 17)) !! import_job)
  ∧ versions_grow (workspace (xw_db (paper_at 16))) (workspace (xw_db (paper_at 17))).
Proof.
  apply (inbound_jobs_follow_their_life_cycle retention write_uuid octet_stream false checkpoint_message).
  - apply paper_at_reachable.
  - apply paper_steps. vm_compute. reflexivity.
Defined.

(** The seventeenth step of the worker applies the content. *)
Lemma paper_applied : newly_applied (worker_after 16).2 (worker_after 17).2.
Proof.
  destruct (inbound_jobs (worker_after 16).2 !! import_job) as [j|] eqn:Hj; [|by vm_compute in Hj].
  destruct (inbound_jobs (worker_after 17).2 !! import_job) as [j'|] eqn:Hj'; [|by vm_compute in Hj'].
  exists import_job, j, j', imported_sha, 1. split_and!; [done| |done|].
  - vm_compute in Hj. by injection Hj as <-.
  - vm_compute in Hj'. by injection Hj' as <-.
Qed.

Lemma content_changes_with_its_job_witness :
  newly_applied (xw_db (paper_at 16)) (xw_db (paper_at 17))
  ∧ ((newly_applied (xw_db (paper_at 16)) (xw_db (paper_at 17)) →
        ∃ id, imported id (xw_db (paper_at 16)) (xw_db (paper_at 17)))
     ∧ ∀ l1 t l2 p' db', xw_tasks (paper_at 16) = l1 ++ t :: l2 →
         prog_step (xt_program t) (xw_db (paper_at 16)) p' db' →
         untouched (workspace (xw_db (paper_at 16))) (workspace db')
         ∨ ∃ id, xt_job t = Some id ∧ imported id (xw_db (paper_at 16)) db').
Proof.
  split; [apply paper_applied|].
  apply (content_changes_with_its_job retention write_uuid octet_stream false checkpoint_message (paper_at 16) (paper_at 17)).
  - apply paper_at_reachable.
  - apply paper_steps. vm_compute. reflexivity.
Defined.

(** The job claimed again after its worker has crashed there. *)
Definition reclaimed : ClaimedInboundJob := MkClaimedJob import_job paper 2 PhaseRevision (Some imported_sha) (Some 1).

Lemma failed_reload_forgets_the_import_witness :
  ∃ p' db' j, runs_to (run_inbound write_uuid octet_stream false reclaimed, (worker_after 17).2) (p', db')
    ∧ inbound_jobs db' !! cj_id reclaimed = Some j ∧ job_stage j = Some Waiting
    ∧ untouched (workspace (worker_after 17).2) (workspace db')
    ∧ imports_anew j.
Proof.
  apply (failed_reload_forgets_the_import write_uuid octet_stream false reclaimed (MkApplied imported_sha 1)).
  - apply (wo_inv _ (external_reachable_ok _ _ _ _ _ _ (paper_at_reachable 17))).
  - destruct (inbound_jobs (worker_after 17).2 !! import_job) as [j|] eqn:Hj; [|by vm_compute in Hj].
    exists j. split; [done|]. vm_compute in Hj. by injection Hj as <-.
  - reflexivity.
Defined.
